(* ===== verification/_CoqProject ===== *)
-Q . S2P
Prelude.v
PyFloat.v
Rounding.v
PyVal.v
PyTime.v
Store.v
Lanes.v
GpuPool.v
Tasks.v
Rounds.v
Bus.v
PhaseChain.v
PhaseMachine.v
PhaseClock.v
PhaseState.v
Protocol.v
Specialists.v
PolicyGate.v
PolicyRules.v
OperatorName.v
KernelQueue.v
KernelRules.v
PhaseFacts.v
PhaseDrive.v
ConfigRounds.v
Admission.v
Reconcile.v
Runner.v
Dispatcher.v
DispatchRules.v
Dicts.v
TestRequests.v
WorkQueue.v
Roster.v
ForkContracts.v
ForkDesk.v
RepoContract.v
GitRepo.v
RuleGate.v
Claims.v
Segments.v
CardLeases.v
LeaseLedger.v
Recipes.v
RepoMerge.v
SessionBudget.v
GradedMetrics.v
InferenceXRule.v
AgentXRule.v
Judging.v
KeepDecision.v
ServerArgs.v
Launches.v
KeptLaunch.v
