(* ===== verification/Prelude.v ===== *)
(** * Hyperloom: a verified model of the coordinator core

    Hyperloom tunes inference servers.  A session is driven by one process, the Coordinator, which
    keeps two kinds of state: a SQLite database shared with its workers (leases on GPU lanes and
    cards, delegated tasks, bring-up rounds, a message log with cursors) and a shared session state
    that a phase machine moves through PRELUDE, ENABLEMENT, FRAMEWORK_AGENT, KERNEL_AGENT, SWEEP and
    CLOSE, looping over macro-cycles.  A multi-branch session runs several such searches side by side:
    a scheduler keeps the roster of branches and admits new ones, a toolbox queues their tests on shared
    cards, a rule gate lands judged changes as commits of an experiment repository, and a blackboard in a
    shared folder holds claims and append-only records.  This library models these, function by function,
    from [src/src/hyperloom] and [src/src/hyperloom_multibranch], and proves what keeps them correct.

    ** Files

    - [Prelude]: Python exceptions and results ([res]), the two effect monads of the database ([Tx]
      for the body of a transaction, [Io] around it), list lemmas and tactics.
    - [PyFloat]: Python floats as a class of operations with two instances, IEEE 754 [binary64] and
      the exact rationals, and the order laws both satisfy.
    - [PyVal]: strings, JSON values and insertion-ordered dicts; [int], [float], [str], [repr].
    - [PyTime]: ISO timestamps of a float ([_lease_iso]).
    - [Store]: the tables ([bus/storage/schema.py], [session/coordinator_db.py],
      [state/task_states.py]) as the record [DB].
    - [Lanes]: [bus/resource_lock.py], with [common/owner_scope.py].
    - [GpuPool]: [bus/gpu_pool.py] and [common/visible_devices.py].
    - [Tasks]: [state/task_registry.py].
    - [Rounds]: [state/round_store.py].
    - [Bus]: [bus/message_bus.py], [bus/cursor_store.py], [bus/db_maintenance.py], the inbox part of
      [loop/conversation.py] and the replay of undecided proposals in [loop/_resume_replay.py].
    - [PhaseChain]: [phases/phase_chain.py] and [breakdown/stop_reasons.py].
    - [PhaseMachine]: the phase decision: [replay_next_phase] and all it calls in
      [phases/machine_state.py], [phases/exit_predicates.py] and [phases/prelude_exits.py].
    - [PhaseClock]: the session clock and phase budgets ([phases/machine_state.py],
      [state/_shared_state/budget.py], [elapsed.py]).
    - [PhaseState]: the state part of [_commit_transition] ([phases/machine.py]), the rows it
      records and the macro-cycle it opens, and runs of the machine.
    - [Protocol]: intents, envelope validation and roles ([protocol/intent.py], [roles/agent_role.py]).
    - [Specialists]: domains, dispatch tags, profiles and the in-flight refusal ([specialists/domains.py],
      [profile.py], [in_flight.py], [policy/specialist_in_flight.py]).
    - [PolicyGate]: [policy/gate.py] with [policy/projection.py], [custom_specialist.py] and
      [send_message.py]; [PolicyRules]: what it guarantees.
    - [OperatorName]: [normalize_operator_name] ([kernelforge/.../identity/implementation.py]).
    - [KernelQueue]: the patch queue and its ledgers ([kernel/kernel_decisions.py], [patch_landing.py],
      [nomination_result.py], the drain of [phases/kernel_stack.py]); [KernelRules]: what they guarantee.
    - [PhaseFacts]: the readers that freeze a decision's inputs ([phases/machine_state.py],
      [controller_settlement.py]); [PhaseDrive] and [ConfigRounds]: the machine driven by them, and the
      fold of configuration attempts into rounds.
    - [Admission]: [loop/time_budget.py], the gates of [loop/dispatcher.py], [phases/dispatch_order.py].
    - [Reconcile]: the pass that queues refused patches again ([loop/dispatcher.py]).
    - [Runner]: one task's run ([loop/sub_agent_runner.py]).
    - [Dispatcher]: the pass over the queue and the stages of an execution ([loop/dispatcher.py]), and the
      transition barrier ([phases/machine.py]); [DispatchRules]: every interleaving of them.

    Of the multi-branch system ([src/src/hyperloom_multibranch], unless another package is named):

    - [Dicts]: insertion-ordered dicts as these files use them, and enums read from their values.
    - [TestRequests]: [TestRequest] and its checks ([hyperloom/contracts/measurement.py], [_validate.py]).
    - [WorkQueue]: the toolbox's test queue ([toolbox/queue.py]).
    - [Roster]: [scheduling/roster.py] with its snapshot file.
    - [ForkContracts]: [contracts/intent.py], [judgement.py], [fork.py], the conclusions of
      [contracts/blackboard/vocab.py] and [rulegate/decision.py].
    - [ForkDesk]: [scheduling/forks.py].
    - [RepoContract]: the protocol [ExperimentRepo] ([contracts/repo.py]) as a class of operations and a
      class of laws; [GitRepo]: [repo/git_repo.py], an instance of both over the interface [Git].
    - [RuleGate]: [rulegate/gate.py] and [regression.py], proved against [RepoContract].
    - [Claims]: [blackboard/local/claims.py] and the claim calls of [blackboard/local/blackboard.py].
    - [Segments]: [blackboard/local/segments.py] with [read_jsonl].
    - [CardLeases]: [hyperloom/sandbox/gpu_pool.py] and [toolbox/branch_leases.py].
    - [LeaseLedger]: [toolbox/lease_ledger.py] with the lease records of the blackboard.
    - [Recipes]: components and kernel artifacts of [hyperloom/contracts/recipe.py].
    - [RepoMerge]: [repo/merge.py] (components) and [repo/rebase.py].
    - [SessionBudget]: [scheduling/budget.py].
    - [GradedMetrics]: the graded axes of [hyperloom/common/perf_metric.py], [gain_math.py], the long-context drop
      of [hyperloom/contracts/long_context.py] and the statistics the rules use.
    - [InferenceXRule] and [AgentXRule]: [rulegate/inferencex.py], [agentx.py] and [accuracy.py].
    - [Judging]: [rulegate/readings.py], [rules.py], [baseline.py], the judge's step of [specialist/judging.py] and
      [specialist/fix_check.py]; the two rules are instances of one record of operations.

    What a measured winner is kept on and launched with, in either flow:

    - [KeepDecision]: snapshots, anchors and vetoes ([hyperloom/common/perf_metric.py]), the comparison
      ([state/shared_state.py], [inference_optimizer/grading.py]) and the promotion ([loop/_current_best_lift.py]).
    - [ServerArgs]: [inference_optimizer/grid_server_args.py] over argument tokens.
    - [Launches]: launch configs and their deltas ([hyperloom/contracts/recipe.py]).
    - [KeptLaunch]: the launch part of the record ([loop/_current_best_lift.py], [loop/launch_controls.py]).

    ** How code corresponds to definitions

    A definition keeps the name of the function it models.  A method that opens a transaction is a
    [transaction] of a [Tx] body: an exception loses the body's writes.  Two methods that the source
    runs as a read followed by a separate write ([create_or_return_existing], [prune_events]) are also
    given as two halves, so that other writers may come between.  The process table, the clock, the
    scope of a process, identifiers and environment variables are arguments.  Numbers are kept as
    Python has them: ints are [Z], floats a [FloatOps] type.  A function on JSON facts takes the dict
    itself and raises what Python raises on a fact of the wrong shape.  Recursion is structural; no
    definition uses fuel except the digit search of [repr] (17 digits suffice for a double), the
    stripping of trailing zeros (a shortest representation has at most 17 digits), the drain of kernel
    patches, whose fuel is the cap of ten the source has itself, and the deduplication of arguments, which takes a
    token in every round and has as much fuel as there are tokens.

    The dispatcher's coroutines interleave at their awaits: an execution is a [job] whose stages are
    separate operations, and [DispatchRules.disp_step] lets anything else happen to the store between
    them.  Calls to code outside the model are arguments with named conditions: the executor (a value of
    [executor_end]), the integrate handler, path resolution, the action catalogue, content hashes.

    The processes of a multi-branch session share folders.  A claim call and a landing are clients with a
    program counter ([Claims.Pc], [GitRepo.Pc]): a read and the write that follows it are two steps, and any
    number of clients interleave.  A segment's append meets a kernel that may take part of a write and fail
    ([Segments.Env]).  The leases are a session in which calls, releases, drains and tests interleave
    ([CardLeases.lease_step]), the ledger one in which written ends are still pending
    ([LeaseLedger.ledger_step]).  Git, JSON texts, SHA-256 and the installed sources are classes or
    arguments with the laws their documentation states, and each such law has a concrete instance in the
    file's demonstration module.

    ** What the theorems show

    - Lanes: acquiring a batch refines an abstract counting lock; no lane ever has more holders than
      its capacity and conflicting lanes exclude each other over every run of the operations;
      acquire, release and the reaper do exactly what they say on each branch, the reaper only
      removing provably dead holders.
    - GPU pool: a card is lent to one holder at a time, an acquire takes the first free cards or
      nothing, and an ended execution returns its slot even when closing it fails.
    - Tasks: a task's state is the replay of its history, which follows the transition table, in
      every reachable database; terminal states are final; creation is idempotent in its key;
      bulk cancellation and the reclaim touch exactly the rows they may.
    - Rounds: the store refines a mutex with fencing tokens: one open round per session, a holder
      that was handed off cannot renew or settle, a settle can be replayed, and every attempt
      leaves an outbox row.
    - Bus: an agent is shown every message addressed to it exactly once, in order, however turns,
      appends and pruning interleave, and drains its inbox; pruning keeps undecided proposals
      and never lets a sequence number be reused.
    - Phase machine: a decision only moves forward in the chain but for the reloop; a stop closes the
      run from anywhere; SWEEP follows a typed macro-cycle policy; a recorded decision can be replayed
      from its row; optimisation only starts on an anchored baseline; a run that stops gaining
      closes within a stated number of transitions; closing never fails on its stop reason.
    - Clocks: a session is billed for its legs and nothing else, a phase's budget stays within what
      the session has left, transitions conserve the time of every phase, redistribution conserves
      the budget, admission and the phase exit agree on PRELUDE's reserve line.

    - Freezing and driving: the frozen inputs say of the session what it is, so the bound on runs holds of
      the machine driven from the session itself; a granted sweep is never cut short by the phase
      budget; KERNEL is done only with an empty patch queue; configuration attempts fold into rounds as
      grouping by round id does.
    - Protocol and gate: an accepted envelope is typed; admitted intents and queued rows name no path
      outside the session; no patch is integrated over the Critic; proposing and delegating pass one
      gate; work and judgement belong to different roles; a domain has one specialist at a time; the gate
      answers with the payload or a denial.
    - Kernel patches: the pending list is the strongest patch per file within the budget; a ruling stands
      however the patch is offered again; the ledgers agree; a drain dispatches no patch more than twice.
    - Admission: an admitted action fits the session's and the phase's time; the dispatch order is three
      queues one after the other; a pass over refused patches queues only what passes the gate now, and
      settles.
    - Dispatch: over every interleaving, two executions never need conflicting lanes and no executor is
      started twice for a row; an execution that ends leaves a terminal row and gives back what it held;
      a transition is committed on a quiet session or not at all.
    - Test queue and roster: [take] is the first startable test in priority and arrival order, no run starts
      more than a policy in force allows, a waiting test is overtaken a bounded number of times; the
      roster keeps its caps and comes back whole from its snapshot.
    - Fork desk: it never fails on the roster it keeps, and one change has one repair.
    - Repository and rule gate: of writers racing on a branch one lands; settling a judgement leaves one
      commit or none whatever fails in between, a split lands whole or not at all, and an unverified
      result asks for no branch.
    - Blackboard: the claims of a key form one line of generations, each won by one client; a segment keeps
      every row whose append succeeded, whatever the failed ones left.
    - Leases: a card is in one place, a lease leaves enough cards for a test, and the ledger never records a
      card as returned while it is out.
    - Recipes and merges: the delta between two recipes rebuilds the second; a carried change applies
      on the head, and every patch it leaves out is named.
    - Session budget: EXPLORE ends before the deadline and the hard stop is brought once.
    - Rules and judging: the two InferenceX comparisons settle as a reference over the two readings says, and an
      AgentX candidate is committed exactly on its stated conditions; a candidate is committed on two measurements of
      the same change or as a proven fix; a retest is asked for once; along a lineage of commits accuracy never falls
      below the root's gate.
    - KEEP decision: the measurement a winner is kept on is read back as the next anchor; kept gains compound; the
      current best stays within the latency and power budgets.
    - Launches: a KEEP's arguments give each flag once, with the winner's value or the one before; the delta between
      two launches makes the second one's flags, environment and removals; the removals and unsets a KEEP records take
      nothing from the launch it records.

    Where the code departs from its documentation or intent a theorem records it:
    [PhaseMachine.reloop_has_no_cycle_ceiling], [GpuPool.parse_device_list_not_unique],
    [PolicyRules.infinite_max_turns_escapes], [OperatorName.operator_name_not_idempotent],
    [Reconcile.reconcile_queues_twins], [Claims.release_branch_ends_anothers_claim],
    [Segments.unfinished_row_is_read], [Segments.infinite_seq_stops_the_reader],
    [CardLeases.close_hides_the_record_error], [ForkDesk.ended_repair_still_refuses],
    [SessionBudget.explore_end_after_deadline], [Judging.zero_p50_stops_the_judge],
    [ServerArgs.removal_leaves_values], [ServerArgs.dedupe_mixes_lists] and [Launches.dropped_list_stays].

    ** Not modelled

    Subprocesses, language-model calls, prompts, reports and files; the executors and the booking of their
    results into the session state; the knowledge bases; kernel generation; the measurement harness.
    Of the phase machine, entry and exit hooks and the closing sequence.  Of the dispatcher, shutdown
    and the supervision of overdue work.  Of the multi-branch system, the asyncio drivers, specialist
    runtimes, tools and hosted toolbox, the views of the blackboard and the kernel tables of a merge.  Of
    server arguments, shell quoting, JSON values and the additions of one framework: tokens are plain words.
    Of the KEEP decision, the stack entry and the overlay.

    Concurrency is interleaving: of transactions, which SQLite serialises, of coroutines at their awaits, and
    of processes at the calls that touch a shared folder. *)

From stdpp Require Import base list strings gmap fin_maps sets sorting.

Declare Scope py_scope.
Delimit Scope py_scope with py.

(** ** Exceptions and results

    A Python function that may raise returns a [res]; the exception carries the text the source
    formats, or the key it names. *)

Inductive exn :=
| ValueError (msg : string)
| TypeError (msg : string)
| KeyError (key : string)
| RuntimeError (msg : string)
| IntegrityError (constraint : string)
| TaskNotFound (msg : string)
| IllegalTransition (msg : string)
| TerminalTaskReuse (msg : string)
| OlderCoordinatorDB (stored : Z)
| JournalModeError (mode : string)
| AsyncCancelled
| ExecutionCleanupUnconfirmed (msg : string)
| OverflowError (msg : string)
| OSError (msg : string)
| SubprocessError (msg : string)
| AttributeError (msg : string)
| PolicyDenied (rule reason : string)
| IntentValidationError (msg : string)
| RosterFull (msg : string)
| BranchStopped (msg : string)
| RequestRejected (msg code : string)
| Backpressure (branch : string) (queued limit : Z)
| SandboxUnavailable (msg : string)
| ClaimLost (msg : string)
| RecipeError (msg : string)
| MeasurementError (msg : string)
| BranchMoved (msg : string)
| ResultUnverified (msg : string)
| GitError (msg : string)
| UnreadableResult (msg : string)
| BaselineAccuracyError (msg : string)
| NotRecorded (msg : string)
| NotMeasured (msg : string).

#[global] Instance exn_eq_dec : EqDecision exn.
Proof. solve_decision. Defined.

Inductive res (A : Type) :=
| Ok (a : A)
| Raise (e : exn).
Arguments Ok {A} a.
Arguments Raise {A} e.

#[global] Instance res_ret : MRet res := λ A a, Ok a.
#[global] Instance res_bind : MBind res := λ A B f m,
  match m with Ok a => f a | Raise e => Raise e end.

Lemma res_bind_ok {A B} (m : res A) (f : A → res B) b :
  (m ≫= f) = Ok b → ∃ a, m = Ok a ∧ f a = Ok b.
Proof. destruct m as [a|e]; simpl; [eauto|done]. Qed.

(** Invert a successful computation in [res]: the intermediate results become equations, the
    branches taken become equations on their guards. *)
Ltac inv_res_step H :=
  lazymatch type of H with
  | mbind _ _ = Ok _ =>
      let a := fresh "a" in let E := fresh "E" in
      apply res_bind_ok in H; destruct H as (a & E & H); cbv beta in H
  | Ok _ = Ok _ => injection H as H
  | Raise _ = Ok _ => discriminate H
  | (if ?b then _ else _) = Ok _ => let E := fresh "Eg" in destruct b eqn:E
  | (let '(_, _) := ?x in _) = Ok _ => destruct x
  | match ?x with _ => _ end = Ok _ => let E := fresh "Em" in destruct x eqn:E
  | Some _ = Some _ => injection H as H
  | None = Some _ => discriminate H
  | (if ?b then _ else _) = Some _ => let E := fresh "Eg" in destruct b eqn:E
  | match ?x with _ => _ end = Some _ => let E := fresh "Em" in destruct x eqn:E
  | (if ?b then _ else _) = (_, _) => let E := fresh "Eg" in destruct b eqn:E
  | match ?x with _ => _ end = (_, _) => let E := fresh "Em" in destruct x eqn:E
  end.
Ltac inv_res H := repeat (inv_res_step H; cbv beta zeta in *).

(** A guard: [if b: raise e]. *)
Definition raise_if (b : bool) (e : exn) : res unit := if b then Raise e else Ok ().

Lemma raise_if_ok b e : raise_if b e = Ok () ↔ b = false.
Proof. by destruct b. Qed.
Lemma raise_if_bind {A} b e (f : unit → res A) a : (raise_if b e ≫= f) = Ok a ↔ b = false ∧ f () = Ok a.
Proof. destruct b; simpl; naive_solver. Qed.
Lemma raise_if_false {A} b e (f : unit → res A) : b = false → (raise_if b e ≫= f) = f ().
Proof. by intros ->. Qed.

Lemma seq_ok {A} (m : res unit) (f : unit → res A) a : (m ≫= f) = Ok a ↔ m = Ok () ∧ f () = Ok a.
Proof. destruct m as [[]|e]; simpl; naive_solver. Qed.

(** [for x in xs: f(x)], where only the exceptions of [f] matter, and [[f(x) for x in xs]]. *)
Section for_each.
Context {A B : Type} (f : A → res unit) (g : A → res B).

Fixpoint for_each (l : list A) : res unit :=
  match l with
  | [] => Ok ()
  | x :: l' => _ ← f x; for_each l'
  end.

Fixpoint map_res (l : list A) : res (list B) :=
  match l with
  | [] => Ok []
  | x :: l' => y ← g x; ys ← map_res l'; Ok (y :: ys)
  end.
End for_each.

Lemma for_each_ok {A} (f : A → res unit) l : for_each f l = Ok () ↔ ∀ x, x ∈ l → f x = Ok ().
Proof.
  induction l as [|x l IH]; simpl; [split; [intros _ x []%not_elem_of_nil|done]|].
  destruct (f x) as [[]|e] eqn:E; simpl.
  - rewrite IH. setoid_rewrite elem_of_cons. naive_solver.
  - split; [done|]. intros H. rewrite (H x) in E by left. done.
Qed.

Lemma map_res_ok {A B} (f : A → res B) l ys : map_res f l = Ok ys ↔ Forall2 (λ x y, f x = Ok y) l ys.
Proof.
  revert ys. induction l as [|x l IH]; intros ys; simpl.
  - split; [intros [= <-]; constructor|]. by inversion 1.
  - split.
    + intros H. apply res_bind_ok in H as (y & Hy & H). apply res_bind_ok in H as (ys' & Hys & H).
      injection H as <-. constructor; [done|]. by apply IH.
    + inversion 1 as [|? y ? ys' Hy Hys]; subst. rewrite Hy. simpl. apply IH in Hys. by rewrite Hys.
Qed.

(** What a call may raise: every exception it ends in satisfies [P]. *)
Definition raises_only {A} (P : exn → Prop) (r : res A) : Prop := ∀ e, r = Raise e → P e.

Section raises.
Context {A B : Type} (P : exn → Prop).

Lemma raises_ok (a : A) : raises_only P (Ok a).
Proof. by intros e [=]. Qed.
Lemma raises_raise (e : exn) : P e → raises_only (A := A) P (Raise e).
Proof. by intros H e' [= <-]. Qed.
Lemma raises_if b e : (b = true → P e) → raises_only P (raise_if b e).
Proof. intros H e'. destruct b; simpl; intros [= <-]; auto. Qed.
Lemma raises_bind (m : res A) (f : A → res B) :
  raises_only P m → (∀ a, m = Ok a → raises_only P (f a)) → raises_only P (m ≫= f).
Proof. intros Hm Hf e. destruct m as [a|e']; simpl; [by apply Hf|]. intros [= <-]. by apply Hm. Qed.
End raises.

Lemma raises_for_each {A} P (f : A → res unit) l :
  (∀ x, x ∈ l → raises_only P (f x)) → raises_only P (for_each f l).
Proof.
  induction l as [|x l IH]; intros H; simpl; [apply raises_ok|].
  apply raises_bind; [apply H; left|]. intros _ _. apply IH. intros y Hy. apply H. by right.
Qed.

Create HintDb py_raises discriminated.
#[export] Hint Constants Opaque : py_raises.
#[export] Hint Resolve raises_ok raises_raise raises_if raises_bind raises_for_each : py_raises.

Definition is_ok {A} (r : res A) : bool := match r with Ok _ => true | Raise _ => false end.

(** ** Effects on the session database

    [Tx] is the body of one [async with db.transaction()] block: an exception loses every write
    it made.  [Io] is the code around such blocks: an exception propagates, but the blocks that
    committed before it stay committed. *)

Definition Tx (S A : Type) : Type := S → res (A * S).
Definition Io (S A : Type) : Type := S → res A * S.

#[global] Instance tx_ret {S} : MRet (Tx S) := λ A a s, Ok (a, s).
#[global] Instance tx_bind {S} : MBind (Tx S) := λ A B f m s,
  match m s with Ok (a, s') => f a s' | Raise e => Raise e end.
#[global] Instance io_ret {S} : MRet (Io S) := λ A a s, (Ok a, s).
#[global] Instance io_bind {S} : MBind (Io S) := λ A B f m s,
  match m s with (Ok a, s') => f a s' | (Raise e, s') => (Raise e, s') end.

Definition tx_raise {S A} (e : exn) : Tx S A := λ _, Raise e.
Definition tx_get {S} : Tx S S := λ s, Ok (s, s).
Definition tx_gets {S A} (f : S → A) : Tx S A := λ s, Ok (f s, s).
Definition tx_modify {S} (f : S → S) : Tx S unit := λ s, Ok ((), f s).
Definition tx_lift {S A} (r : res A) : Tx S A := λ s,
  match r with Ok a => Ok (a, s) | Raise e => Raise e end.

Definition io_raise {S A} (e : exn) : Io S A := λ s, (Raise e, s).
Definition io_gets {S A} (f : S → A) : Io S A := λ s, (Ok (f s), s).
Definition io_lift {S A} (r : res A) : Io S A := λ s, (r, s).

(** [SqliteConnection.transaction]: [BEGIN IMMEDIATE], then [COMMIT], or [ROLLBACK] and re-raise. *)
Definition transaction {S A} (body : Tx S A) : Io S A := λ s,
  match body s with
  | Ok (a, s') => (Ok a, s')
  | Raise e => (Raise e, s)
  end.

(** A raised transaction body leaves no trace. *)
Lemma transaction_raise {S A} (body : Tx S A) s e :
  (transaction body s).1 = Raise e → (transaction body s).2 = s.
Proof. unfold transaction. destruct (body s) as [[a s']|e']; simpl; [done|auto]. Qed.

(** ** Lists and tables *)

(** [dict.fromkeys]: the first occurrence of each value. *)
Fixpoint dict_fromkeys {A} `{EqDecision A} (seen l : list A) : list A :=
  match l with
  | [] => []
  | g :: l' => if decide (g ∈ seen) then dict_fromkeys seen l' else g :: dict_fromkeys (g :: seen) l'
  end.

Lemma fromkeys_snoc {A} `{EqDecision A} (seen l : list A) k :
  dict_fromkeys seen (l ++ [k]) = dict_fromkeys seen l ++ (if decide (k ∈ l ++ seen) then [] else [k]).
Proof.
  revert seen. induction l as [|x l IH]; intros seen; simpl; [by case_decide|].
  case_decide as Hx; rewrite IH; simpl.
  - f_equal. repeat case_decide; try done; set_solver.
  - f_equal. f_equal. repeat case_decide; try done; set_solver.
Qed.
Lemma elem_of_fromkeys {A} `{EqDecision A} (seen l : list A) k : k ∈ dict_fromkeys seen l ↔ k ∈ l ∧ k ∉ seen.
Proof.
  revert seen. induction l as [|x l IH]; intros seen; simpl; [set_solver|]. case_decide; [set_solver|].
  rewrite !elem_of_cons, IH. destruct (decide (k = x)); set_solver.
Qed.
Lemma NoDup_fromkeys {A} `{EqDecision A} (seen l : list A) : NoDup (dict_fromkeys seen l).
Proof.
  revert seen. induction l as [|x l IH]; intros seen; simpl; [constructor|]. case_decide; [done|].
  constructor; [|done]. rewrite elem_of_fromkeys. set_solver.
Qed.

(** [sorted(xs, key=...)] for the order a key induces: stable, equal keys keep their order. *)
Section sort.
Context {A : Type} (leb : A → A → bool).

Fixpoint sort_insert (x : A) (l : list A) : list A :=
  match l with
  | [] => [x]
  | y :: l' => if leb x y then x :: l else y :: sort_insert x l'
  end.
Definition sort_by (l : list A) : list A := foldr sort_insert [] l.

Lemma sort_insert_perm x l : sort_insert x l ≡ₚ x :: l.
Proof.
  induction l as [|y l IH]; simpl; [done|]. destruct (leb x y); [done|].
  rewrite IH. apply Permutation_swap.
Qed.
Lemma sort_by_perm l : sort_by l ≡ₚ l.
Proof. induction l as [|x l IH]; simpl; [done|]. unfold sort_by in *. simpl. by rewrite sort_insert_perm, IH. Qed.

Context (Htot : ∀ x y, leb x y = false → leb y x = true).
Context (Htrans : ∀ x y z, leb x y = true → leb y z = true → leb x z = true).

Lemma sort_insert_sorted x l :
  StronglySorted (λ a b, leb a b = true) l → StronglySorted (λ a b, leb a b = true) (sort_insert x l).
Proof.
  induction 1 as [|y l Hl IH Hy]; simpl; [repeat constructor|].
  destruct (leb x y) eqn:E.
  - constructor; [by constructor|]. constructor; [done|]. eapply Forall_impl; [exact Hy|]. eauto.
  - constructor; [done|]. rewrite sort_insert_perm. constructor; auto.
Qed.
Lemma sort_by_sorted l : StronglySorted (λ a b, leb a b = true) (sort_by l).
Proof. induction l as [|x l IH]; [constructor|]. by apply sort_insert_sorted. Qed.
End sort.

Section lists.
Context {A B : Type}.
Implicit Types l : list A.

Lemma list_filter_all (P : A → Prop) `{∀ x, Decision (P x)} l :
  (∀ x, x ∈ l → P x) → filter P l = l.
Proof.
  induction l as [|x l IH]; intros H1; [done|].
  rewrite filter_cons_True by (apply H1; left). f_equal. apply IH. intros y Hy. apply H1. by right.
Qed.

Lemma list_filter_none (P : A → Prop) `{∀ x, Decision (P x)} l :
  (∀ x, x ∈ l → ¬ P x) → filter P l = [].
Proof.
  induction l as [|x l IH]; intros H1; [done|].
  rewrite filter_cons_False by (apply H1; left). apply IH. intros y Hy. apply H1. by right.
Qed.

Lemma list_filter_ext_in (P Q : A → Prop) `{∀ x, Decision (P x), ∀ x, Decision (Q x)} l :
  (∀ x, x ∈ l → P x ↔ Q x) → filter P l = filter Q l.
Proof.
  induction l as [|x l IH]; intros H1; [done|]. rewrite !filter_cons.
  assert (P x ↔ Q x) as HPQ by (apply H1; left).
  rewrite IH by (intros y Hy; apply H1; by right).
  do 2 case_decide; tauto.
Qed.

Lemma elem_of_take_in n l x : x ∈ take n l → x ∈ l.
Proof. rewrite <- (take_drop n l) at 2. rewrite elem_of_app. auto. Qed.

Lemma NoDup_take n l : NoDup l → NoDup (take n l).
Proof. rewrite <- (take_drop n l) at 1. rewrite NoDup_app. tauto. Qed.

(** A key column stays duplicate-free under DELETE. *)
Lemma NoDup_key_filter (key : A → B) (P : A → Prop) `{∀ x, Decision (P x)} l :
  NoDup (key <$> l) → NoDup (key <$> filter P l).
Proof.
  induction l as [|x l IH]; [done|]. rewrite fmap_cons, NoDup_cons. intros [Hn Hnd].
  rewrite filter_cons. case_decide; [|auto]. rewrite fmap_cons. apply NoDup_cons. split; [|auto].
  rewrite list_elem_of_fmap. rewrite list_elem_of_fmap in Hn.
  intros (y & ? & [_ ?]%list_elem_of_filter). eauto.
Qed.

(** Rows with equal keys are equal. *)
Lemma NoDup_key_inj (key : A → B) l x y :
  NoDup (key <$> l) → x ∈ l → y ∈ l → key x = key y → x = y.
Proof.
  induction l as [|z l IH]; [intros _ []%not_elem_of_nil|].
  rewrite fmap_cons, NoDup_cons. intros [Hn Hnd] Hx Hy Hk.
  apply elem_of_cons in Hx as [->|Hx], Hy as [->|Hy]; auto.
  - exfalso. apply Hn. rewrite Hk. by apply list_elem_of_fmap_2.
  - exfalso. apply Hn. rewrite <- Hk. by apply list_elem_of_fmap_2.
Qed.

(** An UPDATE that keeps the key column keeps it duplicate-free. *)
Lemma key_fmap_update (key : A → B) (f : A → A) l :
  (∀ x, key (f x) = key x) → key <$> (f <$> l) = key <$> l.
Proof. intros H. rewrite <- list_fmap_compose. apply list_fmap_ext. intros ? x _. apply H. Qed.
End lists.
