(* ===== verification/PyFloat.v ===== *)
(** * Python floats

    The source computes with Python [float]s.  A definition that does arithmetic on them is
    written once over the operations of [FloatOps] and has two readings: [binary64], the IEEE 754
    double of CPython (the Standard Library's [SpecFloat] with 53 bits of precision), and [Q],
    the exact rationals.  Theorems about the decisions a comparison takes hold at every instance
    that satisfies the order laws of [FloatOrder], which [binary64] does with its NaNs included;
    theorems about exact sums and products are stated at [Q]. *)

From stdpp Require Import base strings pretty.
From Stdlib Require Import ZArith QArith Qround SpecFloat Lqa Lia.
From Stdlib Require String.
From S2P Require Import Prelude.

Class FloatOps (F : Type) := {
  f_of_Z : Z → F;                 (* float(n) of an int *)
  f_lit : Z → positive → F;       (* a decimal literal, numerator over a power of ten *)
  fadd : F → F → F;
  fsub : F → F → F;
  fmul : F → F → F;
  fdiv : F → F → F;
  fltb : F → F → bool;            (* x < y *)
  fleb : F → F → bool;            (* x <= y *)
  feqb : F → F → bool;            (* x == y *)
  f_isfinite : F → bool;          (* math.isfinite(x) *)
  f_special : bool → option F;    (* the NaN (false) or the infinity (true), if there is one *)
  f_trunc : F → Z;                (* int(x) of a finite x: towards zero *)
  fround : nat → F → F;           (* round(x, digits) *)
  frepr : F → string              (* repr(x) *)
}.

Declare Scope float_scope.
Delimit Scope float_scope with fl.
Infix "+" := fadd : float_scope.
Infix "-" := fsub : float_scope.
Infix "*" := fmul : float_scope.
Infix "/" := fdiv : float_scope.
Infix "<?" := fltb : float_scope.
Infix "<=?" := fleb : float_scope.

Section derived.
Context {F : Type} `{!FloatOps F}.
Local Open Scope float_scope.

Definition fzero : F := f_of_Z 0.

(** Python's [max(a, b)] and [min(a, b)] keep the first argument on a tie or a NaN. *)
Definition fmax (a b : F) : F := if a <? b then b else a.
Definition fmin (a b : F) : F := if b <? a then b else a.

Definition fpos (x : F) : bool := fzero <? x.

(** [sum(xs)]: left to right from the int 0. *)
Definition fsum (xs : list F) : F := foldl fadd fzero xs.
End derived.

(** The order laws every IEEE format satisfies, NaNs included, and the sign of zero. *)
Class FloatOrder (F : Type) `{!FloatOps F} : Prop := {
  fltb_irrefl : ∀ x : F, fltb x x = false;
  fltb_trans : ∀ x y z : F, fltb x y = true → fltb y z = true → fltb x z = true;
  fltb_fleb : ∀ x y : F, fltb x y = true → fleb x y = true;
  fltb_asym_leb : ∀ x y : F, fltb x y = true → fleb y x = false;
  fleb_ltb_trans : ∀ x y z : F, fleb x y = true → fltb y z = true → fltb x z = true;
  fltb_leb_trans : ∀ x y z : F, fltb x y = true → fleb y z = true → fltb x z = true;
  fleb_trans : ∀ x y z : F, fleb x y = true → fleb y z = true → fleb x z = true;
  fleb_zero : fleb fzero (fzero : F) = true;
  fzero_finite : f_isfinite (fzero : F) = true;
  fltb_total : ∀ x y : F, f_isfinite x = true → f_isfinite y = true → fltb x y = false → fleb y x = true;
  feqb_fleb : ∀ x y : F, feqb x y = true ↔ fleb x y = true ∧ fleb y x = true
}.

(** ** Exact rationals *)

Definition round_half_even (n : Z) (d : positive) : Z :=
  let q := (n / Zpos d)%Z in
  let r := (n mod Zpos d)%Z in
  match (2 * r ?= Zpos d)%Z with
  | Lt => q
  | Gt => (q + 1)%Z
  | Eq => if Z.even q then q else (q + 1)%Z
  end.

Definition pow10 (k : nat) : positive := Z.to_pos (10 ^ Z.of_nat k).

Definition Q_ltb (x y : Q) : bool := negb (Qle_bool y x).

#[global] Instance Q_eq_dec : EqDecision Q.
Proof. solve_decision. Defined.

#[global] Instance Q_float : FloatOps Q := {
  f_of_Z := inject_Z;
  f_lit n d := Qred (n # d);
  fadd x y := Qred (x + y);
  fsub x y := Qred (x - y);
  fmul x y := Qred (x * y);
  fdiv x y := Qred (x / y);
  fltb := Q_ltb;
  fleb := Qle_bool;
  feqb := Qeq_bool;
  f_isfinite _ := true;
  f_special _ := None;
  f_trunc x := Z.quot (Qnum x) (Zpos (Qden x));
  fround k x := Qred (round_half_even (Qnum x * Zpos (pow10 k)) (Qden x) # pow10 k);
  frepr x := (pretty (Qnum x) ++ "/" ++ pretty (Zpos (Qden x)))%string
}.

Lemma Q_ltb_lt x y : Q_ltb x y = true ↔ (x < y)%Q.
Proof.
  unfold Q_ltb. rewrite negb_true_iff. split.
  - intros H. apply Qnot_le_lt. intros Hle. apply Qle_bool_iff in Hle. congruence.
  - intros H. destruct (Qle_bool y x) eqn:E; [|done].
    apply Qle_bool_iff in E. exfalso. by apply (Qlt_not_le x y).
Qed.

Lemma Q_ltb_ge x y : Q_ltb x y = false ↔ (y <= x)%Q.
Proof. unfold Q_ltb. rewrite negb_false_iff. apply Qle_bool_iff. Qed.

#[global] Instance Q_float_order : FloatOrder Q.
Proof.
  split; simpl; intros *; rewrite ?Q_ltb_lt, ?Q_ltb_ge, ?Qle_bool_iff.
  - apply Qle_refl.
  - apply Qlt_trans.
  - apply Qlt_le_weak.
  - intros H. apply not_true_iff_false. rewrite Qle_bool_iff. by apply Qlt_not_le.
  - apply Qle_lt_trans.
  - apply Qlt_le_trans.
  - apply Qle_trans.
  - apply Qle_refl.
  - done.
  - done.
  - rewrite Qeq_bool_iff. split; [intros H; split; rewrite H; apply Qle_refl|]. intros [? ?]. by apply Qle_antisym.
Qed.

(** ** IEEE 754 binary64

    The data are those of the Standard Library's [SpecFloat].  Each operation is what the standard asks for: the
    exact rational result, rounded once to the nearest double, ties to even. *)

Definition binary64 : Type := spec_float.

(** A finite double as numerator over denominator. *)
Definition b64_ratio (s : bool) (m : positive) (e : Z) : Z * positive :=
  let sm := if s then Zneg m else Zpos m in
  match e with
  | Z0 => (sm, 1%positive)
  | Zpos p => (sm * 2 ^ Zpos p, 1%positive)%Z
  | Zneg p => (sm, Z.to_pos (2 ^ Zpos p))
  end.

(** The value of a finite double. *)
Definition b64_exact (x : binary64) : Q :=
  match x with S754_finite s m e => let '(n, d) := b64_ratio s m e in n # d | _ => 0%Q end.

Definition pow2 (k : Z) : Z := (2 ^ Z.max 0 k)%Z.
(** The exponent of the last bit of a double next to [n / d]: 53 bits, unless they reach below the least one. *)
Definition last_bit (n d : Z) : Z :=
  let k := (Z.log2 n - Z.log2 d)%Z in
  let k := if (d * pow2 k <=? n * pow2 (- k))%Z then k else (k - 1)%Z in
  Z.max (k - 52) (-1074).
(** [n / d] in units of that bit. *)
Definition mantissa (n d e : Z) : Z := round_half_even (n * pow2 (- e)) (Z.to_pos (d * pow2 e)).
Definition b64_make (s : bool) (m e : Z) : binary64 :=
  let '(m, e) := if (m =? 2 ^ 53)%Z then ((2 ^ 52)%Z, (e + 1)%Z) else (m, e) in
  match m with
  | Zpos p => if (971 <? e)%Z then S754_infinity s else S754_finite s p e
  | _ => S754_zero s
  end.

(** The double nearest to [n / d], ties to even; [s] is the sign of a zero. *)
Definition b64_nearest (s : bool) (q : Q) : binary64 :=
  let d := Zpos (Qden q) in
  match Qnum q with
  | Z0 => S754_zero s
  | Zpos p => let e := last_bit (Zpos p) d in b64_make false (mantissa (Zpos p) d e) e
  | Zneg p => let e := last_bit (Zpos p) d in b64_make true (mantissa (Zpos p) d e) e
  end.
Definition b64_of_ratio (n : Z) (d : positive) : binary64 := b64_nearest false (n # d).
Definition b64_of_Z (n : Z) : binary64 := b64_of_ratio n 1.

Definition b64_isfinite (x : binary64) : bool := match x with S754_zero _ | S754_finite _ _ _ => true | _ => false end.
Definition b64_sign (x : binary64) : bool :=
  match x with S754_zero s | S754_infinity s | S754_finite s _ _ => s | S754_nan => false end.

(** On finite operands the exact result is rounded; a zero is negative when both signs are, for a sum, and when one
    of them is, for a product or a quotient.  The rest is the standard's table of infinities and NaNs. *)
Definition b64_add (x y : binary64) : binary64 :=
  if b64_isfinite x && b64_isfinite y then b64_nearest (b64_sign x && b64_sign y) (b64_exact x + b64_exact y)%Q
  else SFadd 53 1024 x y.
Definition b64_sub (x y : binary64) : binary64 :=
  if b64_isfinite x && b64_isfinite y then b64_nearest (b64_sign x && negb (b64_sign y)) (b64_exact x - b64_exact y)%Q
  else SFsub 53 1024 x y.
Definition b64_mul (x y : binary64) : binary64 :=
  if b64_isfinite x && b64_isfinite y then b64_nearest (xorb (b64_sign x) (b64_sign y)) (b64_exact x * b64_exact y)%Q
  else SFmul 53 1024 x y.
Definition b64_div (x y : binary64) : binary64 :=
  if b64_isfinite x && b64_isfinite y && negb (Qeq_bool (b64_exact y) 0)
  then b64_nearest (xorb (b64_sign x) (b64_sign y)) (b64_exact x / b64_exact y)%Q
  else SFdiv 53 1024 x y.

(** Doubles are ordered by value, between the infinities; a NaN is not ordered. *)
Definition b64_key (x : binary64) : option (Z * Q) :=
  match x with
  | S754_nan => None
  | S754_infinity s => Some ((if s then -1 else 1)%Z, 0%Q)
  | _ => Some (0%Z, b64_exact x)
  end.
Definition key_leb (a b : Z * Q) : bool := (a.1 <? b.1)%Z || (a.1 =? b.1)%Z && Qle_bool a.2 b.2.
Definition b64_leb (x y : binary64) : bool :=
  match b64_key x, b64_key y with Some a, Some b => key_leb a b | _, _ => false end.
Definition b64_ltb (x y : binary64) : bool :=
  match b64_key x, b64_key y with Some a, Some b => negb (key_leb b a) | _, _ => false end.
Definition b64_eqb (x y : binary64) : bool := b64_leb x y && b64_leb y x.

Definition b64_trunc (x : binary64) : Z :=
  match x with
  | S754_finite s m e => let '(n, d) := b64_ratio s m e in Z.quot n (Zpos d)
  | _ => 0%Z
  end.

Definition b64_round (k : nat) (x : binary64) : binary64 :=
  match x with
  | S754_finite s m e =>
      let '(n, d) := b64_ratio s m e in
      match round_half_even (n * Zpos (pow10 k)) d with
      | Z0 => S754_zero s
      | r => b64_of_ratio r (pow10 k)
      end
  | _ => x
  end.

(** *** [repr] of a double: the shortest decimal that reads back as the same double, the nearest
    one when several are that short, laid out as CPython does. *)

Definition pow10Z (k : Z) : Z := (10 ^ k)%Z.

(** [n/d < 10^k]. *)
Definition ratio_lt_pow10 (n d k : Z) : bool :=
  if (0 <=? k)%Z then (n <? d * pow10Z k)%Z else (n * pow10Z (- k) <? d)%Z.

(** The [k] with [10^(k-1) <= n/d < 10^k]. *)
Definition dec_exponent (n d : Z) : Z :=
  let k0 := ((Z.log2 n - Z.log2 d) * 30103 / 100000)%Z in
  match filter (λ k, ratio_lt_pow10 n d k = true) [k0 - 1; k0; k0 + 1; k0 + 2; k0 + 3]%Z with
  | k :: _ => k
  | [] => (k0 + 4)%Z
  end.

(** [c * 10^(-s)] as a double. *)
Definition b64_of_scaled (c s : Z) : binary64 :=
  if (0 <=? s)%Z then b64_of_ratio c (Z.to_pos (pow10Z s)) else b64_of_ratio (c * pow10Z (- s)) 1.

(** The [p]-digit candidate next to [n/d] that reads back as [x], nearest first. *)
Definition digits_at (x : binary64) (n d k p : Z) : option (Z * Z) :=
  let s := (p - k)%Z in
  let num := if (0 <=? s)%Z then (n * pow10Z s)%Z else n in
  let den := if (0 <=? s)%Z then d else (d * pow10Z (- s))%Z in
  let lo := (num / den)%Z in
  let near := if (2 * (num mod den) <=? den)%Z then [lo; lo + 1]%Z else [lo + 1; lo]%Z in
  match filter (λ c, b64_eqb (b64_of_scaled c s) x = true) near with
  | c :: _ => Some (c, s)
  | [] => None
  end.

Fixpoint shortest_digits (fuel : nat) (x : binary64) (n d k p : Z) : option (Z * Z) :=
  match fuel with
  | O => None
  | S fuel' =>
      match digits_at x n d k p with
      | Some cs => Some cs
      | None => shortest_digits fuel' x n d k (p + 1)
      end
  end.

Fixpoint strip_zeros (fuel : nat) (c : Z) (s : Z) : Z * Z :=
  match fuel with
  | O => (c, s)
  | S fuel' => if (c mod 10 =? 0)%Z then strip_zeros fuel' (c / 10) (s - 1) else (c, s)
  end.

Fixpoint zeros_n (n : nat) : string :=
  match n with O => EmptyString | S n' => String.append "0" (zeros_n n') end.
Definition zeros (n : Z) : string := zeros_n (Z.to_nat n).
Definition str_take (n : Z) (s : string) : string := String.substring 0 (Z.to_nat n) s.
Definition str_drop (n : Z) (s : string) : string :=
  String.substring (Z.to_nat n) (String.length s - Z.to_nat n) s.

Definition layout_digits (digits : string) (decpt : Z) : string :=
  let len := Z.of_nat (String.length digits) in
  (if (decpt <=? -4)%Z || (16 <? decpt)%Z then
     let e := (decpt - 1)%Z in
     let mant := if (len =? 1)%Z then digits else str_take 1 digits ++ "." ++ str_drop 1 digits in
     let ab := pretty (Z.abs e) in
     mant ++ "e" ++ (if (e <? 0)%Z then "-" else "+")
       ++ (if (Z.abs e <? 10)%Z then "0" ++ ab else ab)
   else if (decpt <=? 0)%Z then "0." ++ zeros (- decpt) ++ digits
   else if (len <=? decpt)%Z then digits ++ zeros (decpt - len) ++ ".0"
   else str_take decpt digits ++ "." ++ str_drop decpt digits)%string.

Definition b64_repr (x : binary64) : string :=
  match x with
  | S754_nan => "nan"
  | S754_infinity s => if s then "-inf" else "inf"
  | S754_zero s => if s then "-0.0" else "0.0"
  | S754_finite s m e =>
      let ax := S754_finite false m e in
      let '(n, d) := b64_ratio false m e in
      let k := dec_exponent n (Zpos d) in
      match shortest_digits 17 ax n (Zpos d) k 1 with
      | None => "nan"
      | Some (c, sc) =>
          let '(c', sc') := strip_zeros 18 c sc in
          let digits := pretty c' in
          let body := layout_digits digits (Z.of_nat (String.length digits) - sc')%Z in
          if s then ("-" ++ body)%string else body
      end
  end.

#[global] Instance b64_float : FloatOps binary64 := {
  f_of_Z := b64_of_Z;
  f_lit := b64_of_ratio;
  fadd := b64_add;
  fsub := b64_sub;
  fmul := b64_mul;
  fdiv := b64_div;
  fltb := b64_ltb;
  fleb := b64_leb;
  feqb := b64_eqb;
  f_isfinite := b64_isfinite;
  f_special inf := Some (if inf then S754_infinity false else S754_nan);
  f_trunc := b64_trunc;
  fround := b64_round;
  frepr := b64_repr
}.

Example b64_repr_examples :
  map (λ '(n, d), frepr (f_lit (F := binary64) n (Z.to_pos d)))
    [(1, 10); (3, 2); (100, 1); (1, 100000); (10 ^ 16, 1); (10 ^ 22, 1); (2, 3); (-5, 4);
     (123456789012345678, 1)]%Z
  = ["0.1"; "1.5"; "100.0"; "1e-05"; "1e+16"; "1e+22"; "0.6666666666666666"; "-1.25";
     "1.2345678901234568e+17"].
Proof. vm_compute. reflexivity. Qed.

Example b64_round_examples :
  map (λ '(k, n, d), frepr (fround k (f_lit (F := binary64) n (Z.to_pos d))))
    [(1%nat, 25, 100); (2%nat, 2675, 1000); (6%nat, 1, 3)]%Z
  = ["0.2"; "2.67"; "0.333333"].
Proof. vm_compute. reflexivity. Qed.

#[global] Instance binary64_eq_dec : EqDecision binary64.
Proof. solve_decision. Defined.

(** The operations give what the Standard Library's give. *)
Definition agree (x y : binary64) : bool :=
  bool_decide (fadd x y = SFadd 53 1024 x y) && bool_decide (fsub x y = SFsub 53 1024 x y) &&
  bool_decide (fmul x y = SFmul 53 1024 x y) && bool_decide (fdiv x y = SFdiv 53 1024 x y) &&
  Bool.eqb (fleb x y) (SFleb x y) && Bool.eqb (fltb x y) (SFltb x y) && Bool.eqb (feqb x y) (SFeqb x y).
Definition samples : list binary64 :=
  (λ '(n, d), f_lit (F := binary64) n (Z.to_pos d)) <$>
    [(0, 1); (1, 10); (-2, 3); (3, 1); (115463, 1000); (9007199254740993, 1); (-10 ^ 22, 1)]%Z.
Definition extremes : list (binary64 * binary64) :=
  (λ '(m, e, m', e'), (S754_finite false (Z.to_pos m) e, S754_finite true (Z.to_pos m') e')) <$>
    [(3, -1074, 5, -1073); (4503599627370497, -1074, 7, -1074); (9007199254740991, 971, 4503599627370496, 918);
     (9007199254740991, 971, 9007199254740991, 971)]%Z.
Example operations_agree :
  forallb (λ x, forallb (agree x) samples) samples && forallb (λ '(x, y), agree x y) extremes = true.
Proof. vm_compute. reflexivity. Qed.

(** *** The order *)

Lemma key_leb_spec a b : key_leb a b = true ↔ (a.1 < b.1)%Z ∨ a.1 = b.1 ∧ (a.2 <= b.2)%Q.
Proof.
  unfold key_leb. rewrite orb_true_iff, andb_true_iff, Z.ltb_lt, Z.eqb_eq, Qle_bool_iff. done.
Qed.
Lemma key_leb_gt a b : key_leb a b = false ↔ (b.1 < a.1)%Z ∨ a.1 = b.1 ∧ (b.2 < a.2)%Q.
Proof.
  rewrite <- not_true_iff_false, key_leb_spec. destruct (Z.lt_trichotomy a.1 b.1) as [?|[E|?]]; [split; [|lia]; tauto| |split; [by left|lia]].
  split; [intros H; right; split; [done|]; apply Qnot_le_lt; tauto|]. intros [?|[_ H]]; [lia|]. intros [?|[_ ?]]; [lia|].
  by apply (Qlt_not_le _ _ H).
Qed.

(** Decide a law of the order by the keys of its arguments. *)
Ltac by_b64_keys :=
  cbn; unfold b64_eqb, b64_ltb, b64_leb; intros *;
  repeat match goal with
    | |- context [b64_key ?x] => destruct (b64_key x) as [[??]|]; try done
    end;
  rewrite ?negb_true_iff, ?negb_false_iff, ?andb_true_iff, ?key_leb_spec, ?key_leb_gt; cbn [fst snd]; intros;
  repeat match goal with H : _ ∨ _ |- _ => destruct H | H : _ ∧ _ |- _ => destruct H end;
  first [lia|exfalso; lra|right; split; [lia|lra]|left; lia].

Lemma finite_key x : b64_isfinite x = true → b64_key x = Some (0%Z, b64_exact x).
Proof. by destruct x. Qed.
#[global] Instance b64_float_order : FloatOrder binary64.
Proof.
  split; [by_b64_keys..|done|done| |].
  - intros x y Hx Hy. cbn. unfold b64_ltb, b64_leb. rewrite !finite_key by done.
    rewrite negb_false_iff. done.
  - intros x y. cbn. unfold b64_eqb. apply andb_true_iff.
Qed.
