(* ===== verification/Rounding.v ===== *)
(** * Rounding

    What the operations of a float format have to do with the exact ones: each rounds the exact result once, the
    rounding is monotone, keeps what is representable and is off by at most half a unit in the last place.  The
    class [FloatRounds] states it, the exact rationals and [binary64] are instances; a theorem about a computed sum
    or gain is proved from the class and so holds of the program's doubles. *)

From stdpp Require Import base list.
From Stdlib Require Import ZArith QArith Qround Qabs Qpower Lqa Lia SpecFloat.
From S2P Require Import Prelude PyFloat.

Local Open Scope Q_scope.

(** The unit roundoff and the least positive double. *)
Definition ulp_rel : Q := Qpower 2 (-53).
Definition ulp_abs : Q := Qpower 2 (-1074).
Lemma ulp_pos : 0 < ulp_rel ∧ 0 < ulp_abs.
Proof. split; by apply Qpower_0_lt. Qed.

Class FloatRounds (F : Type) `{!FloatOps F} := {
  fv : F → Q;                       (* the value of a finite float *)
  f_double : F → bool;              (* the float is one of the format *)
  f_rounds : Q → F → Prop;          (* the float is the rounding of the rational *)
  fv_leb : ∀ x y, f_isfinite x = true → f_isfinite y = true → fleb x y = true ↔ fv x <= fv y;
  fv_ltb : ∀ x y, f_isfinite x = true → f_isfinite y = true → fltb x y = true ↔ fv x < fv y;
  fleb_finite : ∀ a x b : F, fleb a x = true → fleb x b = true → f_isfinite a = true → f_isfinite b = true → f_isfinite x = true;
  fv_of_Z : ∀ n, (Z.abs n <= 2 ^ 53)%Z → f_isfinite (f_of_Z n : F) = true ∧ f_double (f_of_Z n : F) = true ∧ fv (f_of_Z n) == inject_Z n;
  lit_rounds : ∀ n d, f_rounds (n # d) (f_lit n d);
  double_opp : ∀ x, f_isfinite x = true → f_double x = true → ∃ y, f_isfinite y = true ∧ f_double y = true ∧ fv y == - fv x;
  rounds_eq : ∀ q q' x, q == q' → f_rounds q x → f_rounds q' x;
  rounds_mono : ∀ q q' x x', f_rounds q x → f_rounds q' x' → q <= q' → fleb x x' = true;
  rounds_some : ∀ q, ∃ x, f_rounds q x;
  rounds_self : ∀ x y, f_isfinite x = true → f_double x = true → f_rounds (fv x) y → f_isfinite y = true ∧ fv y == fv x;
  rounds_twice : ∀ x y, f_isfinite x = true → f_double x = true → f_rounds (2 * fv x) y → f_isfinite y = true → fv y == 2 * fv x;
  rounds_finite : ∀ q x y, f_isfinite x = true → f_double x = true → Qabs q <= Qabs (fv x) → f_rounds q y → f_isfinite y = true;
  rounds_double : ∀ q x, f_rounds q x → f_double x = true;
  rounds_error : ∀ q x, f_rounds q x → f_isfinite x = true → Qabs (fv x - q) <= ulp_rel * Qabs q + ulp_abs;
  add_rounds : ∀ x y, f_isfinite x = true → f_isfinite y = true → f_rounds (fv x + fv y) (fadd x y);
  sub_rounds : ∀ x y, f_isfinite x = true → f_isfinite y = true → f_rounds (fv x - fv y) (fsub x y);
  (* a difference of two floats of the format is never off by more than its relative part *)
  sub_error : ∀ x y, f_isfinite x = true → f_double x = true → f_isfinite y = true → f_double y = true →
    f_isfinite (fsub x y) = true → Qabs (fv (fsub x y) - (fv x - fv y)) <= ulp_rel * Qabs (fv x - fv y);
  mul_rounds : ∀ x y, f_isfinite x = true → f_isfinite y = true → f_rounds (fv x * fv y) (fmul x y);
  div_rounds : ∀ x y, f_isfinite x = true → f_isfinite y = true → ~ fv y == 0 → f_rounds (fv x / fv y) (fdiv x y);
  add_double : ∀ x y, f_double x = true → f_double y = true → f_double (fadd x y) = true;
  div_double : ∀ x y, f_double x = true → f_double y = true → f_double (fdiv x y) = true
}.

(** ** The exact rationals *)

#[global, refine] Instance Q_rounds : FloatRounds Q :=
  {| fv := λ x, x; f_double := λ _, true; f_rounds := λ q x, x == q |}.
Proof.
  - intros x y _ _. apply Qle_bool_iff.
  - intros x y _ _. apply Q_ltb_lt.
  - done.
  - done.
  - intros n d. apply Qred_correct.
  - intros x _ _. by exists (- x).
  - intros q q' x E. by rewrite E.
  - intros q q' x x' E E' H. apply Qle_bool_iff. by rewrite E, E'.
  - intros q. by exists q.
  - done.
  - done.
  - done.
  - done.
  - intros q x E _. rewrite E. assert (q - q == 0) as -> by ring. pose proof (Qabs_nonneg q). destruct ulp_pos as [Hu Ha].
    change (Qabs 0) with 0. nra.
  - intros x y _ _. apply Qred_correct.
  - intros x y _ _. apply Qred_correct.
  - intros x y _ _ _ _ _. cbn [fsub Q_float]. rewrite Qred_correct. assert (x - y - (x - y) == 0) as -> by ring.
    pose proof (Qabs_nonneg (x - y)). destruct ulp_pos as [Hu Ha]. change (Qabs 0) with 0. nra.
  - intros x y _ _. apply Qred_correct.
  - intros x y _ _ _. apply Qred_correct.
  - done.
  - done.
Defined.

(** ** Rounding to an integer *)

Lemma round_half_even_spec n d :
  let q := round_half_even n d in (2 * n - Zpos d <= 2 * (q * Zpos d) <= 2 * n + Zpos d)%Z.
Proof.
  unfold round_half_even. pose proof (Z.div_mod n (Zpos d) ltac:(lia)) as E. pose proof (Z.mod_pos_bound n (Zpos d) ltac:(lia)) as Hr.
  set (q := (n / Zpos d)%Z) in *. set (r := (n mod Zpos d)%Z) in *. clearbody q r.
  destruct (Z.compare_spec (2 * r) (Zpos d)); [destruct (Z.even _)|..]; lia.
Qed.
Lemma round_half_even_mono n d n' d' :
  (n * Zpos d' <= n' * Zpos d)%Z → (round_half_even n d <= round_half_even n' d')%Z.
Proof.
  intros H. unfold round_half_even.
  pose proof (Z.div_mod n (Zpos d) ltac:(lia)) as E. pose proof (Z.mod_pos_bound n (Zpos d) ltac:(lia)) as Hr.
  pose proof (Z.div_mod n' (Zpos d') ltac:(lia)) as E'. pose proof (Z.mod_pos_bound n' (Zpos d') ltac:(lia)) as Hr'.
  set (q := (n / Zpos d)%Z) in *. set (r := (n mod Zpos d)%Z) in *. set (q' := (n' / Zpos d')%Z) in *. set (r' := (n' mod Zpos d')%Z) in *.
  clearbody q r q' r'.
  assert (q < q' ∨ q = q' ∧ r * Zpos d' <= r' * Zpos d)%Z as [Hq|[-> Hq]].
  { subst n n'. destruct (Z.lt_trichotomy q q') as [?|[->|Hq]]; [by left|right; split; [done|]; nia|exfalso].
    assert (r' * Zpos d < Zpos d' * Zpos d)%Z by nia. assert (0 <= r * Zpos d')%Z by nia.
    assert (Zpos d * Zpos d' * (q' + 1) <= Zpos d * Zpos d' * q)%Z by nia. nia. }
  - destruct (2 * r ?= Zpos d)%Z, (2 * r' ?= Zpos d')%Z, (Z.even q), (Z.even q'); lia.
  - destruct (Z.compare_spec (2 * r) (Zpos d)), (Z.compare_spec (2 * r') (Zpos d')), (Z.even q'); nia.
Qed.
Lemma round_half_even_exact z d : round_half_even (z * Zpos d) d = z.
Proof.
  pose proof (round_half_even_spec (z * Zpos d) d) as H. cbn in H. nia.
Qed.

(** ** Powers of two *)

Abbreviation P := (Qpower 2).
Lemma P_pos e : 0 < P e.
Proof. by apply Qpower_0_lt. Qed.
Lemma P_plus a b : P (a + b) == P a * P b.
Proof. by apply Qpower_plus. Qed.
Lemma P_le a b : (a <= b)%Z → P a <= P b.
Proof. intros H. by apply Qpower_le_compat_l. Qed.
Lemma P_lt a b : (a < b)%Z → P a < P b.
Proof. intros H. by apply Qpower_lt_compat_l. Qed.
Lemma P_lt_inv a b : P a < P b → (a < b)%Z.
Proof. intros H. destruct (Z.lt_ge_cases a b) as [?|Hle]; [done|]. apply P_le in Hle. lra. Qed.
Lemma P_Z e : (0 <= e)%Z → P e == inject_Z (2 ^ e).
Proof. intros H. by rewrite Zpower_Qpower. Qed.
Lemma pow2_ratio e : inject_Z (pow2 e) == P e * inject_Z (pow2 (- e)).
Proof.
  unfold pow2. destruct (Z.le_ge_cases 0 e) as [H|H].
  - rewrite (Z.max_r 0 e), (Z.max_l 0 (- e)), (P_Z e) by lia. change (inject_Z (2 ^ 0)) with 1. ring.
  - rewrite (Z.max_l 0 e), (Z.max_r 0 (- e)), <- (P_Z (- e)) by lia. rewrite <- P_plus.
    by replace (e + - e)%Z with 0%Z by lia.
Qed.
Lemma pow2_pos e : (0 < pow2 e)%Z.
Proof. unfold pow2. apply Z.pow_pos_nonneg; lia. Qed.

(** ** The magnitude of a rounding *)

Section magnitude.
Variables (n d : Z).
Hypotheses (Hn : (0 < n)%Z) (Hd : (0 < d)%Z).
Let q : Q := inject_Z n / inject_Z d.
Let e : Z := last_bit n d.

Lemma inj_pos z : (0 < z)%Z → 0 < inject_Z z.
Proof. intros H. change 0 with (inject_Z 0). by rewrite <- Zlt_Qlt. Qed.
Lemma log2_bounds z : (0 < z)%Z → P (Z.log2 z) <= inject_Z z ∧ inject_Z z < P (Z.log2 z + 1).
Proof.
  intros H. pose proof (Z.log2_nonneg z). destruct (Z.log2_spec z H) as [H1 H2]. rewrite !P_Z by lia.
  rewrite <- Zle_Qle, <- Zlt_Qlt. by rewrite Z.add_1_r.
Qed.

Lemma q_ge z : P z <= q ↔ P z * inject_Z d <= inject_Z n.
Proof.
  pose proof (inj_pos d Hd) as Hd'. unfold q. split; intros H.
  - apply (Qmult_le_compat_r _ _ (inject_Z d)) in H; [|lra]. assert (inject_Z n / inject_Z d * inject_Z d == inject_Z n) as E by (field; lra).
    by rewrite E in H.
  - by apply Qle_shift_div_l.
Qed.
Lemma q_lt z : q < P z ↔ inject_Z n < P z * inject_Z d.
Proof.
  split; intros H.
  - apply Qnot_le_lt. intros H'%q_ge. lra.
  - apply Qnot_le_lt. intros H'%q_ge. lra.
Qed.
Lemma q_pos : 0 < q.
Proof. unfold q. apply Qlt_shift_div_l; [by apply inj_pos|]. rewrite Qmult_0_l. by apply inj_pos. Qed.

Lemma last_bit_spec : q < P (e + 53) ∧ (e = (-1074)%Z ∨ ((-1074) < e)%Z ∧ P (e + 52) <= q).
Proof.
  destruct (log2_bounds n Hn) as [A1 A2]. destruct (log2_bounds d Hd) as [B1 B2].
  set (k := (Z.log2 n - Z.log2 d)%Z).
  assert (q < P (k + 1)) as Hhi.
  { apply q_lt. eapply Qlt_le_trans; [exact A2|]. replace (Z.log2 n + 1)%Z with ((k + 1) + Z.log2 d)%Z by lia.
    rewrite P_plus. pose proof (P_pos (k + 1)). apply Qmult_le_l; done. }
  assert (P (k - 1) <= q) as Hlo.
  { apply q_ge. eapply Qle_trans; [|exact A1]. replace (Z.log2 n) with ((k - 1) + (Z.log2 d + 1))%Z by lia.
    rewrite (P_plus (k - 1)). pose proof (P_pos (k - 1)). apply Qmult_le_l; [done|]. lra. }
  assert ((d * pow2 k <=? n * pow2 (- k))%Z = true ↔ P k <= q) as Ht.
  { rewrite Z.leb_le, Zle_Qle, !inject_Z_mult, pow2_ratio, q_ge. pose proof (inj_pos _ (pow2_pos (- k))) as Hp.
    set (c := inject_Z (pow2 (- k))) in *. clearbody c. split; intros H; nra. }
  unfold e, last_bit. fold k. set (k' := if (_ <=? _)%Z then _ else _).
  assert (P k' <= q ∧ q < P (k' + 1)) as [H1 H2].
  { unfold k'. destruct (d * pow2 k <=? n * pow2 (- k))%Z; [by split; [apply Ht|]|]. split; [done|].
    replace (k - 1 + 1)%Z with k by lia. apply Qnot_le_lt. intros H%Ht. done. }
  clearbody k'. destruct (Z.max_spec (k' - 52) (-1074)) as [[H ->]|[H ->]].
  - split; [|by left]. eapply Qlt_le_trans; [exact H2|]. apply P_le. lia.
  - split; [by replace (k' - 52 + 53)%Z with (k' + 1)%Z by lia|]. destruct (Z.eq_dec (k' - 52) (-1074)); [by left|right].
    split; [lia|]. by replace (k' - 52 + 52)%Z with k' by lia.
Qed.

End magnitude.

(** [mantissa] rounds the ratio in units of the last bit. *)
Definition ratio (n d : Z) : Q := inject_Z n / inject_Z d.
Section mantissa.
Implicit Types n d e : Z.

Lemma mantissa_ratio n d e : (0 < d)%Z → inject_Z (n * pow2 (- e)) / inject_Z (d * pow2 e) == ratio n d / P e.
Proof.
  intros Hd. pose proof (inj_pos d Hd). pose proof (inj_pos _ (pow2_pos (- e))). pose proof (P_pos e).
  rewrite !inject_Z_mult, (pow2_ratio e). unfold ratio. field. split_and!; lra.
Qed.
Lemma scaled_den d e : (0 < d)%Z → Zpos (Z.to_pos (d * pow2 e)) = (d * pow2 e)%Z ∧ (0 < d * pow2 e)%Z.
Proof. intros Hd. pose proof (pow2_pos e). split; [|nia]. apply Z2Pos.id. nia. Qed.
Lemma ratio_le n d n' d' : (0 < d)%Z → (0 < d')%Z → ratio n d <= ratio n' d' ↔ (n * d' <= n' * d)%Z.
Proof.
  intros Hd Hd'. pose proof (inj_pos d Hd). pose proof (inj_pos d' Hd'). unfold ratio. rewrite Zle_Qle, !inject_Z_mult.
  assert (inject_Z n / inject_Z d == inject_Z n * inject_Z d' / (inject_Z d * inject_Z d')) as -> by (field; lra).
  assert (inject_Z n' / inject_Z d' == inject_Z n' * inject_Z d / (inject_Z d * inject_Z d')) as -> by (field; lra).
  assert (0 < inject_Z d * inject_Z d') as Hp by nra. split; intros Hx.
  - apply (Qmult_le_compat_r _ _ (inject_Z d * inject_Z d')) in Hx; [|lra].
    assert (∀ a, a / (inject_Z d * inject_Z d') * (inject_Z d * inject_Z d') == a) as E by (intros; field; lra). by rewrite !E in Hx.
  - apply Qmult_le_compat_r; [done|]. apply Qinv_le_0_compat. lra.
Qed.

Lemma mantissa_mono n d n' d' e :
  (0 < d)%Z → (0 < d')%Z → ratio n d <= ratio n' d' → (mantissa n d e <= mantissa n' d' e)%Z.
Proof.
  intros Hd Hd' H. destruct (scaled_den d e Hd) as [E1 H1], (scaled_den d' e Hd') as [E2 H2].
  unfold mantissa. apply round_half_even_mono. rewrite E1, E2. apply ratio_le; [done..|].
  unfold ratio at 1 2. rewrite !mantissa_ratio by done. apply Qmult_le_compat_r; [done|]. apply Qinv_le_0_compat. pose proof (P_pos e). lra.
Qed.
Lemma mantissa_error n d e : (0 < d)%Z → Qabs (inject_Z (mantissa n d e) - ratio n d / P e) <= 1 # 2.
Proof.
  intros Hd. destruct (scaled_den d e Hd) as [E1 H1]. unfold mantissa.
  pose proof (round_half_even_spec (n * pow2 (- e)) (Z.to_pos (d * pow2 e))) as Hs. rewrite E1 in Hs. cbv zeta in Hs.
  rewrite <- mantissa_ratio by done. set (M := round_half_even _ _) in *. set (N := (n * pow2 (- e))%Z) in *. set (D := (d * pow2 e)%Z) in *.
  clearbody M N D. pose proof (inj_pos D H1) as HD. destruct Hs as [Hl Hu]. rewrite Zle_Qle in Hl, Hu.
  unfold Zminus in Hl. rewrite !inject_Z_plus, !inject_Z_mult in Hl, Hu. rewrite inject_Z_opp in Hl.
  change (inject_Z 2) with 2 in Hl, Hu.
  assert (inject_Z N / inject_Z D * inject_Z D == inject_Z N) as E by (field; lra). set (r := inject_Z N / inject_Z D) in *. clearbody r.
  apply Qabs_Qle_condition. split; apply (Qmult_le_r _ _ (inject_Z D) HD).
  all: lra.
Qed.
Lemma mantissa_exact n d e z : (0 < d)%Z → ratio n d == inject_Z z * P e → mantissa n d e = z.
Proof.
  intros Hd E. pose proof (P_pos e). pose proof (mantissa_error n d e Hd) as H'.
  assert (ratio n d / P e == inject_Z z) as Ez by (rewrite E; field; lra). rewrite Ez in H'.
  apply Qabs_Qle_condition in H' as [A B].
  assert (inject_Z (mantissa n d e) < inject_Z (z + 1)) as C by (rewrite inject_Z_plus; change (inject_Z 1) with 1; lra).
  assert (inject_Z (z - 1) < inject_Z (mantissa n d e)) as D by (unfold Zminus; rewrite inject_Z_plus, inject_Z_opp; change (inject_Z 1) with 1; lra).
  rewrite <- Zlt_Qlt in C, D. lia.
Qed.
End mantissa.

(** The rounded magnitude of a positive ratio. *)
Definition rounded (n d : Z) : Q := inject_Z (mantissa n d (last_bit n d)) * P (last_bit n d).
Section rounded.
Implicit Types n d : Z.

Lemma last_bit_ge n d : (-1074 <= last_bit n d)%Z.
Proof. apply Z.le_max_r. Qed.
(** A mantissa has at most 53 bits, and all of them unless the last one is the least. *)
Lemma mantissa_bounds n d : (0 < n)%Z → (0 < d)%Z →
  (0 <= mantissa n d (last_bit n d) <= 2 ^ 53)%Z ∧ (((-1074) < last_bit n d)%Z → (2 ^ 52 <= mantissa n d (last_bit n d))%Z).
Proof.
  intros Hn Hd. set (e := last_bit n d). destruct (last_bit_spec n d Hn Hd) as [Hu Hl]. fold e in Hu, Hl.
  pose proof (P_pos e) as Hp. pose proof (q_pos n d Hn Hd) as Hq.
  assert (∀ z, mantissa (z * pow2 e) (pow2 (- e)) e = z) as Hz.
  { intros z. apply mantissa_exact; [apply pow2_pos|]. unfold ratio. rewrite inject_Z_mult, (pow2_ratio e). field.
    pose proof (inj_pos _ (pow2_pos (- e))). lra. }
  assert (∀ z, ratio (z * pow2 e) (pow2 (- e)) == inject_Z z * P e) as Hr.
  { intros z. unfold ratio. rewrite inject_Z_mult, (pow2_ratio e). field. pose proof (inj_pos _ (pow2_pos (- e))). lra. }
  assert (∀ k, (0 <= k)%Z → inject_Z (2 ^ k) * P e == P (e + k)) as Hk by (intros k Hk; rewrite <- (P_Z k), P_plus by done; ring).
  split; [split|].
  - rewrite <- (Hz 0%Z) at 1. apply mantissa_mono; [apply pow2_pos|done|]. rewrite Hr. change (inject_Z 0) with 0. unfold ratio. lra.
  - rewrite <- (Hz (2 ^ 53)%Z). apply mantissa_mono; [done|apply pow2_pos|]. rewrite Hr, Hk by done. unfold ratio. lra.
  - intros Hlt. rewrite <- (Hz (2 ^ 52)%Z). apply mantissa_mono; [apply pow2_pos|done|]. rewrite Hr, Hk by done. unfold ratio.
    destruct Hl as [->|[_ Hl]]; [lia|]. done.
Qed.

Lemma rounded_mono n d n' d' : (0 < n)%Z → (0 < d)%Z → (0 < n')%Z → (0 < d')%Z → ratio n d <= ratio n' d' → rounded n d <= rounded n' d'.
Proof.
  intros Hn Hd Hn' Hd' H. unfold rounded.
  destruct (mantissa_bounds n d Hn Hd) as [[_ B] _], (mantissa_bounds n' d' Hn' Hd') as [[C0 _] C].
  destruct (last_bit_spec n d Hn Hd) as [_ Hl], (last_bit_spec n' d' Hn' Hd') as [Hu' _].
  pose proof (last_bit_ge n' d') as Hge. set (e := last_bit n d) in *. set (e' := last_bit n' d') in *.
  assert (e <= e')%Z as He.
  { destruct Hl as [->|[_ Hl]]; [done|]. assert (P (e + 52) < P (e' + 53)) as Hp%P_lt_inv; [|lia].
    eapply Qle_lt_trans; [exact Hl|]. eapply Qle_lt_trans; [exact H|]. exact Hu'. }
  destruct (Z.eq_dec e e') as [E|Hne].
  - rewrite <- E. pose proof (P_pos e). apply Qmult_le_compat_r; [|lra]. rewrite <- Zle_Qle. by apply mantissa_mono.
  - assert (2 ^ 52 <= mantissa n' d' e')%Z as C' by (apply C; pose proof (last_bit_ge n d); lia).
    rewrite Zle_Qle in B, C'.
    pose proof (P_pos e). pose proof (P_pos e').
    apply (Qle_trans _ (inject_Z (2 ^ 53) * P e)); [by apply Qmult_le_compat_r; [|lra]|].
    apply (Qle_trans _ (inject_Z (2 ^ 52) * P e')); [|by apply Qmult_le_compat_r; [|lra]].
    rewrite <- !P_Z, <- !P_plus by done. apply P_le. lia.
Qed.

Lemma rounded_error n d : (0 < n)%Z → (0 < d)%Z →
  Qabs (rounded n d - ratio n d) <= ulp_rel * ratio n d + (if Z.eq_dec (last_bit n d) (-1074) then ulp_abs else 0).
Proof.
  intros Hn Hd. unfold rounded. pose proof (mantissa_error n d (last_bit n d) Hd) as He. destruct (last_bit_spec n d Hn Hd) as [_ Hl].
  pose proof (q_pos n d Hn Hd) as Hq. fold (ratio n d) in Hl, Hq. set (e := last_bit n d) in *. pose proof (P_pos e) as Hp.
  apply Qabs_Qle_condition in He as [A B]. destruct ulp_pos as [Hu Ha].
  assert (ratio n d / P e * P e == ratio n d) as E by (field; lra). set (r := ratio n d / P e) in *. set (M := inject_Z _) in *. clearbody r M.
  assert ((1 # 2) * P e <= ulp_rel * ratio n d + (if Z.eq_dec e (-1074) then ulp_abs else 0)) as Hb.
  { destruct (Z.eq_dec e (-1074)) as [->|Hne]; [|destruct Hl as [?|[_ Hl]]; [done|]].
    - change (P (-1074)) with ulp_abs. assert (0 <= ulp_rel * ratio n d) by (apply Qmult_le_0_compat; lra). lra.
    - assert ((1 # 2) * P e == ulp_rel * P (e + 52)) as Eu.
      { unfold ulp_rel. rewrite <- P_plus. change (1 # 2) with (P (-1)). rewrite <- P_plus. by replace (-53 + (e + 52))%Z with (-1 + e)%Z by lia. }
      rewrite Eu. assert (ulp_rel * P (e + 52) <= ulp_rel * ratio n d) by (apply Qmult_le_l; done). lra. }
  apply Qabs_Qle_condition. split; nra.
Qed.
Lemma rounded_error_abs n d : (0 < n)%Z → (0 < d)%Z → Qabs (rounded n d - ratio n d) <= ulp_rel * ratio n d + ulp_abs.
Proof. intros Hn Hd. pose proof (rounded_error n d Hn Hd). destruct ulp_pos. destruct (Z.eq_dec _ _); lra. Qed.
(** A multiple of the least double has no absolute error. *)
Lemma rounded_error_rel n d z : (0 < n)%Z → (0 < d)%Z → ratio n d == inject_Z z * P (-1074) →
  Qabs (rounded n d - ratio n d) <= ulp_rel * ratio n d.
Proof.
  intros Hn Hd E. pose proof (rounded_error n d Hn Hd) as H. pose proof (q_pos n d Hn Hd) as Hq. fold (ratio n d) in Hq.
  destruct (Z.eq_dec (last_bit n d) (-1074)) as [El|_]; [|lra]. clear H. unfold rounded. rewrite El, (mantissa_exact n d (-1074) z), <- E by done.
  assert (ratio n d - ratio n d == 0) as -> by ring. destruct ulp_pos. change (Qabs 0) with 0. apply Qmult_le_0_compat; lra.
Qed.
End rounded.

(** What is representable is kept. *)
Lemma rounded_exact n d z e :
  (0 < n)%Z → (0 < d)%Z → (0 < z <= 2 ^ 53)%Z → (-1074 <= e)%Z → ratio n d == inject_Z z * P e → rounded n d == ratio n d.
Proof.
  intros Hn Hd Hz He E. destruct (last_bit_spec n d Hn Hd) as [_ Hl]. fold (ratio n d) in Hl. unfold rounded.
  set (l := last_bit n d) in *. pose proof (P_pos e) as Hp.
  assert (l <= e ∨ l = e + 1 ∧ z = 2 ^ 53)%Z as [Hle|[El ->]].
  { destruct Hl as [->|[_ Hl]]; [by left|]. rewrite E in Hl.
    destruct (Z.eq_dec z (2 ^ 53)) as [->|Hne].
    - rewrite <- (P_Z 53), <- P_plus in Hl by done. destruct (Z.le_gt_cases (l + 52) (53 + e)); [lia|].
      assert (P (53 + e) < P (l + 52)) by (by apply P_lt). lra.
    - left. assert (inject_Z z * P e < P (53 + e)) as Hlt.
      { rewrite P_plus. apply Qmult_lt_r; [done|]. rewrite P_Z by done. rewrite <- Zlt_Qlt. lia. }
      assert (P (l + 52) < P (53 + e)) as H%P_lt_inv by lra. lia. }
  - rewrite (mantissa_exact n d l (z * 2 ^ (e - l))); [|done|].
    + rewrite inject_Z_mult, <- (P_Z (e - l)), E by lia. rewrite <- Qmult_assoc, <- P_plus. by replace (e - l + l)%Z with e by lia.
    + rewrite inject_Z_mult, <- (P_Z (e - l)), E by lia. rewrite <- Qmult_assoc, <- P_plus. by replace (e - l + l)%Z with e by lia.
  - assert (ratio n d == inject_Z (2 ^ 52) * P l) as E2.
    { rewrite E, El, <- (P_Z 53), <- (P_Z 52), <- !P_plus by done. by replace (52 + (e + 1))%Z with (53 + e)%Z by lia. }
    by rewrite (mantissa_exact n d l (2 ^ 52)), E2.
Qed.

(** ** binary64 *)

Definition signed (s : bool) (v : Q) : Q := if s then - v else v.
#[local] Instance signed_proper s : Proper (Qeq ==> Qeq) (signed s).
Proof. intros v v' E. destruct s; cbn; by rewrite E. Qed.
Definition b64_double (x : binary64) : bool :=
  match x with S754_finite _ m e => (Zpos m <? 2 ^ 53)%Z && (-1074 <=? e)%Z && (e <=? 971)%Z | _ => true end.

Lemma b64_exact_finite s m e : b64_exact (S754_finite s m e) == signed s (inject_Z (Zpos m) * P e).
Proof.
  cbn [b64_exact]. destruct e as [|p|p]; cbn [b64_ratio].
  - destruct s; cbn [signed]; change (P 0) with 1; rewrite Qmult_1_r; reflexivity.
  - rewrite P_Z by done. destruct s; cbn [signed]; rewrite <- inject_Z_mult; [|reflexivity].
    rewrite <- inject_Z_opp. by replace (- (Zpos m * 2 ^ Zpos p))%Z with (Zneg m * 2 ^ Zpos p)%Z by lia.
  - assert (P (Zneg p) == 1 # Z.to_pos (2 ^ Zpos p)) as ->.
    { change (Zneg p) with (- Zpos p)%Z. rewrite Qpower_opp. rewrite (P_Z (Zpos p)) by done.
      assert (0 < 2 ^ Zpos p)%Z as Hp by lia. by destruct (2 ^ Zpos p)%Z. }
    destruct s; cbn [signed]; unfold Qeq; cbn; lia.
Qed.

(** What [b64_make] makes of a mantissa within its bounds. *)
Lemma b64_make_spec s m e :
  (0 <= m <= 2 ^ 53)%Z → (-1074 <= e)%Z → ((-1074) < e → 2 ^ 52 <= m)%Z →
  let v := inject_Z m * P e in
  b64_double (b64_make s m e) = true ∧
  ((b64_isfinite (b64_make s m e) = true ∧ b64_exact (b64_make s m e) == signed s v ∧ v < P 1024) ∨
   (b64_make s m e = S754_infinity s ∧ P 1024 <= v)).
Proof.
  intros Hm He Hbig v. unfold b64_make. destruct (Z.eqb_spec m (2 ^ 53)) as [->|Hne].
  - assert (v == P (53 + e)) as Hv by (unfold v; by rewrite <- (P_Z 53), <- P_plus).
    change (2 ^ 52)%Z with (Zpos 4503599627370496). cbv iota.
    destruct (Z.ltb_spec 971 (e + 1)).
    + split; [done|]. right. split; [done|]. rewrite Hv. apply P_le. lia.
    + split; [cbn; rewrite !andb_true_iff, !Z.leb_le; lia|]. left. split; [done|]. rewrite b64_exact_finite. split.
      * assert (inject_Z 4503599627370496 * P (e + 1) == v) as ->; [|done].
        rewrite Hv. change 4503599627370496%Z with (2 ^ 52)%Z. rewrite <- (P_Z 52), <- P_plus by done.
        by replace (52 + (e + 1))%Z with (53 + e)%Z by lia.
      * rewrite Hv. apply P_lt. lia.
  - destruct m as [|p|p]; [| |lia].
    + split; [done|]. left. split; [done|]. assert (v == 0) as -> by (unfold v; change (inject_Z 0) with 0; ring).
      split; [by destruct s|apply P_pos].
    + assert (v < P (53 + e)) as Hv.
      { unfold v. rewrite P_plus. apply Qmult_lt_r; [apply P_pos|]. rewrite P_Z by done. rewrite <- Zlt_Qlt. lia. }
      destruct (Z.ltb_spec 971 e).
      * split; [done|]. right. split; [done|]. apply (Qle_trans _ (P (52 + e))); [apply P_le; lia|]. unfold v. rewrite P_plus.
        pose proof (P_pos e). apply Qmult_le_r; [done|]. rewrite P_Z by done. rewrite <- Zle_Qle. apply Hbig. lia.
      * split; [cbn; rewrite !andb_true_iff, !Z.leb_le, Z.ltb_lt; lia|]. left. split; [done|]. rewrite b64_exact_finite.
        split; [done|]. eapply Qlt_le_trans; [exact Hv|]. apply P_le. lia.
Qed.

(** The value a rational is rounded to, before an overflow. *)
Definition b64_value (q : Q) : Q :=
  match Qnum q with
  | Z0 => 0
  | Zpos p => rounded (Zpos p) (Zpos (Qden q))
  | Zneg p => - rounded (Zpos p) (Zpos (Qden q))
  end.
Lemma ratio_num q : q == ratio (Qnum q) (Zpos (Qden q)).
Proof. unfold ratio. destruct q as [n d]. cbn. unfold Qeq. cbn. lia. Qed.
Lemma rounded_nonneg n d : (0 < n)%Z → (0 < d)%Z → 0 <= rounded n d.
Proof.
  intros Hn Hd. unfold rounded. apply Qmult_le_0_compat; [|pose proof (P_pos (last_bit n d)); lra].
  change 0 with (inject_Z 0). rewrite <- Zle_Qle. by apply mantissa_bounds.
Qed.

Lemma b64_nearest_spec s q :
  b64_double (b64_nearest s q) = true ∧
  ((b64_isfinite (b64_nearest s q) = true ∧ b64_exact (b64_nearest s q) == b64_value q ∧ - P 1024 < b64_value q < P 1024) ∨
   (b64_nearest s q = S754_infinity false ∧ P 1024 <= b64_value q) ∨
   (b64_nearest s q = S754_infinity true ∧ b64_value q <= - P 1024)).
Proof.
  pose proof (P_pos 1024) as Hp. unfold b64_nearest, b64_value. destruct q as [n d]. cbn [Qnum Qden]. destruct n as [|p|p].
  - split; [done|]. left. split_and!; [done|reflexivity|lra|lra].
  - pose proof (rounded_nonneg (Zpos p) (Zpos d) eq_refl eq_refl) as H0.
    destruct (mantissa_bounds (Zpos p) (Zpos d) eq_refl eq_refl) as [Hb Hbig].
    destruct (b64_make_spec false _ _ Hb (last_bit_ge (Zpos p) (Zpos d)) Hbig) as [Hd [(H1 & H2 & H3)|[-> H1]]];
      fold (rounded (Zpos p) (Zpos d)) in *; (split; [done|]); [left|right; by left].
    split_and!; [done|exact H2|lra|done].
  - pose proof (rounded_nonneg (Zpos p) (Zpos d) eq_refl eq_refl) as H0.
    destruct (mantissa_bounds (Zpos p) (Zpos d) eq_refl eq_refl) as [Hb Hbig].
    destruct (b64_make_spec true _ _ Hb (last_bit_ge (Zpos p) (Zpos d)) Hbig) as [Hd [(H1 & H2 & H3)|[-> H1]]];
      fold (rounded (Zpos p) (Zpos d)) in *; (split; [done|]); [left|right; right].
    + split_and!; [done|exact H2|lra|lra].
    + split; [done|lra].
Qed.

Lemma b64_value_cases q :
  (q == 0 ∧ b64_value q = 0) ∨
  (∃ n d, (0 < n)%Z ∧ (0 < d)%Z ∧ 0 < q ∧ q == ratio n d ∧ b64_value q = rounded n d) ∨
  (∃ n d, (0 < n)%Z ∧ (0 < d)%Z ∧ q < 0 ∧ q == - ratio n d ∧ b64_value q = - rounded n d).
Proof.
  unfold b64_value. destruct q as [n d]. cbn [Qnum Qden]. destruct n as [|p|p].
  - by left.
  - right. left. exists (Zpos p), (Zpos d). split_and!; [done..|apply (ratio_num (Zpos p # d))|done].
  - right. right. exists (Zpos p), (Zpos d). split_and!; [done..| |done]. rewrite <- (ratio_num (Zpos p # d)). reflexivity.
Qed.
Lemma b64_value_mono q q' : q <= q' → b64_value q <= b64_value q'.
Proof.
  intros H. destruct (b64_value_cases q) as [[E ->]|[(n & d & Hn & Hd & Hs & E & ->)|(n & d & Hn & Hd & Hs & E & ->)]];
    destruct (b64_value_cases q') as [[E' ->]|[(n' & d' & Hn' & Hd' & Hs' & E' & ->)|(n' & d' & Hn' & Hd' & Hs' & E' & ->)]];
    try (exfalso; lra); try lra.
  - by apply rounded_nonneg.
  - apply rounded_mono; try done. by rewrite <- E, <- E'.
  - pose proof (rounded_nonneg n d Hn Hd). lra.
  - pose proof (rounded_nonneg n d Hn Hd). pose proof (rounded_nonneg n' d' Hn' Hd'). lra.
  - apply Qopp_le_compat, rounded_mono; try done. lra.
Qed.
Lemma b64_value_error q : Qabs (b64_value q - q) <= ulp_rel * Qabs q + ulp_abs.
Proof.
  destruct ulp_pos as [Hu Ha].
  destruct (b64_value_cases q) as [[E ->]|[(n & d & Hn & Hd & Hs & E & ->)|(n & d & Hn & Hd & Hs & E & ->)]]; rewrite E.
  - change (Qabs 0) with 0. change (Qabs (0 - 0)) with 0. lra.
  - rewrite (Qabs_pos (ratio n d)) by lra. by apply rounded_error_abs.
  - rewrite Qabs_opp, (Qabs_pos (ratio n d)) by lra.
    assert (- rounded n d - - ratio n d == - (rounded n d - ratio n d)) as -> by ring. rewrite Qabs_opp. by apply rounded_error_abs.
Qed.
Lemma b64_value_error_rel q z : q == inject_Z z * P (-1074) → Qabs (b64_value q - q) <= ulp_rel * Qabs q.
Proof.
  intros Ez. destruct ulp_pos as [Hu Ha].
  destruct (b64_value_cases q) as [[E ->]|[(n & d & Hn & Hd & Hs & E & ->)|(n & d & Hn & Hd & Hs & E & ->)]]; rewrite E.
  - change (Qabs 0) with 0. change (Qabs (0 - 0)) with 0. lra.
  - rewrite (Qabs_pos (ratio n d)) by lra. apply (rounded_error_rel n d z); [done..|]. by rewrite <- E.
  - rewrite Qabs_opp, (Qabs_pos (ratio n d)) by lra.
    assert (- rounded n d - - ratio n d == - (rounded n d - ratio n d)) as -> by ring. rewrite Qabs_opp.
    apply (rounded_error_rel n d (- z)); [done..|]. rewrite inject_Z_opp. lra.
Qed.
Lemma b64_value_exact q s z e :
  (0 < z <= 2 ^ 53)%Z → (-1074 <= e)%Z → q == signed s (inject_Z z * P e) → b64_value q == q.
Proof.
  intros Hz He Eq. assert (0 < inject_Z z * P e) as Hp.
  { pose proof (P_pos e). assert (0 < inject_Z z) by (apply inj_pos; lia). nra. }
  destruct (b64_value_cases q) as [[E ->]|[(n & d & Hn & Hd & Hs & E & ->)|(n & d & Hn & Hd & Hs & E & ->)]]; [by rewrite E|..];
    destruct s; cbn [signed] in Eq; try (exfalso; lra).
  - rewrite E. eapply rounded_exact; [done..|]. by rewrite <- E.
  - rewrite E. apply Qopp_comp. eapply rounded_exact; [done..|]. lra.
Qed.

Definition b64_rounds (q : Q) (x : binary64) : Prop := ∃ s q', q' == q ∧ x = b64_nearest s q'.

(** A finite double is zero or a mantissa of 53 bits over a power of two. *)
Lemma b64_double_cases x : b64_isfinite x = true → b64_double x = true →
  b64_exact x == 0 ∨ ∃ s z e, (0 < z < 2 ^ 53)%Z ∧ (-1074 <= e)%Z ∧ b64_exact x == signed s (inject_Z z * P e) ∧ (e <= 971)%Z.
Proof.
  destruct x as [s|s| |s m e]; try done; [by left|]. intros _ H. cbn in H. rewrite !andb_true_iff, !Z.leb_le, Z.ltb_lt in H.
  right. exists s, (Zpos m), e. split_and!; try lia. apply b64_exact_finite.
Qed.
Lemma b64_value_double x : b64_isfinite x = true → b64_double x = true →
  b64_value (b64_exact x) == b64_exact x ∧ - P 1024 < b64_exact x < P 1024.
Proof.
  intros Hf Hd. pose proof (P_pos 1024). destruct (b64_double_cases x Hf Hd) as [E|(s & z & e & Hz & He & E & He')].
  - split; [|rewrite E; lra]. destruct (b64_value_cases (b64_exact x)) as [[_ ->]|[(n & d & _ & _ & Hs & _)|(n & d & _ & _ & Hs & _)]]; [by rewrite E|lra..].
  - split; [by apply (b64_value_exact _ s z e); [lia|..]|].
    assert (inject_Z z * P e < P 1024).
    { apply (Qlt_le_trans _ (P (53 + e))); [|apply P_le; lia]. rewrite P_plus. apply Qmult_lt_r; [apply P_pos|].
      rewrite P_Z by done. rewrite <- Zlt_Qlt. lia. }
    assert (0 < inject_Z z * P e). { pose proof (P_pos e). assert (0 < inject_Z z) by (apply inj_pos; lia). nra. }
    rewrite E. destruct s; cbn [signed]; lra.
Qed.

Lemma b64_double_multiple x : b64_isfinite x = true → b64_double x = true → ∃ z, b64_exact x == inject_Z z * P (-1074).
Proof.
  intros Hf Hd. destruct (b64_double_cases x Hf Hd) as [E|(s & z & e & _ & He & E & _)]; [exists 0%Z; rewrite E; reflexivity|].
  assert (P e == inject_Z (2 ^ (e + 1074)) * P (-1074)) as Ep.
  { rewrite <- (P_Z (e + 1074)), <- P_plus by lia. by replace (e + 1074 + -1074)%Z with e by lia. }
  exists (if s then - (z * 2 ^ (e + 1074)) else z * 2 ^ (e + 1074))%Z. rewrite E, Ep.
  destruct s; cbn [signed]; rewrite ?inject_Z_opp, inject_Z_mult; ring.
Qed.
Lemma b64_opp x : b64_isfinite x = true → b64_double x = true →
  b64_isfinite (SFopp x) = true ∧ b64_double (SFopp x) = true ∧ b64_exact (SFopp x) == - b64_exact x.
Proof.
  destruct x as [s|s| |s m e]; try done. intros _ Hd. split_and!; [done..|]. unfold SFopp. rewrite !b64_exact_finite.
  destruct s; cbn [negb signed]; ring.
Qed.
Lemma b64_value_bounded q x : b64_isfinite x = true → b64_double x = true → Qabs q <= Qabs (b64_exact x) → - P 1024 < b64_value q < P 1024.
Proof.
  intros Hf Hd H. destruct (b64_value_double x Hf Hd) as [Ev Hb].
  destruct (b64_opp x Hf Hd) as (Hf' & Hd' & E').
  destruct (b64_value_double _ Hf' Hd') as [Ev' _].
  assert (b64_value (b64_exact (SFopp x)) == - b64_exact x) as Eo by (by rewrite Ev', E').
  revert H. apply (Qabs_case (b64_exact x)); intros Hs H; apply Qabs_Qle_condition in H as [Hl Hu].
  - split; [eapply Qlt_le_trans; [|apply (b64_value_mono (b64_exact (SFopp x))); rewrite E'; exact Hl]; rewrite Eo; lra|].
    eapply Qle_lt_trans; [apply (b64_value_mono _ _ Hu)|]. rewrite Ev. lra.
  - split; [eapply Qlt_le_trans; [|apply (b64_value_mono (b64_exact x)); lra]; rewrite Ev; lra|].
    eapply Qle_lt_trans; [apply (b64_value_mono _ (b64_exact (SFopp x))); rewrite E'; exact Hu|]. rewrite Eo. lra.
Qed.
Lemma b64_nearest_finite s q : - P 1024 < b64_value q < P 1024 → b64_isfinite (b64_nearest s q) = true ∧ b64_exact (b64_nearest s q) == b64_value q.
Proof. intros Hb. destruct (b64_nearest_spec s q) as [_ [(F & V & _)|[[_ B]|[_ B]]]]; [done|lra..]. Qed.

Lemma b64_leb_finite x y : b64_isfinite x = true → b64_isfinite y = true → b64_leb x y = true ↔ b64_exact x <= b64_exact y.
Proof.
  intros Hx Hy. unfold b64_leb. rewrite !finite_key, key_leb_spec by done. cbn [fst snd]. split; [|auto]. by intros [?|[_ ?]].
Qed.

#[global, refine] Instance b64_float_rounds : FloatRounds binary64 :=
  {| fv := b64_exact; f_double := b64_double; f_rounds := b64_rounds |}.
Proof.
  - exact b64_leb_finite.
  - intros x y Hx Hy. cbn. unfold b64_ltb. rewrite !finite_key, negb_true_iff, key_leb_gt by done. cbn [fst snd].
    split; [|auto]. by intros [?|[_ ?]].
  - intros a x b. cbn. unfold b64_leb. intros H1 H2 Ha Hb. rewrite (finite_key a) in H1 by done. rewrite (finite_key b) in H2 by done.
    destruct x as [s|s| |s m e]; try done. destruct s; [clear H2; by apply key_leb_spec in H1 as [?|[? _]]|].
    clear H1. by apply key_leb_spec in H2 as [?|[? _]].
  - intros n Hn. change (f_of_Z n) with (b64_nearest false (n # 1)). destruct (b64_nearest_spec false (n # 1)) as [Hd Hs].
    assert (n # 1 == inject_Z n) as En by reflexivity.
    assert (b64_value (n # 1) == inject_Z n) as Ev.
    { destruct (Z.eq_dec n 0) as [->|Hne]; [reflexivity|]. transitivity (n # 1); [|done].
      apply (b64_value_exact _ (bool_decide (n < 0)%Z) (Z.abs n) 0); [lia|lia|]. change (P 0) with 1. rewrite Qmult_1_r, En.
      case_bool_decide; cbn [signed]; [rewrite <- inject_Z_opp|]; (f_equiv; lia) || (apply inject_Z_injective; lia). }
    assert (- P 1024 < inject_Z n < P 1024) as Hb.
    { rewrite (P_Z 1024) by done. rewrite <- inject_Z_opp, <- !Zlt_Qlt.
      assert (2 ^ 53 < 2 ^ 1024)%Z by (by apply Z.pow_lt_mono_r). lia. }
    destruct Hs as [(H1 & H2 & _)|[[_ H]|[_ H]]]; [|rewrite Ev in H; lra..]. split_and!; [done..|]. cbn. by rewrite H2.
  - intros n d. by exists false, (n # d).
  - intros x Hf Hd. exists (SFopp x). by apply b64_opp.
  - intros q q' x E (s & q1 & E1 & ->). exists s, q1. split; [by rewrite E1|done].
  - intros q q' x x' (s & q1 & E & ->) (s' & q2 & E' & ->) H. assert (b64_value q1 <= b64_value q2) as Hv by (apply b64_value_mono; by rewrite E, E').
    pose proof (P_pos 1024) as Hp. destruct (b64_nearest_spec s q1) as [_ [(F1 & V1 & B1)|[[E1 B1]|[E1 B1]]]];
      destruct (b64_nearest_spec s' q2) as [_ [(F2 & V2 & B2)|[[E2 B2]|[E2 B2]]]]; try (exfalso; lra);
      cbn; try (apply b64_leb_finite; [done..|]; by rewrite V1, V2); rewrite ?E1, ?E2; unfold b64_leb;
      rewrite ?(finite_key (b64_nearest _ _)) by done; done.
  - intros q. by exists (b64_nearest false q), false, q.
  - intros x y Hf Hd (s & q & E & ->). destruct (b64_value_double x Hf Hd) as [Ev Hb].
    assert (b64_value q == b64_exact x) as Eq.
    { rewrite <- Ev. apply Qle_antisym; apply b64_value_mono; rewrite E; apply Qle_refl. }
    destruct (b64_nearest_spec s q) as [_ [(F & V & _)|[[_ B]|[_ B]]]]; [|rewrite Eq in B; lra..]. split; [done|]. cbn. by rewrite V.
  - intros x y Hf Hd (s & q & E & ->) Hy. destruct (b64_nearest_spec s q) as [_ [(_ & V & _)|[[B _]|[B _]]]];
      [|cbn in Hy; by rewrite B in Hy..]. cbn. rewrite V, <- E.
    destruct (b64_double_cases x Hf Hd) as [E0|(s' & z & e & Hz & He & E0 & He')].
    + destruct (b64_value_cases q) as [[Eq ->]|[(n & d & _ & _ & Hs & _)|(n & d & _ & _ & Hs & _)]]; [by rewrite Eq|..];
        cbn in E; rewrite E0 in E; lra.
    + apply (b64_value_exact _ s' z (e + 1)); [lia..|]. rewrite E, P_plus. cbn. rewrite E0. change (P 1) with 2.
      destruct s'; cbn [signed]; ring.
  - intros q x y Hf Hd H (s & q' & E & ->). apply b64_nearest_finite, (b64_value_bounded _ x); [done..|]. by rewrite E.
  - intros q x (s & q' & _ & ->). apply b64_nearest_spec.
  - intros q x (s & q' & E & ->) Hx. destruct (b64_nearest_spec s q') as [_ [(_ & V & _)|[[B _]|[B _]]]];
      [|cbn in Hx; by rewrite B in Hx..]. rewrite V, <- E. apply b64_value_error.
  - intros x y Hx Hy. cbn in *. unfold b64_add. rewrite Hx, Hy. by eexists _, _.
  - intros x y Hx Hy. cbn in *. unfold b64_sub. rewrite Hx, Hy. by eexists _, _.
  - intros x y Hx Dx Hy Dy. cbn [fsub f_isfinite b64_float] in *. unfold b64_sub. rewrite Hx, Hy. cbn [andb]. set (s := _ && _). intros Hf.
    destruct (b64_nearest_spec s (b64_exact x - b64_exact y)) as [_ [(_ & V & _)|[[B _]|[B _]]]]; [|by rewrite B in Hf..]. rewrite V.
    destruct (b64_double_multiple x Hx Dx) as [z Ez], (b64_double_multiple y Hy Dy) as [z' Ez'].
    apply (b64_value_error_rel _ (z - z')). unfold Zminus. rewrite inject_Z_plus, inject_Z_opp, Ez, Ez'. ring.
  - intros x y Hx Hy. cbn in *. unfold b64_mul. rewrite Hx, Hy. by eexists _, _.
  - intros x y Hx Hy Hz. cbn in *. unfold b64_div. rewrite Hx, Hy.
    destruct (Qeq_bool (b64_exact y) 0) eqn:Eb; [by apply Qeq_bool_iff in Eb|]. by eexists _, _.
  - intros x y Hx Hy. cbn. unfold b64_add. destruct (_ && _) eqn:E; [apply b64_nearest_spec|].
    destruct x as [?|[]| |? ? ?], y as [?|[]| |? ? ?]; done.
  - intros x y Hx Hy. cbn. unfold b64_div. destruct (_ && _) eqn:E; [apply b64_nearest_spec|].
    destruct x as [?|?| |? ? ?], y as [?|?| |? ? ?]; try done. exfalso. revert E. cbn [b64_isfinite andb].
    rewrite negb_false_iff, Qeq_bool_iff, b64_exact_finite. intros E.
    match goal with E : signed ?s (inject_Z (Zpos ?m) * P ?e) == 0 |- _ =>
      pose proof (inj_pos (Zpos m) eq_refl); pose proof (P_pos e); assert (0 < inject_Z (Zpos m) * P e) by nra; destruct s; cbn [signed] in E; lra end.
Defined.

(** ** Means and percentages as computed *)

Section computed.
Context {F : Type} `{!FloatOps F, !FloatOrder F, !FloatRounds F}.
Implicit Types x y t b bar m s : F.

(** A float of the format that is neither an infinity nor a NaN. *)
Definition finite_double x : Prop := f_isfinite x = true ∧ f_double x = true.

Lemma of_Z_double n : (Z.abs n <= 2 ^ 53)%Z → finite_double (f_of_Z n).
Proof. intros H. destruct (fv_of_Z (F := F) n H) as (? & ? & _). done. Qed.
Lemma of_Z_value n : (Z.abs n <= 2 ^ 53)%Z → fv (f_of_Z n : F) == inject_Z n.
Proof. intros H. by destruct (fv_of_Z (F := F) n H) as (_ & _ & ?). Qed.
Lemma fzero_double : finite_double (fzero : F).
Proof. by apply of_Z_double. Qed.
Lemma fzero_value : fv (fzero : F) == 0.
Proof. unfold fzero. by rewrite of_Z_value. Qed.

Lemma leb_values x y : finite_double x → finite_double y → fleb x y = true ↔ fv x <= fv y.
Proof. intros [? _] [? _]. by apply fv_leb. Qed.
Lemma ltb_values x y : finite_double x → finite_double y → fltb x y = true ↔ fv x < fv y.
Proof. intros [? _] [? _]. by apply fv_ltb. Qed.
Lemma ltb_values_false x y : finite_double x → finite_double y → fltb x y = false ↔ fv y <= fv x.
Proof. intros Hx Hy. rewrite <- not_true_iff_false, ltb_values by done. split; [apply Qnot_lt_le|apply Qle_not_lt]. Qed.
Lemma leb_values_false x y : finite_double x → finite_double y → fleb x y = false ↔ fv y < fv x.
Proof. intros Hx Hy. rewrite <- not_true_iff_false, leb_values by done. split; [apply Qnot_le_lt|apply Qlt_not_le]. Qed.

(** A rounding of a rational within the integers of the format is finite. *)
Lemma rounds_within q x n : f_rounds q x → (0 <= n <= 2 ^ 53)%Z → Qabs q <= inject_Z n → finite_double x.
Proof.
  intros Hr Hn Hq. split; [|by eapply rounds_double]. destruct (of_Z_double n ltac:(lia)) as [Hf Hd].
  apply (rounds_finite q (f_of_Z n)); [done..| |done]. rewrite of_Z_value by lia. rewrite (Qabs_pos (inject_Z n)); [done|].
  change 0 with (inject_Z 0). rewrite <- Zle_Qle. lia.
Qed.
Lemma rounds_kept q x y : f_rounds q x → finite_double y → q == fv y → finite_double x ∧ fv x == fv y.
Proof.
  intros Hr [Hf Hd] E. destruct (rounds_self y x Hf Hd (rounds_eq _ _ _ E Hr)) as [? ?]. split; [split; [done|]|done].
  by eapply rounds_double.
Qed.
Lemma rounds_floor q x y : f_rounds q x → finite_double y → fv y <= q → fleb y x = true.
Proof.
  intros Hr Hy Hle. destruct (rounds_some (F := F) (fv y)) as [y' Hy']. destruct (rounds_kept _ _ y Hy' Hy (Qeq_refl _)) as [Hd E].
  apply (fleb_trans _ y'); [|by eapply rounds_mono]. apply leb_values; [done..|]. rewrite E. apply Qle_refl.
Qed.
Lemma opp_exact x : finite_double x → finite_double (fsub fzero x) ∧ fv (fsub fzero x) == - fv x.
Proof.
  intros [Hf Hd]. destruct (double_opp x Hf Hd) as (y & Hyf & Hyd & E). pose proof (sub_rounds fzero x (proj1 fzero_double) Hf) as Hr.
  assert (fv fzero - fv x == fv y) as Ey by (rewrite fzero_value, E; ring).
  destruct (rounds_kept _ _ y Hr (conj Hyf Hyd) Ey) as [? ->]. done.
Qed.
Lemma zero_add x : finite_double x → finite_double (fadd fzero x) ∧ fv (fadd fzero x) == fv x.
Proof.
  intros Hx. pose proof (add_rounds fzero x (proj1 fzero_double) (proj1 Hx)) as Hr.
  apply (rounds_kept _ _ x Hr Hx). rewrite fzero_value. ring.
Qed.
Lemma div_one x : finite_double x → finite_double (fdiv x (f_of_Z 1)) ∧ fv (fdiv x (f_of_Z 1)) == fv x.
Proof.
  intros Hx. assert (fv (f_of_Z 1 : F) == 1) as E1 by (by rewrite of_Z_value).
  assert (~ fv (f_of_Z 1 : F) == 0) as Hne by (rewrite E1; lra).
  apply (rounds_kept _ _ x (div_rounds x (f_of_Z 1) (proj1 Hx) (proj1 (of_Z_double 1 ltac:(lia))) Hne) Hx). rewrite E1. field.
Qed.

Lemma rounds_ceil q x y : f_rounds q x → finite_double y → q <= fv y → fleb x y = true.
Proof.
  intros Hr Hy Hle. destruct (rounds_some (F := F) (fv y)) as [y' Hy']. destruct (rounds_kept _ _ y Hy' Hy (Qeq_refl _)) as [Hd E].
  apply (fleb_trans _ y'); [by eapply rounds_mono|]. apply leb_values; [done..|]. rewrite E. apply Qle_refl.
Qed.
(** Between two integers of the format a rounding stays between them. *)
Lemma rounds_between q x lo hi : f_rounds q x → (0 <= lo <= hi)%Z → (hi <= 2 ^ 53)%Z → inject_Z lo <= q <= inject_Z hi →
  finite_double x ∧ inject_Z lo <= fv x <= inject_Z hi.
Proof.
  intros Hr Hlo Hhi [H1 H2]. assert (0 <= inject_Z lo) as H0 by (change 0 with (inject_Z 0); rewrite <- Zle_Qle; lia).
  assert (finite_double x) as Hx.
  { apply (rounds_within q x hi Hr); [lia|]. rewrite Qabs_pos; [done|]. by apply (Qle_trans _ (inject_Z lo)). }
  assert (finite_double (f_of_Z lo : F) ∧ finite_double (f_of_Z hi : F)) as [Dl Dh] by (split; apply of_Z_double; lia).
  split; [done|]. rewrite <- (of_Z_value lo), <- (of_Z_value hi), <- (leb_values (f_of_Z lo)), <- (leb_values x (f_of_Z hi)) by (done || lia).
  split; [apply (rounds_floor q)|apply (rounds_ceil q)]; try done; by rewrite of_Z_value by lia.
Qed.

(** The mean of two floats is no less than the smaller. *)
Lemma mean_ge x y m : finite_double x → finite_double y → finite_double m → 0 <= fv m → fv x <= 1 → fv y <= 1 →
  fv m <= fv x → fv m <= fv y → let a := fdiv (fadd x y) (f_of_Z 2) in finite_double a ∧ fleb m a = true.
Proof.
  intros Hx Hy Hm H0 Bx By Hmx Hmy a. pose proof (add_rounds x y (proj1 Hx) (proj1 Hy)) as Hr.
  destruct (rounds_between _ _ 0 2 Hr) as [Hs Bs]; [lia..|split; change (inject_Z 0) with 0; change (inject_Z 2) with 2; lra|].
  change (inject_Z 0) with 0 in Bs. change (inject_Z 2) with 2 in Bs.
  assert (fv (f_of_Z 2 : F) == 2) as E2 by (by rewrite of_Z_value).
  assert (~ fv (f_of_Z 2 : F) == 0) as Hne by (rewrite E2; lra).
  pose proof (div_rounds (fadd x y) (f_of_Z 2) (proj1 Hs) (proj1 (of_Z_double 2 ltac:(lia))) Hne) as Hd. fold a in Hd.
  set (sum := fadd x y) in *. assert (fv sum / fv (f_of_Z 2) == fv sum * (1 # 2)) as Eh by (rewrite E2; field).
  apply (rounds_eq _ _ _ Eh) in Hd.
  split; [apply (rounds_within _ _ 1 Hd); [lia|]; apply Qabs_Qle_condition; change (inject_Z 1) with 1; lra|].
  apply (rounds_floor _ _ _ Hd Hm). destruct (rounds_some (F := F) (2 * fv m)) as [w Hw].
  destruct (rounds_between _ _ 0 2 Hw) as [Dw _]; [lia..|split; change (inject_Z 0) with 0; change (inject_Z 2) with 2; lra|].
  assert (fleb w sum = true) as Hws by (apply (rounds_mono _ _ _ _ Hw Hr); lra). apply leb_values in Hws; [|done..].
  rewrite (rounds_twice m w) in Hws by (apply Hm || apply Dw || done). lra.
Qed.

(** [(t - b) / b * 100]. *)
Definition percent t b : F := fmul (fdiv (fsub t b) b) (f_of_Z 100).
Definition gain_of t b : Q := (fv t - fv b) / fv b.
(** The relative slack a computed percentage leaves. *)
Definition slack : Q := Qpower 2 (-50).

Lemma Qabs_step (x y e : Q) : Qabs (x - y) <= e → - e <= x - y ∧ x - y <= e ∧ Qabs x <= Qabs y + e.
Proof.
  intros H. pose proof (Qabs_triangle (x - y) y) as Ht. assert (x - y + y == x) as E by ring. rewrite E in Ht.
  apply Qabs_Qle_condition in H as H'. lra.
Qed.
Lemma difference_finite t b : finite_double t → finite_double b → 0 < fv t → 0 < fv b → finite_double (fsub t b).
Proof.
  intros Ht Hb H0 H1. pose proof (sub_rounds t b (proj1 Ht) (proj1 Hb)) as Hr. split; [|by eapply rounds_double].
  destruct (Qlt_le_dec (fv t) (fv b)).
  - apply (rounds_finite _ b _ (proj1 Hb) (proj2 Hb)) in Hr; [done|]. rewrite (Qabs_pos (fv b)) by lra. apply Qabs_Qle_condition. lra.
  - apply (rounds_finite _ t _ (proj1 Ht) (proj2 Ht)) in Hr; [done|]. rewrite (Qabs_pos (fv t)) by lra. apply Qabs_Qle_condition. lra.
Qed.

Lemma ulp_small : ulp_rel <= 1 # 9007199254740992 ∧ ulp_abs <= 1 # 1152921504606846976.
Proof. split; [by compute|]. apply (Qle_trans _ (P (-60))); [by apply P_le|by compute]. Qed.
Lemma scaled_le (u x y : Q) : 0 <= u → x <= y → u * x <= u * y.
Proof. intros. rewrite !(Qmult_comm u). by apply Qmult_le_compat_r. Qed.

(** The quotient is off by two roundings. *)
Lemma quotient_error t b : finite_double t → finite_double b → 0 < fv t → 0 < fv b → Qabs (gain_of t b) <= inject_Z (2 ^ 40) →
  let r := fdiv (fsub t b) b in let p := ulp_rel * Qabs (gain_of t b) in
  finite_double r ∧ Qabs (fv r - gain_of t b) <= 3 * p + ulp_abs.
Proof.
  intros Ht Hb H0 H1 HE r p. pose proof (difference_finite t b Ht Hb H0 H1) as Hd. set (e := gain_of t b) in *.
  destruct ulp_pos as [Hu Ha], ulp_small as [Hu' Ha']. pose proof (Qabs_nonneg e) as HE0.
  assert (fv t - fv b == e * fv b) as De by (unfold e, gain_of; field; lra).
  pose proof (sub_error t b (proj1 Ht) (proj2 Ht) (proj1 Hb) (proj2 Hb) (proj1 Hd)) as Hs. rewrite De, Qabs_Qmult, (Qabs_pos (fv b)) in Hs by lra.
  assert (Qabs (fv (fsub t b) / fv b - e) <= p) as HR.
  { assert (fv (fsub t b) / fv b - e == (fv (fsub t b) - e * fv b) / fv b) as -> by (field; lra).
    apply Qabs_Qle_condition in Hs as [Hs1 Hs2]. apply Qabs_Qle_condition. unfold p.
    split; [apply Qle_shift_div_l|apply Qle_shift_div_r]; try done; lra. }
  apply Qabs_step in HR as (R1 & R2 & R3). assert (0 <= p) as Hp by (apply Qmult_le_0_compat; lra).
  assert (p <= Qabs e) as Hpe. { apply (Qle_trans _ (1 * Qabs e)); [apply Qmult_le_compat_r; lra|lra]. }
  assert (~ fv b == 0) as Hne by lra. pose proof (div_rounds (fsub t b) b (proj1 Hd) (proj1 Hb) Hne) as Hr. fold r in Hr.
  set (R := fv (fsub t b) / fv b) in *.
  assert (finite_double r) as Hf by (apply (rounds_within _ _ (2 ^ 41) Hr); [lia|]; change (inject_Z (2 ^ 41)) with (2 * inject_Z (2 ^ 40)); lra).
  split; [done|]. apply rounds_error in Hr; [|apply Hf]. apply Qabs_step in Hr as (S1 & S2 & _).
  assert (ulp_rel * Qabs R <= 2 * p). { apply (Qle_trans _ (ulp_rel * (2 * Qabs e))); [apply scaled_le; lra|unfold p; lra]. }
  apply Qabs_Qle_condition. lra.
Qed.

Lemma percent_error t b : finite_double t → finite_double b → 0 < fv t → 0 < fv b → Qabs (gain_of t b) <= inject_Z (2 ^ 40) →
  finite_double (percent t b) ∧ Qabs (fv (percent t b) - 100 * gain_of t b) <= 500 * ulp_rel * Qabs (gain_of t b) + 200 * ulp_abs.
Proof.
  intros Ht Hb H0 H1 HE. destruct (quotient_error t b Ht Hb H0 H1 HE) as [Hr He]. unfold percent. set (r := fdiv (fsub t b) b) in *.
  set (e := gain_of t b) in *. set (p := ulp_rel * Qabs e) in *. destruct ulp_pos as [Hu Ha], ulp_small as [Hu' Ha'].
  pose proof (Qabs_nonneg e) as HE0. assert (0 <= p) as Hp by (apply Qmult_le_0_compat; lra).
  assert (p <= (1 # 1000) * Qabs e) as Hpe. { unfold p. apply Qmult_le_compat_r; lra. }
  apply Qabs_step in He as (R1 & R2 & R3). pose proof (mul_rounds r (f_of_Z 100) (proj1 Hr) (proj1 (of_Z_double 100 ltac:(lia)))) as Hm.
  assert (fv r * fv (f_of_Z 100 : F) == 100 * fv r) as E by (rewrite of_Z_value by lia; change (inject_Z 100) with 100; ring).
  apply (rounds_eq _ _ _ E) in Hm. assert (Qabs (100 * fv r) == 100 * Qabs (fv r)) as E' by (by rewrite Qabs_Qmult).
  assert (finite_double (fmul r (f_of_Z 100))) as Hf.
  { apply (rounds_within _ _ (2 ^ 50) Hm); [lia|]. rewrite E'. change (inject_Z (2 ^ 50)) with (1024 * inject_Z (2 ^ 40)).
    assert (1 <= inject_Z (2 ^ 40)) by by compute. lra. }
  split; [done|]. apply rounds_error in Hm; [|apply Hf]. rewrite E' in Hm. apply Qabs_step in Hm as (S1 & S2 & _).
  assert (ulp_rel * (100 * Qabs (fv r)) <= 101 * p + ulp_abs).
  { apply (Qle_trans _ (ulp_rel * (100 * (1003 # 1000) * Qabs e + 100 * ulp_abs))); [apply scaled_le; lra|]. unfold p in *.
    assert (ulp_rel * ulp_abs <= (1 # 100) * ulp_abs) by (apply Qmult_le_compat_r; lra). lra. }
  apply Qabs_Qle_condition. unfold p in *. lra.
Qed.

(** A computed percentage not below [bar] is a gain of [bar] percent, but for the slack. *)
Lemma percent_floor t b bar : finite_double t → finite_double b → finite_double bar → 0 < fv t → 0 < fv b → fv bar <= 100 →
  fltb (percent t b) bar = false → fv b * (1 + fv bar / 100 - slack) <= fv t.
Proof.
  intros Ht Hb Hbar H0 H1 Hh Hlt. assert (fv bar / 100 == fv bar * (1 # 100)) as -> by field.
  assert (fv t == fv b * (1 + gain_of t b)) as -> by (unfold gain_of; field; lra).
  assert (- (1) < gain_of t b) as Hlow. { unfold gain_of. apply Qlt_shift_div_l; [done|]. lra. }
  rewrite !(Qmult_comm (fv b)). apply Qmult_le_compat_r; [|lra]. assert (0 < slack) as Hs by (by apply Qpower_0_lt).
  destruct (Qlt_le_dec (gain_of t b) 1) as [He|He]; [|lra].
  assert (Qabs (gain_of t b) <= 1) as Hab by (apply Qabs_Qle_condition; lra).
  destruct (percent_error t b Ht Hb H0 H1) as [Hf Herr]; [eapply Qle_trans; [exact Hab|by compute]|].
  apply (ltb_values_false _ _ Hf Hbar) in Hlt. apply Qabs_step in Herr as (E1 & E2 & _). destruct ulp_pos as [Hu Ha].
  assert (500 * ulp_rel * Qabs (gain_of t b) <= 500 * ulp_rel * 1) by (apply scaled_le; lra).
  assert (500 * ulp_rel + 200 * ulp_abs <= 100 * slack).
  { apply (Qle_trans _ (500 * ulp_rel + 200 * P (-60))); [assert (ulp_abs <= P (-60)) by (by apply P_le); lra|by compute]. }
  lra.
Qed.

(** *** Sums and portions *)

Definition bounded x (k : Z) : Prop := finite_double x ∧ 0 <= fv x <= inject_Z k.

Lemma add_bounded x y j k : bounded x j → bounded y k → (0 <= j)%Z → (0 <= k)%Z → (j + k <= 2 ^ 53)%Z →
  bounded (fadd x y) (j + k) ∧ fv x <= fv (fadd x y) ∧ fv y <= fv (fadd x y).
Proof.
  intros [Hx Bx] [Hy By] Hj Hk Hle. pose proof (add_rounds x y (proj1 Hx) (proj1 Hy)) as Hr.
  destruct (rounds_between _ _ 0 (j + k) Hr) as [Hs Bs]; [lia..|rewrite inject_Z_plus; change (inject_Z 0) with 0; lra|].
  split; [done|]. split; apply leb_values; try done; eapply rounds_floor; try done; lra.
Qed.
Lemma foldl_bounded (l : list F) acc j k : bounded acc j → (0 <= j)%Z → (0 <= k)%Z → Forall (λ x, bounded x k) l →
  (j + k * Z.of_nat (length l) <= 2 ^ 53)%Z →
  let s := foldl fadd acc l in
  bounded s (j + k * Z.of_nat (length l)) ∧ fv acc <= fv s ∧ ∀ x, x ∈ l → fv x <= fv s.
Proof.
  revert acc j. induction l as [|x l IH]; intros acc j Ha Hj Hk Hl Hle; cbn [foldl length] in *.
  - rewrite Z.mul_0_r, Z.add_0_r. split; [done|]. split; [apply Qle_refl|]. by intros x ?%elem_of_nil.
  - apply Forall_cons in Hl as [Hx Hl]. rewrite Nat2Z.inj_succ in Hle |- *.
    destruct (add_bounded acc x j k Ha Hx) as (Hb & H1 & H2); [lia..|nia|].
    destruct (IH (fadd acc x) (j + k)%Z Hb) as (Hs & H3 & H4); [lia..|done|nia|].
    replace (j + k * Z.succ (Z.of_nat (length l)))%Z with (j + k + k * Z.of_nat (length l))%Z by lia.
    split; [done|]. split; [lra|]. intros y [->|Hy]%elem_of_cons; [lra|by apply H4].
Qed.
(** A sum of non-negative floats is at least each of them. *)
Lemma fsum_bounded (l : list F) k : (0 <= k)%Z → Forall (λ x, bounded x k) l → (k * Z.of_nat (length l) <= 2 ^ 53)%Z →
  bounded (fsum l) (k * Z.of_nat (length l)) ∧ ∀ x, x ∈ l → fv x <= fv (fsum l).
Proof.
  intros Hk Hl Hle. assert (bounded (fzero : F) 0) as H0 by (split; [apply fzero_double|]; rewrite fzero_value; change (inject_Z 0) with 0; lra).
  destruct (foldl_bounded l fzero 0 k H0) as (Hb & _ & Hx); [lia|done..|lia|]. done.
Qed.

Lemma rounds_up q x : f_rounds q x → finite_double x → 0 <= q → fv x <= q + ulp_rel * q + ulp_abs.
Proof.
  intros Hr Hx Hq. apply rounds_error in Hr; [|apply Hx]. rewrite (Qabs_pos q) in Hr by done. apply Qabs_step in Hr as (_ & H & _). lra.
Qed.

(** The part [x] of [whole] in [y], as computed, exceeds [y] by no more than rounding. *)
Lemma portion_le y x whole : bounded y (2 ^ 34) → bounded x (2 ^ 10) → Qpower 2 (-1000) <= fv x → finite_double whole → fv x <= fv whole →
  let t := fdiv (fmul y x) whole in bounded t (2 ^ 36) ∧ fv t <= fv y + 3 * ulp_rel * (fv y + 1).
Proof.
  intros [Hy By] [Hx Bx] Hlow Hw Hle t. destruct ulp_pos as [Hu Ha], ulp_small as [Hu' _]. pose proof (P_pos (-1000)) as Hp.
  assert (ulp_abs <= ulp_rel * ulp_rel) as Ha2 by (unfold ulp_rel; rewrite <- P_plus; by apply P_le).
  assert (ulp_abs <= ulp_rel * fv whole) as Ha1.
  { apply (Qle_trans _ (ulp_rel * P (-1000))); [unfold ulp_rel; rewrite <- P_plus; by apply P_le|]. apply scaled_le; lra. }
  pose proof (mul_rounds y x (proj1 Hy) (proj1 Hx)) as Hm. change (inject_Z (2 ^ 10)) with 1024 in Bx.
  assert (0 <= fv y * fv x) as H0 by (apply Qmult_le_0_compat; lra).
  assert (fv y * fv x <= fv y * 1024) as H1 by (apply scaled_le; lra).
  assert (fv y * fv x <= fv y * fv whole) as H2 by (apply scaled_le; lra).
  destruct (rounds_between _ _ 0 (2 ^ 44) Hm) as [Dm Bm]; [lia..|change (inject_Z (2 ^ 44)) with (1024 * inject_Z (2 ^ 34)); change (inject_Z 0) with 0; lra|].
  apply rounds_up in Hm; [|done..]. set (m := fmul y x) in *. change (inject_Z 0) with 0 in Bm.
  assert (~ fv whole == 0) as Hne by lra. pose proof (div_rounds m whole (proj1 Dm) (proj1 Hw) Hne) as Hd. fold t in Hd.
  assert (0 <= fv m / fv whole) as R0 by (apply Qle_shift_div_l; [lra|]; rewrite Qmult_0_l; apply Bm).
  assert (fv m / fv whole <= fv y + ulp_rel * fv y + ulp_rel) as R1.
  { apply Qle_shift_div_r; [lra|]. assert (ulp_rel * (fv y * fv x) <= ulp_rel * (fv y * fv whole)) by (apply scaled_le; lra). lra. }
  set (q := fv m / fv whole) in *. clearbody q. assert (0 <= fv y) as Hy0 by apply By.
  assert (ulp_rel * fv y <= fv y) as Huy by (apply (Qle_trans _ (1 * fv y)); [apply Qmult_le_compat_r; lra|lra]).
  change (inject_Z (2 ^ 34)) with (17179869184 # 1) in By.
  destruct (rounds_between _ _ 0 (2 ^ 36) Hd) as [Dt Bt]; [lia..|change (inject_Z (2 ^ 36)) with (68719476736 # 1); change (inject_Z 0) with 0; lra|].
  split; [done|]. apply rounds_up in Hd; [|done..].
  assert (ulp_rel * q <= ulp_rel * (fv y + ulp_rel * fv y + ulp_rel)) as H3 by (apply scaled_le; lra).
  assert (ulp_rel * (ulp_rel * fv y) <= (1 # 4) * (ulp_rel * fv y)) by (apply Qmult_le_compat_r; [lra|apply Qmult_le_0_compat; lra]).
  assert (ulp_rel * ulp_rel <= (1 # 4) * ulp_rel) by (apply Qmult_le_compat_r; lra).
  assert (0 <= ulp_rel * fv y) by (apply Qmult_le_0_compat; lra). lra.
Qed.
End computed.
