(* ===== verification/PyVal.v ===== *)
(** * Python values

    The strings, dicts and JSON-shaped values the source passes around: string methods on ASCII
    text, the value type of [json.loads] with its truth test and [str], and insertion-ordered
    dicts with [get], item assignment and [{**a, **b}]. *)

From stdpp Require Import base list strings pretty sets gmap sorting.
From Stdlib Require Import Ascii Lia.
From Stdlib Require String.
From S2P Require Import Prelude PyFloat.

(** ** Strings *)

Definition chars (s : string) : list ascii := String.list_ascii_of_string s.
Definition of_chars (l : list ascii) : string := String.string_of_list_ascii l.

(** The ASCII characters [str.strip] removes. *)
Definition is_space (c : ascii) : bool :=
  let n := nat_of_ascii c in
  ((9 <=? n) && (n <=? 13) || (28 <=? n) && (n <=? 32))%nat.

Fixpoint drop_space (l : list ascii) : list ascii :=
  match l with
  | c :: l' => if is_space c then drop_space l' else l
  | [] => []
  end.

(** [s.strip()] *)
Definition py_strip (s : string) : string :=
  of_chars (reverse (drop_space (reverse (drop_space (chars s))))).

Lemma drop_space_idemp l : drop_space (drop_space l) = drop_space l.
Proof. induction l as [|c l IH]; simpl; [done|]. destruct (is_space c) eqn:E; [done|]. simpl. by rewrite E. Qed.

Lemma drop_space_suffix l : ∃ k, l = k ++ drop_space l.
Proof.
  induction l as [|c l [k IH]]; simpl; [by exists []|]. destruct (is_space c); [|by exists []].
  exists (c :: k). simpl. by f_equal.
Qed.

Lemma strip_prefix_head l m : l = drop_space l → ∀ k, l = m ++ k → drop_space m = m.
Proof.
  intros Hl k ->. destruct m as [|c m]; [done|]. simpl in *. destruct (is_space c) eqn:E; [|done].
  exfalso. destruct (drop_space_suffix (m ++ k)) as [j Hj]. apply (f_equal length) in Hl, Hj.
  rewrite (length_app j) in Hj. simpl in Hl. lia.
Qed.

Lemma py_strip_idemp s : py_strip (py_strip s) = py_strip s.
Proof.
  unfold py_strip, chars, of_chars. rewrite String.list_ascii_of_string_of_list_ascii.
  set (m := drop_space (String.list_ascii_of_string s)).
  assert (drop_space m = m) as Hm by apply drop_space_idemp.
  destruct (drop_space_suffix (reverse m)) as [k Hk].
  assert (m = reverse (drop_space (reverse m)) ++ reverse k) as Hsplit.
  { rewrite <- reverse_app, <- Hk. by rewrite reverse_involutive. }
  rewrite (strip_prefix_head m (reverse (drop_space (reverse m))) (eq_sym Hm) _ Hsplit).
  by rewrite reverse_involutive, drop_space_idemp.
Qed.

Definition upper_char (c : ascii) : ascii :=
  let n := nat_of_ascii c in if ((97 <=? n) && (n <=? 122))%nat then ascii_of_nat (n - 32) else c.
Definition lower_char (c : ascii) : ascii :=
  let n := nat_of_ascii c in if ((65 <=? n) && (n <=? 90))%nat then ascii_of_nat (n + 32) else c.

(** [s.upper()] and [s.lower()] *)
Definition py_upper (s : string) : string := of_chars (upper_char <$> chars s).
Definition py_lower (s : string) : string := of_chars (lower_char <$> chars s).

#[global] Arguments py_strip : simpl never.
#[global] Arguments py_upper : simpl never.
#[global] Arguments py_lower : simpl never.

Definition is_digit (c : ascii) : bool :=
  let n := nat_of_ascii c in ((48 <=? n) && (n <=? 57))%nat.
Definition digit_val (c : ascii) : Z := Z.of_nat (nat_of_ascii c) - 48.

(** [s.isdigit()] *)
Definition py_isdigit (s : string) : bool :=
  match chars s with [] => false | l => forallb is_digit l end.

(** The digit run of an [int] literal; a single underscore may separate two digits. *)
Fixpoint int_digits (l : list ascii) (acc : Z) (after_digit : bool) : option Z :=
  match l with
  | [] => if after_digit then Some acc else None
  | c :: l' =>
      if is_digit c then int_digits l' (10 * acc + digit_val c) true
      else if (bool_decide (c = "_"%char) && after_digit) then int_digits l' acc false
      else None
  end.

(** [int(s)] of a string: [None] is the [ValueError]. *)
Definition py_int_of_str (s : string) : option Z :=
  match chars (py_strip s) with
  | "-"%char :: l => Z.opp <$> int_digits l 0 false
  | "+"%char :: l => int_digits l 0 false
  | l => int_digits l 0 false
  end.

(** [s.split(sep)] for a one-character separator. *)
Fixpoint split_chars (sep : ascii) (acc : list ascii) (l : list ascii) : list string :=
  match l with
  | [] => [of_chars (reverse acc)]
  | c :: l' =>
      if bool_decide (c = sep) then of_chars (reverse acc) :: split_chars sep [] l'
      else split_chars sep (c :: acc) l'
  end.
Definition py_split (sep : ascii) (s : string) : list string := split_chars sep [] (chars s).

(** [s.split()] *)
Fixpoint split_space (word : list ascii) (l : list ascii) : list string :=
  let done_word := match word with [] => [] | _ => [of_chars (reverse word)] end in
  match l with
  | [] => done_word
  | c :: l' => if is_space c then done_word ++ split_space [] l' else split_space (c :: word) l'
  end.
Definition py_words (s : string) : list string := split_space [] (chars s).

(** [s.replace(a, b)] for single characters. *)
Definition py_replace (a b : ascii) (s : string) : string :=
  of_chars ((λ c, if bool_decide (c = a) then b else c) <$> chars s).

(** [s.count(c)] *)
Definition py_count (c : ascii) (s : string) : nat :=
  length (filter (λ d, d = c) (chars s)).

(** [s.rsplit(sep, 1)[0]]: everything before the last separator, all of [s] without one. *)
Definition py_rsplit1_head (sep : ascii) (s : string) : string :=
  match list_find (λ c, c = sep) (reverse (chars s)) with
  | Some (i, _) => of_chars (reverse (drop (S i) (reverse (chars s))))
  | None => s
  end.

(** [s.startswith(p)] and [substr(s, 1, len(p)) = p] *)
Definition py_startswith (p s : string) : bool := String.prefix p s.

(** *** String order *)

Definition str_le (a b : string) : Prop := String.leb a b = true.
#[global] Instance str_le_dec : RelDecision str_le.
Proof. intros a b. unfold str_le. apply _. Defined.

Lemma str_le_cons a b s t :
  str_le (String a s) (String b t) ↔ (N_of_ascii a < N_of_ascii b)%N ∨ (a = b ∧ str_le s t).
Proof.
  unfold str_le, String.leb. simpl. unfold Ascii.compare.
  destruct (N.compare_spec (N_of_ascii a) (N_of_ascii b)) as [E|E|E].
  - assert (a = b) as -> by (rewrite <- (ascii_N_embedding a), E; apply ascii_N_embedding).
    split; [by right|]. intros [?|[_ ?]]; [lia|done].
  - split; [by left|done].
  - split; [done|]. intros [?|[-> _]]; lia.
Qed.

#[global] Instance str_le_trans : Transitive str_le.
Proof.
  intros x. induction x as [|a x IH]; intros y z Hxy Hyz; [by destruct z|].
  destruct y as [|b y]; [done|]. destruct z as [|c z]; [done|].
  rewrite str_le_cons in *. destruct Hxy as [?|[-> Hxy]], Hyz as [?|[-> Hyz]];
    [left; lia|by left|by left|right; eauto].
Qed.

#[global] Instance str_le_total : Total str_le.
Proof. intros a b. unfold str_le. apply String.leb_total. Qed.

(** [sorted(xs)] of strings, and of a set given by its elements. *)
Definition py_sorted (l : list string) : list string := merge_sort str_le l.
Definition sorted_set (l : list string) : list string := merge_sort str_le (remove_dups l).

Lemma elem_of_sorted_set x l : x ∈ sorted_set l ↔ x ∈ l.
Proof. unfold sorted_set. by rewrite merge_sort_Permutation, elem_of_remove_dups. Qed.

Lemma NoDup_sorted_set l : NoDup (sorted_set l).
Proof. unfold sorted_set. rewrite merge_sort_Permutation. apply NoDup_remove_dups. Qed.

(** ** Values *)

Inductive pyval (F : Type) : Type :=
| PNone
| PBool (b : bool)
| PInt (z : Z)
| PFloat (f : F)
| PStr (s : string)
| PList (l : list (pyval F))
| PDict (d : list (string * pyval F)).
Arguments PNone {F}.
Arguments PBool {F} b.
Arguments PInt {F} z.
Arguments PFloat {F} f.
Arguments PStr {F} s.
Arguments PList {F} l.
Arguments PDict {F} d.

Abbreviation pydict F := (list (string * pyval F)).

(** Induction through the lists and dicts. *)
Lemma pyval_ind' {F} (P : pyval F → Prop) :
  P PNone → (∀ b, P (PBool b)) → (∀ z, P (PInt z)) → (∀ f, P (PFloat f)) → (∀ s, P (PStr s)) →
  (∀ l, Forall P l → P (PList l)) → (∀ d, Forall (λ kv, P kv.2) d → P (PDict d)) → ∀ v, P v.
Proof.
  intros H1 H2 H3 H4 H5 HL HD. fix go 1. intros [| | | | |l|d]; [done|auto..| |].
  - apply HL. induction l; constructor; auto.
  - apply HD. induction d as [|[k v] d IH]; constructor; auto.
Qed.

(** *** Dicts: insertion-ordered, one entry per key. *)

Section dict.
Context {V : Type}.
Implicit Types (d : list (string * V)) (k : string) (v : V).

(** [d.get(k)] *)
Fixpoint dget k d : option V :=
  match d with
  | [] => None
  | (k', v) :: d' => if bool_decide (k = k') then Some v else dget k d'
  end.

(** [k in d] *)
Definition din k d : bool := match dget k d with Some _ => true | None => false end.

(** [d[k] = v]: in place when present, else at the end. *)
Fixpoint dset k v d : list (string * V) :=
  match d with
  | [] => [(k, v)]
  | (k', v') :: d' => if bool_decide (k = k') then (k', v) :: d' else (k', v') :: dset k v d'
  end.

(** [{**a, **b}] and [a.update(b)] *)
Definition dmerge (a b : list (string * V)) : list (string * V) :=
  foldl (λ acc '(k, v), dset k v acc) a b.

Lemma dget_dset_eq k v d : dget k (dset k v d) = Some v.
Proof.
  induction d as [|[k' v'] d IH]; simpl; [by rewrite bool_decide_eq_true_2|].
  case_bool_decide; simpl; [by rewrite bool_decide_eq_true_2|].
  by rewrite bool_decide_eq_false_2.
Qed.

Lemma dget_dset_ne k k' v d : k ≠ k' → dget k (dset k' v d) = dget k d.
Proof.
  intros Hne. induction d as [|[k2 v2] d IH]; simpl; [by rewrite bool_decide_eq_false_2|].
  case_bool_decide; subst; simpl; [by rewrite bool_decide_eq_false_2|].
  case_bool_decide; [done|exact IH].
Qed.

Lemma dset_same k v d : dget k d = Some v → dset k v d = d.
Proof.
  induction d as [|[k' v'] d IH]; simpl; [done|]. case_bool_decide; [by intros [= ->]; subst|]. intros Hd. by rewrite IH.
Qed.

Lemma dget_None k d : dget k d = None ↔ k ∉ d.*1.
Proof.
  induction d as [|[k' v] d IH]; simpl; [split; [intros _; apply not_elem_of_nil|done]|].
  rewrite not_elem_of_cons. case_bool_decide; [naive_solver|]. rewrite IH. naive_solver.
Qed.

Lemma dget_elem k v d : dget k d = Some v → (k, v) ∈ d.
Proof.
  induction d as [|[k' v'] d IH]; simpl; [done|].
  case_bool_decide; [intros [= ->]; subst; left|intros ?; right; auto].
Qed.

Lemma elem_of_dset_keys k k' v d : k' ∈ (dset k v d).*1 ↔ k' = k ∨ k' ∈ d.*1.
Proof. induction d as [|[k2 v2] d IH]; simpl; [set_solver|]. case_bool_decide; subst; simpl; set_solver. Qed.

Lemma din_elem k d : din k d = true ↔ k ∈ d.*1.
Proof.
  unfold din. destruct (dget k d) as [v|] eqn:E.
  - split; [|done]. intros _. apply dec_stable. rewrite <- dget_None. by rewrite E.
  - apply dget_None in E. split; [done|]. by intros ?%E.
Qed.

Lemma dget_dmerge_notin k (a b : list (string * V)) : k ∉ b.*1 → dget k (dmerge a b) = dget k a.
Proof.
  unfold dmerge. revert a. induction b as [|[k' v] b IH]; intros a; simpl; [done|].
  rewrite not_elem_of_cons. intros [Hne Hnin]. rewrite IH by done. by apply dget_dset_ne.
Qed.

Lemma dget_dmerge k (a b : list (string * V)) :
  NoDup b.*1 →
  dget k (dmerge a b) = match dget k b with Some v => Some v | None => dget k a end.
Proof.
  unfold dmerge. revert a. induction b as [|[k' v] b IH]; intros a; simpl; [done|].
  rewrite NoDup_cons. intros [Hnin Hnd]. rewrite IH by done.
  case_bool_decide as Hk; subst.
  - assert (dget k' b = None) as ->; [|apply dget_dset_eq].
    clear -Hnin. induction b as [|[k2 v2] b IHb]; simpl; [done|].
    rewrite bool_decide_eq_false_2 by set_solver. apply IHb. set_solver.
  - destruct (dget k b); [done|]. by apply dget_dset_ne.
Qed.
End dict.

(** *** Truth value and [str] *)

Section values.
Context {F : Type} `{!FloatOps F}.
Implicit Types v : pyval F.

(** [bool(v)] *)
Definition truthy v : bool :=
  match v with
  | PNone => false
  | PBool b => b
  | PInt z => negb (z =? 0)%Z
  | PFloat f => negb (feqb f fzero)
  | PStr s => negb (String.eqb s EmptyString)
  | PList l => negb (bool_decide (l = []))
  | PDict d => negb (bool_decide (d = []))
  end.

(** [repr] of a string without control characters other than newline, return and tab. *)
Definition quote_char (q : ascii) (c : ascii) : list ascii :=
  if bool_decide (c = q) then ["\"%char; c]
  else if bool_decide (c = "\"%char) then ["\"%char; c]
  else match nat_of_ascii c with
       | 10 => ["\"; "n"]%char
       | 13 => ["\"; "r"]%char
       | 9 => ["\"; "t"]%char
       | _ => [c]
       end.
Definition squote : ascii := ascii_of_nat 39.
Definition dquote : ascii := ascii_of_nat 34.
Definition repr_str (s : string) : string :=
  let l := chars s in
  let q := if bool_decide (squote ∈ l) && negb (bool_decide (dquote ∈ l)) then dquote else squote in
  of_chars (q :: (l ≫= quote_char q) ++ [q]).

Definition join (sep : string) (l : list string) : string := String.concat sep l.

(** [repr(v)] *)
Fixpoint py_repr v : string :=
  match v with
  | PNone => "None"
  | PBool b => if b then "True" else "False"
  | PInt z => pretty z
  | PFloat f => frepr f
  | PStr s => repr_str s
  | PList l => "[" +:+ join ", " (py_repr <$> l) +:+ "]"
  | PDict d => "{" +:+ join ", " ((λ '(k, v), repr_str k +:+ ": " +:+ py_repr v) <$> d) +:+ "}"
  end.

(** [str(v)] *)
Definition py_str v : string := match v with PStr s => s | _ => py_repr v end.

(** [str] of the value, or the empty string when it is absent or falsy. *)
Definition get_str (k : string) (d : pydict F) : string :=
  match dget k d with
  | Some v => if truthy v then py_str v else EmptyString
  | None => EmptyString
  end.

(** [bool(d.get(k))] *)
Definition get_bool (k : string) (d : pydict F) : bool :=
  match dget k d with Some v => truthy v | None => false end.

(** [int(v)] on a JSON value. *)
Definition py_int v : res Z :=
  match v with
  | PInt z => Ok z
  | PBool b => Ok (if b then 1 else 0)%Z
  | PFloat f =>
      if f_isfinite f then Ok (f_trunc f)
      else if feqb f f then Raise (OverflowError "cannot convert float infinity to integer")
      else Raise (ValueError "cannot convert float NaN to integer")
  | PStr s => match py_int_of_str s with
              | Some z => Ok z
              | None => Raise (ValueError ("invalid literal for int() with base 10: " +:+ repr_str s))
              end
  | _ => Raise (TypeError "int() argument must be a string, a bytes-like object or a real number")
  end.

(** [float(s)] of a string, [None] being the [ValueError]: an optional sign, then [nan], [inf],
    [infinity] or a decimal literal, with single underscores between digits. *)

(** The digit run at the head: its value continued from [acc], its length, and what follows. *)
Fixpoint digit_run (l : list ascii) (acc : Z) (n : nat) : Z * nat * list ascii :=
  match l with
  | [] => (acc, n, [])
  | c :: l' =>
      if is_digit c then digit_run l' (10 * acc + digit_val c) (S n)
      else match n, l' with
           | S _, d :: l2 =>
               if bool_decide (c = "_"%char) && is_digit d
               then digit_run l2 (10 * acc + digit_val d) (S n) else (acc, n, l)
           | _, _ => (acc, n, l)
           end
  end.

(** An exponent that ends the literal; no exponent is [e0]. *)
Definition exponent (l : list ascii) : option Z :=
  match l with
  | [] => Some 0%Z
  | c :: l' =>
      if bool_decide (lower_char c = "e"%char) then
        let '(sg, l2) := match l' with
                         | "-"%char :: l2 => ((-1)%Z, l2)
                         | "+"%char :: l2 => (1%Z, l2)
                         | _ => (1%Z, l')
                         end in
        match digit_run l2 0 0 with
        | (e, S _, []) => Some (sg * e)%Z
        | _ => None
        end
      else None
  end.

Definition unsigned_float (l : list ascii) : option F :=
  match py_lower (of_chars l) with
  | "nan" => f_special false
  | "inf" | "infinity" => f_special true
  | _ =>
      let '(m, n, rest) := digit_run l 0 0 in
      let '(m, n, k, rest) :=
        match rest with
        | "."%char :: rest' =>
            let '(m', n', rest2) := digit_run rest' m 0 in (m', n + n', n', rest2)
        | _ => (m, n, 0, rest)
        end in
      match n, exponent rest with
      | S _, Some e =>
          let x := (e - Z.of_nat k)%Z in
          Some (if (0 <=? x)%Z then f_lit (m * 10 ^ x) 1 else f_lit m (Z.to_pos (10 ^ (- x))))
      | _, _ => None
      end
  end.

Definition py_float_of_str (s : string) : option F :=
  match chars (py_strip s) with
  | "-"%char :: l => fmul (f_of_Z (-1)) <$> unsigned_float l
  | "+"%char :: l => unsigned_float l
  | l => unsigned_float l
  end.

(** [float(v)] on a JSON value. *)
Definition float_of_int (z : Z) : res F :=
  if f_isfinite (f_of_Z z) then Ok (f_of_Z z)
  else Raise (OverflowError "int too large to convert to float").
Definition py_float v : res F :=
  match v with
  | PInt z => float_of_int z
  | PBool b => Ok (f_of_Z (if b then 1 else 0))
  | PFloat f => Ok f
  | PStr s => match py_float_of_str s with
              | Some f => Ok f
              | None => Raise (ValueError ("could not convert string to float: " +:+ repr_str s))
              end
  | _ => Raise (TypeError "float() argument must be a string or a real number")
  end.
End values.

Example py_float_examples :
  map (λ s, frepr <$> py_float_of_str (F := binary64) s)
    ["1.5"; " -2 "; "1e3"; ".5"; "5."; "1_0.2_5e-1"; "inf"; "-NaN"; "1e999"; "."; "1__0"; "0x1"; "1e"; EmptyString]
  = [Some "1.5"; Some "-2.0"; Some "1000.0"; Some "0.5"; Some "5.0"; Some "1.025"; Some "inf"; Some "nan";
     Some "inf"; None; None; None; None; None].
Proof. vm_compute. reflexivity. Qed.

Example py_int_examples :
  map py_int_of_str ["12"; " -3 "; "+7"; "1_0"; "1__0"; "_1"; EmptyString; "GPU-a1"]
  = [Some 12; Some (-3); Some 7; Some 10; None; None; None; None]%Z.
Proof. vm_compute. reflexivity. Qed.

Example py_repr_example :
  py_repr (F := binary64) (PDict [("a", PList [PInt 1; PNone]); ("b", PStr "x")])
  = "{'a': [1, None], 'b': 'x'}".
Proof. vm_compute. reflexivity. Qed.
