(* ===== verification/PyTime.v ===== *)
(** * Timestamps

    [datetime.fromtimestamp(x, tz=utc).isoformat(timespec="microseconds")] on a Python float: the
    microsecond rounding CPython does, the proleptic Gregorian date, and the fixed-width layout
    whose string order the lease table relies on. *)

From stdpp Require Import base list strings pretty.
From Stdlib Require Import ZArith Lia SpecFloat.
From S2P Require Import Prelude PyFloat PyVal.
Local Open Scope Z_scope.

(** Days since 1970-01-01 to (year, month, day). *)
Definition civil_of_days (days : Z) : Z * Z * Z :=
  let z := days + 719468 in
  let era := z / 146097 in
  let doe := z mod 146097 in
  let yoe := (doe - doe / 1460 + doe / 36524 - doe / 146096) / 365 in
  let doy := doe - (365 * yoe + yoe / 4 - yoe / 100) in
  let mp := (5 * doy + 2) / 153 in
  let d := doy - (153 * mp + 2) / 5 + 1 in
  let m := if mp <? 10 then mp + 3 else mp - 9 in
  let y := yoe + era * 400 + (if m <=? 2 then 1 else 0) in
  (y, m, d).

(** Zero-padded decimal of a non-negative number, [w] digits wide. *)
Fixpoint pad_digits (w : nat) (n : Z) : list Ascii.ascii :=
  match w with
  | O => []
  | S w' => pad_digits w' (n / 10) ++ [Ascii.ascii_of_nat (48 + Z.to_nat (n mod 10))]
  end.
Definition pad (w : nat) (n : Z) : string := of_chars (pad_digits w n).

(** Whole seconds and microseconds of a finite float: [modf], then the fraction times a million
    rounded half to even. *)
Definition split_micros (x : binary64) : Z * Z :=
  let sec := f_trunc x in
  let frac := fsub x (f_of_Z sec) in
  let us := f_trunc (fround 0 (fmul frac (f_of_Z 1000000))) in
  if 1000000 <=? us then (sec + 1, us - 1000000)
  else if us <? 0 then (sec - 1, us + 1000000)
  else (sec, us).

Definition iso_of_micros (sec us : Z) : string :=
  let '(y, m, d) := civil_of_days (sec / 86400) in
  let tod := sec mod 86400 in
  pad 4 y +:+ "-" +:+ pad 2 m +:+ "-" +:+ pad 2 d +:+ "T"
    +:+ pad 2 (tod / 3600) +:+ ":" +:+ pad 2 (tod / 60 mod 60) +:+ ":" +:+ pad 2 (tod mod 60)
    +:+ "." +:+ pad 6 us +:+ "+00:00".

(** The years [datetime] has: 1 to 9999. *)
Definition min_unix : Z := -62135596800.
Definition max_unix : Z := 253402300799.

Definition _lease_iso (unix_ts : binary64) : res string :=
  if f_isfinite unix_ts then
    let '(sec, us) := split_micros unix_ts in
    if (min_unix <=? sec) && (sec <=? max_unix) then Ok (iso_of_micros sec us)
    else Raise (ValueError "year is out of range")
  else Raise (ValueError "cannot convert float NaN or infinity to integer").

Example lease_iso_examples :
  map (λ q, _lease_iso (f_lit (F := binary64) q 1000)) [0; 1760000000123; 951782400000; -1]
  = [Ok "1970-01-01T00:00:00.000000+00:00"; Ok "2025-10-09T08:53:20.123000+00:00";
     Ok "2000-02-29T00:00:00.000000+00:00"; Ok "1969-12-31T23:59:59.999000+00:00"].
Proof. vm_compute. reflexivity. Qed.
