(* ===== verification/Store.v ===== *)
(** * The session database

    The tables of [bus/storage/schema.py] as one record.  A table whose rows the code lists in
    insertion order is a list, in rowid order; a table it only reads by key is a finite map.  JSON
    columns hold the decoded value ([json.loads] inverts [json.dumps] on what is stored).  The
    UNIQUE and PRIMARY KEY constraints of the list tables are checks of the insert operations
    below, which raise [IntegrityError] as SQLite does. *)

From stdpp Require Import base list strings gmap fin_maps.
From S2P Require Import Prelude PyFloat PyVal.

Abbreviation float := binary64.
Abbreviation json := (pyval binary64).

(** ** Task states ([state/task_states.py]) *)

Inductive task_state := Queued | Running | Succeeded | Failed | Cancelled.

#[global] Instance task_state_eq_dec : EqDecision task_state.
Proof. solve_decision. Defined.

(** [TASK_STATES]: the keys of [TRANSITIONS], in order. *)
Definition TASK_STATES : list task_state := [Queued; Running; Failed; Succeeded; Cancelled].

Definition state_str (s : task_state) : string :=
  match s with
  | Queued => "queued" | Running => "running" | Succeeded => "succeeded"
  | Failed => "failed" | Cancelled => "cancelled"
  end.

Definition state_of_str (s : string) : option task_state :=
  snd <$> list_find (λ st, state_str st = s) TASK_STATES.

Definition TRANSITIONS (s : task_state) : list task_state :=
  match s with
  | Queued => [Running; Cancelled]
  | Running => [Succeeded; Failed; Cancelled]
  | Failed | Succeeded | Cancelled => []
  end.

Definition TERMINAL_STATES : list task_state := filter (λ s, TRANSITIONS s = []) TASK_STATES.

Definition terminalb (s : task_state) : bool := bool_decide (s ∈ TERMINAL_STATES).

(** ** Rows *)

(** [leases]: lane ownership, PRIMARY KEY (lane, holder_id). *)
Record lease_row := LeaseRow {
  l_lane : string;
  l_holder : string;
  l_task : string;
  l_action : string;
  l_pid : Z;
  l_scope : string;
  l_acquired_at : string;
  l_expires_at : string
}.

#[global] Instance lease_row_eq_dec : EqDecision lease_row.
Proof. solve_decision. Defined.

Definition l_key (r : lease_row) : string * string := (l_lane r, l_holder r).

(** [tasks], and the [Task] dataclass read from it. *)
Record task := Task {
  task_id : string;
  kind : string;
  t_state : task_state;
  params : list (string * json);
  idempotency_key : string;
  requires_lanes : list string;
  lease_ttl_sec : Z;
  history : list json;
  created_at : string;
  updated_at : string
}.

(** [gpu_leases], keyed by [gpu_id]. *)
Record gpu_row := GpuRow { g_holder : string; g_task : string }.

#[global] Instance gpu_row_eq_dec : EqDecision gpu_row.
Proof. solve_decision. Defined.

(** [events], and the [Message] dataclass read from it. *)
Record message := Message {
  m_seq : Z;
  msg_id : string;
  from_agent : string;
  to_agent : string;
  topic : string;
  in_reply_to : option string;
  payload : list (string * json);
  m_ts : string
}.

(** [bringup_rounds], and the [Round] dataclass read from it. *)
Inductive round_state := Open | Settled.

#[global] Instance round_state_eq_dec : EqDecision round_state.
Proof. solve_decision. Defined.

Record round := Round {
  round_id : string;
  r_state : round_state;
  outcome : string;
  holder_task_id : string;
  fence : Z;
  opened_unix : float;
  renewed_unix : float;
  expires_unix : float;
  settled_unix : option float
}.

(** [round_events]: the outbox. *)
Inductive attempt_result := Applied | Rejected | Duplicate.

#[global] Instance attempt_result_eq_dec : EqDecision attempt_result.
Proof. solve_decision. Defined.

Record round_event := RoundEvent {
  e_id : Z;
  e_round : string;
  e_request : string;
  e_op : string;
  e_result : attempt_result;
  e_outcome : string;
  e_fence : Z;
  e_actor : string;
  e_reason : string;
  e_evidence : list (string * json);
  e_recorded : float
}.

Record DB := MkDB {
  leases : list lease_row;
  lane_capacity : gmap string Z;
  events : list message;
  events_seq : Z;                     (* sqlite_sequence of events *)
  cursors : gmap string Z;
  tasks : list task;
  gpu_leases : gmap Z gpu_row;
  rounds : list round;
  round_events : list round_event;
  round_events_seq : Z;               (* sqlite_sequence of round_events *)
  schema_versions : list Z
}.

Definition with_leases f db := MkDB (f (leases db)) (lane_capacity db) (events db) (events_seq db)
  (cursors db) (tasks db) (gpu_leases db) (rounds db) (round_events db) (round_events_seq db) (schema_versions db).
Definition with_capacity f db := MkDB (leases db) (f (lane_capacity db)) (events db) (events_seq db)
  (cursors db) (tasks db) (gpu_leases db) (rounds db) (round_events db) (round_events_seq db) (schema_versions db).
Definition with_events f s db := MkDB (leases db) (lane_capacity db) (f (events db)) s
  (cursors db) (tasks db) (gpu_leases db) (rounds db) (round_events db) (round_events_seq db) (schema_versions db).
Definition with_cursors f db := MkDB (leases db) (lane_capacity db) (events db) (events_seq db)
  (f (cursors db)) (tasks db) (gpu_leases db) (rounds db) (round_events db) (round_events_seq db) (schema_versions db).
Definition with_tasks f db := MkDB (leases db) (lane_capacity db) (events db) (events_seq db)
  (cursors db) (f (tasks db)) (gpu_leases db) (rounds db) (round_events db) (round_events_seq db) (schema_versions db).
Definition with_gpus f db := MkDB (leases db) (lane_capacity db) (events db) (events_seq db)
  (cursors db) (tasks db) (f (gpu_leases db)) (rounds db) (round_events db) (round_events_seq db) (schema_versions db).
Definition with_rounds f db := MkDB (leases db) (lane_capacity db) (events db) (events_seq db)
  (cursors db) (tasks db) (gpu_leases db) (f (rounds db)) (round_events db) (round_events_seq db) (schema_versions db).
Definition with_round_events f s db := MkDB (leases db) (lane_capacity db) (events db) (events_seq db)
  (cursors db) (tasks db) (gpu_leases db) (rounds db) (f (round_events db)) s (schema_versions db).
Definition with_versions f db := MkDB (leases db) (lane_capacity db) (events db) (events_seq db)
  (cursors db) (tasks db) (gpu_leases db) (rounds db) (round_events db) (round_events_seq db) (f (schema_versions db)).

Definition empty_db : DB := MkDB [] ∅ [] 0 ∅ [] ∅ [] [] 0 [].

(** ** The process and its clock

    What an operation reads from outside the database: the wall clock, the process id, the
    ownership scope ([local_owner_scope]), which pids are alive, and a fresh uuid. *)
Record env := Env {
  now_iso : string;
  now_unix : float;
  getpid : Z;
  local_owner_scope : string;
  pid_alive : Z → bool;
  uuid4_hex : string
}.

(** ** Schema ([bus/storage/schema.py], [session/coordinator_db.py]) *)

Definition DEFAULT_LANE_CAPACITIES : list (string * Z) :=
  [("server_lifecycle", 1); ("workspace_mutation", 1); ("benchmark_lane", 1); ("profile_lane", 1);
   ("research_lane", 1); ("gpu_research_lane", 1); ("build_lane", 1)]%Z.

Definition SCHEMA_VERSION : Z := 8.

(** [MAX(version)]: NULL on an empty (or absent) table. *)
Definition max_version (vs : list Z) : option Z :=
  match vs with [] => None | v :: vs' => Some (foldl Z.max v vs') end.

Definition refuse_older_schema : Tx DB unit :=
  db ← tx_get;
  match max_version (schema_versions db) with
  | Some stored => if (stored <? SCHEMA_VERSION)%Z then tx_raise (OlderCoordinatorDB stored) else mret ()
  | None => mret ()
  end.

(** [INSERT OR IGNORE INTO lane_capacity]. *)
Definition seed_lane (cap : gmap string Z) (lc : string * Z) : gmap string Z :=
  match cap !! lc.1 with Some _ => cap | None => <[lc.1 := lc.2]> cap end.

Definition _seed_default_lane_capacity : Tx DB unit :=
  tx_modify (with_capacity (λ cap, foldl seed_lane cap DEFAULT_LANE_CAPACITIES)).

Definition ensure_schema : Io DB unit :=
  transaction (
    _ ← refuse_older_schema;
    _ ← _seed_default_lane_capacity;
    tx_modify (with_versions (λ vs, if decide (SCHEMA_VERSION ∈ vs) then vs else vs ++ [SCHEMA_VERSION]))).

Definition set_lane_capacity (lane : string) (capacity : Z) : Io DB unit :=
  transaction (tx_modify (with_capacity (<[lane := capacity]>))).

(** ** Concrete sessions, for the witnesses *)

Definition sample_env : env :=
  Env "2026-01-01T00:00:00+00:00" (b64_of_Z 1767225600) 100 "boot1:ns1:tok1"
    (λ pid, bool_decide (pid = 100%Z)) "5eed5eed5eed5eed".

Definition seeded_db : DB := (ensure_schema empty_db).2.
