(* ===== verification/Lanes.v ===== *)
(** * Lane leases ([bus/resource_lock.py], [common/owner_scope.py])

    The [leases] table: who holds which lane.  [SqliteLeaseBackend] acquires a batch of lanes
    with everything they conflict with, releases it, refreshes it and reaps the rows of holders
    that are provably dead; the diagnosis lists the rows nothing will ever free. *)

From stdpp Require Import base list strings gmap fin_maps sets sorting.
From Stdlib Require Import ZArith Lia Ascii.
From Stdlib Require String.
From S2P Require Import Prelude PyFloat PyVal PyTime Store.

(** ** Lanes *)

Definition KNOWN_LANES : list string :=
  ["server_lifecycle"; "workspace_mutation"; "benchmark_lane"; "profile_lane"; "research_lane";
   "gpu_research_lane"; "build_lane"].

Definition LANE_CONFLICTS : list (string * list string) :=
  [("benchmark_lane", ["profile_lane"; "server_lifecycle"; "gpu_research_lane"]);
   ("profile_lane", ["benchmark_lane"; "server_lifecycle"; "gpu_research_lane"]);
   ("server_lifecycle", ["benchmark_lane"; "profile_lane"; "gpu_research_lane"]);
   ("workspace_mutation", []);
   ("research_lane", []);
   ("gpu_research_lane", ["benchmark_lane"; "profile_lane"; "server_lifecycle"]);
   ("build_lane", [])].

(** [LANE_CONFLICTS.get(lane, frozenset())] *)
Definition conflicts_of (lane : string) : list string := default [] (dget lane LANE_CONFLICTS).

Definition BRINGUP_ROUND_LANE : string := "bringup_round".
Definition ROUND_LEASE_PID : Z := 0.
Definition _ROUND_LEASE_ACTION : string := "bringup_round".

(** The lanes and their conflicts, accumulated until the first unknown name. *)
Fixpoint expand_loop (lanes : list string) (out : list string) : res (list string) :=
  match lanes with
  | [] => Ok out
  | lane :: rest =>
      if decide (lane ∈ KNOWN_LANES) then expand_loop rest (out ++ lane :: conflicts_of lane)
      else Raise (ValueError ("unknown lane: " +:+ repr_str lane))
  end.

Definition _expand_lanes (lanes : list string) : res (list string) :=
  out ← expand_loop lanes []; mret (sorted_set out).

(** ** The bring-up round's lane row *)

(** [INSERT OR REPLACE]: an old row with the same key goes, the new one is the last. *)
Definition put_lease (row : lease_row) (rows : list lease_row) : list lease_row :=
  filter (λ r, l_key r ≠ l_key row) rows ++ [row].

(** [INSERT ... ON CONFLICT(lane, holder_id) DO UPDATE SET task_id, expires_at]. *)
Definition upsert_lease (row : lease_row) (rows : list lease_row) : list lease_row :=
  if decide (l_key row ∈ l_key <$> rows) then
    (λ r, if decide (l_key r = l_key row)
          then LeaseRow (l_lane r) (l_holder r) (l_task row) (l_action r) (l_pid r) (l_scope r)
                 (l_acquired_at r) (l_expires_at row)
          else r) <$> rows
  else rows ++ [row].

Definition hold_round_lane (rid holder_task : string) (expires now : float) : Tx DB unit :=
  stamp ← tx_lift (_lease_iso now);
  expires_iso ← tx_lift (_lease_iso expires);
  tx_modify (with_leases (upsert_lease
    (LeaseRow BRINGUP_ROUND_LANE rid holder_task _ROUND_LEASE_ACTION ROUND_LEASE_PID EmptyString
       stamp expires_iso))).

Definition drop_round_lane (rid : string) : Tx DB unit :=
  tx_modify (with_leases (filter (λ r, ¬ (l_lane r = BRINGUP_ROUND_LANE ∧ l_holder r = rid)))).

(** ** Liveness of a holder *)

(** [same_environment]: equal scopes, or the two-part scope earlier versions recorded. *)
Definition same_environment (recorded local : string) : bool :=
  if decide (recorded = EmptyString ∨ local = EmptyString) then false
  else bool_decide (recorded = local)
       || (bool_decide (py_count ":"%char recorded = 1) && bool_decide (py_rsplit1_head ":"%char local = recorded)).

Definition holder_is_dead (e : env) (row : lease_row) : bool :=
  if same_environment (l_scope row) (local_owner_scope e)
  then (0 <? l_pid row)%Z && negb (pid_alive e (l_pid row))
  else false.

(** ** The lease backend *)

Record lease := Lease { lease_holder : string; lease_lanes : list string }.

(** The capacity of a lane: its row, else the default, else 1. *)
Definition capacity_of (db : DB) (lane : string) : Z :=
  match lane_capacity db !! lane with
  | Some c => c
  | None => default 1%Z (dget lane DEFAULT_LANE_CAPACITIES)
  end.

(** [holders_per_lane[lane]]: the set of holders with a row on the lane. *)
Definition holders_of (db : DB) (lane : string) : list string :=
  remove_dups (l_holder <$> filter (λ r, l_lane r = lane) (leases db)).

(** A lane refuses the batch when the holder is not on it already and it is at capacity. *)
Definition lane_refuses (db : DB) (holder lane : string) : bool :=
  negb (bool_decide (holder ∈ holders_of db lane))
  && (capacity_of db lane <=? Z.of_nat (length (holders_of db lane)))%Z.

Definition acquire_many (e : env) (lanes : list string) (holder tid action : string) (ttl_sec : Z)
    : Io DB (option lease) :=
  if decide (lanes = []) then io_raise (ValueError "acquire_many called with no lanes")
  else
    expanded ← io_lift (_expand_lanes lanes);
    expires_iso ← io_lift (_lease_iso (fadd (now_unix e) (f_of_Z ttl_sec)));
    transaction (
      db ← tx_get;
      if existsb (lane_refuses db holder) expanded then mret None
      else
        _ ← tx_modify (with_leases (λ rows,
              foldl (λ rows lane,
                put_lease (LeaseRow lane holder tid action (getpid e) (local_owner_scope e)
                             (now_iso e) expires_iso) rows) rows expanded));
        mret (Some (Lease holder expanded))).

Definition heartbeat_by_task (e : env) (tid : string) (ttl_sec : Z) : Io DB (list string) :=
  expires_iso ← io_lift (_lease_iso (fadd (now_unix e) (f_of_Z ttl_sec)));
  transaction (
    db ← tx_get;
    let lanes := merge_sort str_le (l_lane <$> filter (λ r, l_task r = tid) (leases db)) in
    if decide (lanes = []) then mret []
    else
      _ ← tx_modify (with_leases (fmap (λ r,
            if decide (l_task r = tid)
            then LeaseRow (l_lane r) (l_holder r) (l_task r) (l_action r) (l_pid r) (l_scope r)
                   (l_acquired_at r) expires_iso
            else r)));
      mret lanes).

Definition release (l : lease) : Io DB unit :=
  transaction (tx_modify (with_leases
    (filter (λ r, ¬ (l_lane r ∈ lease_lanes l ∧ l_holder r = lease_holder l))))).

(** [SELECT DISTINCT task_id FROM gpu_leases] *)
Definition gpu_tasks (db : DB) : list string := (λ p, g_task p.2) <$> map_to_list (gpu_leases db).

(** A lane row the reaper takes back: its local holder process is gone, and its task holds no card. *)
Definition reapable (e : env) (db : DB) (row : lease_row) : bool :=
  negb (bool_decide (l_task row ∈ gpu_tasks db)) && holder_is_dead e row.

Definition reap_dead_holders (e : env) : Io DB (list lease_row) :=
  transaction (
    db ← tx_get;
    let reaped := filter (λ r, reapable e db r = true) (leases db) in
    _ ← tx_modify (with_leases (λ rows,
          foldl (λ rows r, filter (λ r', l_key r' ≠ l_key r) rows) rows reaped));
    mret reaped).

(** ** Diagnosis of retained rows *)

Definition CLEANUP_CONFIRMED_KEY : string := "cleanup_confirmed".
Definition CLEANUP_TREE_PGID_KEY : string := "cleanup_tree_pgid".

(** Why a retained row could not be verified. *)
Inductive unverifiable :=
| ForeignScope | CleanupUnconfirmed | ConfirmedButHeld | NoLocalScope | HoldsGpu | HolderPruned.

#[global] Instance unverifiable_eq_dec : EqDecision unverifiable.
Proof. solve_decision. Defined.

(** The [evidence] dict of one history entry, when it carries the cleanup key. *)
Definition cleanup_evidence (entry : json) : option (list (string * json)) :=
  match entry with
  | PDict d => match dget "evidence" d with
               | Some (PDict ev) => if din CLEANUP_CONFIRMED_KEY ev then Some ev else None
               | _ => None
               end
  | _ => None
  end.

Definition _last_cleanup_evidence (history : list json) : list (string * json) :=
  default [] (head (omap cleanup_evidence (reverse history))).

(** [evidence.get(CLEANUP_CONFIRMED_KEY) is True] *)
Definition cleanup_confirmed (history : list json) : bool :=
  match dget CLEANUP_CONFIRMED_KEY (_last_cleanup_evidence history) with
  | Some (PBool b) => b
  | _ => false
  end.

(** Ended tasks whose cleanup was not confirmed, and ended tasks in total. *)
Definition cleanup_confirmation_rate (db : DB) : nat * nat :=
  let ended := filter (λ t, terminalb (t_state t) = true) (tasks db) in
  (length (filter (λ t, cleanup_confirmed (history t) = false) ended), length ended).

Definition find_task (db : DB) (tid : string) : option task :=
  snd <$> list_find (λ t, task_id t = tid) (tasks db).

Record stuck_row := Stuck {
  s_lease : lease_row;
  s_pgid : option json;
  s_reason : unverifiable
}.

(** Whether one retained lane row is stuck, and why. *)
Definition unverifiable_reason (db : DB) (scope : string) (row : lease_row) : option stuck_row :=
  match find_task db (l_task row) with
  | None => Some (Stuck row None HolderPruned)
  | Some t =>
      if terminalb (t_state t) then
        let evidence := _last_cleanup_evidence (history t) in
        let pgid := dget CLEANUP_TREE_PGID_KEY evidence in
        Some (Stuck row pgid
          (if cleanup_confirmed (history t) then ConfirmedButHeld
           else if decide (l_task row ∈ gpu_tasks db) then HoldsGpu
           else if same_environment (l_scope row) scope then CleanupUnconfirmed
           else if decide (scope = EmptyString) then NoLocalScope else ForeignScope))
      else None
  end.

Definition _unverifiable_holders (db : DB) (scope : string) : list stuck_row :=
  omap (unverifiable_reason db scope) (filter (λ r, l_lane r ≠ BRINGUP_ROUND_LANE) (leases db)).

(** One warning per (lane, holder): what this call logs, and the pairs logged so far. *)
Fixpoint _report_unverifiable (diagnosed : list (string * string)) (rows : list stuck_row)
    : list stuck_row * list (string * string) :=
  match rows with
  | [] => ([], diagnosed)
  | row :: rest =>
      let key := l_key (s_lease row) in
      if decide (key ∈ diagnosed) then _report_unverifiable diagnosed rest
      else let '(logged, diagnosed') := _report_unverifiable (key :: diagnosed) rest in
           (row :: logged, diagnosed')
  end.

(** The rows held and unverifiable now, what is logged, and the log memory after it. *)
Definition diagnose_unverifiable_holders (e : env) (diagnosed : list (string * string)) (db : DB)
    : list stuck_row * (list stuck_row * list (string * string)) :=
  let stuck := _unverifiable_holders db (local_owner_scope e) in
  (stuck, _report_unverifiable diagnosed stuck).

(** ** Readers *)

(** [{lane: holder_count}]: rows grouped by lane. *)
Definition lane_holders (db : DB) : list (string * nat) :=
  (λ lane, (lane, length (filter (λ r, l_lane r = lane) (leases db))))
    <$> remove_dups (l_lane <$> leases db).

(** [{task_id: (lanes, soonest_expiry)}] *)
Definition lanes_by_task_sync (db : DB) : list (string * (list string * string)) :=
  foldl (λ acc r,
    let '(lanes, soonest) := default ([], EmptyString) (dget (l_task r) acc) in
    let expires := l_expires_at r in
    dset (l_task r)
      (lanes ++ [l_lane r],
       if decide (soonest = EmptyString ∨ String.ltb expires soonest = true) then expires else soonest) acc)
    [] (leases db).

(** [{lane: capacity}]: the defaults, overridden by the stored rows. *)
Definition lane_capacities (db : DB) : gmap string Z :=
  lane_capacity db ∪ list_to_map DEFAULT_LANE_CAPACITIES.

(** * Properties *)

(** ** Expansion *)

Lemma expand_loop_ok lanes : ∀ out r,
  expand_loop lanes out = Ok r →
  r = out ++ (lanes ≫= λ l, l :: conflicts_of l) ∧ Forall (.∈ KNOWN_LANES) lanes.
Proof.
  induction lanes as [|l lanes IH]; intros out r; simpl.
  - intros [= <-]. by rewrite app_nil_r.
  - case_decide; [|done]. intros [-> ?]%IH. rewrite <- app_assoc. auto.
Qed.

Lemma elem_of_expand lanes ex x :
  _expand_lanes lanes = Ok ex →
  x ∈ ex ↔ ∃ l, l ∈ lanes ∧ (x = l ∨ x ∈ conflicts_of l).
Proof.
  unfold _expand_lanes. destruct (expand_loop lanes []) as [out|] eqn:E; [|done].
  intros [= <-]. apply expand_loop_ok in E as [-> _].
  rewrite elem_of_sorted_set. simpl. rewrite list_elem_of_bind.
  setoid_rewrite elem_of_cons. naive_solver.
Qed.

Lemma expand_known lanes ex : _expand_lanes lanes = Ok ex → Forall (.∈ KNOWN_LANES) lanes.
Proof.
  unfold _expand_lanes. destruct (expand_loop lanes []) as [out|] eqn:E; [|done].
  intros _. by apply expand_loop_ok in E as [_ ?].
Qed.

Lemma NoDup_expand lanes ex : _expand_lanes lanes = Ok ex → NoDup ex.
Proof.
  unfold _expand_lanes. destruct (expand_loop lanes []); [|done]. intros [= <-].
  apply NoDup_sorted_set.
Qed.

(** A lane without an entry conflicts with nothing; the entries form cliques. *)
Lemma conflicts_of_cases l : l ∈ KNOWN_LANES ∨ conflicts_of l = [].
Proof.
  destruct (decide (l ∈ KNOWN_LANES)) as [|Hn]; [by left|right].
  unfold conflicts_of, LANE_CONFLICTS. simpl.
  repeat (rewrite bool_decide_eq_false_2; [|intros ->; by apply Hn, (bool_decide_unpack _)]).
  done.
Qed.

Definition clique_check : bool :=
  forallb (λ l, forallb (λ x,
    bool_decide (l ∈ conflicts_of x) && bool_decide (x ∈ KNOWN_LANES) && negb (bool_decide (x = l))
    && forallb (λ y, bool_decide (y = l) || bool_decide (y ∈ conflicts_of l)) (conflicts_of x))
    (conflicts_of l)) KNOWN_LANES.

Lemma clique_checked : clique_check = true.
Proof. vm_compute. reflexivity. Qed.

Lemma conflict_clique l x :
  x ∈ conflicts_of l →
  l ∈ conflicts_of x ∧ x ∈ KNOWN_LANES ∧ l ∈ KNOWN_LANES ∧
  ∀ y, y ∈ conflicts_of x → y = l ∨ y ∈ conflicts_of l.
Proof.
  intros Hx. destruct (conflicts_of_cases l) as [Hl|Hl]; [|rewrite Hl in Hx; by apply not_elem_of_nil in Hx].
  pose proof clique_checked as H. unfold clique_check in H.
  rewrite forallb_forall in H. specialize (H l ltac:(by apply list_elem_of_In)).
  rewrite forallb_forall in H. specialize (H x ltac:(by apply list_elem_of_In)).
  rewrite !andb_true_iff, !bool_decide_eq_true, forallb_forall in H.
  destruct H as (((H1 & H2) & _) & H3). repeat split; auto.
  intros y Hy. specialize (H3 y ltac:(by apply list_elem_of_In)).
  rewrite orb_true_iff, !bool_decide_eq_true in H3. done.
Qed.

Lemma expand_subset_known lanes ex x :
  _expand_lanes lanes = Ok ex → x ∈ ex → x ∈ KNOWN_LANES.
Proof.
  intros Hex. rewrite elem_of_expand by done. intros (l & Hl & Hx).
  pose proof (expand_known _ _ Hex) as Hk. rewrite Forall_forall in Hk.
  destruct Hx as [->|Hx]; [auto|]. by apply conflict_clique in Hx as (_ & ? & _).
Qed.

Lemma expand_conflict_closed lanes ex x y :
  _expand_lanes lanes = Ok ex → x ∈ ex → y ∈ conflicts_of x → y ∈ ex.
Proof.
  intros Hex. rewrite !(elem_of_expand _ _ _ Hex). intros (l & Hl & [->|Hx]) Hy; [eauto|].
  apply conflict_clique in Hx as (_ & _ & _ & Hc). destruct (Hc _ Hy) as [->|?]; eauto.
Qed.

(** A conflict-closed set is taken all or not at all along a conflict edge. *)
Lemma expand_all_or_none lanes ex x y :
  _expand_lanes lanes = Ok ex → y ∈ conflicts_of x → x ∈ ex ↔ y ∈ ex.
Proof.
  intros Hex Hy. split; intros H.
  - by eapply expand_conflict_closed.
  - eapply expand_conflict_closed; [done..|]. by apply conflict_clique in Hy as (? & _).
Qed.

(** ** The leases table *)

Lemma elem_of_put_lease row rows r :
  r ∈ put_lease row rows ↔ r = row ∨ (r ∈ rows ∧ l_key r ≠ l_key row).
Proof. unfold put_lease. rewrite elem_of_app, list_elem_of_filter, list_elem_of_singleton. tauto. Qed.

Lemma NoDup_key_put row rows : NoDup (l_key <$> rows) → NoDup (l_key <$> put_lease row rows).
Proof.
  intros Hnd. unfold put_lease. rewrite fmap_app. apply NoDup_app. split_and!.
  - by apply NoDup_key_filter.
  - intros k (r & -> & [? ?]%list_elem_of_filter)%list_elem_of_fmap. simpl.
    by rewrite list_elem_of_singleton.
  - apply NoDup_singleton.
Qed.

Section put_batch.
Variables (mk : string → lease_row) (holder : string).
Hypothesis mk_key : ∀ lane, l_key (mk lane) = (lane, holder).

Lemma elem_of_put_batch ex : ∀ rows r,
  NoDup ex →
  r ∈ foldl (λ rows lane, put_lease (mk lane) rows) rows ex ↔
  (∃ lane, lane ∈ ex ∧ r = mk lane) ∨ (r ∈ rows ∧ ¬ (l_lane r ∈ ex ∧ l_holder r = holder)).
Proof.
  induction ex as [|lane ex IH]; intros rows r; simpl.
  { setoid_rewrite elem_of_nil. naive_solver. }
  rewrite NoDup_cons. intros [Hn Hnd]. rewrite IH, elem_of_put_lease by done.
  assert (l_lane (mk lane) = lane ∧ l_holder (mk lane) = holder) as [Hl Hh].
  { specialize (mk_key lane). unfold l_key in mk_key. by simplify_eq. }
  unfold l_key. rewrite Hl, Hh. setoid_rewrite elem_of_cons. split.
  - intros [(x & ? & ->)|[[->|[? Hk]] Hne]]; [eauto..|].
    right. split; [done|]. intros [[?|?] ?]; [|by auto]. apply Hk. congruence.
  - intros [(x & [->|Hx] & ->)|[? Hk]]; [right; split; [by left|rewrite Hl; tauto]|eauto|].
    right. split; [right; split; [done|]|tauto]. intros [= ? ?]. tauto.
Qed.

Lemma NoDup_put_batch ex : ∀ rows,
  NoDup (l_key <$> rows) →
  NoDup (l_key <$> foldl (λ rows lane, put_lease (mk lane) rows) rows ex).
Proof. induction ex; simpl; auto using NoDup_key_put. Qed.

(** A holder with no row on the batch's lanes gets its rows at the end of the table. *)
Lemma put_batch_fresh ex : ∀ rows,
  NoDup ex →
  (∀ r, r ∈ rows → l_lane r ∈ ex → l_holder r ≠ holder) →
  foldl (λ rows lane, put_lease (mk lane) rows) rows ex = rows ++ (mk <$> ex).
Proof.
  induction ex as [|lane ex IH]; intros rows; simpl; [by rewrite app_nil_r|].
  rewrite NoDup_cons. intros [Hn Hnd] Hfresh.
  assert (put_lease (mk lane) rows = rows ++ [mk lane]) as ->.
  { unfold put_lease. f_equal. apply list_filter_all. intros r Hr Hk.
    rewrite mk_key in Hk. unfold l_key in Hk. simplify_eq. apply (Hfresh r Hr); [left|done]. }
  rewrite IH; [by rewrite <- app_assoc|done|].
  intros r [Hr|Hr%list_elem_of_singleton]%elem_of_app Hx; [apply Hfresh; [done|by right]|].
  subst r.
  specialize (mk_key lane). unfold l_key in mk_key. simplify_eq. congruence.
Qed.
End put_batch.

Lemma elem_of_holders_of db lane h :
  h ∈ holders_of db lane ↔ ∃ r, r ∈ leases db ∧ l_lane r = lane ∧ l_holder r = h.
Proof.
  unfold holders_of. rewrite elem_of_remove_dups, list_elem_of_fmap.
  setoid_rewrite list_elem_of_filter. naive_solver.
Qed.

Lemma NoDup_holders_of db lane : NoDup (holders_of db lane).
Proof. apply NoDup_remove_dups. Qed.

Lemma holders_of_length_le db db' lane :
  (∀ h, h ∈ holders_of db' lane → h ∈ holders_of db lane) →
  length (holders_of db' lane) ≤ length (holders_of db lane).
Proof.
  intros H. apply submseteq_length, NoDup_submseteq; [apply NoDup_holders_of|done].
Qed.

(** ** The invariant *)

Definition same_owner (r r' : lease_row) : Prop :=
  l_holder r' = l_holder r ∧ l_task r' = l_task r ∧ l_pid r' = l_pid r ∧ l_scope r' = l_scope r.

(** A holder on a lane is on every conflicting lane too, for the same task and process. *)
Definition bundled (rows : list lease_row) : Prop :=
  ∀ r c, r ∈ rows → c ∈ conflicts_of (l_lane r) →
    ∃ r', r' ∈ rows ∧ l_lane r' = c ∧ same_owner r r'.

Record lane_inv (db : DB) : Prop := LaneInv {
  inv_keys : NoDup (l_key <$> leases db);
  inv_capacity : ∀ lane, lane ∈ KNOWN_LANES →
    (Z.of_nat (length (holders_of db lane)) ≤ Z.max 0 (capacity_of db lane))%Z;
  inv_bundled : bundled (leases db)
}.

Create HintDb lanes.
#[export] Hint Resolve inv_keys inv_capacity inv_bundled NoDup_expand expand_subset_known : lanes.

Lemma lane_inv_ext db db' :
  leases db' = leases db → lane_capacity db' = lane_capacity db → lane_inv db → lane_inv db'.
Proof.
  intros Hl Hc [H1 H2 H3]. split; rewrite ?Hl; auto.
  intros lane Hk. unfold holders_of, capacity_of. rewrite Hl, Hc. apply (H2 lane Hk).
Qed.

(** Deleting whole bundles. *)
Lemma lane_inv_filter (P : lease_row → Prop) `{∀ r, Decision (P r)} db :
  (∀ r r', P r → l_lane r' ∈ conflicts_of (l_lane r) → same_owner r r' → P r') →
  lane_inv db → lane_inv (with_leases (filter P) db).
Proof.
  intros HP [H1 H2 H3]. split; simpl.
  - by apply NoDup_key_filter.
  - intros lane Hk. etrans; [|exact (H2 lane Hk)]. apply inj_le, holders_of_length_le.
    intros h. rewrite !elem_of_holders_of. simpl. intros (r & [? ?]%list_elem_of_filter & ?). eauto.
  - intros r c [HPr Hr]%list_elem_of_filter Hc. destruct (H3 r c Hr Hc) as (r' & ? & <- & Hs).
    exists r'. split; [|done]. apply list_elem_of_filter. split; [|done]. by apply (HP r).
Qed.

(** Rewriting rows in place; a bundled row keeps its owner. *)
Lemma lane_inv_update (f : lease_row → lease_row) db :
  (∀ r, l_key (f r) = l_key r) →
  (∀ r, conflicts_of (l_lane r) ≠ [] → same_owner r (f r)) →
  lane_inv db → lane_inv (with_leases (fmap f) db).
Proof.
  intros Hk Hs [H1 H2 H3].
  assert (∀ r, l_lane (f r) = l_lane r ∧ l_holder (f r) = l_holder r) as Hlh.
  { intros r. specialize (Hk r). unfold l_key in Hk. by simplify_eq. }
  split; simpl.
  - by rewrite key_fmap_update.
  - intros lane Hl. etrans; [|exact (H2 lane Hl)]. apply inj_le, holders_of_length_le.
    intros h. rewrite !elem_of_holders_of. simpl.
    intros (? & (r & -> & ?)%list_elem_of_fmap & ? & ?). exists r.
    by destruct (Hlh r) as [<- <-].
  - intros ? c (r & -> & Hr)%list_elem_of_fmap Hc. destruct (Hlh r) as [Hl _]. rewrite Hl in Hc.
    destruct (H3 r c Hr Hc) as (r' & ? & <- & Ho). destruct (Hlh r') as [Hl' _].
    exists (f r'). split_and!; [by apply list_elem_of_fmap_2|done|].
    assert (same_owner r (f r)) as Ho1.
    { apply Hs. intros E. rewrite E in Hc. by apply not_elem_of_nil in Hc. }
    assert (same_owner r' (f r')) as Ho2.
    { apply Hs. intros E. apply conflict_clique in Hc as (Hc & _). rewrite E in Hc.
      by apply not_elem_of_nil in Hc. }
    unfold same_owner in *. naive_solver congruence.
Qed.

Lemma round_lane_no_conflicts : conflicts_of BRINGUP_ROUND_LANE = [].
Proof. done. Qed.

Lemma round_lane_unknown : BRINGUP_ROUND_LANE ∉ KNOWN_LANES.
Proof. by apply (bool_decide_unpack _). Qed.

Lemma lane_inv_upsert_round row db :
  l_lane row = BRINGUP_ROUND_LANE → lane_inv db → lane_inv (with_leases (upsert_lease row) db).
Proof.
  intros Hrow Hinv. unfold upsert_lease.
  destruct (decide (l_key row ∈ l_key <$> leases db)) as [Hin|Hnin].
  - eapply lane_inv_ext; [| |apply (lane_inv_update (λ r, if decide (l_key r = l_key row)
        then LeaseRow (l_lane r) (l_holder r) (l_task row) (l_action r) (l_pid r) (l_scope r)
               (l_acquired_at r) (l_expires_at row) else r)); [| |exact Hinv]]; simpl.
    + by rewrite decide_True.
    + done.
    + intros r. by case_decide.
    + intros r Hc. case_decide as Hk; [|done]. exfalso. apply Hc.
      assert (l_lane r = l_lane row) as -> by (unfold l_key in Hk; congruence). by rewrite Hrow.
  - destruct Hinv as [H1 H2 H3]. split; simpl; rewrite ?decide_False by done.
    + rewrite fmap_app. apply NoDup_app. split_and!; [done| |apply NoDup_singleton].
      intros k Hk. simpl. rewrite list_elem_of_singleton. by intros ->.
    + intros lane Hl. etrans; [|exact (H2 lane Hl)]. apply inj_le, holders_of_length_le.
      intros h. rewrite !elem_of_holders_of. simpl. rewrite decide_False by done.
      intros (r & [Hr|Hr%list_elem_of_singleton]%elem_of_app & <- & <-); [eauto|].
      subst r. rewrite Hrow in Hl. by apply round_lane_unknown in Hl.
    + intros r c [Hr|Hr%list_elem_of_singleton]%elem_of_app Hc.
      * destruct (H3 r c Hr Hc) as (r' & ? & ?). exists r'. split; [|done]. apply elem_of_app. auto.
      * subst r. rewrite Hrow, round_lane_no_conflicts in Hc. by apply not_elem_of_nil in Hc.
Qed.

(** ** Acquiring a batch *)

Definition lease_for (e : env) (holder tid action expires lane : string) : lease_row :=
  LeaseRow lane holder tid action (getpid e) (local_owner_scope e) (now_iso e) expires.

Definition batch_db (e : env) (holder tid action expires : string) (ex : list string) (db : DB) : DB :=
  with_leases (λ rows, foldl (λ rows lane, put_lease (lease_for e holder tid action expires lane) rows)
                         rows ex) db.

Lemma acquire_many_unfold e lanes holder tid action ttl db ex expires :
  lanes ≠ [] →
  _expand_lanes lanes = Ok ex →
  _lease_iso (fadd (now_unix e) (f_of_Z ttl)) = Ok expires →
  acquire_many e lanes holder tid action ttl db =
    if existsb (lane_refuses db holder) ex then (Ok None, db)
    else (Ok (Some (Lease holder ex)), batch_db e holder tid action expires ex db).
Proof.
  intros Hne Hex Hexp. unfold acquire_many. rewrite decide_False by done.
  unfold mbind, io_bind, io_lift. rewrite Hex, Hexp.
  unfold transaction, tx_get, mbind, tx_bind. by destruct (existsb _ ex).
Qed.

Lemma acquire_many_result e lanes holder tid action ttl db :
  (∃ exn, acquire_many e lanes holder tid action ttl db = (Raise exn, db)) ∨
  acquire_many e lanes holder tid action ttl db = (Ok None, db) ∨
  ∃ ex expires, lanes ≠ [] ∧ _expand_lanes lanes = Ok ex ∧
    existsb (lane_refuses db holder) ex = false ∧
    acquire_many e lanes holder tid action ttl db =
      (Ok (Some (Lease holder ex)), batch_db e holder tid action expires ex db).
Proof.
  destruct (decide (lanes = [])) as [->|Hne]; [left; eexists; reflexivity|].
  destruct (_expand_lanes lanes) as [ex|exn1] eqn:Hex.
  2: { left. exists exn1. unfold acquire_many. rewrite decide_False by done.
       unfold mbind, io_bind, io_lift. by rewrite Hex. }
  destruct (_lease_iso (fadd (now_unix e) (f_of_Z ttl))) as [expires|exn2] eqn:Hexp.
  2: { left. exists exn2. unfold acquire_many. rewrite decide_False by done.
       unfold mbind, io_bind, io_lift. by rewrite Hex, Hexp. }
  right. rewrite (acquire_many_unfold _ _ _ _ _ _ _ _ _ Hne Hex Hexp).
  destruct (existsb _ ex) eqn:E; [by left|right; eauto 10].
Qed.

Lemma existsb_refuses_false db holder ex :
  existsb (lane_refuses db holder) ex = false ↔
  ∀ lane, lane ∈ ex →
    holder ∈ holders_of db lane ∨ (Z.of_nat (length (holders_of db lane)) < capacity_of db lane)%Z.
Proof.
  rewrite <- not_true_iff_false, existsb_exists. unfold lane_refuses.
  setoid_rewrite <- list_elem_of_In. setoid_rewrite andb_true_iff.
  setoid_rewrite negb_true_iff. setoid_rewrite bool_decide_eq_false. setoid_rewrite Z.leb_le. split.
  - intros Hn lane Hl. destruct (decide (holder ∈ holders_of db lane)); [by left|right].
    destruct (Z.le_gt_cases (capacity_of db lane) (Z.of_nat (length (holders_of db lane)))); [|lia].
    exfalso. eauto.
  - intros H (lane & Hl & Hh & Hc). destruct (H lane Hl); [done|lia].
Qed.

Lemma elem_of_batch_db e holder tid action expires ex db r :
  NoDup ex →
  r ∈ leases (batch_db e holder tid action expires ex db) ↔
  (∃ lane, lane ∈ ex ∧ r = lease_for e holder tid action expires lane) ∨
  (r ∈ leases db ∧ ¬ (l_lane r ∈ ex ∧ l_holder r = holder)).
Proof. intros. by apply elem_of_put_batch. Qed.

Lemma batch_holders e holder tid action expires ex db lane h :
  NoDup ex →
  h ∈ holders_of (batch_db e holder tid action expires ex db) lane →
  h ∈ holders_of db lane ∨ (h = holder ∧ lane ∈ ex).
Proof.
  intros Hnd. rewrite !elem_of_holders_of. setoid_rewrite elem_of_batch_db; [|done..].
  intros (r & [(x & ? & ->)|[? ?]] & <- & <-); simpl; eauto.
Qed.

Lemma lane_inv_batch e holder tid action expires lanes ex db :
  _expand_lanes lanes = Ok ex →
  existsb (lane_refuses db holder) ex = false →
  lane_inv db → lane_inv (batch_db e holder tid action expires ex db).
Proof.
  intros Hex Hok [H1 H2 H3]. pose proof (NoDup_expand _ _ Hex) as Hnd. split.
  - by apply NoDup_put_batch.
  - intros lane Hl. change (capacity_of (batch_db _ _ _ _ _ _ _)) with (capacity_of db).
    rewrite existsb_refuses_false in Hok.
    assert (length (holders_of (batch_db e holder tid action expires ex db) lane)
            ≤ length (holder :: holders_of db lane)) as Hle1.
    { apply submseteq_length, NoDup_submseteq; [apply NoDup_holders_of|].
      intros h [?|[-> _]]%batch_holders; [by right|left|done]. }
    destruct (decide (lane ∈ ex ∧ holder ∉ holders_of db lane)) as [[Hx Hnin]|Hin].
    + destruct (Hok lane Hx); [done|]. simpl in Hle1. lia.
    + etrans; [|exact (H2 lane Hl)]. apply inj_le, holders_of_length_le.
      intros h [?|[-> ?]]%batch_holders; [done| |done].
      destruct (decide (holder ∈ holders_of db lane)); [done|exfalso; auto].
  - intros r c Hr Hc. rewrite elem_of_batch_db in Hr by done.
    destruct Hr as [(x & Hx & ->)|[Hr Hnot]].
    + exists (lease_for e holder tid action expires c). split; [|done].
      rewrite elem_of_batch_db by done. left. exists c. split; [|done].
      by eapply expand_conflict_closed.
    + destruct (H3 r c Hr Hc) as (r' & Hr' & <- & Ho). exists r'. split; [|done].
      rewrite elem_of_batch_db by done. right. split; [done|]. intros [Hin Hh]. apply Hnot.
      destruct Ho as [Ho _]. rewrite <- Ho. split; [|done].
      by rewrite (expand_all_or_none _ _ _ _ Hex Hc).
Qed.

(** ** Reachable lease tables *)

(** One operation of any process on the leases table, or one that leaves it alone. *)
Inductive lane_step (db : DB) : DB → Prop :=
| step_acquire e lanes holder tid action ttl :
    lane_step db (acquire_many e lanes holder tid action ttl db).2
| step_release holder lanes ex :
    _expand_lanes lanes = Ok ex → lane_step db (release (Lease holder ex) db).2
| step_heartbeat e tid ttl : lane_step db (heartbeat_by_task e tid ttl db).2
| step_reap e : lane_step db (reap_dead_holders e db).2
| step_hold_round rid holder expires now :
    lane_step db (transaction (hold_round_lane rid holder expires now) db).2
| step_drop_round rid : lane_step db (transaction (drop_round_lane rid) db).2
| step_other db' :
    leases db' = leases db → lane_capacity db' = lane_capacity db → lane_step db db'.

Lemma heartbeat_inv e tid ttl db : lane_inv db → lane_inv (heartbeat_by_task e tid ttl db).2.
Proof.
  intros Hinv. unfold heartbeat_by_task, mbind, io_bind, io_lift.
  destruct (_lease_iso _); simpl; [|done].
  unfold transaction, tx_get, mbind, tx_bind. case_decide; simpl; [done|].
  apply (lane_inv_update (λ r, if decide (l_task r = tid) then _ else r)); [| |done].
  all: intros r; by case_decide.
Qed.

(** Reaping deletes exactly the reapable rows. *)
Lemma foldl_delete_keys (dead rows : list lease_row) :
  foldl (λ rows r, filter (λ r', l_key r' ≠ l_key r) rows) rows dead
  = filter (λ r', l_key r' ∉ l_key <$> dead) rows.
Proof.
  revert rows. induction dead as [|d dead IH]; intros rows; simpl.
  { symmetry. apply list_filter_all. intros ? _. apply not_elem_of_nil. }
  rewrite IH, list_filter_filter. apply list_filter_iff. intros r. rewrite not_elem_of_cons. tauto.
Qed.

Lemma reap_dead_holders_eq e db :
  NoDup (l_key <$> leases db) →
  reap_dead_holders e db =
    (Ok (filter (λ r, reapable e db r = true) (leases db)),
     with_leases (filter (λ r, reapable e db r ≠ true)) db).
Proof.
  intros Hnd. unfold reap_dead_holders, transaction, mbind, tx_bind, tx_get; simpl.
  f_equal. unfold with_leases. f_equal. rewrite foldl_delete_keys.
  apply list_filter_ext_in. intros r Hr. rewrite list_elem_of_fmap. split.
  - intros Hn Hreap. apply Hn. exists r. split; [done|]. by apply list_elem_of_filter.
  - intros Hn (d & Hk & [Hd Hin]%list_elem_of_filter). apply Hn.
    by rewrite (NoDup_key_inj l_key _ _ _ Hnd Hr Hin Hk).
Qed.

Lemma reapable_same_owner e db r r' : same_owner r r' → reapable e db r' = reapable e db r.
Proof. intros (_ & Ht & Hp & Hs). unfold reapable, holder_is_dead. by rewrite Ht, Hp, Hs. Qed.

Lemma lane_step_inv db db' : lane_step db db' → lane_inv db → lane_inv db'.
Proof.
  intros Hstep Hinv. destruct Hstep as [e lanes h t a ttl|h lanes ex Hex| |e|rid h x n|rid|].
  - destruct (acquire_many_result e lanes h t a ttl db)
      as [(? & ->)|[->|(ex & exp & _ & Hex & Hok & ->)]]; [done..|].
    by eapply lane_inv_batch.
  - apply (lane_inv_filter (λ r, ¬ (l_lane r ∈ ex ∧ l_holder r = h))); [|done].
    intros r r' Hn Hc (Hh & _) [Hin ?]. apply Hn. rewrite <- Hh. split; [|done].
    by rewrite (expand_all_or_none _ _ _ _ Hex Hc).
  - by apply heartbeat_inv.
  - rewrite reap_dead_holders_eq by auto with lanes. simpl. apply lane_inv_filter; [|done].
    intros r r' Hn _ Ho. by rewrite (reapable_same_owner _ _ _ _ Ho).
  - unfold transaction, hold_round_lane, mbind, tx_bind, tx_lift.
    destruct (_lease_iso n); [|done]. destruct (_lease_iso x); [|done]. by apply lane_inv_upsert_round.
  - apply (lane_inv_filter (λ r, ¬ (l_lane r = BRINGUP_ROUND_LANE ∧ l_holder r = rid))); [|done].
    intros r r' _ Hc _ [Hl _]. rewrite Hl in Hc. apply conflict_clique in Hc as (_ & Hk & _).
    by apply round_lane_unknown in Hk.
  - by eapply lane_inv_ext.
Qed.

Lemma lane_inv_reachable db0 db : lane_inv db0 → rtc lane_step db0 db → lane_inv db.
Proof. intros H0 Hs. induction Hs; eauto using lane_step_inv. Qed.

Lemma lane_inv_init db : leases db = [] → lane_inv db.
Proof.
  intros E. split; rewrite ?E; [constructor| |].
  - intros lane _. unfold holders_of. rewrite E. simpl. lia.
  - intros r c Hr. by apply not_elem_of_nil in Hr.
Qed.

(** ** The contract: an exclusive lock per conflict class

    What the lease backend promises its clients.  Conflicting lanes form one class; the abstract
    state is the set of (class, holder) grants, and a request names classes. *)

Definition class_of (lane : string) : string := hd lane (sorted_set (lane :: conflicts_of lane)).

Definition grants : Type := gset (string * string).

Definition class_holders (g : grants) (c : string) : grants := filter (λ p, p.1 = c) g.

Definition spec_acquire (cap : string → Z) (holder : string) (cs : list string) (g : grants)
    : option grants :=
  if forallb (λ c, bool_decide ((c, holder) ∈ g) || (Z.of_nat (size (class_holders g c)) <? cap c)%Z) cs
  then Some (g ∪ list_to_set ((λ c, (c, holder)) <$> cs))
  else None.

Definition spec_release (holder : string) (cs : list string) (g : grants) : grants :=
  g ∖ list_to_set ((λ c, (c, holder)) <$> cs).

(** The grants a leases table stands for. *)
Definition abs_grants (db : DB) : grants :=
  list_to_set ((λ r, (class_of (l_lane r), l_holder r))
                 <$> filter (λ r, l_lane r ∈ KNOWN_LANES) (leases db)).

Definition class_check : bool :=
  forallb (λ l, forallb (λ x,
    Bool.eqb (bool_decide (class_of x = class_of l))
             (bool_decide (x = l) || bool_decide (x ∈ conflicts_of l))) KNOWN_LANES) KNOWN_LANES.

Lemma class_checked : class_check = true.
Proof. vm_compute. reflexivity. Qed.

Lemma class_of_eq l x :
  l ∈ KNOWN_LANES → x ∈ KNOWN_LANES → class_of x = class_of l ↔ x = l ∨ x ∈ conflicts_of l.
Proof.
  intros Hl Hx. pose proof class_checked as H. unfold class_check in H.
  rewrite forallb_forall in H. specialize (H l ltac:(by apply list_elem_of_In)).
  rewrite forallb_forall in H. specialize (H x ltac:(by apply list_elem_of_In)).
  apply eqb_prop in H. rewrite <- (bool_decide_eq_true (class_of x = class_of l)), H.
  by rewrite orb_true_iff, !bool_decide_eq_true.
Qed.

Lemma elem_of_abs_grants db lane h :
  lane_inv db → lane ∈ KNOWN_LANES →
  (class_of lane, h) ∈ abs_grants db ↔ h ∈ holders_of db lane.
Proof.
  intros Hinv Hl. unfold abs_grants. rewrite elem_of_list_to_set, list_elem_of_fmap.
  setoid_rewrite list_elem_of_filter. rewrite elem_of_holders_of. split.
  - intros (r & [= Hc ->] & Hk & Hr). symmetry in Hc.
    apply (class_of_eq lane (l_lane r) Hl Hk) in Hc as [Hc|Hc].
    + eauto.
    + apply conflict_clique in Hc as (Hc & _).
      destruct (inv_bundled _ Hinv r lane Hr Hc) as (r' & ? & ? & ? & _). eauto.
  - intros (r & Hr & <- & <-). eauto.
Qed.

Lemma class_holders_size db lane :
  lane_inv db → lane ∈ KNOWN_LANES →
  size (class_holders (abs_grants db) (class_of lane)) = length (holders_of db lane).
Proof.
  intros Hinv Hl.
  assert (class_holders (abs_grants db) (class_of lane)
          = list_to_set ((λ h, (class_of lane, h)) <$> holders_of db lane)) as ->.
  { apply set_eq. intros [c h]. unfold class_holders.
    rewrite elem_of_filter, elem_of_list_to_set, list_elem_of_fmap. simpl. split.
    - intros [-> Hin]. rewrite elem_of_abs_grants in Hin by done. eauto.
    - intros (h' & [= -> ->] & Hin). by rewrite elem_of_abs_grants. }
  rewrite size_list_to_set, length_fmap; [done|].
  apply (NoDup_fmap_2 _), NoDup_holders_of.
Qed.

Lemma class_of_expand lanes ex x :
  _expand_lanes lanes = Ok ex → x ∈ KNOWN_LANES → x ∈ ex ↔ class_of x ∈ class_of <$> lanes.
Proof.
  intros Hex Hx. pose proof (expand_known _ _ Hex) as Hk. rewrite Forall_forall in Hk.
  rewrite (elem_of_expand _ _ _ Hex), list_elem_of_fmap. split.
  - intros (l & Hl & Hc). exists l. split; [|done]. by apply class_of_eq; auto.
  - intros (l & Hc & Hl). exists l. split; [done|]. by apply class_of_eq; auto.
Qed.

Lemma abs_grants_batch e holder tid action expires lanes ex db :
  _expand_lanes lanes = Ok ex →
  abs_grants (batch_db e holder tid action expires ex db)
  = abs_grants db ∪ list_to_set ((λ c, (c, holder)) <$> (class_of <$> lanes)).
Proof.
  intros Hex. pose proof (NoDup_expand _ _ Hex) as Hnd. apply set_eq. intros [c h].
  unfold abs_grants. rewrite elem_of_union, !elem_of_list_to_set, !list_elem_of_fmap.
  setoid_rewrite list_elem_of_fmap. setoid_rewrite list_elem_of_filter.
  setoid_rewrite elem_of_batch_db; [|done..]. split.
  - intros (r & [= -> ->] & Hk & [(x & Hx & ->)|[Hr _]]); [right|left; eauto].
    apply (class_of_expand _ _ _ Hex Hk), list_elem_of_fmap in Hx as (l & -> & Hl). simpl. eauto.
  - intros [(r & [= -> ->] & Hk & Hr)|(? & [= -> ->] & l & -> & Hl)].
    + destruct (decide (l_lane r ∈ ex ∧ l_holder r = holder)) as [[Hx <-]|?].
      * exists (lease_for e (l_holder r) tid action expires (l_lane r)). simpl. eauto 10.
      * eauto 10.
    + exists (lease_for e holder tid action expires l). simpl.
      pose proof (expand_known _ _ Hex) as Hk. rewrite Forall_forall in Hk.
      split_and!; [done|auto|]. left. exists l. split; [|done].
      apply (elem_of_expand _ _ _ Hex). eauto.
Qed.

(** Capacities that do not differ inside a conflict class, as the seeded ones are. *)
Definition uniform_capacity (db : DB) : Prop :=
  ∀ l x, x ∈ conflicts_of l → capacity_of db x = capacity_of db l.

Lemma class_rep l : l ∈ KNOWN_LANES → class_of l ∈ KNOWN_LANES ∧ class_of (class_of l) = class_of l.
Proof.
  intros Hl. assert (Forall (λ l, class_of l ∈ KNOWN_LANES ∧ class_of (class_of l) = class_of l)
                       KNOWN_LANES) as H by (apply (bool_decide_unpack _); vm_compute; exact I).
  rewrite Forall_forall in H. auto.
Qed.

Lemma capacity_of_class db l :
  uniform_capacity db → l ∈ KNOWN_LANES → capacity_of db (class_of l) = capacity_of db l.
Proof.
  intros Hu Hl. destruct (class_rep l Hl) as [Hk Hc].
  apply (class_of_eq l (class_of l) Hl Hk) in Hc as [->|Hc]; [done|]. by apply Hu.
Qed.

Lemma spec_acquire_agrees db holder lanes ex :
  lane_inv db → uniform_capacity db → _expand_lanes lanes = Ok ex →
  forallb (λ c, bool_decide ((c, holder) ∈ abs_grants db)
                || (Z.of_nat (size (class_holders (abs_grants db) c)) <? capacity_of db c)%Z)
          (class_of <$> lanes)
  = negb (existsb (lane_refuses db holder) ex).
Proof.
  intros Hinv Hu Hex. apply eq_true_iff_eq.
  rewrite negb_true_iff, existsb_refuses_false, forallb_forall.
  setoid_rewrite <- list_elem_of_In. setoid_rewrite orb_true_iff.
  setoid_rewrite bool_decide_eq_true. setoid_rewrite Z.ltb_lt.
  pose proof (expand_known _ _ Hex) as Hk. rewrite Forall_forall in Hk. split.
  - intros H x Hx. pose proof (expand_subset_known _ _ _ Hex Hx) as Hxk.
    specialize (H (class_of x)). rewrite <- (class_of_expand _ _ _ Hex Hxk) in H.
    rewrite elem_of_abs_grants, class_holders_size, capacity_of_class in H; auto.
  - intros H c (l & -> & Hl)%list_elem_of_fmap.
    rewrite elem_of_abs_grants, class_holders_size, capacity_of_class; auto.
    apply H, (elem_of_expand _ _ _ Hex). eauto.
Qed.

(** * Claims *)

(** C2: Refinement.  On a table that satisfies the invariant, [acquire_many] behaves as an
    exclusive lock over conflict classes: it grants the batch exactly when the abstract lock
    grants the requested classes, the granted table stands for the abstract lock's new state, and
    a refusal leaves the database as it was. *)
Theorem acquire_many_refines_lock e lanes holder tid action ttl db ex expires :
  lane_inv db → uniform_capacity db → lanes ≠ [] →
  _expand_lanes lanes = Ok ex →
  _lease_iso (fadd (now_unix e) (f_of_Z ttl)) = Ok expires →
  match acquire_many e lanes holder tid action ttl db with
  | (Ok (Some l), db') =>
      l = Lease holder ex ∧
      spec_acquire (capacity_of db) holder (class_of <$> lanes) (abs_grants db) = Some (abs_grants db')
  | (Ok None, db') =>
      db' = db ∧ spec_acquire (capacity_of db) holder (class_of <$> lanes) (abs_grants db) = None
  | (Raise _, _) => False
  end.
Proof.
  intros Hinv Hu Hne Hex Hexp. rewrite (acquire_many_unfold _ _ _ _ _ _ _ _ _ Hne Hex Hexp).
  unfold spec_acquire. rewrite (spec_acquire_agrees db holder lanes ex) by done.
  destruct (existsb _ ex); simpl; [done|]. split; [done|]. by rewrite (abs_grants_batch _ _ _ _ _ _ _ _ Hex).
Qed.

(** Refinement.  Releasing an acquired lease drops exactly the holder's grants on the classes
    it had requested. *)
Theorem release_refines_lock holder lanes ex db :
  lane_inv db → _expand_lanes lanes = Ok ex →
  abs_grants (release (Lease holder ex) db).2
  = spec_release holder (class_of <$> lanes) (abs_grants db).
Proof.
  intros Hinv Hex. apply set_eq. intros [c h]. unfold spec_release, abs_grants. simpl.
  rewrite elem_of_difference, !elem_of_list_to_set, !list_elem_of_fmap.
  setoid_rewrite list_elem_of_filter. setoid_rewrite list_elem_of_filter. split.
  - intros (r & [= -> ->] & Hk & Hn & Hr). split; [eauto|].
    intros (? & [= <- <-] & Hc). apply Hn. split; [|done]. by apply (class_of_expand _ _ _ Hex Hk).
  - intros [(r & [= -> ->] & Hk & Hr) Hn]. exists r. split_and!; auto. intros [Hx <-].
    apply Hn. eexists. split; [done|]. by apply (class_of_expand _ _ _ Hex Hk).
Qed.

(** C3: Safety.  Whatever sequence of acquires, releases, heartbeats, reaps and round holds ran
    on an initially empty table, and however they interleaved, two rows on conflicting lanes (or
    on the same lane) of capacity one belong to one holder. *)
Theorem lane_mutual_exclusion db0 db r1 r2 :
  leases db0 = [] → rtc lane_step db0 db →
  r1 ∈ leases db → r2 ∈ leases db →
  l_lane r1 ∈ KNOWN_LANES → capacity_of db (l_lane r1) = 1%Z →
  l_lane r2 = l_lane r1 ∨ l_lane r2 ∈ conflicts_of (l_lane r1) →
  l_holder r1 = l_holder r2.
Proof.
  intros H0 Hs Hr1 Hr2 Hk Hcap Hc.
  assert (lane_inv db) as Hinv by eauto using lane_inv_reachable, lane_inv_init.
  assert (l_holder r2 ∈ holders_of db (l_lane r1)) as H2.
  { rewrite elem_of_holders_of. destruct Hc as [?|Hc]; [eauto|].
    apply conflict_clique in Hc as (Hc & _).
    destruct (inv_bundled _ Hinv r2 _ Hr2 Hc) as (r' & ? & ? & ? & _). eauto. }
  assert (l_holder r1 ∈ holders_of db (l_lane r1)) as H1 by (rewrite elem_of_holders_of; eauto).
  pose proof (inv_capacity _ Hinv _ Hk) as Hlen. rewrite Hcap in Hlen.
  destruct (holders_of db (l_lane r1)) as [|h [|h' t]]; simpl in Hlen; [|set_solver|lia].
  by apply not_elem_of_nil in H1.
Qed.

(** Functional.  On every branch: an empty request or an unknown lane raises and writes
    nothing; a batch with a lane at capacity under other holders is refused and writes nothing;
    otherwise the holder gets one row on every requested and conflicting lane, its own older rows
    there are replaced, and every other row stays. *)
Theorem acquire_many_spec e lanes holder tid action ttl db expires :
  _lease_iso (fadd (now_unix e) (f_of_Z ttl)) = Ok expires →
  match _expand_lanes lanes with
  | Raise exn => (acquire_many e lanes holder tid action ttl db) =
      (Raise (if decide (lanes = []) then ValueError "acquire_many called with no lanes" else exn), db)
  | Ok ex =>
      if decide (lanes = []) then
        acquire_many e lanes holder tid action ttl db
        = (Raise (ValueError "acquire_many called with no lanes"), db)
      else
        (acquire_many e lanes holder tid action ttl db = (Ok None, db) ∧
         ∃ lane, lane ∈ ex ∧ holder ∉ holders_of db lane ∧
           (capacity_of db lane ≤ Z.of_nat (length (holders_of db lane)))%Z) ∨
        (∃ db', acquire_many e lanes holder tid action ttl db = (Ok (Some (Lease holder ex)), db') ∧
           (∀ lane, lane ∈ ex → holder ∈ holders_of db lane ∨
              (Z.of_nat (length (holders_of db lane)) < capacity_of db lane)%Z) ∧
           (∀ r, r ∈ leases db' ↔
              (∃ lane, lane ∈ ex ∧ r = lease_for e holder tid action expires lane) ∨
              (r ∈ leases db ∧ ¬ (l_lane r ∈ ex ∧ l_holder r = holder))) ∧
           ∃ rows, db' = with_leases (λ _, rows) db)
  end.
Proof.
  intros Hexp. destruct (_expand_lanes lanes) as [ex|exn] eqn:Hex.
  - case_decide as Hne; [by subst|].
    rewrite (acquire_many_unfold _ _ _ _ _ _ _ _ _ Hne Hex Hexp).
    destruct (existsb (lane_refuses db holder) ex) eqn:E; [left|right].
    + split; [done|]. apply existsb_exists in E as (lane & Hl%list_elem_of_In & Hr).
      unfold lane_refuses in Hr. rewrite andb_true_iff, negb_true_iff, bool_decide_eq_false, Z.leb_le in Hr.
      naive_solver.
    + eexists. split; [done|]. rewrite existsb_refuses_false in E. split_and!; [done| |by eexists].
      intros r. apply elem_of_batch_db. by eapply NoDup_expand.
  - unfold acquire_many. case_decide; [by subst|]. unfold mbind, io_bind, io_lift. by rewrite Hex.
Qed.

(** Round trip.  A holder that acquires a batch it held no part of and releases the lease it
    got back leaves the leases table exactly as it found it. *)
Theorem acquire_release_roundtrip e lanes holder tid action ttl db l db' :
  acquire_many e lanes holder tid action ttl db = (Ok (Some l), db') →
  (∀ r, r ∈ leases db → l_holder r ≠ holder) →
  release l db' = (Ok (), db).
Proof.
  intros Hacq Hfresh.
  destruct (acquire_many_result e lanes holder tid action ttl db)
    as [(? & Hr)|[Hr|(ex & exp & _ & Hex & _ & Hr)]]; rewrite Hr in Hacq; simplify_eq.
  pose proof (NoDup_expand _ _ Hex) as Hnd. unfold release, transaction, tx_modify, batch_db, with_leases.
  rewrite (put_batch_fresh (lease_for e holder tid action exp) holder); [|done|done|by auto].
  simpl.
  rewrite filter_app, (list_filter_all _ (leases db)), list_filter_none, app_nil_r.
  - by destruct db.
  - intros r (lane & -> & ?)%list_elem_of_fmap. simpl. auto.
  - intros r Hr' [_ ?]. by apply (Hfresh r).
Qed.

(** Functional.  The reaper deletes and reports exactly the rows whose recorded process is
    absent from this host's scope and whose task holds no card; it never touches a bring-up round's
    row, which records no pid; and a second pass finds nothing. *)
Theorem reap_dead_holders_spec e db reaped db' :
  NoDup (l_key <$> leases db) →
  reap_dead_holders e db = (Ok reaped, db') →
  (∀ r, r ∈ reaped ↔ r ∈ leases db ∧ l_task r ∉ gpu_tasks db ∧
      same_environment (l_scope r) (local_owner_scope e) = true ∧
      (0 < l_pid r)%Z ∧ pid_alive e (l_pid r) = false) ∧
  (∀ r, r ∈ leases db' ↔ r ∈ leases db ∧ r ∉ reaped) ∧
  (∀ r, r ∈ leases db → l_pid r = ROUND_LEASE_PID → r ∈ leases db') ∧
  reap_dead_holders e db' = (Ok [], db').
Proof.
  intros Hnd. rewrite reap_dead_holders_eq by done. intros [= <- <-].
  assert (∀ r, reapable e db r = true ↔ l_task r ∉ gpu_tasks db ∧
      same_environment (l_scope r) (local_owner_scope e) = true ∧
      (0 < l_pid r)%Z ∧ pid_alive e (l_pid r) = false) as Hre.
  { intros r. unfold reapable, holder_is_dead.
    rewrite andb_true_iff, negb_true_iff, bool_decide_eq_false.
    destruct (same_environment _ _); [|naive_solver].
    rewrite andb_true_iff, Z.ltb_lt, negb_true_iff. tauto. }
  split_and!.
  - intros r. rewrite list_elem_of_filter, Hre. tauto.
  - intros r. simpl. rewrite !list_elem_of_filter. tauto.
  - intros r Hr Hp. simpl. apply list_elem_of_filter. split; [|done].
    rewrite Hre, Hp. unfold ROUND_LEASE_PID. lia.
  - rewrite reap_dead_holders_eq by (simpl; by apply NoDup_key_filter). f_equal.
    + f_equal. apply list_filter_none. simpl. intros r [Hr _]%list_elem_of_filter. exact Hr.
    + unfold with_leases; simpl. f_equal. apply list_filter_all.
      intros r [Hr _]%list_elem_of_filter. exact Hr.
Qed.

(** Equivalence.  One pass over the conflict table computes the transitive closure: the
    expansion is the least conflict-closed set of lanes that contains the request, without
    duplicates, and it exists exactly when every requested lane is known. *)
Theorem expand_lanes_closure lanes :
  match _expand_lanes lanes with
  | Ok ex =>
      Forall (.∈ KNOWN_LANES) lanes ∧ NoDup ex ∧ lanes ⊆ ex ∧
      (∀ x y, x ∈ ex → y ∈ conflicts_of x → y ∈ ex) ∧
      ∀ s : list string, lanes ⊆ s → (∀ x y, x ∈ s → y ∈ conflicts_of x → y ∈ s) → ex ⊆ s
  | Raise _ => ¬ Forall (.∈ KNOWN_LANES) lanes
  end.
Proof.
  destruct (_expand_lanes lanes) as [ex|exn] eqn:Hex.
  - split_and!; eauto using expand_known, NoDup_expand, expand_conflict_closed.
    + intros x Hx. apply (elem_of_expand _ _ _ Hex). eauto.
    + intros s Hs Hc x (l & Hl & [->|Hx])%(elem_of_expand _ _ _ Hex); eauto.
  - intros Hk. unfold _expand_lanes in Hex.
    assert (∀ out, ∃ r, expand_loop lanes out = Ok r) as Hall.
    { clear Hex. induction Hk as [|l lanes Hl _ IH]; intros out; simpl; [eauto|].
      by rewrite decide_True. }
    destruct (Hall []) as [r Hr]. by rewrite Hr in Hex.
Qed.

(** Functional.  The diagnosis is complete and tells the operator nothing else: it reports a
    lane row exactly when the row is no round's and its task is gone or has ended; whatever the
    row's scope or cards, it is in the report. *)
Theorem unverifiable_holders_complete db scope row :
  row ∈ s_lease <$> _unverifiable_holders db scope ↔
  row ∈ leases db ∧ l_lane row ≠ BRINGUP_ROUND_LANE ∧
  match find_task db (l_task row) with
  | None => True
  | Some t => t_state t ∈ TERMINAL_STATES
  end.
Proof.
  unfold _unverifiable_holders. rewrite list_elem_of_fmap.
  setoid_rewrite list_elem_of_omap. setoid_rewrite list_elem_of_filter.
  assert (∀ r st, unverifiable_reason db scope r = Some st → s_lease st = r) as Hs.
  { intros r st. unfold unverifiable_reason. by repeat case_match; intros; simplify_eq. }
  split.
  - intros (st & -> & r & [Hl Hr] & Hu). rewrite (Hs _ _ Hu). split_and!; [done..|].
    unfold unverifiable_reason in Hu. destruct (find_task db (l_task r)) as [t|]; [|done].
    destruct (terminalb (t_state t)) eqn:E; [|done]. by apply bool_decide_eq_true in E.
  - intros (Hr & Hl & Ht). destruct (unverifiable_reason db scope row) as [st|] eqn:Hu.
    + exists st. rewrite (Hs _ _ Hu). eauto.
    + exfalso. unfold unverifiable_reason in Hu. destruct (find_task db (l_task row)) as [t|]; [|done].
      unfold terminalb in Hu. by rewrite bool_decide_eq_true_2 in Hu.
Qed.

Lemma report_diagnosed_mono diagnosed rows :
  ∀ k, k ∈ diagnosed → k ∈ (_report_unverifiable diagnosed rows).2.
Proof.
  revert diagnosed. induction rows as [|row rows IH]; intros dg k Hk; simpl; [done|].
  case_decide; [auto|]. specialize (IH (l_key (s_lease row) :: dg) k).
  destruct (_report_unverifiable _ rows) as [a b]. apply IH. by right.
Qed.

Lemma report_covers diagnosed rows row :
  row ∈ rows → l_key (s_lease row) ∈ (_report_unverifiable diagnosed rows).2.
Proof.
  revert diagnosed. induction rows as [|r rows IH]; intros dg Hr; [by apply not_elem_of_nil in Hr|].
  simpl. apply elem_of_cons in Hr as [->|Hr]; case_decide as Hd.
  - by apply report_diagnosed_mono.
  - pose proof (report_diagnosed_mono (l_key (s_lease r) :: dg) rows (l_key (s_lease r)) ltac:(left)).
    by destruct (_report_unverifiable _ rows).
  - by apply IH.
  - specialize (IH (l_key (s_lease r) :: dg) Hr). by destruct (_report_unverifiable _ rows).
Qed.

Lemma report_silent diagnosed rows :
  (∀ row, row ∈ rows → l_key (s_lease row) ∈ diagnosed) →
  _report_unverifiable diagnosed rows = ([], diagnosed).
Proof.
  induction rows as [|r rows IH]; intros H; simpl; [done|].
  rewrite decide_True by (apply H; left). apply IH. intros row Hrow. apply H. by right.
Qed.

(** Functional.  Repeating the sweep over rows already reported logs nothing: one warning per
    (lane, holder) for as long as the process lives. *)
Theorem report_unverifiable_once diagnosed rows :
  let '(_, diagnosed') := _report_unverifiable diagnosed rows in
  ∀ rows', (∀ row, row ∈ rows' → ∃ row0, row0 ∈ rows ∧ l_key (s_lease row0) = l_key (s_lease row)) →
    _report_unverifiable diagnosed' rows' = ([], diagnosed').
Proof.
  destruct (_report_unverifiable diagnosed rows) as [logged dg'] eqn:E. intros rows' Hsub.
  apply report_silent. intros row (row0 & Hin & <-)%Hsub.
  pose proof (report_covers diagnosed rows row0 Hin) as H. by rewrite E in H.
Qed.

(** * Witnesses *)

Definition sample_lanes : list string :=
  ["benchmark_lane"; "gpu_research_lane"; "profile_lane"; "server_lifecycle"].

Definition held_db : DB := (acquire_many sample_env ["benchmark_lane"] "h1" "t1" "bench" 600 seeded_db).2.

(** Another process on the same host, for which the holder's pid is gone. *)
Definition later_env : env :=
  Env "2026-01-01T01:00:00+00:00" (b64_of_Z 1767229200) 200 "boot1:ns1:tok1"
    (λ pid, bool_decide (pid = 200%Z)) "5eed5eed5eed5eee".

Lemma seeded_inv : lane_inv seeded_db.
Proof. apply lane_inv_init. reflexivity. Qed.

Lemma seeded_uniform : uniform_capacity seeded_db.
Proof.
  intros l x Hx. apply conflict_clique in Hx as (_ & Hx & Hl & _).
  assert (Forall (λ l, capacity_of seeded_db l = 1%Z) KNOWN_LANES) as H
    by (apply (bool_decide_unpack _); vm_compute; exact I).
  rewrite Forall_forall in H. by rewrite (H _ Hx), (H _ Hl).
Qed.

Lemma held_reachable : rtc lane_step seeded_db held_db.
Proof. apply rtc_once. unfold held_db. constructor. Qed.

Lemma acquire_many_refines_lock_witness :
  spec_acquire (capacity_of seeded_db) "h1" (class_of <$> ["benchmark_lane"]) (abs_grants seeded_db)
  = Some (abs_grants held_db).
Proof.
  pose proof (acquire_many_refines_lock sample_env ["benchmark_lane"] "h1" "t1" "bench" 600 seeded_db
    sample_lanes "2026-01-01T00:10:00.000000+00:00" seeded_inv seeded_uniform ltac:(done)
    ltac:(vm_compute; reflexivity) ltac:(vm_compute; reflexivity)) as H.
  unfold held_db. destruct (acquire_many _ _ _ _ _ _ _) as [[[l|]|ex] db'] eqn:E.
  - exact (proj2 H).
  - vm_compute in E. discriminate.
  - destruct H.
Defined.

Lemma release_refines_lock_witness :
  abs_grants (release (Lease "h1" sample_lanes) held_db).2
  = spec_release "h1" (class_of <$> ["benchmark_lane"]) (abs_grants held_db).
Proof.
  apply release_refines_lock.
  - exact (lane_inv_reachable _ _ seeded_inv held_reachable).
  - vm_compute. reflexivity.
Defined.

(** The row of one lane of the batch [held_db] grants. *)
Definition held_row (lane : string) : lease_row :=
  LeaseRow lane "h1" "t1" "bench" 100 "boot1:ns1:tok1" "2026-01-01T00:00:00+00:00" "2026-01-01T00:10:00.000000+00:00".

Lemma lane_mutual_exclusion_witness :
  held_row "gpu_research_lane" ∈ leases held_db ∧
  l_holder (held_row "benchmark_lane") = l_holder (held_row "gpu_research_lane").
Proof.
  assert (held_row "gpu_research_lane" ∈ leases held_db) as Hr by (apply (bool_decide_unpack _); vm_compute; exact I).
  split; [exact Hr|].
  refine (lane_mutual_exclusion seeded_db held_db (held_row "benchmark_lane") (held_row "gpu_research_lane")
    eq_refl held_reachable _ Hr _ _ (or_intror _)).
  all: apply (bool_decide_unpack _); vm_compute; exact I.
Defined.

Lemma acquire_many_spec_witness :
  (acquire_many sample_env ["benchmark_lane"] "h2" "t2" "bench" 600 held_db).1 = Ok None.
Proof.
  pose proof (acquire_many_spec sample_env ["benchmark_lane"] "h2" "t2" "bench" 600 held_db
    "2026-01-01T00:10:00.000000+00:00" ltac:(vm_compute; reflexivity)) as H.
  destruct H as [[H _]|(db' & H & _)].
  - exact (f_equal fst H).
  - apply (f_equal fst) in H. vm_compute in H. discriminate.
Defined.

Lemma acquire_release_roundtrip_witness : release (Lease "h1" sample_lanes) held_db = (Ok (), seeded_db).
Proof.
  apply (acquire_release_roundtrip sample_env ["benchmark_lane"] "h1" "t1" "bench" 600).
  - vm_compute. reflexivity.
  - intros r Hr. by apply not_elem_of_nil in Hr.
Defined.

Lemma reap_dead_holders_spec_witness :
  (reap_dead_holders later_env held_db).1 = Ok (leases held_db) ∧
  reap_dead_holders later_env (reap_dead_holders later_env held_db).2
  = (Ok [], (reap_dead_holders later_env held_db).2).
Proof.
  split; [vm_compute; reflexivity|].
  refine (proj2 (proj2 (proj2 (reap_dead_holders_spec later_env held_db (leases held_db) _ _ _)))).
  - apply (bool_decide_unpack _). vm_compute. exact I.
  - vm_compute. reflexivity.
Defined.
