(* ===== verification/GpuPool.v ===== *)
(** * The specialist GPU pool ([bus/gpu_pool.py], [common/visible_devices.py])

    Which cards a session may lend to specialists, read from the visible-device masks, and the
    [gpu_leases] table that records who holds each card.  The table is keyed by [gpu_id]; a SELECT
    without ORDER BY walks it in key order. *)

From stdpp Require Import base list strings gmap fin_maps sets sorting numbers pretty.
From Stdlib Require Import ZArith Lia Ascii.
From Stdlib Require String.
From S2P Require Import Prelude PyFloat PyVal PyTime Store Lanes.

(** ** Visible-device masks *)

Definition ROCR_VISIBLE_DEVICES_ENV : string := "ROCR_VISIBLE_DEVICES".
Definition ROCR_LEVEL_VARS : list string := [ROCR_VISIBLE_DEVICES_ENV; "HSA_VISIBLE_DEVICES"].
Definition HIP_LEVEL_VARS : list string :=
  ["HIP_VISIBLE_DEVICES"; "CUDA_VISIBLE_DEVICES"; "GPU_DEVICE_ORDINAL"].
Definition VISIBLE_DEVICE_VARS : list string := ROCR_LEVEL_VARS ++ HIP_LEVEL_VARS.
Definition _UNCOUNTED_VISIBLE_DEVICE_VARS : list string := ["HSA_VISIBLE_DEVICES"; "GPU_DEVICE_ORDINAL"].
Definition COUNTING_VISIBLE_DEVICE_VARS : list string :=
  filter (λ var, var ∉ _UNCOUNTED_VISIBLE_DEVICE_VARS) VISIBLE_DEVICE_VARS.

Definition is_rocr_level (var : string) : bool := bool_decide (var ∈ ROCR_LEVEL_VARS).

Definition mask_tokens (raw : json) : list string :=
  let parts := match raw with
               | PList l => py_str <$> l
               | PNone => py_split "," EmptyString
               | _ => py_split "," (py_replace ";" "," (py_str raw))
               end in
  filter (λ tok, tok ≠ EmptyString) (py_strip <$> parts).

Definition _is_negative_ordinal (tok : string) : bool :=
  match tok with
  | String "-" rest => py_isdigit rest
  | _ => false
  end.

(** The key a token is deduplicated on: its ordinal when it is all digits, else itself. *)
Definition token_key (tok : string) : string :=
  if py_isdigit tok then
    match py_int_of_str tok with Some z => pretty z | None => tok end
  else tok.

Fixpoint effective_loop (seen : list string) (toks : list string) : list string :=
  match toks with
  | [] => []
  | tok :: rest =>
      if _is_negative_ordinal tok then effective_loop seen rest
      else let key := token_key tok in
           if decide (key ∈ seen) then effective_loop seen rest
           else tok :: effective_loop (key :: seen) rest
  end.

Definition effective_mask_tokens (raw : json) : list string := effective_loop [] (mask_tokens raw).

Definition parse_device_list (raw : json) : list Z := omap py_int_of_str (effective_mask_tokens raw).

Abbreviation environ := (gmap string string).

(** [env.get(name)] *)
Definition getenv (environ : environ) (name : string) : json :=
  match environ !! name with Some s => PStr s | None => PNone end.

Definition hip_mask_within_rocr (environ : environ) : option string :=
  let visible := effective_mask_tokens (getenv environ ROCR_VISIBLE_DEVICES_ENV) in
  if decide (visible = []) then None
  else Some (join "," (pretty <$> seqZ 0 (Z.of_nat (length visible)))).

(** [str.splitlines] on ASCII text. *)
Definition is_line_end (c : ascii) : bool :=
  let n := nat_of_ascii c in ((10 <=? n) && (n <=? 13) || (28 <=? n) && (n <=? 30))%nat.

Fixpoint split_lines (acc : list ascii) (l : list ascii) : list string :=
  match l with
  | [] => if decide (acc = []) then [] else [of_chars (reverse acc)]
  | c :: l' =>
      if is_line_end c then
        of_chars (reverse acc) ::
          match l' with
          | c' :: l'' => if decide (nat_of_ascii c = 13 ∧ nat_of_ascii c' = 10)
                         then split_lines [] l'' else split_lines [] l'
          | [] => []
          end
      else split_lines (c :: acc) l'
  end.

(** [stripped[4:].partition("]")[0]] of a line that starts with [GPU[]. *)
Definition smi_index (line : string) : option string :=
  let stripped := py_strip line in
  if py_startswith "GPU[" stripped then
    let idx := hd EmptyString (py_split "]" (of_chars (drop 4 (chars stripped)))) in
    if decide (idx = EmptyString) then None else Some idx
  else None.

(** [smi] is what running [rocm-smi --showid] gave: its exit code and output, or the exception. *)
Definition rocm_smi_gpu_count (smi : res (Z * string)) : res Z :=
  '(returncode, stdout) ← smi;
  if decide (returncode ≠ 0%Z) then Raise (SubprocessError "rocm-smi")
  else mret (Z.of_nat (length (remove_dups (omap smi_index (split_lines [] (chars stdout)))))).

(** The first counted mask that is set. *)
Definition first_mask (environ : environ) : option string :=
  head (omap (λ name, environ !! name) COUNTING_VISIBLE_DEVICE_VARS).

Definition detect_gpu_count (environ : environ) (smi : res (Z * string)) : res Z :=
  match first_mask environ with
  | Some raw => mret (Z.of_nat (length (effective_mask_tokens (PStr raw))))
  | None => match rocm_smi_gpu_count smi with
            | Raise (OSError _) | Raise (SubprocessError _) => mret 0%Z
            | r => r
            end
  end.

(** ** The cards a session lends out *)

Definition _explicit_pool (environ : environ) : option (list Z) :=
  match environ !! "INFERENCE_OPTIMIZER_GPU_SPECIALIST_DEVICES" with
  | Some raw => if decide (py_strip raw = EmptyString) then None else Some (parse_device_list (PStr raw))
  | None => None
  end.

Definition _visible_device_mask (environ : environ) : list Z * bool :=
  match first_mask environ with
  | Some raw => (parse_device_list (PStr raw), true)
  | None => ([], false)
  end.

Definition resolve_gpu_specialist_devices (environ : environ) (capacity serving_tp : Z) : list Z :=
  let cap := Z.max 0 capacity in
  if (cap <=? 0)%Z then []
  else match _explicit_pool environ with
       | Some explicit => take (Z.to_nat cap) explicit
       | None =>
           let serving := Z.max 0 serving_tp in
           let '(mask_ids, mask_present) := _visible_device_mask environ in
           if mask_present then take (Z.to_nat cap) (drop (Z.to_nat serving) mask_ids)
           else drop (Z.to_nat serving) (seqZ 0 cap)
       end.

Definition resolve_whole_machine_devices (environ : environ) (smi : res (Z * string)) : res (list Z) :=
  match _explicit_pool environ with
  | Some explicit => mret explicit
  | None =>
      let '(mask_ids, mask_present) := _visible_device_mask environ in
      if mask_present then mret mask_ids
      else n ← detect_gpu_count environ smi; mret (seqZ 0 (Z.max 0 n))
  end.

(** ** The pool *)

Record gpu_lease := GpuLease { gl_holder : string; gl_task : string; gpu_ids : list Z }.

Definition _RAY_OBS_ID_BASE : Z := 100000.

(** [SpecialistGpuPool.__init__] *)
Definition pool_init (ids : list Z) : list Z := dict_fromkeys [] (filter (λ g, (0 <= g)%Z) ids).

Definition gpu_capacity (pool : list Z) : Z := Z.of_nat (length pool).

Definition gpu_le (a b : Z * gpu_row) : Prop := (a.1 <= b.1)%Z.
#[global] Instance gpu_le_dec : RelDecision gpu_le.
Proof. intros a b. unfold gpu_le. apply _. Defined.

(** [SELECT ... FROM gpu_leases], in key order. *)
Definition gpu_rows (db : DB) : list (Z * gpu_row) := merge_sort gpu_le (map_to_list (gpu_leases db)).

(** [WHERE holder_id=? AND task_id=?] *)
Definition own_row (holder tid : string) (p : Z * gpu_row) : Prop := p.2 = GpuRow holder tid.
#[global] Instance own_row_dec holder tid p : Decision (own_row holder tid p).
Proof. unfold own_row. apply _. Defined.

Definition drop_own (holder tid : string) (db : DB) : DB :=
  with_gpus (filter (λ p, ¬ own_row holder tid p)) db.

(** [INSERT INTO gpu_leases]: the primary key refuses a card that is on record. *)
Definition insert_gpu (holder tid : string) (g : Z) : Tx DB unit :=
  db ← tx_get;
  match gpu_leases db !! g with
  | Some _ => tx_raise (IntegrityError "gpu_leases.gpu_id")
  | None => tx_modify (with_gpus (<[g := GpuRow holder tid]>))
  end.

Fixpoint insert_gpus (holder tid : string) (gs : list Z) : Tx DB unit :=
  match gs with
  | [] => mret ()
  | g :: gs' => _ ← insert_gpu holder tid g; insert_gpus holder tid gs'
  end.

Definition try_acquire (pool : list Z) (count : Z) (holder tid : string) : Io DB (option gpu_lease) :=
  if ((count <=? 0) || (gpu_capacity pool <? count))%Z then mret None
  else
    let n := Z.to_nat count in
    transaction (
      db ← tx_get;
      let existing_ids := fst <$> filter (own_row holder tid) (gpu_rows db) in
      if decide (existing_ids ≠ [] ∧ length existing_ids = n ∧ Forall (.∈ pool) existing_ids) then
        mret (Some (GpuLease holder tid existing_ids))
      else
        _ ← (if decide (existing_ids = []) then mret () else tx_modify (drop_own holder tid));
        db1 ← tx_get;
        let available := filter (λ g, gpu_leases db1 !! g = None) pool in
        if (length available <? n)%nat then mret None
        else
          let selected := take n available in
          _ ← insert_gpus holder tid selected;
          mret (Some (GpuLease holder tid selected))).

Definition try_acquire_ray_observation (holder tid : string) (pending_limit : Z)
    : Io DB (option gpu_lease) :=
  let limit := Z.max 1 pending_limit in
  transaction (
    db ← tx_get;
    let used := filter (λ g, (_RAY_OBS_ID_BASE <= g)%Z) (fst <$> gpu_rows db) in
    match list_find (λ cand, cand ∉ used) (seqZ _RAY_OBS_ID_BASE limit) with
    | None => mret None
    | Some (_, slot) =>
        _ ← insert_gpu holder tid slot;
        mret (Some (GpuLease holder tid [slot]))
    end).

Definition gpu_release (l : option gpu_lease) : Io DB unit :=
  match l with
  | None => mret ()
  | Some l =>
      if decide (gpu_ids l = []) then mret ()
      else transaction (tx_modify (with_gpus
             (filter (λ p, ¬ (p.1 ∈ gpu_ids l ∧ g_holder p.2 = gl_holder l)))))
  end.

(** [close] is what closing the Ray specialist lease gave, when the execution had one. *)
Definition release_execution (l : option gpu_lease) (close : option (res json)) : Io DB bool :=
  match close with
  | None => _ ← gpu_release l; mret true
  | Some (Ok closed) =>
      _ ← gpu_release l;
      mret (match closed with PBool true => true | _ => false end)
  | Some (Raise exn) => _ ← gpu_release l; io_raise exn
  end.

Definition gpus_by_task_sync (db : DB) : list (string * list Z) :=
  foldl (λ acc p, let t := g_task p.2 in dset t (default [] (dget t acc) ++ [p.1]) acc) [] (gpu_rows db).

(** * Properties *)

(** ** The table as a map *)

Lemma elem_of_gpu_rows db p : p ∈ gpu_rows db ↔ gpu_leases db !! p.1 = Some p.2.
Proof.
  unfold gpu_rows. rewrite merge_sort_Permutation. destruct p as [g r]. apply elem_of_map_to_list.
Qed.

Lemma NoDup_gpu_rows db : NoDup (fst <$> gpu_rows db).
Proof. unfold gpu_rows. rewrite merge_sort_Permutation. apply NoDup_fst_map_to_list. Qed.

Lemma elem_of_existing db holder tid g :
  g ∈ fst <$> filter (own_row holder tid) (gpu_rows db) ↔ gpu_leases db !! g = Some (GpuRow holder tid).
Proof.
  rewrite list_elem_of_fmap. setoid_rewrite list_elem_of_filter. setoid_rewrite elem_of_gpu_rows. split.
  - intros ([g' r] & -> & Ho & Hg). unfold own_row in Ho. simpl in *. by subst.
  - intros Hg. exists (g, GpuRow holder tid). done.
Qed.

Lemma NoDup_existing db holder tid : NoDup (fst <$> filter (own_row holder tid) (gpu_rows db)).
Proof. apply NoDup_key_filter, NoDup_gpu_rows. Qed.

(** The table without the rows of one (holder, task). *)
Definition without_own (holder tid : string) (m : gmap Z gpu_row) : gmap Z gpu_row :=
  filter (λ p, ¬ own_row holder tid p) m.

Lemma lookup_without_own holder tid m g :
  without_own holder tid m !! g
  = match m !! g with
    | Some r => if decide (r = GpuRow holder tid) then None else Some r
    | None => None
    end.
Proof.
  unfold without_own. rewrite map_lookup_filter. destruct (m !! g) as [r|]; simpl; [|done].
  unfold own_row, guard. simpl. by repeat case_decide; simpl.
Qed.

Lemma without_own_fresh holder tid m :
  (∀ g, m !! g ≠ Some (GpuRow holder tid)) → without_own holder tid m = m.
Proof.
  intros Hf. apply map_eq. intros g. rewrite lookup_without_own.
  destruct (m !! g) as [r|] eqn:E; [|done]. case_decide; [|done]. subst. by apply Hf in E.
Qed.

(** Inserting free, distinct cards succeeds and adds exactly those rows. *)
Definition gpu_rows_of (holder tid : string) (gs : list Z) : gmap Z gpu_row :=
  list_to_map ((λ g, (g, GpuRow holder tid)) <$> gs).

Lemma lookup_gpu_rows_of holder tid gs g :
  gpu_rows_of holder tid gs !! g = if decide (g ∈ gs) then Some (GpuRow holder tid) else None.
Proof.
  unfold gpu_rows_of. induction gs as [|x gs IH]; simpl; [by rewrite lookup_empty|].
  destruct (decide (x = g)) as [->|Hne].
  - rewrite lookup_insert_eq, decide_True; [done|left].
  - rewrite lookup_insert_ne by done. etrans; [apply IH|].
    apply decide_ext. rewrite elem_of_cons. naive_solver.
Qed.

Lemma insert_gpus_ok holder tid gs : ∀ db,
  NoDup gs → (∀ g, g ∈ gs → gpu_leases db !! g = None) →
  insert_gpus holder tid gs db
  = Ok ((), with_gpus (λ m, gpu_rows_of holder tid gs ∪ m) db).
Proof.
  induction gs as [|g gs IH]; intros db; simpl.
  - intros _ _. unfold gpu_rows_of, with_gpus. simpl. rewrite (left_id_L ∅ (∪)). by destruct db.
  - rewrite NoDup_cons. intros [Hn Hnd] Hfree. unfold insert_gpu, mbind, tx_bind, tx_get.
    rewrite (Hfree g) by left. unfold tx_modify. rewrite IH; [|done|].
    + unfold with_gpus; simpl. do 3 f_equal. unfold gpu_rows_of. simpl.
      rewrite <- insert_union_l. rewrite <- insert_union_r; [done|].
      fold (gpu_rows_of holder tid gs). rewrite lookup_gpu_rows_of. by rewrite decide_False.
    + intros x Hx. simpl. rewrite lookup_insert_ne; [apply Hfree; by right|congruence].
Qed.

(** ** What an acquire does *)

Definition acquired (holder tid : string) (ids : list Z) (db : DB) : DB :=
  with_gpus (λ m, gpu_rows_of holder tid ids ∪ without_own holder tid m) db.

Lemma with_gpus_id db : with_gpus (λ _, gpu_leases db) db = db.
Proof. by destruct db. Qed.

Lemma acquired_existing holder tid db :
  acquired holder tid (fst <$> filter (own_row holder tid) (gpu_rows db)) db = db.
Proof.
  etrans; [|apply with_gpus_id]. unfold acquired, with_gpus. f_equal. apply map_eq. intros g.
  rewrite lookup_union, lookup_gpu_rows_of, lookup_without_own.
  destruct (decide (g ∈ _)) as [Hin|Hnin].
  - apply elem_of_existing in Hin. by rewrite Hin, decide_True.
  - rewrite elem_of_existing in Hnin. destruct (gpu_leases db !! g); [|done].
    rewrite decide_False by congruence. done.
Qed.

(** The cards of the pool nobody else holds. *)
Definition claimable (pool : list Z) (holder tid : string) (db : DB) : list Z :=
  filter (λ g, without_own holder tid (gpu_leases db) !! g = None) pool.

Lemma try_acquire_eq pool count holder tid db :
  NoDup pool → (0 < count <= gpu_capacity pool)%Z →
  let own := fst <$> filter (own_row holder tid) (gpu_rows db) in
  let n := Z.to_nat count in
  try_acquire pool count holder tid db =
    if decide (own ≠ [] ∧ length own = n ∧ Forall (.∈ pool) own) then
      (Ok (Some (GpuLease holder tid own)), db)
    else if (length (claimable pool holder tid db) <? n)%nat then (Ok None, drop_own holder tid db)
    else let ids := take n (claimable pool holder tid db) in
         (Ok (Some (GpuLease holder tid ids)), acquired holder tid ids db).
Proof.
  intros Hnd Hc own n. unfold try_acquire.
  rewrite (proj2 (Z.leb_gt _ _)), (proj2 (Z.ltb_ge _ _)) by lia. cbn -[gpu_rows Nat.ltb].
  unfold transaction, mbind, tx_bind, tx_get. fold own n. case_decide; [done|].
  assert ((if decide (own = []) then mret () else tx_modify (drop_own holder tid)) db
          = Ok ((), drop_own holder tid db)) as Hdrop.
  { case_decide as Hown; [|done]. unfold drop_own.
    assert (filter (λ p, ¬ own_row holder tid p) (gpu_leases db) = gpu_leases db) as Hid.
    { apply without_own_fresh. intros g Hg. apply elem_of_existing in Hg. fold own in Hg.
      rewrite Hown in Hg. by apply not_elem_of_nil in Hg. }
    unfold mret, tx_ret, with_gpus. rewrite Hid. by destruct db. }
  rewrite Hdrop. change (gpu_leases (drop_own holder tid db)) with (without_own holder tid (gpu_leases db)).
  fold (claimable pool holder tid db).
  destruct (length (claimable pool holder tid db) <? n)%nat; [done|].
  rewrite insert_gpus_ok; [done| |].
  - by apply NoDup_take, NoDup_filter.
  - intros g Hg%elem_of_take_in. by apply list_elem_of_filter in Hg as [? _].
Qed.

(** ** Operations of other holders *)

(** One pool operation, on any pool over the table, by a holder other than [h]. *)
Inductive foreign_gpu_step (h : string) (db : DB) : DB → Prop :=
| foreign_acquire pool count holder tid :
    holder ≠ h → NoDup pool → foreign_gpu_step h db (try_acquire pool count holder tid db).2
| foreign_observation holder tid limit :
    holder ≠ h → foreign_gpu_step h db (try_acquire_ray_observation holder tid limit db).2
| foreign_release l : gl_holder l ≠ h → foreign_gpu_step h db (gpu_release (Some l) db).2
| foreign_other db' : gpu_leases db' = gpu_leases db → foreign_gpu_step h db db'.

Lemma acquired_foreign holder tid ids db h t g :
  holder ≠ h → gpu_leases db !! g = Some (GpuRow h t) → g ∉ ids →
  gpu_leases (acquired holder tid ids db) !! g = Some (GpuRow h t).
Proof.
  intros Hne Hg Hn. simpl. rewrite lookup_union, lookup_gpu_rows_of, decide_False, lookup_without_own, Hg by done.
  by rewrite decide_False by congruence.
Qed.

Lemma claimable_foreign pool holder tid db h t g :
  holder ≠ h → gpu_leases db !! g = Some (GpuRow h t) → g ∉ claimable pool holder tid db.
Proof.
  intros Hne Hg [Hn _]%list_elem_of_filter. rewrite lookup_without_own, Hg in Hn.
  by rewrite decide_False in Hn by congruence.
Qed.

(** A request outside [1..capacity] is refused before the database is read. *)
Lemma try_acquire_out_of_range pool count holder tid db :
  ¬ (0 < count <= gpu_capacity pool)%Z → try_acquire pool count holder tid db = (Ok None, db).
Proof.
  intros Hc. unfold try_acquire.
  destruct (Z.leb_spec count 0), (Z.ltb_spec (gpu_capacity pool) count); [done..|lia].
Qed.

Lemma drop_own_foreign holder tid db h t g :
  holder ≠ h → gpu_leases db !! g = Some (GpuRow h t) →
  gpu_leases (drop_own holder tid db) !! g = Some (GpuRow h t).
Proof.
  intros Hne Hg. change (without_own holder tid (gpu_leases db) !! g = Some (GpuRow h t)).
  rewrite lookup_without_own, Hg. by rewrite decide_False by congruence.
Qed.

(** What the observation slot search returns is free, and in range. *)
Lemma find_slot db limit i slot :
  list_find (λ cand, cand ∉ filter (λ g, (_RAY_OBS_ID_BASE <= g)%Z) (fst <$> gpu_rows db))
    (seqZ _RAY_OBS_ID_BASE limit) = Some (i, slot) →
  gpu_leases db !! slot = None ∧ (_RAY_OBS_ID_BASE <= slot < _RAY_OBS_ID_BASE + limit)%Z.
Proof.
  intros (Hl & Hn & _)%list_find_Some. apply list_elem_of_lookup_2 in Hl.
  apply elem_of_seqZ in Hl. split; [|lia].
  destruct (gpu_leases db !! slot) as [r|] eqn:E; [|done]. exfalso. apply Hn.
  apply list_elem_of_filter. split; [lia|]. apply list_elem_of_fmap. exists (slot, r).
  split; [done|]. by apply elem_of_gpu_rows.
Qed.

Lemma no_slot db limit :
  list_find (λ cand, cand ∉ filter (λ g, (_RAY_OBS_ID_BASE <= g)%Z) (fst <$> gpu_rows db))
    (seqZ _RAY_OBS_ID_BASE limit) = None →
  ∀ g, (_RAY_OBS_ID_BASE <= g < _RAY_OBS_ID_BASE + limit)%Z → is_Some (gpu_leases db !! g).
Proof.
  intros Hn%list_find_None g Hg. rewrite Forall_forall in Hn.
  specialize (Hn g ltac:(apply elem_of_seqZ; lia)). simpl in Hn.
  apply dec_stable in Hn. apply list_elem_of_filter in Hn as [_ Hn].
  apply list_elem_of_fmap in Hn as ([g' r] & -> & Hr%elem_of_gpu_rows). simpl in *. eauto.
Qed.

(** The observation acquire, with its insert resolved. *)
Lemma observation_eq holder tid limit db :
  try_acquire_ray_observation holder tid limit db =
    match list_find (λ cand, cand ∉ filter (λ g, (_RAY_OBS_ID_BASE <= g)%Z) (fst <$> gpu_rows db))
            (seqZ _RAY_OBS_ID_BASE (Z.max 1 limit)) with
    | None => (Ok None, db)
    | Some (_, slot) =>
        (Ok (Some (GpuLease holder tid [slot])), with_gpus (<[slot := GpuRow holder tid]>) db)
    end.
Proof.
  unfold try_acquire_ray_observation, transaction, mbind, tx_bind, tx_get.
  destruct (list_find _ _) as [[i slot]|] eqn:E; [|done].
  unfold insert_gpu, mbind, tx_bind, tx_get. by rewrite (proj1 (find_slot _ _ _ _ E)).
Qed.

Lemma foreign_step_keeps h t db db' g :
  foreign_gpu_step h db db' → gpu_leases db !! g = Some (GpuRow h t) →
  gpu_leases db' !! g = Some (GpuRow h t).
Proof.
  intros Hs Hg. destruct Hs as [pool count holder tid Hne Hnd|holder tid limit Hne|l Hne|db' E].
  - destruct (decide (0 < count <= gpu_capacity pool)%Z).
    2:{ by rewrite try_acquire_out_of_range. }
    rewrite try_acquire_eq by done. case_decide; [done|]. case_match; simpl.
    + by apply drop_own_foreign.
    + apply (acquired_foreign holder tid); [done..|]. intros Hin%elem_of_take_in.
      by eapply claimable_foreign in Hin.
  - rewrite observation_eq. case_match eqn:E; [|done]. case_match. simpl.
    apply find_slot in E as [E _]. rewrite lookup_insert_ne; congruence.
  - simpl. case_decide; [done|]. simpl. rewrite map_lookup_filter, Hg. simpl.
    by rewrite option_guard_True by (simpl; naive_solver).
  - by rewrite E.
Qed.

(** ** Masks *)

Lemma drop_space_digits l : forallb is_digit l = true → drop_space l = l.
Proof.
  destruct l as [|c l]; [done|]. simpl. rewrite andb_true_iff. intros [Hc _].
  destruct (is_space c) eqn:E; [|done]. unfold is_digit, is_space in *.
  rewrite andb_true_iff, !Nat.leb_le in Hc.
  rewrite orb_true_iff, !andb_true_iff, !Nat.leb_le in E. lia.
Qed.

Lemma forallb_reverse {A} (f : A → bool) l : forallb f (reverse l) = forallb f l.
Proof.
  apply eq_true_iff_eq. rewrite !forallb_forall. setoid_rewrite <- list_elem_of_In.
  by setoid_rewrite elem_of_reverse.
Qed.

Lemma digit_val_nonneg c : is_digit c = true → (0 <= digit_val c)%Z.
Proof. unfold is_digit, digit_val. rewrite andb_true_iff, !Nat.leb_le. lia. Qed.

Lemma int_digits_ok l acc b :
  forallb is_digit l = true → (0 <= acc)%Z → l ≠ [] ∨ b = true →
  ∃ z, int_digits l acc b = Some z ∧ (0 <= z)%Z.
Proof.
  revert acc b. induction l as [|c l IH]; intros acc b Hl Ha Hb; simpl.
  - destruct Hb as [Hb|Hb]; [done|]. rewrite Hb. eauto.
  - simpl in Hl. rewrite andb_true_iff in Hl. destruct Hl as [Hc Hl]. rewrite Hc.
    apply IH; [done| |by right]. pose proof (digit_val_nonneg c Hc). lia.
Qed.

(** An all-digit token is an ordinal. *)
Lemma isdigit_ordinal tok : py_isdigit tok = true → ∃ z, py_int_of_str tok = Some z ∧ (0 <= z)%Z.
Proof.
  unfold py_isdigit, py_int_of_str, py_strip, chars, of_chars.
  rewrite String.list_ascii_of_string_of_list_ascii.
  set (l := String.list_ascii_of_string tok). intros H.
  assert (l ≠ [] ∧ forallb is_digit l = true) as [Hne Hl] by (destruct l; [done|split; [done|exact H]]).
  rewrite (drop_space_digits l) by done.
  rewrite (drop_space_digits (reverse l)), reverse_involutive by (by rewrite forallb_reverse).
  destruct (int_digits_ok l 0 false Hl ltac:(lia) (or_introl Hne)) as (z & Hz & ?). exists z. split; [|done].
  destruct l as [|c l']; [done|]. simpl in Hl. rewrite andb_true_iff in Hl. destruct Hl as [Hc _].
  rewrite <- Hz. clear -Hc.
  destruct (decide (c = "-"%char)) as [->|]; [done|]. destruct (decide (c = "+"%char)) as [->|]; [done|].
  destruct c as [b0 b1 b2 b3 b4 b5 b6 b7]. by destruct b0, b1, b2, b3, b4, b5, b6, b7.
Qed.

Lemma digits_not_negative tok : py_isdigit tok = true → _is_negative_ordinal tok = false.
Proof.
  destruct tok as [|c tok]; [done|]. destruct (decide (c = "-"%char)) as [->|Hc]; [done|]. intros _.
  destruct c as [b0 b1 b2 b3 b4 b5 b6 b7]. by destruct b0, b1, b2, b3, b4, b5, b6, b7.
Qed.

Lemma pretty_N_go_digits x s :
  (0 < x)%N → forallb is_digit (chars s) = true → py_isdigit (pretty_N_go x s) = true.
Proof.
  revert s. induction (N.lt_wf_0 x) as [x _ IH]; intros s Hx Hs. rewrite pretty_N_go_step by done.
  assert (forallb is_digit (chars (String (pretty_N_char (x `mod` 10)) s)) = true) as Hs'.
  { simpl. rewrite andb_true_iff. split; [|done]. unfold pretty_N_char. by repeat case_match. }
  destruct (decide (x `div` 10 = 0)%N) as [->|Hd]; [exact Hs'|].
  apply IH; [by apply N.div_lt|by apply N.neq_0_lt_0|done].
Qed.

(** [str(n)] of a natural number is all digits. *)
Lemma pretty_digits z : (0 <= z)%Z → py_isdigit (pretty z) = true.
Proof.
  intros Hz. destruct z as [|p|p]; [done| |lia].
  unfold pretty, pretty_Z, pretty, pretty_positive, pretty, pretty_N.
  rewrite decide_False by done. by apply pretty_N_go_digits.
Qed.

Lemma effective_loop_spec toks : ∀ seen,
  let out := effective_loop seen toks in
  (∀ tok, tok ∈ out → tok ∈ toks ∧ _is_negative_ordinal tok = false ∧ token_key tok ∉ seen) ∧
  NoDup (token_key <$> out) ∧
  (∀ tok, tok ∈ toks → _is_negative_ordinal tok = false →
     token_key tok ∈ seen ∨ token_key tok ∈ token_key <$> out).
Proof.
  induction toks as [|t toks IH]; intros seen; simpl.
  { split_and!; [by intros ? ?%not_elem_of_nil|constructor|by intros ? ?%not_elem_of_nil]. }
  destruct (_is_negative_ordinal t) eqn:En; [|case_decide as Hs].
  - destruct (IH seen) as (H1 & H2 & H3). split_and!; [|done|].
    + intros tok (? & ? & ?)%H1. split_and!; [by right|done..].
    + intros tok [->|Ht]%elem_of_cons Hn; [congruence|auto].
  - destruct (IH seen) as (H1 & H2 & H3). split_and!; [|done|].
    + intros tok (? & ? & ?)%H1. split_and!; [by right|done..].
    + intros tok [->|Ht]%elem_of_cons Hn; [by left|auto].
  - destruct (IH (token_key t :: seen)) as (H1 & H2 & H3). split_and!.
    + intros tok [->|(? & ? & Hk)%H1]%elem_of_cons; [split_and!; [left|done..]|].
      rewrite not_elem_of_cons in Hk. split_and!; [by right|done|tauto].
    + rewrite fmap_cons. apply NoDup_cons. split; [|done].
      intros (x & Hk & (_ & _ & Hx)%H1)%list_elem_of_fmap. apply Hx. rewrite Hk. left.
    + intros tok Ht Hn. rewrite fmap_cons, elem_of_cons.
      apply elem_of_cons in Ht as [->|Ht]; [auto|].
      destruct (H3 tok Ht Hn) as [Hk|Hk]; [apply elem_of_cons in Hk as [->|Hk]|]; auto.
Qed.

(** A token whose integer reading, if any, is a plain ordinal. *)
Definition plain_token (tok : string) : Prop := py_int_of_str tok = None ∨ py_isdigit tok = true.

Lemma NoDup_omap_key {A B} (f : A → option Z) (key : A → B) l :
  NoDup (key <$> l) →
  (∀ x y z, x ∈ l → y ∈ l → f x = Some z → f y = Some z → key x = key y) →
  NoDup (omap f l).
Proof.
  induction l as [|x l IH]; intros Hnd Hk; simpl; [constructor|].
  rewrite fmap_cons, NoDup_cons in Hnd. destruct Hnd as [Hn Hnd].
  assert (NoDup (omap f l)) as IHl by (apply IH; [done|]; intros; eapply Hk; eauto; by right).
  destruct (f x) as [z|] eqn:E; [|done]. apply NoDup_cons. split; [|done].
  intros (y & Hy & Hz)%list_elem_of_omap. apply Hn. rewrite (Hk x y z); [|left|by right|done..].
  by apply list_elem_of_fmap_2.
Qed.

(** * Claims *)

(** Functional.  On every branch of an acquire: a count outside [1..capacity] is refused and
    nothing changes; otherwise the request either gets exactly [count] distinct cards of the pool
    that no other (holder, task) had, and the caller's other rows are gone; or it is refused because
    fewer than [count] cards are claimable, and then only the caller's own stale rows are dropped.
    The acquire never fails on the table's primary key. *)
Theorem try_acquire_spec pool count holder tid db :
  NoDup pool →
  match try_acquire pool count holder tid db with
  | (Ok (Some l), db') =>
      gl_holder l = holder ∧ gl_task l = tid ∧
      Z.of_nat (length (gpu_ids l)) = count ∧ NoDup (gpu_ids l) ∧ Forall (.∈ pool) (gpu_ids l) ∧
      Forall (λ g, gpu_leases db !! g ∈ [None; Some (GpuRow holder tid)]) (gpu_ids l) ∧
      db' = acquired holder tid (gpu_ids l) db
  | (Ok None, db') =>
      (¬ (0 < count <= gpu_capacity pool)%Z ∧ db' = db) ∨
      ((Z.of_nat (length (claimable pool holder tid db)) < count)%Z ∧ db' = drop_own holder tid db)
  | (Raise _, _) => False
  end.
Proof.
  intros Hnd. destruct (decide (0 < count <= gpu_capacity pool)%Z) as [Hc|Hc].
  2:{ rewrite try_acquire_out_of_range by done. by left. }
  rewrite try_acquire_eq by done. case_decide as Hown.
  - destruct Hown as (_ & Hlen & Hall). simpl. split_and!; [done..|lia|apply NoDup_existing|done| |].
    + apply Forall_forall. intros g Hg%elem_of_existing. rewrite Hg. right; left.
    + by rewrite acquired_existing.
  - destruct (Nat.ltb_spec (length (claimable pool holder tid db)) (Z.to_nat count)) as [Hlt|Hge].
    + right. split; [lia|done].
    + simpl. split_and!; [done..|rewrite length_take; lia| | | |done].
      * by apply NoDup_take, NoDup_filter.
      * apply Forall_forall. intros g Hg%elem_of_take_in. by apply list_elem_of_filter in Hg as [_ ?].
      * apply Forall_forall. intros g Hg%elem_of_take_in. apply list_elem_of_filter in Hg as [Hg _].
        rewrite lookup_without_own in Hg. destruct (gpu_leases db !! g); [|left].
        case_decide; [subst; right; left|done].
Qed.

(** Safety.  A granted card stays its holder's: whatever other holders acquire, observe or
    release afterwards, through any pools over the same table, every granted card is still recorded
    to its holder, and a later grant to another holder shares no card with it. *)
Theorem gpu_lease_exclusive pool count h t db l db1 db2 pool' count' h' t' l' db3 :
  NoDup pool → NoDup pool' →
  try_acquire pool count h t db = (Ok (Some l), db1) →
  rtc (foreign_gpu_step h) db1 db2 →
  h' ≠ h → try_acquire pool' count' h' t' db2 = (Ok (Some l'), db3) →
  (∀ g, g ∈ gpu_ids l → gpu_leases db3 !! g = Some (GpuRow h t)) ∧ gpu_ids l ## gpu_ids l'.
Proof.
  intros Hnd Hnd' Hacq Hs Hne Hacq'.
  assert (∀ g, g ∈ gpu_ids l → gpu_leases db1 !! g = Some (GpuRow h t)) as H1.
  { destruct (decide (0 < count <= gpu_capacity pool)%Z).
    2:{ by rewrite try_acquire_out_of_range in Hacq. }
    rewrite try_acquire_eq in Hacq by done. intros g Hg.
    case_decide; [|case_match; [done|]]; injection Hacq as <- <-; [by apply elem_of_existing|].
    simpl in *. by rewrite lookup_union, lookup_gpu_rows_of, decide_True, union_Some_l by done. }
  assert (∀ g, g ∈ gpu_ids l → gpu_leases db2 !! g = Some (GpuRow h t)) as H2.
  { clear Hacq Hacq'. induction Hs; eauto using foreign_step_keeps. }
  split.
  - intros g Hg. eapply foreign_step_keeps; [|by apply H2].
    replace db3 with (try_acquire pool' count' h' t' db2).2 by (by rewrite Hacq'). by constructor.
  - intros g Hg Hg'. specialize (H2 g Hg).
    destruct (decide (0 < count' <= gpu_capacity pool')%Z).
    2:{ by rewrite try_acquire_out_of_range in Hacq'. }
    rewrite try_acquire_eq in Hacq' by done. case_decide; [|case_match; [done|]]; injection Hacq' as <- <-.
    + apply elem_of_existing in Hg'. congruence.
    + apply elem_of_take_in in Hg'. by eapply claimable_foreign in Hg'.
Qed.

(** Round trip, errors included.  A holder without a card that acquires some and whose execution
    then ends gives every card back: whether closing the specialist confirmed, did not confirm or
    raised, the table is as before the acquire, and the caller learns which of the three it was. *)
Theorem execution_returns_slot pool count holder tid db l db1 close :
  NoDup pool →
  (∀ g r, gpu_leases db !! g = Some r → g_holder r ≠ holder) →
  try_acquire pool count holder tid db = (Ok (Some l), db1) →
  release_execution (Some l) close db1
  = (match close with
     | None => Ok true
     | Some (Ok closed) => Ok (match closed with PBool b => b | _ => false end)
     | Some (Raise exn) => Raise exn
     end, db).
Proof.
  intros Hnd Hfresh Hacq.
  assert (gpu_release (Some l) db1 = (Ok (), db)) as Hrel.
  { destruct (decide (0 < count <= gpu_capacity pool)%Z) as [Hc|].
    2:{ by rewrite try_acquire_out_of_range in Hacq. }
    rewrite try_acquire_eq in Hacq by done. case_decide as Hown; [|case_match; [done|]].
    { destruct Hown as (Hown & _). destruct (fst <$> _) as [|g gs] eqn:E in Hown; [done|].
      assert (g ∈ fst <$> filter (own_row holder tid) (gpu_rows db)) as Hg by (rewrite E; left).
      apply elem_of_existing in Hg. by apply Hfresh in Hg. }
    injection Hacq as <- <-. apply Nat.ltb_ge in H. unfold gpu_release. rewrite decide_False.
    2:{ simpl. intros E%(f_equal length). rewrite length_take in E. simpl in E. lia. }
    unfold transaction, tx_modify. f_equal. etrans; [|apply with_gpus_id].
    unfold with_gpus, acquired; simpl. f_equal. apply map_eq. intros g.
    rewrite map_lookup_filter, lookup_union, lookup_gpu_rows_of, without_own_fresh.
    2:{ intros x Hx. by apply Hfresh in Hx. }
    case_decide as Hg; simpl.
    - rewrite union_Some_l. simpl. rewrite option_guard_False by (simpl; tauto).
      apply elem_of_take_in, list_elem_of_filter in Hg as [Hg _].
      rewrite without_own_fresh in Hg; [done|]. intros x Hx. by apply Hfresh in Hx.
    - rewrite (left_id_L None (∪)). destruct (gpu_leases db !! g) as [r|]; simpl; [|done].
      by rewrite option_guard_True by (simpl; tauto). }
  unfold release_execution. destruct close as [[closed|exn]|]; unfold mbind, io_bind; rewrite Hrel; [|done..].
  by destruct closed as [|[]| | | | |].
Qed.

(** Bounds.  Ray observation slots are capped by count: with every admission asking for at most
    [limit] slots, no slot at or above [base + limit] is ever taken, an admission takes exactly one
    free slot, and it is refused only when every slot it may use is taken. *)
Theorem ray_observation_bounded limit pending holder tid db :
  (1 <= limit)%Z → (pending <= limit)%Z →
  (∀ g, is_Some (gpu_leases db !! g) → (g < _RAY_OBS_ID_BASE + limit)%Z) →
  match try_acquire_ray_observation holder tid pending db with
  | (Ok (Some l), db') =>
      (∃ slot, gpu_ids l = [slot] ∧ gpu_leases db !! slot = None ∧
         db' = with_gpus (<[slot := GpuRow holder tid]>) db) ∧
      ∀ g, is_Some (gpu_leases db' !! g) → (g < _RAY_OBS_ID_BASE + limit)%Z
  | (Ok None, db') =>
      db' = db ∧ ∀ g, (_RAY_OBS_ID_BASE <= g < _RAY_OBS_ID_BASE + Z.max 1 pending)%Z →
        is_Some (gpu_leases db !! g)
  | (Raise _, _) => False
  end.
Proof.
  intros Hl Hp Hb. rewrite observation_eq. destruct (list_find _ _) as [[i slot]|] eqn:E.
  - apply find_slot in E as [Hfree Hrange]. simpl. split; [by eauto|].
    intros g. destruct (decide (slot = g)) as [<-|Hne]; [lia|].
    rewrite lookup_insert_ne by done. apply Hb.
  - split; [done|]. by apply no_slot.
Qed.

(** Functional.  On a mask whose integer tokens are plain ordinals, the parsed ids are distinct
    and non-negative, and they are exactly the ordinals the mask names. *)
Theorem parse_device_list_plain raw :
  Forall (λ tok, plain_token tok ∨ _is_negative_ordinal tok = true) (mask_tokens raw) →
  NoDup (parse_device_list raw) ∧ Forall (λ z, (0 <= z)%Z) (parse_device_list raw) ∧
  ∀ z, z ∈ parse_device_list raw ↔
    ∃ tok, tok ∈ mask_tokens raw ∧ py_isdigit tok = true ∧ py_int_of_str tok = Some z.
Proof.
  rewrite Forall_forall. intros Hp. unfold parse_device_list, effective_mask_tokens.
  destruct (effective_loop_spec (mask_tokens raw) []) as (H1 & H2 & H3).
  assert (∀ tok z, tok ∈ effective_loop [] (mask_tokens raw) → py_int_of_str tok = Some z →
            tok ∈ mask_tokens raw ∧ py_isdigit tok = true ∧ token_key tok = pretty z) as Hd.
  { intros tok z (Ht & Hn & _)%H1 Hz. destruct (Hp tok Ht) as [[?|Hdig]|?]; [congruence| |congruence].
    split_and!; [done..|]. unfold token_key. by rewrite Hdig, Hz. }
  split_and!.
  - apply (NoDup_omap_key _ token_key); [done|]. intros x y z Hx Hy Hxz Hyz.
    destruct (Hd x z Hx Hxz) as (_ & _ & ->), (Hd y z Hy Hyz) as (_ & _ & ->). done.
  - apply Forall_forall. intros z (tok & Ht & Hz)%list_elem_of_omap.
    destruct (Hd tok z Ht Hz) as (_ & Hdig & _). apply isdigit_ordinal in Hdig as (z' & ? & ?). congruence.
  - intros z. rewrite list_elem_of_omap. split.
    + intros (tok & Ht & Hz). destruct (Hd tok z Ht Hz) as (? & ? & _). eauto.
    + intros (tok & Ht & Hdig & Hz).
      assert (_is_negative_ordinal tok = false) as Hn.
      { by apply digits_not_negative. }
      destruct (H3 tok Ht Hn) as [?%not_elem_of_nil|Hk]; [done|].
      apply list_elem_of_fmap in Hk as (tok' & Hk & Ht'). exists tok'. split; [done|].
      assert (token_key tok = pretty z) as Hkz by (unfold token_key; by rewrite Hdig, Hz).
      destruct (H1 tok' Ht') as (Hm' & Hn' & _).
      destruct (py_isdigit tok') eqn:Hdig'.
      * destruct (isdigit_ordinal tok' Hdig') as (z' & Hz' & _). rewrite Hz'. f_equal.
        apply (inj pretty). rewrite <- Hkz, Hk. unfold token_key. by rewrite Hdig', Hz'.
      * exfalso. unfold token_key in Hk at 2. rewrite Hdig', Hkz in Hk. subst tok'.
        apply isdigit_ordinal in Hdig as (z' & Hz' & ?). rewrite pretty_digits in Hdig'; [done|congruence].
Qed.

(** Error.  Outside that class the documented result does not hold: a signed spelling repeats an
    id and an underscored one gives a negative id, because duplicates and negatives are filtered on
    the token's digits and the ids are read with [int]. *)
Theorem parse_device_list_not_unique :
  parse_device_list (PStr "3,+3") = [3; 3]%Z ∧ parse_device_list (PStr "-1_0") = [-10]%Z.
Proof. split; vm_compute; reflexivity. Qed.

(** * Witnesses *)

Definition card_pool : list Z := [4; 5; 6; 7]%Z.
Definition carded_db : DB := (try_acquire card_pool 2 "h1" "t1" seeded_db).2.

Lemma small_pool_NoDup : NoDup card_pool.
Proof. apply (bool_decide_unpack _). vm_compute. exact I. Qed.

Lemma try_acquire_spec_witness :
  try_acquire card_pool 3 "h2" "t2" carded_db = (Ok None, carded_db).
Proof.
  pose proof (try_acquire_spec card_pool 3 "h2" "t2" carded_db small_pool_NoDup) as H.
  destruct (try_acquire card_pool 3 "h2" "t2" carded_db) as [[[l|]|ex] db'] eqn:E.
  - vm_compute in E. discriminate.
  - rewrite <- E. vm_compute. reflexivity.
  - destruct H.
Defined.

Lemma gpu_lease_exclusive_witness :
  [4; 5]%Z ## [6; 7]%Z.
Proof.
  exact (proj2 (gpu_lease_exclusive card_pool 2 "h1" "t1" seeded_db (GpuLease "h1" "t1" [4; 5]%Z)
    carded_db carded_db card_pool 2 "h2" "t2" (GpuLease "h2" "t2" [6; 7]%Z)
    (try_acquire card_pool 2 "h2" "t2" carded_db).2
    small_pool_NoDup small_pool_NoDup ltac:(vm_compute; reflexivity) (rtc_refl _ _) ltac:(done)
    ltac:(vm_compute; reflexivity))).
Defined.

Lemma execution_returns_slot_witness :
  release_execution (Some (GpuLease "h1" "t1" [4; 5]%Z)) (Some (Raise (RuntimeError "lost worker"))) carded_db
  = (Raise (RuntimeError "lost worker"), seeded_db).
Proof.
  apply (execution_returns_slot card_pool 2 "h1" "t1" seeded_db (GpuLease "h1" "t1" [4; 5]%Z) carded_db
    (Some (Raise (RuntimeError "lost worker"))) small_pool_NoDup).
  - intros g r Hg. change (gpu_leases seeded_db) with (∅ : gmap Z gpu_row) in Hg.
    rewrite lookup_empty in Hg. discriminate.
  - vm_compute. reflexivity.
Defined.

Lemma ray_observation_bounded_witness :
  is_Some (gpu_leases (try_acquire_ray_observation "h" "t" 1 seeded_db).2 !! 100000%Z) ∧
  ∀ g, is_Some (gpu_leases (try_acquire_ray_observation "h" "t" 1 seeded_db).2 !! g) → (g < 100002)%Z.
Proof.
  split; [vm_compute; eauto|].
  pose proof (ray_observation_bounded 2 1 "h" "t" seeded_db ltac:(lia) ltac:(lia)) as H.
  destruct (try_acquire_ray_observation "h" "t" 1 seeded_db) as [[[l|]|ex] db'] eqn:E.
  - apply H. intros g Hg. change (gpu_leases seeded_db) with (∅ : gmap Z gpu_row) in Hg.
    rewrite lookup_empty in Hg. by destruct Hg.
  - vm_compute in E. discriminate.
  - vm_compute in E. discriminate.
Defined.

Lemma parse_device_list_plain_witness :
  parse_device_list (PStr "4, 05;GPU-a1b2,-1,5") = [4; 5]%Z ∧
  NoDup (parse_device_list (PStr "4, 05;GPU-a1b2,-1,5")).
Proof.
  split; [vm_compute; reflexivity|]. apply parse_device_list_plain.
  apply Forall_forall. intros tok Ht.
  assert (tok ∈ ["4"; "05"; "GPU-a1b2"; "-1"; "5"]) as H by exact Ht. clear Ht.
  repeat (apply elem_of_cons in H as [->|H]; [vm_compute; auto|]). by apply not_elem_of_nil in H.
Defined.
