(* ===== verification/Tasks.v ===== *)
(** * The task registry ([state/task_registry.py], [state/task_states.py])

    Delegated tasks: creation under an idempotency key, the state machine with its history, progress
    notes, dispatch evidence, bulk cancellation and the reclaim of tasks whose process died.  The
    history column is the audit log the states are derived from: the main invariant replays it.

    A SELECT without ORDER BY lists the table in rowid order; the theorems about the lists an
    operation returns speak of membership, which no query plan changes.  The trajectory record an
    operation emits after its commit is a write to the trace file, outside this database. *)

From stdpp Require Import base list strings gmap fin_maps sets sorting numbers pretty.
From Stdlib Require Import ZArith Lia.
From Stdlib Require String.
From S2P Require Import Prelude PyFloat PyVal PyTime Store Lanes.

(** ** Specs and dispatch evidence *)

Definition _MAX_PROGRESS_NOTES : nat := 120.
Definition _DISPATCH_CLASSES : list string := ["llm"; "coordinator"; "inline"].
Definition RETRY_KEY_ATTEMPTS : nat := 6.

Record TaskSpec := MkSpec {
  sp_kind : string;
  sp_params : list (string * json);
  sp_key : string;
  sp_lanes : option (list string);
  sp_ttl : Z;
  sp_task_id : option string;
  sp_class : option string;
  sp_origin : option (list (string * json))
}.

Definition spec_with_key (key : string) (s : TaskSpec) : TaskSpec :=
  MkSpec (sp_kind s) (sp_params s) key (sp_lanes s) (sp_ttl s) (sp_task_id s) (sp_class s) (sp_origin s).

Definition spec_with_origin (o : list (string * json)) (s : TaskSpec) : TaskSpec :=
  MkSpec (sp_kind s) (sp_params s) (sp_key s) (sp_lanes s) (sp_ttl s) (sp_task_id s) (sp_class s) (Some o).

Definition _validate_dispatch_class (dispatch_class : option string) : res unit :=
  match dispatch_class with
  | Some c => if decide (c ∈ _DISPATCH_CLASSES) then Ok ()
              else Raise (ValueError ("unknown dispatch_class: " +:+ repr_str c))
  | None => Ok ()
  end.

(** [str(x or "") or None] *)
Definition none_if_empty (s : string) : option string := if decide (s = EmptyString) then None else Some s.

Record dispatch_record := DispatchRecord {
  d_class : string;
  d_allowed : bool;
  d_denial : option string;
  d_phase : string;
  d_cycle : Z;
  d_tick : Z
}.

(** The first history entry that carries a dispatch class. *)
Definition dispatch_entry (history : list json) : option (list (string * json)) :=
  head (omap (λ entry, match entry with
                       | PDict d => if din "dispatch_class" d then Some d else None
                       | _ => None
                       end) history).

Definition task_dispatch_record (t : task) : res (option dispatch_record) :=
  match dispatch_entry (history t) with
  | None => mret None
  | Some entry =>
      let value := get_str "dispatch_class" entry in
      _ ← _validate_dispatch_class (Some value);
      let phase := py_upper (py_strip (get_str "phase" entry)) in
      match dget "macro_cycle" entry, dget "tick" entry with
      | Some cycle, Some tick =>
          if decide (phase = EmptyString) then mret None
          else
            cycle ← py_int cycle;
            tick ← py_int tick;
            mret (Some (DispatchRecord value (get_bool "allowed" entry)
                          (none_if_empty (get_str "denial_rule" entry)) phase cycle tick))
      | _, _ => mret None
      end
  end.

Definition task_dispatch_evidence (t : task) : res (option (string * bool * option string)) :=
  match dispatch_entry (history t) with
  | None => mret None
  | Some entry =>
      let value := get_str "dispatch_class" entry in
      _ ← _validate_dispatch_class (Some value);
      mret (Some (value, get_bool "allowed" entry, none_if_empty (get_str "denial_rule" entry)))
  end.

Definition task_dispatch_class (t : task) : res (option string) :=
  evidence ← task_dispatch_evidence t;
  mret (match evidence with Some (c, _, _) => Some c | None => None end).

(** The phase coordinates a task is created in. *)
Definition task_dispatch_origin (phase : string) (macro_cycle tick : Z) : list (string * json) :=
  [("phase", PStr (py_upper (py_strip phase))); ("macro_cycle", PInt macro_cycle); ("tick", PInt tick)].

(** [int(d.get(k, 0) or 0)] *)
Definition get_int (k : string) (d : list (string * json)) : res Z :=
  match dget k d with
  | Some v => if truthy v then py_int v else Ok 0%Z
  | None => Ok 0%Z
  end.

Definition _validated_dispatch_origin (origin : option (list (string * json)))
    : res (list (string * json)) :=
  match origin with
  | None => Raise (ValueError "dispatch_origin is required when dispatch_class is set")
  | Some origin =>
      let phase := py_upper (py_strip (get_str "phase" origin)) in
      cycle ← get_int "macro_cycle" origin;
      tick ← get_int "tick" origin;
      if decide (phase = EmptyString) then Raise (ValueError "dispatch_origin.phase is required")
      else if decide (cycle < 0 ∨ tick < 0)%Z then
        Raise (ValueError "dispatch_origin macro_cycle and tick must be non-negative")
      else mret [("phase", PStr phase); ("macro_cycle", PInt cycle); ("tick", PInt tick)]
  end.

Definition _validate_dispatch_reuse (t : task) (requested : option string) : res unit :=
  _ ← _validate_dispatch_class requested;
  match requested with
  | None => mret ()
  | Some r =>
      existing ← task_dispatch_class t;
      match existing with
      | None => mret ()
      | Some c => if decide (c = r) then mret ()
                  else Raise (ValueError ("idempotent task dispatch_class mismatch: existing=" +:+ repr_str c
                                +:+ ", requested=" +:+ repr_str r))
      end
  end.

(** ** Creating tasks *)

Definition find_by_idempotency_key (db : DB) (key : string) : option task :=
  snd <$> list_find (λ t, idempotency_key t = key) (tasks db).

(** The history a new row starts with. *)
Definition initial_history (e : env) (s : TaskSpec) : res (list json) :=
  _ ← _validate_dispatch_class (sp_class s);
  match sp_class s with
  | Some c =>
      origin ← _validated_dispatch_origin (sp_origin s);
      mret [PDict (dmerge
              (dmerge [("dispatch_class", PStr c); ("allowed", PBool true); ("denial_rule", PNone)] origin)
              [("ts", PStr (now_iso e))])]
  | None => mret []
  end.

Definition new_task (e : env) (s : TaskSpec) (hist : list json) : task :=
  Task (match sp_task_id s with
        | Some tid => if decide (tid = EmptyString) then uuid4_hex e else tid
        | None => uuid4_hex e
        end)
    (sp_kind s) Queued (sp_params s) (sp_key s) (default [] (sp_lanes s)) (sp_ttl s) hist
    (now_iso e) (now_iso e).

(** [INSERT INTO tasks], with its PRIMARY KEY and UNIQUE constraints. *)
Definition insert_task (t : task) : Tx DB unit :=
  db ← tx_get;
  if decide (task_id t ∈ task_id <$> tasks db) then tx_raise (IntegrityError "tasks.task_id")
  else if decide (idempotency_key t ∈ idempotency_key <$> tasks db) then
    tx_raise (IntegrityError "tasks.idempotency_key")
  else tx_modify (with_tasks (λ ts, ts ++ [t])).

Definition _insert_queued_task (e : env) (s : TaskSpec) : Tx DB task :=
  hist ← tx_lift (initial_history e s);
  let t := new_task e s hist in
  _ ← insert_task t;
  mret t.

Definition create_in_cursor (e : env) (s : TaskSpec) : Tx DB (task * bool) :=
  _ ← tx_lift (_validate_dispatch_class (sp_class s));
  db ← tx_get;
  match find_by_idempotency_key db (sp_key s) with
  | Some t =>
      _ ← tx_lift (_validate_dispatch_reuse t (sp_class s));
      if terminalb (t_state t) then
        tx_raise (TerminalTaskReuse ("idempotency key " +:+ repr_str (sp_key s)
          +:+ " already names a " +:+ state_str (t_state t) +:+ " task"))
      else mret (t, true)
  | None => t ← _insert_queued_task e s; mret (t, false)
  end.

(** The read half of [create_or_return_existing], before its transaction opens. *)
Definition create_lookup (s : TaskSpec) : Io DB (option task) :=
  _ ← io_lift (_validate_dispatch_class (sp_class s));
  existing ← io_gets (λ db, find_by_idempotency_key db (sp_key s));
  match existing with
  | Some t => _ ← io_lift (_validate_dispatch_reuse t (sp_class s)); mret (Some t)
  | None => mret None
  end.

(** A dispatched spec without an origin takes the provider's. *)
Definition complete_origin (provider : option (list (string * json))) (s : TaskSpec) : TaskSpec :=
  match sp_class s, sp_origin s, provider with
  | Some _, None, Some origin => spec_with_origin origin s
  | _, _, _ => s
  end.

(** Its write half: complete the origin, then insert in one transaction. *)
Definition create_insert (e : env) (provider : option (list (string * json))) (s : TaskSpec)
    : Io DB (task * bool) :=
  t ← transaction (_insert_queued_task e (complete_origin provider s));
  mret (t, false).

(** [provider] is what [dispatch_origin_provider()] gives, when the registry has one. *)
Definition create_or_return_existing (e : env) (provider : option (list (string * json))) (s : TaskSpec)
    : Io DB (task * bool) :=
  existing ← create_lookup s;
  match existing with
  | Some t => mret (t, true)
  | None => create_insert e provider s
  end.

(** The key of one attempt of [create_on_free_key]. *)
Definition retry_key (key : string) (attempt : nat) : string :=
  match attempt with 0 => key | _ => key +:+ "-retry" +:+ pretty attempt end.

Fixpoint free_key_loop (e : env) (provider : option (list (string * json))) (s : TaskSpec)
    (spent : task → bool) (attempts : list nat) : Io DB (option (task * bool)) :=
  match attempts with
  | [] => mret None
  | attempt :: rest =>
      '(t, was_existing) ← create_or_return_existing e provider (spec_with_key (retry_key (sp_key s) attempt) s);
      if negb (was_existing && spent t) then mret (Some (t, was_existing))
      else free_key_loop e provider s spent rest
  end.

Definition create_on_free_key (e : env) (provider : option (list (string * json))) (s : TaskSpec)
    (spent : task → bool) : Io DB (option (task * bool)) :=
  free_key_loop e provider s spent (seq 0 RETRY_KEY_ATTEMPTS).

(** ** Reading *)

Definition get (tid : string) : Io DB task := λ db,
  match find_task db tid with
  | Some t => (Ok t, db)
  | None => (Raise (TaskNotFound tid), db)
  end.

Definition find (db : DB) (tid k : string) : option task :=
  snd <$> list_find (λ t, task_id t = tid ∧ kind t = k) (tasks db).

(** [ORDER BY <column> ASC] *)
Definition by_created (a b : task) : Prop := str_le (created_at a) (created_at b).
Definition by_updated (a b : task) : Prop := str_le (updated_at a) (updated_at b).
#[global] Instance by_created_dec : RelDecision by_created.
Proof. intros a b. unfold by_created. apply _. Defined.
#[global] Instance by_updated_dec : RelDecision by_updated.
Proof. intros a b. unfold by_updated. apply _. Defined.

Definition in_state (st : task_state) (db : DB) : list task := filter (λ t, t_state t = st) (tasks db).
Definition queued (db : DB) : list task := merge_sort by_created (in_state Queued db).
Definition running (db : DB) : list task := merge_sort by_updated (in_state Running db).

Definition by_state (state : string) (db : DB) : res (list task) :=
  match state_of_str state with
  | Some st => mret (merge_sort by_updated (in_state st db))
  | None => Raise (ValueError ("unknown state: " +:+ repr_str state))
  end.

Definition with_key_prefix (k prefix : string) (db : DB) : list task :=
  merge_sort by_created
    (filter (λ t, kind t = k ∧ py_startswith prefix (idempotency_key t) = true) (tasks db)).

Definition queued_kind_counts_sync (db : DB) : list (string * nat) :=
  (λ k, (k, length (filter (λ t, kind t = k) (in_state Queued db))))
    <$> remove_dups (kind <$> in_state Queued db).

(** ** Changing tasks *)

(** [UPDATE tasks SET state=?, history=?, updated_at=? WHERE task_id=?] *)
Definition set_state (tid : string) (st : task_state) (hist : list json) (now : string)
    (ts : list task) : list task :=
  (λ t, if decide (task_id t = tid)
        then Task (task_id t) (kind t) st (params t) (idempotency_key t) (requires_lanes t)
               (lease_ttl_sec t) hist (created_at t) now
        else t) <$> ts.

(** [UPDATE tasks SET history=? WHERE task_id=?] *)
Definition set_history (tid : string) (hist : list json) (ts : list task) : list task :=
  (λ t, if decide (task_id t = tid)
        then Task (task_id t) (kind t) (t_state t) (params t) (idempotency_key t) (requires_lanes t)
               (lease_ttl_sec t) hist (created_at t) (updated_at t)
        else t) <$> ts.

(** [UPDATE tasks SET lease_ttl_sec=? WHERE task_id=?] *)
Definition set_ttl (tid : string) (ttl : Z) (ts : list task) : list task :=
  (λ t, if decide (task_id t = tid)
        then Task (task_id t) (kind t) (t_state t) (params t) (idempotency_key t) (requires_lanes t)
               ttl (history t) (created_at t) (updated_at t)
        else t) <$> ts.

(** The history entry of a state change. *)
Definition transition_entry (from to : task_state) (now : string) (evidence : list (string * json)) : json :=
  PDict [("from", PStr (state_str from)); ("to", PStr (state_str to)); ("ts", PStr now);
         ("evidence", PDict evidence)].

Definition illegal_transition (tid : string) (from to : task_state) : exn :=
  IllegalTransition ("cannot transition " +:+ repr_str tid +:+ " from " +:+ repr_str (state_str from)
                       +:+ " to " +:+ repr_str (state_str to)).

Definition transition (e : env) (tid new_state : string) (evidence : list (string * json)) : Io DB task :=
  match state_of_str new_state with
  | None => io_raise (ValueError ("unknown state: " +:+ repr_str new_state))
  | Some st =>
      _ ← transaction (
        db ← tx_get;
        match find_task db tid with
        | None => tx_raise (TaskNotFound tid)
        | Some t =>
            if decide (st ∈ TRANSITIONS (t_state t)) then
              tx_modify (with_tasks (set_state tid st
                (history t ++ [transition_entry (t_state t) st (now_iso e) evidence]) (now_iso e)))
            else tx_raise (illegal_transition tid (t_state t) st)
        end);
      get tid
  end.

Definition _is_progress_note (entry : json) : bool :=
  match entry with PDict d => din "progress" d | _ => false end.

(** The second pass of [_drop_oldest_progress_notes]. *)
Fixpoint drop_notes (surplus : nat) (hist : list json) : list json :=
  match hist with
  | [] => []
  | entry :: rest =>
      match surplus with
      | S surplus' => if _is_progress_note entry then drop_notes surplus' rest
                      else entry :: drop_notes surplus rest
      | 0 => entry :: drop_notes 0 rest
      end
  end.

Definition notes_of (hist : list json) : list json := filter (λ x, _is_progress_note x = true) hist.

Definition _drop_oldest_progress_notes (hist : list json) (keep : nat) : list json :=
  if (length (notes_of hist) <=? keep)%nat then hist
  else drop_notes (length (notes_of hist) - keep) hist.

Definition progress_entry (now : string) (note : list (string * json)) : json :=
  PDict [("progress", PDict note); ("ts", PStr now)].

Definition record_progress (e : env) (tid : string) (note : list (string * json)) : Io DB unit :=
  transaction (
    db ← tx_get;
    match find_task db tid with
    | None => mret ()
    | Some t =>
        tx_modify (with_tasks (set_history tid
          (_drop_oldest_progress_notes (history t ++ [progress_entry (now_iso e) note]) _MAX_PROGRESS_NOTES)))
    end).

Definition completion_entry (now : string) (evidence : list (string * json)) : json :=
  PDict [("ts", PStr now); ("evidence", PDict evidence)].

Definition append_completion_evidence (e : env) (tid : string) (evidence : list (string * json))
    : Io DB unit :=
  transaction (
    db ← tx_get;
    match find_task db tid with
    | None => tx_raise (TypeError "'NoneType' object is not subscriptable")
    | Some t => tx_modify (with_tasks (set_history tid (history t ++ [completion_entry (now_iso e) evidence])))
    end).

Definition extend_lease (tid : string) (extra_sec : Z) : Io DB Z :=
  transaction (
    db ← tx_get;
    match find_task db tid with
    | None => tx_raise (TaskNotFound tid)
    | Some t =>
        if decide (t_state t = Running) then
          let new_ttl := (lease_ttl_sec t + Z.max 0 extra_sec)%Z in
          _ ← tx_modify (with_tasks (set_ttl tid new_ttl));
          mret new_ttl
        else tx_raise (IllegalTransition ("cannot extend lease of " +:+ repr_str tid +:+ " in state "
                                            +:+ repr_str (state_str (t_state t))))
    end).

(** ** Bulk operations *)

Definition _cancel_queued_row (now reason : string) (ts : list task) (t : task) : list task :=
  set_state (task_id t) Cancelled
    (history t ++ [transition_entry Queued Cancelled now [("reason", PStr reason)]]) now ts.

(** [{s.strip() for s in xs if s.strip()}] *)
Definition stripped_set (xs : list string) : list string :=
  filter (λ s, s ≠ EmptyString) (py_strip <$> xs).

Definition cancel_family (e : env) (family_kinds : list string) (reason : string) (exclude : list string)
    : Io DB (list string) :=
  if decide (family_kinds = []) then mret []
  else
    transaction (
      db ← tx_get;
      let rows := filter (λ t, kind t ∈ family_kinds) (in_state Queued db) in
      let cancelled := filter (λ t, py_strip (task_id t) ∉ stripped_set exclude) rows in
      _ ← tx_modify (with_tasks (λ ts, foldl (_cancel_queued_row (now_iso e) reason) ts cancelled));
      mret (task_id <$> cancelled)).

Definition cancel_if_queued (e : env) (tid k reason : string) : Io DB bool :=
  transaction (
    db ← tx_get;
    match list_find (λ t, task_id t = tid ∧ kind t = k ∧ t_state t = Queued) (tasks db) with
    | None => mret false
    | Some (_, t) =>
        _ ← tx_modify (with_tasks (λ ts, _cancel_queued_row (now_iso e) reason ts t));
        mret true
    end).

Definition cancel_queued (e : env) (allowed_kinds : list string) (reason : string) : Io DB (list string) :=
  transaction (
    db ← tx_get;
    let cancelled := filter (λ t, py_strip (kind t) ∉ stripped_set allowed_kinds) (in_state Queued db) in
    _ ← tx_modify (with_tasks (λ ts, foldl (_cancel_queued_row (now_iso e) reason) ts cancelled));
    mret (task_id <$> cancelled)).

(** The lane rows of a task that record a process. *)
Definition holder_rows (db : DB) (tid : string) : list lease_row :=
  filter (λ r, l_task r = tid ∧ (0 < l_pid r)%Z) (leases db).

Definition fail_dead_row (now reason : string) (ts : list task) (p : task * Z) : list task :=
  set_state (task_id p.1) Failed
    (history p.1 ++ [transition_entry Running Failed now [("reason", PStr reason); ("dead_pid", PInt p.2)]])
    now ts.

(** A running task with process rows, all of them dead; and the first one's pid. *)
Definition dead_running (e : env) (db : DB) (t : task) : option (task * Z) :=
  match holder_rows db (task_id t) with
  | [] => None
  | row :: rows => if forallb (holder_is_dead e) (row :: rows) then Some (t, l_pid row) else None
  end.

Definition reclaim_dead_running (e : env) (reason : string) : Io DB (list string) :=
  transaction (
    db ← tx_get;
    let reclaimed := omap (dead_running e db) (in_state Running db) in
    _ ← tx_modify (with_tasks (λ ts, foldl (fail_dead_row (now_iso e) reason) ts reclaimed));
    mret ((λ p, task_id p.1) <$> reclaimed)).

(** * Properties *)

(** ** What one operation does to one row *)

Definition with_history (hist : list json) (t : task) : task :=
  Task (task_id t) (kind t) (t_state t) (params t) (idempotency_key t) (requires_lanes t)
    (lease_ttl_sec t) hist (created_at t) (updated_at t).

Definition with_ttl (ttl : Z) (t : task) : task :=
  Task (task_id t) (kind t) (t_state t) (params t) (idempotency_key t) (requires_lanes t)
    ttl (history t) (created_at t) (updated_at t).

(** The row after a state change. *)
Definition moved (st : task_state) (now : string) (evidence : list (string * json)) (t : task) : task :=
  Task (task_id t) (kind t) st (params t) (idempotency_key t) (requires_lanes t) (lease_ttl_sec t)
    (history t ++ [transition_entry (t_state t) st now evidence]) (created_at t) now.

Definition noted (now : string) (note : list (string * json)) (t : task) : task :=
  with_history (_drop_oldest_progress_notes (history t ++ [progress_entry now note]) _MAX_PROGRESS_NOTES) t.

Definition completed (now : string) (evidence : list (string * json)) (t : task) : task :=
  with_history (history t ++ [completion_entry now evidence]) t.

Inductive row_step (t : task) : task → Prop :=
| row_same : row_step t t
| row_moved st now evidence : st ∈ TRANSITIONS (t_state t) → row_step t (moved st now evidence t)
| row_noted now note : row_step t (noted now note t)
| row_completed now evidence : row_step t (completed now evidence t)
| row_ttl ttl : row_step t (with_ttl ttl t).

Lemma row_step_id t t' : row_step t t' → task_id t' = task_id t.
Proof. by destruct 1. Qed.

Lemma row_step_key t t' : row_step t t' → idempotency_key t' = idempotency_key t.
Proof. by destruct 1. Qed.

(** ** Finding rows *)

Lemma find_task_Some db tid t : find_task db tid = Some t → t ∈ tasks db ∧ task_id t = tid.
Proof.
  unfold find_task. destruct (list_find _ _) as [[i t']|] eqn:E; simpl; [|done]. intros [= <-].
  apply list_find_Some in E as (Hl & Ht & _). split; [|done]. by eapply list_elem_of_lookup_2.
Qed.

Lemma find_task_None db tid : find_task db tid = None ↔ tid ∉ task_id <$> tasks db.
Proof.
  unfold find_task. rewrite fmap_None, list_find_None, Forall_forall, list_elem_of_fmap. naive_solver.
Qed.

Lemma find_task_elem db t : NoDup (task_id <$> tasks db) → t ∈ tasks db → find_task db (task_id t) = Some t.
Proof.
  intros Hnd Ht. destruct (find_task db (task_id t)) as [t'|] eqn:E.
  - apply find_task_Some in E as [Ht' Hid]. f_equal. by eapply (NoDup_key_inj task_id).
  - apply find_task_None in E. exfalso. apply E. by apply list_elem_of_fmap_2.
Qed.

Lemma list_find_fmap_ext {A} (P : A → Prop) `{∀ x, Decision (P x)} (f : A → A) l :
  (∀ x, x ∈ l → P (f x) ↔ P x) → snd <$> list_find P (f <$> l) = f <$> (snd <$> list_find P l).
Proof.
  induction l as [|x l IH]; intros Hf; [done|]. rewrite fmap_cons. simpl.
  destruct (decide (P x)) as [Hx|Hx].
  - by rewrite decide_True by (apply Hf; [left|done]).
  - rewrite decide_False by (rewrite Hf; [done|left]).
    specialize (IH ltac:(intros y Hy; apply Hf; by right)).
    destruct (list_find P l) as [[]|], (list_find P (f <$> l)) as [[]|]; simpl in *; congruence.
Qed.

Lemma find_task_update db f tid :
  (∀ t, t ∈ tasks db → task_id (f t) = task_id t) →
  find_task (with_tasks (fmap f) db) tid = f <$> find_task db tid.
Proof.
  intros Hf. unfold find_task. simpl. apply list_find_fmap_ext. intros t Ht. by rewrite Hf.
Qed.

Lemma find_key_Some db k t : find_by_idempotency_key db k = Some t → t ∈ tasks db ∧ idempotency_key t = k.
Proof.
  unfold find_by_idempotency_key. destruct (list_find _ _) as [[i t']|] eqn:E; simpl; [|done]. intros [= <-].
  apply list_find_Some in E as (Hl & Ht & _). split; [|done]. by eapply list_elem_of_lookup_2.
Qed.

Lemma find_key_None db k : find_by_idempotency_key db k = None ↔ k ∉ idempotency_key <$> tasks db.
Proof.
  unfold find_by_idempotency_key. rewrite fmap_None, list_find_None, Forall_forall, list_elem_of_fmap.
  naive_solver.
Qed.

Lemma find_key_elem db t :
  NoDup (idempotency_key <$> tasks db) → t ∈ tasks db →
  find_by_idempotency_key db (idempotency_key t) = Some t.
Proof.
  intros Hnd Ht. destruct (find_by_idempotency_key db _) as [t'|] eqn:E.
  - apply find_key_Some in E as [Ht' Hid]. f_equal. by eapply (NoDup_key_inj idempotency_key).
  - apply find_key_None in E. exfalso. apply E. by apply list_elem_of_fmap_2.
Qed.

(** ** Updates of the table *)

Lemma set_state_moved db tid st t now ev :
  NoDup (task_id <$> tasks db) → find_task db tid = Some t →
  set_state tid st (history t ++ [transition_entry (t_state t) st now ev]) now (tasks db)
  = (λ t', if decide (task_id t' = tid) then moved st now ev t' else t') <$> tasks db.
Proof.
  intros Hnd [Ht <-]%find_task_Some. apply list_fmap_ext. intros i t' Hl%list_elem_of_lookup_2.
  case_decide as E; [|done]. by rewrite (NoDup_key_inj task_id _ _ _ Hnd Hl Ht E).
Qed.

Lemma set_history_eq db tid (h : list json → list json) t :
  NoDup (task_id <$> tasks db) → find_task db tid = Some t →
  set_history tid (h (history t)) (tasks db)
  = (λ t', if decide (task_id t' = tid) then with_history (h (history t')) t' else t') <$> tasks db.
Proof.
  intros Hnd [Ht <-]%find_task_Some. apply list_fmap_ext. intros i t' Hl%list_elem_of_lookup_2.
  case_decide as E; [|done]. by rewrite (NoDup_key_inj task_id _ _ _ Hnd Hl Ht E).
Qed.

(** A bulk UPDATE, one row at a time, is one pass over the table. *)
Lemma foldl_update_rows {X} (row : X → task) (G : task → task) (h : X → task → task)
    (step : list task → X → list task) :
  (∀ t, task_id (G t) = task_id t) →
  (∀ ts x, step ts x = (λ t', if decide (task_id t' = task_id (row x)) then h x t' else t') <$> ts) →
  ∀ (sel : list X) ts,
    (∀ x, x ∈ sel → h x (row x) = G (row x)) →
    NoDup (task_id <$> ts) → NoDup (task_id <$> (row <$> sel)) → (∀ x, x ∈ sel → row x ∈ ts) →
    foldl step ts sel = (λ t, if decide (task_id t ∈ task_id <$> (row <$> sel)) then G t else t) <$> ts.
Proof.
  intros HG Hstep. induction sel as [|x sel IH]; intros ts Hh Hnd Hns Hin; simpl.
  { rewrite <- (list_fmap_id ts) at 1. apply list_fmap_ext. intros i t _. done. }
  rewrite !fmap_cons, NoDup_cons in Hns. destruct Hns as [Hx Hns].
  assert (row x ∈ ts) as Hrx by (apply Hin; left).
  assert (step ts x = (λ t', if decide (task_id t' = task_id (row x)) then G t' else t') <$> ts) as ->.
  { rewrite Hstep. apply list_fmap_ext. intros i t' Ht'%list_elem_of_lookup_2. case_decide as E; [|done].
    rewrite (NoDup_key_inj task_id _ _ _ Hnd Ht' Hrx E). apply Hh. left. }
  rewrite IH; clear IH.
  - rewrite <- list_fmap_compose. apply list_fmap_ext. intros i t Ht%list_elem_of_lookup_2. simpl.
    destruct (decide (task_id t = task_id (row x))) as [E|E].
    + rewrite HG, E. rewrite decide_False by done. by rewrite decide_True by left.
    + apply decide_ext. rewrite elem_of_cons. tauto.
  - intros y Hy. apply Hh. by right.
  - rewrite key_fmap_update; [done|]. intros t. by case_decide.
  - done.
  - intros y Hy. apply list_elem_of_fmap. exists (row y). split; [|apply Hin; by right].
    rewrite decide_False; [done|]. intros E. apply Hx. rewrite <- E.
    by apply list_elem_of_fmap_2, list_elem_of_fmap_2.
Qed.

(** Where ids are unique, being among the ids of the selected rows is being selected. *)
Lemma selected_ids (P : task → Prop) `{∀ t, Decision (P t)} ts t :
  NoDup (task_id <$> ts) → t ∈ ts → task_id t ∈ task_id <$> filter P ts ↔ P t.
Proof.
  intros Hnd Ht. rewrite list_elem_of_fmap. setoid_rewrite list_elem_of_filter. split; [|by eauto].
  intros (t' & E & HP & Ht'). by rewrite (NoDup_key_inj task_id _ _ _ Hnd Ht Ht' E).
Qed.

(** The same for rows chosen by a predicate. *)
Lemma foldl_update_filter (P : task → Prop) `{∀ t, Decision (P t)} (G : task → task)
    (h : task → task → task) (step : list task → task → list task) ts :
  (∀ t, task_id (G t) = task_id t) →
  (∀ ts x, step ts x = (λ t', if decide (task_id t' = task_id x) then h x t' else t') <$> ts) →
  (∀ t, P t → h t t = G t) →
  NoDup (task_id <$> ts) →
  foldl step ts (filter P ts) = (λ t, if decide (P t) then G t else t) <$> ts.
Proof.
  intros HG Hstep Hh Hnd.
  rewrite (foldl_update_rows id G h step HG Hstep).
  - apply list_fmap_ext. intros i t Ht%list_elem_of_lookup_2. rewrite list_fmap_id. apply decide_ext.
    by apply selected_ids.
  - intros t [HP _]%list_elem_of_filter. by apply Hh.
  - done.
  - rewrite list_fmap_id. by apply NoDup_key_filter.
  - intros t [_ ?]%list_elem_of_filter. done.
Qed.

(** ** The operations as updates of the table *)

Lemma transition_eq e tid new_state st evidence t db :
  NoDup (task_id <$> tasks db) → state_of_str new_state = Some st →
  find_task db tid = Some t → st ∈ TRANSITIONS (t_state t) →
  transition e tid new_state evidence db =
    (Ok (moved st (now_iso e) evidence t),
     with_tasks (fmap (λ t', if decide (task_id t' = tid) then moved st (now_iso e) evidence t' else t')) db).
Proof.
  intros Hnd Hst Hf Htr. unfold transition. rewrite Hst.
  unfold transaction, tx_get, mbind, io_bind, tx_bind. rewrite Hf, decide_True by done.
  unfold tx_modify, with_tasks at 1. rewrite (set_state_moved _ _ _ _ _ _ Hnd Hf).
  fold (with_tasks (fmap (λ t', if decide (task_id t' = tid) then moved st (now_iso e) evidence t' else t')) db).
  unfold get. rewrite find_task_update, Hf by (intros t' _; by case_decide). simpl.
  apply find_task_Some in Hf as [_ Hid]. by rewrite decide_True.
Qed.

Lemma transition_result e tid new_state evidence db :
  NoDup (task_id <$> tasks db) →
  (∃ exn, transition e tid new_state evidence db = (Raise exn, db)) ∨
  ∃ st t, find_task db tid = Some t ∧ st ∈ TRANSITIONS (t_state t) ∧ state_of_str new_state = Some st ∧
    transition e tid new_state evidence db =
      (Ok (moved st (now_iso e) evidence t),
       with_tasks (fmap (λ t', if decide (task_id t' = tid) then moved st (now_iso e) evidence t' else t')) db).
Proof.
  intros Hnd. destruct (state_of_str new_state) as [st|] eqn:Hst.
  2:{ left. unfold transition. rewrite Hst. eexists. done. }
  destruct (find_task db tid) as [t|] eqn:Hf.
  2:{ left. unfold transition, transaction, mbind, io_bind, tx_bind, tx_get. rewrite Hst, Hf. eexists. done. }
  destruct (decide (st ∈ TRANSITIONS (t_state t))) as [Htr|Htr].
  - right. exists st, t. split_and!; [done..|]. by apply transition_eq.
  - left. unfold transition, transaction, mbind, io_bind, tx_bind, tx_get.
    rewrite Hst, Hf, decide_False by done. eexists. done.
Qed.

Lemma with_tasks_same f db : f <$> tasks db = tasks db → with_tasks (fmap f) db = db.
Proof. unfold with_tasks. intros ->. by destruct db. Qed.

Lemma record_progress_eq e tid note db :
  NoDup (task_id <$> tasks db) →
  record_progress e tid note db =
    (Ok (), with_tasks (fmap (λ t', if decide (task_id t' = tid) then noted (now_iso e) note t' else t')) db).
Proof.
  intros Hnd. unfold record_progress, transaction, mbind, tx_bind, tx_get.
  destruct (find_task db tid) as [t|] eqn:Hf.
  - unfold tx_modify, with_tasks. f_equal. f_equal.
    apply (set_history_eq _ _ (λ h, _drop_oldest_progress_notes (h ++ _) _) _ Hnd Hf).
  - rewrite with_tasks_same; [done|]. apply find_task_None in Hf. etrans; [|apply list_fmap_id].
    apply list_fmap_ext. intros i t Ht%list_elem_of_lookup_2. simpl. rewrite decide_False; [done|].
    intros <-. by apply Hf, list_elem_of_fmap_2.
Qed.

Lemma append_completion_result e tid evidence db :
  NoDup (task_id <$> tasks db) →
  (∃ exn, append_completion_evidence e tid evidence db = (Raise exn, db)) ∨
  append_completion_evidence e tid evidence db =
    (Ok (), with_tasks (fmap (λ t', if decide (task_id t' = tid) then completed (now_iso e) evidence t' else t')) db).
Proof.
  intros Hnd. unfold append_completion_evidence, transaction, mbind, tx_bind, tx_get.
  destruct (find_task db tid) as [t|] eqn:Hf; [right|left; by eexists].
  unfold tx_modify, with_tasks. f_equal. f_equal.
  apply (set_history_eq _ _ (λ h, h ++ _) _ Hnd Hf).
Qed.

Lemma extend_lease_result tid extra db :
  (∃ exn, extend_lease tid extra db = (Raise exn, db)) ∨
  ∃ ttl, extend_lease tid extra db =
    (Ok ttl, with_tasks (fmap (λ t', if decide (task_id t' = tid) then with_ttl ttl t' else t')) db).
Proof.
  unfold extend_lease, transaction, mbind, tx_bind, tx_get.
  destruct (find_task db tid) as [t|]; [|left; by eexists].
  case_decide; [right|left; by eexists]. by eexists.
Qed.

(** The queued rows a bulk cancel selects. *)
Definition cancel_rows (P : task → Prop) `{∀ t, Decision (P t)} (e : env) (reason : string)
    (t : task) : task :=
  if decide (P t) then moved Cancelled (now_iso e) [("reason", PStr reason)] t else t.

Lemma foldl_cancel (P : task → Prop) `{∀ t, Decision (P t)} e reason ts :
  (∀ t, P t → t_state t = Queued) → NoDup (task_id <$> ts) →
  foldl (_cancel_queued_row (now_iso e) reason) ts (filter P ts) = cancel_rows P e reason <$> ts.
Proof.
  intros HP Hnd. unfold cancel_rows.
  apply (foldl_update_filter P (moved Cancelled (now_iso e) [("reason", PStr reason)])
    (λ x t', Task (task_id t') (kind t') Cancelled (params t') (idempotency_key t') (requires_lanes t')
       (lease_ttl_sec t') (history x ++ [transition_entry Queued Cancelled (now_iso e) [("reason", PStr reason)]])
       (created_at t') (now_iso e))); [done|done| |done].
  intros t Ht. unfold moved. by rewrite (HP t Ht).
Qed.

Definition family_doomed (kinds exclude : list string) (t : task) : Prop :=
  t_state t = Queued ∧ kind t ∈ kinds ∧ py_strip (task_id t) ∉ stripped_set exclude.
Definition phase_doomed (allowed : list string) (t : task) : Prop :=
  t_state t = Queued ∧ py_strip (kind t) ∉ stripped_set allowed.
#[global] Instance family_doomed_dec kinds exclude t : Decision (family_doomed kinds exclude t).
Proof. unfold family_doomed. apply _. Defined.
#[global] Instance phase_doomed_dec allowed t : Decision (phase_doomed allowed t).
Proof. unfold phase_doomed. apply _. Defined.

Lemma cancel_family_eq e kinds reason exclude db :
  NoDup (task_id <$> tasks db) → kinds ≠ [] →
  cancel_family e kinds reason exclude db =
    (Ok (task_id <$> filter (family_doomed kinds exclude) (tasks db)),
     with_tasks (fmap (cancel_rows (family_doomed kinds exclude) e reason)) db).
Proof.
  intros Hnd Hne. unfold cancel_family. rewrite decide_False by done.
  unfold transaction, mbind, tx_bind, tx_get, tx_modify. unfold in_state. rewrite !list_filter_filter.
  assert (filter (λ t, (py_strip (task_id t) ∉ stripped_set exclude) ∧ kind t ∈ kinds ∧ t_state t = Queued) (tasks db)
    = filter (family_doomed kinds exclude) (tasks db)) as Hf.
  { apply list_filter_iff. unfold family_doomed. naive_solver. }
  rewrite <- Hf. f_equal; [f_equal; f_equal; apply list_filter_iff; naive_solver|].
  unfold with_tasks. f_equal. rewrite <- foldl_cancel; [|by intros ? [? _]|done].
  f_equal. rewrite <- Hf. apply list_filter_iff. naive_solver.
Qed.

Lemma cancel_queued_eq e allowed reason db :
  NoDup (task_id <$> tasks db) →
  cancel_queued e allowed reason db =
    (Ok (task_id <$> filter (phase_doomed allowed) (tasks db)),
     with_tasks (fmap (cancel_rows (phase_doomed allowed) e reason)) db).
Proof.
  intros Hnd. unfold cancel_queued, transaction, mbind, tx_bind, tx_get, tx_modify.
  unfold in_state. rewrite !list_filter_filter.
  assert (filter (λ t, (py_strip (kind t) ∉ stripped_set allowed) ∧ t_state t = Queued) (tasks db)
    = filter (phase_doomed allowed) (tasks db)) as ->.
  { apply list_filter_iff. unfold phase_doomed. naive_solver. }
  f_equal. unfold with_tasks. f_equal. apply foldl_cancel; [by intros ? [? _]|done].
Qed.

Lemma cancel_if_queued_result e tid k reason db :
  NoDup (task_id <$> tasks db) →
  cancel_if_queued e tid k reason db = (Ok false, db) ∨
  cancel_if_queued e tid k reason db =
    (Ok true, with_tasks (fmap (cancel_rows (λ t, task_id t = tid ∧ kind t = k ∧ t_state t = Queued) e reason)) db).
Proof.
  intros Hnd. unfold cancel_if_queued, transaction, mbind, tx_bind, tx_get.
  destruct (list_find _ _) as [[i t]|] eqn:E; [right|by left].
  unfold tx_modify, with_tasks. f_equal. f_equal. unfold cancel_rows, _cancel_queued_row, set_state.
  apply list_find_Some in E as (Hl & (Hid & Hk & Hq) & _). apply list_elem_of_lookup_2 in Hl.
  apply list_fmap_ext. intros j t' Ht'%list_elem_of_lookup_2. rewrite Hid.
  destruct (decide (task_id t' = tid)) as [Hid'|Hid'].
  - assert (t' = t) as -> by (apply (NoDup_key_inj task_id _ _ _ Hnd Ht' Hl); congruence).
    rewrite decide_True by done. unfold moved. by rewrite Hq.
  - by rewrite decide_False by tauto.
Qed.

Definition reclaim_rows (e : env) (db : DB) (reason : string) (t : task) : task :=
  if decide (t_state t = Running) then
    match dead_running e db t with
    | Some (_, pid) => moved Failed (now_iso e) [("reason", PStr reason); ("dead_pid", PInt pid)] t
    | None => t
    end
  else t.

Lemma dead_running_row e db t p : dead_running e db t = Some p → p.1 = t.
Proof. unfold dead_running. by repeat case_match; intros; simplify_eq. Qed.

Lemma reclaim_selected e db (ts : list task) :
  fst <$> omap (dead_running e db) ts = filter (λ t, is_Some (dead_running e db t)) ts.
Proof.
  induction ts as [|t ts IH]; [done|]. rewrite filter_cons. simpl.
  destruct (dead_running e db t) as [p|] eqn:E; simpl.
  - rewrite (dead_running_row _ _ _ _ E). f_equal. exact IH.
  - exact IH.
Qed.

Lemma reclaim_dead_running_eq e reason db :
  NoDup (task_id <$> tasks db) →
  reclaim_dead_running e reason db =
    (Ok (task_id <$> filter (λ t, t_state t = Running ∧ is_Some (dead_running e db t)) (tasks db)),
     with_tasks (fmap (reclaim_rows e db reason)) db).
Proof.
  intros Hnd. unfold reclaim_dead_running, transaction, mbind, tx_bind, tx_get, tx_modify.
  set (sel := omap (dead_running e db) (in_state Running db)).
  assert (fst <$> sel = filter (λ t, t_state t = Running ∧ is_Some (dead_running e db t)) (tasks db)) as Hsel.
  { unfold sel. rewrite reclaim_selected. unfold in_state. rewrite list_filter_filter.
    apply list_filter_iff. tauto. }
  assert ((λ p : task * Z, task_id p.1) <$> sel = task_id <$> (fst <$> sel)) as -> by apply (list_fmap_compose fst task_id).
  rewrite Hsel. f_equal. unfold with_tasks. f_equal.
  rewrite (foldl_update_rows fst (reclaim_rows e db reason)
    (λ p t', Task (task_id t') (kind t') Failed (params t') (idempotency_key t') (requires_lanes t')
       (lease_ttl_sec t') (history p.1 ++ [transition_entry Running Failed (now_iso e)
          [("reason", PStr reason); ("dead_pid", PInt p.2)]]) (created_at t') (now_iso e))).
  - rewrite Hsel. apply list_fmap_ext. intros i t Ht%list_elem_of_lookup_2. case_decide as Hin; [done|].
    unfold reclaim_rows. case_decide; [|done]. destruct (dead_running e db t) as [[]|] eqn:E; [|done].
    exfalso. apply Hin. apply list_elem_of_fmap_2, list_elem_of_filter. eauto.
  - intros t. unfold reclaim_rows. case_decide; [|done]. by destruct (dead_running e db t) as [[]|].
  - done.
  - intros [t pid] (t' & Hd & Ht')%list_elem_of_omap. pose proof (dead_running_row _ _ _ _ Ht') as E.
    simpl in *. subst t'. apply list_elem_of_filter in Hd as [Hr _].
    unfold reclaim_rows. rewrite decide_True, Ht' by done. unfold moved. by rewrite Hr.
  - done.
  - rewrite Hsel. by apply NoDup_key_filter.
  - intros p Hp. assert (p.1 ∈ fst <$> sel) as Hin by (by apply list_elem_of_fmap_2).
    rewrite Hsel in Hin. by apply list_elem_of_filter in Hin as [_ ?].
Qed.

(** ** Registry operations *)

(** One operation of the registry, by any process; [rs_insert] is the write half of a creator whose
    lookup ran earlier, so that two creators may interleave. *)
Inductive registry_step (db : DB) : DB → Prop :=
| rs_create e provider s : registry_step db (create_or_return_existing e provider s db).2
| rs_insert e provider s : registry_step db (create_insert e provider s db).2
| rs_create_in_cursor e s : registry_step db (transaction (create_in_cursor e s) db).2
| rs_transition e tid st evidence : registry_step db (transition e tid st evidence db).2
| rs_progress e tid note : registry_step db (record_progress e tid note db).2
| rs_completion e tid evidence : registry_step db (append_completion_evidence e tid evidence db).2
| rs_extend tid extra : registry_step db (extend_lease tid extra db).2
| rs_cancel_family e kinds reason exclude : registry_step db (cancel_family e kinds reason exclude db).2
| rs_cancel_if_queued e tid k reason : registry_step db (cancel_if_queued e tid k reason db).2
| rs_cancel_queued e allowed reason : registry_step db (cancel_queued e allowed reason db).2
| rs_reclaim e reason : registry_step db (reclaim_dead_running e reason db).2
| rs_other db' : tasks db' = tasks db → registry_step db db'.

(** What any of them does to the table: each row takes a row step, or one fresh row is added. *)
Inductive table_step (db db' : DB) : Prop :=
| table_update f :
    tasks db' = f <$> tasks db → (∀ t, t ∈ tasks db → row_step t (f t)) → table_step db db'
| table_insert e s hist :
    initial_history e s = Ok hist → tasks db' = tasks db ++ [new_task e s hist] →
    task_id (new_task e s hist) ∉ task_id <$> tasks db → sp_key s ∉ idempotency_key <$> tasks db →
    table_step db db'.

Lemma table_refl db db' : tasks db' = tasks db → table_step db db'.
Proof. intros E. apply (table_update _ _ id); [by rewrite list_fmap_id|]. intros t _. constructor. Qed.

Lemma insert_queued_result e s db :
  (∃ exn, _insert_queued_task e s db = Raise exn) ∨
  ∃ hist, initial_history e s = Ok hist ∧
    task_id (new_task e s hist) ∉ task_id <$> tasks db ∧ sp_key s ∉ idempotency_key <$> tasks db ∧
    _insert_queued_task e s db
    = Ok (new_task e s hist, with_tasks (λ ts, ts ++ [new_task e s hist]) db).
Proof.
  unfold _insert_queued_task, mbind, tx_bind, tx_lift.
  destruct (initial_history e s) as [hist|exn]; [|left; by eexists].
  unfold insert_task, mbind, tx_bind, tx_get.
  case_decide; [left; by eexists|]. case_decide; [left; by eexists|]. right. exists hist. done.
Qed.

Lemma create_insert_result e provider s db :
  (∃ exn, create_insert e provider s db = (Raise exn, db)) ∨
  ∃ s' hist, sp_key s' = sp_key s ∧ initial_history e s' = Ok hist ∧
    task_id (new_task e s' hist) ∉ task_id <$> tasks db ∧ sp_key s ∉ idempotency_key <$> tasks db ∧
    create_insert e provider s db
    = (Ok (new_task e s' hist, false), with_tasks (λ ts, ts ++ [new_task e s' hist]) db).
Proof.
  unfold create_insert. set (s' := complete_origin provider s).
  assert (sp_key s' = sp_key s) as Hk by (unfold s', complete_origin; by repeat case_match).
  unfold mbind, io_bind, transaction.
  destruct (insert_queued_result e s' db) as [(exn & ->)|(hist & Hh & Hi & Hkey & ->)]; [left; by eexists|].
  right. exists s', hist. rewrite <- Hk at 2. done.
Qed.

Lemma create_insert_table e provider s db : table_step db (create_insert e provider s db).2.
Proof.
  destruct (create_insert_result e provider s db) as [(exn & ->)|(s' & hist & Hk & Hh & Hi & Hn & ->)].
  - by apply table_refl.
  - eapply (table_insert _ _ e s' hist); [done..|by rewrite Hk].
Qed.

Lemma create_lookup_db s db : (create_lookup s db).2 = db.
Proof.
  unfold create_lookup, io_lift, io_gets, mbind, io_bind.
  destruct (_validate_dispatch_class _); [|done].
  destruct (find_by_idempotency_key _ _) as [t|]; [|done].
  by destruct (_validate_dispatch_reuse t _).
Qed.

Lemma create_table e provider s db : table_step db (create_or_return_existing e provider s db).2.
Proof.
  unfold create_or_return_existing, mbind, io_bind. pose proof (create_lookup_db s db) as Hl.
  destruct (create_lookup s db) as [[[t|]|exn] db'] eqn:E; simpl in Hl; subst db';
    [by apply table_refl|apply create_insert_table|by apply table_refl].
Qed.

Lemma update_rows_table f db : (∀ t, t ∈ tasks db → row_step t (f t)) → table_step db (with_tasks (fmap f) db).
Proof. by apply table_update. Qed.

Lemma cancel_rows_step (P : task → Prop) `{∀ t, Decision (P t)} e reason t :
  (P t → t_state t = Queued) → row_step t (cancel_rows P e reason t).
Proof.
  intros HP. unfold cancel_rows. case_decide as Hp; [|constructor]. constructor. rewrite (HP Hp).
  right; left.
Qed.

Lemma registry_table db db' :
  NoDup (task_id <$> tasks db) → registry_step db db' → table_step db db'.
Proof.
  intros Hnd Hs. destruct Hs as [e p s|e p s|e s|e tid st ev|e tid note|e tid ev|tid extra
    |e kinds reason excl|e tid k reason|e allowed reason|e reason|db' E].
  - apply create_table.
  - apply create_insert_table.
  - unfold transaction, create_in_cursor, mbind, tx_bind, tx_lift, tx_get.
    destruct (_validate_dispatch_class _); [|by apply table_refl].
    destruct (find_by_idempotency_key _ _) as [t|].
    + destruct (_validate_dispatch_reuse t _); [|by apply table_refl].
      destruct (terminalb _); by apply table_refl.
    + destruct (insert_queued_result e s db) as [(exn & ->)|(hist & Hh & Hi & Hk & ->)]; [by apply table_refl|].
      by eapply (table_insert _ _ e s hist).
  - destruct (transition_result e tid st ev db Hnd) as [(exn & ->)|(st' & t & Hf & Htr & _ & ->)];
      [by apply table_refl|]. apply update_rows_table. intros t' Ht'. case_decide as E; [|constructor].
    constructor. apply find_task_Some in Hf as [Ht Hid].
    by rewrite (NoDup_key_inj task_id _ _ _ Hnd Ht' Ht ltac:(congruence)).
  - rewrite record_progress_eq by done. apply update_rows_table. intros t _. case_decide; constructor.
  - destruct (append_completion_result e tid ev db Hnd) as [(exn & Hr)|Hr]; rewrite Hr; [by apply table_refl|].
    apply update_rows_table. intros t _. case_decide; constructor.
  - destruct (extend_lease_result tid extra db) as [(exn & ->)|(ttl & ->)]; [by apply table_refl|].
    apply update_rows_table. intros t _. case_decide; constructor.
  - destruct (decide (kinds = [])) as [->|Hne]; [by apply table_refl|].
    rewrite cancel_family_eq by done. apply update_rows_table. intros t _.
    apply cancel_rows_step. by intros [? _].
  - destruct (cancel_if_queued_result e tid k reason db Hnd) as [-> | ->]; [by apply table_refl|].
    apply update_rows_table. intros t _. apply (cancel_rows_step _). by intros (_ & _ & ?).
  - rewrite cancel_queued_eq by done. apply update_rows_table. intros t _.
    apply cancel_rows_step. by intros [? _].
  - rewrite reclaim_dead_running_eq by done. apply update_rows_table. intros t _. unfold reclaim_rows.
    case_decide as Hr; [|constructor]. destruct (dead_running e db t) as [[]|]; constructor.
    rewrite Hr. right; left.
  - by apply table_refl.
Qed.

(** ** The history as an audit log *)

(** Replaying one entry: a state change must start at the current state and follow [TRANSITIONS]. *)
Definition replay_entry (st : task_state) (entry : json) : option task_state :=
  match entry with
  | PDict d =>
      match dget "from" d, dget "to" d with
      | None, _ => Some st
      | Some (PStr from), Some (PStr to) =>
          match state_of_str from, state_of_str to with
          | Some from, Some to => if decide (from = st ∧ to ∈ TRANSITIONS st) then Some to else None
          | _, _ => None
          end
      | _, _ => None
      end
  | _ => Some st
  end.

Fixpoint replay (st : task_state) (hist : list json) : option task_state :=
  match hist with
  | [] => Some st
  | entry :: rest => match replay_entry st entry with Some st' => replay st' rest | None => None end
  end.

(** The entries that are not progress notes. *)
Definition audit (hist : list json) : list json := filter (λ x, _is_progress_note x = false) hist.

Lemma replay_app st h1 h2 :
  replay st (h1 ++ h2) = match replay st h1 with Some st' => replay st' h2 | None => None end.
Proof.
  revert st. induction h1 as [|x h1 IH]; intros st; simpl; [done|]. by destruct (replay_entry st x).
Qed.

Lemma replay_transition from to now ev :
  to ∈ TRANSITIONS from → replay from [transition_entry from to now ev] = Some to.
Proof.
  intros H. destruct from, to; first [reflexivity|apply (bool_decide_eq_true_2 _) in H; discriminate].
Qed.

(** A progress note of a recorded history changes no state and names no dispatch class. *)
Definition note_shape (x : json) : Prop :=
  _is_progress_note x = true → (∀ st, replay_entry st x = Some st) ∧ dispatch_entry [x] = None.

Lemma replay_drop_notes n hist st :
  (∀ x, x ∈ hist → note_shape x) → replay st (drop_notes n hist) = replay st hist.
Proof.
  revert n st. induction hist as [|x hist IH]; intros n st Hs; [done|].
  assert (note_shape x) as Hx by (apply Hs; left).
  assert (∀ y, y ∈ hist → note_shape y) as Hs' by (intros y Hy; apply Hs; by right).
  simpl. destruct n as [|n]; simpl.
  - destruct (replay_entry st x); [by apply IH|done].
  - destruct (_is_progress_note x) eqn:E; simpl.
    + rewrite (proj1 (Hx E)). by apply IH.
    + destruct (replay_entry st x); [by apply IH|done].
Qed.

Lemma drop_notes_subset n hist x : x ∈ drop_notes n hist → x ∈ hist.
Proof.
  revert n. induction hist as [|y hist IH]; intros n; simpl; [done|].
  destruct n; [|destruct (_is_progress_note y)]; rewrite ?elem_of_cons; naive_solver.
Qed.

Lemma audit_drop_notes n hist : audit (drop_notes n hist) = audit hist.
Proof.
  revert n. unfold audit. induction hist as [|y hist IH]; intros n; [done|]. simpl drop_notes.
  destruct n as [|n]; [by rewrite !filter_cons, IH|].
  destruct (_is_progress_note y) eqn:E; rewrite !filter_cons, E; simpl; by rewrite IH.
Qed.

(** Dropping [n] notes drops the oldest [n]. *)
Lemma notes_drop_notes n hist : notes_of (drop_notes n hist) = drop n (notes_of hist).
Proof.
  revert n. unfold notes_of. induction hist as [|y hist IH]; intros n; simpl drop_notes; [by destruct n|].
  destruct n as [|n].
  - rewrite !filter_cons, IH. by rewrite !drop_0.
  - rewrite (filter_cons _ y hist). destruct (_is_progress_note y) eqn:E; simpl.
    + by rewrite IH.
    + by rewrite filter_cons, E, IH.
Qed.

Lemma drop_oldest_notes hist keep :
  notes_of (_drop_oldest_progress_notes hist keep)
  = drop (length (notes_of hist) - keep) (notes_of hist).
Proof.
  unfold _drop_oldest_progress_notes. destruct (Nat.leb_spec (length (notes_of hist)) keep).
  - by replace (_ - _)%nat with 0%nat by lia.
  - apply notes_drop_notes.
Qed.

Lemma drop_oldest_audit hist keep : audit (_drop_oldest_progress_notes hist keep) = audit hist.
Proof. unfold _drop_oldest_progress_notes. case_match; [done|apply audit_drop_notes]. Qed.

(** ** The registry invariant *)

(** A row whose state is what its history replays to, with bounded progress notes. *)
Record row_ok (t : task) : Prop := {
  ok_replay : replay Queued (history t) = Some (t_state t);
  ok_shape : ∀ x, x ∈ history t → note_shape x;
  ok_notes : (length (notes_of (history t)) <= _MAX_PROGRESS_NOTES)%nat
}.

Record task_inv (db : DB) : Prop := {
  ti_ids : NoDup (task_id <$> tasks db);
  ti_keys : NoDup (idempotency_key <$> tasks db);
  ti_rows : ∀ t, t ∈ tasks db → row_ok t
}.

Create HintDb tasks.
#[export] Hint Resolve ti_ids ti_keys ti_rows ok_replay ok_shape ok_notes : tasks.
#[export] Hint Constructors row_step table_step registry_step : tasks.

(** An entry that is no note keeps the notes and extends the audit log. *)
Lemma notes_app_other hist x : _is_progress_note x = false → notes_of (hist ++ [x]) = notes_of hist.
Proof.
  intros E. unfold notes_of. rewrite filter_app, (list_filter_none _ [x]), app_nil_r; [done|].
  intros y Hy%list_elem_of_singleton. subst. congruence.
Qed.

Lemma note_shape_other x : _is_progress_note x = false → note_shape x.
Proof. unfold note_shape. congruence. Qed.

Lemma row_ok_append t x st :
  row_ok t → _is_progress_note x = false → replay (t_state t) [x] = Some st →
  replay Queued (history t ++ [x]) = Some st ∧ (∀ y, y ∈ history t ++ [x] → note_shape y) ∧
  (length (notes_of (history t ++ [x])) <= _MAX_PROGRESS_NOTES)%nat.
Proof.
  intros [H1 H2 H3] Hx Hr. split_and!.
  - by rewrite replay_app, H1.
  - intros y [?| ->%list_elem_of_singleton]%elem_of_app; [auto|by apply note_shape_other].
  - by rewrite notes_app_other.
Qed.

Lemma row_ok_noted t now note : row_ok t → row_ok (noted now note t).
Proof.
  intros [H1 H2 H3]. set (h := history t ++ [progress_entry now note]).
  assert (∀ x, x ∈ h → note_shape x) as Hs.
  { intros x [?| ->%list_elem_of_singleton]%elem_of_app; [auto|]. by intros _. }
  assert (replay Queued h = Some (t_state t)) as Hr by (unfold h; rewrite replay_app, H1; done).
  split; simpl; fold h.
  - unfold _drop_oldest_progress_notes. case_match; [done|]. by rewrite replay_drop_notes.
  - intros x Hx. apply Hs. unfold _drop_oldest_progress_notes in Hx. case_match; [done|].
    by eapply drop_notes_subset.
  - rewrite drop_oldest_notes, length_drop. lia.
Qed.

Lemma row_ok_step t t' : row_ok t → row_step t t' → row_ok t'.
Proof.
  intros Hok Hs. destruct Hs as [|st now ev Htr|now note|now ev|ttl]; [done| |by apply row_ok_noted| |].
  - destruct (row_ok_append t (transition_entry (t_state t) st now ev) st Hok eq_refl
      (replay_transition _ _ _ _ Htr)) as (? & ? & ?). by split.
  - destruct (row_ok_append t (completion_entry now ev) (t_state t) Hok eq_refl eq_refl) as (? & ? & ?).
    by split.
  - destruct Hok as [? ? ?]. by split.
Qed.

Lemma upper_char_idemp c : upper_char (upper_char c) = upper_char c.
Proof. destruct c as [b0 b1 b2 b3 b4 b5 b6 b7]. by destruct b0, b1, b2, b3, b4, b5, b6, b7. Qed.

Lemma is_space_upper c : is_space (upper_char c) = is_space c.
Proof. destruct c as [b0 b1 b2 b3 b4 b5 b6 b7]. by destruct b0, b1, b2, b3, b4, b5, b6, b7. Qed.

Lemma py_upper_idemp s : py_upper (py_upper s) = py_upper s.
Proof.
  unfold py_upper, chars, of_chars. rewrite String.list_ascii_of_string_of_list_ascii.
  rewrite <- list_fmap_compose. f_equal. apply list_fmap_ext. intros. apply upper_char_idemp.
Qed.

Lemma drop_space_upper l : drop_space (upper_char <$> l) = upper_char <$> drop_space l.
Proof. induction l as [|c l IH]; [done|]. simpl. rewrite is_space_upper. by destruct (is_space c). Qed.

Lemma py_strip_upper s : py_strip (py_upper s) = py_upper (py_strip s).
Proof.
  unfold py_strip, py_upper, chars, of_chars. rewrite !String.list_ascii_of_string_of_list_ascii.
  by rewrite drop_space_upper, <- fmap_reverse, drop_space_upper, <- fmap_reverse.
Qed.

(** A phase name that was normalised once reads back as it is. *)
Lemma phase_normal p : py_upper (py_strip (py_upper (py_strip p))) = py_upper (py_strip p).
Proof. by rewrite py_strip_upper, py_strip_idemp, py_upper_idemp. Qed.

(** The entry a dispatched task starts with, key by key. *)
Lemma initial_history_Ok e s hist :
  initial_history e s = Ok hist →
  (sp_class s = None ∧ hist = []) ∨
  ∃ c phase cycle tick, sp_class s = Some c ∧ c ∈ _DISPATCH_CLASSES ∧
    _validated_dispatch_origin (sp_origin s)
    = Ok [("phase", PStr phase); ("macro_cycle", PInt cycle); ("tick", PInt tick)] ∧
    phase ≠ EmptyString ∧ py_upper (py_strip phase) = phase ∧
    hist = [PDict [("dispatch_class", PStr c); ("allowed", PBool true); ("denial_rule", PNone);
                   ("phase", PStr phase); ("macro_cycle", PInt cycle); ("tick", PInt tick);
                   ("ts", PStr (now_iso e))]].
Proof.
  unfold initial_history. destruct (sp_class s) as [c|]; [|intros [= <-]; by left]. simpl.
  case_decide as Hc; [|done]. unfold _validated_dispatch_origin. destruct (sp_origin s) as [o|]; [|done].
  destruct (get_int "macro_cycle" o) as [cycle|]; [|done]. simpl.
  destruct (get_int "tick" o) as [tick|]; [|done]. simpl.
  case_decide; [done|]. case_decide; [done|]. intros [= <-]. right.
  exists c, (py_upper (py_strip (get_str "phase" o))), cycle, tick. split_and!; try done. apply phase_normal.
Qed.

Lemma row_ok_new e s hist : initial_history e s = Ok hist → row_ok (new_task e s hist).
Proof.
  intros [[_ ->]|(c & phase & cycle & tick & _ & _ & _ & _ & _ & ->)]%initial_history_Ok; split; simpl; try done.
  - by intros x ?%not_elem_of_nil.
  - lia.
  - intros x ->%list_elem_of_singleton. by apply note_shape_other.
  - unfold notes_of, _MAX_PROGRESS_NOTES. simpl. lia.
Qed.

Lemma table_step_inv db db' : table_step db db' → task_inv db → task_inv db'.
Proof.
  intros Hs Hinv. destruct Hinv as [Hi Hk Hr]. destruct Hs as [f E Hf|e s hist Hh E Hid Hkey].
  - assert (∀ (g : task → string), (∀ t t', row_step t t' → g t' = g t) → g <$> tasks db' = g <$> tasks db) as Hg.
    { intros g Hg. rewrite E, <- list_fmap_compose. apply list_fmap_ext.
      intros i t Ht%list_elem_of_lookup_2. simpl. by apply Hg, Hf. }
    split.
    + by rewrite (Hg task_id row_step_id).
    + by rewrite (Hg idempotency_key row_step_key).
    + rewrite E. intros t (t0 & -> & Ht)%list_elem_of_fmap. eapply row_ok_step; eauto.
  - split; rewrite E.
    + rewrite fmap_app, NoDup_app. split_and!; [done| |apply NoDup_singleton].
      intros x Hx ->%list_elem_of_singleton. done.
    + rewrite fmap_app, NoDup_app. split_and!; [done| |apply NoDup_singleton].
      intros x Hx ->%list_elem_of_singleton. done.
    + intros t [?| ->%list_elem_of_singleton]%elem_of_app; [auto|by apply row_ok_new].
Qed.

Lemma registry_step_inv db db' : registry_step db db' → task_inv db → task_inv db'.
Proof. intros Hs Hinv. eapply table_step_inv; [|done]. eapply registry_table; eauto with tasks. Qed.

Lemma task_inv_reachable db0 db : task_inv db0 → rtc registry_step db0 db → task_inv db.
Proof. intros H0 Hs. induction Hs; eauto using registry_step_inv. Qed.

Lemma task_inv_init db : tasks db = [] → task_inv db.
Proof. intros E. split; rewrite E; [constructor..|]. by intros t ?%not_elem_of_nil. Qed.

(** ** How a row evolves *)

Definition edge (a b : task_state) : Prop := b ∈ TRANSITIONS a.

(** The identity of a row never changes, its state follows the machine, and its audit log grows. *)
Record evolves (t t' : task) : Prop := {
  ev_id : task_id t' = task_id t;
  ev_key : idempotency_key t' = idempotency_key t;
  ev_kind : kind t' = kind t;
  ev_params : params t' = params t;
  ev_state : rtc edge (t_state t) (t_state t');
  ev_audit : audit (history t) `prefix_of` audit (history t')
}.

Lemma evolves_refl t : evolves t t.
Proof. by split. Qed.

Lemma evolves_trans t1 t2 t3 : evolves t1 t2 → evolves t2 t3 → evolves t1 t3.
Proof. intros [] []. split; try congruence; by etrans. Qed.

Lemma audit_app hist x : _is_progress_note x = false → audit hist `prefix_of` audit (hist ++ [x]).
Proof. intros E. unfold audit. rewrite filter_app. by apply prefix_app_r. Qed.

Lemma row_step_evolves t t' : row_step t t' → evolves t t'.
Proof.
  intros Hs. destruct Hs as [|st now ev Htr|now note|now ev|ttl]; [apply evolves_refl|..]; split; try done; simpl.
  - by apply rtc_once.
  - by apply audit_app.
  - rewrite drop_oldest_audit. unfold audit. rewrite filter_app. simpl. by rewrite app_nil_r.
  - by apply audit_app.
Qed.

Lemma table_step_evolves db db' t : table_step db db' → t ∈ tasks db → ∃ t', t' ∈ tasks db' ∧ evolves t t'.
Proof.
  intros Hs Ht. destruct Hs as [f E Hf|e s hist _ E _ _]; rewrite E.
  - exists (f t). split; [by apply list_elem_of_fmap_2|]. by apply row_step_evolves, Hf.
  - exists t. split; [|apply evolves_refl]. apply elem_of_app. by left.
Qed.

Lemma registry_evolves db db' t :
  task_inv db → rtc registry_step db db' → t ∈ tasks db → ∃ t', t' ∈ tasks db' ∧ evolves t t'.
Proof.
  intros Hinv Hs. revert t. induction Hs as [|db db1 db2 Hs1 Hs IH]; intros t Ht.
  - exists t. split; [done|apply evolves_refl].
  - destruct (table_step_evolves db db1 t) as (t1 & Ht1 & He1); [|done|].
    { eapply registry_table; eauto with tasks. }
    destruct (IH (registry_step_inv _ _ Hs1 Hinv) t1 Ht1) as (t2 & Ht2 & He2).
    exists t2. split; [done|]. by eapply evolves_trans.
Qed.

Lemma terminal_stuck st st' : st ∈ TERMINAL_STATES → rtc edge st st' → st' = st.
Proof.
  intros [Ht _]%list_elem_of_filter Hr. destruct Hr as [|a b c Hab _]; [done|].
  unfold edge in Hab. rewrite Ht in Hab. by apply not_elem_of_nil in Hab.
Qed.

(** ** Dispatch evidence *)

Lemma dispatch_entry_audit hist :
  (∀ x, x ∈ hist → note_shape x) → dispatch_entry hist = dispatch_entry (audit hist).
Proof.
  unfold audit. induction hist as [|x hist IH]; intros Hs; [done|]. rewrite filter_cons.
  specialize (IH ltac:(intros y Hy; apply Hs; by right)). unfold dispatch_entry in *.
  destruct (_is_progress_note x) eqn:E; simpl.
  - destruct (Hs x ltac:(left) E) as [_ Hx]. unfold dispatch_entry in Hx. simpl in Hx.
    destruct x as [| | | | | |d]; try done. by destruct (din "dispatch_class" d).
  - destruct x as [| | | | | |d]; try done. by destruct (din "dispatch_class" d).
Qed.

(** The entry a task was created with is the one its evidence is read from, ever after. *)
Lemma dispatch_entry_stable t t' d :
  row_ok t' → evolves t t' → history t = [PDict d] → din "dispatch_class" d = true →
  _is_progress_note (PDict d) = false → dispatch_entry (history t') = Some d.
Proof.
  intros Hok Hev Hh Hd Hn. rewrite dispatch_entry_audit by eauto with tasks.
  destruct (ev_audit _ _ Hev) as [k Hk]. rewrite Hh in Hk. unfold audit in Hk at 2.
  rewrite filter_cons, Hn in Hk. simpl in Hk. rewrite Hk. unfold dispatch_entry. simpl. by rewrite Hd.
Qed.


(** ** Creation *)

Lemma create_lookup_existing s db t :
  find_by_idempotency_key db (sp_key s) = Some t →
  _validate_dispatch_reuse t (sp_class s) = Ok () →
  create_lookup s db = (Ok (Some t), db).
Proof.
  intros Hf Hv. unfold create_lookup, io_lift, io_gets, mbind, io_bind. rewrite Hf, Hv.
  unfold _validate_dispatch_reuse in Hv. by destruct (_validate_dispatch_class (sp_class s)) as [[]|].
Qed.

Lemma class_nonempty c : c ∈ _DISPATCH_CLASSES → String.eqb c EmptyString = false.
Proof. intros Hc. apply String.eqb_neq. intros ->. apply (bool_decide_eq_true_2 _) in Hc. discriminate. Qed.

(** A row this registry created, and what became of it, may be adopted under the same spec. *)
Lemma reuse_ok e s hist t' :
  initial_history e s = Ok hist → row_ok t' → evolves (new_task e s hist) t' →
  _validate_dispatch_reuse t' (sp_class s) = Ok ().
Proof.
  intros Hh Hok Hev. apply initial_history_Ok in Hh
    as [[-> _]|(c & phase & cycle & tick & -> & Hc & _ & _ & _ & ->)]; [done|].
  unfold _validate_dispatch_reuse, task_dispatch_class, task_dispatch_evidence.
  erewrite dispatch_entry_stable; [|done|done|reflexivity|done|done].
  pose proof (class_nonempty c Hc) as E.
  unfold _validate_dispatch_class, get_str. simpl. rewrite E. simpl. rewrite decide_True by done. simpl.
  by rewrite decide_True.
Qed.

Lemma complete_origin_class provider s : sp_class (complete_origin provider s) = sp_class s.
Proof. unfold complete_origin. by repeat case_match. Qed.

Lemma dispatch_record_read t d c phase cycle tick :
  dispatch_entry (history t) = Some d →
  dget "dispatch_class" d = Some (PStr c) → dget "allowed" d = Some (PBool true) →
  dget "denial_rule" d = Some PNone → dget "phase" d = Some (PStr phase) →
  dget "macro_cycle" d = Some (PInt cycle) → dget "tick" d = Some (PInt tick) →
  c ∈ _DISPATCH_CLASSES → phase ≠ EmptyString → py_upper (py_strip phase) = phase →
  task_dispatch_record t = Ok (Some (DispatchRecord c true None phase cycle tick)).
Proof.
  intros He H1 H2 H3 H4 H5 H6 Hc Hp Hn. unfold task_dispatch_record, get_str, get_bool.
  rewrite He, H1, H2, H3, H4, H5, H6. simpl. rewrite (class_nonempty c Hc). simpl.
  destruct (decide (c ∈ _DISPATCH_CLASSES)); [|done]. simpl.
  rewrite (proj2 (String.eqb_neq _ _) Hp). simpl. rewrite Hn. by rewrite decide_False.
Qed.

(** A creation that inserted. *)
Lemma create_fresh e provider s db t db1 :
  create_or_return_existing e provider s db = (Ok (t, false), db1) →
  ∃ s' hist, s' = complete_origin provider s ∧ sp_key s' = sp_key s ∧ sp_class s' = sp_class s ∧
    initial_history e s' = Ok hist ∧ t = new_task e s' hist ∧ db1 = with_tasks (λ ts, ts ++ [t]) db ∧
    task_id t ∉ task_id <$> tasks db ∧ sp_key s ∉ idempotency_key <$> tasks db.
Proof.
  unfold create_or_return_existing, mbind, io_bind. pose proof (create_lookup_db s db) as Hl.
  destruct (create_lookup s db) as [[[t0|]|exn] db'] eqn:E; simpl in Hl; subst db'; [done| |done].
  unfold create_insert, mbind, io_bind, transaction. set (s' := complete_origin provider s).
  destruct (insert_queued_result e s' db) as [(exn & ->)|(hist & Hh & Hi & Hk & ->)]; [done|].
  intros [= <- <-]. exists s', hist.
  assert (sp_key s' = sp_key s) as Hkey by (unfold s', complete_origin; by repeat case_match).
  rewrite <- Hkey. split_and!; try done. apply complete_origin_class.
Qed.

(** A creation that adopted, and one that raised, wrote nothing. *)
Lemma create_existing e provider s db t db' :
  create_or_return_existing e provider s db = (Ok (t, true), db') →
  db' = db ∧ t ∈ tasks db ∧ idempotency_key t = sp_key s.
Proof.
  unfold create_or_return_existing, create_lookup, io_lift, io_gets, mbind, io_bind.
  destruct (_validate_dispatch_class _); [|done].
  destruct (find_by_idempotency_key db (sp_key s)) as [t0|] eqn:Hf.
  - apply find_key_Some in Hf as [? ?]. destruct (_validate_dispatch_reuse t0 _); [|done].
    intros [= <- <-]. done.
  - unfold mret, io_ret. intros Hc. exfalso.
    destruct (create_insert_result e provider s db) as [(? & E)|(? & ? & _ & _ & _ & _ & E)];
      by rewrite E in Hc.
Qed.

Lemma create_raises e provider s db exn db' :
  create_or_return_existing e provider s db = (Raise exn, db') → db' = db.
Proof.
  unfold create_or_return_existing, mbind, io_bind. pose proof (create_lookup_db s db) as Hl.
  destruct (create_lookup s db) as [[[t0|]|exn'] db1]; simpl in Hl; subst db1; [done| |by intros [= _ <-]].
  destruct (create_insert_result e provider s db) as [(? & ->)|(? & ? & _ & _ & _ & _ & ->)]; [|done].
  by intros [= _ <-].
Qed.

(** * Claims *)

(** C10: Invariant.  In every session, however the registry's operations interleave: task ids and
    idempotency keys are unique, each task's state is exactly what replaying its history along
    [TRANSITIONS] from [queued] gives, and no history keeps more than 120 progress notes. *)
Theorem task_history_replays db0 db :
  tasks db0 = [] → rtc registry_step db0 db →
  NoDup (task_id <$> tasks db) ∧ NoDup (idempotency_key <$> tasks db) ∧
  ∀ t, t ∈ tasks db →
    replay Queued (history t) = Some (t_state t) ∧ (length (notes_of (history t)) <= 120)%nat.
Proof.
  intros H0 Hs. pose proof (task_inv_reachable _ _ (task_inv_init _ H0) Hs) as [Hi Hk Hr].
  split_and!; [done..|]. intros t Ht. destruct (Hr t Ht). done.
Qed.

(** Safety.  No registry operation loses a task or rewrites its past: every task of a state is
    still there in every later state, under the same id, key, kind and parameters, with the entries
    of its history other than progress notes kept as a prefix; its state only moved along
    [TRANSITIONS], and a task that had ended did not move at all. *)
Theorem task_lifecycle db db' t :
  task_inv db → rtc registry_step db db' → t ∈ tasks db →
  ∃ t', find_task db' (task_id t) = Some t' ∧ evolves t t' ∧
    (t_state t ∈ TERMINAL_STATES → t_state t' = t_state t).
Proof.
  intros Hinv Hs Ht. destruct (registry_evolves _ _ _ Hinv Hs Ht) as (t' & Ht' & Hev).
  exists t'. split_and!; [|done|].
  - rewrite <- (ev_id _ _ Hev). apply find_task_elem; [|done].
    eauto using task_inv_reachable with tasks.
  - intros Hterm. eapply terminal_stuck; [done|]. by apply ev_state.
Qed.

(** Functional.  A transition on every branch: an unknown state, an unknown task and a move the
    machine does not allow raise and write nothing; an allowed move rewrites that task's row alone,
    appends one entry naming both states, and returns the new row. *)
Theorem transition_spec e tid new_state evidence db :
  NoDup (task_id <$> tasks db) →
  transition e tid new_state evidence db =
  match state_of_str new_state, find_task db tid with
  | None, _ => (Raise (ValueError ("unknown state: " +:+ repr_str new_state)), db)
  | Some _, None => (Raise (TaskNotFound tid), db)
  | Some st, Some t =>
      if decide (st ∈ TRANSITIONS (t_state t)) then
        (Ok (moved st (now_iso e) evidence t),
         with_tasks (fmap (λ t', if decide (task_id t' = tid) then moved st (now_iso e) evidence t' else t')) db)
      else (Raise (illegal_transition tid (t_state t) st), db)
  end.
Proof.
  intros Hnd. destruct (state_of_str new_state) as [st|] eqn:Hst.
  2:{ unfold transition. by rewrite Hst. }
  destruct (find_task db tid) as [t|] eqn:Hf.
  2:{ unfold transition, transaction, mbind, io_bind, tx_bind, tx_get. by rewrite Hst, Hf. }
  case_decide; [by apply transition_eq|].
  unfold transition, transaction, mbind, io_bind, tx_bind, tx_get. by rewrite Hst, Hf, decide_False.
Qed.

(** Functional.  Creation is idempotent: after a spec created a task, and after anything the
    registry did since, creating the same spec again adds no row and returns that task, under its
    id and key, as an existing one. *)
Theorem create_idempotent e provider s db t db1 db2 e' provider' :
  task_inv db → create_or_return_existing e provider s db = (Ok (t, false), db1) →
  rtc registry_step db1 db2 →
  ∃ t', create_or_return_existing e' provider' s db2 = (Ok (t', true), db2) ∧ evolves t t'.
Proof.
  intros Hinv Hc Hs.
  assert (task_inv db1) as Hinv1.
  { eapply (registry_step_inv db); [|done]. replace db1 with (create_or_return_existing e provider s db).2
      by (by rewrite Hc). constructor. }
  apply create_fresh in Hc as (s' & hist & _ & Hk & Hcl & Hh & Ht & -> & Hid & Hkey).
  destruct (registry_evolves _ _ t Hinv1 Hs) as (t' & Ht' & Hev).
  { simpl. apply elem_of_app. right. by left. }
  pose proof (task_inv_reachable _ _ Hinv1 Hs) as Hinv2. exists t'. split; [|done].
  unfold create_or_return_existing, mbind, io_bind. rewrite (create_lookup_existing s db2 t'); [done| |].
  - rewrite <- Hk. change (sp_key s') with (idempotency_key (new_task e s' hist)). rewrite <- Ht.
    rewrite <- (ev_key _ _ Hev). by apply find_key_elem; eauto with tasks.
  - rewrite <- Hcl. subst t. eapply (reuse_ok e s'); eauto with tasks.
Qed.

(** Safety.  Two creators may both look a key up before either inserts.  The one that commits
    second fails on the key's uniqueness and leaves no trace: whatever ran since its lookup, a
    creator whose key is taken raises and the database is unchanged. *)
Theorem create_race_loses e provider s db :
  sp_key s ∈ idempotency_key <$> tasks db →
  ∃ exn, create_insert e provider s db = (Raise exn, db).
Proof.
  intros Hk. destruct (create_insert_result e provider s db) as [?|(? & ? & _ & _ & _ & Hn & _)]; [done|].
  by apply Hn in Hk.
Qed.

(** Functional.  [create_on_free_key] makes at most six attempts: it returns the task under the
    first key that is free or whose task is not spent, having touched no other row; it gives up
    exactly when all six keys name spent tasks, and then nothing was written. *)
Theorem create_on_free_key_spec e provider s spent db :
  let names n t := t ∈ tasks db ∧ idempotency_key t = retry_key (sp_key s) n in
  match create_on_free_key e provider s spent db with
  | (Ok None, db') => db' = db ∧ ∀ n, (n < 6)%nat → ∃ t, names n t ∧ spent t = true
  | (Ok (Some (t, was_existing)), db') =>
      ∃ n, (n < 6)%nat ∧ idempotency_key t = retry_key (sp_key s) n ∧
        (∀ m, (m < n)%nat → ∃ t', names m t' ∧ spent t' = true) ∧
        if was_existing then db' = db ∧ t ∈ tasks db ∧ spent t = false
        else t_state t = Queued ∧ db' = with_tasks (λ ts, ts ++ [t]) db
  | (Raise _, db') => db' = db
  end.
Proof.
  intros names. unfold create_on_free_key.
  assert (∀ k i, (i + k = 6)%nat → (∀ m, (m < i)%nat → ∃ t, names m t ∧ spent t = true) →
    match free_key_loop e provider s spent (seq i k) db with
    | (Ok None, db') => db' = db ∧ ∀ n, (n < 6)%nat → ∃ t, names n t ∧ spent t = true
    | (Ok (Some (t, was_existing)), db') =>
        ∃ n, (n < 6)%nat ∧ idempotency_key t = retry_key (sp_key s) n ∧
          (∀ m, (m < n)%nat → ∃ t', names m t' ∧ spent t' = true) ∧
          if was_existing then db' = db ∧ t ∈ tasks db ∧ spent t = false
          else t_state t = Queued ∧ db' = with_tasks (λ ts, ts ++ [t]) db
    | (Raise _, db') => db' = db
    end) as Hloop; [|apply (Hloop 6%nat 0%nat); [done|lia]].
  induction k as [|k IH]; intros i Hik Hm; simpl.
  { split; [done|]. intros n Hn. apply Hm. lia. }
  unfold mbind at 1, io_bind at 1. set (s' := spec_with_key (retry_key (sp_key s) i) s).
  destruct (create_or_return_existing e provider s' db) as [[[t was]|exn] db'] eqn:Hc.
  - destruct was.
    + apply create_existing in Hc as (-> & Hin & Hkey).
      destruct (spent t) eqn:Hsp; simpl.
      * apply (IH (S i)); [lia|]. intros m Hlt. destruct (decide (m = i)) as [->|]; [by exists t|].
        apply Hm. lia.
      * exists i. split_and!; [lia|done..].
    + simpl. apply create_fresh in Hc as (s2 & hist & _ & Hk & _ & _ & -> & -> & _).
      exists i. split_and!; [lia|exact Hk|done..].
  - simpl. by eapply create_raises.
Qed.

(** Functional.  A progress note changes nothing but its task's history: the note becomes the
    newest one, the newest 120 notes stay in order, every entry that is no note stays in order, and
    a note for an unknown task is dropped silently. *)
Theorem record_progress_spec e tid note db :
  NoDup (task_id <$> tasks db) →
  match find_task db tid with
  | None => record_progress e tid note db = (Ok (), db)
  | Some t =>
      ∃ hist,
        record_progress e tid note db
        = (Ok (), with_tasks (fmap (λ t', if decide (task_id t' = tid) then with_history hist t' else t')) db) ∧
        audit hist = audit (history t) ∧
        notes_of hist = drop (length (notes_of (history t)) - 119)
                          (notes_of (history t) ++ [progress_entry (now_iso e) note])
  end.
Proof.
  intros Hnd. destruct (find_task db tid) as [t|] eqn:Hf.
  - exists (history (noted (now_iso e) note t)). rewrite record_progress_eq by done. split_and!.
    + unfold with_tasks. do 2 f_equal. apply list_fmap_ext. intros i t' Ht'%list_elem_of_lookup_2.
      case_decide as E; [|done]. apply find_task_Some in Hf as [Ht Hid].
      by rewrite (NoDup_key_inj task_id _ _ _ Hnd Ht' Ht ltac:(congruence)).
    + simpl. rewrite drop_oldest_audit. unfold audit. rewrite filter_app. simpl. by rewrite app_nil_r.
    + simpl. rewrite drop_oldest_notes. unfold notes_of. rewrite filter_app. simpl.
      rewrite length_app. f_equal. unfold _MAX_PROGRESS_NOTES. simpl. lia.
  - unfold record_progress, transaction, mbind, tx_bind, tx_get. by rewrite Hf.
Qed.

(** Functional.  The phase-change sweep cancels exactly the queued tasks of other phases: the
    reported ids are those of the queued tasks whose kind is not allowed, each of these rows moves to
    [cancelled] with the reason on record, and every other row, running ones included, is untouched. *)
Theorem cancel_queued_spec e allowed reason db :
  NoDup (task_id <$> tasks db) →
  ∃ ids db', cancel_queued e allowed reason db = (Ok ids, db') ∧
    (∀ t, t ∈ tasks db → task_id t ∈ ids ↔ t_state t = Queued ∧ py_strip (kind t) ∉ stripped_set allowed) ∧
    db' = with_tasks (fmap (λ t, if decide (task_id t ∈ ids)
                                 then moved Cancelled (now_iso e) [("reason", PStr reason)] t else t)) db.
Proof.
  intros Hnd. rewrite cancel_queued_eq by done. eexists _, _. split; [done|].
  split; [intros t Ht; by apply selected_ids|]. unfold with_tasks. f_equal. apply list_fmap_ext.
  intros i t Ht%list_elem_of_lookup_2. unfold cancel_rows. apply decide_ext. by rewrite selected_ids.
Qed.

(** Functional.  Pruning a branch cancels exactly the queued tasks of the family that are not
    excluded, and touches nothing else. *)
Theorem cancel_family_spec e kinds reason exclude db :
  NoDup (task_id <$> tasks db) →
  ∃ ids db', cancel_family e kinds reason exclude db = (Ok ids, db') ∧
    (∀ t, t ∈ tasks db → task_id t ∈ ids ↔
       t_state t = Queued ∧ kind t ∈ kinds ∧ py_strip (task_id t) ∉ stripped_set exclude) ∧
    db' = with_tasks (fmap (λ t, if decide (task_id t ∈ ids)
                                 then moved Cancelled (now_iso e) [("reason", PStr reason)] t else t)) db.
Proof.
  intros Hnd. destruct (decide (kinds = [])) as [->|Hne].
  { eexists [], db. split_and!; [done| |].
    - intros t _. split; [by intros ?%not_elem_of_nil|]. by intros (_ & ?%not_elem_of_nil & _).
    - rewrite with_tasks_same; [done|]. etrans; [|apply list_fmap_id]. by apply list_fmap_ext. }
  rewrite cancel_family_eq by done. eexists _, _. split; [done|].
  split; [intros t Ht; by apply selected_ids|]. unfold with_tasks. f_equal. apply list_fmap_ext.
  intros i t Ht%list_elem_of_lookup_2. unfold cancel_rows. apply decide_ext. by rewrite selected_ids.
Qed.

(** Functional.  The resume sweep fails exactly the running tasks that hold a lane through a
    recorded process and all of whose processes are provably dead on this host; each failed row names
    the dead pid, and every other task is untouched. *)
Theorem reclaim_dead_running_spec e reason db :
  NoDup (task_id <$> tasks db) →
  ∃ ids db', reclaim_dead_running e reason db = (Ok ids, db') ∧
    (∀ t, t ∈ tasks db → task_id t ∈ ids ↔
       t_state t = Running ∧ holder_rows db (task_id t) ≠ [] ∧
       ∀ r, r ∈ holder_rows db (task_id t) → holder_is_dead e r = true) ∧
    ∀ t, t ∈ tasks db →
      if decide (task_id t ∈ ids) then
        ∃ r, r ∈ holder_rows db (task_id t) ∧
          find_task db' (task_id t)
          = Some (moved Failed (now_iso e) [("reason", PStr reason); ("dead_pid", PInt (l_pid r))] t)
      else find_task db' (task_id t) = Some t.
Proof.
  intros Hnd. rewrite reclaim_dead_running_eq by done. eexists _, _. split; [done|].
  set (P t := t_state t = Running ∧ is_Some (dead_running e db t)).
  pose proof (λ t, selected_ids P (tasks db) t Hnd) as Hids.
  split.
  - intros t Ht. rewrite Hids by done. unfold P, dead_running.
    destruct (holder_rows db (task_id t)) as [|r rows]; [split; [by intros [_ [? ?]]|by intros (_ & ? & _)]|].
    setoid_rewrite list_elem_of_In. rewrite <- forallb_forall. destruct (forallb _ (r :: rows)); naive_solver.
  - intros t Ht. case_decide as Hin; rewrite Hids in Hin by done.
    all: rewrite find_task_update, find_task_elem by
      first [done|intros t' _; unfold reclaim_rows; by repeat case_match].
    all: simpl; unfold reclaim_rows.
    + destruct Hin as [Hr [[t' pid] Hd]]. rewrite decide_True, Hd by done.
      unfold dead_running in Hd. destruct (holder_rows db (task_id t)) as [|r rows]; [done|].
      case_match; [|done]. simplify_eq. exists r. split; [left|done].
    + case_decide as Hr; [|done]. destruct (dead_running e db t) as [[]|] eqn:Hd; [|done].
      exfalso. apply Hin. split; [done|]. by rewrite Hd.
Qed.

(** Round trip.  The dispatch evidence frozen at creation reads back from the task's row ever
    after: whatever state changes, progress pruning or completions the row went through, its record
    is the class and the validated phase coordinates it was created with, allowed and undenied. *)
Theorem dispatch_evidence_survives e provider s c db t db1 db2 :
  task_inv db → sp_class s = Some c →
  create_or_return_existing e provider s db = (Ok (t, false), db1) →
  rtc registry_step db1 db2 →
  ∃ t' phase cycle tick,
    find_task db2 (task_id t) = Some t' ∧
    _validated_dispatch_origin (sp_origin (complete_origin provider s))
    = Ok [("phase", PStr phase); ("macro_cycle", PInt cycle); ("tick", PInt tick)] ∧
    task_dispatch_record t' = Ok (Some (DispatchRecord c true None phase cycle tick)).
Proof.
  intros Hinv Hc Hcr Hs.
  assert (task_inv db1) as Hinv1.
  { eapply (registry_step_inv db); [|done]. replace db1 with (create_or_return_existing e provider s db).2
      by (by rewrite Hcr). constructor. }
  apply create_fresh in Hcr as (s' & hist & -> & _ & Hcl & Hh & Ht & -> & _).
  destruct (registry_evolves _ _ t Hinv1 Hs) as (t' & Ht' & Hev).
  { simpl. apply elem_of_app. right. by left. }
  pose proof (task_inv_reachable _ _ Hinv1 Hs) as Hinv2.
  apply initial_history_Ok in Hh
    as [[Hn _]|(c' & phase & cycle & tick & Hc' & Hin & Hor & Hne & Hnorm & ->)]; [congruence|].
  assert (c' = c) as -> by congruence. exists t', phase, cycle, tick. split_and!; [|done|].
  - rewrite <- (ev_id _ _ Hev). apply find_task_elem; eauto with tasks.
  - eapply dispatch_record_read.
    { eapply dispatch_entry_stable; [by eauto with tasks|exact Hev|by rewrite Ht|reflexivity..]. }
    all: done.
Qed.

(** * Witnesses *)

Definition sample_spec : TaskSpec :=
  MkSpec "benchmark" [("tp", PInt 8)] "bench-1" (Some ["benchmark_lane"]) 600 (Some "t1") (Some "llm")
    (Some (task_dispatch_origin " sweep " 2 7)).

Definition sample_task : task :=
  new_task sample_env sample_spec
    [PDict [("dispatch_class", PStr "llm"); ("allowed", PBool true); ("denial_rule", PNone);
            ("phase", PStr "SWEEP"); ("macro_cycle", PInt 2); ("tick", PInt 7);
            ("ts", PStr (now_iso sample_env))]].

Definition queued_db : DB := (create_or_return_existing sample_env None sample_spec seeded_db).2.
Definition running_db : DB := (transition sample_env "t1" "running" [] queued_db).2.
Definition laned_db : DB := (acquire_many sample_env ["benchmark_lane"] "h1" "t1" "bench" 600 running_db).2.

Lemma seeded_task_inv : task_inv seeded_db.
Proof. by apply task_inv_init. Qed.

Lemma running_steps : rtc registry_step seeded_db running_db.
Proof. eapply rtc_l; [apply rs_create|]. apply rtc_once. apply rs_transition. Qed.

Lemma running_inv : task_inv running_db.
Proof. exact (task_inv_reachable _ _ seeded_task_inv running_steps). Qed.

Lemma queued_inv : task_inv queued_db.
Proof. apply (registry_step_inv seeded_db); [apply rs_create|exact seeded_task_inv]. Qed.

Lemma task_history_replays_witness :
  length (tasks running_db) = 1%nat ∧
  Forall (λ t, replay Queued (history t) = Some (t_state t)) (tasks running_db).
Proof.
  split; [vm_compute; reflexivity|]. apply Forall_forall. intros t Ht.
  apply (proj2 (proj2 (task_history_replays seeded_db running_db eq_refl running_steps)) t Ht).
Defined.

Lemma task_lifecycle_witness :
  ∃ t', find_task running_db "t1" = Some t' ∧ evolves sample_task t'.
Proof.
  destruct (task_lifecycle queued_db running_db sample_task queued_inv) as (t' & Hf & Hev & _).
  - apply rtc_once. apply rs_transition.
  - left.
  - exists t'. split; assumption.
Defined.

Lemma transition_spec_witness :
  transition sample_env "t1" "queued" [] running_db
  = (Raise (IllegalTransition "cannot transition 't1' from 'running' to 'queued'"), running_db).
Proof.
  etrans; [apply (transition_spec sample_env "t1" "queued" [] running_db); apply ti_ids, running_inv|].
  vm_compute. reflexivity.
Defined.

Lemma create_idempotent_witness :
  ∃ t', create_or_return_existing sample_env None sample_spec running_db = (Ok (t', true), running_db) ∧
    evolves sample_task t'.
Proof.
  apply (create_idempotent sample_env None sample_spec seeded_db sample_task queued_db running_db
    sample_env None seeded_task_inv).
  - vm_compute. reflexivity.
  - apply rtc_once. apply rs_transition.
Defined.

Lemma create_race_loses_witness :
  ∃ exn, create_insert sample_env None sample_spec queued_db = (Raise exn, queued_db).
Proof. apply create_race_loses. left. Defined.

Lemma record_progress_spec_witness :
  ∃ hist, (record_progress sample_env "t1" [("pct", PInt 10)] running_db).1 = Ok () ∧
    notes_of hist = [progress_entry (now_iso sample_env) [("pct", PInt 10)]].
Proof.
  pose proof (record_progress_spec sample_env "t1" [("pct", PInt 10)] running_db
    (ti_ids _ running_inv)) as H.
  assert (find_task running_db "t1" = Some (moved Running (now_iso sample_env) [] sample_task)) as E
    by (vm_compute; reflexivity).
  rewrite E in H. destruct H as (hist & Hr & _ & Hn). exists hist. split; [by rewrite Hr|].
  rewrite Hn. vm_compute. reflexivity.
Defined.

Lemma cancel_queued_spec_witness :
  ∃ db', cancel_queued sample_env ["rebench"] "phase_change" queued_db = (Ok ["t1"], db').
Proof.
  destruct (cancel_queued_spec sample_env ["rebench"] "phase_change" queued_db (ti_ids _ queued_inv))
    as (ids & db' & H & _). exists db'. rewrite H. apply (f_equal fst) in H. vm_compute in H.
  by injection H as <-.
Defined.

Lemma cancel_family_spec_witness :
  ∃ db', cancel_family sample_env ["benchmark"] "prune_branch" ["t2"] queued_db = (Ok ["t1"], db').
Proof.
  destruct (cancel_family_spec sample_env ["benchmark"] "prune_branch" ["t2"] queued_db (ti_ids _ queued_inv))
    as (ids & db' & H & _). exists db'. rewrite H. apply (f_equal fst) in H. vm_compute in H.
  by injection H as <-.
Defined.

Lemma reclaim_dead_running_spec_witness :
  ∃ db', reclaim_dead_running later_env "dead_holder" laned_db = (Ok ["t1"], db').
Proof.
  destruct (reclaim_dead_running_spec later_env "dead_holder" laned_db) as (ids & db' & H & _).
  - apply (bool_decide_unpack _). vm_compute. exact I.
  - exists db'. rewrite H. apply (f_equal fst) in H. vm_compute in H. by injection H as <-.
Defined.

Lemma dispatch_evidence_survives_witness :
  ∃ t', find_task running_db "t1" = Some t' ∧
    task_dispatch_record t' = Ok (Some (DispatchRecord "llm" true None "SWEEP" 2 7)).
Proof.
  destruct (dispatch_evidence_survives sample_env None sample_spec "llm" seeded_db sample_task queued_db
    running_db seeded_task_inv eq_refl) as (t' & phase & cycle & tick & Hf & Hor & Hr).
  - vm_compute. reflexivity.
  - apply rtc_once. apply rs_transition.
  - exists t'. split; [exact Hf|]. rewrite Hr. vm_compute in Hor. injection Hor as <- <- <-. reflexivity.
Defined.
