(* ===== verification/Rounds.v ===== *)
(** * Bring-up rounds ([state/round_store.py])

    The durable mutex that decides whether another bring-up round may start.  A round is opened by
    one holder, renewed, handed off under a growing fence and settled; every attempt, applied or
    refused, is one row of the outbox.  The round's lane row is kept in step with it.

    A NaN reaches a REAL column as NULL: [NOT NULL] columns refuse it. *)

From stdpp Require Import base list strings gmap fin_maps sets sorting numbers pretty.
From Stdlib Require Import ZArith Lia.
From Stdlib Require String.
From S2P Require Import Prelude PyFloat PyVal PyTime Store Lanes.

Definition BOOTED : string := "booted".
Definition FAILED : string := "failed".
Definition ABANDONED : string := "abandoned".
Definition ADVANCED : string := "advanced".
Definition EXPIRED_REAPED : string := "expired_reaped".
Definition OUTCOMES : list string := [BOOTED; FAILED; ABANDONED; ADVANCED; EXPIRED_REAPED].

Definition UNKNOWN_ROUND : string := "unknown_round".
Definition NOT_OWNER : string := "not_owner".
Definition STALE_FENCE : string := "stale_fence".
Definition NOT_OPEN : string := "not_open".
Definition EXCLUDED : string := "excluded".
Definition ALREADY_EXISTS : string := "already_exists".
Definition ALREADY_SETTLED : string := "already_settled".

Record RoundRequest := MkRequest {
  request_id : string;
  rq_now : float;
  rq_evidence : list (string * json)
}.

Record RoundResult := MkResult { r_ok : bool; r_reason : string }.

(** ** The outbox *)

Record _Attempt := MkAttempt {
  a_round : string;
  a_request : string;
  a_op : string;
  a_actor : string;
  a_fence : Z;
  a_outcome : string;
  a_evidence : list (string * json);
  a_now : float
}.

Definition is_nan (x : float) : bool := negb (feqb x x).

(** A REAL NOT NULL column. *)
Definition not_null (column : string) (x : float) : Tx DB unit :=
  if is_nan x then tx_raise (IntegrityError column) else mret ().

(** A nullable REAL column. *)
Definition sql_real (x : option float) : option float :=
  match x with Some f => if is_nan f then None else Some f | None => None end.

(** The outbox row of an attempt. *)
Definition event_row (att : _Attempt) (id : Z) (result : attempt_result) (f : Z) (actor reason : string)
    : round_event :=
  RoundEvent id (a_round att) (a_request att) (a_op att) result (a_outcome att) f actor reason
    (a_evidence att) (a_now att).

Definition _append (att : _Attempt) (result : attempt_result) (f : Z) (actor reason : string) : Tx DB unit :=
  _ ← not_null "round_events.recorded_unix" (a_now att);
  tx_modify (λ db,
    with_round_events (λ es, es ++ [event_row att (round_events_seq db + 1) result f actor reason])
      (round_events_seq db + 1) db).

Definition applied (att : _Attempt) (after : round) (duplicate : bool) : Tx DB RoundResult :=
  _ ← _append att (if duplicate then Duplicate else Applied) (fence after) (holder_task_id after) EmptyString;
  mret (MkResult true EmptyString).

Definition reject (att : _Attempt) (reason : string) : Tx DB RoundResult :=
  _ ← _append att Rejected (a_fence att) (a_actor att) reason;
  mret (MkResult false reason).

(** ** The rounds *)

Definition _load (db : DB) (rid : string) : option round :=
  snd <$> list_find (λ r, round_id r = rid) (rounds db).

Definition _place_lane (after : round) : Tx DB unit :=
  match r_state after with
  | Open => hold_round_lane (round_id after) (holder_task_id after) (expires_unix after) (renewed_unix after)
  | Settled => drop_round_lane (round_id after)
  end.

(** Why a compare-and-swap must be refused. *)
Definition _cas_reason (current held : round) : option string :=
  if decide (r_state current ≠ Open) then Some NOT_OPEN
  else if decide (holder_task_id current ≠ holder_task_id held) then Some NOT_OWNER
  else if decide (fence current ≠ fence held) then Some STALE_FENCE
  else None.

Definition open_attempt (rid : string) (rq : RoundRequest) (holder : string) : _Attempt :=
  MkAttempt rid (request_id rq) "open" holder 0 EmptyString (rq_evidence rq) (rq_now rq).

Definition opened_round (rid : string) (rq : RoundRequest) (holder : string) (lease_sec : float) : round :=
  Round rid Open EmptyString holder 1 (rq_now rq) (rq_now rq) (fadd (rq_now rq) lease_sec) None.

Definition insert_round (r : round) : Tx DB unit :=
  _ ← not_null "bringup_rounds.opened_unix" (opened_unix r);
  _ ← not_null "bringup_rounds.expires_unix" (expires_unix r);
  tx_modify (with_rounds (λ rs, rs ++ [r])).

(** [join] runs on the acquiring cursor; its writes commit with the acquire or not at all. *)
Definition open (rid : string) (rq : RoundRequest) (holder : string) (lease_sec : float)
    (join : option (Tx DB unit)) : Io DB RoundResult :=
  let att := open_attempt rid rq holder in
  let opened := opened_round rid rq holder lease_sec in
  transaction (
    db ← tx_get;
    if decide (Exists (λ r, r_state r = Open) (rounds db) ∨ rid ∈ round_id <$> rounds db) then
      reject att (if decide (rid ∈ round_id <$> rounds db) then ALREADY_EXISTS else EXCLUDED)
    else
      _ ← insert_round opened;
      _ ← _place_lane opened;
      _ ← default (mret ()) join;
      applied att opened false).

(** [UPDATE bringup_rounds SET ... WHERE round_id = ?] *)
Definition update_round (after : round) : Tx DB unit :=
  _ ← not_null "bringup_rounds.renewed_unix" (renewed_unix after);
  _ ← not_null "bringup_rounds.expires_unix" (expires_unix after);
  tx_modify (with_rounds (fmap (λ r,
    if decide (round_id r = round_id after)
    then Round (round_id r) (r_state after) (outcome after) (holder_task_id after) (fence after)
           (opened_unix r) (renewed_unix after) (expires_unix after) (sql_real (settled_unix after))
    else r))).

Definition swap_attempt (held : round) (op : string) (rq : RoundRequest) (oc : string) : _Attempt :=
  MkAttempt (round_id held) (request_id rq) op (holder_task_id held) (fence held) oc (rq_evidence rq) (rq_now rq).

Definition _swap (held : round) (op : string) (advance : round → round) (rq : RoundRequest) (oc : string)
    : Io DB RoundResult :=
  let att := swap_attempt held op rq oc in
  transaction (
    db ← tx_get;
    match _load db (round_id held) with
    | None => reject att UNKNOWN_ROUND
    | Some current =>
        if decide (op = "settle" ∧ r_state current = Settled) then
          if decide (outcome current = oc ∧ holder_task_id current = holder_task_id held ∧
                     fence current = fence held)
          then applied att current true
          else reject att ALREADY_SETTLED
        else
          match _cas_reason current held with
          | Some reason => reject att reason
          | None =>
              let after := advance current in
              _ ← update_round after;
              _ ← _place_lane after;
              applied att after false
          end
    end).

Definition renewed (now lease_sec : float) (r : round) : round :=
  Round (round_id r) (r_state r) (outcome r) (holder_task_id r) (fence r) (opened_unix r) now
    (fadd now lease_sec) (settled_unix r).
Definition handed_off (new_holder : string) (now lease_sec : float) (r : round) : round :=
  Round (round_id r) (r_state r) (outcome r) new_holder (fence r + 1) (opened_unix r) now
    (fadd now lease_sec) (settled_unix r).
Definition settled (oc : string) (now : float) (r : round) : round :=
  Round (round_id r) Settled oc (holder_task_id r) (fence r) (opened_unix r) (renewed_unix r)
    (expires_unix r) (Some now).

Definition renew (held : round) (rq : RoundRequest) (lease_sec : float) : Io DB RoundResult :=
  _swap held "renew" (renewed (rq_now rq) lease_sec) rq EmptyString.

Definition handoff (held : round) (rq : RoundRequest) (new_holder : string) (lease_sec : float)
    : Io DB RoundResult :=
  _swap held "handoff" (handed_off new_holder (rq_now rq) lease_sec) rq EmptyString.

Definition settle (held : round) (rq : RoundRequest) (oc : string) : Io DB RoundResult :=
  if decide (oc ∈ OUTCOMES) then _swap held "settle" (settled oc (rq_now rq)) rq oc
  else io_raise (ValueError ("unknown round outcome " +:+ repr_str oc +:+ "; expected one of "
         +:+ py_repr (F := float) (PList (PStr <$> merge_sort str_le OUTCOMES)))).

(** ** Reading *)

(** [ORDER BY opened_unix DESC], [ASC] and [ORDER BY settled_unix DESC] (NULL sorts first ascending). *)
Definition opened_ge (a b : round) : Prop := fleb (opened_unix b) (opened_unix a) = true.
Definition opened_le (a b : round) : Prop := fleb (opened_unix a) (opened_unix b) = true.
Definition settled_ge (a b : round) : Prop :=
  match settled_unix b, settled_unix a with
  | None, _ => True
  | Some _, None => False
  | Some y, Some x => fleb y x = true
  end.
#[global] Instance opened_ge_dec : RelDecision opened_ge.
Proof. intros a b. unfold opened_ge. apply _. Defined.
#[global] Instance opened_le_dec : RelDecision opened_le.
Proof. intros a b. unfold opened_le. apply _. Defined.
#[global] Instance settled_ge_dec : RelDecision settled_ge.
Proof. intros a b. unfold settled_ge. destruct (settled_unix b), (settled_unix a); apply _. Defined.

Definition open_rows (db : DB) : list round := filter (λ r, r_state r = Open) (rounds db).

Definition held (db : DB) : option round := head (merge_sort opened_ge (open_rows db)).
Definition open_rounds (db : DB) : list round := merge_sort opened_le (open_rows db).
Definition get_round (db : DB) (rid : string) : option round := _load db rid.

Fixpoint stalled_count (outcomes : list string) : nat :=
  match outcomes with
  | [] => 0
  | oc :: rest =>
      if decide (oc ∈ [BOOTED; ADVANCED]) then 0
      else (if decide (oc ∈ [ABANDONED; EXPIRED_REAPED]) then 0 else 1) + stalled_count rest
  end.

Definition consecutive_stalled (db : DB) : nat :=
  stalled_count (outcome <$> merge_sort settled_ge (filter (λ r, r_state r = Settled) (rounds db))).

(** * Properties *)

(** ** What one operation does *)

(** The database after an attempt was recorded. *)
Definition logged (att : _Attempt) (result : attempt_result) (f : Z) (actor reason : string) (db : DB) : DB :=
  with_round_events (λ es, es ++ [event_row att (round_events_seq db + 1) result f actor reason])
    (round_events_seq db + 1) db.

Lemma outbox_append_result att result f actor reason db :
  (∃ exn, _append att result f actor reason db = Raise exn) ∨
  _append att result f actor reason db = Ok ((), logged att result f actor reason db).
Proof.
  unfold _append, not_null, mbind, tx_bind. destruct (is_nan _); [left; by eexists|by right].
Qed.

(** The round's lane row, as [_place_lane] leaves it. *)
Inductive lane_placed (after : round) (db db' : DB) : Prop :=
| placed_open row :
    r_state after = Open → l_key row = (BRINGUP_ROUND_LANE, round_id after) →
    l_task row = holder_task_id after → l_pid row = ROUND_LEASE_PID →
    db' = with_leases (upsert_lease row) db → lane_placed after db db'
| placed_settled :
    r_state after = Settled →
    db' = with_leases (filter (λ r, ¬ (l_lane r = BRINGUP_ROUND_LANE ∧ l_holder r = round_id after))) db →
    lane_placed after db db'.

Lemma place_lane_result after db :
  (∃ exn, _place_lane after db = Raise exn) ∨
  ∃ db', _place_lane after db = Ok ((), db') ∧ lane_placed after db db'.
Proof.
  unfold _place_lane. destruct (r_state after) eqn:E.
  - unfold hold_round_lane, mbind, tx_bind, tx_lift.
    destruct (_lease_iso (renewed_unix after)); [|left; by eexists].
    destruct (_lease_iso (expires_unix after)); [|left; by eexists].
    right. eexists. split; [done|]. by refine (placed_open _ _ _ _ E _ _ _ eq_refl).
  - right. eexists. split; [done|]. by apply placed_settled.
Qed.

(** The row a successful swap writes. *)
Definition stored (after : round) (r : round) : round :=
  if decide (round_id r = round_id after)
  then Round (round_id r) (r_state after) (outcome after) (holder_task_id after) (fence after)
         (opened_unix r) (renewed_unix after) (expires_unix after) (sql_real (settled_unix after))
  else r.

(** The effect of a successful swap of [current] for [after]. *)
Definition swapped (att : _Attempt) (after : round) (db db' : DB) : Prop :=
  is_nan (renewed_unix after) = false ∧ is_nan (expires_unix after) = false ∧
  ∃ db1, lane_placed after (with_rounds (fmap (stored after)) db) db1 ∧
    db' = logged att Applied (fence after) (holder_task_id after) EmptyString db1.

Lemma swap_result h op advance rq oc db :
  let att := swap_attempt h op rq oc in
  (∃ exn, _swap h op advance rq oc db = (Raise exn, db)) ∨
  (∃ reason, _swap h op advance rq oc db
     = (Ok (MkResult false reason), logged att Rejected (fence h) (holder_task_id h) reason db) ∧
     match _load db (round_id h) with
     | None => reason = UNKNOWN_ROUND
     | Some cur =>
         (r_state cur = Settled ∧ op = "settle" ∧ reason = ALREADY_SETTLED ∧
            ¬ (outcome cur = oc ∧ holder_task_id cur = holder_task_id h ∧ fence cur = fence h)) ∨
         _cas_reason cur h = Some reason
     end) ∨
  (∃ cur, _load db (round_id h) = Some cur ∧ op = "settle" ∧ r_state cur = Settled ∧ outcome cur = oc ∧
     holder_task_id cur = holder_task_id h ∧ fence cur = fence h ∧
     _swap h op advance rq oc db
     = (Ok (MkResult true EmptyString), logged att Duplicate (fence cur) (holder_task_id cur) EmptyString db)) ∨
  (∃ cur db', _load db (round_id h) = Some cur ∧ _cas_reason cur h = None ∧
     _swap h op advance rq oc db = (Ok (MkResult true EmptyString), db') ∧ swapped att (advance cur) db db').
Proof.
  intros att. unfold _swap, transaction, mbind, tx_bind, tx_get. fold att.
  assert (∀ reason, (∃ exn, reject att reason db = Raise exn) ∨
    reject att reason db
    = Ok (MkResult false reason, logged att Rejected (fence h) (holder_task_id h) reason db)) as Hrej.
  { intros reason. unfold reject, mbind, tx_bind.
    destruct (outbox_append_result att Rejected (a_fence att) (a_actor att) reason db) as [(? & ->)| ->]; eauto. }
  destruct (_load db (round_id h)) as [cur|] eqn:Hl.
  2:{ destruct (Hrej UNKNOWN_ROUND) as [(? & ->)| ->]; [left; eauto|right; left; eauto]. }
  case_decide as Hset; [destruct Hset as [-> Hset]; case_decide as Hdup|].
  - unfold applied, mbind, tx_bind.
    destruct (outbox_append_result att Duplicate (fence cur) (holder_task_id cur) EmptyString db)
      as [(? & ->)| ->]; [left; eauto|]. right; right; left. exists cur. naive_solver.
  - destruct (Hrej ALREADY_SETTLED) as [(? & ->)| ->]; [left; eauto|]. right; left. eauto 10.
  - destruct (_cas_reason cur h) as [reason|] eqn:Hcas.
    { destruct (Hrej reason) as [(? & ->)| ->]; [left; eauto|]. right; left. eauto. }
    set (after := advance cur). unfold update_round, not_null, mbind, tx_bind, tx_modify.
    destruct (is_nan (renewed_unix after)) eqn:Hn1; [left; by eexists|].
    destruct (is_nan (expires_unix after)) eqn:Hn2; [left; by eexists|]. cbn [mret tx_ret].
    change (with_rounds _ db) with (with_rounds (fmap (stored after)) db).
    destruct (place_lane_result after (with_rounds (fmap (stored after)) db)) as [(? & ->)|(db1 & -> & Hp)];
      [left; by eexists|].
    unfold applied, mbind, tx_bind.
    destruct (outbox_append_result att Applied (fence after) (holder_task_id after) EmptyString db1)
      as [(? & ->)| ->]; [left; by eexists|].
    right; right; right. exists cur. eexists. split_and!; [done..|]. split_and!; [done..|]. by exists db1.
Qed.

(** A caller's work that joins an acquire: it may write elsewhere, not to rounds, lanes or the outbox. *)
Definition join_frame (join : option (Tx DB unit)) : Prop :=
  ∀ db db', default (mret ()) join db = Ok ((), db') →
    rounds db' = rounds db ∧ leases db' = leases db ∧
    round_events db' = round_events db ∧ round_events_seq db' = round_events_seq db.

Lemma open_result rid rq holder lease_sec join db :
  let att := open_attempt rid rq holder in
  let opened := opened_round rid rq holder lease_sec in
  (∃ exn, open rid rq holder lease_sec join db = (Raise exn, db)) ∨
  (∃ reason, open rid rq holder lease_sec join db
     = (Ok (MkResult false reason), logged att Rejected 0 holder reason db) ∧
     (open_rows db ≠ [] ∨ rid ∈ round_id <$> rounds db) ∧
     reason = if decide (rid ∈ round_id <$> rounds db) then ALREADY_EXISTS else EXCLUDED) ∨
  (∃ db1 db2, is_nan (opened_unix opened) = false ∧ is_nan (expires_unix opened) = false ∧
     open_rows db = [] ∧ rid ∉ round_id <$> rounds db ∧
     lane_placed opened (with_rounds (λ rs, rs ++ [opened]) db) db1 ∧
     default (mret ()) join db1 = Ok ((), db2) ∧
     open rid rq holder lease_sec join db
     = (Ok (MkResult true EmptyString), logged att Applied 1 holder EmptyString db2)).
Proof.
  intros att opened. unfold open, transaction, mbind, tx_bind, tx_get. fold att opened.
  assert (Exists (λ r, r_state r = Open) (rounds db) ↔ open_rows db ≠ []) as Hex.
  { unfold open_rows. rewrite Exists_exists. split.
    - intros (r & Hr & Ho) E. assert (r ∈ filter (λ r, r_state r = Open) (rounds db)) as Hin
        by by apply list_elem_of_filter. rewrite E in Hin. by apply not_elem_of_nil in Hin.
    - intros Hne. destruct (filter _ _) as [|r rs] eqn:E; [done|].
      assert (r ∈ filter (λ r, r_state r = Open) (rounds db)) as [? ?]%list_elem_of_filter by (rewrite E; left).
      eauto. }
  case_decide as Hc.
  - set (reason := if decide (rid ∈ _) then ALREADY_EXISTS else EXCLUDED).
    unfold reject, mbind, tx_bind.
    destruct (outbox_append_result att Rejected (a_fence att) (a_actor att) reason db) as [(? & ->)| ->]; [left; eauto|].
    right; left. exists reason. split_and!; [done| |done]. rewrite <- Hex. done.
  - rewrite Hex in Hc. unfold insert_round, not_null, mbind, tx_bind, tx_modify.
    destruct (is_nan (opened_unix opened)) eqn:Hn1; [left; by eexists|].
    destruct (is_nan (expires_unix opened)) eqn:Hn2; [left; by eexists|]. cbn [mret tx_ret].
    destruct (place_lane_result opened (with_rounds (λ rs, rs ++ [opened]) db)) as [(? & ->)|(db1 & -> & Hp)];
      [left; by eexists|].
    destruct (default (mret ()) join db1) as [[[] db2]|] eqn:Hj; [|left; by eexists].
    unfold applied, mbind, tx_bind.
    destruct (outbox_append_result att Applied (fence opened) (holder_task_id opened) EmptyString db2)
      as [(? & ->)| ->]; [left; by eexists|].
    right; right. exists db1, db2. split_and!; [done|done| |tauto|done|done|done].
    destruct (decide (open_rows db = [])); tauto.
Qed.

(** ** The invariant *)

(** The rows of the round lane: holder, task and process. *)
Definition lane_view (rows : list lease_row) : list (string * string * Z) :=
  (λ r, (l_holder r, l_task r, l_pid r)) <$> filter (λ r, l_lane r = BRINGUP_ROUND_LANE) rows.

(** What they should be. *)
Definition open_view (rs : list round) : list (string * string * Z) :=
  (λ r, (round_id r, holder_task_id r, ROUND_LEASE_PID)) <$> filter (λ r, r_state r = Open) rs.

Definition round_ok (r : round) : Prop :=
  (1 <= fence r)%Z ∧ is_nan (renewed_unix r) = false ∧ is_nan (expires_unix r) = false ∧
  match r_state r with
  | Open => outcome r = EmptyString
  | Settled => outcome r ∈ OUTCOMES
  end.

Record round_inv (db : DB) : Prop := {
  ri_ids : NoDup (round_id <$> rounds db);
  ri_one : (length (open_rows db) <= 1)%nat;
  ri_lane : lane_view (leases db) = open_view (rounds db);
  ri_rows : ∀ r, r ∈ rounds db → round_ok r
}.

Create HintDb rounds.
#[export] Hint Resolve ri_ids ri_one ri_lane ri_rows : rounds.

(** Every step of a session that touches rounds or lanes. *)
Inductive round_step (db : DB) : DB → Prop :=
| st_open rid rq holder lease_sec join :
    join_frame join → round_step db (open rid rq holder lease_sec join db).2
| st_renew h rq lease_sec : round_step db (renew h rq lease_sec db).2
| st_handoff h rq new_holder lease_sec : round_step db (handoff h rq new_holder lease_sec db).2
| st_settle h rq oc : round_step db (settle h rq oc db).2
| st_acquire e lanes holder tid action ttl : round_step db (acquire_many e lanes holder tid action ttl db).2
| st_release holder lanes ex :
    _expand_lanes lanes = Ok ex → round_step db (release (Lease holder ex) db).2
| st_heartbeat e tid ttl : round_step db (heartbeat_by_task e tid ttl db).2
| st_reap e : round_step db (reap_dead_holders e db).2
| st_other db' :
    rounds db' = rounds db → leases db' = leases db → round_events db' = round_events db →
    round_events_seq db' = round_events_seq db → round_step db db'.

(** *** Lane operations leave the round lane alone *)

Lemma lane_view_filter (P : lease_row → Prop) `{∀ r, Decision (P r)} rows :
  (∀ r, r ∈ rows → l_lane r = BRINGUP_ROUND_LANE → P r) → lane_view (filter P rows) = lane_view rows.
Proof.
  intros HP. unfold lane_view. f_equal. rewrite list_filter_filter. apply list_filter_ext_in.
  intros r Hr. specialize (HP r Hr). tauto.
Qed.

Lemma lane_view_put row rows :
  l_lane row ≠ BRINGUP_ROUND_LANE → lane_view (put_lease row rows) = lane_view rows.
Proof.
  intros Hrow. unfold put_lease. rewrite <- (lane_view_filter (λ r, l_key r ≠ l_key row) rows).
  - unfold lane_view. rewrite filter_app. rewrite (list_filter_none _ [row]), app_nil_r; [done|].
    by intros r ->%list_elem_of_singleton.
  - intros r _ Hl Hk. unfold l_key in Hk. congruence.
Qed.

Lemma lane_view_fmap (f : lease_row → lease_row) rows :
  (∀ r, l_lane (f r) = l_lane r ∧ l_holder (f r) = l_holder r ∧ l_task (f r) = l_task r ∧ l_pid (f r) = l_pid r) →
  lane_view (f <$> rows) = lane_view rows.
Proof.
  intros Hf. unfold lane_view. induction rows as [|r rows IH]; [done|].
  rewrite fmap_cons, !filter_cons. destruct (Hf r) as (-> & Hh & Ht & Hp).
  case_decide; [|done]. rewrite !fmap_cons, IH. by rewrite Hh, Ht, Hp.
Qed.

Lemma acquire_lane_view e lanes holder tid action ttl db :
  lane_view (leases (acquire_many e lanes holder tid action ttl db).2) = lane_view (leases db) ∧
  rounds (acquire_many e lanes holder tid action ttl db).2 = rounds db.
Proof.
  destruct (acquire_many_result e lanes holder tid action ttl db)
    as [(? & ->)|[->|(ex & exp & _ & Hex & _ & ->)]]; [done..|]. split; [|done]. simpl.
  pose proof (λ x, expand_subset_known lanes ex x Hex) as Hk. clear Hex. generalize (leases db).
  induction ex as [|x ex IH]; intros rows; simpl; [done|].
  rewrite IH by (intros y Hy; apply Hk; by right). apply lane_view_put. simpl. intros ->.
  apply round_lane_unknown, Hk. left.
Qed.

Lemma lane_view_pid db row :
  lane_view (leases db) = open_view (rounds db) → row ∈ leases db → l_lane row = BRINGUP_ROUND_LANE →
  l_pid row = ROUND_LEASE_PID.
Proof.
  intros Hv Hr Hl. assert ((l_holder row, l_task row, l_pid row) ∈ lane_view (leases db)) as Hin.
  { unfold lane_view. apply list_elem_of_fmap. exists row. split; [done|]. by apply list_elem_of_filter. }
  rewrite Hv in Hin. apply list_elem_of_fmap in Hin as (r & E & _). congruence.
Qed.

Lemma reap_lane_view e db :
  lane_view (leases db) = open_view (rounds db) →
  lane_view (leases (reap_dead_holders e db).2) = lane_view (leases db).
Proof.
  intros Hv. simpl. rewrite foldl_delete_keys. apply lane_view_filter. intros r Hr Hl.
  intros (d & Hk & [Hd Hin]%list_elem_of_filter)%list_elem_of_fmap.
  assert (l_lane d = BRINGUP_ROUND_LANE) as Hld by (unfold l_key in Hk; congruence).
  pose proof (lane_view_pid _ _ Hv Hin Hld) as Hp.
  unfold reapable, holder_is_dead in Hd. rewrite Hp in Hd. simpl in Hd.
  destruct (same_environment _ _); rewrite andb_false_r in Hd; done.
Qed.

(** *** Round operations keep the lane row in step *)

Lemma open_view_nil rs : filter (λ r, r_state r = Open) rs = [] → open_view rs = [].
Proof. unfold open_view. by intros ->. Qed.

Lemma upsert_fresh_view row rows :
  l_key row = (BRINGUP_ROUND_LANE, l_holder row) → lane_view rows = [] →
  lane_view (upsert_lease row rows) = [(l_holder row, l_task row, l_pid row)].
Proof.
  intros Hk Hv. assert (∀ r, r ∈ rows → l_lane r ≠ BRINGUP_ROUND_LANE) as Hn.
  { intros r Hr Hl. assert ((l_holder r, l_task r, l_pid r) ∈ lane_view rows) as Hin.
    { unfold lane_view. apply list_elem_of_fmap. exists r. split; [done|]. by apply list_elem_of_filter. }
    rewrite Hv in Hin. by apply not_elem_of_nil in Hin. }
  unfold upsert_lease. rewrite decide_False.
  2:{ intros (r & E & Hr)%list_elem_of_fmap. apply (Hn r Hr). unfold l_key in *. congruence. }
  unfold lane_view. rewrite filter_app. rewrite (list_filter_none _ rows) by auto.
  unfold l_key in Hk. by rewrite filter_cons, decide_True by congruence.
Qed.

(** With one row on the round lane, the upsert of the same round rewrites its task. *)
Lemma upsert_same_view row rows h t :
  l_key row = (BRINGUP_ROUND_LANE, h) → lane_view rows = [(h, t, ROUND_LEASE_PID)] →
  lane_view (upsert_lease row rows) = [(h, l_task row, ROUND_LEASE_PID)].
Proof.
  intros Hk Hv. unfold upsert_lease. rewrite decide_True.
  2:{ assert ((h, t, ROUND_LEASE_PID) ∈ lane_view rows) as Hin by (rewrite Hv; left).
      apply list_elem_of_fmap in Hin as (r & E & [Hl Hr]%list_elem_of_filter).
      apply list_elem_of_fmap. exists r. split; [|done]. rewrite Hk. unfold l_key. congruence. }
  transitivity ((λ p : string * string * Z, (p.1.1, if decide (p.1.1 = h) then l_task row else p.1.2, p.2))
                  <$> lane_view rows); [|rewrite Hv; simpl; by rewrite decide_True].
  unfold lane_view. clear Hv. induction rows as [|r rows IH]; [done|].
  rewrite fmap_cons, !filter_cons. destruct (decide (l_key r = l_key row)) as [E|E]; cbn [l_lane].
  - destruct (decide (l_lane r = BRINGUP_ROUND_LANE)) as [Hl|Hl].
    + rewrite !fmap_cons, IH. f_equal. cbn [fst snd l_holder l_task l_pid].
      by rewrite decide_True by (unfold l_key in *; congruence).
    + exact IH.
  - destruct (decide (l_lane r = BRINGUP_ROUND_LANE)) as [Hl|Hl]; [|exact IH].
    rewrite !fmap_cons, IH. f_equal. cbn [fst snd l_holder l_task l_pid].
    by rewrite decide_False by (unfold l_key in *; congruence).
Qed.

Lemma drop_view rid rows t p :
  lane_view rows = [(rid, t, p)] →
  lane_view (filter (λ r, ¬ (l_lane r = BRINGUP_ROUND_LANE ∧ l_holder r = rid)) rows) = [].
Proof.
  intros Hv. unfold lane_view. rewrite list_filter_filter, list_filter_none; [done|].
  intros r Hr [Hl Hn]. apply Hn. split; [done|].
  assert ((l_holder r, l_task r, l_pid r) ∈ lane_view rows) as Hin.
  { unfold lane_view. apply list_elem_of_fmap. exists r. split; [done|]. by apply list_elem_of_filter. }
  rewrite Hv in Hin. apply list_elem_of_singleton in Hin. congruence.
Qed.

Lemma load_Some db rid r : _load db rid = Some r → r ∈ rounds db ∧ round_id r = rid.
Proof.
  unfold _load. destruct (list_find _ _) as [[i r']|] eqn:E; simpl; [|done]. intros [= <-].
  apply list_find_Some in E as (Hl & Hr & _). split; [|done]. by eapply list_elem_of_lookup_2.
Qed.

Lemma load_elem db r : NoDup (round_id <$> rounds db) → r ∈ rounds db → _load db (round_id r) = Some r.
Proof.
  intros Hnd Hr. destruct (_load db (round_id r)) as [r'|] eqn:E.
  - apply load_Some in E as [Hr' Hid]. f_equal. by eapply (NoDup_key_inj round_id).
  - exfalso. unfold _load in E. rewrite fmap_None, list_find_None, Forall_forall in E. by apply (E r).
Qed.

Lemma cas_None cur h :
  _cas_reason cur h = None →
  r_state cur = Open ∧ holder_task_id cur = holder_task_id h ∧ fence cur = fence h.
Proof.
  unfold _cas_reason. by repeat case_decide.
Qed.

Lemma open_rows_one db r : round_inv db → r ∈ rounds db → r_state r = Open → open_rows db = [r].
Proof.
  intros Hinv Hr Ho. pose proof (ri_one _ Hinv) as H1.
  assert (r ∈ open_rows db) as Hin by by apply list_elem_of_filter.
  destruct (open_rows db) as [|x [|y l]]; simpl in H1; [by apply not_elem_of_nil in Hin| |lia].
  by apply list_elem_of_singleton in Hin as ->.
Qed.

(** A swap rewrites one row in place. *)
Lemma stored_split after cur rs :
  NoDup (round_id <$> rs) → cur ∈ rs → round_id after = round_id cur →
  ∃ l1 l2, rs = l1 ++ cur :: l2 ∧ stored after <$> rs = l1 ++ stored after cur :: l2.
Proof.
  intros Hnd Hc Hid. apply list_elem_of_split in Hc as (l1 & l2 & ->). exists l1, l2. split; [done|].
  rewrite fmap_app, fmap_cons in Hnd. apply NoDup_app in Hnd as (_ & H1 & H2).
  apply NoDup_cons in H2 as [H2 _].
  assert (∀ l : list round, (∀ r, r ∈ l → round_id r ≠ round_id cur) → stored after <$> l = l) as Hsame.
  { intros l Hl. etrans; [|apply list_fmap_id]. apply list_fmap_ext.
    intros i r Hr%list_elem_of_lookup_2. unfold stored. by rewrite decide_False by (rewrite Hid; auto). }
  rewrite fmap_app, fmap_cons, !Hsame; [done|..].
  - intros r Hr E. apply H2. rewrite <- E. by apply list_elem_of_fmap_2.
  - intros r Hr E. apply (H1 (round_id r)); [by apply list_elem_of_fmap_2|]. rewrite E. left.
Qed.

(** A swap of the open round leaves that round alone open, or none. *)
Lemma open_rows_stored after cur db :
  round_inv db → cur ∈ rounds db → r_state cur = Open → round_id after = round_id cur →
  filter (λ r, r_state r = Open) (stored after <$> rounds db)
  = match r_state after with Open => [stored after cur] | Settled => [] end.
Proof.
  intros Hinv Hc Ho Hid. pose proof (open_rows_one _ _ Hinv Hc Ho) as H1.
  destruct (stored_split after cur (rounds db) (ri_ids _ Hinv) Hc Hid) as (l1 & l2 & E & ->).
  unfold open_rows in H1. rewrite E, filter_app, filter_cons_True in H1 by done.
  assert (filter (λ r, r_state r = Open) l1 = [] ∧ filter (λ r, r_state r = Open) l2 = []) as [E1 E2].
  { apply (f_equal length) in H1. rewrite length_app in H1. simpl in H1. split; apply nil_length_inv; lia. }
  rewrite filter_app, E1, filter_cons, E2. simpl.
  assert (r_state (stored after cur) = r_state after) as -> by (unfold stored; by rewrite decide_True).
  by destruct (r_state after).
Qed.

(** What an operation may do to a row it owns. *)
Definition good_advance (advance : round → round) : Prop :=
  ∀ r, round_id (advance r) = round_id r ∧ (fence r <= fence (advance r))%Z ∧
    (round_ok r → r_state r = Open → is_nan (renewed_unix (advance r)) = false →
       is_nan (expires_unix (advance r)) = false → round_ok (advance r)).

Lemma renewed_good now lease_sec : good_advance (renewed now lease_sec).
Proof. intros r. split_and!; [done|simpl; lia|]. unfold round_ok. simpl. tauto. Qed.
Lemma handed_off_good new_holder now lease_sec : good_advance (handed_off new_holder now lease_sec).
Proof. intros r. split_and!; [done|simpl; lia|]. unfold round_ok. simpl. intros (? & _ & _ & ?) _ ? ?.
  split_and!; [lia|done..]. Qed.
Lemma settled_good oc now : oc ∈ OUTCOMES → good_advance (settled oc now).
Proof. intros Hoc r. split_and!; [done|simpl; lia|]. unfold round_ok. simpl. tauto. Qed.

Lemma stored_id after r : round_id (stored after r) = round_id r.
Proof. unfold stored. by case_decide. Qed.

Lemma logged_inv att result f actor reason db : round_inv db → round_inv (logged att result f actor reason db).
Proof. intros [H1 H2 H3 H4]. by split. Qed.

Lemma swapped_inv att advance cur db db' :
  good_advance advance → round_inv db → cur ∈ rounds db → r_state cur = Open →
  swapped att (advance cur) db db' → round_inv db'.
Proof.
  intros Hadv Hinv Hc Ho (Hn1 & Hn2 & db1 & Hp & ->). apply logged_inv.
  destruct (Hadv cur) as (Hid & _ & Hok). set (after := advance cur) in *.
  pose proof (open_rows_stored after cur db Hinv Hc Ho Hid) as Hopen.
  pose proof (open_rows_one _ _ Hinv Hc Ho) as H1.
  assert (rounds db1 = stored after <$> rounds db) as Hr by (destruct Hp; by subst).
  assert (lane_view (leases db) = [(round_id cur, holder_task_id cur, ROUND_LEASE_PID)]) as Hv.
  { rewrite (ri_lane _ Hinv). unfold open_view. unfold open_rows in H1. by rewrite H1. }
  split.
  - rewrite Hr, (key_fmap_update round_id); [by apply ri_ids|apply stored_id].
  - unfold open_rows. rewrite Hr, Hopen. destruct (r_state after); simpl; lia.
  - unfold open_view. rewrite Hr, Hopen. destruct Hp as [row Hs Hk Ht Hpid E|Hs E]; rewrite Hs; subst db1; simpl.
    + rewrite (upsert_same_view row _ (round_id cur) (holder_task_id cur)); [|by rewrite <- Hid|done].
      unfold stored. rewrite decide_True by done. simpl. by rewrite Ht.
    + rewrite Hid. by eapply drop_view.
  - rewrite Hr. intros r (r0 & -> & Hr0)%list_elem_of_fmap. unfold stored. case_decide as E.
    + exact (Hok (ri_rows _ Hinv _ Hc) Ho Hn1 Hn2).
    + by apply (ri_rows _ Hinv).
Qed.

Lemma swap_inv h op advance rq oc db :
  good_advance advance → round_inv db → round_inv (_swap h op advance rq oc db).2.
Proof.
  intros Hadv Hinv. destruct (swap_result h op advance rq oc db)
    as [(? & ->)|[(? & -> & _)|[(cur & _ & _ & _ & _ & _ & _ & ->)|(cur & db' & Hl & Hcas & -> & Hsw)]]]; simpl.
  - done.
  - by apply logged_inv.
  - by apply logged_inv.
  - apply load_Some in Hl as [Hc _]. apply cas_None in Hcas as (Ho & _). by eapply swapped_inv.
Qed.

Lemma opened_inv rid rq holder lease_sec db db1 db2 join :
  let opened := opened_round rid rq holder lease_sec in
  join_frame join → round_inv db → is_nan (opened_unix opened) = false →
  is_nan (expires_unix opened) = false → open_rows db = [] → rid ∉ round_id <$> rounds db →
  lane_placed opened (with_rounds (λ rs, rs ++ [opened]) db) db1 →
  default (mret ()) join db1 = Ok ((), db2) → round_inv db2.
Proof.
  intros opened Hj Hinv Hn1 Hn2 Hno Hid Hp Hjoin. apply Hj in Hjoin as (Hr2 & Hl2 & _).
  destruct Hp as [row _ Hk Ht Hpid E|Hs _]; [|done].
  assert (rounds db2 = rounds db ++ [opened]) as Hr by (rewrite Hr2; by subst).
  assert (lane_view (leases db) = []) as Hv.
  { rewrite (ri_lane _ Hinv). by apply open_view_nil. }
  assert (filter (λ r, r_state r = Open) (rounds db ++ [opened]) = [opened]) as Hopen.
  { rewrite filter_app. unfold open_rows in Hno. by rewrite Hno. }
  split.
  - rewrite Hr, fmap_app, NoDup_app. split_and!; [by apply ri_ids| |apply NoDup_singleton].
    by intros x Hx ->%list_elem_of_singleton.
  - unfold open_rows. rewrite Hr, Hopen. simpl. lia.
  - unfold open_view. rewrite Hr, Hopen, Hl2. subst db1. simpl.
    assert (l_holder row = rid) as Hh by (unfold l_key in Hk; simpl in Hk; congruence).
    rewrite upsert_fresh_view; [|by rewrite Hh|done]. by rewrite Hh, Ht, Hpid.
  - rewrite Hr. intros r [Hin| ->%list_elem_of_singleton]%elem_of_app; [by apply (ri_rows _ Hinv)|].
    unfold round_ok. split_and!; [simpl; lia|done..].
Qed.

Lemma round_step_inv db db' : round_step db db' → round_inv db → round_inv db'.
Proof.
  intros Hs Hinv. destruct Hs as [rid rq holder ls join Hj|h rq ls|h rq nh ls|h rq oc|e lanes h t a ttl
    |h lanes ex Hex|e tid ttl|e|db' Hr Hl _ _].
  - destruct (open_result rid rq holder ls join db)
      as [(? & ->)|[(? & -> & _)|(db1 & db2 & Hn1 & Hn2 & Hno & Hid & Hp & Hjoin & ->)]]; simpl;
      [done|by apply logged_inv|]. apply logged_inv. by eapply opened_inv.
  - apply swap_inv; [apply renewed_good|done].
  - apply swap_inv; [apply handed_off_good|done].
  - unfold settle. case_decide; [|done]. by apply swap_inv; [apply settled_good|].
  - destruct (acquire_lane_view e lanes h t a ttl db) as [Hv Hr]. destruct Hinv as [H1 H2 H3 H4].
    split; unfold open_rows; rewrite ?Hr, ?Hv; done.
  - destruct Hinv as [H1 H2 H3 H4]. split; [done..| |done]. simpl. rewrite lane_view_filter; [done|].
    intros r _ Hl [Hin _]. rewrite Hl in Hin. eapply round_lane_unknown, expand_subset_known; done.
  - assert (lane_view (leases (heartbeat_by_task e tid ttl db).2) = lane_view (leases db) ∧
            rounds (heartbeat_by_task e tid ttl db).2 = rounds db) as [Hv Hr].
    { unfold heartbeat_by_task, mbind, io_bind, io_lift. destruct (_lease_iso _); simpl; [|done].
      unfold transaction, tx_get, mbind, tx_bind. case_decide; simpl; [done|]. split; [|done].
      apply lane_view_fmap. intros r. by case_decide. }
    destruct Hinv as [H1 H2 H3 H4]. split; unfold open_rows; rewrite ?Hr, ?Hv; done.
  - destruct Hinv as [H1 H2 H3 H4]. split; [done..| |done]. by rewrite reap_lane_view.
  - destruct Hinv as [H1 H2 H3 H4]. split; unfold open_rows; rewrite ?Hr, ?Hl; done.
Qed.

Lemma round_inv_reachable db0 db : round_inv db0 → rtc round_step db0 db → round_inv db.
Proof. intros H0 Hs. induction Hs; eauto using round_step_inv. Qed.

Lemma round_inv_init db : rounds db = [] → leases db = [] → round_inv db.
Proof.
  intros Hr Hl. split; unfold open_rows; rewrite ?Hr, ?Hl; [constructor|simpl; lia|done|].
  by intros r ?%not_elem_of_nil.
Qed.

(** ** The contract: a fenced mutex

    The abstract state is who holds the mutex, under which round and fence, and which round ids were
    ever used. *)

Record mutex := Mutex { mx_cur : option (string * string * Z); mx_used : list string }.

#[global] Instance mutex_eq_dec : EqDecision mutex.
Proof. solve_decision. Defined.

(** A request, naming the round, the holder and the fence it believes in. *)
Inductive mutex_op :=
| MOpen (rid holder : string)
| MRenew (rid holder : string) (f : Z)
| MHandoff (rid holder : string) (f : Z) (new_holder : string)
| MSettle (rid holder : string) (f : Z).

Definition mutex_do (o : mutex_op) (m : mutex) : option mutex :=
  match o with
  | MOpen rid h =>
      if decide (mx_cur m = None ∧ rid ∉ mx_used m) then Some (Mutex (Some (rid, h, 1%Z)) (mx_used m ++ [rid]))
      else None
  | MRenew rid h f => if decide (mx_cur m = Some (rid, h, f)) then Some m else None
  | MHandoff rid h f h' =>
      if decide (mx_cur m = Some (rid, h, f)) then Some (Mutex (Some (rid, h', (f + 1)%Z)) (mx_used m)) else None
  | MSettle rid h f => if decide (mx_cur m = Some (rid, h, f)) then Some (Mutex None (mx_used m)) else None
  end.

Definition abs_round (db : DB) : mutex :=
  Mutex ((λ r, (round_id r, holder_task_id r, fence r)) <$> head (open_rows db)) (round_id <$> rounds db).

(** One call of the store. *)
Inductive round_op :=
| ROpen (rid holder : string) (lease_sec : float)
| RRenew (h : round) (lease_sec : float)
| RHandoff (h : round) (new_holder : string) (lease_sec : float)
| RSettle (h : round) (oc : string).

Definition run_op (o : round_op) (rq : RoundRequest) : Io DB RoundResult :=
  match o with
  | ROpen rid holder ls => open rid rq holder ls None
  | RRenew h ls => renew h rq ls
  | RHandoff h nh ls => handoff h rq nh ls
  | RSettle h oc => settle h rq oc
  end.

Definition abs_op (o : round_op) : mutex_op :=
  match o with
  | ROpen rid holder _ => MOpen rid holder
  | RRenew h _ => MRenew (round_id h) (holder_task_id h) (fence h)
  | RHandoff h nh _ => MHandoff (round_id h) (holder_task_id h) (fence h) nh
  | RSettle h _ => MSettle (round_id h) (holder_task_id h) (fence h)
  end.

(** The settle this database already applied. *)
Definition already_applied (o : round_op) (db : DB) : Prop :=
  match o with
  | RSettle h oc => ∃ cur, _load db (round_id h) = Some cur ∧ r_state cur = Settled ∧ outcome cur = oc ∧
      holder_task_id cur = holder_task_id h ∧ fence cur = fence h
  | _ => False
  end.

Lemma no_join_frame : join_frame None.
Proof. intros db db' H. by injection H as <-. Qed.

Lemma abs_logged att result f actor reason db : abs_round (logged att result f actor reason db) = abs_round db.
Proof. done. Qed.

Lemma abs_cur_iff db rid h f :
  round_inv db →
  mx_cur (abs_round db) = Some (rid, h, f) ↔
  ∃ cur, _load db rid = Some cur ∧ r_state cur = Open ∧ holder_task_id cur = h ∧ fence cur = f.
Proof.
  intros Hinv. simpl. split.
  - intros H. destruct (open_rows db) as [|r l] eqn:E; [done|]. simpl in H. simplify_eq.
    assert (r ∈ open_rows db) as Hr by (rewrite E; left). apply list_elem_of_filter in Hr as [Ho Hr].
    exists r. split_and!; [|done..]. apply load_elem; eauto with rounds.
  - intros (cur & [Hc <-]%load_Some & Ho & <- & <-). by rewrite (open_rows_one _ _ Hinv Hc Ho).
Qed.

Lemma abs_swapped att advance cur db db' :
  good_advance advance → round_inv db → cur ∈ rounds db → r_state cur = Open →
  swapped att (advance cur) db db' →
  abs_round db' = Mutex (match r_state (advance cur) with
                         | Open => Some (round_id cur, holder_task_id (advance cur), fence (advance cur))
                         | Settled => None
                         end) (round_id <$> rounds db).
Proof.
  intros Hadv Hinv Hc Ho (_ & _ & db1 & Hp & ->). rewrite abs_logged.
  destruct (Hadv cur) as (Hid & _). set (after := advance cur) in *.
  assert (rounds db1 = stored after <$> rounds db) as Hr by (destruct Hp; by subst).
  unfold abs_round, open_rows. rewrite Hr, (open_rows_stored after cur db Hinv Hc Ho Hid).
  rewrite (key_fmap_update round_id); [|apply stored_id]. f_equal.
  destruct (r_state after); simpl; [|done]. unfold stored. by rewrite decide_True.
Qed.

(** A swap against the abstract mutex, for any advance whose abstract effect is [fin]. *)
Lemma swap_refines h op advance rq oc db (fin : option (string * string * Z)) :
  good_advance advance → round_inv db →
  (∀ cur, r_state cur = Open → round_id cur = round_id h → holder_task_id cur = holder_task_id h →
     fence cur = fence h →
     match r_state (advance cur) with
     | Open => Some (round_id cur, holder_task_id (advance cur), fence (advance cur))
     | Settled => None
     end = fin) →
  let holds := mx_cur (abs_round db) = Some (round_id h, holder_task_id h, fence h) in
  match _swap h op advance rq oc db with
  | (Raise _, db') => db' = db
  | (Ok res, db') =>
      if r_ok res then
        (holds ∧ abs_round db' = Mutex fin (mx_used (abs_round db))) ∨
        (op = "settle" ∧ abs_round db' = abs_round db ∧
         ∃ cur, _load db (round_id h) = Some cur ∧ r_state cur = Settled ∧ outcome cur = oc ∧
           holder_task_id cur = holder_task_id h ∧ fence cur = fence h)
      else ¬ holds ∧ abs_round db' = abs_round db
  end.
Proof.
  intros Hadv Hinv Hfin holds. unfold holds.
  destruct (swap_result h op advance rq oc db)
    as [(? & ->)|[(reason & -> & Hwhy)|[(cur & Hl & -> & Hs & Ho & Hh & Hf & ->)|(cur & db' & Hl & Hcas & -> & Hsw)]]];
    simpl r_ok; cbv beta iota.
  - done.
  - split; [|done]. rewrite abs_cur_iff by done. intros (cur & Hl & Ho & Hh & Hf). rewrite Hl in Hwhy.
    destruct Hwhy as [(Hs & _)|Hcas]; [congruence|]. unfold _cas_reason in Hcas.
    rewrite !decide_False in Hcas by tauto. done.
  - right. split_and!; [done..|]. eauto 10.
  - left. destruct (load_Some _ _ _ Hl) as [Hc Hid]. destruct (cas_None _ _ Hcas) as (Ho & Hh & Hf). split.
    + rewrite abs_cur_iff by done. eauto.
    + rewrite (abs_swapped _ _ _ _ _ Hadv Hinv Hc Ho Hsw). f_equal. by apply Hfin.
Qed.

(** ** Timestamps that can be stored *)

Lemma finite_not_nan (x : float) : f_isfinite x = true → is_nan x = false.
Proof.
  intros Hx. unfold is_nan. assert (feqb x x = true) as ->; [|done]. apply feqb_fleb.
  assert (fleb x x = true) as Hr; [|done]. apply fltb_total; [done..|]. apply fltb_irrefl.
Qed.

Lemma lease_iso_not_nan x s : _lease_iso x = Ok s → is_nan x = false.
Proof. unfold _lease_iso. destruct (f_isfinite x) eqn:E; [|done]. intros _. by apply finite_not_nan. Qed.

Lemma append_returns att result f actor reason db :
  is_nan (a_now att) = false → _append att result f actor reason db = Ok ((), logged att result f actor reason db).
Proof. intros H. unfold _append, not_null, mbind, tx_bind. by rewrite H. Qed.

Lemma place_lane_returns after db :
  (r_state after = Open → is_ok (_lease_iso (renewed_unix after)) = true ∧ is_ok (_lease_iso (expires_unix after)) = true) →
  ∃ db', _place_lane after db = Ok ((), db').
Proof.
  unfold _place_lane. destruct (r_state after); [|eauto]. intros H. specialize (H eq_refl).
  unfold hold_round_lane, mbind, tx_bind, tx_lift.
  destruct (_lease_iso (renewed_unix after)), (_lease_iso (expires_unix after)); naive_solver.
Qed.

Lemma swap_returns h op advance rq oc db :
  is_nan (rq_now rq) = false →
  (∀ cur, cur ∈ rounds db → r_state cur = Open →
     is_nan (renewed_unix (advance cur)) = false ∧ is_nan (expires_unix (advance cur)) = false ∧
     (r_state (advance cur) = Open → is_ok (_lease_iso (renewed_unix (advance cur))) = true ∧
        is_ok (_lease_iso (expires_unix (advance cur))) = true)) →
  ∃ res db', _swap h op advance rq oc db = (Ok res, db').
Proof.
  intros Hnow Hadv. unfold _swap, transaction, mbind, tx_bind, tx_get, reject, applied, mbind, tx_bind.
  assert (∀ r f a rs, ∃ db', _append (swap_attempt h op rq oc) r f a rs db = Ok ((), db')) as Happ
    by (intros; rewrite append_returns by done; eauto).
  destruct (_load db (round_id h)) as [cur|] eqn:Hl.
  2:{ edestruct Happ as [? ->]. eauto. }
  case_decide; [case_decide; edestruct Happ as [? ->]; eauto|].
  destruct (_cas_reason cur h) eqn:Hcas; [edestruct Happ as [? ->]; eauto|].
  apply load_Some in Hl as [Hc _]. apply cas_None in Hcas as (Ho & _).
  destruct (Hadv cur Hc Ho) as (H1 & H2 & H3).
  unfold update_round, not_null, mbind, tx_bind, tx_modify. rewrite H1, H2. cbn [mret tx_ret].
  edestruct (place_lane_returns (advance cur)) as [db1 ->]; [done|].
  rewrite append_returns by done. eauto.
Qed.

(** Times an operation can store. *)
Definition good_times (o : round_op) (rq : RoundRequest) : Prop :=
  is_ok (_lease_iso (rq_now rq)) = true ∧
  match o with
  | ROpen _ _ ls | RRenew _ ls | RHandoff _ _ ls => is_ok (_lease_iso (fadd (rq_now rq) ls)) = true
  | RSettle _ oc => oc ∈ OUTCOMES
  end.

Lemma is_ok_not_nan x : is_ok (_lease_iso x) = true → is_nan x = false.
Proof. destruct (_lease_iso x) eqn:E; [|done]. intros _. by eapply lease_iso_not_nan. Qed.

Lemma run_op_returns o rq db :
  round_inv db → good_times o rq → ∃ res db', run_op o rq db = (Ok res, db').
Proof.
  intros Hinv [Hnow Ht]. pose proof (is_ok_not_nan _ Hnow) as Hn. destruct o as [rid h ls|h ls|h nh ls|h oc]; simpl.
  - unfold open, transaction, mbind, tx_bind, tx_get, reject, applied, mbind, tx_bind.
    case_decide; [rewrite append_returns by done; eauto|].
    unfold insert_round, not_null, mbind, tx_bind, tx_modify.
    cbn [opened_round opened_unix expires_unix]. rewrite Hn, (is_ok_not_nan _ Ht). cbn [mret tx_ret].
    edestruct (place_lane_returns (opened_round rid rq h ls)) as [db1 ->]; [done|].
    cbn [default from_option mret tx_ret]. rewrite append_returns by done. eauto.
  - apply swap_returns; [done|]. intros cur _ _. simpl. eauto using is_ok_not_nan.
  - apply swap_returns; [done|]. intros cur _ _. simpl. eauto using is_ok_not_nan.
  - unfold settle. rewrite decide_True by done. apply swap_returns; [done|]. intros cur Hc _. simpl.
    destruct (ri_rows _ Hinv _ Hc) as (_ & ? & ? & _). done.
Qed.

(** ** Later states *)

(** A settled round never changes again; no round loses its fence. *)
Lemma swap_later h op advance rq oc db r :
  good_advance advance → round_inv db → r ∈ rounds db →
  ∃ r', r' ∈ rounds (_swap h op advance rq oc db).2 ∧ round_id r' = round_id r ∧
    (fence r <= fence r')%Z ∧ (r_state r = Settled → r' = r).
Proof.
  intros Hadv Hinv Hr.
  destruct (swap_result h op advance rq oc db)
    as [(? & ->)|[(? & -> & _)|[(cur & _ & _ & _ & _ & _ & _ & ->)|(cur & db' & Hl & Hcas & -> & (_ & _ & db1 & Hp & ->))]]];
    simpl; [exists r; done..|].
  assert (rounds db1 = stored (advance cur) <$> rounds db) as -> by (destruct Hp; by subst).
  exists (stored (advance cur) r). split_and!; [by apply list_elem_of_fmap_2|apply stored_id| |].
  - unfold stored. case_decide as E; [|done]. simpl.
    destruct (Hadv cur) as (Hid & Hf & _). apply load_Some in Hl as [Hc _].
    by rewrite (NoDup_key_inj round_id _ _ _ (ri_ids _ Hinv) Hr Hc ltac:(congruence)).
  - intros Hs. unfold stored. rewrite decide_False; [done|]. intros E.
    destruct (Hadv cur) as (Hid & _). apply load_Some in Hl as [Hc _]. apply cas_None in Hcas as (Ho & _).
    rewrite (NoDup_key_inj round_id _ _ _ (ri_ids _ Hinv) Hr Hc ltac:(congruence)) in Hs. congruence.
Qed.

Lemma round_step_later db db' r :
  round_inv db → round_step db db' → r ∈ rounds db →
  ∃ r', r' ∈ rounds db' ∧ round_id r' = round_id r ∧ (fence r <= fence r')%Z ∧ (r_state r = Settled → r' = r).
Proof.
  intros Hinv Hs Hr. destruct Hs as [rid rq holder ls join Hj|h rq ls|h rq nh ls|h rq oc|e lanes h t a ttl
    |h lanes ex Hex|e tid ttl|e|db' E _ _ _].
  - exists r. split; [|done].
    destruct (open_result rid rq holder ls join db)
      as [(? & ->)|[(? & -> & _)|(db1 & db2 & _ & _ & _ & _ & Hp & Hjoin & ->)]]; [done..|]. simpl.
    apply Hj in Hjoin as [-> _]. destruct Hp as [row _ _ _ _ ->|_ ->]; simpl; apply elem_of_app; by left.
  - by apply swap_later; [apply renewed_good|..].
  - by apply swap_later; [apply handed_off_good|..].
  - unfold settle. case_decide; [|by exists r]. by apply swap_later; [apply settled_good|..].
  - exists r. by rewrite (proj2 (acquire_lane_view e lanes h t a ttl db)).
  - by exists r.
  - exists r. split; [|done]. unfold heartbeat_by_task, mbind, io_bind, io_lift.
    destruct (_lease_iso _); simpl; [|done]. unfold transaction, tx_get, mbind, tx_bind. by case_decide.
  - by exists r.
  - exists r. by rewrite E.
Qed.

Lemma rounds_later db db' r :
  round_inv db → rtc round_step db db' → r ∈ rounds db →
  ∃ r', r' ∈ rounds db' ∧ round_id r' = round_id r ∧ (fence r <= fence r')%Z ∧ (r_state r = Settled → r' = r).
Proof.
  intros Hinv Hs. revert r. induction Hs as [|db db1 db2 Hs1 Hs IH]; intros r Hr; [by exists r|].
  destruct (round_step_later _ _ _ Hinv Hs1 Hr) as (r1 & Hr1 & Hid1 & Hf1 & Hst1).
  destruct (IH (round_step_inv _ _ Hs1 Hinv) r1 Hr1) as (r2 & Hr2 & Hid2 & Hf2 & Hst2).
  exists r2. split_and!; [done|congruence|lia|]. intros Hset. rewrite (Hst1 Hset) in Hst2. by apply Hst2.
Qed.

(** What a successful swap leaves behind. *)
Lemma swap_ok_stored h op advance rq oc db db' :
  good_advance advance → round_inv db → op ≠ "settle" →
  _swap h op advance rq oc db = (Ok (MkResult true EmptyString), db') →
  ∃ cur, cur ∈ rounds db ∧ round_id cur = round_id h ∧ fence cur = fence h ∧
    stored (advance cur) cur ∈ rounds db'.
Proof.
  intros Hadv Hinv Hop Hsw.
  destruct (swap_result h op advance rq oc db)
    as [(? & E)|[(? & E & _)|[(cur & _ & -> & _)|(cur & db2 & Hl & Hcas & E & (_ & _ & db1 & Hp & ->))]]];
    [congruence|congruence|done|].
  rewrite E in Hsw. injection Hsw as <-. apply load_Some in Hl as [Hc Hid]. apply cas_None in Hcas as (Ho & _ & Hf).
  exists cur. split_and!; [done..|]. simpl.
  assert (rounds db1 = stored (advance cur) <$> rounds db) as -> by (destruct Hp; by subst).
  by apply list_elem_of_fmap_2.
Qed.

(** What a settle leaves behind, applied or replayed. *)
Lemma settle_row h rq oc db db1 :
  round_inv db → settle h rq oc db = (Ok (MkResult true EmptyString), db1) →
  ∃ r, r ∈ rounds db1 ∧ round_id r = round_id h ∧ r_state r = Settled ∧ outcome r = oc ∧
    holder_task_id r = holder_task_id h ∧ fence r = fence h.
Proof.
  intros Hinv Hset. unfold settle in Hset. case_decide as Hoc; [|done].
  destruct (swap_result h "settle" (settled oc (rq_now rq)) rq oc db)
    as [(? & E)|[(? & E & _)|[(cur & Hl & _ & Hs & Ho & Hh & Hf & E)|(cur & db2 & Hl & Hcas & E & (_ & _ & db' & Hp & ->))]]];
    rewrite E in Hset; simplify_eq.
  - apply load_Some in Hl as [Hc Hid]. exists cur. done.
  - apply load_Some in Hl as [Hc Hid]. apply cas_None in Hcas as (_ & Hh & Hf).
    exists (stored (settled oc (rq_now rq) cur) cur). simpl.
    assert (rounds db' = stored (settled oc (rq_now rq) cur) <$> rounds db) as -> by (destruct Hp; by subst).
    split; [by apply list_elem_of_fmap_2|]. unfold stored. rewrite decide_True by done. done.
Qed.

(** A settled round refuses a renew or a handoff. *)
Lemma swap_settled_refused h op advance rq oc db r res db' :
  _load db (round_id h) = Some r → r_state r = Settled → op ≠ "settle" →
  _swap h op advance rq oc db = (Ok res, db') →
  res = MkResult false NOT_OPEN ∧ rounds db' = rounds db ∧ leases db' = leases db.
Proof.
  intros Hl Hs Hop Hsw.
  destruct (swap_result h op advance rq oc db)
    as [(? & E)|[(reason & E & Hwhy)|[(cur & _ & ? & _)|(cur & db2 & Hl2 & Hcas & _)]]]; [congruence| |done|].
  - rewrite Hl in Hwhy. destruct Hwhy as [(_ & ? & _)|Hwhy]; [done|]. unfold _cas_reason in Hwhy.
    rewrite decide_True in Hwhy by (rewrite Hs; done). rewrite E in Hsw. by simplify_eq.
  - apply cas_None in Hcas as (? & _). congruence.
Qed.

(** A settled round accepts the settle it was settled by, and no other outcome. *)
Lemma swap_settled_replay h advance rq oc oc' db r res db' :
  _load db (round_id h) = Some r → r_state r = Settled → outcome r = oc →
  holder_task_id r = holder_task_id h → fence r = fence h →
  _swap h "settle" advance rq oc' db = (Ok res, db') →
  r_ok res = bool_decide (oc' = oc) ∧ rounds db' = rounds db ∧ leases db' = leases db.
Proof.
  intros Hl Hs Ho Hh Hf Hsw.
  destruct (swap_result h "settle" advance rq oc' db)
    as [(? & E)|[(reason & E & Hwhy)|[(cur & Hl2 & _ & _ & Ho2 & _ & _ & E)|(cur & db2 & Hl2 & Hcas & _)]]]; [congruence|..].
  - rewrite E in Hsw. simplify_eq. split; [|done]. rewrite Hl in Hwhy.
    rewrite bool_decide_eq_false_2; [done|]. intros ->.
    destruct Hwhy as [(_ & _ & _ & Hn)|Hwhy]; [by apply Hn|]. unfold _cas_reason in Hwhy.
    rewrite decide_True in Hwhy by (rewrite Hs; done).
    unfold _swap, transaction, mbind, tx_bind, tx_get in E. rewrite Hl, decide_True, decide_True in E by done.
    unfold applied, mbind, tx_bind in E. by destruct (_append _ _ _ _ _ _) as [[]|].
  - rewrite E in Hsw. simplify_eq. rewrite bool_decide_eq_true_2 by congruence. done.
  - apply cas_None in Hcas as (? & _). congruence.
Qed.

(** ** The outbox of one call *)

(** One attempt, one row: numbered next, carrying the request and the verdict. *)
Definition one_event (rq : RoundRequest) (res : RoundResult) (db db' : DB) : Prop :=
  ∃ ev, round_events db' = round_events db ++ [ev] ∧ e_id ev = (round_events_seq db + 1)%Z ∧
    round_events_seq db' = (round_events_seq db + 1)%Z ∧ e_request ev = request_id rq ∧
    e_reason ev = r_reason res ∧ (e_result ev = Rejected ↔ r_ok res = false).

Lemma swap_event h op advance rq oc db :
  match _swap h op advance rq oc db with
  | (Ok res, db') => one_event rq res db db'
  | (Raise _, db') => db' = db
  end.
Proof.
  destruct (swap_result h op advance rq oc db)
    as [(? & ->)|[(reason & -> & _)|[(cur & _ & _ & _ & _ & _ & _ & ->)|(cur & db' & _ & _ & -> & (_ & _ & db1 & Hp & ->))]]].
  - done.
  - eexists. by split_and!.
  - eexists. by split_and!.
  - assert (round_events db1 = round_events db ∧ round_events_seq db1 = round_events_seq db) as [E1 E2]
      by (destruct Hp; by subst).
    unfold one_event, logged. simpl. rewrite E1, E2. eexists. by split_and!.
Qed.

(** * Claims *)

(** Safety.  Whatever rounds are opened, renewed, handed off and settled, and whatever lanes are
    taken, released, refreshed or reaped in between: at most one round is open, and the round lane
    holds exactly one row for it, naming the round and its current holder, and none when no round is
    open. *)
Theorem one_open_round db0 db :
  rounds db0 = [] → leases db0 = [] → rtc round_step db0 db →
  (length (open_rows db) <= 1)%nat ∧
  (λ row, (l_holder row, l_task row)) <$> filter (λ row, l_lane row = BRINGUP_ROUND_LANE) (leases db)
  = (λ r, (round_id r, holder_task_id r)) <$> open_rows db.
Proof.
  intros Hr Hl Hs. pose proof (round_inv_reachable _ _ (round_inv_init _ Hr Hl) Hs) as Hinv.
  split; [by apply ri_one|]. pose proof (ri_lane _ Hinv) as Hv. unfold lane_view, open_view in Hv.
  apply (f_equal (fmap fst)) in Hv. rewrite <- !list_fmap_compose in Hv. exact Hv.
Qed.


(** Safety.  Once a round was handed off, whoever still presents the old fence (or an older one)
    is refused for good: in every later state its renew, handoff or settle is rejected, and no
    round and no lane changes. *)
Theorem stale_holder_fenced h rq nh ls db db1 db2 stale rq' o res db3 :
  round_inv db → handoff h rq nh ls db = (Ok (MkResult true EmptyString), db1) →
  rtc round_step db1 db2 →
  round_id stale = round_id h → (fence stale <= fence h)%Z →
  (∃ ls', o = RRenew stale ls') ∨ (∃ nh' ls', o = RHandoff stale nh' ls') ∨ (∃ oc, o = RSettle stale oc) →
  run_op o rq' db2 = (Ok res, db3) →
  r_ok res = false ∧ rounds db3 = rounds db2 ∧ leases db3 = leases db2.
Proof.
  intros Hinv Hh Hs Hid Hf Ho Hrun.
  assert (round_inv db1) as Hinv1.
  { eapply (round_step_inv db); [|done]. replace db1 with (handoff h rq nh ls db).2 by (by rewrite Hh). constructor. }
  pose proof (round_inv_reachable _ _ Hinv1 Hs) as Hinv2.
  destruct (swap_ok_stored h "handoff" _ rq EmptyString db db1 (handed_off_good nh (rq_now rq) ls) Hinv ltac:(discriminate) Hh)
    as (cur & _ & Hcid & Hcf & Hst).
  destruct (rounds_later _ _ _ Hinv1 Hs Hst) as (r2 & Hr2 & Hid2 & Hf2 & _).
  unfold stored in Hid2, Hf2. rewrite decide_True in Hid2, Hf2 by done. simpl in Hid2, Hf2.
  assert (_load db2 (round_id stale) = Some r2) as Hload.
  { replace (round_id stale) with (round_id r2) by congruence. apply load_elem; eauto with rounds. }
  assert (∀ op advance oc, _swap stale op advance rq' oc db2 = (Ok res, db3) →
            r_ok res = false ∧ rounds db3 = rounds db2 ∧ leases db3 = leases db2) as Hswap.
  { intros op adv oc E. destruct (swap_result stale op adv rq' oc db2)
      as [(? & E2)|[(reason & E2 & _)|[(c & Hl & _ & _ & _ & _ & Hcf' & _)|(c & ? & Hl & Hcas & _)]]].
    - congruence.
    - rewrite E2 in E. by simplify_eq.
    - rewrite Hload in Hl. simplify_eq. lia.
    - rewrite Hload in Hl. simplify_eq. apply cas_None in Hcas as (_ & _ & ?). lia. }
  destruct Ho as [(ls' & ->)|[(nh' & ls' & ->)|(oc & ->)]]; simpl in Hrun; [by eapply Hswap..|].
  unfold settle in Hrun. case_decide; [by eapply Hswap|done].
Qed.

(** Functional.  A settle survives a crash between commit and acknowledgement: once applied,
    repeating it in any later state is accepted as a duplicate, and reporting another outcome, or
    renewing or handing off the round, is refused; none of them changes a round or a lane. *)
Theorem settle_replays h rq oc db db1 db2 rq' :
  round_inv db → settle h rq oc db = (Ok (MkResult true EmptyString), db1) →
  rtc round_step db1 db2 →
  ∀ o res db3, run_op o rq' db2 = (Ok res, db3) →
  match o with
  | RSettle h' oc' => h' = h → r_ok res = bool_decide (oc' = oc) ∧ rounds db3 = rounds db2 ∧ leases db3 = leases db2
  | RRenew h' _ | RHandoff h' _ _ =>
      round_id h' = round_id h → res = MkResult false NOT_OPEN ∧ rounds db3 = rounds db2 ∧ leases db3 = leases db2
  | ROpen rid _ _ => rid = round_id h → r_ok res = false ∧ rounds db3 = rounds db2 ∧ leases db3 = leases db2
  end.
Proof.
  intros Hinv Hset Hs.
  assert (round_inv db1) as Hinv1.
  { eapply (round_step_inv db); [|done]. replace db1 with (settle h rq oc db).2 by (by rewrite Hset). constructor. }
  pose proof (round_inv_reachable _ _ Hinv1 Hs) as Hinv2.
  assert (∃ r, _load db2 (round_id h) = Some r ∧ r_state r = Settled ∧ outcome r = oc ∧
            holder_task_id r = holder_task_id h ∧ fence r = fence h) as (r & Hload & Hrs & Hro & Hrh & Hrf).
  { apply settle_row in Hset as (r & Hr & Hid & Hst & Hoc & Hh & Hf); [|done].
    destruct (rounds_later _ _ _ Hinv1 Hs Hr) as (r2 & Hr2 & Hid2 & _ & Hsame). rewrite (Hsame Hst) in Hr2.
    exists r. split_and!; try done. rewrite <- Hid. apply load_elem; eauto with rounds. }
  intros o res db3 Hrun. destruct o as [rid h' ls|h' ls|h' nh ls|h' oc']; simpl in Hrun.
  - intros ->. destruct (open_result (round_id h) rq' h' ls None db2)
      as [(? & E)|[(reason & E & _)|(? & ? & _ & _ & _ & Hnid & _)]];
      [congruence|rewrite E in Hrun; by simplify_eq|].
    exfalso. apply Hnid. apply load_Some in Hload as [Hr <-]. by apply list_elem_of_fmap_2.
  - intros Hid. eapply swap_settled_refused; [by rewrite Hid|done| |exact Hrun]. discriminate.
  - intros Hid. eapply swap_settled_refused; [by rewrite Hid|done| |exact Hrun]. discriminate.
  - intros ->. unfold settle in Hrun. case_decide; [|done].
    by eapply swap_settled_replay in Hrun.
Qed.

(** Invariant.  The outbox is complete: a call that answers added exactly one row, numbered next,
    with the caller's request id, the reason it returned, and rejected exactly when it said so; a
    call that raised added none. *)
Theorem every_attempt_recorded o rq db :
  match run_op o rq db with
  | (Ok res, db') => one_event rq res db db'
  | (Raise _, db') => db' = db
  end.
Proof.
  destruct o as [rid h ls|h ls|h nh ls|h oc]; simpl; [|apply swap_event..|].
  - destruct (open_result rid rq h ls None db)
      as [(? & ->)|[(reason & -> & _)|(db1 & db2 & _ & _ & _ & _ & Hp & Hj & ->)]].
    + done.
    + eexists. by split_and!.
    + assert (round_events db2 = round_events db ∧ round_events_seq db2 = round_events_seq db) as [E1 E2].
      { injection Hj as <-. destruct Hp; by subst. }
      unfold one_event, logged. simpl. rewrite E1, E2. eexists. by split_and!.
  - unfold settle. case_decide; [apply swap_event|done].
Qed.

(** * Witnesses *)

Definition sample_rq (id : string) : RoundRequest := MkRequest id (b64_of_Z 1767225600) [("why", PStr "boot")].
Definition hour : float := b64_of_Z 3600.

Definition opened_db : DB := (open "r1" (sample_rq "q1") "t1" hour None seeded_db).2.
Definition first_hold : round := opened_round "r1" (sample_rq "q1") "t1" hour.
Definition handed_db : DB := (handoff first_hold (sample_rq "q2") "t2" hour opened_db).2.
Definition second_hold : round := handed_off "t2" (b64_of_Z 1767225600) hour first_hold.
Definition settled_db : DB := (settle second_hold (sample_rq "q3") BOOTED handed_db).2.

Lemma seeded_round_inv : round_inv seeded_db.
Proof. by apply round_inv_init. Qed.
Lemma opened_steps : rtc round_step seeded_db opened_db.
Proof. apply rtc_once. apply st_open. exact no_join_frame. Qed.
Lemma opened_round_inv : round_inv opened_db.
Proof. exact (round_inv_reachable _ _ seeded_round_inv opened_steps). Qed.
Lemma handed_round_inv : round_inv handed_db.
Proof. apply (round_step_inv opened_db); [apply st_handoff|exact opened_round_inv]. Qed.

Lemma one_open_round_witness :
  (λ row, (l_holder row, l_task row)) <$> filter (λ row, l_lane row = BRINGUP_ROUND_LANE) (leases opened_db)
  = [("r1", "t1")].
Proof.
  etrans; [exact (proj2 (one_open_round seeded_db opened_db eq_refl eq_refl opened_steps))|].
  vm_compute. reflexivity.
Defined.


Lemma stale_holder_fenced_witness :
  (settle first_hold (sample_rq "q4") BOOTED handed_db).1 = Ok (MkResult false NOT_OWNER) ∧
  rounds (settle first_hold (sample_rq "q4") BOOTED handed_db).2 = rounds handed_db.
Proof.
  split; [vm_compute; reflexivity|].
  refine (proj1 (proj2 (stale_holder_fenced first_hold (sample_rq "q2") "t2" hour opened_db handed_db handed_db
    first_hold (sample_rq "q4") (RSettle first_hold BOOTED) (MkResult false NOT_OWNER) _ opened_round_inv _
    (rtc_refl _ _) eq_refl (Z.le_refl _) _ _))).
  - vm_compute. reflexivity.
  - right; right. by exists BOOTED.
  - vm_compute. reflexivity.
Defined.

Lemma settle_replays_witness :
  rounds (settle second_hold (sample_rq "q5") BOOTED settled_db).2 = rounds settled_db.
Proof.
  pose proof (settle_replays second_hold (sample_rq "q3") BOOTED handed_db settled_db settled_db (sample_rq "q5")
    handed_round_inv ltac:(vm_compute; reflexivity) (rtc_refl _ _) (RSettle second_hold BOOTED)
    (MkResult true EmptyString) (settle second_hold (sample_rq "q5") BOOTED settled_db).2
    ltac:(vm_compute; reflexivity) eq_refl) as H.
  exact (proj1 (proj2 H)).
Defined.
