(* ===== verification/Bus.v ===== *)
(** * The message bus ([bus/message_bus.py], [bus/cursor_store.py], [bus/db_maintenance.py])

    The append-only [events] log, each agent's read cursor over it, the rebuild of undecided
    proposals on resume, and the retention passes that bound both the log and the task table.  [seq]
    is AUTOINCREMENT: it is drawn from [sqlite_sequence] and never reused, whatever was deleted. *)

From stdpp Require Import base list strings gmap fin_maps sets sorting numbers pretty.
From Stdlib Require Import ZArith Lia Ascii.
From Stdlib Require String.
From S2P Require Import Prelude PyFloat PyVal PyTime Store Lanes Tasks.

Definition TOPIC_ALLOWLIST : list string :=
  ["proposal"; "observation"; "event"; "decision"; "alert"; "delegated_result"; "request"; "response";
   "review_verdict"; "advice"; "strategy_change"].

Definition ROLE_SUBSCRIPTIONS : list (string * list string) :=
  [("orchestration", ["delegated_result"; "review_verdict"; "observation"; "event"; "decision"; "alert";
                      "advice"; "strategy_change"; "response"; "proposal"]);
   ("critic", ["proposal"; "review_verdict"; "advice"; "delegated_result"; "observation"])].

(** [Message.new]: a message the database has not numbered yet. *)
Definition new_message (e : env) (from to top : string) (pl : list (string * json)) (reply : option string)
    : message :=
  Message 0 (uuid4_hex e) from to top reply pl (now_iso e).

Definition with_seq (s : Z) (m : message) : message :=
  Message s (msg_id m) (from_agent m) (to_agent m) (topic m) (in_reply_to m) (payload m) (m_ts m).

Definition append_and_seq (m : message) : Io DB Z :=
  if decide (topic m ∈ TOPIC_ALLOWLIST) then
    transaction (
      db ← tx_get;
      if decide (msg_id m ∈ msg_id <$> events db) then tx_raise (IntegrityError "events.msg_id")
      else
        let s := (events_seq db + 1)%Z in
        _ ← tx_modify (with_events (λ evs, evs ++ [with_seq s m]) s);
        mret s)
  else io_raise (ValueError ("unknown topic: " +:+ repr_str (topic m))).

Definition record_observation (e : env) (source top : string) (pl : list (string * json)) : Io DB unit :=
  _ ← append_and_seq (new_message e source "*" top pl None);
  mret ().

(** ** Reading *)

(** [LIMIT n]: a negative limit is none. *)
Definition sql_limit {A} (n : Z) (l : list A) : list A := if (n <? 0)%Z then l else take (Z.to_nat n) l.

Definition addressed (agent : string) (m : message) : Prop := to_agent m = agent ∨ to_agent m = "*".
#[global] Instance addressed_dec agent m : Decision (addressed agent m).
Proof. unfold addressed. apply _. Defined.

Definition tail_takes (to top : option string) (m : message) : Prop :=
  match to with Some a => addressed a m | None => True end ∧
  match top with Some t => topic m = t | None => True end.
#[global] Instance tail_takes_dec to top m : Decision (tail_takes to top m).
Proof. unfold tail_takes. destruct to, top; apply _. Defined.

(** [ORDER BY seq DESC]: the log is kept in seq order. *)
Definition tail (n : Z) (to : option string) (top : option string) (db : DB) : list message :=
  sql_limit n (reverse (filter (tail_takes to top) (events db))).

Definition count_sync (db : DB) : nat := length (events db).

Definition inbox_context_sync (agent : string) (after_seq : Z) (db : DB) : list message :=
  filter (λ m, (after_seq < m_seq m)%Z ∧ addressed agent m) (events db).

Definition recent_outcomes_context_sync (limit : Z) (db : DB) : list message :=
  sql_limit limit (reverse (filter (λ m, topic m ∈ ["delegated_result"; "review_verdict"]) (events db))).

(** What an agent's inbox takes from the log. *)
Definition inbox_takes (agent : string) (m : message) : Prop :=
  addressed agent m ∧ from_agent m ≠ agent ∧ topic m ∈ default [] (dget agent ROLE_SUBSCRIPTIONS).
#[global] Instance inbox_takes_dec agent m : Decision (inbox_takes agent m).
Proof. unfold inbox_takes. apply _. Defined.

Definition replay_for (agent : string) (after_seq limit : Z) (db : DB) : list message :=
  if decide (default [] (dget agent ROLE_SUBSCRIPTIONS) = []) then []
  else sql_limit limit (filter (λ m, (after_seq < m_seq m)%Z ∧ inbox_takes agent m) (events db)).

Definition lookup_by_id (mid : string) (db : DB) : option message :=
  snd <$> list_find (λ m, msg_id m = mid) (events db).

(** ** Cursors *)

Definition load (agent : string) (db : DB) : Z := default 0%Z (cursors db !! agent).

Definition advance (agent : string) (seq : Z) : Io DB unit :=
  transaction (
    db ← tx_get;
    if (seq <=? load agent db)%Z then mret ()
    else tx_modify (with_cursors (<[agent := seq]>))).

(** ** Proposals and their verdicts *)

(** JSON text, as SQLite's [json_extract] returns a container. *)
Fixpoint json_text (v : json) : string :=
  match v with
  | PNone => "null"
  | PBool b => if b then "true" else "false"
  | PInt z => pretty z
  | PFloat f => frepr f
  | PStr s => of_chars (dquote :: (chars s ≫= quote_char dquote) ++ [dquote])
  | PList l => "[" +:+ join "," (json_text <$> l) +:+ "]"
  | PDict d => "{" +:+ join "," ((λ '(k, v), of_chars (dquote :: (chars k ≫= quote_char dquote) ++ [dquote])
                                       +:+ ":" +:+ json_text v) <$> d) +:+ "}"
  end.

(** [json_extract(payload, '$.target_proposal_msg_id')], compared as text; [None] is NULL. *)
Definition target_sql (m : message) : option string :=
  match dget "target_proposal_msg_id" (payload m) with
  | None | Some PNone => None
  | Some (PStr s) => Some s
  | Some (PBool b) => Some (if b then "1" else "0")
  | Some v => Some (json_text v)
  end.

(** [DECIDED_PROPOSAL_IDS_SQL] *)
Definition decided_sql (evs : list message) : list string :=
  filter (λ s, s ≠ EmptyString) (omap target_sql (filter (λ m, topic m = "review_verdict") evs)).

(** The rows a retention pass must keep: proposals without a verdict. *)
Definition undecided_row (evs : list message) (m : message) : Prop :=
  topic m = "proposal" ∧ msg_id m ∉ decided_sql evs.
#[global] Instance undecided_row_dec evs m : Decision (undecided_row evs m).
Proof. unfold undecided_row. apply _. Defined.

(** [v.payload["target_proposal_msg_id"]] when truthy; a container cannot enter the set. *)
Definition target_py (m : message) : res (option json) :=
  match dget "target_proposal_msg_id" (payload m) with
  | Some v => if truthy v then
                match v with
                | PList _ => Raise (TypeError "unhashable type: 'list'")
                | PDict _ => Raise (TypeError "unhashable type: 'dict'")
                | _ => mret (Some v)
                end
              else mret None
  | None => mret None
  end.

Fixpoint decided_py (verdicts : list message) : res (list json) :=
  match verdicts with
  | [] => mret []
  | m :: rest =>
      t ← target_py m;
      ts ← decided_py rest;
      mret (match t with Some v => v :: ts | None => ts end)
  end.

(** [p.msg_id in decided_ids]: a string equals only a string. *)
Definition id_decided (decided : list json) (mid : string) : bool :=
  existsb (λ v, match v with PStr s => bool_decide (s = mid) | _ => false end) decided.

(** The proposals [replay_for_resume] puts back in the pending queue, in its order. *)
Definition replay_for_resume (db : DB) : res (list message) :=
  let proposals := tail 10000 None (Some "proposal") db in
  let verdicts := tail 10000 None (Some "review_verdict") db in
  decided ← decided_py verdicts;
  mret (filter (λ p, id_decided decided (msg_id p) = false) proposals).

(** ** Retention *)

Definition DEFAULT_EVENTS_KEEP_RECENT : Z := 5000.
Definition DEFAULT_TASKS_KEEP_DONE : Z := 2000.

(** [MAX(seq)], 0 on an empty log. *)
Definition max_seq (evs : list message) : Z := foldr Z.max 0%Z (m_seq <$> evs).

(** The read half of [prune_events]: the cutoff, when there is anything to delete. *)
Definition prune_cutoff (keep_recent : Z) (db : DB) : option Z :=
  if (max_seq (events db) <=? 0)%Z then None
  else
    let delete_below := (max_seq (events db) - Z.max 0 keep_recent)%Z in
    if (delete_below <=? 0)%Z then None else Some delete_below.

Definition prunable_event (evs : list message) (cutoff : Z) (m : message) : Prop :=
  (m_seq m <= cutoff)%Z ∧ ¬ undecided_row evs m.
#[global] Instance prunable_event_dec evs cutoff m : Decision (prunable_event evs cutoff m).
Proof. unfold prunable_event. apply _. Defined.

(** Its write half; the log may have grown since the read. *)
Definition prune_delete (cutoff : Z) : Io DB Z :=
  transaction (
    db ← tx_get;
    let evs := events db in
    let gone := filter (prunable_event evs cutoff) evs in
    _ ← tx_modify (λ db, with_events (filter (λ m, ¬ prunable_event evs cutoff m)) (events_seq db) db);
    mret (Z.of_nat (length gone))).

Definition prune_events (keep_recent : Z) : Io DB Z :=
  cutoff ← io_gets (prune_cutoff keep_recent);
  match cutoff with
  | None => mret 0%Z
  | Some c => prune_delete c
  end.

Definition _PRUNABLE_TASK_STATES : list task_state := [Succeeded; Cancelled].

Definition prunable_task (t : task) : Prop := t_state t ∈ _PRUNABLE_TASK_STATES.
#[global] Instance prunable_task_dec t : Decision (prunable_task t).
Proof. unfold prunable_task. apply _. Defined.

(** [ORDER BY updated_at DESC] *)
Definition newer (a b : task) : Prop := str_le (updated_at b) (updated_at a).
#[global] Instance newer_dec : RelDecision newer.
Proof. intros a b. unfold newer. apply _. Defined.

(** [SELECT task_id ... WHERE state IN (...) ORDER BY updated_at DESC LIMIT ?] *)
Definition kept_done (keep : nat) (ts : list task) : list task :=
  take keep (merge_sort newer (filter prunable_task ts)).

Definition prune_tasks (keep_done : Z) : Io DB Z :=
  let keep := Z.to_nat (Z.max 0 keep_done) in
  transaction (
    db ← tx_get;
    let kept := task_id <$> kept_done keep (tasks db) in
    let gone t := prunable_task t ∧ task_id t ∉ kept in
    _ ← tx_modify (with_tasks (filter (λ t, ¬ gone t)));
    mret (Z.of_nat (length (filter gone (tasks db))))).

Definition run_db_retention : Io DB (Z * Z) :=
  events_deleted ← prune_events DEFAULT_EVENTS_KEEP_RECENT;
  tasks_deleted ← prune_tasks DEFAULT_TASKS_KEEP_DONE;
  mret (events_deleted, tasks_deleted).

(** ** One turn of a reader ([loop/conversation.py]) *)

Definition _INBOX_PROMPT_CHARS : nat := 40000.

(** The lines after the first, while they fit. *)
Fixpoint fit_loop (used budget : nat) (lines : list string) : list string :=
  match lines with
  | [] => []
  | line :: rest =>
      let used' := (used + String.length line + 1)%nat in
      if (budget <? used')%nat then [] else line :: fit_loop used' budget rest
  end.

Definition _fit_to_budget (lines : list string) (budget_chars : nat) : list string :=
  match lines with
  | [] => []
  | line :: rest =>
      let first := String.substring 0 budget_chars line in
      first :: fit_loop (String.length first) budget_chars rest
  end.

(** The pending proposals an inbox lacks, looked up in the log. *)
Fixpoint missing_pending (db : DB) (seen pending : list string) : list message :=
  match pending with
  | [] => []
  | pid :: rest =>
      if decide (pid = EmptyString ∨ pid ∈ seen) then missing_pending db seen rest
      else match lookup_by_id pid db with
           | Some pm => pm :: missing_pending db (pid :: seen) rest
           | None => missing_pending db seen rest
           end
  end.

Definition seq_le (a b : message) : Prop := (m_seq a <= m_seq b)%Z.
#[global] Instance seq_le_dec : RelDecision seq_le.
Proof. intros a b. unfold seq_le. apply _. Defined.

Definition _augment_critic_inbox_with_pending (db : DB) (pending : list string) (rendered : list message)
    : list message :=
  match missing_pending db (msg_id <$> rendered) pending with
  | [] => rendered
  | extra => merge_sort seq_le (rendered ++ extra)
  end.

(** The unread messages a prompt shows; [fmt] is the line a message is rendered to. *)
Definition _render_inbox_sections (fmt : message → string) (pending : list string) (agent : string) (db : DB)
    : list message :=
  let unread := replay_for agent (load agent db) DEFAULT_EVENTS_KEEP_RECENT db in
  let rendered := if decide (agent = "critic") then _augment_critic_inbox_with_pending db pending unread
                  else unread in
  let inbox_lines := _fit_to_budget (fmt <$> rendered) _INBOX_PROMPT_CHARS in
  filter (λ m, msg_id m ∈ msg_id <$> unread) (take (length inbox_lines) rendered).

(** A turn: show the inbox, then [advance_rendered_cursor] to the last message shown. *)
Definition read_turn (fmt : message → string) (pending : list string) (agent : string)
    : Io DB (list message) :=
  read ← io_gets (_render_inbox_sections fmt pending agent);
  match last read with
  | None => mret read
  | Some m => _ ← advance agent (m_seq m); mret read
  end.

(** * Properties *)

(** ** The log *)

Definition seq_lt (a b : message) : Prop := (m_seq a < m_seq b)%Z.

Record log_inv (db : DB) : Prop := {
  lg_sorted : StronglySorted seq_lt (events db);
  lg_bound : ∀ m, m ∈ events db → (0 < m_seq m <= events_seq db)%Z;
  lg_ids : NoDup (msg_id <$> events db);
  lg_nonneg : (0 <= events_seq db)%Z
}.

Create HintDb bus.
#[export] Hint Resolve lg_sorted lg_bound lg_ids lg_nonneg : bus.

Lemma StronglySorted_filter {A} (R : relation A) (P : A → Prop) `{∀ x, Decision (P x)} l :
  StronglySorted R l → StronglySorted R (filter P l).
Proof.
  induction 1 as [|x l Hl IH Hx]; [constructor|]. rewrite filter_cons. case_decide; [|done].
  constructor; [done|]. apply Forall_forall. intros y [_ Hy]%list_elem_of_filter.
  rewrite Forall_forall in Hx. auto.
Qed.

Lemma StronglySorted_take {A} (R : relation A) n (l : list A) : StronglySorted R l → StronglySorted R (take n l).
Proof. rewrite <- (take_drop n l) at 1. apply StronglySorted_app_1_l. Qed.

Lemma StronglySorted_snoc {A} (R : relation A) l x :
  StronglySorted R l → (∀ y, y ∈ l → R y x) → StronglySorted R (l ++ [x]).
Proof.
  intros Hl Hx. apply StronglySorted_app_2; [|done|repeat constructor].
  intros y z Hy ->%list_elem_of_singleton. auto.
Qed.

Lemma sql_limit_take {A} n (l : list A) : ∃ k, sql_limit n l = take k l.
Proof.
  unfold sql_limit. destruct (n <? 0)%Z; [|by eexists]. exists (length l). by rewrite take_ge.
Qed.

Lemma append_result m db :
  (∃ exn, append_and_seq m db = (Raise exn, db)) ∨
  (topic m ∈ TOPIC_ALLOWLIST ∧ msg_id m ∉ msg_id <$> events db ∧
   append_and_seq m db
   = (Ok (events_seq db + 1)%Z,
      with_events (λ evs, evs ++ [with_seq (events_seq db + 1) m]) (events_seq db + 1) db)).
Proof.
  unfold append_and_seq. case_decide; [|left; by eexists].
  unfold transaction, mbind, tx_bind, tx_get. case_decide; [left; by eexists|right; done].
Qed.

Lemma append_inv m db : log_inv db → log_inv (append_and_seq m db).2.
Proof.
  intros [H1 H2 H3 H4]. destruct (append_result m db) as [(? & ->)|(_ & Hid & ->)]; [by split|]. split; simpl.
  - apply StronglySorted_snoc; [done|]. intros y Hy. unfold seq_lt. simpl. specialize (H2 y Hy). lia.
  - intros y [Hy| ->%list_elem_of_singleton]%elem_of_app; simpl; [specialize (H2 y Hy)|]; lia.
  - rewrite fmap_app, NoDup_app. split_and!; [done| |apply NoDup_singleton].
    by intros x Hx ->%list_elem_of_singleton.
  - lia.
Qed.

Lemma prune_delete_eq cutoff db :
  prune_delete cutoff db =
    (Ok (Z.of_nat (length (filter (prunable_event (events db) cutoff) (events db)))),
     with_events (filter (λ m, ¬ prunable_event (events db) cutoff m)) (events_seq db) db).
Proof. done. Qed.

Lemma prune_delete_inv cutoff db : log_inv db → log_inv (prune_delete cutoff db).2.
Proof.
  intros [H1 H2 H3 H4]. rewrite prune_delete_eq. split; simpl.
  - by apply StronglySorted_filter.
  - intros m [_ Hm]%list_elem_of_filter. auto.
  - by apply NoDup_key_filter.
  - done.
Qed.

Lemma max_seq_spec evs : (∀ m, m ∈ evs → (m_seq m <= max_seq evs)%Z) ∧ (0 <= max_seq evs)%Z.
Proof.
  unfold max_seq. induction evs as [|x evs [IH1 IH2]]; [split; [by intros ? ?%not_elem_of_nil|done]|].
  rewrite fmap_cons. cbn [foldr].
  split; [|lia]. intros m [->|Hm]%elem_of_cons; [lia|]. specialize (IH1 m Hm). lia.
Qed.

(** ** What a turn reads is a prefix of the unread messages *)

Lemma filter_take_prefix {A} (P : A → Prop) `{∀ x, Decision (P x)} n l :
  ∃ k, filter P (take n l) = take k (filter P l).
Proof.
  exists (length (filter P (take n l))). rewrite <- (take_drop n l) at 3. rewrite filter_app.
  by rewrite take_app_length.
Qed.

Lemma unread_prefix_events agent db :
  ∃ k, replay_for agent (load agent db) DEFAULT_EVENTS_KEEP_RECENT db
       = take k (filter (λ m, (load agent db < m_seq m)%Z ∧ inbox_takes agent m) (events db)).
Proof.
  unfold replay_for. case_decide as E; [by exists 0%nat|]. apply sql_limit_take.
Qed.

Lemma missing_pending_spec db seen pending m :
  m ∈ missing_pending db seen pending → m ∈ events db ∧ msg_id m ∉ seen.
Proof.
  revert seen. induction pending as [|pid rest IH]; intros seen; simpl; [by intros ?%not_elem_of_nil|].
  case_decide as Hs; [apply IH|]. destruct (lookup_by_id pid db) as [pm|] eqn:Hl; [|apply IH].
  assert (pm ∈ events db ∧ msg_id pm = pid) as [Hpm Hid].
  { unfold lookup_by_id in Hl. destruct (list_find _ _) as [[i x]|] eqn:E; [|done]. simpl in Hl. simplify_eq.
    apply list_find_Some in E as (Hx & ? & _). split; [|done]. by eapply list_elem_of_lookup_2. }
  intros [->|Hm]%elem_of_cons; [split; [done|]; rewrite Hid; tauto|].
  apply IH in Hm as [? Hn]. split; [done|]. rewrite not_elem_of_cons in Hn. tauto.
Qed.

#[global] Instance seq_le_total : Total seq_le.
Proof. intros a b. unfold seq_le. lia. Qed.
#[global] Instance seq_le_trans : Transitive seq_le.
Proof. intros a b c. unfold seq_le. lia. Qed.

Lemma seq_lt_le l : StronglySorted seq_lt l → StronglySorted seq_le l.
Proof.
  induction 1 as [|x l Hl IH Hx]; constructor; [done|]. eapply Forall_impl; [done|].
  unfold seq_lt, seq_le. lia.
Qed.

(** In a sorted log, the sequence number identifies the message. *)
Lemma seq_inj l x y : StronglySorted seq_lt l → x ∈ l → y ∈ l → m_seq x = m_seq y → x = y.
Proof.
  induction 1 as [|z l Hl IH Hz]; intros Hx Hy E; [by apply not_elem_of_nil in Hx|].
  rewrite Forall_forall in Hz. apply elem_of_cons in Hx as [->|Hx], Hy as [->|Hy]; auto.
  - specialize (Hz y Hy). unfold seq_lt in Hz. lia.
  - specialize (Hz x Hx). unfold seq_lt in Hz. lia.
Qed.

(** Merging older pending proposals into the critic's inbox does not disturb the unread ones. *)
Lemma augment_keeps_unread db pending unread :
  log_inv db → StronglySorted seq_lt unread → (∀ m, m ∈ unread → m ∈ events db) →
  filter (λ m, msg_id m ∈ msg_id <$> unread) (_augment_critic_inbox_with_pending db pending unread) = unread.
Proof.
  intros Hlog Hs Hsub. unfold _augment_critic_inbox_with_pending.
  assert (filter (λ m, msg_id m ∈ msg_id <$> unread) unread = unread) as Hall.
  { apply list_filter_all. intros m Hm. by apply list_elem_of_fmap_2. }
  destruct (missing_pending db (msg_id <$> unread) pending) as [|x extra] eqn:E; [done|]. rewrite <- E.
  set (ex := missing_pending db (msg_id <$> unread) pending).
  assert (filter (λ m, msg_id m ∈ msg_id <$> unread) (merge_sort seq_le (unread ++ ex)) ≡ₚ unread) as Hperm.
  { rewrite merge_sort_Permutation, filter_app, Hall, (list_filter_none _ ex), app_nil_r; [done|].
    intros m Hm. by apply missing_pending_spec in Hm as [_ ?]. }
  apply (StronglySorted_unique_strong seq_le).
  - intros m1 m2 H1 H2 H12 H21. apply (seq_inj (events db)); [by apply lg_sorted|..|unfold seq_le in *; lia].
    + apply Hsub. by rewrite <- Hperm.
    + by apply Hsub.
  - apply StronglySorted_filter, StronglySorted_merge_sort; apply _.
  - by apply seq_lt_le.
  - done.
Qed.

Lemma read_prefix fmt pending agent db :
  log_inv db →
  ∃ k, _render_inbox_sections fmt pending agent db
       = take k (filter (λ m, (load agent db < m_seq m)%Z ∧ inbox_takes agent m) (events db)).
Proof.
  intros Hlog. unfold _render_inbox_sections.
  destruct (unread_prefix_events agent db) as [k0 Hk0].
  set (unread := replay_for agent (load agent db) DEFAULT_EVENTS_KEEP_RECENT db) in *.
  assert (StronglySorted seq_lt unread) as Hs.
  { rewrite Hk0. apply StronglySorted_take, StronglySorted_filter, lg_sorted, Hlog. }
  assert (∀ m, m ∈ unread → m ∈ events db) as Hsub.
  { intros m Hm. rewrite Hk0 in Hm. apply elem_of_take_in in Hm. by apply list_elem_of_filter in Hm as [_ ?]. }
  set (rendered := if decide (agent = "critic") then _ else _).
  assert (filter (λ m, msg_id m ∈ msg_id <$> unread) rendered = unread) as Hr.
  { unfold rendered. case_decide; [by apply augment_keeps_unread|]. apply list_filter_all.
    intros m Hm. by apply list_elem_of_fmap_2. }
  destruct (filter_take_prefix (λ m, msg_id m ∈ msg_id <$> unread)
    (length (_fit_to_budget (fmt <$> rendered) _INBOX_PROMPT_CHARS)) rendered) as [k ->].
  rewrite Hr, Hk0. exists (k `min` k0)%nat. by rewrite take_take.
Qed.

(** A turn reads a prefix of the unread inbox and moves the cursor to its end. *)
Lemma read_turn_eq fmt pending agent db :
  log_inv db →
  ∃ k, let read := take k (filter (λ m, (load agent db < m_seq m)%Z ∧ inbox_takes agent m) (events db)) in
  read_turn fmt pending agent db =
    (Ok read, match last read with
              | None => db
              | Some m => with_cursors (<[agent := m_seq m]>) db
              end).
Proof.
  intros Hlog. destruct (read_prefix fmt pending agent db Hlog) as [k Hk]. exists k. simpl.
  unfold read_turn, io_gets, mbind, io_bind. rewrite Hk. destruct (last _) as [m|] eqn:Hl; [|done].
  unfold advance, transaction, mbind, tx_bind, tx_get. apply last_Some_elem_of in Hl.
  apply elem_of_take_in, list_elem_of_filter in Hl as [[Hlt _] _].
  rewrite (proj2 (Z.leb_gt _ _)) by lia. done.
Qed.

(** ** An agent's reading of the log *)

(** The database, what the agent was shown in settled turns, and everything ever appended. *)
Record bus_run := BusRun { br_db : DB; br_read : list message; br_all : list message }.

Inductive bus_step (fmt : message → string) (agent : string) (s : bus_run) : bus_run → Prop :=
| bs_append m n db' :
    append_and_seq m (br_db s) = (Ok n, db') →
    bus_step fmt agent s (BusRun db' (br_read s) (br_all s ++ [with_seq n m]))
| bs_read pending read db' :
    read_turn fmt pending agent (br_db s) = (Ok read, db') →
    bus_step fmt agent s (BusRun db' (br_read s ++ read) (br_all s))
| bs_prune cutoff :
    bus_step fmt agent s (BusRun (prune_delete cutoff (br_db s)).2 (br_read s) (br_all s))
| bs_advance_other other seq :
    other ≠ agent → bus_step fmt agent s (BusRun (advance other seq (br_db s)).2 (br_read s) (br_all s))
| bs_other db' :
    events db' = events (br_db s) → events_seq db' = events_seq (br_db s) →
    cursors db' = cursors (br_db s) → bus_step fmt agent s (BusRun db' (br_read s) (br_all s)).

Record run_inv (agent : string) (s : bus_run) : Prop := {
  rn_log : log_inv (br_db s);
  rn_all : ∀ m, m ∈ events (br_db s) → m ∈ br_all s;
  rn_read_sorted : StronglySorted seq_lt (br_read s);
  rn_read : ∀ m, m ∈ br_read s →
    inbox_takes agent m ∧ m ∈ br_all s ∧ (m_seq m <= load agent (br_db s))%Z;
  rn_shown : ∀ m, m ∈ events (br_db s) → inbox_takes agent m →
    (m_seq m <= load agent (br_db s))%Z → m ∈ br_read s;
  rn_cursor : (load agent (br_db s) <= events_seq (br_db s))%Z
}.

(** In a sorted list, what is at most the last of a prefix is in the prefix. *)
Lemma sorted_prefix_closed l k m x :
  StronglySorted seq_lt l → last (take k l) = Some m → x ∈ l → (m_seq x <= m_seq m)%Z → x ∈ take k l.
Proof.
  intros Hs Hl Hx Hle. rewrite <- (take_drop k l) in Hx. apply elem_of_app in Hx as [|Hx]; [done|].
  apply last_Some_elem_of in Hl. rewrite <- (take_drop k l) in Hs.
  pose proof (StronglySorted_app_1_elem_of _ _ _ _ _ Hs Hl Hx) as Hlt. unfold seq_lt in Hlt. lia.
Qed.

(** And the last of a sorted list is its greatest. *)
Lemma sorted_last_max l m x : StronglySorted seq_lt l → last l = Some m → x ∈ l → (m_seq x <= m_seq m)%Z.
Proof.
  intros Hs [l' ->]%last_Some Hx. apply elem_of_app in Hx as [Hx|Hx%list_elem_of_singleton].
  - pose proof (StronglySorted_app_1_elem_of _ _ _ x m Hs Hx ltac:(left)) as Hlt. unfold seq_lt in Hlt. lia.
  - by subst.
Qed.

Lemma read_step_inv fmt agent pending s read db' :
  run_inv agent s → read_turn fmt pending agent (br_db s) = (Ok read, db') →
  run_inv agent (BusRun db' (br_read s ++ read) (br_all s)).
Proof.
  intros [H1 H2 H3 H4 H5 H6] Hread. destruct (read_turn_eq fmt pending agent (br_db s) H1) as [k Hk].
  rewrite Hk in Hread. set (unread := filter _ _) in *. injection Hread as <- <-.
  assert (StronglySorted seq_lt unread) as Hus by (apply StronglySorted_filter, lg_sorted, H1).
  destruct (last (take k unread)) as [m|] eqn:Hl.
  2:{ apply last_None in Hl. rewrite Hl, app_nil_r. by split. }
  assert (∀ x, x ∈ take k unread → (load agent (br_db s) < m_seq x)%Z ∧ inbox_takes agent x ∧ x ∈ events (br_db s)) as Hin.
  { intros x Hx%elem_of_take_in. apply list_elem_of_filter in Hx as [[? ?] ?]. done. }
  assert (load agent (with_cursors (<[agent := m_seq m]>) (br_db s)) = m_seq m) as Hload.
  { unfold load. simpl. by rewrite lookup_insert_eq. }
  pose proof (StronglySorted_take seq_lt k _ Hus) as Hts.
  assert (m ∈ take k unread) as Hm by by apply last_Some_elem_of.
  split; simpl; rewrite ?Hload.
  - destruct H1. by split.
  - done.
  - apply StronglySorted_app_2; [|done|done]. intros a b Ha Hb. apply H4 in Ha as (_ & _ & ?).
    apply Hin in Hb as (? & _). unfold seq_lt. lia.
  - intros x [Hx|Hx]%elem_of_app.
    + destruct (H4 x Hx) as (? & ? & ?). destruct (Hin m Hm) as (? & _). split_and!; [done..|lia].
    + destruct (Hin x Hx) as (? & ? & ?). split_and!; [done|auto|]. by eapply sorted_last_max.
  - intros x Hx Ht Hle. apply elem_of_app.
    destruct (decide (m_seq x <= load agent (br_db s))%Z); [left; auto|right].
    eapply sorted_prefix_closed; [done|done| |done]. apply list_elem_of_filter. split; [|done]. split; [lia|done].
  - destruct (Hin m Hm) as (_ & _ & He). by apply (lg_bound _ H1) in He as [_ ?].
Qed.

Lemma bus_step_inv fmt agent s s' : bus_step fmt agent s s' → run_inv agent s → run_inv agent s'.
Proof.
  intros Hs Hinv. destruct Hs as [m n db' Ha|pending read db' Hr|cutoff|other seq Hne|db' E1 E2 E3].
  - pose proof (append_inv m (br_db s) (rn_log _ _ Hinv)) as Hlog.
    destruct Hinv as [H1 H2 H3 H4 H5 H6]. rewrite Ha in Hlog. simpl in Hlog.
    destruct (append_result m (br_db s)) as [(? & E)|(_ & _ & E)]; rewrite E in Ha; simplify_eq.
    assert (load agent (with_events (λ evs, evs ++ [with_seq (events_seq (br_db s) + 1) m])
              (events_seq (br_db s) + 1) (br_db s)) = load agent (br_db s)) as Hl by done.
    split; simpl; rewrite ?Hl; [done| |done| | |lia].
    + intros x [Hx|Hx]%elem_of_app; apply elem_of_app; [left; auto|by right].
    + intros x Hx. destruct (H4 x Hx) as (? & ? & ?). split_and!; [done| |done]. apply elem_of_app. by left.
    + intros x [Hx| ->%list_elem_of_singleton]%elem_of_app; [auto|]. simpl. lia.
  - by eapply read_step_inv.
  - pose proof (prune_delete_inv cutoff (br_db s) (rn_log _ _ Hinv)) as Hlog.
    destruct Hinv as [H1 H2 H3 H4 H5 H6]. split; simpl; [done| |done|done| |done].
    + intros x [_ Hx]%list_elem_of_filter. auto.
    + intros x [_ Hx]%list_elem_of_filter. auto.
  - destruct Hinv as [H1 H2 H3 H4 H5 H6]. unfold advance, transaction, mbind, tx_bind, tx_get.
    destruct (seq <=? load other (br_db s))%Z; [by split|].
    assert (load agent (with_cursors (<[other := seq]>) (br_db s)) = load agent (br_db s)) as Hl.
    { unfold load. simpl. by rewrite lookup_insert_ne. }
    split; simpl; rewrite ?Hl; try done. destruct H1. by split.
  - destruct Hinv as [H1 H2 H3 H4 H5 H6]. assert (load agent db' = load agent (br_db s)) as Hl.
    { unfold load. by rewrite E3. }
    destruct H1 as [L1 L2 L3 L4]. split; simpl; rewrite ?Hl, ?E1, ?E2; try done.
    split; rewrite ?E1, ?E2; done.
Qed.

Lemma run_inv_init agent db : events db = [] → events_seq db = 0%Z → cursors db = ∅ → run_inv agent (BusRun db [] []).
Proof.
  intros E1 E2 E3. assert (load agent db = 0%Z) as Hl by (unfold load; by rewrite E3, lookup_empty).
  split; simpl; rewrite ?E1, ?E2, ?Hl; try (by intros ? ?%not_elem_of_nil); [|constructor|lia].
  split; rewrite ?E1, ?E2; [constructor|by intros ? ?%not_elem_of_nil|constructor|lia].
Qed.

Lemma run_inv_reachable fmt agent s s' : run_inv agent s → rtc (bus_step fmt agent) s s' → run_inv agent s'.
Proof. intros H0 Hs. induction Hs; eauto using bus_step_inv. Qed.

(** ** Undecided proposals *)

(** Every verdict names, if anything, a string that is not empty; the reviewer's schema. *)
Definition verdicts_named (evs : list message) : Prop :=
  ∀ v, v ∈ evs → topic v = "review_verdict" →
    match dget "target_proposal_msg_id" (payload v) with
    | None | Some PNone | Some (PStr _) => True
    | _ => False
    end.

(** A verdict comes after the proposal it decides. *)
Definition verdicts_follow (evs : list message) : Prop :=
  ∀ p v, p ∈ evs → v ∈ evs → topic p = "proposal" → topic v = "review_verdict" →
    target_sql v = Some (msg_id p) → seq_lt p v.

Lemma elem_of_decided_sql evs s :
  s ∈ decided_sql evs ↔ s ≠ EmptyString ∧ ∃ v, v ∈ evs ∧ topic v = "review_verdict" ∧ target_sql v = Some s.
Proof.
  unfold decided_sql. rewrite list_elem_of_filter, list_elem_of_omap. setoid_rewrite list_elem_of_filter.
  naive_solver.
Qed.

Lemma decided_py_ok verdicts :
  verdicts_named verdicts → (∀ v, v ∈ verdicts → topic v = "review_verdict") →
  ∃ ds, decided_py verdicts = Ok ds ∧
    ∀ mid, id_decided ds mid = true ↔ mid ≠ EmptyString ∧ ∃ v, v ∈ verdicts ∧ target_sql v = Some mid.
Proof.
  induction verdicts as [|v vs IH]; intros Hn Ht.
  { exists []. split; [done|]. intros mid. split; [done|]. by intros (_ & ? & ?%not_elem_of_nil & _). }
  destruct IH as (ds & Hds & Hiff).
  { intros x Hx. apply Hn. by right. }
  { intros x Hx. apply Ht. by right. }
  specialize (Hn v ltac:(left) ltac:(apply Ht; left)). simpl. unfold target_py, target_sql.
  destruct (dget "target_proposal_msg_id" (payload v)) as [[| | | |s| |]|] eqn:E; try done; simpl.
  - rewrite Hds. exists ds. split; [done|]. intros mid. rewrite Hiff. setoid_rewrite elem_of_cons.
    unfold target_sql. split; [naive_solver|]. intros (? & w & [->|?] & Hw); [|eauto]. by rewrite E in Hw.
  - destruct (String.eqb s EmptyString) eqn:Es; simpl; rewrite Hds; simpl.
    + apply String.eqb_eq in Es. subst s. exists ds. split; [done|]. intros mid. rewrite Hiff.
      setoid_rewrite elem_of_cons. unfold target_sql. split; [naive_solver|].
      intros (? & w & [->|?] & Hw); [|eauto]. rewrite E in Hw. by simplify_eq.
    + apply String.eqb_neq in Es. exists (PStr s :: ds). split; [done|]. intros mid. simpl.
      rewrite orb_true_iff, bool_decide_eq_true, Hiff. setoid_rewrite elem_of_cons. unfold target_sql. split.
      * intros [->|(? & w & ? & ?)]; [|by eauto]. split; [done|]. exists v. rewrite E. auto.
      * intros (? & w & [->|?] & Hw); [rewrite E in Hw; simplify_eq; by left|right; eauto].
  - rewrite Hds. exists ds. split; [done|]. intros mid. rewrite Hiff. setoid_rewrite elem_of_cons.
    unfold target_sql. split; [naive_solver|]. intros (? & w & [->|?] & Hw); [|eauto]. by rewrite E in Hw.
Qed.

Definition of_topic (t : string) (evs : list message) : list message := filter (λ m, topic m = t) evs.

Lemma tail_topic t db :
  (Z.of_nat (length (of_topic t (events db))) <= 10000)%Z →
  tail 10000 None (Some t) db = reverse (of_topic t (events db)).
Proof.
  intros Hlen. unfold tail, sql_limit. cbn [Z.ltb Z.compare].
  assert (filter (tail_takes None (Some t)) (events db) = of_topic t (events db)) as ->.
  { apply list_filter_iff. intros m. unfold tail_takes. tauto. }
  apply take_ge. rewrite length_reverse. lia.
Qed.

(** Within the window [replay_for_resume] reads, it finds exactly the undecided proposals. *)
Lemma replay_for_resume_eq db :
  verdicts_named (events db) →
  (Z.of_nat (length (of_topic "proposal" (events db))) <= 10000)%Z →
  (Z.of_nat (length (of_topic "review_verdict" (events db))) <= 10000)%Z →
  (∀ p, p ∈ events db → topic p = "proposal" → msg_id p ≠ EmptyString) →
  replay_for_resume db = Ok (reverse (filter (undecided_row (events db)) (events db))).
Proof.
  intros Hn Hp Hv Hne. unfold replay_for_resume. rewrite !tail_topic by done.
  destruct (decided_py_ok (reverse (of_topic "review_verdict" (events db)))) as (ds & -> & Hiff).
  { intros v. rewrite elem_of_reverse. intros [? ?]%list_elem_of_filter. by apply Hn. }
  { intros v. rewrite elem_of_reverse. by intros [? _]%list_elem_of_filter. }
  unfold mbind, res_bind, mret, res_ret. f_equal.
  rewrite filter_reverse. f_equal. unfold of_topic.
  rewrite list_filter_filter. apply list_filter_ext_in. intros m Hm. unfold undecided_row.
  rewrite elem_of_decided_sql. rewrite <- not_true_iff_false, Hiff.
  setoid_rewrite elem_of_reverse. setoid_rewrite list_elem_of_filter. specialize (Hne m Hm). naive_solver.
Qed.

(** Retention neither drops an undecided proposal nor makes a decided one look undecided. *)
Lemma undecided_after_prune evs cutoff :
  verdicts_follow evs →
  let evs' := filter (λ m, ¬ prunable_event evs cutoff m) evs in
  filter (undecided_row evs') evs' = filter (undecided_row evs) evs.
Proof.
  intros Hf evs'. unfold evs'. rewrite list_filter_filter. apply list_filter_ext_in. intros m Hm.
  fold evs'. split.
  - intros [[Ht Hu] Hkeep]. split; [done|]. intros Hdec. apply Hu.
    apply elem_of_decided_sql in Hdec as (Hne & v & Hv & Hvt & Htg).
    apply elem_of_decided_sql. split; [done|]. exists v. split_and!; [|done..].
    apply list_elem_of_filter. split; [|done]. intros [Hle Hnu]. apply Hkeep.
    pose proof (Hf m v Hm Hv Ht Hvt Htg) as Hlt. unfold seq_lt in Hlt. split; [lia|].
    intros [_ Hn]. apply Hn, elem_of_decided_sql. split; [done|]. eauto.
  - intros Hu. split; [|by intros [_ ?]]. destruct Hu as [Ht Hu]. split; [done|]. intros Hdec. apply Hu.
    apply elem_of_decided_sql in Hdec as (Hne & v & Hv & Hvt & Htg).
    apply list_elem_of_filter in Hv as [_ Hv]. apply elem_of_decided_sql. eauto.
Qed.

(** ** Reading makes progress *)

Lemma fit_loop_fits used budget lines :
  (used <= budget)%nat →
  (used + foldr (λ line n, String.length line + 1 + n) 0 (fit_loop used budget lines) <= budget)%nat ∧
  fit_loop used budget lines `prefix_of` lines.
Proof.
  revert used. induction lines as [|line lines IH]; intros used Hu; simpl; [split; [lia|done]|].
  destruct (Nat.ltb_spec budget (used + String.length line + 1)); [split; [simpl; lia|apply prefix_nil]|].
  destruct (IH (used + String.length line + 1)%nat) as [Hle Hpre]; [lia|]. simpl. split; [lia|].
  by apply prefix_cons.
Qed.

Lemma substring_length n s : (String.length (String.substring 0 n s) <= n)%nat.
Proof. revert n. induction s as [|c s IH]; intros [|n]; simpl; try lia. specialize (IH n). lia. Qed.

(** ** Retention of tasks *)

#[global] Instance newer_trans : Transitive newer.
Proof. intros a b c H1 H2. unfold newer in *. by etrans. Qed.
#[global] Instance newer_total : Total newer.
Proof. intros a b. unfold newer. apply (total str_le). Qed.

(** ** Counting what a DELETE removes *)

Lemma filter_length_split {A} (P : A → Prop) `{∀ x, Decision (P x)} (l : list A) :
  (length (filter P l) + length (filter (λ x, ¬ P x) l) = length l)%nat.
Proof.
  induction l as [|x l IH]; [done|]. rewrite !filter_cons. repeat case_decide; simpl; try tauto; lia.
Qed.

Lemma list_filter_filter_comm {A} (P Q : A → Prop) `{∀ x, Decision (P x), ∀ x, Decision (Q x)} (l : list A) :
  filter P (filter Q l) = filter Q (filter P l).
Proof. rewrite !list_filter_filter. apply list_filter_iff. tauto. Qed.

(** What a sorted prefix keeps is related to what it leaves. *)
Lemma take_sorted_bound {A} (R : relation A) n l x y :
  StronglySorted R l → x ∈ take n l → y ∉ take n l → y ∈ l → R x y.
Proof.
  intros Hs Hx Hn Hy. rewrite <- (take_drop n l) in Hs, Hy. apply elem_of_app in Hy as [|Hy]; [done|].
  by eapply StronglySorted_app_1_elem_of.
Qed.

Lemma string_length_app (a b : string) : String.length (a ++ b)%string = (String.length a + String.length b)%nat.
Proof. induction a as [|c a IH]; simpl; [done|]. by rewrite IH. Qed.

(** The rendered lines, joined, fit the budget. *)
Lemma concat_length sep lines :
  String.length (String.concat sep lines)
  = match lines with
    | [] => 0
    | first :: rest => String.length first + foldr (λ line n, String.length line + String.length sep + n) 0 rest
    end%nat.
Proof.
  induction lines as [|l1 lines IH]; [done|]. destruct lines as [|l2 rest]; [simpl; lia|].
  change (String.concat sep (l1 :: l2 :: rest)) with (l1 ++ sep ++ String.concat sep (l2 :: rest))%string.
  rewrite !string_length_app, IH. simpl. lia.
Qed.

Lemma fit_concat lines budget :
  (String.length (String.concat (String (ascii_of_nat 10) EmptyString) (_fit_to_budget lines budget)) <= budget)%nat.
Proof.
  rewrite concat_length. destruct lines as [|line rest]; simpl; [lia|].
  destruct (fit_loop_fits (String.length (String.substring 0 budget line)) budget rest) as [Hle _].
  - apply substring_length.
  - etrans; [|exact Hle]. apply Nat.add_le_mono_l. clear. induction (fit_loop _ _ _); simpl; lia.
Qed.

Lemma advance_seq agent seq db : events_seq (advance agent seq db).2 = events_seq db.
Proof. unfold advance, transaction, mbind, tx_bind, tx_get. by destruct (seq <=? load agent db)%Z. Qed.

Lemma read_turn_seq fmt pending agent db : events_seq (read_turn fmt pending agent db).2 = events_seq db.
Proof.
  unfold read_turn, io_gets, mbind, io_bind. destruct (last _) as [m|]; [|done].
  pose proof (advance_seq agent (m_seq m) db) as H. by destruct (advance agent (m_seq m) db) as [[]].
Qed.

(** The order of appends, whatever is deleted in between. *)
Lemma events_seq_mono fmt agent s s' :
  rtc (bus_step fmt agent) s s' → (events_seq (br_db s) <= events_seq (br_db s'))%Z.
Proof.
  induction 1 as [|s s1 s2 Hs _ IH]; [lia|]. etrans; [|exact IH]. clear IH.
  destruct Hs as [m n db' Ha|pending read db' Hr|cutoff|other seq Hne|db' _ E2 _]; simpl; try lia.
  - destruct (append_result m (br_db s)) as [(? & E)|(_ & _ & E)]; rewrite E in Ha; simplify_eq. simpl. lia.
  - replace db' with (read_turn fmt pending agent (br_db s)).2 by (by rewrite Hr).
    rewrite read_turn_seq. lia.
  - rewrite advance_seq. lia.
Qed.

(** * Claims *)


(** Liveness.  A backlog drains: whenever a subscribed message waits after its cursor, the next
    turn of an agent other than the critic shows at least the oldest one, however long its line is,
    and what it shows fits the character budget. *)
Theorem inbox_drains fmt pending agent db :
  log_inv db → agent ≠ "critic" →
  let unread := replay_for agent (load agent db) DEFAULT_EVENTS_KEEP_RECENT db in
  let lines := _fit_to_budget (fmt <$> unread) _INBOX_PROMPT_CHARS in
  (String.length (String.concat (String (ascii_of_nat 10) EmptyString) lines) <= _INBOX_PROMPT_CHARS)%nat ∧
  match unread with
  | [] => read_turn fmt pending agent db = (Ok [], db)
  | m :: rest => ∃ read db', read_turn fmt pending agent db = (Ok (m :: read), db') ∧
                   (m_seq m <= load agent db')%Z
  end.
Proof.
  intros Hlog Hne unread lines. split; [apply fit_concat|].
  assert (_render_inbox_sections fmt pending agent db = take (length lines) unread) as Hrender.
  { unfold _render_inbox_sections. rewrite decide_False by done. apply list_filter_all.
    intros m Hm%elem_of_take_in. by apply list_elem_of_fmap_2. }
  unfold read_turn, io_gets, mbind, io_bind. rewrite Hrender.
  destruct unread as [|m rest] eqn:E; [done|].
  assert (∃ j, take (length lines) (m :: rest) = m :: take j rest) as [j ->] by (unfold lines; simpl; eauto).
  set (read := take j rest). exists read.
  destruct (last (m :: read)) as [x|] eqn:Hl; [|by apply last_None in Hl].
  unfold advance, transaction, mbind, tx_bind, tx_get.
  assert (∀ y, y ∈ m :: rest → (load agent db < m_seq y)%Z) as Hgt.
  { intros y Hy. rewrite <- E in Hy. unfold unread in Hy. destruct (unread_prefix_events agent db) as [i Hi].
    rewrite Hi in Hy. apply elem_of_take_in, list_elem_of_filter in Hy as [[? _] _]. done. }
  assert (x ∈ m :: rest) as Hx.
  { apply last_Some_elem_of in Hl. apply elem_of_cons in Hl as [->|Hl]; [left|right; by apply elem_of_take_in in Hl]. }
  rewrite (proj2 (Z.leb_gt _ _)) by (specialize (Hgt x Hx); lia). eexists. split; [done|].
  unfold load. simpl. rewrite lookup_insert_eq. simpl.
  assert (StronglySorted seq_lt (m :: rest)) as Hs.
  { rewrite <- E. unfold unread. destruct (unread_prefix_events agent db) as [i ->].
    apply StronglySorted_take, StronglySorted_filter, lg_sorted, Hlog. }
  apply StronglySorted_inv in Hs as [_ Hs]. rewrite Forall_forall in Hs.
  apply elem_of_cons in Hx as [->|Hx]; [lia|]. specialize (Hs x Hx). unfold seq_lt in Hs. lia.
Qed.

(** Functional.  Retention does not change what a resume rebuilds: after any pruning pass the
    pending proposals found in the log are the same, in the same order. *)
Theorem prune_preserves_pending keep_recent db :
  verdicts_named (events db) → verdicts_follow (events db) →
  (Z.of_nat (length (of_topic "proposal" (events db))) <= 10000)%Z →
  (Z.of_nat (length (of_topic "review_verdict" (events db))) <= 10000)%Z →
  (∀ p, p ∈ events db → topic p = "proposal" → msg_id p ≠ EmptyString) →
  ∃ pending, replay_for_resume db = Ok pending ∧
    replay_for_resume (prune_events keep_recent db).2 = Ok pending.
Proof.
  intros Hn Hf Hp Hv Hne. eexists. split; [by apply replay_for_resume_eq|].
  unfold prune_events, io_gets, mbind, io_bind. destruct (prune_cutoff keep_recent db) as [c|].
  2:{ by apply replay_for_resume_eq. }
  rewrite prune_delete_eq. cbn [snd].
  assert (∀ t, (length (of_topic t (filter (λ m, ¬ prunable_event (events db) c m) (events db)))
                <= length (of_topic t (events db)))%nat) as Hlen.
  { intros t. unfold of_topic. rewrite list_filter_filter_comm. apply length_filter. }
  rewrite replay_for_resume_eq; cbn [events with_events].
  - by rewrite undecided_after_prune.
  - intros v [_ Hin]%list_elem_of_filter. by apply Hn.
  - specialize (Hlen "proposal"). lia.
  - specialize (Hlen "review_verdict"). lia.
  - intros p [_ Hin]%list_elem_of_filter. by apply Hne.
Qed.

(** Functional.  A pruning pass deletes exactly the rows outside the newest [keep_recent]
    sequence numbers that are not undecided proposals, reports how many, and keeps the order of the
    rest; the next sequence number is unaffected. *)
Theorem prune_events_spec keep_recent db :
  log_inv db →
  ∃ n, prune_events keep_recent db =
    (Ok n, with_events (filter (λ m, ¬ ((m_seq m <= max_seq (events db) - Z.max 0 keep_recent)%Z ∧
                                        ¬ undecided_row (events db) m))) (events_seq db) db) ∧
    n = Z.of_nat (length (events db) - length (events (prune_events keep_recent db).2)).
Proof.
  intros Hlog. destruct (max_seq_spec (events db)) as [Hmax Hge].
  unfold prune_events, io_gets, mbind, io_bind, prune_cutoff.
  assert ((max_seq (events db) - Z.max 0 keep_recent <= 0)%Z →
    filter (λ m, ¬ ((m_seq m <= max_seq (events db) - Z.max 0 keep_recent)%Z ∧ ¬ undecided_row (events db) m))
      (events db) = events db) as Hnone.
  { intros Hle. apply list_filter_all. intros m Hm [Hs _]. apply (lg_bound _ Hlog) in Hm. lia. }
  assert (with_events (λ _, events db) (events_seq db) db = db) as Hid by by destruct db.
  destruct (Z.leb_spec (max_seq (events db)) 0); [|destruct (Z.leb_spec (max_seq (events db) - Z.max 0 keep_recent) 0)].
  - exists 0%Z. split; [|cbn [snd mret io_ret]; lia]. unfold with_events. rewrite Hnone by lia.
    unfold with_events in Hid. by rewrite Hid.
  - exists 0%Z. split; [|cbn [snd mret io_ret]; lia]. unfold with_events. rewrite Hnone by lia.
    unfold with_events in Hid. by rewrite Hid.
  - rewrite prune_delete_eq. eexists. split; [done|]. cbn [snd events with_events].
    pose proof (filter_length_split (prunable_event (events db) (max_seq (events db) - Z.max 0 keep_recent)) (events db)).
    lia.
Qed.

(** Invariant.  Sequence numbers order the log for good: a message appended later, whatever was
    read or deleted in between, gets a strictly greater number, so a cursor never skips a message
    because of a reused number. *)
Theorem seq_never_reused fmt agent s m n db1 m' n' db3 s2 :
  append_and_seq m (br_db s) = (Ok n, db1) →
  rtc (bus_step fmt agent) (BusRun db1 (br_read s) (br_all s ++ [with_seq n m])) s2 →
  append_and_seq m' (br_db s2) = (Ok n', db3) →
  (n < n')%Z.
Proof.
  intros Ha Hs Ha'. apply events_seq_mono in Hs. simpl in Hs.
  destruct (append_result m (br_db s)) as [(? & E)|(_ & _ & E)]; rewrite E in Ha; simplify_eq.
  destruct (append_result m' (br_db s2)) as [(? & E')|(_ & _ & E')]; rewrite E' in Ha'; simplify_eq.
  simpl in Hs. lia.
Qed.

(** Functional.  Task retention deletes only tasks that succeeded or were cancelled, keeps the
    [keep_done] most recently updated of them (all of them when there are fewer), and leaves every
    queued, running and failed task. *)
Theorem prune_tasks_spec keep_done db :
  NoDup (task_id <$> tasks db) →
  ∃ n db', prune_tasks keep_done db = (Ok n, db') ∧
    (∀ t, t ∈ tasks db' → t ∈ tasks db) ∧
    (∀ t, t ∈ tasks db → ¬ prunable_task t → t ∈ tasks db') ∧
    Z.of_nat (length (filter prunable_task (tasks db')))
      = Z.min (Z.max 0 keep_done) (Z.of_nat (length (filter prunable_task (tasks db)))) ∧
    (∀ t t', t ∈ tasks db → t ∉ tasks db' → t' ∈ tasks db' → prunable_task t' → newer t' t) ∧
    n = Z.of_nat (length (tasks db) - length (tasks db')).
Proof.
  intros Hnd. set (keep := Z.to_nat (Z.max 0 keep_done)). set (kept := kept_done keep (tasks db)).
  eexists _, _. split; [done|]. fold keep kept. cbn [tasks with_tasks].
  assert (∀ t, t ∈ kept → prunable_task t ∧ t ∈ tasks db) as Hkept.
  { intros t Ht%elem_of_take_in. rewrite merge_sort_Permutation in Ht. by apply list_elem_of_filter in Ht. }
  assert (∀ t, t ∈ tasks db → task_id t ∈ task_id <$> kept ↔ t ∈ kept) as Hid.
  { intros t Ht. split; [|by apply list_elem_of_fmap_2]. intros (t' & E & Ht')%list_elem_of_fmap.
    by rewrite (NoDup_key_inj task_id _ _ _ Hnd Ht (proj2 (Hkept t' Ht')) E). }
  split_and!.
  - by intros t [_ ?]%list_elem_of_filter.
  - intros t Ht Hn. apply list_elem_of_filter. tauto.
  - rewrite list_filter_filter.
    assert (filter (λ t, prunable_task t ∧ ¬ (prunable_task t ∧ task_id t ∉ task_id <$> kept)) (tasks db) ≡ₚ kept) as ->.
    { apply NoDup_Permutation.
      - apply NoDup_filter. by apply (NoDup_fmap_1 task_id).
      - apply NoDup_take. rewrite merge_sort_Permutation. apply NoDup_filter. by apply (NoDup_fmap_1 task_id).
      - intros t. rewrite list_elem_of_filter. split.
        + intros [[Hp Hk] Ht]. apply Hid; [done|]. apply dec_stable. tauto.
        + intros Ht. destruct (Hkept t Ht) as [Hp Hin]. split; [|done]. split; [done|].
          intros [_ Hn]. by apply Hn, Hid. }
    unfold kept, kept_done. rewrite length_take, (Permutation_length (merge_sort_Permutation newer _)). lia.
  - intros t t' Ht Hgone [Hk' Ht']%list_elem_of_filter Hp'.
    assert (t' ∈ kept) as Hin' by (apply Hid; [done|]; apply dec_stable; tauto).
    assert (t ∉ kept ∧ prunable_task t) as [Hnk Hp].
    { rewrite list_elem_of_filter in Hgone. rewrite <- Hid by done. destruct (decide (prunable_task t)); [|tauto].
      split; [|done]. intros Hk. tauto. }
    eapply take_sorted_bound; [|exact Hin'|done|]; [apply StronglySorted_merge_sort; apply _|].
    rewrite merge_sort_Permutation. by apply list_elem_of_filter.
  - pose proof (filter_length_split (λ t, prunable_task t ∧ task_id t ∉ task_id <$> kept) (tasks db)). lia.
Qed.

(** * Witnesses *)

Definition proposal_msg : message :=
  Message 0 "p1" "orchestration" "critic" "proposal" None [("action_name", PStr "explore")] "2026-01-01".
Definition verdict_msg : message :=
  Message 0 "v1" "critic" "orchestration" "review_verdict" (Some "p1")
    [("target_proposal_msg_id", PStr "p1")] "2026-01-01".
Definition second_proposal : message :=
  Message 0 "p2" "orchestration" "critic" "proposal" None [("action_name", PStr "profile")] "2026-01-01".

Definition one_event_db : DB := (append_and_seq proposal_msg seeded_db).2.
Definition two_events_db : DB := (append_and_seq verdict_msg one_event_db).2.
Definition log_db : DB := (append_and_seq second_proposal two_events_db).2.

Definition line (m : message) : string := msg_id m.

Lemma log_db_inv : log_inv log_db.
Proof.
  do 3 apply append_inv.
  exact (rn_log _ _ (run_inv_init "critic" seeded_db eq_refl eq_refl eq_refl)).
Qed.


Lemma inbox_drains_witness :
  ∃ read db', read_turn line [] "orchestration" log_db = (Ok (with_seq 2 verdict_msg :: read), db').
Proof.
  destruct (inbox_drains line [] "orchestration" log_db log_db_inv) as [_ H]; [discriminate|].
  assert (replay_for "orchestration" (load "orchestration" log_db) DEFAULT_EVENTS_KEEP_RECENT log_db
          = [with_seq 2 verdict_msg]) as E by (vm_compute; reflexivity).
  rewrite E in H. destruct H as (read & db' & H & _). exists read, db'. exact H.
Defined.

Lemma prune_preserves_pending_witness :
  replay_for_resume (prune_events 0 log_db).2 = Ok [with_seq 3 second_proposal].
Proof.
  destruct (prune_preserves_pending 0 log_db) as (pending & H1 & H2).
  - intros v Hv Ht. repeat (apply elem_of_cons in Hv as [->|Hv]; [vm_compute; auto|]). by apply not_elem_of_nil in Hv.
  - intros p v Hp Hv Htp Htv Htg.
    repeat (apply elem_of_cons in Hp as [->|Hp]; [|]); [..|by apply not_elem_of_nil in Hp];
      (repeat (apply elem_of_cons in Hv as [->|Hv]; [|]); [..|by apply not_elem_of_nil in Hv]);
      first [discriminate|reflexivity].
  - vm_compute. discriminate.
  - vm_compute. discriminate.
  - intros p Hp Ht. repeat (apply elem_of_cons in Hp as [->|Hp]; [discriminate|]). by apply not_elem_of_nil in Hp.
  - rewrite H2, <- H1. vm_compute. reflexivity.
Defined.

Lemma prune_events_spec_witness :
  ∃ n, (prune_events 0 log_db).1 = Ok n ∧ n = 2%Z.
Proof.
  destruct (prune_events_spec 0 log_db log_db_inv) as (n & H & Hn). exists n.
  split; [by rewrite H|]. rewrite Hn. vm_compute. reflexivity.
Defined.

Lemma seq_never_reused_witness : (1 < 2)%Z.
Proof.
  apply (seq_never_reused line "critic" (BusRun seeded_db [] []) proposal_msg 1 one_event_db verdict_msg 2
    (append_and_seq verdict_msg (prune_delete 1 one_event_db).2).2
    (BusRun (prune_delete 1 one_event_db).2 [] [with_seq 1 proposal_msg])).
  - vm_compute. reflexivity.
  - apply rtc_once. apply (bs_prune line "critic" (BusRun one_event_db [] [with_seq 1 proposal_msg])).
  - vm_compute. reflexivity.
Defined.

Lemma prune_tasks_spec_witness :
  ∃ n db', prune_tasks 5 running_db = (Ok n, db') ∧
    Z.of_nat (length (filter prunable_task (tasks db'))) = 0%Z.
Proof.
  destruct (prune_tasks_spec 5 running_db (ti_ids _ running_inv)) as (n & db' & H & _ & _ & Hlen & _).
  exists n, db'. split; [exact H|]. rewrite Hlen. vm_compute. reflexivity.
Defined.
