(* ===== verification/PhaseChain.v ===== *)
(** * The phase chain ([phases/phase_chain.py], [breakdown/stop_reasons.py])

    The six phases and their order, the actions each admits and the ones an agent may propose, the
    rows that record a move, the lifecycle log and the closed vocabulary of stop reasons. *)

From stdpp Require Import base list strings sets sorting.
From Stdlib Require Import ZArith Lia.
From Stdlib Require String.
From S2P Require Import Prelude PyFloat PyVal.

(** ** Identifiers and order *)

Definition PHASE_PRELUDE : string := "PRELUDE".
Definition PHASE_ENABLEMENT : string := "ENABLEMENT".
Definition PHASE_FRAMEWORK_AGENT : string := "FRAMEWORK_AGENT".
Definition PHASE_KERNEL_AGENT : string := "KERNEL_AGENT".
Definition PHASE_SWEEP : string := "SWEEP".
Definition PHASE_CLOSE : string := "CLOSE".

Definition PHASE_NAMES : list string :=
  [PHASE_PRELUDE; PHASE_ENABLEMENT; PHASE_FRAMEWORK_AGENT; PHASE_KERNEL_AGENT; PHASE_SWEEP; PHASE_CLOSE].

(** [{name: i for i, name in enumerate(PHASE_NAMES)}] *)
Definition PHASE_INDEX : list (string * Z) := zip PHASE_NAMES (Z.of_nat <$> seq 0 (length PHASE_NAMES)).

(** [(phase or "").strip().upper()] *)
Definition norm_phase (phase : string) : string := py_upper (py_strip phase).

Definition phase_index (phase : string) : Z := default (-1)%Z (dget (norm_phase phase) PHASE_INDEX).

(** ** Actions *)

Definition COORDINATOR_INTERNAL_ACTIONS : list string :=
  ["conc_sweep"; "roofline"; "profile"; "replay_warm_recipe"; "targeted_build"; "kernel_agent"].

Definition _ENABLEMENT_LANE_ACTIONS : list string := ["baseline"; "specialist"; "integrate_patch"].

Definition PHASE_ALLOWED_ACTIONS : list (string * list string) :=
  [(PHASE_PRELUDE, ["target_analysis"; "baseline"; "roofline"; "profile"; "replay_warm_recipe"]);
   (PHASE_ENABLEMENT, ["target_analysis"; "roofline"; "profile"; "targeted_build"] ++ _ENABLEMENT_LANE_ACTIONS);
   (PHASE_FRAMEWORK_AGENT, ["explore"; "specialist"; "integrate_patch"; "roofline"; "profile"]);
   (PHASE_KERNEL_AGENT, ["integrate"; "roofline"; "profile"; "kernel_agent"]);
   (PHASE_SWEEP, ["conc_sweep"]);
   (PHASE_CLOSE, ["report"; "session_breakdown"])].

Definition PHASE_COORDINATOR_RESERVED : list (string * list string) :=
  [(PHASE_ENABLEMENT, _ENABLEMENT_LANE_ACTIONS)].

(** [table.get(key, frozenset())] *)
Definition actions_of (table : list (string * list string)) (key : string) : list string :=
  default [] (dget key table).

Definition allowed_actions_for (phase : string) : list string :=
  let key := norm_phase phase in
  sorted_set (filter (λ a, a ∉ COORDINATOR_INTERNAL_ACTIONS ∧ a ∉ actions_of PHASE_COORDINATOR_RESERVED key)
                     (actions_of PHASE_ALLOWED_ACTIONS key)).

(** The bullets of the prompt; the dash of the source's text is given as its UTF-8 bytes. *)
Definition em_dash : string := of_chars (Ascii.ascii_of_nat <$> [226; 128; 148]).

Definition phase_bullet (suffix : list (string * string)) (phase : string) : string :=
  let body := "- **" +:+ phase +:+ "**: " +:+ join ", " (allowed_actions_for phase) in
  match dget phase suffix with
  | Some (String _ _ as flag) => body +:+ " (DISABLED: " +:+ flag +:+ " " +:+ em_dash +:+ " phase skipped)"
  | _ => body
  end.
Definition render_phase_action_bullets (disabled_suffix : option (list (string * string))) : list string :=
  phase_bullet (default [] disabled_suffix) <$> PHASE_NAMES.

(** ** History rows *)

Definition _PHASE_HISTORY_CAP : nat := 100.
Definition _LIFECYCLE_CAP : nat := 500.

(** [xs[-n:]] for a positive [n]. *)
Definition last_n {A} (n : nat) (l : list A) : list A := drop (length l - n) l.

Record HistoryEntry (F : Type) := MkEntry {
  he_from : string;
  he_to : string;
  he_reason : string;
  he_evidence : option (pydict F);
  he_ts : string;
  he_ts_unix : F;
  he_cycle : Z
}.
Arguments MkEntry {F} _ _ _ _ _ _ _.
Arguments he_from {F} _.
Arguments he_to {F} _.
Arguments he_reason {F} _.
Arguments he_evidence {F} _.
Arguments he_ts {F} _.
Arguments he_ts_unix {F} _.
Arguments he_cycle {F} _.

Section rows.
Context {F : Type} `{!FloatOps F}.

Definition make_history_row (entry : HistoryEntry F) : pydict F :=
  [("from_phase", PStr (norm_phase (he_from entry)));
   ("to_phase", PStr (norm_phase (he_to entry)));
   ("reason", PStr (py_strip (he_reason entry)));
   ("evidence", PDict (default [] (he_evidence entry)));
   ("ts", PStr (he_ts entry));
   ("ts_unix", PFloat (if feqb (he_ts_unix entry) fzero then fzero else he_ts_unix entry));
   ("cycle", PInt (he_cycle entry))].
End rows.

(** ** Lifecycle events *)

Definition LIFECYCLE_STATUS_ENTER : string := "ENTER".

Definition PHASE_HUMAN_LABELS : list (string * string) :=
  [(PHASE_PRELUDE, "Prelude (baseline + roofline)");
   (PHASE_ENABLEMENT, "Enablement (make the combo runnable)");
   (PHASE_FRAMEWORK_AGENT, "Optimize (config / source / upstream)");
   (PHASE_KERNEL_AGENT, "Kernel optimization");
   (PHASE_SWEEP, "Concurrency sweep");
   (PHASE_CLOSE, "Close (report)")].

Definition LIFECYCLE_STEP_LABELS : list (string * string) :=
  [("roofline", "TraceLens"); ("trace_analyze", "TraceLens"); ("integrate", "Integrate");
   ("apply_patch", "Integrate"); ("report", "Report")].

Definition lifecycle_label (name : string) : string :=
  let key := py_strip name in
  match dget key LIFECYCLE_STEP_LABELS with
  | Some label => label
  | None => match dget (py_upper key) PHASE_HUMAN_LABELS with
            | Some label => label
            | None => key
            end
  end.

Record LifecycleMark (F : Type) := MkMark {
  lm_step : string;
  lm_status : string;
  lm_artifacts : option (pydict F);
  lm_detail : string;
  lm_duration : option (pyval F)
}.
Arguments MkMark {F} _ _ _ _ _.
Arguments lm_step {F} _.
Arguments lm_status {F} _.
Arguments lm_artifacts {F} _.
Arguments lm_detail {F} _.
Arguments lm_duration {F} _.

Section events.
Context {F : Type} `{!FloatOps F}.

(** [{str(k): str(v) for k, v in artifacts.items() if v not in (None, "")}] *)
Definition artifact_strings (d : pydict F) : pydict F :=
  foldl (λ acc '(k, v),
    match v with
    | PNone | PStr EmptyString => acc
    | _ => dset k (PStr (py_str v)) acc
    end) [] d.

(** [round(float(duration_s), 3)]; a malformed duration is left out, an int past the range of a
    float raises. *)
Definition with_duration (dur : option (pyval F)) (event : pydict F) : res (pydict F) :=
  match dur with
  | None | Some PNone => Ok event
  | Some v =>
      match py_float v with
      | Ok x => Ok (dset "duration_s" (PFloat (fround 3 x)) event)
      | Raise (TypeError _) | Raise (ValueError _) => Ok event
      | Raise e => Raise e
      end
  end.

Definition make_lifecycle_event (mark : LifecycleMark F) (phase : string) (seq : Z) (ts : string)
    : res (pydict F) :=
  with_duration (lm_duration mark)
    [("seq", PInt seq);
     ("ts", PStr ts);
     ("phase", PStr (norm_phase phase));
     ("step", PStr (py_strip (lm_step mark)));
     ("label", PStr (lifecycle_label (lm_step mark)));
     ("status", PStr (py_upper (py_strip (lm_status mark))));
     ("detail", PStr (py_strip (lm_detail mark)));
     ("artifacts", PDict (artifact_strings (default [] (lm_artifacts mark))))].
End events.

(** ** Stop reasons ([breakdown/stop_reasons.py]) *)

Definition SUCCESS_STOP_REASONS : list string :=
  ["target_reached"; "global_converged"; "time_exhausted"; "max_ticks"; "sweep_done"].
Definition ABORTED_STOP_REASONS : list string := ["signal"].

Definition ENV_FAULT : string := "environment_fault".
Definition HOST_GPUS_UNAVAILABLE : string := "host_gpus_unavailable".
Definition ARGV_INVALID : string := "server_argv_invalid".
Definition DIED_STOP_REASON : string := "supervisor_coordinator_died".
Definition WEDGED_STOP_REASON : string := "supervisor_tick_stalled".
Definition AGENTX_PREFLIGHT_STOP_REASON : string := "agentx_client_unavailable".
Definition PATCH_RECOVERY_INCOMPLETE_STOP_REASON : string := "patch_recovery_incomplete".
Definition BACKEND_UNHEALTHY_STOP_REASON : string := "backend_unhealthy".

Definition INFRASTRUCTURE_STOP_REASONS : list string :=
  [ENV_FAULT; HOST_GPUS_UNAVAILABLE; ARGV_INVALID; DIED_STOP_REASON; WEDGED_STOP_REASON;
   BACKEND_UNHEALTHY_STOP_REASON].

Definition STOP_REASON_VOCAB : list string :=
  ["target_reached"; "time_exhausted"; "max_ticks"; "baseline_failed"; "emergency";
   "coordinator_exception"; "signal"; "unknown"; "custom"; "prelude_baseline_failed";
   "baseline_over_latency_budget"; "baseline_over_power_budget"; "prelude_cold_anchor_low_budget";
   "prelude_budget_exhausted"; "time_exhausted_during_prelude"; "warm_replay_rollback_failed";
   "active_inferencex_checkout_missing"; "sweep_done"; "sweep_failed"; "framework_agent_phase_done";
   "global_converged"; "model_context_window_too_small"; "unsupported_model_arch";
   "model_config_incompatible"; "baseline_arg_error"; "enablement_attempts_exhausted";
   "baseline_accuracy_failed"; ENV_FAULT; HOST_GPUS_UNAVAILABLE; ARGV_INVALID; DIED_STOP_REASON;
   WEDGED_STOP_REASON; AGENTX_PREFLIGHT_STOP_REASON; PATCH_RECOVERY_INCOMPLETE_STOP_REASON;
   BACKEND_UNHEALTHY_STOP_REASON].

Definition is_valid_stop_reason (value : string) : bool :=
  bool_decide (py_strip value ∈ STOP_REASON_VOCAB).

Definition outcome_status {F} `{!FloatOps F} (stop_reason : string) (baseline_tput : F) : string :=
  if bool_decide (stop_reason ∈ SUCCESS_STOP_REASONS) then
    if fpos baseline_tput then "completed" else "failed"
  else if String.eqb stop_reason EmptyString || bool_decide (stop_reason ∈ ABORTED_STOP_REASONS)
          || bool_decide (stop_reason ∈ INFRASTRUCTURE_STOP_REASONS) then "aborted"
  else "failed".

(** ** Lemmas *)

Lemma last_n_length {A} n (l : list A) : length (last_n n l) = length l `min` n.
Proof. unfold last_n. rewrite length_drop. lia. Qed.

Lemma phase_index_range p :
  (-1 <= phase_index p <= 5)%Z ∧ ((0 <= phase_index p)%Z ↔ norm_phase p ∈ PHASE_NAMES).
Proof.
  unfold phase_index. destruct (dget (norm_phase p) PHASE_INDEX) as [z|] eqn:E; simpl.
  - apply dget_elem in E. unfold PHASE_INDEX, PHASE_NAMES in E. simpl in E.
    rewrite !elem_of_cons in E. destruct E as [E|[E|[E|[E|[E|[E|[]%not_elem_of_nil]]]]]];
      injection E as -> ->; (split; [lia|]); (split; [intros _; unfold PHASE_NAMES; rewrite !elem_of_cons; tauto|lia]).
  - split; [lia|]. split; [lia|]. unfold PHASE_NAMES. rewrite !elem_of_cons, elem_of_nil. intros Hin.
    exfalso. destruct Hin as [Hin|[Hin|[Hin|[Hin|[Hin|[Hin|[]]]]]]]; rewrite Hin in E; vm_compute in E; discriminate.
Qed.

(** What an agent may propose in a phase is admitted by that phase, is never an action the
    Coordinator keeps to itself nor one the phase reserves for its lane, is listed once and in
    order, and is the same for every spelling of the phase name that normalises alike; an unknown
    phase admits nothing. *)
Theorem allowed_actions_spec (phase : string) :
  StronglySorted str_le (allowed_actions_for phase) ∧
  NoDup (allowed_actions_for phase) ∧
  (∀ a, a ∈ allowed_actions_for phase ↔
    a ∈ actions_of PHASE_ALLOWED_ACTIONS (norm_phase phase) ∧
    a ∉ COORDINATOR_INTERNAL_ACTIONS ∧
    a ∉ actions_of PHASE_COORDINATOR_RESERVED (norm_phase phase)) ∧
  ((phase_index phase < 0)%Z → allowed_actions_for phase = []).
Proof.
  unfold allowed_actions_for. split_and!.
  - apply StronglySorted_merge_sort; apply _.
  - apply NoDup_sorted_set.
  - intros a. rewrite elem_of_sorted_set, list_elem_of_filter. tauto.
  - intros H. destruct (dget (norm_phase phase) PHASE_ALLOWED_ACTIONS) as [l|] eqn:E;
      [|replace (actions_of PHASE_ALLOWED_ACTIONS (norm_phase phase)) with (@nil string);
        [done|unfold actions_of; by rewrite E]].
    exfalso. destruct (phase_index_range phase) as [_ [_ H2]].
    assert (norm_phase phase ∈ PHASE_NAMES) as Hin; [|apply H2 in Hin; lia].
    change PHASE_NAMES with PHASE_ALLOWED_ACTIONS.*1. apply list_elem_of_fmap.
    exists (norm_phase phase, l). split; [done|]. by apply dget_elem.
Qed.

Example allowed_actions_examples :
  allowed_actions_for <$> [" prelude"; "ENABLEMENT"; "FRAMEWORK_AGENT"; "KERNEL_AGENT"; "SWEEP"; "CLOSE"; "X"]
  = [["baseline"; "target_analysis"]; ["target_analysis"]; ["explore"; "integrate_patch"; "specialist"];
     ["integrate"]; []; ["report"; "session_breakdown"]; []].
Proof. vm_compute. reflexivity. Qed.
