(* ===== verification/PhaseMachine.v ===== *)
(** * The phase decision ([phases/machine_state.py], [exit_predicates.py], [prelude_exits.py])

    [replay_next_phase] recomputes a phase decision from the frozen facts a transition row
    persists: a JSON dict, here a [pydict].  The definitions follow the source function by
    function over any float type; a fact of the wrong shape raises what the source raises.  Where
    the source copies a section of the facts with [dict(x or {})], a section that is neither a
    dict nor falsy raises a [TypeError]: the facts are written by [workflow_predicate_inputs],
    which puts a dict or [None] there. *)

From stdpp Require Import base list strings sets sorting.
From Stdlib Require Import ZArith Lia.
From Stdlib Require String.
From S2P Require Import Prelude PyFloat PyVal PhaseChain.

(** ** Coercions ([hyperloom_common/coerce.py]) and access to the facts *)

Section coerce.
Context {F : Type} `{!FloatOps F}.
Implicit Types (v : pyval F) (d : pydict F) (k : string).

(** [to_float(value)]: the [TypeError] and [ValueError] of [float] are caught, an
    [OverflowError] is not. *)
Definition to_float v : res (option F) :=
  match v with
  | PNone | PBool _ => Ok None
  | _ =>
      match py_float v with
      | Ok x => Ok (if f_isfinite x then Some x else None)
      | Raise (TypeError _) | Raise (ValueError _) => Ok None
      | Raise e => Raise e
      end
  end.

Definition optional_positive_float v : res (option F) :=
  parsed ← to_float v;
  Ok (match parsed with
      | None => None
      | Some x => if fleb x fzero then None else Some x
      end).

(** [x or 0.0] of an optional float. *)
Definition or_zero (x : option F) : F :=
  match x with
  | Some x => if feqb x fzero then fzero else x
  | None => fzero
  end.

(** [d.get(k)] *)
Definition dget_or_none k d : pyval F := default PNone (dget k d).

(** [int(d.get(k) or 0)] *)
Definition get_int k d : res Z :=
  let v := dget_or_none k d in if truthy v then py_int v else Ok 0%Z.

(** [to_float(d.get(k))], and the same with [or 0.0] *)
Definition get_float k d : res (option F) := to_float (dget_or_none k d).
Definition get_float0 k d : res F := x ← get_float k d; Ok (or_zero x).
Definition get_pos_float k d : res (option F) := optional_positive_float (dget_or_none k d).

(** [dict(d.get(k) or {})] *)
Definition get_dict k d : res (pydict F) :=
  match dget_or_none k d with
  | PDict d' => Ok d'
  | v => if truthy v then Raise (TypeError "cannot convert dictionary update sequence") else Ok []
  end.

(** [round(x, n)] as a value. *)
Definition rounded (n : nat) (x : F) : pyval F := PFloat (fround n x).
Definition opt_float (x : option F) : pyval F :=
  match x with Some x => PFloat x | None => PNone end.
End coerce.

(** ** Budget and advisory exits ([phases/exit_predicates.py]) *)

Definition ESCALATE_HINT_SKIP_TO_KERNEL : string := "skip_to_kernel".
Definition ESCALATE_HINT_SKIP_TO_SWEEP : string := "skip_to_sweep".
Definition ESCALATE_HINT_VOCAB : list string := [ESCALATE_HINT_SKIP_TO_KERNEL; ESCALATE_HINT_SKIP_TO_SWEEP].
Definition is_valid_escalate_hint (hint : string) : bool :=
  bool_decide (py_strip hint ∈ ESCALATE_HINT_VOCAB).

Record FrameworkPlateau (F : Type) := MkPlateau {
  config_dry : bool;
  source_dry : bool;
  arms : pydict F;
  did_work : bool
}.
Arguments MkPlateau {F} _ _ _ _.
Arguments config_dry {F} _.
Arguments source_dry {F} _.
Arguments arms {F} _.
Arguments did_work {F} _.

Section exits.
Context {F : Type} `{!FloatOps F}.
Implicit Types (budget evidence plateau inputs : pydict F).

Definition _with_budget_timing budget evidence : res (pydict F) :=
  entry ← get_float0 "entry_elapsed_sec" budget;
  total ← get_float0 "cumulative_elapsed_sec" budget;
  Ok (dmerge evidence [("entry_elapsed_seconds", PFloat entry); ("cumulative_elapsed_seconds", PFloat total)]).

Definition budget_exit budget (exhausted_reason : string) evidence : res (option (string * pydict F)) :=
  remaining ← get_float "remaining_sec" budget;
  match remaining with
  | Some r =>
      if fleb r fzero then
        timed ← _with_budget_timing budget evidence;
        Ok (Some (exhausted_reason, timed))
      else Ok None
  | None => Ok None
  end.

Definition framework_plateau plateau : res (FrameworkPlateau F) :=
  recent_gain ← get_float0 "recent_keep_gain_pct" plateau;
  keep_threshold ← get_float0 "keep_gain_threshold_pct" plateau;
  empty_streak ← get_int "empty_streak" plateau;
  empty_threshold ← get_int "empty_streak_threshold" plateau;
  source_streak ← get_int "source_consecutive_no_keep" plateau;
  source_threshold ← get_int "source_threshold" plateau;
  let cdry := fltb recent_gain keep_threshold && (empty_threshold <=? empty_streak)%Z in
  let sdry := (source_threshold <=? source_streak)%Z || get_bool "source_candidates_exhausted" plateau in
  attempts ← get_int "attempt_count" plateau;
  work ← (if (0 <? attempts)%Z then Ok true
          else rounds ← get_int "specialist_round_count" plateau; Ok (0 <? rounds)%Z);
  Ok (MkPlateau cdry sdry
    (dmerge (filter (λ kv, kv.1 ∉ ["attempt_count"; "specialist_round_count"]) plateau)
      [("config_arm_plateaued", PBool cdry); ("source_arm_plateaued", PBool sdry);
       ("switch_bottleneck", PBool (cdry || sdry))])
    work).

Definition framework_exit inputs : res (option (string * pydict F)) :=
  pl ← get_dict "plateau" inputs;
  plateau ← framework_plateau pl;
  budget ← get_dict "budget" inputs;
  exhausted ← budget_exit budget "optimize_phase_budget_exhausted" (arms plateau);
  match exhausted with
  | Some x => Ok (Some x)
  | None =>
      let hint := get_str "hint" inputs in
      if String.eqb hint ESCALATE_HINT_SKIP_TO_KERNEL && did_work plateau then
        Ok (Some ("optimize_no_more_leverage",
                  dmerge (arms plateau) [("evidence", PStr "llm_escalation"); ("hint", PStr hint)]))
      else if String.eqb hint ESCALATE_HINT_SKIP_TO_SWEEP then
        Ok (Some ("optimize_no_more_leverage",
                  dmerge (arms plateau) [("evidence", PStr "skip_to_sweep"); ("hint", PStr hint)]))
      else if config_dry plateau && source_dry plateau then
        Ok (Some ("optimize_no_more_leverage",
                  dmerge (arms plateau) [("evidence", PStr "both_arms_plateaued"); ("plateau", PBool true)]))
      else match dget "round_fits" budget with
           | Some (PBool false) =>
               remaining ← get_float "remaining_sec" budget;
               timed ← _with_budget_timing budget (arms plateau);
               Ok (Some ("optimize_phase_budget_exhausted",
                         dmerge timed [("evidence", PStr "no_round_fits"); ("remaining_seconds", opt_float remaining)]))
           | _ => Ok None
           end
  end.
End exits.

(** ** PRELUDE's evidence ([phases/prelude_exits.py]) *)

Definition _IN_FLIGHT : string := "in_flight".

Section prelude.
Context {F : Type} `{!FloatOps F}.
Implicit Types (baseline pending : pydict F).
Local Open Scope float_scope.

Definition hot_pass_cost_sec (warm_sec post_ready_sec eval_sec : pyval F) : res (option F) :=
  warm ← optional_positive_float warm_sec;
  post_ready ← optional_positive_float post_ready_sec;
  evaluation ← optional_positive_float eval_sec;
  Ok (match warm, post_ready with
      | Some w, _ => Some w
      | None, None => None
      | None, Some p =>
          match evaluation with
          | Some e => if e <? p then Some (p - e) else Some p
          | None => Some p
          end
      end).

(** The dict [_prelude_viability] returns, once a round is priced. *)
Definition viability_of (usable round_sec : F) (priced_by : string) : pydict F :=
  [("session_usable_sec", rounded 1 usable); ("measured_round_sec", rounded 1 round_sec);
   ("priced_by", PStr priced_by); ("affordable_rounds", rounded 2 (usable / round_sec));
   ("fits_one_optimization_round", PBool (round_sec <=? usable))].

Definition _prelude_viability baseline : res (pydict F) :=
  usable ← get_float "session_usable_sec" baseline;
  runtime ← get_pos_float "runtime_sec" baseline;
  post_ready ← get_pos_float "post_ready_runtime_sec" baseline;
  warm ← get_pos_float "warm_runtime_sec" baseline;
  (* a positive float is truthy *)
  let benchmark := match warm with Some w => Some w | None => post_ready end in
  let '(round_sec, priced_by) :=
    match runtime, post_ready, benchmark with
    | Some r, Some p, Some b => (Some (fmax fzero (r - p) + b), "boot_plus_benchmark")
    | _, _, _ => (runtime, "cold_round")
    end in
  Ok (match usable, round_sec with
      | Some u, Some r => viability_of u r priced_by
      | _, _ => []
      end).

Definition _prelude_work_pending baseline pending : bool :=
  get_bool "prelude_work_in_flight" pending || String.eqb (get_str "warm_replay_status" baseline) _IN_FLIGHT.

Definition _cold_anchor_shortfall baseline pending : res (option (pydict F)) :=
  if negb (get_bool "measure_round_dropped" baseline) || _prelude_work_pending baseline pending then Ok None
  else
    usable ← get_float "session_usable_sec" baseline;
    runtime ← get_pos_float "runtime_sec" baseline;
    benchmark ← hot_pass_cost_sec (dget_or_none "warm_runtime_sec" baseline)
                  (dget_or_none "post_ready_runtime_sec" baseline) (dget_or_none "eval_runtime_sec" baseline);
    let retry := match runtime, benchmark with
                 | Some r, Some b => Some (r + b)
                 | _, _ => runtime
                 end in
    viability ← _prelude_viability baseline;
    measured ← get_float "measured_round_sec" viability;
    let use_sec := match measured with
                   | Some m => if feqb m fzero then runtime else Some m
                   | None => runtime
                   end in
    Ok (match usable, retry, use_sec with
        | Some u, Some r, Some s =>
            if r + s <=? u then None
            else Some (dmerge [("terminal", PBool true); ("baseline_anchor", PStr "cold");
                               ("retry_round_sec", rounded 1 r)] viability)
        | _, _, _ => None
        end).

Definition _prelude_budget_line baseline pending : res (option (pydict F)) :=
  leg_failures ← get_int "failures_this_leg" baseline;
  if (leg_failures <? 1)%Z || _prelude_work_pending baseline pending then Ok None
  else
    affordable ← get_float "analysis_affordable_sec" baseline;
    match affordable with
    | None => Ok None
    | Some a =>
        if fzero <? a then Ok None
        else
          streak ← get_int "failure_streak" baseline;
          usable ← get_float0 "session_usable_sec" baseline;
          spent ← get_float0 "phase_spent_sec" baseline;
          Ok (Some [("terminal", PBool true); ("baseline_failures_this_leg", PInt leg_failures);
                    ("baseline_failure_streak", PInt streak); ("prelude_affordable_sec", rounded 1 a);
                    ("session_usable_sec", rounded 1 usable); ("prelude_spent_sec", rounded 1 spent)])
    end.

Definition _baseline_is_anchored baseline : res bool :=
  if String.eqb (get_str "warm_replay_status" baseline) _IN_FLIGHT then Ok false
  else if get_bool "measure_round_dropped" baseline then Ok false
  else tput ← get_float0 "tput" baseline; Ok (fpos tput).

Definition _holds_for_initial_analysis baseline : res bool :=
  if negb (get_bool "initial_analysis_pending" baseline) then Ok false
  else affordable ← get_float "analysis_affordable_sec" baseline;
       Ok (match affordable with None => true | Some a => fzero <? a end).
End prelude.

(** ** The decision ([phases/machine_state.py]) *)

Definition CONTROLLER_TERMINAL_STATUSES : list string :=
  ["completed"; "failed"; "no_opportunity"; "no_result"; "partial"].
Definition GEAK_STATUS_ERROR : string := "error".
Definition _STOP_TIME_EXHAUSTED : string := "time_exhausted".
Definition _RELOOP_BLOCK_TERMINALS : list (string * string) :=
  [("global_converged", "global_converged"); ("all_directions_saturated", "global_converged");
   ("target_reached", "target_reached"); ("insufficient_remaining", _STOP_TIME_EXHAUSTED)].

Definition _post_prelude_target (optimize_enabled kernel_enabled : bool) : string :=
  if optimize_enabled then PHASE_FRAMEWORK_AGENT
  else if kernel_enabled then PHASE_KERNEL_AGENT
  else PHASE_SWEEP.

(** [v == s] for a value and a string. *)
Definition is_str {F} (s : string) (v : pyval F) : bool :=
  match v with PStr s' => String.eqb s' s | _ => false end.

Section decision.
Context {F : Type} `{!FloatOps F}.
Implicit Types (pending plateau inputs facts flags evidence global_inputs baseline viability : pydict F).
Local Open Scope float_scope.

(** A transition: the target, the reason, the evidence. *)
Definition transition_t : Type := string * string * pydict F.
Definition exit_t : Type := string * pydict F.

Definition _transition_result (target reason : string) evidence (predicate_inputs : pydict F) : transition_t :=
  (target, reason, dset "predicate_inputs" (PDict predicate_inputs) evidence).

(** *** KERNEL_AGENT *)

Definition _controller_round_settled pending (macro_cycle : pyval F) : res bool :=
  if is_str "forge" (dget_or_none "optimizer" pending) then
    cycle ← py_int (default (PInt (-1)) (dget "controller_cycle" pending));
    current ← (if truthy macro_cycle then py_int macro_cycle else Ok 0%Z);
    Ok ((cycle =? current)%Z && bool_decide (get_str "controller_status" pending ∈ CONTROLLER_TERMINAL_STATUSES))
  else Ok false.

Definition _kernel_idle_exit plateau (now_unix : pyval F) : res (option exit_t) :=
  idle_ticks ← get_int "idle_ticks" plateau;
  idle_max_ticks ← get_int "idle_max_ticks" plateau;
  idle_since ← get_float0 "idle_since_unix" plateau;
  if (idle_ticks <? idle_max_ticks)%Z || (idle_since <=? fzero) then Ok None
  else
    now ← to_float now_unix;
    let idle_seconds := fmax fzero (or_zero now - idle_since) in
    idle_min ← get_float0 "idle_min_seconds" plateau;
    if idle_seconds <? idle_min then Ok None
    else Ok (Some ("kernel_no_more_leverage",
           [("evidence", PStr "kernel_idle_no_progress"); ("idle_ticks", PInt idle_ticks);
            ("idle_max_ticks", PInt idle_max_ticks); ("idle_seconds", rounded 3 idle_seconds);
            ("idle_min_seconds", PFloat idle_min)])).

(** What a KERNEL phase with no agent in flight leaves for, before its budget is looked at. *)
Definition kernel_quiet_exit pending plateau inputs : res (option exit_t) :=
  let work_pending := get_bool "kernel_work_pending" pending in
  controller_settled ← _controller_round_settled pending (dget_or_none "macro_cycle" inputs);
  if controller_settled && negb work_pending then
    patches ← get_int "controller_patch_count" pending;
    tasks ← get_int "controller_task_count" pending;
    Ok (Some ("kernel_controller_done",
         [("controller_status", dget_or_none "controller_status" pending); ("patch_count", PInt patches);
          ("task_count", PInt tasks); ("reason", PStr (get_str "controller_reason" pending))]))
  else if negb work_pending then
    Ok (Some (if is_str GEAK_STATUS_ERROR (dget_or_none "geak_status" pending)
              then ("kernel_geak_failed",
                    [("geak_status", PStr GEAK_STATUS_ERROR);
                     ("error_class", dget_or_none "geak_error_class" pending);
                     ("error", dget_or_none "geak_error" pending)])
              else ("kernel_no_more_leverage", [("evidence", PStr "kernel_settled")])))
  else _kernel_idle_exit plateau (dget_or_none "now_unix" inputs).

Definition _kernel_exit inputs : res (option exit_t) :=
  pending ← get_dict "pending_work" inputs;
  plateau ← get_dict "plateau" inputs;
  quiet ← (if get_bool "kernel_agent_in_flight" pending then Ok None
           else kernel_quiet_exit pending plateau inputs);
  match quiet with
  | Some x => Ok (Some x)
  | None =>
      budget ← get_dict "budget" inputs;
      rejected ← get_int "rejected_kernel_count" plateau;
      budget_exit budget "kernel_phase_budget_exhausted" [("rejected_kernel_count", PInt rejected)]
  end.

(** *** SWEEP *)

Definition _sweep_exit inputs : res (option exit_t) :=
  sweep ← get_dict "sweep_result" inputs;
  let status := get_str "status" sweep in
  if String.eqb status "failed" then Ok (Some ("sweep_failed", [("sweep_status", PStr status)]))
  else if bool_decide (status ∈ ["succeeded"; "partial"; "completed"; "skipped"]) then
    let evidence : pydict F := [("sweep_status", PStr status)] in
    if get_bool "was_skipped" sweep then
      let skip_reason := get_str "skip_reason" sweep in
      let evidence :=
        dmerge evidence [("sweep_was_skipped", PBool true);
                         ("sweep_skip_budget_exhausted", PBool (get_bool "budget_exhausted" sweep));
                         ("sweep_skip_reason", PStr skip_reason)] in
      let spent_without_pair := get_bool "budget_exhausted" sweep
        || String.eqb skip_reason "budget_exhausted_no_successful_pairs" in
      no_pair ← (if get_bool "summary_present" sweep
                 then pairs ← get_int "successful_pairs" sweep; Ok (pairs <=? 0)%Z
                 else Ok false);
      if spent_without_pair || (no_pair && String.eqb skip_reason EmptyString)
      then Ok (Some ("sweep_failed", evidence))
      else Ok (Some ("sweep_done", evidence))
    else Ok (Some ("sweep_done", evidence))
  else
    budget ← get_dict "budget" inputs;
    budget_exit budget "sweep_budget_exhausted"
      (if String.eqb status EmptyString then [] else [("sweep_status", PStr status)]).

Definition _reloop_block_evidence facts global_inputs (streak : Z) : res (pydict F) :=
  if negb (String.eqb (get_str "target_reached_at" global_inputs) EmptyString) then
    Ok [("reloop_blocked", PStr "target_reached")]
  else
    saturated ← get_dict "saturated_directions" facts;
    if negb (bool_decide (saturated = [])) && forallb truthy saturated.*2 then
      Ok [("reloop_blocked", PStr "all_directions_saturated");
          ("saturated_directions", PList (PStr <$> py_sorted saturated.*1))]
    else
      limit ← get_int "no_gain_cycles" facts;
      Ok (if (limit <=? streak)%Z then [("reloop_blocked", PStr "global_converged")] else []).

Definition _reloop_decision inputs : res (bool * pydict F) :=
  sweep ← get_dict "sweep_result" inputs;
  facts ← get_dict "reloop" sweep;
  cycle ← get_int "macro_cycle" inputs;
  current_gain ← get_float0 "current_gain_pct" facts;
  start_gain ← get_float0 "gain_at_cycle_start_pct" facts;
  threshold ← get_float0 "min_gain_pct" facts;
  let gained := threshold <? (current_gain - start_gain) in
  streak ← (if gained then Ok 0%Z
            else prior ← get_int "prior_no_gain_cycle_streak" facts; Ok (prior + 1)%Z);
  let evidence : pydict F :=
    [("macro_cycle", PInt cycle); ("min_gain_pct", rounded 6 threshold);
     ("cycle_gain_delta", rounded 6 (current_gain - start_gain)); ("cycle_gained", PBool gained);
     ("no_gain_cycle_streak_effective", PInt streak)] in
  global_inputs ← get_dict "global" inputs;
  blocked ← _reloop_block_evidence facts global_inputs streak;
  if negb (bool_decide (blocked = [])) then Ok (false, dmerge evidence blocked)
  else
    minimum ← get_float0 "min_remaining_sec" facts;
    let evidence := dset "min_remaining_sec_effective" (rounded 2 minimum) evidence in
    remaining ← get_float "session_remaining_sec" facts;
    match remaining with
    | Some r =>
        if r <? minimum then
          Ok (false, dset "session_remaining_seconds" (rounded 2 r)
                       (dset "reloop_blocked" (PStr "insufficient_remaining") evidence))
        else Ok (true, dmerge evidence [("reloop", PBool true); ("next_cycle", PInt (cycle + 1))])
    | None => Ok (true, dmerge evidence [("reloop", PBool true); ("next_cycle", PInt (cycle + 1))])
    end.

(** *** Transitions *)

(** [inputs["current_phase"]], as text. *)
Definition current_phase inputs : res string :=
  match dget "current_phase" inputs with
  | Some v => Ok (py_str v)
  | None => Raise (KeyError "current_phase")
  end.

Definition _terminal_close_transition inputs : res (option transition_t) :=
  current ← current_phase inputs;
  if String.eqb current PHASE_CLOSE then Ok None
  else
    global_inputs ← get_dict "global" inputs;
    let stop_reason := get_str "stop_reason" global_inputs in
    if negb (String.eqb stop_reason EmptyString) then
      let evidence : pydict F :=
        ("reason_origin", PStr "shared_state.stop_reason")
          :: (if is_valid_stop_reason stop_reason then [] else [("vocab", PStr "unknown")]) in
      Ok (Some (_transition_result PHASE_CLOSE stop_reason (dmerge [("terminal", PBool true)] evidence) inputs))
    else if get_bool "closing_phase" global_inputs then
      Ok (Some (_transition_result PHASE_CLOSE _STOP_TIME_EXHAUSTED
                  [("terminal", PBool true); ("reason_origin", PStr "closing_phase")] inputs))
    else Ok None.

Definition _anchored_baseline_transition inputs flags baseline viability (reason : string) : res transition_t :=
  let target := _post_prelude_target (get_bool "framework_agent_enabled" flags) (get_bool "kernel_enabled" flags) in
  tput ← match dget "tput" baseline with
         | Some v => py_float v
         | None => Raise (KeyError "tput")
         end;
  let evidence := dmerge [("baseline_tput", PFloat tput)] viability in
  let evidence := if String.eqb target PHASE_FRAMEWORK_AGENT then evidence
                  else dset "optimize_skipped" (PBool true) evidence in
  Ok (_transition_result target reason evidence inputs).

(** PRELUDE's last exit: its own budget is gone and nothing is left to dispatch. *)
Definition prelude_line inputs baseline pending : res (option transition_t) :=
  reserve_line ← _prelude_budget_line baseline pending;
  Ok (match reserve_line with
      | Some ev => Some (_transition_result PHASE_CLOSE "prelude_budget_exhausted" ev inputs)
      | None => None
      end).

Definition _prelude_transition inputs flags : res (option transition_t) :=
  baseline ← get_dict "baseline" inputs;
  pending ← get_dict "pending_work" inputs;
  streak ← get_int "failure_streak" baseline;
  if (3 <=? streak)%Z then
    Ok (Some (_transition_result PHASE_CLOSE "prelude_baseline_failed"
                [("terminal", PBool true); ("baseline_failure_streak", PInt streak)] inputs))
  else
    shortfall ← _cold_anchor_shortfall baseline pending;
    match shortfall with
    | Some ev => Ok (Some (_transition_result PHASE_CLOSE "prelude_cold_anchor_low_budget" ev inputs))
    | None =>
        if get_bool "enablement_enabled" flags && (1 <=? streak)%Z then
          Ok (Some (_transition_result PHASE_ENABLEMENT "enablement_entered"
                      [("baseline_failure_streak", PInt streak)] inputs))
        else
          anchored ← _baseline_is_anchored baseline;
          if (anchored : bool) then
            holds ← _holds_for_initial_analysis baseline;
            if (holds : bool) then Ok None
            else
              viability ← _prelude_viability baseline;
              tr ← _anchored_baseline_transition inputs flags baseline viability "prelude_done";
              Ok (Some tr)
          else
            usable ← get_float "session_usable_sec" baseline;
            match usable with
            | Some u =>
                if u <=? fzero then
                  spent ← get_float0 "phase_spent_sec" baseline;
                  Ok (Some (_transition_result PHASE_CLOSE "time_exhausted_during_prelude"
                    [("terminal", PBool true); ("session_usable_sec", rounded 1 u);
                     ("prelude_spent_sec", rounded 1 spent)] inputs))
                else prelude_line inputs baseline pending
            | None => prelude_line inputs baseline pending
            end
    end.

Definition _enablement_transition inputs flags : res (option transition_t) :=
  baseline ← get_dict "baseline" inputs;
  pending ← get_dict "pending_work" inputs;
  tput ← get_float0 "tput" baseline;
  if fpos tput && negb (get_bool "validation_pending" pending) && negb (get_bool "enablement_in_flight" pending) then
    holds ← _holds_for_initial_analysis baseline;
    if (holds : bool) then Ok None
    else tr ← _anchored_baseline_transition inputs flags baseline [] "enablement_done"; Ok (Some tr)
  else Ok None.

Definition _framework_transition inputs flags : res (option transition_t) :=
  normal ← framework_exit inputs;
  Ok (match normal with
      | None => None
      | Some (reason, ev) =>
          Some (if get_bool "kernel_enabled" flags then _transition_result PHASE_KERNEL_AGENT reason ev inputs
                else _transition_result PHASE_SWEEP reason (dset "kernel_skipped" (PBool true) ev) inputs)
      end).

Definition _kernel_transition inputs : res (option transition_t) :=
  normal ← _kernel_exit inputs;
  Ok (match normal with
      | None => None
      | Some (reason, ev) => Some (_transition_result PHASE_SWEEP reason ev inputs)
      end).

Definition _sweep_transition inputs flags : res (option transition_t) :=
  normal ← _sweep_exit inputs;
  match normal with
  | None => Ok None
  | Some (exit_reason, exit_evidence) =>
      if String.eqb exit_reason "sweep_failed" then
        Ok (Some (_transition_result PHASE_CLOSE exit_reason exit_evidence inputs))
      else
        '(reloop, reloop_evidence) ← _reloop_decision inputs;
        let cycles_enabled := get_bool "framework_agent_enabled" flags in
        if reloop && cycles_enabled then
          Ok (Some (_transition_result PHASE_FRAMEWORK_AGENT "cycle_reloop"
                      (dset "loopback" (PBool true) (dmerge exit_evidence reloop_evidence)) inputs))
        else
          let blocked := get_str "reloop_blocked" reloop_evidence in
          let terminal_reason :=
            if cycles_enabled || String.eqb blocked "target_reached"
            then dget blocked _RELOOP_BLOCK_TERMINALS else None in
          Ok (Some (match terminal_reason with
                    | Some reason =>
                        _transition_result PHASE_CLOSE reason
                          (dset "terminal" (PBool true) (dmerge exit_evidence reloop_evidence)) inputs
                    | None => _transition_result PHASE_CLOSE exit_reason (dmerge exit_evidence reloop_evidence) inputs
                    end))
  end.

Definition replay_next_phase inputs : res (option transition_t) :=
  forced ← _terminal_close_transition inputs;
  match forced with
  | Some tr => Ok (Some tr)
  | None =>
      current ← current_phase inputs;
      global_inputs ← get_dict "global" inputs;
      let target_at := get_str "target_reached_at" global_inputs in
      if negb (String.eqb target_at EmptyString)
         && (phase_index PHASE_ENABLEMENT <=? phase_index current)%Z
         && (phase_index current <? phase_index PHASE_SWEEP)%Z then
        Ok (Some (_transition_result PHASE_SWEEP "target_reached" [("target_reached_at", PStr target_at)] inputs))
      else
        flags ← get_dict "run_flags" inputs;
        if String.eqb current PHASE_PRELUDE then _prelude_transition inputs flags
        else if String.eqb current PHASE_ENABLEMENT then _enablement_transition inputs flags
        else if String.eqb current PHASE_FRAMEWORK_AGENT then _framework_transition inputs flags
        else if String.eqb current PHASE_KERNEL_AGENT then _kernel_transition inputs
        else if String.eqb current PHASE_SWEEP then _sweep_transition inputs flags
        else Ok None
  end.
End decision.

(** ** The exits of each phase *)

(** Membership in a closed list. *)
Ltac find_in := repeat (apply elem_of_cons; first [left; reflexivity | right]).

Section edges.
Context {F : Type} `{!FloatOps F}.
Implicit Types (inputs flags ev : pydict F).

(** Which (target, reason) pairs each phase can decide by itself. *)
Definition phase_edges (current : string) : list (string * string) :=
  if String.eqb current PHASE_PRELUDE then
    [(PHASE_CLOSE, "prelude_baseline_failed"); (PHASE_CLOSE, "prelude_cold_anchor_low_budget");
     (PHASE_CLOSE, "time_exhausted_during_prelude"); (PHASE_CLOSE, "prelude_budget_exhausted");
     (PHASE_ENABLEMENT, "enablement_entered"); (PHASE_FRAMEWORK_AGENT, "prelude_done");
     (PHASE_KERNEL_AGENT, "prelude_done"); (PHASE_SWEEP, "prelude_done")]
  else if String.eqb current PHASE_ENABLEMENT then
    [(PHASE_SWEEP, "target_reached"); (PHASE_FRAMEWORK_AGENT, "enablement_done");
     (PHASE_KERNEL_AGENT, "enablement_done"); (PHASE_SWEEP, "enablement_done")]
  else if String.eqb current PHASE_FRAMEWORK_AGENT then
    [(PHASE_SWEEP, "target_reached"); (PHASE_KERNEL_AGENT, "optimize_phase_budget_exhausted");
     (PHASE_KERNEL_AGENT, "optimize_no_more_leverage"); (PHASE_SWEEP, "optimize_phase_budget_exhausted");
     (PHASE_SWEEP, "optimize_no_more_leverage")]
  else if String.eqb current PHASE_KERNEL_AGENT then
    [(PHASE_SWEEP, "target_reached"); (PHASE_SWEEP, "kernel_controller_done"); (PHASE_SWEEP, "kernel_geak_failed");
     (PHASE_SWEEP, "kernel_no_more_leverage"); (PHASE_SWEEP, "kernel_phase_budget_exhausted")]
  else if String.eqb current PHASE_SWEEP then
    [(PHASE_FRAMEWORK_AGENT, "cycle_reloop"); (PHASE_CLOSE, "sweep_failed"); (PHASE_CLOSE, "target_reached");
     (PHASE_CLOSE, "global_converged"); (PHASE_CLOSE, "time_exhausted"); (PHASE_CLOSE, "sweep_done");
     (PHASE_CLOSE, "sweep_budget_exhausted")]
  else [].

Lemma post_prelude_cases o k :
  _post_prelude_target o k ∈ [PHASE_FRAMEWORK_AGENT; PHASE_KERNEL_AGENT; PHASE_SWEEP].
Proof. destruct o, k; repeat constructor. Qed.

Lemma budget_exit_reason budget r (evi : pydict F) x ev :
  budget_exit budget r evi = Ok (Some (x, ev)) → x = r.
Proof. unfold budget_exit. intros H. inv_res H; congruence. Qed.

Lemma framework_exit_reason inputs r ev :
  framework_exit inputs = Ok (Some (r, ev)) →
  r ∈ ["optimize_phase_budget_exhausted"; "optimize_no_more_leverage"].
Proof.
  unfold framework_exit. intros H. inv_res H; simplify_eq; [|find_in..].
  match goal with E : budget_exit _ _ _ = Ok (Some _) |- _ => apply budget_exit_reason in E as -> end.
  find_in.
Qed.

Lemma kernel_quiet_exit_reason pending plateau inputs r ev :
  kernel_quiet_exit pending plateau inputs = Ok (Some (r, ev)) →
  r ∈ ["kernel_controller_done"; "kernel_geak_failed"; "kernel_no_more_leverage"; "kernel_phase_budget_exhausted"].
Proof.
  unfold kernel_quiet_exit, _kernel_idle_exit. intros H. inv_res H; try case_match; simplify_eq; find_in.
Qed.

Lemma kernel_exit_reason inputs r ev :
  _kernel_exit inputs = Ok (Some (r, ev)) →
  r ∈ ["kernel_controller_done"; "kernel_geak_failed"; "kernel_no_more_leverage"; "kernel_phase_budget_exhausted"].
Proof.
  unfold _kernel_exit. intros H. inv_res H; simplify_eq.
  - destruct (get_bool "kernel_agent_in_flight" a); [done|]. by eapply kernel_quiet_exit_reason.
  - apply budget_exit_reason in H as ->. find_in.
Qed.

Lemma sweep_exit_reason inputs r ev :
  _sweep_exit inputs = Ok (Some (r, ev)) →
  r ∈ ["sweep_failed"; "sweep_done"; "sweep_budget_exhausted"].
Proof.
  unfold _sweep_exit. intros H. inv_res H; simplify_eq; [find_in..|].
  apply budget_exit_reason in H as ->. find_in.
Qed.

Lemma anchored_edges inputs flags baseline viability reason t r ev :
  _anchored_baseline_transition inputs flags baseline viability reason = Ok (t, r, ev) →
  r = reason ∧ t ∈ [PHASE_FRAMEWORK_AGENT; PHASE_KERNEL_AGENT; PHASE_SWEEP].
Proof.
  unfold _anchored_baseline_transition, _transition_result. intros H. inv_res H; simplify_eq;
    (split; [done|apply post_prelude_cases]).
Qed.

Lemma prelude_edges inputs flags t r ev :
  _prelude_transition inputs flags = Ok (Some (t, r, ev)) → (t, r) ∈ phase_edges PHASE_PRELUDE.
Proof.
  unfold _prelude_transition, prelude_line, _transition_result. intros H. inv_res H; simplify_eq;
    try (vm_compute; find_in; done).
  match goal with E : _ = Ok (t, r, ev) |- _ => apply anchored_edges in E as [-> Ht] end.
  rewrite !elem_of_cons, elem_of_nil in Ht. destruct Ht as [->|[->|[->|[]]]]; vm_compute; find_in.
Qed.

Lemma enablement_edges inputs flags t r ev :
  _enablement_transition inputs flags = Ok (Some (t, r, ev)) → (t, r) ∈ phase_edges PHASE_ENABLEMENT.
Proof.
  unfold _enablement_transition. intros H. inv_res H; simplify_eq.
  match goal with E : _ = Ok (t, r, ev) |- _ => apply anchored_edges in E as [-> Ht] end.
  rewrite !elem_of_cons, elem_of_nil in Ht. destruct Ht as [->|[->|[->|[]]]]; vm_compute; find_in.
Qed.

Lemma framework_edges inputs flags t r ev :
  _framework_transition inputs flags = Ok (Some (t, r, ev)) → (t, r) ∈ phase_edges PHASE_FRAMEWORK_AGENT.
Proof.
  unfold _framework_transition, _transition_result. intros H. inv_res H.
  all: match goal with E : framework_exit _ = _ |- _ => apply framework_exit_reason in E as Hr end.
  all: rewrite !elem_of_cons, elem_of_nil in Hr; destruct Hr as [->|[->|[]]]; simplify_eq; vm_compute; find_in.
Qed.

Lemma kernel_edges inputs t r ev :
  _kernel_transition inputs = Ok (Some (t, r, ev)) → (t, r) ∈ phase_edges PHASE_KERNEL_AGENT.
Proof.
  unfold _kernel_transition, _transition_result. intros H. inv_res H.
  all: match goal with E : _kernel_exit _ = _ |- _ => apply kernel_exit_reason in E as Hr end.
  all: simplify_eq; rewrite !elem_of_cons, elem_of_nil in Hr.
  all: destruct Hr as [->|[->|[->|[->|[]]]]]; vm_compute; find_in.
Qed.

Lemma sweep_edges inputs flags t r ev :
  _sweep_transition inputs flags = Ok (Some (t, r, ev)) →
  (t, r) ∈ phase_edges PHASE_SWEEP ∧
  (t = PHASE_FRAMEWORK_AGENT → dget "loopback" ev = Some (PBool true)).
Proof.
  unfold _sweep_transition, _transition_result. intros H. inv_res H; simplify_eq.
  - rename select (String.eqb _ _ = true) into Hs. apply String.eqb_eq in Hs as ->. split; [vm_compute; find_in|done].
  - split; [vm_compute; find_in|]. intros _. rewrite dget_dset_ne by done. apply dget_dset_eq.
  - match goal with E : (if _ then _ else _) = Some r |- _ => inv_res E end;
      subst; (split; [vm_compute; find_in|done]).
  - match goal with E : _sweep_exit _ = _ |- _ => apply sweep_exit_reason in E as Hr end.
    rewrite !elem_of_cons, elem_of_nil in Hr.
    destruct Hr as [->|[->|[->|[]]]]; (split; [vm_compute; find_in|done]).
Qed.

(** The close a stop reason or the closing deadline forces. *)
Definition forced_close inputs (reason : string) : Prop :=
  ∃ g, get_dict "global" inputs = Ok g ∧
    (get_str "stop_reason" g = reason ∧ reason ≠ EmptyString ∨
     get_str "stop_reason" g = EmptyString ∧ get_bool "closing_phase" g = true ∧ reason = _STOP_TIME_EXHAUSTED).

Lemma terminal_close_inv inputs t r ev :
  _terminal_close_transition inputs = Ok (Some (t, r, ev)) →
  t = PHASE_CLOSE ∧ forced_close inputs r ∧ current_phase inputs ≠ Ok PHASE_CLOSE ∧
  dget "terminal" ev = Some (PBool true) ∧ dget "predicate_inputs" ev = Some (PDict inputs).
Proof.
  unfold _terminal_close_transition, _transition_result. intros H. inv_res H; simplify_eq;
    (split; [done|]); (split; [eexists; split; [done|]|split]).
  - left. split; [done|]. intros Heq. rewrite Heq in *. done.
  - intros Hc. rewrite Hc in *. by simplify_eq.
  - split; [|apply dget_dset_eq]. rewrite dget_dset_ne by done. by case_match.
  - right. split_and!; try done. by apply String.eqb_eq, negb_false_iff.
  - intros Hc. rewrite Hc in *. by simplify_eq.
  - done.
Qed.

Lemma middle_phase cur :
  norm_phase cur = cur → (phase_index PHASE_ENABLEMENT <= phase_index cur < phase_index PHASE_SWEEP)%Z →
  cur = PHASE_ENABLEMENT ∨ cur = PHASE_FRAMEWORK_AGENT ∨ cur = PHASE_KERNEL_AGENT.
Proof.
  change (phase_index PHASE_ENABLEMENT) with 1%Z. change (phase_index PHASE_SWEEP) with 4%Z. intros Hn Hi.
  destruct (phase_index_range cur) as [_ [Hin _]]. specialize (Hin ltac:(lia)). rewrite Hn in Hin.
  unfold PHASE_NAMES in Hin. rewrite !elem_of_cons, elem_of_nil in Hin.
  destruct Hin as [->|[->|[->|[->|[->|[->|[]]]]]]]; try tauto; exfalso; destruct Hi as [H1 H2];
    first [by destruct (H1 eq_refl)|discriminate H2].
Qed.

Lemma replay_edges inputs cur t r ev :
  replay_next_phase inputs = Ok (Some (t, r, ev)) → current_phase inputs = Ok cur → norm_phase cur = cur →
  t = PHASE_CLOSE ∧ cur ≠ PHASE_CLOSE ∧ forced_close inputs r ∨
  (t, r) ∈ phase_edges cur ∧
    (t = PHASE_FRAMEWORK_AGENT → cur = PHASE_SWEEP → dget "loopback" ev = Some (PBool true)).
Proof.
  unfold replay_next_phase. intros H Hcur Hnorm. rewrite Hcur in H.
  inv_res H; try match goal with E : Ok cur = Ok _ |- _ => injection E as <- end.
  { subst. match goal with E : _terminal_close_transition _ = _ |- _ => apply terminal_close_inv in E end.
    left. naive_solver. }
  all: right.
  { rewrite !andb_true_iff, Z.leb_le, Z.ltb_lt in *. unfold _transition_result in *. simplify_eq.
    split; [|done]. destruct (middle_phase cur) as [->|[->| ->]]; try done; [tauto|vm_compute; find_in..]. }
  all: match goal with E : String.eqb _ _ = true |- _ => apply String.eqb_eq in E as -> end.
  - apply prelude_edges in H. split_and!; [done..|discriminate].
  - apply enablement_edges in H. split_and!; [done..|discriminate].
  - apply framework_edges in H. split_and!; [done..|discriminate].
  - apply kernel_edges in H. split_and!; [done..|discriminate].
  - apply sweep_edges in H as [? ?]. split_and!; auto.
Qed.

(** Every decision carries the inputs it was taken on. *)
Lemma anchored_inputs inputs flags baseline viability reason t r ev :
  _anchored_baseline_transition inputs flags baseline viability reason = Ok (t, r, ev) →
  dget "predicate_inputs" ev = Some (PDict inputs).
Proof.
  unfold _anchored_baseline_transition, _transition_result. intros H. inv_res H; subst; apply dget_dset_eq.
Qed.

Lemma replay_inputs inputs t r ev :
  replay_next_phase inputs = Ok (Some (t, r, ev)) → dget "predicate_inputs" ev = Some (PDict inputs).
Proof.
  unfold replay_next_phase, _prelude_transition, _enablement_transition, _framework_transition,
    _kernel_transition, _sweep_transition, prelude_line, _transition_result.
  intros H. inv_res H; try apply dget_dset_eq; subst;
    try (injection H as <- <- <-); try apply dget_dset_eq; try done;
    match goal with
    | E : _terminal_close_transition _ = _ |- _ => apply terminal_close_inv in E; naive_solver
    | E : _anchored_baseline_transition _ _ _ _ _ = _ |- _ => by apply anchored_inputs in E
    end.
Qed.
End edges.

(** ** The macro-cycle policy

    What [_reloop_decision] decides, as a function of typed facts. *)

Record cycle_facts (F : Type) := MkCycleFacts {
  cf_cycle : Z;
  cf_target : bool;                    (* a target was reached *)
  cf_saturated : list (string * bool); (* each direction, and whether it is saturated *)
  cf_limit : Z;                        (* no-gain cycles before convergence *)
  cf_prior : Z;                        (* no-gain cycles before this one *)
  cf_gain : F;
  cf_start : F;
  cf_threshold : F;
  cf_minimum : F;
  cf_remaining : option F
}.
Arguments MkCycleFacts {F} _ _ _ _ _ _ _ _ _ _.
Arguments cf_cycle {F} _.
Arguments cf_target {F} _.
Arguments cf_saturated {F} _.
Arguments cf_limit {F} _.
Arguments cf_prior {F} _.
Arguments cf_gain {F} _.
Arguments cf_start {F} _.
Arguments cf_threshold {F} _.
Arguments cf_minimum {F} _.
Arguments cf_remaining {F} _.

Inductive verdict := Reloop | TargetReached | AllSaturated | Converged | OutOfTime.

#[global] Instance verdict_eq_dec : EqDecision verdict.
Proof. solve_decision. Defined.

(** Step through a computation in [res] whose results are known. *)
Ltac run_res :=
  cbn [mbind res_bind];
  repeat (match goal with |- context [mbind _ ?m] =>
            match goal with E : m = Ok _ |- _ => rewrite E end
          end; cbn [mbind res_bind]).

(** The [reloop_blocked] text of a verdict, and the stop reason it closes with. *)
Definition block_name (v : verdict) : string :=
  match v with
  | Reloop => EmptyString
  | TargetReached => "target_reached"
  | AllSaturated => "all_directions_saturated"
  | Converged => "global_converged"
  | OutOfTime => "insufficient_remaining"
  end.
Definition close_reason (v : verdict) : option string :=
  match v with
  | Reloop => None
  | TargetReached => Some "target_reached"
  | AllSaturated | Converged => Some "global_converged"
  | OutOfTime => Some "time_exhausted"
  end.

Section policy.
Context {F : Type} `{!FloatOps F}.
Implicit Types (inputs : pydict F) (cf : cycle_facts F).
Local Open Scope float_scope.

Definition cycle_streak cf : Z :=
  if cf_threshold cf <? (cf_gain cf - cf_start cf) then 0%Z else (cf_prior cf + 1)%Z.

Definition cycle_verdict cf : verdict :=
  if cf_target cf then TargetReached
  else if negb (bool_decide (cf_saturated cf = [])) && forallb snd (cf_saturated cf) then AllSaturated
  else if (cf_limit cf <=? cycle_streak cf)%Z then Converged
  else match cf_remaining cf with
       | Some r => if r <? cf_minimum cf then OutOfTime else Reloop
       | None => Reloop
       end.

(** Where SWEEP goes once its sweep has ended on [exit_reason]. *)
Definition sweep_policy (cycles_enabled : bool) (exit_reason : string) (v : verdict) : string * string :=
  if String.eqb exit_reason "sweep_failed" then (PHASE_CLOSE, exit_reason)
  else match v with
       | Reloop => if cycles_enabled then (PHASE_FRAMEWORK_AGENT, "cycle_reloop") else (PHASE_CLOSE, exit_reason)
       | TargetReached => (PHASE_CLOSE, "target_reached")
       | _ => (PHASE_CLOSE, if cycles_enabled then default exit_reason (close_reason v) else exit_reason)
       end.

(** The facts of the frozen inputs. *)
Definition read_cycle_facts inputs : res (cycle_facts F) :=
  sweep ← get_dict "sweep_result" inputs;
  facts ← get_dict "reloop" sweep;
  cycle ← get_int "macro_cycle" inputs;
  gain ← get_float0 "current_gain_pct" facts;
  start ← get_float0 "gain_at_cycle_start_pct" facts;
  threshold ← get_float0 "min_gain_pct" facts;
  prior ← get_int "prior_no_gain_cycle_streak" facts;
  global_inputs ← get_dict "global" inputs;
  saturated ← get_dict "saturated_directions" facts;
  limit ← get_int "no_gain_cycles" facts;
  minimum ← get_float0 "min_remaining_sec" facts;
  remaining ← get_float "session_remaining_sec" facts;
  Ok (MkCycleFacts cycle (negb (String.eqb (get_str "target_reached_at" global_inputs) EmptyString))
        ((λ kv, (kv.1, truthy kv.2)) <$> saturated) limit prior gain start threshold minimum remaining).

Lemma forallb_snd (l : list (string * pyval F)) :
  forallb snd ((λ kv, (kv.1, truthy kv.2)) <$> l) = forallb truthy l.*2.
Proof. induction l as [|[k v] l IH]; [done|]. simpl. by f_equal. Qed.

Lemma fmap_nil_decide (l : list (string * pyval F)) :
  bool_decide ((λ kv, (kv.1, truthy kv.2)) <$> l = []) = bool_decide (l = []).
Proof. by destruct l. Qed.

(** The dict-level decision is the policy. *)
Definition reloop_evidence_ok cf (ev : pydict F) : Prop :=
  get_str "reloop_blocked" ev = block_name (cycle_verdict cf) ∧
  dget "no_gain_cycle_streak_effective" ev = Some (PInt (cycle_streak cf)) ∧
  dget "macro_cycle" ev = Some (PInt (cf_cycle cf)) ∧
  (cycle_verdict cf = Reloop → dget "next_cycle" ev = Some (PInt (cf_cycle cf + 1))) ∧
  dget "cycle_gained" ev = Some (PBool (cf_threshold cf <? (cf_gain cf - cf_start cf))) ∧
  NoDup ev.*1.

Ltac evidence_found :=
  eexists; split; [reflexivity|]; split_and!; [reflexivity|reflexivity|reflexivity|done|reflexivity|];
  refine (bool_decide_unpack (NoDup _) _); vm_compute; exact I.

Lemma reloop_decision_refines inputs cf :
  read_cycle_facts inputs = Ok cf →
  ∃ ev, _reloop_decision inputs = Ok (bool_decide (cycle_verdict cf = Reloop), ev) ∧ reloop_evidence_ok cf ev.
Proof.
  unfold read_cycle_facts. intros H. inv_res H. subst cf.
  unfold reloop_evidence_ok, cycle_verdict, cycle_streak. simpl. rewrite forallb_snd, fmap_nil_decide.
  unfold _reloop_decision, _reloop_block_evidence. run_res.
  destruct (a4 <? a2 - a3); run_res; (destruct (String.eqb (get_str "target_reached_at" a6) EmptyString);
    simpl negb; cbv iota; run_res; [|evidence_found]);
    (destruct (negb (bool_decide (a7 = [])) && forallb truthy a7.*2); run_res; [evidence_found|]).
  - destruct (a8 <=? 0)%Z; [evidence_found|]. cbn. destruct a10 as [x|]; [destruct (x <? a9)|]; evidence_found.
  - destruct (a8 <=? a5 + 1)%Z; [evidence_found|]. cbn. destruct a10 as [x|]; [destruct (x <? a9)|]; evidence_found.
Qed.
End policy.

(** ** Properties of the decision *)

Section properties.
Context {F : Type} `{!FloatOps F}.
Implicit Types (inputs flags ev : pydict F) (cf : cycle_facts F).

(** No stop reason and no closing deadline. *)
Definition not_forced inputs : Prop :=
  ∃ g, get_dict "global" inputs = Ok g ∧ get_str "stop_reason" g = EmptyString ∧ get_bool "closing_phase" g = false.

Lemma not_forced_terminal inputs cur :
  not_forced inputs → current_phase inputs = Ok cur → _terminal_close_transition inputs = Ok None.
Proof.
  intros (g & Hg & Hs & Hc) Hcur. unfold _terminal_close_transition. run_res.
  case_match; [done|]. run_res. rewrite Hs, Hc. done.
Qed.

Lemma edges_forward cur :
  norm_phase cur = cur →
  Forall (λ e, e.1 ∈ PHASE_NAMES ∧
    ((phase_index cur < phase_index e.1)%Z ∨ cur = PHASE_SWEEP ∧ e = (PHASE_FRAMEWORK_AGENT, "cycle_reloop")))
    (phase_edges cur).
Proof.
  intros _. unfold phase_edges. repeat (case_match; [|try constructor]);
    match goal with E : String.eqb _ _ = true |- _ => apply String.eqb_eq in E as -> end;
    repeat (apply Forall_cons; split;
      [split; [vm_compute; find_in|first [left; vm_compute; reflexivity|right; done]]|]);
    apply Forall_nil; done.
Qed.
End properties.

Lemma decision_moves {F} `{!FloatOps F} (inputs : pydict F) cur t r ev :
  current_phase inputs = Ok cur →
  norm_phase cur = cur →
  replay_next_phase inputs = Ok (Some (t, r, ev)) →
  t ∈ PHASE_NAMES ∧ t ≠ cur ∧
  ((phase_index cur < phase_index t)%Z ∨
   cur = PHASE_SWEEP ∧ t = PHASE_FRAMEWORK_AGENT ∧ r = "cycle_reloop" ∧ dget "loopback" ev = Some (PBool true)).
Proof.
  intros Hcur Hn H. destruct (replay_edges _ _ _ _ _ H Hcur Hn) as [(-> & Hne & _)|[He Hl]].
  - split; [vm_compute; find_in|]. split; [done|]. left.
    destruct (phase_index_range cur) as [Hr Hin]. change (phase_index PHASE_CLOSE) with 5%Z.
    destruct (decide (phase_index cur = 5)%Z) as [E|]; [|lia]. exfalso. apply Hne.
    assert (norm_phase cur ∈ PHASE_NAMES) as Hp by (apply Hin; lia). rewrite Hn in Hp.
    unfold PHASE_NAMES in Hp. rewrite !elem_of_cons, elem_of_nil in Hp.
    destruct Hp as [->|[->|[->|[->|[->|[->|[]]]]]]]; first [done|vm_compute in E; discriminate].
  - pose proof (edges_forward cur Hn) as Hf. rewrite Forall_forall in Hf.
    destruct (Hf _ He) as [Hin Hd]; simpl in *. split; [done|].
    destruct Hd as [Hd|[-> [= -> ->]]]; [|naive_solver].
    split; [intros ->; lia|by left].
Qed.

(** C22: A decision never moves backwards: its target is a phase of the chain that lies after the
    current one, except for the one loop the machine has, from SWEEP back to FRAMEWORK_AGENT with
    reason [cycle_reloop], whose evidence is marked as a loopback. *)
Theorem phase_moves_forward {F} `{!FloatOps F} (inputs : pydict F) cur t r ev :
  current_phase inputs = Ok cur →
  norm_phase cur = cur →
  replay_next_phase inputs = Ok (Some (t, r, ev)) →
  t ∈ PHASE_NAMES ∧ t ≠ cur ∧
  ((phase_index cur < phase_index t)%Z ∨
   cur = PHASE_SWEEP ∧ t = PHASE_FRAMEWORK_AGENT ∧ r = "cycle_reloop" ∧ dget "loopback" ev = Some (PBool true)).
Proof. apply decision_moves. Qed.

(** A stop reason, or else the closing deadline, closes the run from every phase but CLOSE,
    whatever the other facts say, and marks the transition terminal; and CLOSE has no exit. *)
Theorem stop_forces_close {F} `{!FloatOps F} (inputs : pydict F) cur :
  current_phase inputs = Ok cur →
  (cur ≠ PHASE_CLOSE → ∀ r, forced_close inputs r →
    ∃ ev, replay_next_phase inputs = Ok (Some (PHASE_CLOSE, r, ev)) ∧ dget "terminal" ev = Some (PBool true)) ∧
  (cur = PHASE_CLOSE → ∀ tr, replay_next_phase inputs ≠ Ok (Some tr)).
Proof.
  intros Hcur. split.
  - intros Hne r (g & Hg & Hr).
    assert (∃ ev, _terminal_close_transition inputs = Ok (Some (PHASE_CLOSE, r, ev))) as [ev Hev].
    { unfold _terminal_close_transition. run_res. apply String.eqb_neq in Hne. rewrite Hne. run_res.
      destruct Hr as [[-> Hr%String.eqb_neq]|(-> & -> & ->)]; [rewrite Hr; by eexists|by eexists]. }
    exists ev. split; [|by destruct (terminal_close_inv _ _ _ _ Hev) as (_ & _ & _ & ? & _)].
    unfold replay_next_phase. by run_res.
  - intros -> [[t r] ev] H. destruct (replay_edges _ _ _ _ _ H Hcur eq_refl) as [(_ & ? & _)|[He _]]; [done|].
    vm_compute in He. by apply elem_of_nil in He.
Qed.

(** A decision can be recomputed from the row that records it: the evidence of the history row
    carries the facts the decision was taken on, and replaying those facts yields the same target,
    reason and evidence. *)
Theorem recorded_decision_replays {F} `{!FloatOps F} (inputs : pydict F) cur t r ev ts ts_unix cycle :
  current_phase inputs = Ok cur →
  norm_phase cur = cur →
  replay_next_phase inputs = Ok (Some (t, r, ev)) →
  let row := make_history_row (MkEntry cur t r (Some ev) ts ts_unix cycle) in
  ∃ evidence frozen,
    dget "evidence" row = Some (PDict evidence) ∧
    dget "predicate_inputs" evidence = Some (PDict frozen) ∧
    replay_next_phase frozen = Ok (Some (t, r, evidence)) ∧
    dget "from_phase" row = Some (PStr cur) ∧
    dget "to_phase" row = Some (PStr t) ∧
    dget "reason" row = Some (PStr (py_strip r)).
Proof.
  intros Hcur Hn H. simpl. exists ev, inputs. pose proof (replay_inputs _ _ _ _ H) as Hi.
  assert (norm_phase t = t) as Ht.
  { destruct (replay_edges _ _ _ _ _ H Hcur Hn) as [(-> & _)|[He _]]; [done|].
    pose proof (edges_forward cur Hn) as Hf. rewrite Forall_forall in Hf. destruct (Hf _ He) as [Hin _].
    simpl in Hin. unfold PHASE_NAMES in Hin. rewrite !elem_of_cons, elem_of_nil in Hin.
    by destruct Hin as [->|[->|[->|[->|[->|[->|[]]]]]]]. }
  rewrite Hn, Ht. done.
Qed.


(** A reached target sends the phases that still do work straight to SWEEP. *)
Theorem target_reached_goes_to_sweep {F} `{!FloatOps F} (inputs g : pydict F) cur :
  current_phase inputs = Ok cur →
  cur ∈ [PHASE_ENABLEMENT; PHASE_FRAMEWORK_AGENT; PHASE_KERNEL_AGENT] →
  not_forced inputs →
  get_dict "global" inputs = Ok g →
  get_str "target_reached_at" g ≠ EmptyString →
  ∃ ev, replay_next_phase inputs = Ok (Some (PHASE_SWEEP, "target_reached", ev)).
Proof.
  intros Hcur Hin Hnf Hg Ht. pose proof (not_forced_terminal _ _ Hnf Hcur) as Hn.
  unfold replay_next_phase. run_res. apply String.eqb_neq in Ht. rewrite Ht.
  rewrite !elem_of_cons, elem_of_nil in Hin. destruct Hin as [->|[->|[->|[]]]]; by eexists.
Qed.

Lemma or_zero_pos {F} `{!FloatOps F} `{!FloatOrder F} (x : option F) :
  fpos (or_zero x) = true → ∃ y, x = Some y ∧ fpos y = true.
Proof.
  unfold fpos, or_zero. destruct x as [y|]; [|by rewrite fltb_irrefl].
  destruct (feqb y fzero); [by rewrite fltb_irrefl|eauto].
Qed.

Lemma baseline_anchored_inv {F} `{!FloatOps F} `{!FloatOrder F} (baseline : pydict F) :
  _baseline_is_anchored baseline = Ok true →
  get_bool "measure_round_dropped" baseline = false ∧
  get_str "warm_replay_status" baseline ≠ _IN_FLIGHT ∧
  ∃ x, get_float "tput" baseline = Ok (Some x) ∧ fpos x = true.
Proof.
  unfold _baseline_is_anchored, get_float0. intros H. inv_res H; try discriminate.
  inv_res E. subst. apply or_zero_pos in H as (y & -> & ?). split_and!; [done| |eauto].
  by apply String.eqb_neq.
Qed.

(** Optimisation never starts without a baseline to compare against: when PRELUDE or ENABLEMENT
    hands over to a phase other than CLOSE and ENABLEMENT, and no target has been declared reached,
    the frozen baseline is a finite positive throughput, and out of PRELUDE it is one whose
    measuring round was not dropped and whose warm replay is over. *)
Theorem work_starts_anchored {F} `{!FloatOps F} `{!FloatOrder F} (inputs : pydict F) cur t r ev :
  current_phase inputs = Ok cur →
  cur ∈ [PHASE_PRELUDE; PHASE_ENABLEMENT] →
  replay_next_phase inputs = Ok (Some (t, r, ev)) →
  t ∉ [PHASE_CLOSE; PHASE_ENABLEMENT] →
  r ≠ "target_reached" →
  ∃ baseline tput, get_dict "baseline" inputs = Ok baseline ∧
    get_float "tput" baseline = Ok (Some tput) ∧ fpos tput = true ∧
    (cur = PHASE_PRELUDE →
      get_bool "measure_round_dropped" baseline = false ∧ get_str "warm_replay_status" baseline ≠ _IN_FLIGHT).
Proof.
  intros Hcur Hin H Ht Hr. unfold replay_next_phase in H. rewrite Hcur in H. inv_res H; subst.
  - match goal with E : _terminal_close_transition _ = _ |- _ => apply terminal_close_inv in E as (-> & _) end.
    exfalso. apply Ht. left.
  - unfold _transition_result in *. simplify_eq.
  - unfold _prelude_transition, prelude_line, _transition_result in H. inv_res H; simplify_eq;
      try (exfalso; apply Ht; find_in; done).
    match goal with E : _baseline_is_anchored _ = _ |- _ => apply baseline_anchored_inv in E end. naive_solver.
  - unfold _enablement_transition, get_float0 in H. inv_res H; simplify_eq.
    match goal with E : (_ ≫= _) = Ok _ |- _ => inv_res E end. subst.
    rewrite !andb_true_iff in *. destruct_and?.
    match goal with E : fpos (or_zero _) = true |- _ => apply or_zero_pos in E as (y & -> & ?) end.
    eexists _, y. split_and!; [done..|]. intros ->. done.
  - rewrite !elem_of_cons, elem_of_nil in Hin. destruct Hin as [->|[->|[]]]; simplify_eq.
  - rewrite !elem_of_cons, elem_of_nil in Hin. destruct Hin as [->|[->|[]]]; simplify_eq.
  - rewrite !elem_of_cons, elem_of_nil in Hin. destruct Hin as [->|[->|[]]]; simplify_eq.
Qed.

Lemma work_not_pending {F} `{!FloatOps F} (baseline pending : pydict F) :
  _prelude_work_pending baseline pending = false →
  get_bool "prelude_work_in_flight" pending = false ∧ get_str "warm_replay_status" baseline ≠ _IN_FLIGHT.
Proof. unfold _prelude_work_pending. rewrite orb_false_iff, String.eqb_neq. done. Qed.

Lemma cold_anchor_idle {F} `{!FloatOps F} (baseline pending ev : pydict F) :
  _cold_anchor_shortfall baseline pending = Ok (Some ev) → _prelude_work_pending baseline pending = false.
Proof.
  unfold _cold_anchor_shortfall. intros H. destruct (negb _ || _) eqn:E; [done|].
  by apply orb_false_iff in E as [_ E].
Qed.

Lemma budget_line_idle {F} `{!FloatOps F} (baseline pending ev : pydict F) :
  _prelude_budget_line baseline pending = Ok (Some ev) → _prelude_work_pending baseline pending = false.
Proof.
  unfold _prelude_budget_line. intros H. apply res_bind_ok in H as (n & _ & H).
  destruct ((n <? 1)%Z || _) eqn:E; [done|]. by apply orb_false_iff in E as [_ E].
Qed.

(** The two budget closes of PRELUDE are read off an idle phase: when it closes because a retry
    no longer fits, or because its own budget is gone, no task of its own is queued or running and
    no warm replay is unbooked, so the terminal transition cancels no measurement. *)
Theorem prelude_budget_close_is_idle {F} `{!FloatOps F} (inputs : pydict F) r ev :
  current_phase inputs = Ok PHASE_PRELUDE →
  not_forced inputs →
  replay_next_phase inputs = Ok (Some (PHASE_CLOSE, r, ev)) →
  r ∈ ["prelude_cold_anchor_low_budget"; "prelude_budget_exhausted"] →
  ∃ baseline pending, get_dict "baseline" inputs = Ok baseline ∧ get_dict "pending_work" inputs = Ok pending ∧
    get_bool "prelude_work_in_flight" pending = false ∧
    get_str "warm_replay_status" baseline ≠ _IN_FLIGHT.
Proof.
  intros Hcur Hnf H Hr. pose proof (not_forced_terminal _ _ Hnf Hcur) as Hn.
  unfold replay_next_phase in H. rewrite Hn, Hcur in H. inv_res H; try (by unfold _transition_result in *; simplify_eq).
  unfold _prelude_transition, prelude_line, _transition_result in H. rewrite !elem_of_cons, elem_of_nil in Hr.
  inv_res H; simplify_eq;
    try match goal with E : _anchored_baseline_transition _ _ _ _ _ = _ |- _ => apply anchored_edges in E as [-> _] end;
    try (destruct Hr as [?|[?|[]]]; discriminate);
    (match goal with E : get_dict "baseline" _ = Ok ?b, E' : get_dict "pending_work" _ = Ok ?p |- _ =>
       exists b, p; split; [done|]; split; [done|]; apply work_not_pending end);
    first [by eapply cold_anchor_idle|by eapply budget_line_idle].
Qed.

(** ** Only the reloop is marked as one *)

Section loopback.
Context {F : Type} `{!FloatOps F}.
Implicit Types (inputs flags ev : pydict F).

(** An evidence dict without the loopback mark. *)
Definition unmarked ev : Prop := dget "loopback" ev = None.

Lemma unmarked_dset k v ev : k ≠ "loopback" → unmarked ev → unmarked (dset k v ev).
Proof. unfold unmarked. intros Hk H. by rewrite dget_dset_ne. Qed.
Lemma unmarked_dmerge ev ev' : unmarked ev → unmarked ev' → unmarked (dmerge ev ev').
Proof. unfold unmarked. intros H H'. by rewrite dget_dmerge_notin by (by apply dget_None). Qed.

Ltac um := repeat first [done | apply unmarked_dset; [done|] | apply unmarked_dmerge
                        | match goal with |- unmarked (if ?b then _ else _) => destruct b end].

Lemma reloop_block_unmarked facts g streak b : _reloop_block_evidence facts g streak = Ok b → unmarked b.
Proof. unfold _reloop_block_evidence. intros H. inv_res H; subst; try done. by case_match. Qed.

Lemma reloop_decision_unmarked inputs b ev : _reloop_decision inputs = Ok (b, ev) → unmarked ev.
Proof.
  unfold _reloop_decision. intros H. inv_res H; simplify_eq; try done.
  um. by eapply reloop_block_unmarked.
Qed.

Lemma budget_timing_unmarked budget ev ev' : _with_budget_timing budget ev = Ok ev' → unmarked ev → unmarked ev'.
Proof. unfold _with_budget_timing. intros H Hu. inv_res H; subst. um. Qed.

Lemma budget_exit_unmarked budget r ev x ev' :
  budget_exit budget r ev = Ok (Some (x, ev')) → unmarked ev → unmarked ev'.
Proof.
  unfold budget_exit. intros H Hu. inv_res H. simplify_eq. by eapply budget_timing_unmarked.
Qed.

Lemma framework_arms_unmarked pl p : framework_plateau pl = Ok p → unmarked pl → unmarked (arms p).
Proof.
  unfold framework_plateau. intros H Hu. inv_res H; subst; simpl; um;
    apply dget_None; apply dget_None in Hu; intros (kv & Hk & [_ Hin]%list_elem_of_filter)%list_elem_of_fmap;
    apply Hu; rewrite Hk; by apply list_elem_of_fmap_2.
Qed.

Lemma framework_exit_unmarked inputs r ev :
  (∀ pl, get_dict "plateau" inputs = Ok pl → unmarked pl) →
  framework_exit inputs = Ok (Some (r, ev)) → unmarked ev.
Proof.
  intros Hpl H. unfold framework_exit in H. apply res_bind_ok in H as (pl & Epl & H).
  apply res_bind_ok in H as (p & Ep & H). pose proof (framework_arms_unmarked _ _ Ep (Hpl _ Epl)) as Hu.
  inv_res H; simplify_eq; try (um; done).
  - by eapply budget_exit_unmarked.
  - um. by eapply budget_timing_unmarked.
Qed.

Lemma kernel_exit_unmarked inputs r ev : _kernel_exit inputs = Ok (Some (r, ev)) → unmarked ev.
Proof.
  unfold _kernel_exit. intros H. inv_res H; simplify_eq.
  - destruct (get_bool "kernel_agent_in_flight" a); [done|].
    match goal with E : kernel_quiet_exit _ _ _ = _ |- _ => unfold kernel_quiet_exit, _kernel_idle_exit in E; inv_res E end;
      try case_match; simplify_eq; done.
  - by eapply budget_exit_unmarked.
Qed.

Lemma sweep_exit_unmarked inputs r ev : _sweep_exit inputs = Ok (Some (r, ev)) → unmarked ev.
Proof.
  unfold _sweep_exit. intros H. inv_res H; simplify_eq; try done.
  eapply budget_exit_unmarked; [done|]. by case_match.
Qed.

Lemma viability_unmarked baseline ev : _prelude_viability baseline = Ok ev → unmarked ev.
Proof. unfold _prelude_viability. intros H. inv_res H; subst; repeat case_match; simplify_eq; done. Qed.

Lemma anchored_unmarked inputs flags baseline viability reason t r ev :
  _anchored_baseline_transition inputs flags baseline viability reason = Ok (t, r, ev) →
  unmarked viability → unmarked ev.
Proof.
  unfold _anchored_baseline_transition, _transition_result. intros H Hv. inv_res H; subst;
    um.
Qed.

Lemma prelude_unmarked inputs flags t r ev :
  _prelude_transition inputs flags = Ok (Some (t, r, ev)) → unmarked ev.
Proof.
  unfold _prelude_transition, prelude_line, _transition_result. intros H. inv_res H; simplify_eq; try done; um.
  - match goal with E : _cold_anchor_shortfall _ _ = _ |- _ => unfold _cold_anchor_shortfall in E; inv_res E end;
      simplify_eq; um. by eapply viability_unmarked.
  - eapply anchored_unmarked; [done|]. by eapply viability_unmarked.
  - match goal with E : _prelude_budget_line _ _ = _ |- _ => unfold _prelude_budget_line in E; inv_res E end;
      simplify_eq; done.
  - match goal with E : _prelude_budget_line _ _ = _ |- _ => unfold _prelude_budget_line in E; inv_res E end;
      simplify_eq; done.
Qed.

Lemma replay_unmarked inputs cur t r ev :
  (∀ pl, get_dict "plateau" inputs = Ok pl → unmarked pl) →
  current_phase inputs = Ok cur →
  replay_next_phase inputs = Ok (Some (t, r, ev)) →
  ¬ (cur = PHASE_SWEEP ∧ t = PHASE_FRAMEWORK_AGENT) → unmarked ev.
Proof.
  intros Hpl Hcur H Hn. unfold replay_next_phase in H. rewrite Hcur in H. inv_res H; subst.
  - unfold _terminal_close_transition, _transition_result in *.
    match goal with E : _ = Ok (Some _) |- _ => inv_res E end; simplify_eq; um.
  - unfold _transition_result in *. simplify_eq. done.
  - by eapply prelude_unmarked.
  - unfold _enablement_transition in H. inv_res H; simplify_eq. eapply anchored_unmarked; [done|done].
  - unfold _framework_transition, _transition_result in H. inv_res H; simplify_eq; um; by eapply framework_exit_unmarked.
  - unfold _kernel_transition, _transition_result in H. inv_res H; simplify_eq; um. by eapply kernel_exit_unmarked.
  - unfold _sweep_transition, _transition_result in H.
    match goal with E : Ok cur = Ok _ |- _ => injection E as <- end.
    match goal with E : String.eqb cur PHASE_SWEEP = true |- _ => apply String.eqb_eq in E as -> end.
    inv_res H; simplify_eq; um; try (by eapply sweep_exit_unmarked); try (by eapply reloop_decision_unmarked).
    exfalso. by apply Hn.
Qed.

(** What a reloop's evidence says of the cycle that ended. *)
Lemma reloop_facts inputs cf r ev :
  current_phase inputs = Ok PHASE_SWEEP →
  read_cycle_facts inputs = Ok cf →
  replay_next_phase inputs = Ok (Some (PHASE_FRAMEWORK_AGENT, r, ev)) →
  cycle_verdict cf = Reloop ∧ get_bool "loopback" ev = true ∧
  dget "no_gain_cycle_streak_effective" ev = Some (PInt (cycle_streak cf)) ∧
  get_bool "cycle_gained" ev = fltb (cf_threshold cf) (fsub (cf_gain cf) (cf_start cf)).
Proof.
  intros Hcur Hcf H. destruct (reloop_decision_refines _ _ Hcf) as (rev & Hre & _ & Hst & _ & _ & Hg & Hnd).
  unfold replay_next_phase in H. rewrite Hcur in H. inv_res H; subst.
  { match goal with E : _terminal_close_transition _ = _ |- _ => apply terminal_close_inv in E as (? & _) end. done. }
  { unfold _transition_result in *. simplify_eq. }
  1-4: match goal with E : Ok _ = Ok _ |- _ => injection E as <- end; done.
  match goal with E : Ok _ = Ok _ |- _ => clear E end.
  unfold _sweep_transition, _transition_result in H. rewrite Hre in H. inv_res H; try (simplify_eq; done).
  injection E3 as <- <-. simplify_eq. rename select (_ && _ = true) into Hb. apply andb_true_iff in Hb as [Hb _].
  apply bool_decide_eq_true in Hb. split; [done|]. unfold get_bool.
  rewrite !dget_dset_ne, dget_dset_eq by done. split; [done|].
  rewrite !dget_dset_ne, !dget_dmerge, Hst, Hg by done. done.
Qed.
End loopback.

(** ** Concrete frozen facts *)

Definition frozen (phase : string) (extra : pydict binary64) : pydict binary64 :=
  dmerge [("current_phase", PStr phase); ("now_unix", PFloat (f_of_Z 1000));
          ("global", PDict [("stop_reason", PStr EmptyString); ("closing_phase", PBool false);
                            ("target_reached_at", PStr EmptyString)]);
          ("baseline", PNone); ("pending_work", PNone); ("budget", PNone); ("plateau", PNone); ("hint", PNone);
          ("sweep_result", PNone); ("macro_cycle", PInt 0);
          ("run_flags", PDict [("kernel_enabled", PBool true); ("framework_agent_enabled", PBool true);
                               ("enablement_enabled", PBool true)])] extra.

(** SWEEP at the end of cycle [n], which gained 4 percent. *)
Definition gaining_cycle (n : Z) : pydict binary64 :=
  frozen PHASE_SWEEP
    [("macro_cycle", PInt n);
     ("sweep_result", PDict [("status", PStr "succeeded");
       ("reloop", PDict [("current_gain_pct", PFloat (f_of_Z 9)); ("gain_at_cycle_start_pct", PFloat (f_of_Z 5));
                         ("min_gain_pct", PFloat (f_lit 1 1)); ("prior_no_gain_cycle_streak", PInt 0);
                         ("no_gain_cycles", PInt 3); ("session_remaining_sec", PNone);
                         ("min_remaining_sec", PFloat (f_of_Z 10800))])])].

Definition measured_prelude : pydict binary64 :=
  frozen PHASE_PRELUDE
    [("baseline", PDict [("failure_streak", PInt 0); ("tput", PFloat (f_of_Z 1200)); ("warm_replay_status", PStr "done")])].

(** PRELUDE past its reserve after one failed baseline, nothing running. *)
Definition spent_prelude : pydict binary64 :=
  frozen PHASE_PRELUDE
    [("run_flags", PNone);
     ("baseline", PDict [("failure_streak", PInt 1); ("failures_this_leg", PInt 1); ("tput", PFloat (f_of_Z 0));
                         ("session_usable_sec", PFloat (f_of_Z 900)); ("analysis_affordable_sec", PFloat (f_of_Z 0))])].

Lemma gaining_cycle_not_forced n : not_forced (gaining_cycle n).
Proof. eexists. split; [reflexivity|]. done. Qed.

(** No number of finished cycles stops the loop by itself: at every cycle number, a cycle that
    gained more than its threshold in a session without a deadline opens the next one. *)
Theorem reloop_has_no_cycle_ceiling (n : Z) :
  ∃ ev, replay_next_phase (gaining_cycle n) = Ok (Some (PHASE_FRAMEWORK_AGENT, "cycle_reloop", ev)) ∧
    dget "next_cycle" ev = Some (PInt (n + 1)).
Proof. destruct n; eexists; (split; [vm_compute; reflexivity|reflexivity]). Qed.

(** ** Witnesses *)

Lemma phase_moves_forward_witness :
  (∃ ev, replay_next_phase (gaining_cycle 4) = Ok (Some (PHASE_FRAMEWORK_AGENT, "cycle_reloop", ev))) ∧
  PHASE_FRAMEWORK_AGENT ≠ PHASE_SWEEP.
Proof.
  split; [eexists; vm_compute; reflexivity|].
  apply (@phase_moves_forward binary64 b64_float (gaining_cycle 4) PHASE_SWEEP PHASE_FRAMEWORK_AGENT "cycle_reloop" _ eq_refl eq_refl
           ltac:(vm_compute; reflexivity)).
Defined.

Definition stopped_kernel : pydict binary64 :=
  frozen PHASE_KERNEL_AGENT [("global", PDict [("stop_reason", PStr "signal")])].

Lemma stop_forces_close_witness :
  forced_close stopped_kernel "signal" ∧
  ∃ ev, replay_next_phase stopped_kernel = Ok (Some (PHASE_CLOSE, "signal", ev)) ∧ dget "terminal" ev = Some (PBool true).
Proof.
  assert (forced_close stopped_kernel "signal") as Hf.
  { eexists. split; [reflexivity|]. left. split; [reflexivity|discriminate]. }
  split; [exact Hf|].
  apply (proj1 (@stop_forces_close binary64 b64_float stopped_kernel PHASE_KERNEL_AGENT eq_refl) ltac:(discriminate)
           "signal" Hf).
Defined.

Lemma recorded_decision_replays_witness :
  ∃ ev evidence facts, replay_next_phase measured_prelude = Ok (Some (PHASE_FRAMEWORK_AGENT, "prelude_done", ev)) ∧
    dget "predicate_inputs" evidence = Some (PDict facts) ∧
    replay_next_phase facts = Ok (Some (PHASE_FRAMEWORK_AGENT, "prelude_done", evidence)).
Proof.
  eexists.
  destruct (@recorded_decision_replays binary64 b64_float measured_prelude PHASE_PRELUDE PHASE_FRAMEWORK_AGENT "prelude_done" _
              EmptyString (f_of_Z 1000) 0 eq_refl eq_refl ltac:(vm_compute; reflexivity))
    as (evidence & facts & _ & H1 & H2 & _).
  exists evidence, facts. split; [vm_compute; reflexivity|]. split; [exact H1|exact H2].
Defined.


Lemma target_reached_goes_to_sweep_witness :
  ∃ ev, replay_next_phase (frozen PHASE_KERNEL_AGENT [("global", PDict [("target_reached_at", PStr "now")])])
    = Ok (Some (PHASE_SWEEP, "target_reached", ev)).
Proof.
  apply (@target_reached_goes_to_sweep binary64 b64_float
           (frozen PHASE_KERNEL_AGENT [("global", PDict [("target_reached_at", PStr "now")])]) [("target_reached_at", PStr "now")] PHASE_KERNEL_AGENT eq_refl
           ltac:(find_in) ltac:(eexists; split; [reflexivity|done]) eq_refl ltac:(discriminate)).
Defined.

Lemma work_starts_anchored_witness :
  ∃ ev baseline tput, replay_next_phase measured_prelude = Ok (Some (PHASE_FRAMEWORK_AGENT, "prelude_done", ev)) ∧
    get_float "tput" baseline = Ok (Some tput) ∧ fpos tput = true.
Proof.
  eexists.
  destruct (@work_starts_anchored binary64 b64_float b64_float_order measured_prelude PHASE_PRELUDE PHASE_FRAMEWORK_AGENT "prelude_done" _ eq_refl
              ltac:(find_in) ltac:(vm_compute; reflexivity)
              ltac:(rewrite !not_elem_of_cons; split_and!; [discriminate|discriminate|apply not_elem_of_nil])
              ltac:(discriminate))
    as (baseline & tput & _ & H1 & H2 & _).
  exists baseline, tput. split; [vm_compute; reflexivity|]. split; [exact H1|exact H2].
Defined.

Lemma prelude_budget_close_is_idle_witness :
  ∃ ev pending, replay_next_phase spent_prelude = Ok (Some (PHASE_CLOSE, "prelude_budget_exhausted", ev)) ∧
    get_dict "pending_work" spent_prelude = Ok pending ∧ get_bool "prelude_work_in_flight" pending = false.
Proof.
  eexists.
  destruct (@prelude_budget_close_is_idle binary64 b64_float spent_prelude "prelude_budget_exhausted" _ eq_refl
              ltac:(eexists; split; [reflexivity|done]) ltac:(vm_compute; reflexivity) ltac:(find_in))
    as (baseline & pending & _ & H1 & H2 & _).
  exists pending. split; [vm_compute; reflexivity|]. split; [exact H1|exact H2].
Defined.
