(* ===== verification/PhaseClock.v ===== *)
(** * Clocks and budgets ([machine_state.py], [state/_shared_state/budget.py], [elapsed.py])

    How much wall-clock a session has used, what is left, and what of it a phase may spend: the
    run legs and their forward-summed charge, the per-phase segments, the shares and their
    redistribution, PRELUDE's allowance, the costs measured rounds put on further ones, and the
    decaying gain threshold.

    A definition is written once over [FloatOps].  Properties that only compare hold at every float
    type; properties of sums and products are stated at the exact rationals. *)

From stdpp Require Import base list strings sets.
From Stdlib Require Import ZArith QArith Lia Lqa.
From Stdlib Require String.
From S2P Require Import Prelude PyFloat PyVal PhaseChain PhaseMachine.

(** ** Shares *)

Definition OPTIMIZATION_RESERVE_PCT {F} `{!FloatOps F} : F := f_lit 50 100.
Definition KEEP_THRESHOLD_FLOOR_PCT {F} `{!FloatOps F} : F := f_lit 1 10.
Definition KEEP_THRESHOLD_SPAN_PCT {F} `{!FloatOps F} : F := f_lit 9 10.
Definition MULTI_NODE_KEEP_THRESHOLD_FACTOR {F} `{!FloatOps F} : F := f_of_Z 2.
Definition DEFAULT_LONGRUN_THRESHOLD_MINUTES : Z := 24 * 60.
Definition RETRY_PAST_THE_RESERVE : string := "retry_past_the_optimization_reserve".

(** The environment floor of a reloop and its two bounds as shares of the session. *)
Definition _CYCLE_RELOOP_BUDGET_RATIO {F} `{!FloatOps F} : F := f_lit 15 100.
Definition _CYCLE_RELOOP_MAX_BUDGET_SHARE {F} `{!FloatOps F} : F := f_lit 5 10.

Section shares.
Context {F : Type} `{!FloatOps F}.
Local Open Scope float_scope.

Definition shares : Type := list (string * F).

Definition DEFAULT_PHASE_BUDGET_PCT : shares :=
  [(PHASE_PRELUDE, f_lit 3 100); (PHASE_FRAMEWORK_AGENT, f_lit 38 100); (PHASE_KERNEL_AGENT, f_lit 47 100);
   (PHASE_SWEEP, f_lit 5 100); (PHASE_CLOSE, f_lit 2 100)].

(** [float(d.get(p, 0.0))] *)
Definition share (p : string) (d : shares) : F := default fzero (dget p d).

Definition decaying_keep_threshold_pct (macro_cycle : Z) (multi_node : bool) : F :=
  let n := Z.max 1 (macro_cycle + 1) in
  let base := KEEP_THRESHOLD_FLOOR_PCT + KEEP_THRESHOLD_SPAN_PCT / f_of_Z n in
  if multi_node then base * MULTI_NODE_KEEP_THRESHOLD_FACTOR else base.

(** One override of [normalize_budget_pct]; an int past the range of a float raises. *)
Definition normalize_one (out : shares) (kv : string * pyval F) : res shares :=
  let canon := norm_phase kv.1 in
  if bool_decide (canon ∈ PHASE_NAMES) then
    match py_float kv.2 with
    | Ok f => Ok (if (fzero <=? f) && (f <=? f_of_Z 1) then dset canon f out else out)
    | Raise (TypeError _) | Raise (ValueError _) => Ok out
    | Raise e => Raise e
    end
  else Ok out.
Definition normalize_budget_pct (budget_pct : option (pydict F)) : res shares :=
  foldl (λ acc kv, out ← acc; normalize_one out kv) (Ok DEFAULT_PHASE_BUDGET_PCT) (default [] budget_pct).

Definition work_phases : list string := [PHASE_FRAMEWORK_AGENT; PHASE_KERNEL_AGENT; PHASE_SWEEP].

Definition redistribute_budget_pct (base : shares) (optimize_enabled kernel_enabled sweep_enabled : bool) : shares :=
  let enabled p := if String.eqb p PHASE_FRAMEWORK_AGENT then optimize_enabled
                   else if String.eqb p PHASE_KERNEL_AGENT then kernel_enabled else sweep_enabled in
  let disabled := filter (λ p, enabled p = false) work_phases in
  let freed := fsum ((λ p, share p base) <$> disabled) in
  let out := foldl (λ o p, dset p fzero o) base disabled in
  if freed <=? fzero then out
  else
    let absorbers := filter (λ p, p ∉ disabled) work_phases in
    let weight := fsum ((λ p, share p out) <$> absorbers) in
    let out := if fzero <? weight then
                 foldl (λ o p, dset p (share p o + freed * share p o / weight) o) out absorbers
               else if sweep_enabled then dset PHASE_SWEEP (share PHASE_SWEEP out + freed) out
               else out in
    foldl (λ o p, if f_of_Z 1 <? share p o then dset p (f_of_Z 1) o else o) out absorbers.
End shares.

(** ** The session clock *)

Record clock (F : Type) := MkClock {
  c_phase : string;              (* phase *)
  c_started : F;                 (* phase_started_unix *)
  c_resumed : string;            (* resumed_ts *)
  c_totals : list (string * F);  (* phase_elapsed_totals *)
  c_budget : list (string * F);  (* phase_budget_pct *)
  c_max : Z;                     (* max_minutes *)
  c_cycle_minutes : F;           (* cycle_minutes *)
  c_charged : F;                 (* elapsed_charged_sec *)
  c_anchor : F;                  (* leg_anchor_unix *)
  c_start_ts : string;           (* start_ts *)
  c_grace : option F;            (* closing_grace_sec *)
  c_leg_failures : Z             (* baseline_failures_this_leg *)
}.
Arguments MkClock {F} _ _ _ _ _ _ _ _ _ _ _ _.
Arguments c_phase {F} _.
Arguments c_started {F} _.
Arguments c_resumed {F} _.
Arguments c_totals {F} _.
Arguments c_budget {F} _.
Arguments c_max {F} _.
Arguments c_cycle_minutes {F} _.
Arguments c_charged {F} _.
Arguments c_anchor {F} _.
Arguments c_start_ts {F} _.
Arguments c_grace {F} _.
Arguments c_leg_failures {F} _.

Definition with_charge {F} (charged anchor : F) (failures : Z) (c : clock F) : clock F :=
  MkClock (c_phase c) (c_started c) (c_resumed c) (c_totals c) (c_budget c) (c_max c) (c_cycle_minutes c)
    charged anchor (c_start_ts c) (c_grace c) failures.
Definition with_totals {F} (totals : list (string * F)) (c : clock F) : clock F :=
  MkClock (c_phase c) (c_started c) (c_resumed c) totals (c_budget c) (c_max c) (c_cycle_minutes c)
    (c_charged c) (c_anchor c) (c_start_ts c) (c_grace c) (c_leg_failures c).
Definition with_phase {F} (phase : string) (started : F) (c : clock F) : clock F :=
  MkClock phase started (c_resumed c) (c_totals c) (c_budget c) (c_max c) (c_cycle_minutes c)
    (c_charged c) (c_anchor c) (c_start_ts c) (c_grace c) (c_leg_failures c).
Definition with_max {F} (max_minutes : Z) (c : clock F) : clock F :=
  MkClock (c_phase c) (c_started c) (c_resumed c) (c_totals c) (c_budget c) max_minutes (c_cycle_minutes c)
    (c_charged c) (c_anchor c) (c_start_ts c) (c_grace c) (c_leg_failures c).

Section clock.
Context {F : Type} `{!FloatOps F}.
(** [datetime.fromisoformat(text.replace("Z", "+00:00"))] taken as UTC when naive, as unix seconds;
    [None] is its [ValueError]. *)
Context (parse_iso : string → option F).
Implicit Types (c : clock F) (now : F).
Local Open Scope float_scope.

(** [to_unix] of a string. *)
Definition to_unix (value : string) : option F :=
  let text := py_strip value in
  match parse_iso text with
  | Some x => Some x
  | None => py_float_of_str text
  end.

(** [max(0.0, float(x or 0.0))] *)
Definition nonneg (x : F) : F := fmax fzero (or_zero (Some x)).

(** *** Elapsed time and run legs *)

Definition elapsed_sec_of c now : F :=
  let charged := nonneg (c_charged c) in
  let anchor := or_zero (Some (c_anchor c)) in
  if fzero <? anchor then charged + fmax fzero (now - anchor)
  else if fzero <? charged then charged
  else match to_unix (py_strip (c_start_ts c)) with
       | None => fzero
       | Some started => fmax fzero (now - started)
       end.

Definition begin_leg c now : clock F := with_charge (c_charged c) now 0 c.

Definition charge_elapsed c now : F * clock F :=
  if c_anchor c <=? fzero then (c_charged c, c)
  else
    let charged := c_charged c + fmax fzero (now - c_anchor c) in
    (charged, with_charge charged now (c_leg_failures c) c).

Definition elapsed_minutes c now : F := elapsed_sec_of c now / f_of_Z 60.

Definition extend_budget_minutes c (minutes : F) : F * clock F :=
  if minutes <=? fzero then (f_of_Z (c_max c), c)
  else if (c_max c =? 0)%Z then (fzero, c)
  else let mm := f_trunc (f_of_Z (c_max c) + minutes) in (f_of_Z mm, with_max mm c).

Definition remaining_minutes c now : option F :=
  if (c_max c =? 0)%Z then None
  else Some (fmax fzero (f_of_Z (c_max c) - elapsed_minutes c now)).

Definition effective_closing_grace_sec (max_minutes : F) (closing_grace_sec : option F) : F :=
  match closing_grace_sec with
  | Some g => g
  | None => fmin (f_of_Z 120) (or_zero (Some max_minutes) * f_of_Z 60 * f_lit 2 100)
  end.
Definition closing_reserve_sec c : F :=
  fmax fzero (effective_closing_grace_sec (f_of_Z (c_max c)) (c_grace c)).

Definition session_budget_usable_sec c (reserve_sec : option F) now : option F :=
  match remaining_minutes c now with
  | None => None
  | Some remaining => Some (fmax fzero (remaining * f_of_Z 60 - default (closing_reserve_sec c) reserve_sec))
  end.

(** *** Phase time *)

Definition _max_minutes c : F := f_of_Z (c_max c).
Definition is_long_run c : bool :=
  (_max_minutes c <=? fzero) || (f_of_Z DEFAULT_LONGRUN_THRESHOLD_MINUTES <=? _max_minutes c).
Definition _budget_minutes c : F :=
  let cm := or_zero (Some (c_cycle_minutes c)) in
  if (fzero <? cm) && is_long_run c then cm else _max_minutes c.

Definition _phase_started_unix c : F := or_zero (Some (c_started c)).
Definition _resume_boundary_unix c : F := fmax fzero (or_zero (to_unix (c_resumed c))).

Definition phase_elapsed_seconds c now : F :=
  let started := _phase_started_unix c in
  if started <=? fzero then fzero
  else fmax fzero (now - fmax started (_resume_boundary_unix c)).

(** The banked seconds of a phase. *)
Definition banked (target : string) c : F := nonneg (share target (c_totals c)).

Definition phase_cumulative_seconds c (phase : option string) now : F :=
  let current := norm_phase (c_phase c) in
  let target := match phase with
                | Some (String _ _ as p) => norm_phase p
                | _ => norm_phase current
                end in
  if String.eqb target EmptyString then fzero
  else if String.eqb target current then banked target c + phase_elapsed_seconds c now
  else banked target c.

Definition session_remaining_seconds c now : option F :=
  let mm := _max_minutes c in
  if mm <=? fzero then None
  else
    let charged := nonneg (c_charged c) in
    let anchor := or_zero (Some (c_anchor c)) in
    if fzero <? anchor then
      Some (fmax fzero (mm * f_of_Z 60 - (charged + fmax fzero (now - anchor))))
    else if fzero <? charged then Some (fmax fzero (mm * f_of_Z 60 - charged))
    else match to_unix (py_strip (c_start_ts c)) with
         | None => None
         | Some started => Some (fmax fzero (mm * f_of_Z 60 - fmax fzero (now - started)))
         end.

(** [PHASE_NAMES[i:]], with Python's negative index. *)
Definition names_from (i : Z) : list string :=
  if (i <? 0)%Z then last_n (Z.to_nat (- i)) PHASE_NAMES else drop (Z.to_nat i) PHASE_NAMES.

Definition _phase_budget_total_seconds c now : option F :=
  let budget := c_budget c in
  let phase := norm_phase (c_phase c) in
  match dget phase budget with
  | None => None
  | Some pct =>
      if pct <=? fzero then Some fzero
      else
        match session_remaining_seconds c now with
        | Some session_remaining =>
            let remaining_at_entry := fmax fzero (session_remaining + phase_elapsed_seconds c now) in
            let cycle_window := _budget_minutes c * f_of_Z 60 in
            let remaining_at_entry :=
              if is_long_run c && (fzero <? cycle_window) then fmin cycle_window remaining_at_entry
              else remaining_at_entry in
            let denom := fsum (filter (λ x, (fzero <? x) = true)
                                 ((λ p, share p budget) <$> names_from (phase_index phase))) in
            if denom <=? fzero then None else Some (remaining_at_entry * pct / denom)
        | None =>
            let mm := _budget_minutes c in
            if mm <=? fzero then None else Some (mm * f_of_Z 60 * pct)
        end
  end.

Definition phase_budget_remaining_seconds c now : option F :=
  match _phase_budget_total_seconds c now with
  | None => None
  | Some total => Some (fmax fzero (total - phase_elapsed_seconds c now))
  end.

Definition bank_phase_segment c (until_unix : F) : F * clock F :=
  let phase := norm_phase (c_phase c) in
  if String.eqb phase EmptyString then (fzero, c)
  else
    let segment := phase_elapsed_seconds c until_unix in
    (segment, with_totals (dset phase (banked phase c + segment) (c_totals c)) c).

(** *** PRELUDE's allowance *)

Definition prelude_affordable_seconds c now : option F * pydict F :=
  let max_sec := _max_minutes c * f_of_Z 60 in
  match session_budget_usable_sec c None now with
  | Some usable =>
      if max_sec <=? fzero then (None, [("reason", PStr "unbounded_budget")])
      else
        let reserve_sec := max_sec * OPTIMIZATION_RESERVE_PCT in
        let affordable := fmax fzero (usable - reserve_sec) in
        (Some affordable,
         [("optimization_reserve_sec", rounded 1 reserve_sec); ("session_usable_sec", rounded 1 usable);
          ("affordable_sec", rounded 1 affordable); ("bound", PStr "optimization_reserve")])
  | None => (None, [("reason", PStr "unbounded_budget")])
  end.

Definition prelude_can_afford c (expected_cost_sec : F) now : bool * pydict F :=
  let cost := nonneg expected_cost_sec in
  let '(affordable, evidence) := prelude_affordable_seconds c now in
  let priced := dmerge [("expected_cost_sec", rounded 1 cost)] evidence in
  match affordable with
  | None => (true, priced)
  | Some a => (cost <=? a, priced)
  end.

Definition a_use_must_follow_the_round c : bool := String.eqb (norm_phase (c_phase c)) PHASE_PRELUDE.

Definition a_retry_past_the_reserve_line c now : bool * pydict F :=
  if negb (a_use_must_follow_the_round c) then (false, [])
  else if (c_leg_failures c <? 1)%Z then (false, [])
  else
    let '(affordable, evidence) := prelude_affordable_seconds c now in
    match affordable with
    | None => (false, [])
    | Some a =>
        if fzero <? a then (false, [])
        else (true, dmerge [("reason", PStr RETRY_PAST_THE_RESERVE);
                            ("baseline_failures_this_leg", PInt (c_leg_failures c))] evidence)
    end.

(** The floor on what must remain to open another cycle: the environment's floor, the session's
    share of it, raised to one granted round. *)
Definition _cycle_reloop_min_remaining_sec (default_min grant : F) c : F :=
  let mm := _max_minutes c in
  if fzero <? mm then
    let budget_sec := mm * f_of_Z 60 in
    fmax (fmin default_min (budget_sec * _CYCLE_RELOOP_BUDGET_RATIO))
         (fmin grant (budget_sec * _CYCLE_RELOOP_MAX_BUDGET_SHARE))
  else default_min.
End clock.

(** ** Exact arithmetic *)

Local Open Scope Q_scope.

Lemma fmax_Q (a b : Q) : a <= fmax a b ∧ b <= fmax a b ∧ (fmax a b = a ∨ fmax a b = b).
Proof.
  unfold fmax. simpl. destruct (Q_ltb a b) eqn:E.
  - apply Q_ltb_lt in E. split_and!; [lra|lra|by right].
  - apply Q_ltb_ge in E. split_and!; [lra|lra|by left].
Qed.
Lemma fmax_Q_proper (a a' b b' : Q) : a == a' → b == b' → fmax a b == fmax a' b'.
Proof.
  intros Ha Hb. destruct (fmax_Q a b) as (? & ? & E1), (fmax_Q a' b') as (? & ? & E2).
  destruct E1 as [E1|E1], E2 as [E2|E2]; rewrite E1, E2 in *; lra.
Qed.
Lemma fmin_Q (a b : Q) : fmin a b <= a ∧ fmin a b <= b ∧ (fmin a b = a ∨ fmin a b = b).
Proof.
  unfold fmin. simpl. destruct (Q_ltb b a) eqn:E.
  - apply Q_ltb_lt in E. split_and!; [lra|lra|by right].
  - apply Q_ltb_ge in E. split_and!; [lra|lra|by left].
Qed.
Lemma or_zero_Q (x : Q) : or_zero (Some x) == x.
Proof.
  unfold or_zero. simpl. destruct (Qeq_bool x (inject_Z 0)) eqn:E; [|reflexivity].
  apply Qeq_bool_iff in E. by rewrite E.
Qed.
Lemma fmax_zero_Q (a : Q) : 0 <= a → fmax fzero a == a.
Proof. intros H. destruct (fmax_Q fzero a) as (_ & ? & [E|E]); rewrite E in *; [|reflexivity]. change fzero with 0 in *. lra. Qed.
Lemma fmax_nonpos_Q (a : Q) : a <= 0 → fmax fzero a == 0.
Proof.
  intros H. destruct (fmax_Q fzero a) as (H1 & _ & E). change (0 <= fmax fzero a) in H1.
  destruct E as [E|E]; rewrite E in *; [reflexivity|lra].
Qed.
Lemma nonneg_Q (x : Q) : 0 <= x → nonneg x == x.
Proof.
  intros H. unfold nonneg. pose proof (or_zero_Q x). rewrite fmax_zero_Q; lra.
Qed.

(** Replace the operations of the rational floats by those of [Q]. *)
Ltac q_ops := simpl fadd in *; simpl fsub in *; simpl fmul in *; simpl fdiv in *; rewrite ?Qred_correct in *.

Lemma fsum_Q_app (l : list Q) a : foldl fadd a l == a + foldl Qplus 0 l.
Proof.
  assert (∀ l (a b : Q), a == b → foldl fadd a l == b + foldl Qplus 0 l) as H; [|by apply H].
  clear. induction l as [|x l IH]; intros a b Hab; simpl; [lra|].
  rewrite (IH _ (b + x)) by (rewrite Qred_correct; lra).
  assert (∀ l (u v : Q), u == v → foldl Qplus u l == v + foldl Qplus 0 l) as Hp.
  { clear. induction l as [|y l IH]; intros u v Huv; simpl; [lra|]. rewrite (IH _ (v + y)) by lra.
    rewrite (IH (0 + y) y) by lra. lra. }
  rewrite (Hp l (0 + x) x) by lra. lra.
Qed.

Lemma fsum_Q_cons x (l : list Q) : fsum (x :: l) == x + fsum l.
Proof.
  unfold fsum. pose proof (fsum_Q_app l (fadd fzero x)) as H1. pose proof (fsum_Q_app l fzero) as H2.
  assert (fadd fzero x == x) as H3 by (transitivity (0 + x); [apply Qred_correct|lra]).
  change (foldl fadd fzero (x :: l)) with (foldl fadd (fadd fzero x) l). rewrite H1, H2, H3.
  change (@fzero Q Q_float) with 0. lra.
Qed.

Lemma fsum_Q_nonneg (l : list Q) : Forall (λ x, 0 <= x) l → 0 <= fsum l.
Proof.
  induction 1 as [|x l Hx Hl IH]; [apply Qle_refl|].
  rewrite fsum_Q_cons. lra.
Qed.

Lemma fsum_Q_elem (l : list Q) x : Forall (λ x, 0 <= x) l → x ∈ l → x <= fsum l.
Proof.
  induction 1 as [|y l Hy Hl IH]; [intros []%not_elem_of_nil|]. rewrite fsum_Q_cons.
  intros [->|Hx]%elem_of_cons; [pose proof (fsum_Q_nonneg _ Hl); lra|specialize (IH Hx); lra].
Qed.

(** *** The threshold of a cycle *)

Lemma threshold_Q n : decaying_keep_threshold_pct (F := Q) n false == (1 # 10) + (9 # 10) / inject_Z (Z.max 1 (n + 1)).
Proof. unfold decaying_keep_threshold_pct. q_ops. reflexivity. Qed.

Lemma threshold_multi n :
  decaying_keep_threshold_pct (F := Q) n true == 2 * decaying_keep_threshold_pct n false.
Proof.
  unfold decaying_keep_threshold_pct. cbv zeta. generalize (fadd (F := Q) KEEP_THRESHOLD_FLOOR_PCT
    (fdiv KEEP_THRESHOLD_SPAN_PCT (f_of_Z (Z.max 1 (n + 1))))).
  intros x. transitivity (x * 2); [apply Qred_correct|lra].
Qed.

(** The gain a cycle must exceed decays with the cycle number and never reaches its floor: it is
    1 percent for the first cycle, never grows, stays above 0.1 percent, and a multi-node session
    asks for twice as much. *)
Theorem threshold_decays (a b : Z) :
  (0 <= a <= b)%Z →
  (1 # 10) < decaying_keep_threshold_pct (F := Q) b false ∧
  decaying_keep_threshold_pct (F := Q) b false <= decaying_keep_threshold_pct a false ∧
  decaying_keep_threshold_pct (F := Q) a false <= 1 ∧
  decaying_keep_threshold_pct (F := Q) 0 false == 1 ∧
  decaying_keep_threshold_pct (F := Q) a true == 2 * decaying_keep_threshold_pct a false.
Proof.
  intros Hab. rewrite threshold_multi, !threshold_Q. rewrite !Z.max_r by lia.
  assert (∀ z, (0 <= z)%Z → 1 <= inject_Z (z + 1)) as H1 by (intros z Hz; change 1 with (inject_Z 1); rewrite <- Zle_Qle; lia).
  pose proof (H1 a ltac:(lia)) as Ha. pose proof (H1 b ltac:(lia)) as Hb.
  assert (inject_Z (a + 1) <= inject_Z (b + 1)) as Hle by (rewrite <- Zle_Qle; lia).
  split_and!.
  - assert (0 < (9 # 10) / inject_Z (b + 1)); [|lra]. apply Qlt_shift_div_l; lra.
  - apply Qplus_le_r. apply Qle_shift_div_r; [lra|].
    assert ((9 # 10) / inject_Z (a + 1) * inject_Z (a + 1) == 9 # 10) as Hk by (field; lra).
    assert (0 < (9 # 10) / inject_Z (a + 1)) as Hp by (apply Qlt_shift_div_l; lra). nra.
  - assert ((9 # 10) / inject_Z (a + 1) <= (9 # 10)); [|lra]. apply Qle_shift_div_r; lra.
  - reflexivity.
  - reflexivity.
Qed.

(** *** Run legs *)

Section legs.
Context (parse_iso : string → option Q).
Implicit Types c : clock Q.

(** A leg opens at an instant and charges at every save. *)
Definition run_leg c (leg : Q * list Q) : clock Q :=
  foldl (λ c now, (charge_elapsed c now).2) (begin_leg c leg.1) leg.2.

(** Instants are positive and do not run backwards inside a leg. *)
Fixpoint instants_ok (from : Q) (saves : list Q) : Prop :=
  match saves with
  | [] => True
  | s :: saves => from <= s ∧ instants_ok s saves
  end.
Definition leg_ok (leg : Q * list Q) : Prop := 0 < leg.1 ∧ instants_ok leg.1 leg.2.

(** The seconds a leg lasted up to its last save. *)
Definition leg_seconds (leg : Q * list Q) : Q := default leg.1 (last leg.2) - leg.1.
Definition legs_seconds (legs : list (Q * list Q)) : Q := foldr (λ l acc, leg_seconds l + acc) 0 legs.

Lemma charge_step c now :
  0 < c_anchor c → c_anchor c <= now →
  c_charged (charge_elapsed c now).2 == c_charged c + (now - c_anchor c) ∧
  c_anchor (charge_elapsed c now).2 = now ∧ c_max (charge_elapsed c now).2 = c_max c.
Proof.
  intros Ha Hn. unfold charge_elapsed.
  destruct (fleb (c_anchor c) fzero) eqn:E; [apply Qle_bool_iff in E; change (@fzero Q Q_float) with 0 in E; lra|].
  cbn [snd c_charged c_anchor c_max with_charge]. split; [|by split].
  simpl fadd. simpl fsub. rewrite Qred_correct, fmax_zero_Q; rewrite Qred_correct; [reflexivity|lra].
Qed.

Lemma charge_saves saves c :
  0 < c_anchor c → instants_ok (c_anchor c) saves →
  let c' := foldl (λ c now, (charge_elapsed c now).2) c saves in
  c_charged c' == c_charged c + (default (c_anchor c) (last saves) - c_anchor c) ∧
  c_anchor c' = default (c_anchor c) (last saves) ∧ 0 < c_anchor c' ∧ c_max c' = c_max c.
Proof.
  revert c. induction saves as [|s saves IH]; intros c Ha Hok; simpl; [split_and!; [lra|done..]|].
  destruct Hok as [Hs Hok]. destruct (charge_step c s Ha Hs) as (H1 & H2 & H3).
  destruct (IH (charge_elapsed c s).2) as (I1 & I2 & I3 & I4); [rewrite H2; lra|by rewrite H2|].
  rewrite H2 in *. rewrite H3 in I4.
  assert (default s (last saves) = default (c_anchor c) (last (s :: saves))) as Hd.
  { destruct saves as [|x saves]; [done|]. change (last (s :: x :: saves)) with (last (x :: saves)).
    destruct (last (x :: saves)) eqn:E; [done|]. by apply last_None in E. }
  rewrite <- Hd. split_and!; [|done..]. rewrite I1, H1. lra.
Qed.

Lemma run_leg_spec c leg :
  leg_ok leg →
  c_charged (run_leg c leg) == c_charged c + leg_seconds leg ∧ c_max (run_leg c leg) = c_max c.
Proof.
  intros [Hp Hok]. unfold run_leg, leg_seconds.
  destruct (charge_saves leg.2 (begin_leg c leg.1)) as (H1 & _ & _ & H2); [done..|]. simpl in *. split; [|done].
  by rewrite H1.
Qed.

Lemma leg_seconds_nonneg leg : leg_ok leg → 0 <= leg_seconds leg.
Proof.
  intros [_ Hok]. unfold leg_seconds. revert Hok. generalize (leg.1). induction (leg.2) as [|s l IH]; intros q Hok; simpl; [lra|].
  destruct Hok as [Hs Hok]. specialize (IH s Hok). destruct l as [|x l]; [simpl; lra|].
  change (last (s :: x :: l)) with (last (x :: l)).
  destruct (last (x :: l)) eqn:E; [simpl in *; lra|by apply last_None in E].
Qed.

Lemma run_legs_spec legs c :
  Forall leg_ok legs → 0 <= c_charged c →
  c_charged (foldl run_leg c legs) == c_charged c + legs_seconds legs ∧
  0 <= c_charged (foldl run_leg c legs) ∧ c_max (foldl run_leg c legs) = c_max c.
Proof.
  intros H. revert c. induction H as [|l legs Hl Hls IH]; intros c Hc; simpl; [split_and!; [lra|done..]|].
  destruct (run_leg_spec c l Hl) as [H1 H2]. pose proof (leg_seconds_nonneg l Hl).
  destruct (IH (run_leg c l)) as (I1 & I2 & I3); [rewrite H1; lra|]. rewrite H2 in I3.
  split_and!; [|done..]. rewrite I1, H1. lra.
Qed.
End legs.

(** The budget a session has used is the time its legs ran, and nothing else: after any number
    of finished legs, each charging at any number of saves, and [now - start] seconds into a live
    one, the elapsed total is what was charged before plus the length of every leg; the time
    between legs is not billed, saving more often changes nothing, and the seconds left are the
    budget minus that total, floored at zero. *)
Theorem elapsed_is_sum_of_legs (parse_iso : string → option Q) (c : clock Q) (legs : list (Q * list Q))
    (start : Q) (saves : list Q) (now : Q) :
  0 <= c_charged c →
  Forall leg_ok legs →
  leg_ok (start, saves) →
  default start (last saves) <= now →
  (0 < c_max c)%Z →
  let c' := run_leg (foldl run_leg c legs) (start, saves) in
  elapsed_sec_of parse_iso c' now == c_charged c + legs_seconds legs + (now - start) ∧
  ∃ r, session_remaining_seconds parse_iso c' now = Some r ∧
    r == fmax 0 (inject_Z (c_max c) * 60 - (c_charged c + legs_seconds legs + (now - start))).
Proof.
  intros Hc Hlegs [Hs Hok] Hnow Hmax c'.
  destruct (run_legs_spec legs c Hlegs Hc) as (H1 & H2 & H3).
  destruct (charge_saves saves (begin_leg (foldl run_leg c legs) start)) as (J1 & J2 & J3 & J4); [done..|].
  assert (c' = foldl (λ c now, (charge_elapsed c now).2) (begin_leg (foldl run_leg c legs) start) saves) as E
    by reflexivity.
  rewrite <- E in J1, J2, J3, J4. clearbody c'. clear E. cbn [begin_leg with_charge c_charged c_anchor c_max] in J1, J2, J4.
  rewrite H1 in J1. rewrite H3 in J4.
  assert (0 <= c_charged c') as Hc'.
  { rewrite J1. pose proof (leg_seconds_nonneg (start, saves) (conj Hs Hok)) as Hn. unfold leg_seconds in Hn.
    simpl in Hn. rewrite H1 in H2. lra. }
  assert (fltb fzero (or_zero (Some (c_anchor c'))) = true) as Ha.
  { apply Q_ltb_lt. rewrite or_zero_Q. exact J3. }
  assert (nonneg (c_charged c') + fmax fzero (fsub now (or_zero (Some (c_anchor c'))))
          == c_charged c + legs_seconds legs + (now - start)) as Hel.
  { assert (fsub now (or_zero (Some (c_anchor c'))) == now - default start (last saves)) as Hsub.
    { transitivity (now - or_zero (Some (c_anchor c'))); [apply Qred_correct|]. rewrite or_zero_Q, J2. reflexivity. }
    rewrite nonneg_Q by done. rewrite fmax_zero_Q by (rewrite Hsub; lra). rewrite J1, Hsub. lra. }
  unfold elapsed_sec_of, session_remaining_seconds. rewrite Ha. split.
  { rewrite <- Hel. apply Qred_correct. }
  assert (fleb (_max_minutes c') fzero = false) as Hm.
  { unfold _max_minutes. rewrite J4. apply not_true_iff_false. simpl. rewrite Qle_bool_iff.
    change (@fzero Q Q_float) with (inject_Z 0). rewrite <- Zle_Qle. lia. }
  rewrite Hm. eexists. split; [reflexivity|]. unfold _max_minutes. rewrite J4. apply fmax_Q_proper; [reflexivity|].
  rewrite <- Hel. etransitivity; [apply Qred_correct|]. apply Qplus_comp; [apply Qred_correct|].
  apply Qopp_comp, Qred_correct.
Qed.

(** *** A phase's budget is the session's *)

Lemma phase_in_names_from p : p ∈ PHASE_NAMES → p ∈ names_from (phase_index p).
Proof.
  unfold PHASE_NAMES at 1. rewrite !elem_of_cons, elem_of_nil.
  intros [->|[->|[->|[->|[->|[->|[]]]]]]]; vm_compute; find_in.
Qed.

Lemma session_remaining_nonneg parse_iso (c : clock Q) now r :
  session_remaining_seconds parse_iso c now = Some r → 0 <= r.
Proof.
  unfold session_remaining_seconds. intros H. repeat case_match; simplify_eq; apply fmax_Q.
Qed.

Lemma phase_elapsed_nonneg parse_iso (c : clock Q) now : 0 <= phase_elapsed_seconds parse_iso c now.
Proof. unfold phase_elapsed_seconds. case_match; [apply Qle_refl|apply fmax_Q]. Qed.

(** A positive share is at most the sum of the shares from its phase on. *)
Lemma share_le_denom (budget : shares) phase pct :
  phase ∈ PHASE_NAMES → dget phase budget = Some pct → 0 < pct →
  pct <= fsum (filter (λ x : Q, fltb fzero x = true) ((λ p, share p budget) <$> names_from (phase_index phase))).
Proof.
  intros Hin Hd Hp. apply fsum_Q_elem.
  - apply Forall_forall. intros x [Hx _]%list_elem_of_filter. apply Q_ltb_lt in Hx. by apply Qlt_le_weak.
  - apply list_elem_of_filter. split; [by apply Q_ltb_lt|]. apply list_elem_of_fmap. exists phase.
    split; [unfold share; by rewrite Hd|by apply phase_in_names_from].
Qed.


(** *** Redistribution *)

Section redistribution.
Implicit Types (base : list (string * Q)) (p q : string).

Lemma share_dset p q (x : Q) d : share q (dset p x d) = if decide (q = p) then x else share q d.
Proof.
  unfold share. case_decide; [subst; by rewrite dget_dset_eq|by rewrite dget_dset_ne].
Qed.

(** A pass that rewrites the share of each listed phase rewrites each of them once. *)
Lemma foldl_share (step : list (string * Q) → string → list (string * Q)) (f : Q → Q) l base q :
  (∀ o p q, share q (step o p) = if decide (q = p) then f (share p o) else share q o) →
  NoDup l →
  share q (foldl step base l) = if decide (q ∈ l) then f (share q base) else share q base.
Proof.
  intros Hstep Hnd. revert base. induction Hnd as [|p l Hp Hnd IH]; intros base; simpl.
  { destruct (decide (q ∈ [])) as [[]%not_elem_of_nil|]; done. }
  rewrite IH, Hstep. destruct (decide (q = p)) as [->|Hne].
  - destruct (decide (p ∈ l)); [done|]. destruct (decide (p ∈ p :: l)) as [|[]]; [done|left].
  - destruct (decide (q ∈ l)), (decide (q ∈ p :: l)) as [Hq|Hq]; try done.
    + exfalso. apply Hq. by right.
    + apply elem_of_cons in Hq. tauto.
Qed.

Definition capped (x : Q) : Q := if fltb (f_of_Z 1) x then f_of_Z 1 else x.

Definition disabled_phases (o k s : bool) : list string :=
  (if o then [] else [PHASE_FRAMEWORK_AGENT]) ++ (if k then [] else [PHASE_KERNEL_AGENT]) ++ (if s then [] else [PHASE_SWEEP]).
Definition enabled_phases (o k s : bool) : list string :=
  (if o then [PHASE_FRAMEWORK_AGENT] else []) ++ (if k then [PHASE_KERNEL_AGENT] else []) ++ (if s then [PHASE_SWEEP] else []).

Definition sum_shares (l : list string) base : Q := fsum ((λ p, share p base) <$> l).

(** The share a phase ends up with. *)
Definition new_share (base : list (string * Q)) (o k s : bool) (q : string) : Q :=
  let freed := sum_shares (disabled_phases o k s) base in
  let weight := sum_shares (enabled_phases o k s) base in
  if decide (q ∈ disabled_phases o k s) then fzero
  else if fleb freed fzero then share q base
  else if decide (q ∈ enabled_phases o k s) then
    capped (if fltb fzero weight then fadd (share q base) (fdiv (fmul freed (share q base)) weight)
            else if s && String.eqb q PHASE_SWEEP then fadd (share q base) freed else share q base)
  else share q base.

Lemma NoDup_disabled o k s : NoDup (disabled_phases o k s).
Proof. destruct o, k, s; refine (bool_decide_unpack (NoDup _) _); vm_compute; exact I. Qed.
Lemma NoDup_enabled o k s : NoDup (enabled_phases o k s).
Proof. destruct o, k, s; refine (bool_decide_unpack (NoDup _) _); vm_compute; exact I. Qed.

Lemma enabled_not_disabled o k s q : q ∈ enabled_phases o k s → q ∉ disabled_phases o k s.
Proof.
  intros He Hd. assert (Forall (λ p, p ∉ disabled_phases o k s) (enabled_phases o k s)) as Hf.
  { refine (bool_decide_unpack (Forall _ _) _). by destruct o, k, s. }
  rewrite Forall_forall in Hf. by apply (Hf q).
Qed.

Lemma redistribute_new_share base o k s q :
  share q (redistribute_budget_pct base o k s) = new_share base o k s q.
Proof.
  unfold redistribute_budget_pct. cbv zeta.
  match goal with |- context [filter ?P work_phases] =>
    assert (filter P work_phases = disabled_phases o k s) as -> by (by destruct o, k, s) end.
  match goal with |- context [filter ?P work_phases] =>
    assert (filter P work_phases = enabled_phases o k s) as -> by (by destruct o, k, s) end.
  fold (sum_shares (disabled_phases o k s) base).
  assert (∀ q, share q (foldl (λ o p, dset p fzero o) base (disabled_phases o k s))
               = if decide (q ∈ disabled_phases o k s) then fzero else share q base) as Hz.
  { intros q'. apply (foldl_share _ (λ _, fzero)); [|apply NoDup_disabled]. intros. apply share_dset. }
  set (out := foldl _ base (disabled_phases o k s)) in *.
  assert (fsum ((λ p, share p out) <$> enabled_phases o k s) = sum_shares (enabled_phases o k s) base) as Hw.
  { unfold sum_shares. f_equal. apply list_fmap_ext. intros i p Hp. rewrite Hz.
    rewrite decide_False; [done|]. eapply enabled_not_disabled, list_elem_of_lookup_2, Hp. }
  rewrite Hw. unfold new_share.
  set (freed := sum_shares (disabled_phases o k s) base). set (weight := sum_shares (enabled_phases o k s) base).
  destruct (fleb freed fzero); [apply Hz|].
  rewrite (foldl_share _ capped); [| |apply NoDup_enabled].
  2: { intros o' p q'. unfold capped. destruct (fltb (f_of_Z 1) (share p o')) eqn:E; [apply share_dset|].
       by destruct (decide (q' = p)) as [->|]. }
  assert (∀ x, (if decide (q ∈ enabled_phases o k s) then x else share q out)
               = if decide (q ∈ disabled_phases o k s) then fzero
                 else if decide (q ∈ enabled_phases o k s) then x else share q base) as Hsplit.
  { intros x. rewrite Hz. destruct (decide (q ∈ enabled_phases o k s)) as [He|]; [|done].
    destruct (decide (q ∈ disabled_phases o k s)); [|done]. by apply enabled_not_disabled in He. }
  destruct (fltb fzero weight).
  { rewrite (foldl_share _ (λ x, fadd x (fdiv (fmul freed x) weight))); [|intros; apply share_dset|apply NoDup_enabled].
    rewrite <- Hsplit. destruct (decide (q ∈ enabled_phases o k s)) as [He|]; [|done].
    rewrite Hz. destruct (decide (q ∈ disabled_phases o k s)); [|done]. by apply enabled_not_disabled in He. }
  assert (∀ q', q' ∈ enabled_phases o k s → share q' out = share q' base) as Hen.
  { intros q' He. rewrite Hz. destruct (decide (q' ∈ disabled_phases o k s)); [|done]. by apply enabled_not_disabled in He. }
  destruct s; simpl andb; [|rewrite <- Hsplit; destruct (decide (q ∈ enabled_phases o k false)); [by rewrite Hen|done]].
  rewrite !share_dset. rewrite <- Hsplit. destruct (decide (q ∈ enabled_phases o k true)) as [He|He].
  - destruct (decide (q = PHASE_SWEEP)) as [->|Hne].
    + rewrite (Hen PHASE_SWEEP) by done. done.
    + rewrite (Hen q) by done. apply String.eqb_neq in Hne. by rewrite Hne.
  - destruct (decide (q = PHASE_SWEEP)) as [->|]; [|done]. exfalso. apply He. destruct o, k; vm_compute; find_in.
Qed.

Lemma capped_Q (x : Q) : x <= 1 → capped x = x.
Proof. intros H. unfold capped. destruct (fltb (f_of_Z 1) x) eqn:E; [|done]. apply Q_ltb_lt in E. change (1 < x) in E. lra. Qed.

(** What an absorber ends up with, when the absorbers weigh [w] and [f] is freed. *)
Lemma absorbed_Q (x f w : Q) :
  0 <= x → x <= w → 0 < w → 0 < f → f + w <= 1 →
  capped (fadd x (fdiv (fmul f x) w)) == x + f / w * x ∧ x + f / w * x <= 1 ∧ 0 <= x + f / w * x.
Proof.
  intros Hx Hxw Hw Hf Hs. assert (fadd x (fdiv (fmul f x) w) == x + f / w * x) as E.
  { etransitivity; [apply Qred_correct|]. apply Qplus_comp; [reflexivity|]. etransitivity; [apply Qred_correct|].
    simpl fmul. rewrite Qred_correct. field. lra. }
  assert (0 < f / w) as Hu by (apply Qlt_shift_div_l; lra).
  assert (f / w * w == f) as Huw by (field; lra).
  assert (x + f / w * x <= 1) as Hle by nra. split; [|split; [done|nra]].
  rewrite capped_Q; [done|]. by rewrite E.
Qed.

Lemma sum_cons p l base : sum_shares (p :: l) base == share p base + sum_shares l base.
Proof. apply fsum_Q_cons. Qed.
Lemma sum_nil base : sum_shares [] base == 0.
Proof. reflexivity. Qed.

Lemma sum_split base o k s :
  sum_shares work_phases base == sum_shares (disabled_phases o k s) base + sum_shares (enabled_phases o k s) base.
Proof. unfold work_phases, disabled_phases, enabled_phases. destruct o, k, s; simpl app; rewrite ?sum_cons, ?sum_nil; lra. Qed.

Lemma sum_ext l base base' : (∀ p, p ∈ l → share p base == share p base') → sum_shares l base == sum_shares l base'.
Proof.
  induction l as [|p l IH]; intros H; [reflexivity|]. rewrite !sum_cons, IH, (H p); [reflexivity|left|].
  intros q Hq. apply H. by right.
Qed.

Lemma sum_nonneg l base : (∀ p, p ∈ l → 0 <= share p base) → 0 <= sum_shares l base.
Proof.
  intros H. apply fsum_Q_nonneg, Forall_forall. intros x (p & -> & Hp)%list_elem_of_fmap. auto.
Qed.

Lemma sum_elem l base p : (∀ p, p ∈ l → 0 <= share p base) → p ∈ l → share p base <= sum_shares l base.
Proof.
  intros H Hp. apply fsum_Q_elem; [|apply list_elem_of_fmap; by exists p].
  apply Forall_forall. intros x (q & -> & Hq)%list_elem_of_fmap. auto.
Qed.

Lemma sum_scale l base base' (u : Q) :
  (∀ p, p ∈ l → share p base' == share p base + u * share p base) →
  sum_shares l base' == sum_shares l base + u * sum_shares l base.
Proof.
  induction l as [|p l IH]; intros H; [rewrite !sum_nil; lra|].
  rewrite !sum_cons, IH, (H p); [lra|left|]. intros q Hq. apply H. by right.
Qed.

Lemma enabled_work o k s p : p ∈ enabled_phases o k s → p ∈ work_phases.
Proof.
  intros H. assert (Forall (λ p, p ∈ work_phases) (enabled_phases o k s)) as Hf
    by (refine (bool_decide_unpack (Forall _ _) _); by destruct o, k, s).
  rewrite Forall_forall in Hf. by apply Hf.
Qed.
Lemma disabled_work o k s p : p ∈ disabled_phases o k s → p ∈ work_phases.
Proof.
  intros H. assert (Forall (λ p, p ∈ work_phases) (disabled_phases o k s)) as Hf
    by (refine (bool_decide_unpack (Forall _ _) _); by destruct o, k, s).
  rewrite Forall_forall in Hf. by apply Hf.
Qed.
Lemma work_cases o k s p : p ∈ work_phases → p ∈ disabled_phases o k s ∨ p ∈ enabled_phases o k s.
Proof.
  unfold work_phases. rewrite !elem_of_cons, elem_of_nil.
  intros [->|[->|[->|[]]]]; destruct o, k, s; first [solve [left; vm_compute; find_in]|solve [right; vm_compute; find_in]].
Qed.

(** The four ways an enabled phase's share comes out. *)
Lemma enabled_new_share base o k s q :
  (∀ p, p ∈ work_phases → 0 <= share p base) → sum_shares work_phases base <= 1 → q ∈ enabled_phases o k s →
  let f := sum_shares (disabled_phases o k s) base in
  let w := sum_shares (enabled_phases o k s) base in
  let x := share q base in
  (f <= 0 ∧ new_share base o k s q == x) ∨
  (0 < f ∧ 0 < w ∧ new_share base o k s q == x + f / w * x ∧ x + f / w * x <= 1 ∧ 0 <= x + f / w * x) ∨
  (0 < f ∧ w == 0 ∧ x == 0 ∧ new_share base o k s q == (if s && String.eqb q PHASE_SWEEP then f else 0)).
Proof.
  intros Hpos Hsum He f w x. pose proof (sum_split base o k s) as Hsp. fold f w in Hsp.
  assert (0 <= w) as Hw by (apply sum_nonneg; intros; eapply Hpos, enabled_work; done).
  assert (x <= w) as Hxw by (apply sum_elem; [intros; eapply Hpos, enabled_work; done|done]).
  assert (0 <= x) as Hx by (eapply Hpos, enabled_work; done).
  unfold new_share. fold f w x. destruct (decide (q ∈ disabled_phases o k s)); [by apply enabled_not_disabled in He|].
  destruct (fleb f fzero) eqn:Ef; [apply Qle_bool_iff in Ef; left; split; [exact Ef|reflexivity]|].
  assert (0 < f) as Hf.
  { apply Qnot_le_lt. intros Hle. apply Qle_bool_iff in Hle. change (Qle_bool f 0 = false) in Ef. by rewrite Hle in Ef. }
  right. destruct (decide (q ∈ enabled_phases o k s)); [|done].
  destruct (fltb fzero w) eqn:Ew; [apply Q_ltb_lt in Ew; change (0 < w) in Ew|apply Q_ltb_ge in Ew; change (w <= 0) in Ew].
  - left. split; [done|]. split; [done|]. apply absorbed_Q; lra.
  - right. assert (x == 0) as Hx0 by lra. split_and!; [done|lra|done|].
    assert (fadd x f == f) as Hxf by (transitivity (x + f); [apply Qred_correct|lra]).
    destruct (s && String.eqb q PHASE_SWEEP); rewrite capped_Q; rewrite ?Hxf; lra.
Qed.

(** With the sweep on and nothing to weigh, the sum over the enabled phases is what was freed. *)
Lemma sweep_takes_all o k base' (f : Q) :
  (∀ q, q ∈ enabled_phases o k true → share q base' == if String.eqb q PHASE_SWEEP then f else 0) →
  sum_shares (enabled_phases o k true) base' == f.
Proof.
  intros H. unfold enabled_phases in *.
  assert (String.eqb PHASE_FRAMEWORK_AGENT PHASE_SWEEP = false) as E1 by reflexivity.
  assert (String.eqb PHASE_KERNEL_AGENT PHASE_SWEEP = false) as E2 by reflexivity.
  assert (String.eqb PHASE_SWEEP PHASE_SWEEP = true) as E3 by reflexivity.
  destruct o, k; simpl app in *; rewrite ?sum_cons, ?sum_nil, !H by find_in; rewrite ?E1, ?E2, ?E3; lra.
Qed.
End redistribution.

(** Turning work phases off loses no budget: shares outside the work phases are untouched, a
    disabled phase has none left, every work phase stays within the wall clock, and as long as the
    sweep is on or some enabled phase has a share, the work phases together keep exactly the
    budget they had. *)
Theorem redistribution_conserves (base : list (string * Q)) (o k s : bool) :
  (∀ p, p ∈ work_phases → 0 <= share p base) →
  sum_shares work_phases base <= 1 →
  let out := redistribute_budget_pct base o k s in
  (∀ p, p ∉ work_phases → share p out = share p base) ∧
  (∀ p, p ∈ disabled_phases o k s → share p out = fzero) ∧
  (∀ p, p ∈ work_phases → 0 <= share p out ∧ share p out <= 1) ∧
  (s = true ∨ 0 < sum_shares (enabled_phases o k s) base →
   sum_shares work_phases out == sum_shares work_phases base).
Proof.
  intros Hpos Hsum out.
  assert (∀ q, share q out = new_share base o k s q) as Hout by (intros; apply redistribute_new_share).
  pose proof (sum_split base o k s) as Hsp. pose proof (sum_split out o k s) as Hspo.
  assert (∀ p, p ∈ disabled_phases o k s → share p out = fzero) as Hdis.
  { intros p Hp. rewrite Hout. unfold new_share. by destruct (decide (p ∈ disabled_phases o k s)). }
  assert (sum_shares (disabled_phases o k s) out == 0) as Hd0.
  { rewrite (sum_ext _ _ []); [|intros p Hp; by rewrite Hdis]. by destruct o, k, s. }
  assert (∀ p, p ∈ enabled_phases o k s → share p base <= sum_shares work_phases base) as Hle.
  { intros p Hp. apply sum_elem; [done|by eapply enabled_work]. }
  split_and!.
  - intros p Hp. rewrite Hout. unfold new_share.
    destruct (decide (p ∈ disabled_phases o k s)) as [Hq|]; [by apply disabled_work in Hq|].
    destruct (decide (p ∈ enabled_phases o k s)) as [Hq|]; [by apply enabled_work in Hq|]. by case_match.
  - done.
  - intros p [Hp|Hp]%(work_cases o k s); [rewrite Hdis by done; split; discriminate|].
    assert (0 <= share p base) by (eapply Hpos, enabled_work; done). specialize (Hle p Hp). rewrite Hout.
    destruct (enabled_new_share base o k s p) as [(? & ->)|[(? & ? & -> & ? & ?)|(? & ? & ? & ->)]]; [done..|lra|done|].
    assert (0 <= sum_shares (enabled_phases o k s) base) by (apply sum_nonneg; intros; eapply Hpos, enabled_work; done).
    destruct (s && _); lra.
  - intros Hs. rewrite Hspo, Hd0, Hsp.
    set (f := sum_shares (disabled_phases o k s) base) in *. set (w := sum_shares (enabled_phases o k s) base) in *.
    assert (0 <= f) as Hf by (apply sum_nonneg; intros; eapply Hpos, disabled_work; done).
    assert (0 <= w) as Hw by (apply sum_nonneg; intros; eapply Hpos, enabled_work; done).
    destruct (Qlt_le_dec 0 f) as [Hf0|Hf0]; [destruct (Qlt_le_dec 0 w) as [Hw0|Hw0]|].
    + rewrite (sum_scale _ base out (f / w)); [fold w; assert (f / w * w == f) by (field; lra); lra|].
      intros q Hq. rewrite Hout. pose proof (enabled_new_share base o k s q Hpos Hsum Hq) as H. simpl in H. fold f w in H.
      destruct H as [[? _]|[(_ & _ & H & _)|(_ & ? & _)]]; [lra|exact H|lra].
    + destruct Hs as [->|]; [|lra]. rewrite (sweep_takes_all o k out f); [lra|].
      intros q Hq. rewrite Hout. pose proof (enabled_new_share base o k true q Hpos Hsum Hq) as H. simpl in H. fold f w in H.
      destruct H as [[? _]|[(_ & ? & _)|(_ & _ & _ & H)]]; [lra|lra|exact H].
    + rewrite (sum_ext (enabled_phases o k s) out base); [fold w; lra|].
      intros q Hq. rewrite Hout. pose proof (enabled_new_share base o k s q Hpos Hsum Hq) as H. simpl in H. fold f w in H.
      destruct H as [[_ H]|[(? & _)|(? & _)]]; [exact H|lra|lra].
Qed.

(** ** PRELUDE's allowance is read the same way twice *)

(** Admission and the phase exit agree on the reserve line: when PRELUDE waits on nothing of its
    own, a baseline retry is refused for being past the reserve exactly when the frozen facts of
    the same instant close the phase on [prelude_budget_exhausted]; so the phase never idles past a
    line that refuses its only arm. *)
Theorem admission_agrees_with_exit {F} `{!FloatOps F} (parse_iso : string → option F) (c : clock F) (now : F)
    (baseline pending : pydict F) (streak : Z) (usable spent : F) :
  norm_phase (c_phase c) = PHASE_PRELUDE →
  dget "failures_this_leg" baseline = Some (PInt (c_leg_failures c)) →
  dget "analysis_affordable_sec" baseline = Some (opt_float (prelude_affordable_seconds parse_iso c now).1) →
  (∀ a, (prelude_affordable_seconds parse_iso c now).1 = Some a → f_isfinite a = true) →
  get_int "failure_streak" baseline = Ok streak →
  get_float0 "session_usable_sec" baseline = Ok usable →
  get_float0 "phase_spent_sec" baseline = Ok spent →
  _prelude_work_pending baseline pending = false →
  ((a_retry_past_the_reserve_line parse_iso c now).1 = true ↔
   ∃ ev, _prelude_budget_line baseline pending = Ok (Some ev)).
Proof.
  intros Hph Hfl Haf Hfin Hst Hus Hsp Hidle.
  assert (get_int "failures_this_leg" baseline = Ok (c_leg_failures c)) as Hf.
  { unfold get_int, dget_or_none. rewrite Hfl. simpl. by destruct (Z.eqb_spec (c_leg_failures c) 0) as [->|]. }
  assert (get_float "analysis_affordable_sec" baseline = Ok (prelude_affordable_seconds parse_iso c now).1) as Ha.
  { unfold get_float, dget_or_none. rewrite Haf. simpl.
    destruct (prelude_affordable_seconds parse_iso c now).1 as [a|] eqn:E; [|done]. simpl. by rewrite (Hfin a eq_refl). }
  unfold a_retry_past_the_reserve_line, a_use_must_follow_the_round, _prelude_budget_line. rewrite Hph. run_res.
  change (negb (String.eqb PHASE_PRELUDE PHASE_PRELUDE)) with false. rewrite Hidle, orb_false_r. cbv iota.
  destruct (c_leg_failures c <? 1)%Z; [split; [done|by intros [? ?]]|]. run_res.
  destruct (prelude_affordable_seconds parse_iso c now) as [aff evi]; simpl fst in *.
  destruct aff as [a|]; [|split; [done|by intros [? ?]]].
  destruct (fltb fzero a); run_res; split; intros H; [done|by destruct H|eauto|done].
Qed.

(** ** Witnesses *)

Definition no_iso {F} : string → option F := λ _, None.

(** A session of 100 minutes in its second leg, in FRAMEWORK_AGENT since second 1000. *)
Definition sample_clock : clock Q :=
  MkClock PHASE_FRAMEWORK_AGENT 1000 EmptyString [] (DEFAULT_PHASE_BUDGET_PCT (F := Q)) 100 0 600 900 EmptyString None 0.

Lemma threshold_decays_witness :
  (0 <= 0 <= 4)%Z ∧ decaying_keep_threshold_pct (F := Q) 4 false <= decaying_keep_threshold_pct 0 false.
Proof. split; [lia|]. apply (threshold_decays 0 4); lia. Defined.

Lemma elapsed_is_sum_of_legs_witness :
  elapsed_sec_of no_iso (run_leg (run_leg sample_clock (1000, [1010; 1100])) (5000, [5060])) 5100
    == 600 + legs_seconds [(1000, [1010; 1100])] + (5100 - 5000).
Proof.
  apply (elapsed_is_sum_of_legs no_iso sample_clock [(1000, [1010; 1100])] 5000 [5060] 5100).
  - discriminate.
  - constructor; [|constructor]. split; [reflexivity|]. split; [discriminate|]. split; [discriminate|exact I].
  - split; [reflexivity|]. split; [discriminate|exact I].
  - discriminate.
  - reflexivity.
Defined.


Lemma redistribution_conserves_witness :
  sum_shares work_phases (redistribute_budget_pct (DEFAULT_PHASE_BUDGET_PCT (F := Q)) true false true) == 9 # 10.
Proof.
  etransitivity; [apply (redistribution_conserves (DEFAULT_PHASE_BUDGET_PCT (F := Q)) true false true)|].
  - intros p. unfold work_phases. rewrite !elem_of_cons, elem_of_nil.
    intros [->|[->|[->|[]]]]; vm_compute; discriminate.
  - vm_compute. discriminate.
  - by left.
  - vm_compute. reflexivity.
Defined.

(** PRELUDE of a 10-minute session, 400 seconds in, one baseline failed. *)
Definition late_prelude : clock binary64 :=
  MkClock PHASE_PRELUDE (f_of_Z 1000) EmptyString [] DEFAULT_PHASE_BUDGET_PCT 10 (f_of_Z 0) (f_of_Z 0) (f_of_Z 1000)
    EmptyString None 1.

Lemma admission_agrees_with_exit_witness :
  (a_retry_past_the_reserve_line no_iso late_prelude (f_of_Z 1400)).1 = true ∧
  ∃ ev, _prelude_budget_line (F := binary64)
          [("failures_this_leg", PInt 1); ("analysis_affordable_sec", PFloat (f_of_Z 0))] [] = Ok (Some ev).
Proof.
  split; [vm_compute; reflexivity|].
  apply (@admission_agrees_with_exit binary64 b64_float no_iso late_prelude (f_of_Z 1400)
    [("failures_this_leg", PInt 1); ("analysis_affordable_sec", PFloat (f_of_Z 0))] [] 0 (f_of_Z 0) (f_of_Z 0)).
  - reflexivity.
  - reflexivity.
  - vm_compute. reflexivity.
  - intros a H. vm_compute in H. injection H as <-. reflexivity.
  - reflexivity.
  - vm_compute. reflexivity.
  - vm_compute. reflexivity.
  - reflexivity.
  - vm_compute. reflexivity.
Defined.
