(* ===== verification/PhaseState.v ===== *)
(** * Committing a phase decision ([phases/machine.py], [machine_state.py], [shared_state.py])

    The session state a transition writes: the phase and its clock, the history and lifecycle logs,
    the stop reason, the escalate hint, the macro-cycle counters and what a new cycle resets.
    [_commit_transition] is modelled up to the point where the state has been written; the save of
    the state file, the announcement on the bus and the entry hooks follow it and are not part of
    this state.  The clock readings of one commit, the focus planned for a cycle and the latest top
    bottleneck are arguments. *)

From stdpp Require Import base list strings sets.
From Stdlib Require Import ZArith Lia.
From Stdlib Require String.
From S2P Require Import Prelude PyFloat PyVal PhaseChain PhaseMachine PhaseClock.

(** ** State *)

(** What [reset_per_cycle_plateau_state] clears. *)
Record per_cycle (F : Type) := MkPerCycle {
  params_no_promote_streak : Z;
  framework_agent_phase_done : bool;
  framework_agent_discover_failures : Z;
  framework_agent_empty_discoveries : Z;
  rounds_since_last_specialist : list (string * Z);
  rounds_since_last_keep : list (string * Z);
  last_conc_sweep : pydict F;
  conc_sweep_granted_until_unix : F
}.
Arguments MkPerCycle {F} _ _ _ _ _ _ _ _.

Record session (F : Type) := MkSession {
  s_clock : clock F;
  macro_cycle : Z;
  no_gain_cycle_streak : Z;
  cumulative_gain_validated : F;
  gain_at_cycle_start : F;
  cycle_strategy_log : list (pydict F);
  s_per_cycle : per_cycle F;
  phase_history : list (pydict F);
  lifecycle : list (pydict F);
  stop_reason : string;
  stop_ts : string;
  pending_escalate_hint : string;
  last_discarded_escalate_hint : string;
  last_discarded_escalate_hint_ts : string;
  pending_bottleneck_switch : bool;
  last_cycle_bottleneck : string
}.
Arguments MkSession {F} _ _ _ _ _ _ _ _ _ _ _ _ _ _ _ _.
Arguments s_clock {F} _.
Arguments macro_cycle {F} _.
Arguments no_gain_cycle_streak {F} _.
Arguments cumulative_gain_validated {F} _.
Arguments gain_at_cycle_start {F} _.
Arguments cycle_strategy_log {F} _.
Arguments s_per_cycle {F} _.
Arguments phase_history {F} _.
Arguments lifecycle {F} _.
Arguments stop_reason {F} _.
Arguments stop_ts {F} _.
Arguments pending_escalate_hint {F} _.
Arguments last_discarded_escalate_hint {F} _.
Arguments last_discarded_escalate_hint_ts {F} _.
Arguments pending_bottleneck_switch {F} _.
Arguments last_cycle_bottleneck {F} _.

Section setters.
Context {F : Type}.
Implicit Types s : session F.

Definition set_clock (c : clock F) s : session F :=
  MkSession c (macro_cycle s) (no_gain_cycle_streak s) (cumulative_gain_validated s) (gain_at_cycle_start s)
    (cycle_strategy_log s) (s_per_cycle s) (phase_history s) (lifecycle s) (stop_reason s) (stop_ts s)
    (pending_escalate_hint s) (last_discarded_escalate_hint s) (last_discarded_escalate_hint_ts s)
    (pending_bottleneck_switch s) (last_cycle_bottleneck s).
Definition set_logs (history events : list (pydict F)) s : session F :=
  MkSession (s_clock s) (macro_cycle s) (no_gain_cycle_streak s) (cumulative_gain_validated s) (gain_at_cycle_start s)
    (cycle_strategy_log s) (s_per_cycle s) history events (stop_reason s) (stop_ts s)
    (pending_escalate_hint s) (last_discarded_escalate_hint s) (last_discarded_escalate_hint_ts s)
    (pending_bottleneck_switch s) (last_cycle_bottleneck s).
Definition set_stop (reason ts : string) s : session F :=
  MkSession (s_clock s) (macro_cycle s) (no_gain_cycle_streak s) (cumulative_gain_validated s) (gain_at_cycle_start s)
    (cycle_strategy_log s) (s_per_cycle s) (phase_history s) (lifecycle s) reason ts
    (pending_escalate_hint s) (last_discarded_escalate_hint s) (last_discarded_escalate_hint_ts s)
    (pending_bottleneck_switch s) (last_cycle_bottleneck s).
Definition set_hint (hint discarded discarded_ts : string) s : session F :=
  MkSession (s_clock s) (macro_cycle s) (no_gain_cycle_streak s) (cumulative_gain_validated s) (gain_at_cycle_start s)
    (cycle_strategy_log s) (s_per_cycle s) (phase_history s) (lifecycle s) (stop_reason s) (stop_ts s)
    hint discarded discarded_ts (pending_bottleneck_switch s) (last_cycle_bottleneck s).
Definition set_switch (pending : bool) (bottleneck : string) s : session F :=
  MkSession (s_clock s) (macro_cycle s) (no_gain_cycle_streak s) (cumulative_gain_validated s) (gain_at_cycle_start s)
    (cycle_strategy_log s) (s_per_cycle s) (phase_history s) (lifecycle s) (stop_reason s) (stop_ts s)
    (pending_escalate_hint s) (last_discarded_escalate_hint s) (last_discarded_escalate_hint_ts s) pending bottleneck.
Definition set_cycle (cycle streak : Z) (start : F) (strategy : list (pydict F)) (pc : per_cycle F) s : session F :=
  MkSession (s_clock s) cycle streak (cumulative_gain_validated s) start
    strategy pc (phase_history s) (lifecycle s) (stop_reason s) (stop_ts s)
    (pending_escalate_hint s) (last_discarded_escalate_hint s) (last_discarded_escalate_hint_ts s)
    (pending_bottleneck_switch s) (last_cycle_bottleneck s).
Definition set_streak (streak : Z) s : session F :=
  set_cycle (macro_cycle s) streak (gain_at_cycle_start s) (cycle_strategy_log s) (s_per_cycle s) s.
End setters.

(** [_BUDGET_EXIT_STOP_REASONS] *)
Definition _BUDGET_EXIT_STOP_REASONS : list (string * string) := [("sweep_budget_exhausted", "time_exhausted")].

(** A proposed move. *)
Record Transition (F : Type) := MkTransition {
  from_phase : string;
  to_phase : string;
  reason : string;
  evidence : pydict F
}.
Arguments MkTransition {F} _ _ _ _.
Arguments from_phase {F} _.
Arguments to_phase {F} _.
Arguments reason {F} _.
Arguments evidence {F} _.

Section operations.
Context {F : Type} `{!FloatOps F}.
Context (parse_iso : string → option F).
Implicit Types (s : session F) (move : Transition F).

(** ** Rows *)

(** Append with the cap of the history. *)
Definition push_history (row : pydict F) (history : list (pydict F)) : list (pydict F) :=
  let history := history ++ [row] in
  if (_PHASE_HISTORY_CAP <? length history)%nat then last_n _PHASE_HISTORY_CAP history else history.

Definition record_phase_transition s (to_phase reason : string) (evidence : option (pydict F))
    (ts : string) (ts_unix : F) : pydict F * session F :=
  let from := norm_phase (c_phase (s_clock s)) in
  let entry_cycle := if get_bool "loopback" (default [] evidence) then (macro_cycle s + 1)%Z else macro_cycle s in
  let '(_, c) := bank_phase_segment parse_iso (s_clock s) ts_unix in
  let row := make_history_row (MkEntry from to_phase reason evidence ts ts_unix entry_cycle) in
  (row, set_clock (with_phase (norm_phase to_phase) ts_unix c)
          (set_logs (push_history row (phase_history s)) (lifecycle s) s)).

Definition append_phase_history_event s (reason : string) (evidence : option (pydict F))
    (ts : string) (ts_unix : F) : pydict F * session F :=
  let phase := norm_phase (c_phase (s_clock s)) in
  let row := make_history_row (MkEntry phase phase (py_strip reason) evidence ts ts_unix (macro_cycle s)) in
  (row, set_logs (push_history row (phase_history s)) (lifecycle s) s).

Definition record_lifecycle_event s (mark : LifecycleMark F) (ts : string) : res (pydict F * session F) :=
  next_seq ← match last (lifecycle s) with
             | Some ev => n ← py_int (default (PInt (-1)) (dget "seq" ev)); Ok (n + 1)%Z
             | None => Ok 0%Z
             end;
  event ← make_lifecycle_event mark (c_phase (s_clock s)) next_seq ts;
  let events := lifecycle s ++ [event] in
  Ok (event, set_logs (phase_history s)
               (if (_LIFECYCLE_CAP <? length events)%nat then last_n _LIFECYCLE_CAP events else events) s).

(** ** Stop reason and hint *)

Definition _commit_stop_reason s (reason now : string) : session F :=
  set_stop reason (if String.eqb (stop_ts s) EmptyString then now else stop_ts s) s.

Definition set_stop_reason s (value : string) (strict : bool) (now : string) : res (session F) :=
  let text := py_strip value in
  if String.eqb text EmptyString then Ok (set_stop EmptyString EmptyString s)
  else if is_valid_stop_reason text then Ok (_commit_stop_reason s text now)
  else if strict then Raise (ValueError ("stop_reason=" +:+ text))
  else Ok (_commit_stop_reason s "unknown" now).

Definition set_terminal_stop_reason s (reason now : string) : res (session F) :=
  if String.eqb (stop_reason s) EmptyString
  then set_stop_reason s (default reason (dget reason _BUDGET_EXIT_STOP_REASONS)) true now
  else Ok s.

Definition consume_pending_escalate_hint s : session F :=
  if String.eqb (py_strip (pending_escalate_hint s)) EmptyString then s
  else set_hint EmptyString (last_discarded_escalate_hint s) (last_discarded_escalate_hint_ts s) s.
Definition discard_pending_escalate_hint s (now : string) : session F :=
  let hint := py_strip (pending_escalate_hint s) in
  if String.eqb hint EmptyString then s else set_hint EmptyString hint now s.

Definition settle_escalate_hint s move (now : string) : session F :=
  if din "hint" (evidence move) then consume_pending_escalate_hint s
  else if String.eqb (pending_escalate_hint s) EmptyString then s
  else discard_pending_escalate_hint s now.

(** ** Macro-cycles *)

(** [mark_bottleneck_switch(prev_bottleneck=current_top_bottleneck())] *)
Definition mark_bottleneck_switch s (prev_bottleneck top_bottleneck : string) : session F :=
  let pb := py_strip prev_bottleneck in
  let pb := if String.eqb pb EmptyString then top_bottleneck else pb in
  set_switch true (if String.eqb pb EmptyString then last_cycle_bottleneck s else pb) s.

Definition _carry_cycle_facts_across s move (top_bottleneck : string) : res (session F) :=
  let s := if get_bool "switch_bottleneck" (evidence move)
           then mark_bottleneck_switch s top_bottleneck top_bottleneck else s in
  if negb (get_bool "loopback" (evidence move)) && String.eqb (to_phase move) PHASE_CLOSE
     && din "no_gain_cycle_streak_effective" (evidence move)
  then n ← get_int "no_gain_cycle_streak_effective" (evidence move); Ok (set_streak n s)
  else Ok s.

Definition reset_per_cycle_plateau_state : per_cycle F := MkPerCycle 0 false 0 0 [] [] [] fzero.

(** [row["gain_delta"] = gain_delta] on the rows of the finished cycle that have none. *)
Definition finish_strategy_row (finished : Z) (gain_delta : F) (row : pydict F) : pydict F :=
  match dget "cycle" row with
  | Some v =>
      let same := match v with
                  | PInt z => (z =? finished)%Z
                  | PBool b => ((if b then 1 else 0) =? finished)%Z
                  | PFloat f => feqb f (f_of_Z finished)
                  | _ => false
                  end in
      match same, dget_or_none "gain_delta" row with
      | true, PNone => dset "gain_delta" (PFloat gain_delta) row
      | _, _ => row
      end
  | None => row
  end.

Definition open_macro_cycle s (streak : Z) : session F :=
  let finished := macro_cycle s in
  let gain_delta := fround 6 (fsub (cumulative_gain_validated s) (gain_at_cycle_start s)) in
  let rows := finish_strategy_row finished gain_delta <$> cycle_strategy_log s in
  set_cycle (finished + 1) streak (cumulative_gain_validated s) (last_n 50 rows) reset_per_cycle_plateau_state s.

(** [int(row.get("cycle", -1) or -1)] *)
Definition strategy_row_cycle (row : pydict F) : res Z :=
  match dget "cycle" row with
  | Some v => if truthy v then py_int v else Ok (-1)%Z
  | None => Ok (-1)%Z
  end.

(** Replace the first row of [cycle] by its merge with [planned]; [None] when there is none. *)
Fixpoint replace_strategy_row (cycle : Z) (planned : pydict F) (rows : list (pydict F)) : res (option (list (pydict F))) :=
  match rows with
  | [] => Ok None
  | row :: rows =>
      n ← strategy_row_cycle row;
      if (n =? cycle)%Z then Ok (Some (dmerge row planned :: rows))
      else rest ← replace_strategy_row cycle planned rows;
           Ok (match rest with Some rest => Some (row :: rest) | None => None end)
  end.

Definition record_cycle_strategy_for_current_cycle s (planned : pydict F) : res (session F) :=
  cycle ← get_int "cycle" planned;
  replaced ← replace_strategy_row cycle planned (cycle_strategy_log s);
  let rows := match replaced with Some rows => rows | None => cycle_strategy_log s ++ [planned] end in
  Ok (set_cycle (macro_cycle s) (no_gain_cycle_streak s) (gain_at_cycle_start s) (last_n 50 rows) (s_per_cycle s) s).

(** [plan_cycle_focus] runs on the opened cycle: [planned] is a function of its state. *)
Definition _open_next_macro_cycle s (streak : Z) (plan : session F → pydict F) : res (session F) :=
  let s := open_macro_cycle s streak in
  record_cycle_strategy_for_current_cycle s (plan s).

(** ** Commit *)

Definition _commit_transition s move (top_bottleneck : string) (plan : session F → pydict F)
    (ts : string) (ts_unix : F) : res (session F) :=
  let s := settle_escalate_hint s move ts in
  s ← (if String.eqb (to_phase move) PHASE_CLOSE then set_terminal_stop_reason s (reason move) ts else Ok s);
  s ← _carry_cycle_facts_across s move top_bottleneck;
  let is_loopback := get_bool "loopback" (evidence move) in
  let '(_, s) := record_phase_transition s (to_phase move) (reason move) (Some (evidence move)) ts ts_unix in
  s ← (if is_loopback
       then n ← get_int "no_gain_cycle_streak_effective" (evidence move); _open_next_macro_cycle s n plan
       else Ok s);
  '(_, s) ← record_lifecycle_event s
    (MkMark (to_phase move) LIFECYCLE_STATUS_ENTER None
      (if String.eqb (reason move) EmptyString then EmptyString else "reason=" +:+ reason move) None) ts;
  Ok s.
End operations.

(** ** What a commit does to the machine's own fields *)

Section effect.
Context {F : Type} `{!FloatOps F}.
Context (parse_iso : string → option F).
Implicit Types (s : session F) (move : Transition F).

(** The fields only the phase machine writes. *)
Definition machine_view s : string * Z * Z := (c_phase (s_clock s), macro_cycle s, no_gain_cycle_streak s).

Lemma settle_hint_view s move now : machine_view (settle_escalate_hint s move now) = machine_view s.
Proof.
  unfold settle_escalate_hint, consume_pending_escalate_hint, discard_pending_escalate_hint. by repeat case_match.
Qed.

Lemma set_stop_reason_view s v strict now s' :
  set_stop_reason s v strict now = Ok s' → machine_view s' = machine_view s.
Proof. unfold set_stop_reason. intros H. inv_res H; by subst. Qed.

Lemma terminal_stop_view s r now s' :
  set_terminal_stop_reason s r now = Ok s' → machine_view s' = machine_view s.
Proof.
  unfold set_terminal_stop_reason. intros H. inv_res H; [|by subst]. by eapply set_stop_reason_view.
Qed.

Lemma record_transition_view s to r ev ts now :
  machine_view (record_phase_transition parse_iso s to r ev ts now).2 =
  (norm_phase to, macro_cycle s, no_gain_cycle_streak s).
Proof. unfold record_phase_transition, bank_phase_segment. by case_match. Qed.

Lemma lifecycle_view s mark ts ev s' :
  record_lifecycle_event s mark ts = Ok (ev, s') → machine_view s' = machine_view s.
Proof. unfold record_lifecycle_event. intros H. inv_res H; simplify_eq; done. Qed.

Lemma open_cycle_view s n plan s' :
  _open_next_macro_cycle s n plan = Ok s' → machine_view s' = (c_phase (s_clock s), (macro_cycle s + 1)%Z, n).
Proof. unfold _open_next_macro_cycle, record_cycle_strategy_for_current_cycle. intros H. inv_res H; by subst. Qed.

Lemma carry_view s move top s' :
  _carry_cycle_facts_across s move top = Ok s' →
  c_phase (s_clock s') = c_phase (s_clock s) ∧ macro_cycle s' = macro_cycle s ∧
  (to_phase move ≠ PHASE_CLOSE → no_gain_cycle_streak s' = no_gain_cycle_streak s).
Proof.
  unfold _carry_cycle_facts_across, mark_bottleneck_switch. intros H. inv_res H; subst; simpl;
    split_and!; try (by case_match).
  rewrite !andb_true_iff, String.eqb_eq in *. naive_solver.
Qed.

(** The phase moves to the target, and a loopback opens the next cycle with the evidence's streak. *)
Lemma commit_view s move top plan ts now s' :
  _commit_transition parse_iso s move top plan ts now = Ok s' →
  c_phase (s_clock s') = norm_phase (to_phase move) ∧
  if get_bool "loopback" (evidence move)
  then macro_cycle s' = (macro_cycle s + 1)%Z ∧
       get_int "no_gain_cycle_streak_effective" (evidence move) = Ok (no_gain_cycle_streak s')
  else macro_cycle s' = macro_cycle s ∧
       (to_phase move ≠ PHASE_CLOSE → no_gain_cycle_streak s' = no_gain_cycle_streak s).
Proof.
  unfold _commit_transition. intros H.
  apply res_bind_ok in H as (s1 & H1 & H). apply res_bind_ok in H as (s2 & H2 & H).
  apply carry_view in H2 as (P2 & M2 & S2).
  assert (machine_view s1 = machine_view s) as V1.
  { destruct (String.eqb (to_phase move) PHASE_CLOSE); [apply terminal_stop_view in H1; rewrite H1|injection H1 as <-];
      apply settle_hint_view. }
  pose proof (record_transition_view s2 (to_phase move) (reason move) (Some (evidence move)) ts now) as V3.
  destruct (record_phase_transition parse_iso s2 _ _ _ _ _) as [row s3]. simpl in V3.
  apply res_bind_ok in H as (s4 & H4 & H). apply res_bind_ok in H as ([ev s5] & H5 & H). injection H as <-.
  apply lifecycle_view in H5. unfold machine_view in *. injection V1 as VP VM VS. injection V3 as WP WM WS.
  injection H5 as XP XM XS. rewrite XP, XM, XS.
  destruct (get_bool "loopback" (evidence move)).
  - apply res_bind_ok in H4 as (n & Hn & H4). apply open_cycle_view in H4. unfold machine_view in H4.
    injection H4 as YP YM YS. rewrite YP, YM, YS, WP, WM, M2, VM. done.
  - injection H4 as <-. rewrite WP, WM, WS, M2, VM. split; [done|]. split; [done|]. intros Hc. by rewrite S2, VS.
Qed.
End effect.

(** ** Runs of the machine *)

Definition DEFAULT_GLOBAL_CONVERGENCE_NO_GAIN_CYCLES : Z := 3.

Section runs.
Context {F : Type} `{!FloatOps F}.
Context (parse_iso : string → option F) (plan : session F → pydict F).
Implicit Types (s : session F) (inputs ev : pydict F).

Definition phase_of s : string := norm_phase (c_phase (s_clock s)).

(** What [workflow_predicate_inputs] freezes of the machine's own fields: the phase, the stop reason
    and, in SWEEP, the facts of the cycle; the plateau section has fixed keys. *)
Record frozen_from s inputs : Prop := {
  ff_phase : current_phase inputs = Ok (phase_of s);
  ff_stop : ∃ g, get_dict "global" inputs = Ok g ∧ get_str "stop_reason" g = py_strip (stop_reason s);
  ff_plateau : ∀ pl, get_dict "plateau" inputs = Ok pl → unmarked pl;
  ff_cycle : phase_of s = PHASE_SWEEP →
    ∃ cf, read_cycle_facts inputs = Ok cf ∧ cf_cycle cf = macro_cycle s ∧
      cf_prior cf = no_gain_cycle_streak s ∧ cf_limit cf = DEFAULT_GLOBAL_CONVERGENCE_NO_GAIN_CYCLES
}.

(** One decided and committed transition. *)
Definition commit_step s inputs t r ev s' : Prop :=
  frozen_from s inputs ∧ replay_next_phase inputs = Ok (Some (t, r, ev)) ∧
  ∃ top ts now, _commit_transition parse_iso s (MkTransition (c_phase (s_clock s)) t r ev) top plan ts now = Ok s'.

Definition is_reloop s t : bool := String.eqb (phase_of s) PHASE_SWEEP && String.eqb t PHASE_FRAMEWORK_AGENT.

(** A run counts its transitions, the macro-cycles it opened, and those of them whose cycle gained;
    between transitions the rest of the session may change everything but the machine's fields. *)
Inductive run s : nat → nat → nat → session F → Prop :=
| run_refl : run s 0 0 0 s
| run_env m c g s1 s2 : run s m c g s1 → machine_view s2 = machine_view s1 → run s m c g s2
| run_commit m c g s1 inputs t r ev s2 :
    run s m c g s1 → commit_step s1 inputs t r ev s2 →
    run s (S m) (if is_reloop s1 t then S c else c)
      (if is_reloop s1 t && get_bool "cycle_gained" ev then S g else g) s2.

Lemma get_int_PInt k (d : pydict F) n : dget k d = Some (PInt n) → get_int k d = Ok n.
Proof.
  intros H. unfold get_int, dget_or_none. rewrite H. simpl. by destruct (Z.eqb_spec n 0) as [->|].
Qed.

Lemma names_norm p : p ∈ PHASE_NAMES → norm_phase p = p.
Proof.
  unfold PHASE_NAMES. rewrite !elem_of_cons, elem_of_nil. by intros [->|[->|[->|[->|[->|[->|[]]]]]]].
Qed.

(** What one transition does to the position in the chain and to the cycle counters. *)
Lemma commit_step_effect s inputs t r ev s' :
  phase_of s ∈ PHASE_NAMES → commit_step s inputs t r ev s' →
  phase_of s' = t ∧ t ∈ PHASE_NAMES ∧ phase_of s ≠ PHASE_CLOSE ∧
  if is_reloop s t
  then phase_index t = (phase_index (phase_of s) - 2)%Z ∧ macro_cycle s' = (macro_cycle s + 1)%Z ∧
       (no_gain_cycle_streak s' < 3)%Z ∧
       no_gain_cycle_streak s' = (if get_bool "cycle_gained" ev then 0 else no_gain_cycle_streak s + 1)%Z
  else (phase_index (phase_of s) < phase_index t)%Z ∧ macro_cycle s' = macro_cycle s ∧
       (t ≠ PHASE_CLOSE → no_gain_cycle_streak s' = no_gain_cycle_streak s).
Proof.
  intros Hin ([Hcur _ Hpl Hcy] & Hrep & top & ts & now & Hc). pose proof (names_norm _ Hin) as Hn.
  apply commit_view in Hc as [Hp Hc]. simpl in *.
  destruct (decision_moves _ _ _ _ _ Hcur Hn Hrep) as (Ht & Hne & Hmove).
  split; [unfold phase_of; by rewrite Hp, !(names_norm _ Ht)|]. split; [done|]. split.
  { intros Hcl. rewrite Hcl in *. destruct Hmove as [Hlt|[? _]]; [|done].
    change (phase_index PHASE_CLOSE) with 5%Z in Hlt. destruct (phase_index_range t) as [[_ ?] _]. lia. }
  destruct (is_reloop s t) eqn:Er; unfold is_reloop in Er.
  - apply andb_true_iff in Er as [Es%String.eqb_eq Et%String.eqb_eq]. subst t.
    destruct (Hcy Es) as (cf & Hcf & _ & Hpr & Hlim). rewrite Es in Hcur.
    destruct (reloop_facts _ _ _ _ Hcur Hcf Hrep) as (Hv & Hl & Hst & Hg).
    rewrite Hl in Hc. destruct Hc as [Hm Hs]. rewrite (get_int_PInt _ _ _ Hst) in Hs. injection Hs as Hs.
    rewrite Es. split; [done|]. split; [done|]. rewrite <- Hs. split.
    + unfold cycle_verdict in Hv. repeat case_match; try done; rewrite Hlim in *;
        unfold DEFAULT_GLOBAL_CONVERGENCE_NO_GAIN_CYCLES in *; rewrite Z.leb_gt in *; lia.
    + unfold cycle_streak. rewrite Hg, Hpr. done.
  - assert (unmarked ev) as Hu.
    { eapply replay_unmarked; [done..|]. intros [E1 E2]. rewrite E1, E2 in Er. done. }
    unfold get_bool in Hc. rewrite Hu in Hc. destruct Hc as [Hm Hs]. split; [|done].
    destruct Hmove as [?|(E1 & E2 & _)]; [done|]. rewrite E1, E2 in Er. done.
Qed.

(** The machine's progress: a position in the chain bought by transitions, and a streak that
    pays for the cycles without a gain. *)
Lemma run_progress s m c g s' :
  phase_of s ∈ PHASE_NAMES → no_gain_cycle_streak s = 0%Z → run s m c g s' →
  phase_of s' ∈ PHASE_NAMES ∧
  (Z.of_nat m - 3 * Z.of_nat c <= phase_index (phase_of s') - phase_index (phase_of s))%Z ∧
  macro_cycle s' = (macro_cycle s + Z.of_nat c)%Z ∧
  (phase_of s' ≠ PHASE_CLOSE →
    (0 <= no_gain_cycle_streak s' < 3)%Z ∧ (Z.of_nat c <= 3 * Z.of_nat g + no_gain_cycle_streak s')%Z) ∧
  (Z.of_nat c <= 3 * Z.of_nat g + 2)%Z.
Proof.
  intros Hin H0. induction 1 as [|m c g s1 s2 Hrun IH Hv|m c g s1 inputs t r ev s2 Hrun IH Hstep].
  - rewrite H0. split_and!; try done; lia.
  - injection Hv as Hv1 Hv2 Hv3. unfold phase_of in *. rewrite Hv1, Hv2, Hv3. exact IH.
  - destruct IH as (I1 & I2 & I3 & I4 & I5).
    destruct (commit_step_effect _ _ _ _ _ _ I1 Hstep) as (Hp & Ht & Hne & Heff). rewrite Hp. split; [done|].
    specialize (I4 Hne) as [I4 I6]. destruct (is_reloop s1 t).
    + destruct Heff as (E1 & E2 & E3 & E4). simpl andb. rewrite E1, E2, E4 in *.
      destruct (get_bool "cycle_gained" ev); split_and!; intros; lia.
    + destruct Heff as (E1 & E2 & E3). simpl andb. rewrite E2. split_and!; [lia|done| |done].
      intros Hc. rewrite (E3 Hc). done.
Qed.
End runs.

(** From a fresh streak, the transitions and the cycles of a run are bounded by its gains. *)
Lemma run_bounded {F} `{!FloatOps F} (parse_iso : string → option F) (plan : session F → pydict F)
    (s s' : session F) (m c g : nat) :
  phase_of s ∈ PHASE_NAMES →
  no_gain_cycle_streak s = 0%Z →
  run parse_iso plan s m c g s' →
  m <= 5 + 3 * c ∧ c <= 3 * g + 2 ∧ m <= 11 + 9 * g ∧
  macro_cycle s' = (macro_cycle s + Z.of_nat c)%Z ∧
  (phase_of s' = PHASE_CLOSE → ∀ inputs t r ev s2, ¬ commit_step parse_iso plan s' inputs t r ev s2).
Proof.
  intros Hin H0 Hrun. destruct (run_progress _ _ _ _ _ _ _ Hin H0 Hrun) as (I1 & I2 & I3 & _ & I5).
  destruct (phase_index_range (phase_of s')) as [[_ Hhi] _].
  destruct (phase_index_range (phase_of s)) as [_ [_ Hlo]].
  rewrite names_norm in Hlo by done. specialize (Hlo Hin). split_and!; try lia.
  intros Hcl inputs t r ev s2 Hstep. by destruct (commit_step_effect _ _ _ _ _ _ _ _ I1 Hstep) as (_ & _ & ? & _).
Qed.

(** ** Recording *)

Lemma push_history_length {F} (row : pydict F) h : length (push_history row h) <= _PHASE_HISTORY_CAP.
Proof.
  unfold push_history. destruct (_PHASE_HISTORY_CAP <? length (h ++ [row]))%nat eqn:E.
  - rewrite last_n_length. lia.
  - by apply Nat.ltb_ge in E.
Qed.

(** Every row but the oldest survives a push. *)
Lemma push_history_keeps {F} (row : pydict F) h :
  length h <= _PHASE_HISTORY_CAP → ∃ n, n <= 1 ∧ push_history row h = drop n h ++ [row].
Proof.
  intros Hl. unfold push_history. rewrite length_app. simpl. destruct (_ <? _)%nat eqn:E.
  - exists 1. split; [lia|]. apply Nat.ltb_lt in E. unfold last_n. rewrite length_app. simpl.
    replace (length h + 1 - _PHASE_HISTORY_CAP) with 1 by lia.
    destruct h; [simpl in *; unfold _PHASE_HISTORY_CAP in *; lia|done].
  - exists 0. split; [lia|done].
Qed.

Section conservation.
Import QArith Lqa.
Context (parse_iso : string → option Q).
Local Open Scope Q_scope.

Lemma elapsed_at_entry (c : clock Q) phase now :
  phase_elapsed_seconds parse_iso (with_phase phase now c) now == 0.
Proof.
  unfold phase_elapsed_seconds, _phase_started_unix. cbn [c_started with_phase].
  destruct (fleb _ _); [reflexivity|].
  match goal with |- fmax fzero (fsub now (fmax ?a ?b)) == 0 => set (st := fmax a b); destruct (fmax_Q a b) as (H & _) end.
  fold st in H. rewrite or_zero_Q in H. apply fmax_nonpos_Q.
  assert (fsub now st == now - st) as -> by apply Qred_correct. lra.
Qed.

Lemma fadd_zero_Q (x e : Q) : e == 0 → fadd x e == x.
Proof. intros H. transitivity (x + e); [apply Qred_correct|lra]. Qed.

Lemma banked_nonneg p (c : clock Q) : 0 <= banked p c.
Proof. unfold banked, nonneg. apply fmax_Q. Qed.

(** Banking the live segment moves it from the clock into the total. *)
Lemma banked_after (c : clock Q) now q :
  banked q (bank_phase_segment parse_iso c now).2 ==
  (if String.eqb q (norm_phase (c_phase c)) && negb (String.eqb q EmptyString)
   then banked q c + phase_elapsed_seconds parse_iso c now else banked q c).
Proof.
  unfold bank_phase_segment. destruct (String.eqb_spec (norm_phase (c_phase c)) EmptyString) as [E|E].
  { rewrite E. destruct (String.eqb q EmptyString); reflexivity. }
  cbn [snd]. unfold banked at 1. cbn [c_totals with_totals]. rewrite share_dset.
  destruct (decide (q = norm_phase (c_phase c))) as [->|Hne].
  - rewrite String.eqb_refl. apply String.eqb_neq in E. rewrite E. simpl andb. cbv iota.
    assert (fadd (banked (norm_phase (c_phase c)) c) (phase_elapsed_seconds parse_iso c now) ==
            banked (norm_phase (c_phase c)) c + phase_elapsed_seconds parse_iso c now) as Ha by apply Qred_correct.
    rewrite nonneg_Q; rewrite Ha; [reflexivity|].
    pose proof (banked_nonneg (norm_phase (c_phase c)) c). pose proof (phase_elapsed_nonneg parse_iso c now). lra.
  - apply String.eqb_neq in Hne. rewrite Hne. reflexivity.
Qed.
End conservation.

Local Abbreviation Q := QArith_base.Q.
Local Infix "==" := QArith_base.Qeq (at level 70, no associativity).

(** A recorded transition loses neither time nor history: at the instant of the move, the
    cumulative seconds of every phase are what they were, the live segment of the phase left having
    moved into its total; the row is the newest of the history, which keeps at most 100 rows and
    drops at most the oldest; and the state is in the target phase as of that instant. *)
Theorem transition_conserves_time (parse_iso : string → option Q) (s : session Q)
    (to r : string) ev ts now (p : string) :
  p ≠ EmptyString →
  length (phase_history s) <= _PHASE_HISTORY_CAP →
  let '(row, s') := record_phase_transition parse_iso s to r ev ts now in
  phase_cumulative_seconds parse_iso (s_clock s') (Some p) now
    == phase_cumulative_seconds parse_iso (s_clock s) (Some p) now ∧
  (∃ n, n <= 1 ∧ phase_history s' = drop n (phase_history s) ++ [row]) ∧
  length (phase_history s') <= _PHASE_HISTORY_CAP ∧
  c_phase (s_clock s') = norm_phase to ∧ c_started (s_clock s') = now.
Proof.
  intros Hp Hl. unfold record_phase_transition. pose proof (banked_after parse_iso (s_clock s) now (norm_phase p)) as Hb.
  destruct (bank_phase_segment parse_iso (s_clock s) now) as [seg c]. simpl snd in Hb.
  cbn [s_clock set_clock set_logs phase_history].
  split_and!; [|by apply push_history_keeps|apply push_history_length|done|done].
  destruct p as [|ch p]; [done|]. unfold phase_cumulative_seconds.
  set (q := norm_phase (String ch p)) in *.
  destruct (String.eqb q EmptyString); [reflexivity|]. rewrite andb_true_r in Hb.
  change (banked q (with_phase (norm_phase to) now c)) with (banked q c).
  etransitivity; [|etransitivity; [exact Hb|]].
  - destruct (String.eqb q (norm_phase (c_phase (with_phase _ _ _)))); [|reflexivity]. by apply fadd_zero_Q, elapsed_at_entry.
  - destruct (String.eqb q (norm_phase (c_phase (s_clock s)))); [|reflexivity]. symmetry. apply Qreduction.Qred_correct.
Qed.

(** ** Closing *)

(** The stop reason a CLOSE transition records. *)
Definition recorded_stop (r : string) : string := default r (dget r _BUDGET_EXIT_STOP_REASONS).

Lemma close_edges_valid cur :
  Forall (λ e, e.1 = PHASE_CLOSE →
    is_valid_stop_reason (py_strip (recorded_stop e.2)) = true ∧ py_strip (recorded_stop e.2) ≠ EmptyString)
    (phase_edges cur).
Proof.
  unfold phase_edges. repeat (match goal with |- Forall _ (if ?b then _ else _) => destruct b end);
    repeat (apply Forall_cons; split;
      [intros Hc; first [discriminate Hc|split; [vm_compute; reflexivity|vm_compute; discriminate]]|]);
    apply Forall_nil; done.
Qed.

(** Closing never fails on its reason: whatever decision closes the run, the strict write of the
    stop reason succeeds; it keeps a reason recorded earlier, and otherwise records one of the
    closed vocabulary, a sweep that ran out of its budget being recorded as exhausted time. *)
Theorem closing_records_valid_reason {F} `{!FloatOps F} (s : session F) (inputs ev : pydict F) (r ts : string) :
  phase_of s ∈ PHASE_NAMES →
  frozen_from s inputs →
  replay_next_phase inputs = Ok (Some (PHASE_CLOSE, r, ev)) →
  ∃ s', set_terminal_stop_reason s r ts = Ok s' ∧
    stop_reason s' ≠ EmptyString ∧
    (stop_reason s ≠ EmptyString → s' = s) ∧
    (stop_reason s = EmptyString → is_valid_stop_reason (stop_reason s') = true) ∧
    (stop_reason s = EmptyString → r = "sweep_budget_exhausted" → stop_reason s' = "time_exhausted").
Proof.
  intros Hin [Hcur (g & Hg & Hst) _ _] H. unfold set_terminal_stop_reason.
  destruct (String.eqb_spec (stop_reason s) EmptyString) as [E|E]; [|exists s; by split_and!].
  assert (is_valid_stop_reason (py_strip (recorded_stop r)) = true ∧ py_strip (recorded_stop r) ≠ EmptyString) as [Hv Hne].
  { destruct (replay_edges _ _ _ _ _ H Hcur (names_norm _ Hin)) as [(_ & _ & Hf)|[He _]].
    - destruct Hf as (g' & Hg' & Hf). rewrite Hg in Hg'. injection Hg' as <-. rewrite Hst, E in Hf.
      destruct Hf as [[Hr Hn]|(_ & _ & ->)]; [by rewrite <- Hr in Hn|]. split; [vm_compute; reflexivity|discriminate].
    - pose proof (close_edges_valid (phase_of s)) as Hall. rewrite Forall_forall in Hall. by apply (Hall _ He). }
  unfold set_stop_reason. fold (recorded_stop r). apply String.eqb_neq in Hne as Hne'. rewrite Hne', Hv.
  eexists. split; [reflexivity|]. simpl. split_and!; try done. by intros _ ->.
Qed.

(** ** Witnesses *)

Definition plain_plan (s : session binary64) : pydict binary64 := [("cycle", PInt (macro_cycle s)); ("focus", PStr "kernel")].

(** A session at the end of its first cycle, which gained 4 percent. *)
Definition swept {F} `{!FloatOps F} : session F :=
  MkSession
    (MkClock PHASE_SWEEP (f_of_Z 1000) EmptyString [] DEFAULT_PHASE_BUDGET_PCT 0 (f_of_Z 0) (f_of_Z 0) (f_of_Z 900)
       EmptyString None 0)
    0 0 (f_of_Z 9) (f_of_Z 5) [] (reset_per_cycle_plateau_state (F := F)) [] [] EmptyString EmptyString EmptyString
    EmptyString EmptyString false EmptyString.

Lemma transition_conserves_time_witness :
  phase_cumulative_seconds (F := Q) no_iso
    (s_clock (record_phase_transition no_iso swept PHASE_CLOSE "sweep_done" None EmptyString (f_of_Z 1500)).2)
    (Some PHASE_SWEEP) (f_of_Z 1500) == f_of_Z 500.
Proof.
  etransitivity.
  - apply (transition_conserves_time no_iso swept PHASE_CLOSE "sweep_done" None EmptyString (f_of_Z 1500) PHASE_SWEEP);
      [discriminate|vm_compute; lia].
  - vm_compute. reflexivity.
Defined.

Definition failed_sweep : pydict binary64 :=
  frozen PHASE_SWEEP
    [("sweep_result", PDict [("status", PStr "failed"); ("reloop", PDict [("no_gain_cycles", PInt 3)])])].

Lemma closing_records_valid_reason_witness :
  ∃ ev s', replay_next_phase failed_sweep = Ok (Some (PHASE_CLOSE, "sweep_failed", ev)) ∧
    set_terminal_stop_reason (F := binary64) swept "sweep_failed" "now" = Ok s' ∧
    is_valid_stop_reason (stop_reason s') = true.
Proof.
  eexists.
  destruct (closing_records_valid_reason swept failed_sweep _ "sweep_failed" "now" ltac:(vm_compute; find_in)
    ltac:(constructor; [reflexivity|eexists; split; reflexivity|intros pl H; vm_compute in H; injection H as <-; reflexivity|
          intros _; eexists; split; [vm_compute; reflexivity|split_and!; reflexivity]])
    ltac:(vm_compute; reflexivity)) as (s' & H1 & _ & _ & H2 & _).
  exists s'. split; [vm_compute; reflexivity|]. split; [exact H1|]. exact (H2 eq_refl).
Defined.
