(* ===== verification/Protocol.v ===== *)
(** * Intents and roles ([protocol/intent.py], [roles/agent_role.py])

    An agent answers a turn with an envelope: a JSON object holding a list of intents.
    [validate_envelope] turns it into typed intents or refuses all of it; the role registry says
    which intents an agent may emit.  Payloads are JSON objects over any float type. *)

From stdpp Require Import base list strings pretty sets.
From Stdlib Require Import ZArith Lia.
From Stdlib Require String.
From S2P Require Import Prelude PyFloat PyVal PhaseMachine.

(** ** Vocabulary *)

Definition _ALERT_SEVERITIES : list string := ["low"; "medium"; "high"].
Definition ALLOWED_VERDICTS : list string := ["approve"; "reject"; "redirect"; "advise"; "needs_review"].
Definition EXTEND_LEASE_MAX_SEC : Z := 3600.

Inductive IntentType :=
| SEND_MESSAGE
| DELEGATE
| PROPOSE_ACTION
| ALERT
| REQUEST
| REVIEW_VERDICT
| EXTEND_LEASE
| PRUNE_BRANCH
| ESCALATE_STRATEGY_CHANGE.

#[global] Instance IntentType_eq_dec : EqDecision IntentType.
Proof. solve_decision. Defined.

(** [IntentType.value], and the members in the order they are declared. *)
Definition intent_value (t : IntentType) : string :=
  match t with
  | SEND_MESSAGE => "send_message"
  | DELEGATE => "delegate"
  | PROPOSE_ACTION => "propose_action"
  | ALERT => "alert"
  | REQUEST => "request"
  | REVIEW_VERDICT => "review_verdict"
  | EXTEND_LEASE => "extend_lease"
  | PRUNE_BRANCH => "prune_branch"
  | ESCALATE_STRATEGY_CHANGE => "escalate_strategy_change"
  end.
Definition intent_types : list IntentType :=
  [SEND_MESSAGE; DELEGATE; PROPOSE_ACTION; ALERT; REQUEST; REVIEW_VERDICT; EXTEND_LEASE; PRUNE_BRANCH;
   ESCALATE_STRATEGY_CHANGE].

Record Intent (F : Type) := MkIntent { i_type : IntentType; i_payload : pydict F }.
Arguments MkIntent {F} _ _.
Arguments i_type {F} _.
Arguments i_payload {F} _.

Definition _PAYLOAD_REQUIRED (t : IntentType) : list string :=
  match t with
  | SEND_MESSAGE => ["topic"]
  | DELEGATE => ["action_name"]
  | PROPOSE_ACTION => ["action_name"; "predicted_gain_pct"]
  | ALERT => ["severity"; "summary"]
  | REQUEST => ["target_agent"; "kind"]
  | REVIEW_VERDICT => ["target_proposal_msg_id"]
  | EXTEND_LEASE => ["task_id"; "extra_sec"]
  | PRUNE_BRANCH => ["family"; "reason"]
  | ESCALATE_STRATEGY_CHANGE => ["reason"; "next_action_hint"]
  end.

(** ** Validation of an envelope *)

Section envelope.
Context {F : Type} `{!FloatOps F}.
Implicit Types (v item : pyval F) (payload d : pydict F).

(** [type(v).__name__] *)
Definition type_name v : string :=
  match v with
  | PNone => "NoneType" | PBool _ => "bool" | PInt _ => "int" | PFloat _ => "float"
  | PStr _ => "str" | PList _ => "list" | PDict _ => "dict"
  end.

Definition is_none v : bool := match v with PNone => true | _ => false end.
Definition as_dict v : option (pydict F) := match v with PDict d => Some d | _ => None end.
Definition as_str v : option string := match v with PStr s => Some s | _ => None end.

(** [repr] of a list of names, for messages. *)
Definition repr_names (l : list string) : string := py_repr (F := F) (PList (PStr <$> l)).

(** [to_int(value)]: [None] for a bool, a non-finite float and whatever [int] refuses. *)
Definition to_int v : option Z :=
  match v with
  | PNone | PBool _ => None
  | _ => match py_int v with Ok z => Some z | Raise _ => None end
  end.

Definition drop_none d : pydict F := filter (λ kv, is_none kv.2 = false) d.

Definition _without_unset_fields payload : pydict F :=
  let cleaned := drop_none payload in
  match dget "params" cleaned with
  | Some (PDict params) => dset "params" (PDict (drop_none params)) cleaned
  | _ => cleaned
  end.

(** [IntentType(value)]: the member with that value, [None] being the [ValueError]. *)
Definition intent_type_of v : option IntentType :=
  match v with
  | PStr s => snd <$> list_find (λ t, intent_value t = s) intent_types
  | _ => None
  end.

Definition nonblank v : bool :=
  match v with PStr s => negb (String.eqb (py_strip s) EmptyString) | _ => false end.
Definition str_in (l : list string) v : bool :=
  match v with PStr s => bool_decide (s ∈ l) | _ => false end.

(** The prefix of a message about item [i]. *)
Definition at_item (i : nat) (rest : string) : string := "intents[" +:+ pretty i +:+ "]" +:+ rest.
Definition refuse {A} (i : nat) (rest : string) : res A := Raise (IntentValidationError (at_item i rest)).
Definition refuse_if (b : bool) (i : nat) (rest : string) : res unit :=
  raise_if b (IntentValidationError (at_item i rest)).

Definition _validate_alert_payload payload (index : nat) : res unit :=
  let severity := dget_or_none "severity" payload in
  _ ← refuse_if (negb (str_in _ALERT_SEVERITIES severity)) index
        (" (type=alert).severity must be one of " +:+ repr_names (py_sorted _ALERT_SEVERITIES)
           +:+ ", got " +:+ py_repr severity);
  refuse_if (negb (nonblank (dget_or_none "summary" payload))) index
    " (type=alert).summary must be a non-empty string".

Definition _validate_extend_lease_payload payload (index : nat) : res unit :=
  _ ← refuse_if (negb (nonblank (dget_or_none "task_id" payload))) index
        " (type=extend_lease).task_id must be a non-empty string";
  let extra_sec := dget_or_none "extra_sec" payload in
  refuse_if (match to_int extra_sec with Some z => (z <=? 0)%Z | None => true end) index
    (" (type=extend_lease).extra_sec must be a positive integer, got " +:+ py_repr extra_sec).

(** One entry of a verdict map. *)
Definition check_verdict_entry (index : nat) (kv : string * pyval F) : res unit :=
  let '(vname, entry) := kv in
  let where_ := " (type=review_verdict).verdict_map[" +:+ repr_str vname +:+ "]" in
  _ ← refuse_if (String.eqb (py_strip vname) EmptyString) index
        (" (type=review_verdict).verdict_map keys must be non-empty variant names, got " +:+ repr_str vname);
  match entry with
  | PDict e =>
      match dget "verdict" e with
      | None => refuse index (where_ +:+ " missing required 'verdict' key")
      | Some ev =>
          refuse_if (negb (str_in ALLOWED_VERDICTS ev)) index
            (where_ +:+ ".verdict must be one of " +:+ repr_names (py_sorted ALLOWED_VERDICTS)
               +:+ ", got " +:+ py_repr ev)
      end
  | _ => refuse index (where_ +:+ " must be an object with at least a 'verdict' key, got " +:+ type_name entry)
  end.

Definition check_single_verdict (index : nat) v : res unit :=
  refuse_if (negb (str_in ALLOWED_VERDICTS v)) index
    (" (type=review_verdict).verdict must be one of " +:+ repr_names (py_sorted ALLOWED_VERDICTS)
       +:+ ", got " +:+ py_repr v).

Definition check_verdict_map (index : nat) v : res unit :=
  match v with
  | PDict ((_ :: _) as vm) => for_each (check_verdict_entry index) vm
  | _ => refuse index " (type=review_verdict).verdict_map must be a non-empty object keyed by variant_name"
  end.

Definition _validate_review_verdict_payload payload (index : nat) : res unit :=
  match dget "verdict" payload, dget "verdict_map" payload with
  | None, None =>
      refuse index (" (type=review_verdict) must include either 'verdict' (single) or "
                      +:+ "'verdict_map' (per-variant); both missing")
  | Some _, Some _ =>
      refuse index " (type=review_verdict): 'verdict' and 'verdict_map' are mutually exclusive"
  | Some v, None => check_single_verdict index v
  | None, Some vm => check_verdict_map index vm
  end.

(** The value constraints of the types that have any. *)
Definition validate_values (t : IntentType) payload (index : nat) : res unit :=
  match t with
  | REVIEW_VERDICT => _validate_review_verdict_payload payload index
  | ALERT => _validate_alert_payload payload index
  | EXTEND_LEASE => _validate_extend_lease_payload payload index
  | _ => Ok ()
  end.

(** One item of the envelope. *)
Definition validate_item (i : nat) item : res (Intent F) :=
  match item with
  | PDict d =>
      match dget "intent_type" d, dget "payload" d with
      | Some tv, Some pv =>
          match intent_type_of tv with
          | None => refuse i (".intent_type " +:+ py_repr tv +:+ " not in allowed set")
          | Some it =>
              match pv with
              | PDict raw =>
                  let payload := _without_unset_fields raw in
                  _ ← for_each (λ required,
                        refuse_if (negb (din required payload)) i
                          (" (type=" +:+ intent_value it +:+ ") missing required payload field: "
                             +:+ repr_str required)) (_PAYLOAD_REQUIRED it);
                  _ ← validate_values it payload i;
                  Ok (MkIntent it payload)
              | _ => refuse i (".payload must be object, got " +:+ type_name pv)
              end
          end
      | _, _ => refuse i " missing intent_type or payload"
      end
  | _ => refuse i (" must be object, got " +:+ type_name item)
  end.

Fixpoint validate_items (i : nat) (items : list (pyval F)) : res (list (Intent F)) :=
  match items with
  | [] => Ok []
  | item :: items' =>
      intent ← validate_item i item;
      rest ← validate_items (S i) items';
      Ok (intent :: rest)
  end.

Definition validate_envelope (envelope : pyval F) : res (list (Intent F)) :=
  match envelope with
  | PDict d =>
      match dget "intents" d with
      | None => Raise (IntentValidationError "envelope missing required 'intents' key")
      | Some (PList items) => validate_items 0 items
      | Some _ => Raise (IntentValidationError "envelope.intents must be a list")
      end
  | _ => Raise (IntentValidationError ("envelope must be object, got " +:+ type_name envelope))
  end.
End envelope.

(** ** Roles *)

Record AgentRole := MkRole {
  role_name : string;
  allowed_intents : list IntentType;
  can_delegate_side_effects : bool;
  no_tools : bool
}.

Definition _BASE_INTENTS : list IntentType := [SEND_MESSAGE; ALERT].
Definition _ORCHESTRATION_INTENTS : list IntentType :=
  _BASE_INTENTS ++ [PROPOSE_ACTION; DELEGATE; REQUEST; EXTEND_LEASE; PRUNE_BRANCH; ESCALATE_STRATEGY_CHANGE].
Definition _CRITIC_INTENTS : list IntentType := _BASE_INTENTS ++ [REVIEW_VERDICT].

Definition default_role_registry : list (string * AgentRole) :=
  [("orchestration", MkRole "orchestration" _ORCHESTRATION_INTENTS true false);
   ("critic", MkRole "critic" _CRITIC_INTENTS false true)].

(** ** What an accepted envelope is *)

Section spec.
Context {F : Type} `{!FloatOps F}.
Implicit Types (v item : pyval F) (payload d : pydict F) (i : Intent F).

Definition verdict_ok v : Prop := ∃ s, v = PStr s ∧ s ∈ ALLOWED_VERDICTS.
Definition text_ok v : Prop := ∃ s, v = PStr s ∧ py_strip s ≠ EmptyString.

(** The value constraints of a payload, as a predicate. *)
Definition values_ok (t : IntentType) payload : Prop :=
  match t with
  | REVIEW_VERDICT =>
      (∃ v, dget "verdict" payload = Some v ∧ dget "verdict_map" payload = None ∧ verdict_ok v) ∨
      (∃ vm, dget "verdict" payload = None ∧ dget "verdict_map" payload = Some (PDict vm) ∧ vm ≠ [] ∧
         ∀ n e, (n, e) ∈ vm → py_strip n ≠ EmptyString ∧
           ∃ entry v, e = PDict entry ∧ dget "verdict" entry = Some v ∧ verdict_ok v)
  | ALERT =>
      (∃ s, dget_or_none "severity" payload = PStr s ∧ s ∈ _ALERT_SEVERITIES) ∧
      text_ok (dget_or_none "summary" payload)
  | EXTEND_LEASE =>
      text_ok (dget_or_none "task_id" payload) ∧
      ∃ z, to_int (dget_or_none "extra_sec" payload) = Some z ∧ (0 < z)%Z
  | _ => True
  end.

(** An item and the intent it stands for. *)
Definition accepts item i : Prop :=
  ∃ d raw, item = PDict d ∧
    dget "intent_type" d = Some (PStr (intent_value (i_type i))) ∧
    dget "payload" d = Some (PDict raw) ∧
    i_payload i = _without_unset_fields raw ∧
    (∀ k, k ∈ _PAYLOAD_REQUIRED (i_type i) → k ∈ (i_payload i).*1) ∧
    values_ok (i_type i) (i_payload i).

Lemma str_in_ok l v : str_in l v = true ↔ ∃ s, v = PStr s ∧ s ∈ l.
Proof.
  destruct v; simpl; rewrite ?bool_decide_eq_true; split; try done; try (by intros (? & [=] & _)).
  - intros H. eauto.
  - by intros (? & [= ->] & H).
Qed.

Lemma nonblank_ok v : nonblank v = true ↔ text_ok v.
Proof.
  unfold text_ok. destruct v; simpl; rewrite ?negb_true_iff, ?String.eqb_neq; split; try done; try (by intros (? & [=] & _)).
  - intros H. eauto.
  - by intros (? & [= ->] & H).
Qed.

Lemma refuse_if_ok b n rest : refuse_if b n rest = Ok () ↔ b = false.
Proof. apply raise_if_ok. Qed.
Lemma refuse_if_bind {A} b n rest (f : unit → res A) a : (refuse_if b n rest ≫= f) = Ok a ↔ b = false ∧ f () = Ok a.
Proof. apply raise_if_bind. Qed.

Lemma verdict_entry_ok n vname entry :
  check_verdict_entry n (vname, entry) = Ok () ↔
  py_strip vname ≠ EmptyString ∧ ∃ e v, entry = PDict e ∧ dget "verdict" e = Some v ∧ verdict_ok v.
Proof.
  unfold check_verdict_entry. rewrite refuse_if_bind, String.eqb_neq.
  split; (intros [Hn H]; split; [done|]); revert H.
  - destruct entry as [| | | | | |e]; try done. destruct (dget "verdict" e) as [v|] eqn:E; [|done].
    rewrite refuse_if_ok, negb_false_iff, str_in_ok. intros (s & -> & Hs). exists e, (PStr s). split_and!; try done.
    by exists s.
  - intros (e & v & -> & -> & Hv). rewrite refuse_if_ok, negb_false_iff, str_in_ok. exact Hv.
Qed.

Lemma verdict_map_ok n v :
  check_verdict_map n v = Ok () ↔
  ∃ vm, v = PDict vm ∧ vm ≠ [] ∧ ∀ m e, (m, e) ∈ vm → py_strip m ≠ EmptyString ∧
           ∃ entry w, e = PDict entry ∧ dget "verdict" entry = Some w ∧ verdict_ok w.
Proof.
  destruct v as [| | | | | |[|x vm]]; simpl; try (split; [done|by intros (? & [=] & _)]).
  { split; [done|]. by intros (? & [= <-] & ? & _). }
  change (_ ← check_verdict_entry n x; for_each (check_verdict_entry n) vm)
    with (for_each (check_verdict_entry n) (x :: vm)). rewrite for_each_ok. split.
  - intros H. exists (x :: vm). split; [done|]. split; [done|]. intros m e Hin. by apply (verdict_entry_ok n), H.
  - intros (? & [= <-] & _ & H) [m e] Hin. by apply verdict_entry_ok, H.
Qed.

Lemma validate_values_ok t payload n : validate_values t payload n = Ok () ↔ values_ok t payload.
Proof.
  destruct t; simpl; try done.
  - unfold _validate_alert_payload. rewrite refuse_if_bind, refuse_if_ok, !negb_false_iff, str_in_ok, nonblank_ok. done.
  - unfold _validate_review_verdict_payload, check_single_verdict.
    destruct (dget "verdict" payload) as [v|], (dget "verdict_map" payload) as [vm|]; simpl.
    + split; [done|]. intros [(? & _ & ? & _)|(? & ? & _)]; done.
    + rewrite refuse_if_ok, negb_false_iff, str_in_ok. unfold verdict_ok. naive_solver.
    + rewrite verdict_map_ok. naive_solver.
    + split; [done|]. intros [(? & ? & _)|(? & _ & ? & _)]; done.
  - unfold _validate_extend_lease_payload. rewrite refuse_if_bind, refuse_if_ok, negb_false_iff, nonblank_ok.
    destruct (to_int _) as [z|]; rewrite ?Z.leb_gt; naive_solver.
Qed.

Lemma intent_type_of_ok v t : intent_type_of v = Some t ↔ v = PStr (intent_value t).
Proof.
  unfold intent_type_of. destruct v as [| | | |s| |]; try (split; discriminate).
  split; [|intros [= ->]; by destruct t; vm_compute].
  destruct (list_find (λ t, intent_value t = s) intent_types) as [[n t']|] eqn:E; [|discriminate]. intros [= <-].
  apply list_find_Some in E as (_ & <- & _). done.
Qed.

Lemma validate_item_ok n item i : validate_item n item = Ok i ↔ accepts item i.
Proof.
  unfold validate_item, accepts. split.
  - destruct item as [| | | | | |d]; try done.
    destruct (dget "intent_type" d) as [tv|] eqn:Et; [|done]. destruct (dget "payload" d) as [pv|] eqn:Ep; [|done].
    destruct (intent_type_of tv) as [it|] eqn:Ei; [|done]. apply intent_type_of_ok in Ei as ->.
    destruct pv as [| | | | | |raw]; try done. intros H.
    apply res_bind_ok in H as ([] & Hr & H). apply res_bind_ok in H as ([] & Hv & H). injection H as <-.
    exists d, raw. simpl. split_and!; try done.
    + intros k Hk. rewrite for_each_ok in Hr. specialize (Hr k Hk). apply raise_if_ok, negb_false_iff in Hr.
      by apply din_elem.
    + by apply validate_values_ok in Hv.
  - intros (d & raw & -> & -> & -> & Hp & Hr & Hv).
    pose proof (proj2 (intent_type_of_ok (PStr (intent_value (i_type i))) (i_type i)) eq_refl) as ->.
    rewrite <- Hp. assert (∀ rest, for_each (λ k, refuse_if (negb (din k (i_payload i))) n (rest k))
                             (_PAYLOAD_REQUIRED (i_type i)) = Ok ()) as ->.
    { intros rest. apply for_each_ok. intros k Hk. apply refuse_if_ok, negb_false_iff, din_elem. auto. }
    simpl. apply (validate_values_ok _ _ n) in Hv. rewrite Hv. by destruct i.
Qed.

Lemma validate_items_ok n items intents : validate_items n items = Ok intents ↔ Forall2 accepts items intents.
Proof.
  revert n intents. induction items as [|item items IH]; intros n intents; simpl.
  - split; [intros [= <-]; constructor|by inversion 1].
  - split.
    + intros H. apply res_bind_ok in H as (i & Hi & H). apply res_bind_ok in H as (rest & Hrest & H).
      injection H as <-. constructor; [by apply validate_item_ok in Hi|by eapply IH].
    + inversion 1 as [|? i ? rest Hi Hrest]; subst. apply (validate_item_ok n) in Hi. rewrite Hi. simpl.
      by rewrite (proj2 (IH (S n) rest) Hrest).
Qed.

(** Only this exception leaves the validation. *)
Definition validation_error (e : exn) : Prop := ∃ msg, e = IntentValidationError msg.

Lemma refuse_raises {A} n rest : raises_only (A := A) validation_error (refuse n rest).
Proof. apply raises_raise. by eexists. Qed.
Lemma refuse_if_raises b n rest : raises_only validation_error (refuse_if b n rest).
Proof. apply raises_if. by eexists. Qed.
Local Hint Resolve refuse_raises refuse_if_raises : py_raises.

Lemma validate_values_raises t payload n : raises_only validation_error (validate_values t payload n).
Proof.
  unfold validate_values, _validate_alert_payload, _validate_extend_lease_payload, _validate_review_verdict_payload,
    check_single_verdict, check_verdict_map. destruct t; auto with py_raises.
  repeat case_match; auto with py_raises. apply raises_for_each. intros [vname entry] _.
  unfold check_verdict_entry. apply raises_bind; [auto with py_raises|]. intros _ _.
  repeat case_match; auto with py_raises.
Qed.

Lemma validate_item_raises n item : raises_only validation_error (validate_item n item).
Proof.
  unfold validate_item. repeat case_match; auto with py_raises.
  apply raises_bind; [apply raises_for_each; auto with py_raises|]. intros _ _.
  apply raises_bind; [apply validate_values_raises|]. auto with py_raises.
Qed.

Lemma validate_items_raises n items : raises_only validation_error (validate_items n items).
Proof.
  revert n. induction items as [|item items IH]; intros n; simpl; [apply raises_ok|].
  apply raises_bind; [apply validate_item_raises|]. intros i _. apply raises_bind; auto with py_raises.
Qed.

Lemma drop_none_clean k d : dget k (drop_none d) ≠ Some PNone.
Proof.
  unfold drop_none. induction d as [|[k' v] d IH]; [done|]. rewrite filter_cons. simpl.
  destruct v; simpl; try exact IH; case_bool_decide; try done; exact IH.
Qed.

(** No field an agent wrote as null survives, neither at the top nor in the parameters. *)
Lemma without_unset_clean payload k :
  dget k (_without_unset_fields payload) ≠ Some PNone ∧
  ∀ params, dget "params" (_without_unset_fields payload) = Some (PDict params) → dget k params ≠ Some PNone.
Proof.
  unfold _without_unset_fields.
  destruct (dget "params" (drop_none payload)) as [[| | | | | |ps]|] eqn:E; try (split; [apply drop_none_clean|congruence]).
  split.
  - destruct (decide (k = "params")) as [->|Hne]; [by rewrite dget_dset_eq|].
    rewrite dget_dset_ne by done. apply drop_none_clean.
  - rewrite dget_dset_eq. intros params [= <-]. apply drop_none_clean.
Qed.
End spec.

(** C36: Type.  The validator accepts exactly the envelopes whose items are all well formed, giving one typed
    intent per item, in order: a known type, an object payload whose null fields are dropped, every
    required field present, and the value constraints of verdicts, alerts and lease extensions.  One bad
    item refuses the whole envelope, no null reaches a reader at the top of a payload or in its
    parameters, and nothing but [IntentValidationError] is ever raised. *)
Theorem envelope_typed {F} `{!FloatOps F} (envelope : pyval F) :
  (∀ intents, validate_envelope envelope = Ok intents ↔
     ∃ d items, envelope = PDict d ∧ dget "intents" d = Some (PList items) ∧ Forall2 accepts items intents) ∧
  (∀ intents i k params, validate_envelope envelope = Ok intents → i ∈ intents →
     dget k (i_payload i) ≠ Some PNone ∧
     (dget "params" (i_payload i) = Some (PDict params) → dget k params ≠ Some PNone)) ∧
  raises_only validation_error (validate_envelope envelope).
Proof.
  assert (∀ intents, validate_envelope envelope = Ok intents ↔
     ∃ d items, envelope = PDict d ∧ dget "intents" d = Some (PList items) ∧ Forall2 accepts items intents) as Hiff.
  { intros intents. unfold validate_envelope. split.
    - destruct envelope as [| | | | | |d]; try done. destruct (dget "intents" d) as [[| | | | |items|]|] eqn:E; try done.
      rewrite validate_items_ok. eauto.
    - intros (d & items & -> & -> & H). by apply validate_items_ok. }
  split; [exact Hiff|]. split.
  - intros intents i k params H Hi. apply Hiff in H as (d & items & _ & _ & H).
    apply list_elem_of_lookup in Hi as [n Hn]. destruct (Forall2_lookup_r _ _ _ _ _ H Hn) as (item & _ & Ha).
    destruct Ha as (? & raw & _ & _ & _ & -> & _). destruct (without_unset_clean raw k). eauto.
  - unfold validate_envelope. repeat case_match; try (apply raises_raise; by eexists). apply validate_items_raises.
Qed.

(** ** Examples *)

Definition probe_envelope : pyval binary64 :=
  PDict [("intents", PList [
    PDict [("intent_type", PStr "delegate");
           ("payload", PDict [("action_name", PStr "explore"); ("note", PNone);
                              ("params", PDict [("keep_threshold_pct", PNone); ("grid", PList [])])])];
    PDict [("intent_type", PStr "review_verdict");
           ("payload", PDict [("target_proposal_msg_id", PStr "m1"); ("verdict", PStr "approve")])]])].

Example probe_envelope_intents :
  validate_envelope probe_envelope =
  Ok [MkIntent DELEGATE [("action_name", PStr "explore"); ("params", PDict [("grid", PList [])])];
      MkIntent REVIEW_VERDICT [("target_proposal_msg_id", PStr "m1"); ("verdict", PStr "approve")]].
Proof. vm_compute. reflexivity. Qed.
