(* ===== verification/Specialists.v ===== *)
(** * Specialist dispatch ([specialists/domains.py], [profile.py], [in_flight.py], [policy/specialist_in_flight.py])

    The catalogue of knowledge domains, the tags a dispatch names, the three dials a dispatch resolves
    to (scope, mode, bench), the lanes and cards they ask for, and the rule that a domain has at most
    one specialist queued or running.  Descriptions of the catalogue are left out; whether the node is a
    multi-node one and the cards it exposes are arguments. *)

From stdpp Require Import base list strings sets sorting relations.
From Stdlib Require Import ZArith Lia.
From Stdlib Require String.
From S2P Require Import Prelude PyFloat PyVal Store Lanes Tasks PhaseMachine Protocol.

(** ** Catalogue *)

Record SpecialistDomain := MkDomain {
  d_key : string;
  d_layer : string;
  d_kb_anchor : string;
  d_default_mode : string;
  d_llm_selectable : bool
}.

Definition CUSTOM_SPECIALIST_KEY : string := "custom_specialist".
Definition OPERATOR_DEFINED_LAYER : string := "operator-defined".

Definition SPECIALIST_DOMAINS : list SpecialistDomain :=
  [MkDomain "serving_specialist" "sglang / vllm scheduler / cuda_graph / kv_cache" "framework" "patch" true;
   MkDomain "kernel_switch_specialist" "aiter / sglang kernels / triton" "kernel_agent" "patch" true;
   MkDomain "comm_specialist" "RCCL / NCCL / QuickReduce / AllReduce" "communication" "patch" true;
   MkDomain "compiler_specialist" "torch.compile / inductor / triton" "compiler" "patch" true;
   MkDomain "system_specialist" "KFD / driver / memory / dispatch overhead" "systems" "patch" true;
   MkDomain "speculative_decoding_specialist"
     "speculative decoding: MTP / EAGLE / block drafters / draft model / n-gram" "speculative_decoding" "patch" true;
   MkDomain "candidate_discovery_specialist" "upstream candidate discovery / ranking / audit" "pr_intelligence"
     "research" true;
   MkDomain "research_scout_specialist" "proven-prior research / reference scripts / arch features" "research_scout"
     "research" true;
   MkDomain "static_recon_specialist" "framework source static reconnaissance / un-bridged switches" "static_recon"
     "research" true;
   MkDomain "enablement_specialist"
     "non-runnable or eval-failing (model, backend) enablement / framework + ROCm/HIP bridging" "framework" "patch" false;
   MkDomain "framework_rewrite_specialist"
     "iterative-model pipeline source rewrites (diffusion / autoregressive video)" "framework" "patch" true;
   MkDomain CUSTOM_SPECIALIST_KEY OPERATOR_DEFINED_LAYER CUSTOM_SPECIALIST_KEY "patch" false].

Definition _derive_knowledge_domain_tags : list string :=
  dict_fromkeys [] (filter (λ a, a ≠ EmptyString)
    ((λ d, py_strip (d_kb_anchor d)) <$> filter (λ d, d_layer d ≠ OPERATOR_DEFINED_LAYER) SPECIALIST_DOMAINS)).
Definition KNOWLEDGE_DOMAIN_TAGS : list string := _derive_knowledge_domain_tags.

Definition _anchor_to_domain_map : list (string * SpecialistDomain) :=
  foldl (λ out d, let anchor := py_strip (d_kb_anchor d) in
                  if String.eqb anchor EmptyString || din anchor out then out else dset anchor d out)
        [] SPECIALIST_DOMAINS.

Definition get_domain (key : string) : option SpecialistDomain :=
  snd <$> list_find (λ d, d_key d = key) SPECIALIST_DOMAINS.

Definition domain_for_tag (tag : string) : option SpecialistDomain :=
  let t := py_strip tag in
  if String.eqb t EmptyString then None
  else match dget t _anchor_to_domain_map with
       | Some d => Some d
       | None => get_domain t
       end.

Definition _tag_to_kb_anchor (tag : string) : string :=
  match get_domain tag with
  | Some d => if String.eqb (d_kb_anchor d) EmptyString then tag else d_kb_anchor d
  | None => tag
  end.

(** ** Dials *)

Definition SCOPE_DOMAIN : string := "domain".
Definition SCOPE_DOMAINS : string := "domains".
Definition SCOPE_FREEFORM : string := "freeform".
Definition SCOPE_VALUES : list string := [SCOPE_DOMAIN; SCOPE_DOMAINS; SCOPE_FREEFORM].
Definition MODE_RESEARCH : string := "research".
Definition MODE_PATCH : string := "patch".
Definition MODE_VALUES : list string := [MODE_RESEARCH; MODE_PATCH].

Record SpecialistProfile := MkProfile { p_scope : string; p_mode : string; p_bench : bool }.

Definition is_freeform (p : SpecialistProfile) : bool := String.eqb (p_scope p) SCOPE_FREEFORM.
Definition reserves_benchmark_lane (p : SpecialistProfile) : bool := String.eqb (p_mode p) MODE_PATCH && p_bench p.

Section dispatch.
Context {F : Type} `{!FloatOps F}.
Implicit Types (p params gap : pydict F) (v : pyval F).

(** [is_truthy] of [hyperloom_common/env.py]. *)
Definition _TRUE_TOKENS : list string := ["1"; "true"; "yes"; "on"].
Definition _FALSE_TOKENS : list string := [EmptyString; "0"; "false"; "no"; "off"].
Definition _parse_bool v : option bool :=
  match v with
  | PBool b => Some b
  | _ => let token := py_lower (py_strip (py_str v)) in
         if bool_decide (token ∈ _TRUE_TOKENS) then Some true
         else if bool_decide (token ∈ _FALSE_TOKENS) then Some false else None
  end.
Definition is_truthy v (dflt : bool) : bool :=
  match v with PNone => dflt | _ => default dflt (_parse_bool v) end.

(** [str(params.get(k) or "").strip()] *)
Definition get_text (k : string) p : string := py_strip (get_str k p).

Definition normalize_dispatch_tags p : list string :=
  let listed := match dget "tags" p with
                | Some (PList items) =>
                    _tag_to_kb_anchor <$>
                      filter (λ t, t ≠ EmptyString)
                        ((λ item, py_strip (if truthy item then py_str item else EmptyString)) <$> items)
                | _ => []
                end in
  let tags := match listed with
              | [] => let domain := get_text "domain" p in
                      if String.eqb domain EmptyString then [] else [_tag_to_kb_anchor domain]
              | _ => listed
              end in
  dict_fromkeys [] tags.

Definition dispatch_domain_key p : string :=
  let named := get_text "domain" p in
  if String.eqb named EmptyString then default EmptyString (head (normalize_dispatch_tags p)) else named.

Definition dispatch_domain p : option SpecialistDomain := domain_for_tag (dispatch_domain_key p).

Definition gap_backfilled_domain p (find_gap : string → option (pydict F)) : string :=
  let named := get_text "domain" p in
  if negb (String.eqb named EmptyString) then named
  else
    let cid := get_text "gap_canonical_id" p in
    let gap_cid := if String.eqb cid EmptyString then get_text "gap" p else cid in
    let gap := if String.eqb gap_cid EmptyString then None else find_gap gap_cid in
    get_text "domain_hint" (default [] gap).

Definition is_custom_specialist_dispatch p : bool :=
  String.eqb (get_text "domain" p) CUSTOM_SPECIALIST_KEY
  || bool_decide (CUSTOM_SPECIALIST_KEY ∈ normalize_dispatch_tags p).

Definition _infer_scope p : string :=
  match normalize_dispatch_tags p with
  | _ :: _ :: _ => SCOPE_DOMAINS
  | [_] => SCOPE_DOMAIN
  | [] => SCOPE_FREEFORM
  end.

Definition resolve_specialist_profile p (domain : option SpecialistDomain) : SpecialistProfile :=
  let asked := py_lower (get_text "scope" p) in
  let inferred := _infer_scope p in
  let scope := if negb (bool_decide (asked ∈ SCOPE_VALUES))
                  || (String.eqb asked SCOPE_DOMAINS && negb (String.eqb inferred SCOPE_DOMAINS))
               then inferred else asked in
  let named := py_lower (get_text "mode" p) in
  let domain_default := match domain with Some d => py_lower (py_strip (d_default_mode d)) | None => EmptyString end in
  let mode := if bool_decide (named ∈ MODE_VALUES) then named
              else if bool_decide (domain_default ∈ MODE_VALUES) then domain_default
              else if String.eqb scope SCOPE_FREEFORM then MODE_RESEARCH else MODE_PATCH in
  let bench := is_truthy (dget_or_none "bench" p) false in
  MkProfile scope mode (if String.eqb mode MODE_PATCH then bench else false).

(** Whether a whole-machine lease has any card: a single node with visible devices. *)
Definition _whole_machine_available (multi_node : bool) (devices : list Z) : bool :=
  negb multi_node && negb (bool_decide (devices = [])).

Definition requires_gpu (whole_machine : bool) p : bool :=
  if is_truthy (dget_or_none "needs_gpu" p) false || reserves_benchmark_lane (resolve_specialist_profile p None)
  then true
  else get_bool "enablement" p && whole_machine.

Definition specialist_lanes (whole_machine : bool) p (base_lanes : list string) : list string :=
  let lanes := if requires_gpu whole_machine p
               then filter (λ l, l ≠ "research_lane") base_lanes ++ ["gpu_research_lane"] else base_lanes in
  let lanes := if reserves_benchmark_lane (resolve_specialist_profile p None) then lanes ++ ["benchmark_lane"] else lanes in
  dict_fromkeys [] lanes.

(** Whole minutes. *)
Definition wall_budget_base_min p : Z :=
  if String.eqb (p_mode (resolve_specialist_profile p None)) MODE_PATCH then 60 else 10.

Definition is_authoring_specialist p : bool := get_bool "framework_agent_authoring" p || get_bool "enablement" p.
Definition uses_whole_machine_gpu_lane p : bool :=
  get_bool "enablement" p || reserves_benchmark_lane (resolve_specialist_profile p None).

(** ** Held domains *)

Definition held_domain p : string :=
  match dispatch_domain p with
  | None => EmptyString
  | Some d =>
      if is_custom_specialist_dispatch p then EmptyString
      else if String.eqb (p_scope (resolve_specialist_profile p (Some d))) SCOPE_DOMAIN then d_key d else EmptyString
  end.
End dispatch.

Definition SPECIALIST_ACTION_NAME : string := "specialist".
Definition SPECIALIST_DOMAIN_IN_FLIGHT : string := "specialist_domain_in_flight".

Definition task_domain (t : task) : string :=
  if String.eqb (kind t) "specialist" then held_domain (params t) else EmptyString.

(** [held.setdefault(domain, task)] over the tasks. *)
Definition in_flight_domains (ts : list task) : list (string * task) :=
  foldl (λ held t, let domain := task_domain t in
                   if String.eqb domain EmptyString || din domain held then held else dset domain t held) [] ts.

(** The stored parameters of a dispatch: its own, with the domain warm-up backfills. *)
Definition with_domain (domain : string) (p : list (string * json)) : list (string * json) := dset "domain" (PStr domain) p.

Definition specialist_in_flight_denial (action_name : string) (p : list (string * json)) (db : DB)
    (find_gap : string → option (list (string * json))) : option exn :=
  if negb (String.eqb action_name SPECIALIST_ACTION_NAME) then None
  else
    let domain := held_domain (with_domain (gap_backfilled_domain p find_gap) p) in
    if String.eqb domain EmptyString then None
    else match dget domain (in_flight_domains (queued db ++ running db)) with
         | None => None
         | Some holder =>
             Some (PolicyDenied SPECIALIST_DOMAIN_IN_FLIGHT
               ("delegate{action='specialist'}: " +:+ domain +:+ " already has specialist task "
                  +:+ task_id holder +:+ " " +:+ state_str (t_state holder)))
         end.

(** [_specialist_domain_free] stores the backfilled domain, when there is one. *)
Definition stored_params (p : list (string * json)) (find_gap : string → option (list (string * json)))
    : list (string * json) :=
  let backfilled := gap_backfilled_domain p find_gap in
  if String.eqb backfilled EmptyString then p else with_domain backfilled p.

(** ** Lanes of a specialist *)

Lemma reserves_needs_gpu {F} `{!FloatOps F} whole_machine (p : pydict F) :
  reserves_benchmark_lane (resolve_specialist_profile p None) = true → requires_gpu whole_machine p = true.
Proof. intros H. unfold requires_gpu. by rewrite H, orb_true_r. Qed.

(** The catalogue gives a specialist [research_lane]; what its dials make of it. *)
Lemma specialist_lanes_cases {F} `{!FloatOps F} whole_machine (p : pydict F) :
  specialist_lanes whole_machine p ["research_lane"] =
  if requires_gpu whole_machine p then
    if reserves_benchmark_lane (resolve_specialist_profile p None)
    then ["gpu_research_lane"; "benchmark_lane"] else ["gpu_research_lane"]
  else ["research_lane"].
Proof.
  unfold specialist_lanes. pose proof (reserves_needs_gpu whole_machine p) as H.
  destruct (requires_gpu whole_machine p), (reserves_benchmark_lane (resolve_specialist_profile p None));
    vm_compute; try reflexivity. discriminate (H eq_refl).
Qed.

(** ** One specialist per domain *)

Definition live (t : task) : Prop := t_state t = Queued ∨ t_state t = Running.

(** Live specialists that hold the same domain are one task. *)
Definition domains_exclusive (db : DB) : Prop :=
  ∀ t1 t2, t1 ∈ tasks db → t2 ∈ tasks db → live t1 → live t2 →
    task_domain t1 ≠ EmptyString → task_domain t1 = task_domain t2 → task_id t1 = task_id t2.

Lemma in_flight_None ts domain :
  domain ≠ EmptyString → dget domain (in_flight_domains ts) = None → ∀ t, t ∈ ts → task_domain t ≠ domain.
Proof.
  intros Hne. unfold in_flight_domains.
  assert (∀ held, dget domain (foldl (λ held t, if String.eqb (task_domain t) EmptyString || din (task_domain t) held
            then held else dset (task_domain t) t held) held ts) = None →
          dget domain held = None ∧ ∀ t, t ∈ ts → task_domain t ≠ domain) as H; [|by intros [_ Hts]%H].
  induction ts as [|t ts IH]; intros held; simpl; [intros ?; split; [done|intros t []%not_elem_of_nil]|].
  intros [Hh Hts]%IH. destruct (String.eqb_spec (task_domain t) EmptyString) as [E|E]; simpl in Hh.
  { split; [done|]. intros t' [->|Hin]%elem_of_cons; [congruence|auto]. }
  unfold din in Hh. destruct (dget (task_domain t) held) eqn:Ed.
  { split; [done|]. intros t' [->|Hin]%elem_of_cons; [congruence|auto]. }
  destruct (decide (domain = task_domain t)) as [->|Hd]; [by rewrite dget_dset_eq in Hh|].
  rewrite dget_dset_ne in Hh by done. split; [done|]. intros t' [->|Hin]%elem_of_cons; [congruence|auto].
Qed.

Lemma elem_of_live t db : t ∈ queued db ++ running db ↔ t ∈ tasks db ∧ live t.
Proof.
  unfold queued, running, in_state, live.
  rewrite elem_of_app, !merge_sort_Permutation, !list_elem_of_filter. tauto.
Qed.

(** A blank domain is no domain: storing it changes nothing a dispatch is judged by. *)
Lemma held_with_blank (p : list (string * json)) :
  get_text "domain" p = EmptyString → held_domain (with_domain EmptyString p) = held_domain p.
Proof.
  intros H. unfold with_domain.
  assert (∀ k, k ≠ "domain" → get_text k (dset "domain" (PStr EmptyString) p) = get_text k p) as Hk.
  { intros k Hk. unfold get_text, get_str. by rewrite dget_dset_ne. }
  assert (get_text "domain" (dset "domain" (PStr EmptyString) p) = EmptyString) as Hd
    by (unfold get_text, get_str; by rewrite dget_dset_eq).
  assert (normalize_dispatch_tags (dset "domain" (PStr EmptyString) p) = normalize_dispatch_tags p) as Ht.
  { unfold normalize_dispatch_tags. by rewrite dget_dset_ne, Hd, H. }
  unfold held_domain, dispatch_domain, dispatch_domain_key, is_custom_specialist_dispatch, resolve_specialist_profile,
    _infer_scope. rewrite Hd, H, Ht, !Hk by done. done.
Qed.

Lemma stored_domain p find_gap :
  held_domain (stored_params p find_gap) = held_domain (with_domain (gap_backfilled_domain p find_gap) p).
Proof.
  unfold stored_params. destruct (String.eqb_spec (gap_backfilled_domain p find_gap) EmptyString) as [E|E]; [|done].
  rewrite E. symmetry. apply held_with_blank. revert E. unfold gap_backfilled_domain.
  by destruct (String.eqb_spec (get_text "domain" p) EmptyString) as [->|].
Qed.

Lemma denial_None p db find_gap t :
  specialist_in_flight_denial SPECIALIST_ACTION_NAME p db find_gap = None →
  t ∈ tasks db → live t → held_domain (stored_params p find_gap) ≠ EmptyString →
  task_domain t ≠ held_domain (stored_params p find_gap).
Proof.
  rewrite stored_domain. unfold specialist_in_flight_denial. rewrite String.eqb_refl. simpl.
  set (d := held_domain _). intros H Ht Hl Hne. destruct (String.eqb_spec d EmptyString) as [|_]; [done|].
  destruct (dget d _) eqn:E; [done|]. eapply in_flight_None; [done..|]. by apply elem_of_live.
Qed.

Lemma row_step_domain t t' : row_step t t' → task_domain t' = task_domain t ∧ (live t' → live t).
Proof.
  destruct 1 as [|st now ev Hst| | |]; try done. split; [done|]. intros _. unfold live.
  by destruct (t_state t); simpl in Hst; try (apply not_elem_of_nil in Hst; done); auto.
Qed.

(** How specialists come to the registry: every other operation, none of which adds a specialist that
    holds a domain, and the dispatch that was judged against the tasks of the moment it inserts at. *)
Inductive dispatch_step (db : DB) : DB → Prop :=
| ds_registry db' :
    registry_step db db' →
    (∀ t, t ∈ tasks db' → task_id t ∉ task_id <$> tasks db → task_domain t = EmptyString) →
    dispatch_step db db'
| ds_specialist e provider s p find_gap :
    specialist_in_flight_denial SPECIALIST_ACTION_NAME p db find_gap = None →
    sp_params s = stored_params p find_gap →
    dispatch_step db (create_or_return_existing e provider s db).2.

Lemma exclusive_update (f : task → task) db db' :
  tasks db' = f <$> tasks db → (∀ t, t ∈ tasks db → row_step t (f t)) → domains_exclusive db → domains_exclusive db'.
Proof.
  intros Hts Hf Hex t1 t2. rewrite Hts, !list_elem_of_fmap. intros (u1 & -> & H1) (u2 & -> & H2) L1 L2.
  destruct (row_step_domain _ _ (Hf _ H1)) as [-> G1], (row_step_domain _ _ (Hf _ H2)) as [-> G2].
  rewrite (row_step_id _ _ (Hf _ H1)), (row_step_id _ _ (Hf _ H2)). eauto.
Qed.

Lemma exclusive_insert t db db' :
  tasks db' = tasks db ++ [t] →
  (task_domain t ≠ EmptyString → ∀ u, u ∈ tasks db → live u → task_domain u ≠ task_domain t) →
  domains_exclusive db → domains_exclusive db'.
Proof.
  intros Hts Hnew Hex t1 t2. rewrite Hts, !elem_of_app, !list_elem_of_singleton.
  intros [H1| ->] [H2| ->] L1 L2 Hne Heq; [eauto| | |done].
  - exfalso. by eapply Hnew; [congruence|exact H1|..].
  - exfalso. by eapply Hnew; [congruence|exact H2|..].
Qed.

Lemma dispatch_step_registry db db' : dispatch_step db db' → registry_step db db'.
Proof. by destruct 1; [|constructor]. Qed.

Lemma dispatch_step_exclusive db db' :
  task_inv db → dispatch_step db db' → domains_exclusive db → domains_exclusive db'.
Proof.
  intros Hinv Hs Hex. pose proof (registry_table _ _ (ti_ids _ Hinv) (dispatch_step_registry _ _ Hs)) as Ht.
  destruct Hs as [db' _ Hnew|e provider s p find_gap Hd Hp].
  - destruct Ht as [f Hts Hf|e s hist _ Hts Hid _]; [by eapply exclusive_update|].
    eapply exclusive_insert; [done| |done]. intros Hne. exfalso. apply Hne, Hnew; [|done].
    rewrite Hts. set_solver.
  - destruct (create_or_return_existing e provider s db) as [[[t [|]]|exn] db'] eqn:E; simpl in *.
    + apply create_existing in E as (-> & _). done.
    + apply create_fresh in E as (s' & hist & Hs' & _ & _ & _ & Htt & -> & _).
      eapply exclusive_insert; [done| |done]. intros Hne u Hu Hl.
      assert (params t = stored_params p find_gap) as Hpar.
      { rewrite Htt, <- Hp, Hs'. unfold complete_origin. by repeat case_match. }
      unfold task_domain at 2. unfold task_domain in Hne. destruct (String.eqb (kind t) "specialist"); [|done].
      rewrite Hpar in *. by eapply denial_None.
    + apply create_raises in E as ->. done.
Qed.

(** Invariant.  A catalogue domain has at most one specialist at work: in every session whose
    domain-holding specialists were judged against the tasks of the moment they were created, whatever
    else the registry did before, between and after, two specialists that are queued or running and
    resolve to the same domain are the same task, however their dispatches named it: by key, by tag, by
    anchor or through the gap they cite. *)
Theorem specialist_domain_exclusive db0 db t1 t2 :
  tasks db0 = [] → rtc dispatch_step db0 db →
  t1 ∈ tasks db → t2 ∈ tasks db → live t1 → live t2 →
  task_domain t1 ≠ EmptyString → task_domain t1 = task_domain t2 → t1 = t2.
Proof.
  intros H0 Hs H1 H2 L1 L2 Hne Heq.
  assert (task_inv db ∧ domains_exclusive db) as [Hinv Hex].
  { revert Hs. apply (rtc_ind_r (λ db, task_inv db ∧ domains_exclusive db)).
    - split; [by apply task_inv_init|]. intros u1 u2 Hu. rewrite H0 in Hu. by apply not_elem_of_nil in Hu.
    - intros db1 db2 _ Hstep [Hi Hx]. split; [|by eapply dispatch_step_exclusive].
      eapply task_inv_reachable; [exact Hi|]. by apply rtc_once, dispatch_step_registry. }
  eapply (NoDup_key_inj task_id); [apply (ti_ids _ Hinv)|done|done|by apply Hex].
Qed.

(** ** Witnesses *)

Definition comm_spec : TaskSpec :=
  MkSpec "specialist" [("domain", PStr "comm_specialist")] "spec-1" (Some ["research_lane"]) 1800 (Some "s1") None None.
Definition comm_db : DB := (create_or_return_existing sample_env None comm_spec seeded_db).2.
Definition no_gap (_ : string) : option (list (string * json)) := None.

Example comm_domain_taken :
  map task_domain (tasks comm_db) = ["comm_specialist"] ∧
  map (λ p, bool_decide (specialist_in_flight_denial "specialist" p comm_db no_gap = None))
    [[("domain", PStr "comm_specialist")]; [("tags", PList [PStr "communication"])];
     [("tags", PList [PStr "communication"; PStr "compiler"])]; [("domain", PStr "compiler_specialist")];
     [("task_description", PStr "look")]]
  = [false; false; true; true; true].
Proof. vm_compute. done. Qed.

Lemma specialist_domain_exclusive_witness :
  ∃ t, tasks comm_db = [t] ∧ task_domain t = "comm_specialist" ∧ ∀ t', t' ∈ tasks comm_db → t' = t.
Proof.
  eexists. split; [vm_compute; reflexivity|]. split; [vm_compute; reflexivity|]. intros t' Ht'.
  refine (specialist_domain_exclusive seeded_db comm_db _ _ eq_refl _ Ht' _ _ _ _ _).
  - eapply rtc_once, (ds_specialist _ sample_env None comm_spec [("domain", PStr "comm_specialist")] no_gap);
      vm_compute; reflexivity.
  - vm_compute. left.
  - vm_compute in Ht'. apply list_elem_of_singleton in Ht' as ->. by left.
  - by left.
  - vm_compute in Ht'. apply list_elem_of_singleton in Ht' as ->. vm_compute. discriminate.
  - vm_compute in Ht'. apply list_elem_of_singleton in Ht' as ->. vm_compute. reflexivity.
Defined.
