(* ===== verification/PolicyGate.v ===== *)
(** * The policy gate ([policy/gate.py], [projection.py], [custom_specialist.py], [send_message.py])

    Every intent an agent emits, and every queued row about to run, passes this gate before any side
    effect.  A refusal is the exception [PolicyDenied], kept with its rule and reason (the hint is left
    out).  The gate may fill in the gap a specialist dispatch left out, so validating an intent returns
    the payload as it stands afterwards.

    The file system is an argument: [h_resolve] is [Path(x).resolve()] as the parts below the root, with
    what it raises; [h_declared] the targets a patch file declares, empty when it cannot be read.  So are
    the trace root, the framework checkout the session names and whether a whole-machine lease has a
    card. *)

From stdpp Require Import base list strings pretty sets.
From Stdlib Require Import ZArith Lia Ascii.
From Stdlib Require String.
From S2P Require Import Prelude PyFloat PyVal Store PhaseChain PhaseMachine Protocol Specialists.

(** ** Resource facts ([policy/projection.py]) *)

Definition RULE_ROUND_IN_FLIGHT : string := "enablement_round_in_flight".
Definition RULE_GPU_POOL_DISABLED : string := "specialist_gpu_pool_disabled".
Definition RULE_GPU_EXCEEDS_CAPACITY : string := "specialist_gpu_request_exceeds_capacity".
Definition RULE_LEASE_NOT_LIVE : string := "extend_lease_task_not_live".

Record ResourceFacts := MkFacts {
  f_read : bool;
  excluding_round_id : string;
  excluding_round_holder : string;
  serving_tp : Z;
  gpu_specialist_capacity : Z;
  gpu_specialist_pool : Z;
  whole_machine_pool : Z;
  live_task_ids : option (list string)
}.

(** The facts before anything was read. *)
Definition unread_facts : ResourceFacts := MkFacts false EmptyString EmptyString 0 0 0 0 None.

Definition gpu_specialist_ceiling (capacity : Z) : Z := Z.max 0 capacity.
Definition serving_tp_for_policy (tp : Z) : Z := Z.max 0 tp.

(** [resolve_gpu_specialist_devices] for a capacity and a TP, as the cards it gives. *)
Definition effective_gpu_specialist_pool_size (devices : Z → Z → list Z) (capacity tp : Z) : Z :=
  let ceiling := gpu_specialist_ceiling capacity in
  if (ceiling <=? 0)%Z then 0%Z else Z.of_nat (length (devices ceiling (serving_tp_for_policy tp))).
Definition whole_machine_pool_size (devices : list Z) : Z := Z.of_nat (length devices).

Definition round_excludes (f : ResourceFacts) : bool := negb (String.eqb (excluding_round_id f) EmptyString).

(** [ResourceFacts.update]: the first open round is the one reported. *)
Definition update_facts (capacity tp : Z) (specialist_devices : Z → Z → list Z) (machine_devices : list Z)
    (rounds : list round) (live : option (list string)) : ResourceFacts :=
  let excluding := head rounds in
  MkFacts true
    (match excluding with Some r => round_id r | None => EmptyString end)
    (match excluding with Some r => holder_task_id r | None => EmptyString end)
    (serving_tp_for_policy tp) (gpu_specialist_ceiling capacity)
    (effective_gpu_specialist_pool_size specialist_devices capacity tp)
    (whole_machine_pool_size machine_devices) live.

(** ** Static configuration *)

Definition INTEGRATE_PATCH_ACTION_NAME : string := "integrate_patch".
Definition GEMM_TUNING_ACTION_NAME : string := "gemm_tuning".
Definition BASELINE_ACTION_NAME : string := "baseline".
Definition INTEGRATE_PATCH_PERMISSIVE_VERDICTS : list string := ["approve"; "advise"].
Definition SPECIALIST_DISPATCH_SOURCE_ALLOWLIST : list string := ["orchestration"].
Definition SPECIALIST_FREEFORM_WAVE_MAX : nat := 16.
Definition SPECIALIST_FREEFORM_TASK_DESC_MAX_CHARS : N := 8000.
Definition SPECIALIST_MAX_TURNS_HARD_CAP : Z := 1000.
Definition PR_MONITOR_TOOL_NAMES : list string :=
  ["mcp__pr_monitor__pr_repos_list"; "mcp__pr_monitor__pr_repo_stats"; "mcp__pr_monitor__pr_list";
   "mcp__pr_monitor__pr_get"; "mcp__pr_monitor__pr_files"; "mcp__pr_monitor__pr_file_patch";
   "mcp__pr_monitor__pr_patches"; "mcp__pr_monitor__pr_blob"; "mcp__pr_monitor__pr_commit_files";
   "mcp__pr_monitor__pr_commit_file"; "mcp__pr_monitor__pr_pr_file_baseline"; "mcp__pr_monitor__pr_search"].
Definition WEB_TOOL_NAMES : list string := ["WebSearch"; "WebFetch"].
Definition REQUEST_ROUTING : list (string * list string) := [("orchestration", ["kernel_agent"])].
Definition COORDINATOR_OWNED_KERNEL_REQUEST_KINDS : list string := ["run_fusion"; "run_gemm_tuning"].
Definition REVIEW_VERDICT_SOURCE_ALLOWLIST : list string := ["critic"].
Definition PRUNE_BRANCH_SCOPE_FAMILY : string := "family".
Definition PRUNE_BRANCH_SCOPE_QUEUED : string := "queued".
Definition PRUNE_BRANCH_ALLOWED_SCOPES : list string := [PRUNE_BRANCH_SCOPE_FAMILY; PRUNE_BRANCH_SCOPE_QUEUED].
Definition PATH_LIKE_FIELDS : list string :=
  ["trace_input"; "candidates_path"; "patch_path"; "target_file"; "resolved_patch_targets"; "config_path";
   "output_dir"; "workspace"; "workspace_path"; "trace_dir"; "main_trace_path"; "report_path"; "json_path";
   "md_path"; "session_dir"; "manifest_path"].
Definition SOURCE_LIKE_FIELDS : list string := ["source_file"; "framework_source_root"].
Definition TRACE_PATH_LIKE_FIELDS : list string := ["trace_dir"; "main_trace_path"; "trace_input"].
Definition _WARM_REPLAY_ACTION : string := "replay_warm_recipe".
Definition _REMOTE_RECIPE_FILES_PARTS : list string := ["runtime"; "remote_recipe"; "files"].
Definition CUSTOM_ONLY_DENIED_ACTIONS : list string := ["specialist"; "explore"; "integrate_patch"].
Definition _FRAMEWORK_AGENT_PHASE : string := "FRAMEWORK_AGENT".

(** The registered frameworks ([framework_registry.py]). *)
Definition FRAMEWORKS : list string := ["sglang"; "vllm"; "atom"; "xdit"; "custom"].
Definition GAP_SEVERITY_RANK : list (string * Z) := [("high", 3); ("medium", 2); ("low", 1)]%Z.

(** ** State *)

(** A resolved path: its parts below the root. *)
Abbreviation path := (list string).

Definition path_str (p : path) : string := "/" +:+ String.concat "/" p.
(** [v == r or v.is_relative_to(r)] *)
Definition within (v r : path) : bool := bool_decide (r `prefix_of` v).

Record host := MkHost {
  h_resolve : string → res path;
  h_declared : path → list string;
  h_trace_root : string;
  h_framework_root : string;
  h_whole_machine : bool
}.

(** What the gate reads of the shared state. *)
Record gate_state (F : Type) := MkGateState {
  g_phase : string;
  custom_specialist_only : bool;
  specialist_patch_verdicts : list (string * string);
  g_gaps : list (pyval F)
}.
Arguments MkGateState {F} _ _ _ _.
Arguments g_phase {F} _.
Arguments custom_specialist_only {F} _.
Arguments specialist_patch_verdicts {F} _.
Arguments g_gaps {F} _.

Record PolicyGate (F : Type) := MkGate {
  role_registry : list (string * AgentRole);
  session_dir : option string;
  shared_state : option (gate_state F);
  resources : ResourceFacts
}.
Arguments MkGate {F} _ _ _ _.
Arguments role_registry {F} _.
Arguments session_dir {F} _.
Arguments shared_state {F} _.
Arguments resources {F} _.

Definition deny {A} (rule reason : string) : res A := Raise (PolicyDenied rule reason).
Definition deny_if (b : bool) (rule reason : string) : res unit := raise_if b (PolicyDenied rule reason).

(** [try: m except (...): return None] *)
Definition catching {A} (caught : exn → bool) (m : res A) : res (option A) :=
  match m with
  | Ok a => Ok (Some a)
  | Raise e => if caught e then Ok None else Raise e
  end.
Definition os_or_runtime (e : exn) : bool := match e with OSError _ | RuntimeError _ => true | _ => false end.
Definition os_runtime_or_value (e : exn) : bool :=
  match e with OSError _ | RuntimeError _ | ValueError _ => true | _ => false end.
Definition type_or_value (e : exn) : bool := match e with TypeError _ | ValueError _ => true | _ => false end.

(** [s.rstrip("/")] *)
Fixpoint drop_slash (l : list Ascii.ascii) : list Ascii.ascii :=
  match l with
  | c :: l' => if bool_decide (c = "/"%char) then drop_slash l' else l
  | [] => []
  end.
Definition rstrip_slash (s : string) : string := of_chars (reverse (drop_slash (reverse (chars s)))).

(** ** Guards *)

Section gate.
Context {F : Type} `{!FloatOps F}.
Context (h : host).
Implicit Types (g : PolicyGate F) (p params payload gap : pydict F) (v : pyval F) (role : AgentRole).

(** [str(payload.get(k, "")).strip()] *)
Definition raw_text (k : string) payload : string :=
  match dget k payload with Some v => py_strip (py_str v) | None => EmptyString end.

Definition is_blank (s : string) : bool := String.eqb s EmptyString.

(** *** Paths *)

Definition resolved_within (value root : string) : res bool :=
  r ← catching os_or_runtime (v ← h_resolve h value; r ← h_resolve h root; Ok (within v r));
  Ok (default false r).

Definition _trace_path_allowlist : list string := [rstrip_slash (h_trace_root h) +:+ "/"].

Definition _path_under_session g (value : string) : res bool :=
  match session_dir g with
  | None => Raise (AttributeError "resolve")
  | Some dir =>
      r ← catching os_or_runtime (sd ← h_resolve h dir; v ← h_resolve h value; Ok (within v sd));
      Ok (default false r)
  end.

(** [any(resolved_within(value, p) for p in ...)] over the one root. *)
Definition _path_in_trace_allowlist (value : string) : res bool :=
  resolved_within value (rstrip_slash (h_trace_root h) +:+ "/").

Definition _remote_recipe_files_root g : res (option path) :=
  match session_dir g with
  | None => Raise (AttributeError "resolve")
  | Some dir => catching os_or_runtime (sd ← h_resolve h dir; Ok (sd ++ _REMOTE_RECIPE_FILES_PARTS))
  end.

Definition _framework_relative_candidates (target_file : string) : res (list string) :=
  if is_blank (h_framework_root h) then Ok []
  else
    r ← catching os_runtime_or_value
          (target ← h_resolve h target_file;
           root ← h_resolve h (h_framework_root h);
           if within target root then Ok (drop (length root) target)
           else Raise (ValueError "is not in the subpath"));
    Ok (match r with
        | None | Some [] => []
        | Some rest => [String.concat "/" rest]
        end).

Definition _check_payload_path g (role : AgentRole) (intent_type : IntentType) (trusted : list path)
    (key node : string) : res unit :=
  under ← _path_under_session g node;
  if (under : bool) then Ok ()
  else
    resolved ← (if bool_decide (key ∈ ["target_file"; "resolved_patch_targets"]) && negb (bool_decide (trusted = []))
                then catching os_or_runtime (h_resolve h node) else Ok None);
    let is_trusted := match resolved with Some r => bool_decide (r ∈ trusted) | None => false end in
    if is_trusted then Ok ()
    else
      traced ← (if bool_decide (key ∈ TRACE_PATH_LIKE_FIELDS) then _path_in_trace_allowlist node else Ok false);
      if (traced : bool) then Ok ()
      else deny "path_outside_session_dir"
             ("role=" +:+ repr_str (role_name role) +:+ " " +:+ intent_value intent_type +:+ " payload field "
                +:+ repr_str key +:+ "=" +:+ repr_str node +:+ " escapes session_dir="
                +:+ default "None" (session_dir g)).

(** The recursive walk: [key] is the dict key above the node, lists being transparent. *)
Fixpoint visit (check : string → string → res unit) (key : string) (node : pyval F) : res unit :=
  match node with
  | PDict d => for_each (λ kv, visit check kv.1 kv.2) d
  | PList l => for_each (visit check key) l
  | PStr s =>
      if is_blank (py_strip s) then Ok ()
      else if bool_decide (key ∈ SOURCE_LIKE_FIELDS) then Ok ()
      else if negb (bool_decide (key ∈ PATH_LIKE_FIELDS)) then Ok ()
      else check key s
  | _ => Ok ()
  end.

Definition _validate_payload_paths g role intent_type payload (trusted : list path) : res unit :=
  match session_dir g with
  | None => Ok ()
  | Some _ => visit (_check_payload_path g role intent_type trusted) EmptyString (PDict payload)
  end.

(** *** Rules on action names *)

Definition custom_only_framework (s : option (gate_state F)) : bool :=
  match s with
  | None => false
  | Some s => custom_specialist_only s && String.eqb (norm_phase (g_phase s)) _FRAMEWORK_AGENT_PHASE
  end.

Definition skips_reactor_turn (agent_name : string) (s : option (gate_state F)) : bool :=
  String.eqb agent_name "orchestration" && custom_only_framework s.

Definition deny_search_under_custom_only (s : option (gate_state F)) (action_name : string) : res unit :=
  deny_if (bool_decide (action_name ∈ CUSTOM_ONLY_DENIED_ACTIONS) && custom_only_framework s)
    "custom_specialist_only"
    (repr_str action_name +:+ ": custom-specialist-only mode runs FRAMEWORK_AGENT on the custom specialist alone").

Definition deny_coordinator_dispatched_delegate params : res unit :=
  _ ← deny_if (is_custom_specialist_dispatch params) "specialist_custom_coordinator_owned"
        "delegate{action='specialist'}: custom_specialist is dispatched by the Coordinator, not delegated";
  match get_domain (get_str "domain" params) with
  | Some d =>
      deny_if (negb (d_llm_selectable d)) "specialist_domain_coordinator_dispatched"
        ("delegate{action='specialist'}: " +:+ d_key d +:+ " is dispatched by the Coordinator, not delegated")
  | None => Ok ()
  end.

Definition _validate_coordinator_managed_action (action_name intent_kind : string) : res unit :=
  deny_if (bool_decide (action_name ∈ COORDINATOR_INTERNAL_ACTIONS)) "coordinator_managed_action"
    ("action " +:+ repr_str action_name +:+ " is Coordinator-managed and not LLM-proposable (" +:+ intent_kind +:+ ")").

Definition _validate_baseline_not_mid_round g (action_name task_id : string) : res unit :=
  if negb (String.eqb action_name BASELINE_ACTION_NAME) then Ok ()
  else
    let facts := resources g in
    deny_if (round_excludes facts &&
             negb (negb (is_blank task_id) && String.eqb task_id (excluding_round_holder facts)))
      RULE_ROUND_IN_FLIGHT
      ("baseline: bring-up round " +:+ repr_str (excluding_round_id facts) +:+ " (holder="
         +:+ repr_str (excluding_round_holder facts) +:+ ") holds the machine while its lease is live").

Definition _validate_gemm_tuning_action (action_name intent_kind : string) : res unit :=
  deny_if (String.eqb action_name GEMM_TUNING_ACTION_NAME) "phase_incompatible"
    (repr_str action_name +:+ " is a Coordinator-owned kernel lane and not model-requestable (" +:+ intent_kind +:+ ")").

Definition _validate_tool_whitelist_collision (role_nm action_name : string) : res unit :=
  deny_if (bool_decide (action_name ∈ PR_MONITOR_TOOL_NAMES ++ WEB_TOOL_NAMES)) "tool_whitelist_role"
    ("role=" +:+ repr_str role_nm +:+ " cannot invoke tool " +:+ repr_str action_name).

(** *** The Critic's gate on patches *)

(** [verdict_subject] of [framework_arm.py]. *)
Definition verdict_subject params : string :=
  let sid := get_text "specialist_task_id" params in
  if is_blank sid then get_text "framework_agent_candidate_id" params else sid.

Definition record_specialist_patch_verdict (s : gate_state F) (subject verdict : string) : gate_state F :=
  let sid := py_strip subject in
  if is_blank sid then s
  else MkGateState (g_phase s) (custom_specialist_only s)
         (dset sid (py_lower (py_strip verdict)) (specialist_patch_verdicts s)) (g_gaps s).
Definition get_specialist_patch_verdict (s : gate_state F) (subject : string) : string :=
  let sid := py_strip subject in
  if is_blank sid then EmptyString else default EmptyString (dget sid (specialist_patch_verdicts s)).

Definition _validate_integrate_patch_critic_gate g payload : res unit :=
  let rule := "integrate_patch_requires_critic_verdict" in
  let raw := dget_or_none "params" payload in
  match (if truthy raw then raw else PDict []) with
  | PDict params =>
      if get_bool "enablement_launch_only" params then Ok ()
      else
        let sid := verdict_subject params in
        _ ← deny_if (is_blank sid) rule "integrate_patch.params names no Critic review subject";
        let verdict := match shared_state g with
                       | Some s => get_specialist_patch_verdict s sid
                       | None => EmptyString
                       end in
        _ ← deny_if (is_blank verdict) rule
              ("integrate_patch: no Critic verdict on record for subject=" +:+ repr_str sid);
        deny_if (negb (bool_decide (py_lower verdict ∈ INTEGRATE_PATCH_PERMISSIVE_VERDICTS))) rule
          ("integrate_patch: Critic verdict for subject " +:+ repr_str sid +:+ " is " +:+ repr_str verdict
             +:+ "; integrate_patch only runs on "
             +:+ repr_names (F := F) (py_sorted INTEGRATE_PATCH_PERMISSIVE_VERDICTS))
  | _ => deny rule "integrate_patch: params must be a dict"
  end.

(** *** Specialist dispatch *)

Definition is_supported v : bool :=
  bool_decide (py_lower (py_strip (if truthy v then py_str v else EmptyString)) ∈ FRAMEWORKS).

Definition _validate_specialist_framework params : res unit :=
  match dget "framework" params with
  | Some v =>
      deny_if (negb (is_supported v)) "specialist_framework_unregistered"
        ("delegate{action='specialist'}: params.framework=" +:+ py_repr v +:+ " is not a registered framework")
  | None => Ok ()
  end.

(** [int(v)], an [OverflowError] not being caught. *)
Definition validate_specialist_max_turns_raw v (where_ : string) : res unit :=
  match v with
  | PNone => Ok ()
  | _ =>
      r ← catching type_or_value (py_int v);
      let rule := "specialist_dispatch_source" in
      match r with
      | None => deny rule ("delegate{action='specialist'}: " +:+ where_ +:+ " max_turns must be int, got " +:+ py_repr v)
      | Some n =>
          _ ← deny_if (n <? 0)%Z rule
                ("delegate{action='specialist'}: " +:+ where_ +:+ " max_turns=" +:+ pretty n +:+ " must be >= 0");
          deny_if (SPECIALIST_MAX_TURNS_HARD_CAP <? n)%Z rule
            ("delegate{action='specialist'}: " +:+ where_ +:+ " max_turns=" +:+ pretty n
               +:+ " exceeds the hard cap " +:+ pretty SPECIALIST_MAX_TURNS_HARD_CAP)
      end
  end.

(** The count a GPU request comes to, before the pool is looked at. *)
Definition default_gpu_count (facts : ResourceFacts) params : Z :=
  if uses_whole_machine_gpu_lane params && (serving_tp facts =? 0)%Z
  then (if (whole_machine_pool facts =? 0)%Z then 1 else whole_machine_pool facts)
  else (if (serving_tp facts =? 0)%Z then 1 else serving_tp facts).
Definition requested_gpu_count (facts : ResourceFacts) params : res Z :=
  let dflt := default_gpu_count facts params in
  let raw := match dget "gpu_count" params with
             | None | Some PNone => PInt dflt
             | Some (PStr s) => if is_blank (py_strip s) then PInt dflt else PStr s
             | Some v => v
             end in
  r ← catching type_or_value (py_int raw);
  Ok (default dflt r).

Definition _validate_specialist_gpu_request g params : res unit :=
  if negb (requires_gpu (h_whole_machine h) params) then Ok ()
  else
    let facts := resources g in
    let reserves_bench_lane := reserves_benchmark_lane (resolve_specialist_profile params None) in
    let whole_machine := uses_whole_machine_gpu_lane params in
    asked ← requested_gpu_count facts params;
    _ ← deny_if (asked <=? 0)%Z "specialist_gpu_request_invalid"
          "delegate{action='specialist'}: gpu_count must be > 0 when needs_gpu=true";
    let gpu_count := if reserves_bench_lane && (asked <? serving_tp facts)%Z then serving_tp facts else asked in
    if negb (f_read facts) then Ok ()
    else
      _ ← deny_if ((gpu_specialist_capacity facts <=? 0)%Z && negb (whole_machine && (0 <? whole_machine_pool facts)%Z))
            RULE_GPU_POOL_DISABLED
            "delegate{action='specialist'}: needs_gpu=true but the GPU specialist pool is disabled";
      let pool_size := if whole_machine then whole_machine_pool facts else gpu_specialist_pool facts in
      let pool_desc := if whole_machine then "whole-machine GPU pool" else "serving-disjoint GPU specialist pool" in
      deny_if (pool_size <? gpu_count)%Z RULE_GPU_EXCEEDS_CAPACITY
        ("delegate{action='specialist'}: effective gpu_count=" +:+ pretty gpu_count +:+ " exceeds " +:+ pool_desc
           +:+ " size=" +:+ pretty pool_size +:+ " (configured capacity=" +:+ pretty (gpu_specialist_capacity facts)
           +:+ ", serving_tp=" +:+ pretty (serving_tp facts) +:+ ")").

(** *** The gap ledger *)

Definition gap_key : Type := Z * Z * string.
(** [len(x)] of a JSON value. *)
Definition py_len v : res Z :=
  match v with
  | PList l => Ok (Z.of_nat (length l))
  | PDict d => Ok (Z.of_nat (length d))
  | PStr s => Ok (Z.of_nat (String.length s))
  | _ => Raise (TypeError "object has no len()")
  end.
Definition gap_actionability_key gap : res gap_key :=
  let severity := default 0%Z (dget (py_lower (get_str "severity" gap)) GAP_SEVERITY_RANK) in
  let attempts := dget_or_none "attempts" gap in
  n ← py_len (if truthy attempts then attempts else PList []);
  Ok ((- severity)%Z, n, get_str "first_seen_ts" gap).
Definition gap_key_leb (a b : gap_key * pydict F) : bool :=
  let '((s1, n1, t1), _) := a in
  let '((s2, n2, t2), _) := b in
  (s1 <? s2)%Z || ((s1 =? s2)%Z && ((n1 <? n2)%Z || ((n1 =? n2)%Z && String.leb t1 t2))).

(** The names a gap's [domain_hint] may spell the dispatch's anchor by. *)
Definition gap_candidates params (tags : list string) : list string :=
  let domain_key := get_text "domain" params in
  let anchor_of d := if is_blank (d_kb_anchor d) then [] else [py_lower (d_kb_anchor d)] in
  let of_domain := if is_blank domain_key then []
                   else py_lower domain_key :: match get_domain domain_key with Some d => anchor_of d | None => [] end in
  of_domain ++
  (tags ≫= λ t, (let t_l := py_lower (py_strip t) in if is_blank t_l then [] else [t_l]) ++
                match domain_for_tag t with Some d => py_lower (d_key d) :: anchor_of d | None => [] end).

Definition gap_matches (candidates : list string) (x : pyval F) : option (pydict F) :=
  match x with
  | PDict gap =>
      if negb (is_blank (get_text "canonical_id" gap)) && bool_decide (py_lower (get_text "domain_hint" gap) ∈ candidates)
      then Some gap else None
  | _ => None
  end.

Definition ledger_matches g params (tags : list string) : list (pydict F) :=
  let gaps := match shared_state g with Some s => g_gaps s | None => [] end in
  let candidates := gap_candidates params tags in
  if bool_decide (candidates = []) then [] else omap (gap_matches candidates) gaps.

(** The id chosen and the parameters it was written into; no id leaves them alone. *)
Definition _autofill_gap_from_ledger g params (tags : list string) : res (string * pydict F) :=
  keyed ← map_res (λ gap, k ← gap_actionability_key gap; Ok (k, gap)) (ledger_matches g params tags);
  Ok (match sort_by gap_key_leb keyed with
      | [] => (EmptyString, params)
      | (_, gap) :: _ => let chosen := get_text "canonical_id" gap in
                         (chosen, dset "gap_canonical_id" (PStr chosen) params)
      end).

(** *** Free-form dispatch *)

Definition _check_freeform_task_description (desc where_ : string) : res unit :=
  _ ← deny_if (is_blank desc) "specialist_freeform_empty_description"
        ("delegate{action='specialist',scope='freeform'}: " +:+ where_ +:+ " task_description must be non-empty");
  deny_if (SPECIALIST_FREEFORM_TASK_DESC_MAX_CHARS <? N.of_nat (String.length desc))%N
    "specialist_freeform_description_too_long"
    ("delegate{action='specialist',scope='freeform'}: " +:+ where_ +:+ " task_description is "
       +:+ pretty (String.length desc) +:+ " chars > cap " +:+ pretty SPECIALIST_FREEFORM_TASK_DESC_MAX_CHARS).

Definition validate_freeform_wave_task (task : pyval F) (index : nat) : res string :=
  match task with
  | PDict d =>
      let named := get_str "task_description" d in
      let desc := py_strip (if is_blank named then get_str "task_summary" d else named) in
      _ ← _check_freeform_task_description desc ("tasks[" +:+ pretty index +:+ "]");
      Ok desc
  | _ => deny "specialist_freeform_wave_invalid_task"
           ("delegate{action='specialist',scope='freeform'}: tasks[" +:+ pretty index +:+ "] must be a dict")
  end.

Fixpoint validate_wave (i : nat) (wave : list (pyval F)) : res unit :=
  match wave with
  | [] => Ok ()
  | task :: wave' =>
      _ ← validate_freeform_wave_task task i;
      _ ← match task with
          | PDict d => validate_specialist_max_turns_raw (dget_or_none "max_turns" d)
                         ("tasks[" +:+ pretty i +:+ "].max_turns")
          | _ => Ok ()
          end;
      validate_wave (S i) wave'
  end.

Definition _validate_freeform_specialist_dispatch g params : res unit :=
  _ ← validate_specialist_max_turns_raw (dget_or_none "max_turns" params) "params.max_turns";
  _ ← _validate_specialist_gpu_request g params;
  match dget_or_none "tasks" params with
  | PList ((_ :: _) as wave) =>
      _ ← deny_if (SPECIALIST_FREEFORM_WAVE_MAX <? length wave)%nat "specialist_freeform_wave_too_large"
            ("delegate{action='specialist',scope='freeform'}: wave size=" +:+ pretty (length wave) +:+ " exceeds cap "
               +:+ pretty SPECIALIST_FREEFORM_WAVE_MAX);
      validate_wave 0 wave
  | _ => _check_freeform_task_description (get_text "task_description" params) "params"
  end.

(** The gap a dispatch names. *)
Definition cited_gap params : string :=
  let cited := get_str "gap_canonical_id" params in
  py_strip (if is_blank cited then get_str "gap" params else cited).

(** The parameters as the validation leaves them. *)
Definition _validate_specialist_dispatch g role payload : res (pydict F) :=
  let rule := "specialist_dispatch_source" in
  _ ← deny_if (negb (bool_decide (role_name role ∈ SPECIALIST_DISPATCH_SOURCE_ALLOWLIST))) rule
        ("role=" +:+ repr_str (role_name role) +:+ " cannot dispatch specialists (allowed: "
           +:+ repr_names (F := F) SPECIALIST_DISPATCH_SOURCE_ALLOWLIST +:+ ")");
  let raw := dget_or_none "params" payload in
  match (if truthy raw then raw else PDict []) with
  | PDict params =>
      _ ← _validate_specialist_framework params;
      let scope_raw := py_lower (get_text "scope" params) in
      let tags := normalize_dispatch_tags params in
      if String.eqb scope_raw SCOPE_FREEFORM || (is_blank scope_raw && bool_decide (tags = [])) then
        _ ← _validate_freeform_specialist_dispatch g params;
        Ok params
      else
        let gap := cited_gap params in
        filled ← (if is_blank gap then _autofill_gap_from_ledger g params tags else Ok (gap, params));
        let '(gap, params) := filled in
        _ ← deny_if (is_blank gap) rule "delegate{action='specialist'}: params.gap_canonical_id required";
        _ ← validate_specialist_max_turns_raw (dget_or_none "max_turns" params) "params.max_turns";
        _ ← _validate_specialist_gpu_request g params;
        Ok params
  | _ => deny rule "delegate{action='specialist'}: params must be a dict"
  end.

(** ** Validators per intent *)

(** Returns the payload as the validation leaves it. *)
Definition _validate_delegate g role payload (check_source : bool) (task_id : string) : res (pydict F) :=
  _ ← deny_if (negb (can_delegate_side_effects role)) "role"
        ("role=" +:+ repr_str (role_name role) +:+ " cannot delegate side-effecting actions");
  let action_name := raw_text "action_name" payload in
  _ ← deny_if (is_blank action_name) "payload" "delegate intent missing action_name";
  _ ← (if check_source then deny_search_under_custom_only (shared_state g) action_name else Ok ());
  if String.eqb action_name SPECIALIST_ACTION_NAME then
    _ ← match check_source, dget_or_none "params" payload with
        | true, PDict params => deny_coordinator_dispatched_delegate params
        | _, _ => Ok ()
        end;
    params ← _validate_specialist_dispatch g role payload;
    Ok (match dget "params" payload with
        | Some (PDict (_ :: _)) => dset "params" (PDict params) payload
        | _ => payload
        end)
  else
    _ ← (if String.eqb action_name INTEGRATE_PATCH_ACTION_NAME
         then _validate_integrate_patch_critic_gate g payload else Ok ());
    _ ← _validate_baseline_not_mid_round g action_name task_id;
    _ ← _validate_gemm_tuning_action action_name "delegate";
    _ ← (if check_source then _validate_coordinator_managed_action action_name "delegate" else Ok ());
    _ ← _validate_tool_whitelist_collision (role_name role) action_name;
    Ok payload.

Definition _validate_propose_action g role payload : res unit :=
  let action_name := raw_text "action_name" payload in
  _ ← deny_if (is_blank action_name) "payload" "propose_action missing action_name";
  _ ← deny_search_under_custom_only (shared_state g) action_name;
  _ ← _validate_coordinator_managed_action action_name "propose_action";
  _ ← _validate_baseline_not_mid_round g action_name EmptyString;
  _ ← _validate_gemm_tuning_action action_name "propose_action";
  _validate_tool_whitelist_collision (role_name role) action_name.

Definition _validate_request role payload : res unit :=
  let targets := default [] (dget (role_name role) REQUEST_ROUTING) in
  _ ← deny_if (bool_decide (targets = [])) "request_role"
        ("role=" +:+ repr_str (role_name role) +:+ " cannot emit REQUEST");
  let target := raw_text "target_agent" payload in
  _ ← deny_if (is_blank target) "payload" "request missing target_agent";
  _ ← deny_if (negb (bool_decide (target ∈ targets))) "request_target"
        ("role=" +:+ repr_str (role_name role) +:+ " cannot request target_agent=" +:+ repr_str target
           +:+ " (allowed: " +:+ repr_names (F := F) (py_sorted targets) +:+ ")");
  let kind := raw_text "kind" payload in
  _ ← deny_if (is_blank kind) "payload" "request missing kind";
  _ ← deny_if (bool_decide (kind ∈ COORDINATOR_OWNED_KERNEL_REQUEST_KINDS)) "request_kind"
        ("request kind " +:+ repr_str kind +:+ " is a Coordinator-owned kernel lane and not LLM-requestable");
  _ ← _validate_gemm_tuning_action kind "request";
  _validate_tool_whitelist_collision (role_name role) kind.

(** One entry of a verdict map: [(entry or {}).get("verdict") or ""]. *)
Definition check_map_verdict (kv : string * pyval F) : res unit :=
  let '(vname, entry) := kv in
  match (if truthy entry then entry else PDict []) with
  | PDict e =>
      let v := get_text "verdict" e in
      deny_if (negb (bool_decide (v ∈ ALLOWED_VERDICTS))) "payload"
        ("review_verdict.verdict_map[" +:+ repr_str vname +:+ "].verdict=" +:+ repr_str v +:+ " not in allowed set "
           +:+ repr_names (F := F) (py_sorted ALLOWED_VERDICTS))
  | _ => Raise (AttributeError "get")
  end.

Definition _validate_review_verdict role payload : res unit :=
  _ ← deny_if (negb (bool_decide (role_name role ∈ REVIEW_VERDICT_SOURCE_ALLOWLIST))) "review_verdict_source"
        ("role=" +:+ repr_str (role_name role) +:+ " cannot emit review_verdict (allowed: "
           +:+ repr_names (F := F) REVIEW_VERDICT_SOURCE_ALLOWLIST +:+ ")");
  _ ← deny_if (is_blank (raw_text "target_proposal_msg_id" payload)) "payload"
        "review_verdict missing target_proposal_msg_id";
  let has_single := din "verdict" payload in
  let verdict_map := match dget_or_none "verdict_map" payload with PDict vm => vm | _ => [] end in
  let has_map := negb (bool_decide (verdict_map = [])) in
  _ ← deny_if (Bool.eqb has_single has_map) "payload"
        "review_verdict: exactly one of 'verdict' or 'verdict_map' must be present";
  if has_single then
    let verdict := raw_text "verdict" payload in
    deny_if (negb (bool_decide (verdict ∈ ALLOWED_VERDICTS))) "payload"
      ("review_verdict.verdict=" +:+ repr_str verdict +:+ " not in allowed set "
         +:+ repr_names (F := F) (py_sorted ALLOWED_VERDICTS))
  else for_each check_map_verdict verdict_map.

Definition _names_recipients (to : pyval F) : bool :=
  let names := match to with PList l => l | v => [v] end in
  negb (bool_decide (names = [])) && forallb nonblank names.

Definition deny_malformed_send_message payload : res unit :=
  _ ← deny_if (is_blank (raw_text "topic" payload)) "payload" "send_message missing topic";
  let to := dget_or_none "to" payload in
  deny_if (negb (is_none to) && negb (_names_recipients to)) "payload"
    ("send_message to must be a non-empty string or a non-empty list of them, got " +:+ py_repr to).

Definition _validate_extend_lease g payload : res unit :=
  let task_id := raw_text "task_id" payload in
  _ ← deny_if (is_blank task_id) "payload" "extend_lease missing task_id";
  r ← catching type_or_value (get_int "extra_sec" payload);
  match r with
  | None => deny "payload" ("extend_lease extra_sec must be an integer, got " +:+ py_repr (dget_or_none "extra_sec" payload))
  | Some extra_sec =>
      _ ← deny_if ((extra_sec <=? 0) || (EXTEND_LEASE_MAX_SEC <? extra_sec))%Z "extend_lease_bounds"
            ("extend_lease extra_sec=" +:+ pretty extra_sec +:+ " outside (0, " +:+ pretty EXTEND_LEASE_MAX_SEC +:+ "]");
      deny_if (match live_task_ids (resources g) with
               | None => false
               | Some live => negb (bool_decide (task_id ∈ live))
               end) RULE_LEASE_NOT_LIVE
        ("extend_lease: task " +:+ repr_str task_id +:+ " was not running when the resource facts were read")
  end.

Definition _validate_prune_branch payload : res unit :=
  _ ← deny_if (is_blank (raw_text "family" payload)) "payload" "prune_branch missing family";
  let named := get_str "scope" payload in
  let scope := py_strip (if is_blank named then PRUNE_BRANCH_SCOPE_FAMILY else named) in
  deny_if (negb (bool_decide (scope ∈ PRUNE_BRANCH_ALLOWED_SCOPES))) "prune_scope"
    ("prune_branch scope=" +:+ repr_str scope +:+ " not allowed (allowed: "
       +:+ repr_names (F := F) (py_sorted PRUNE_BRANCH_ALLOWED_SCOPES) +:+ ")").

(** *** Warm replay *)

Definition _warm_plan_entry_targets (entry : pyval F) (index : nat) : res (list string) :=
  match entry with
  | PDict e =>
      let raw := dget_or_none "resolved_patch_targets" e in
      if negb (truthy raw) then Ok []
      else match raw with
           | PList l =>
               if forallb nonblank l then Ok (omap as_str l)
               else deny "warm_replay_plan_invalid"
                      ("replay_warm_recipe warm_kernel_plan[" +:+ pretty index
                         +:+ "].resolved_patch_targets must be a flat non-empty string list")
           | _ => deny "warm_replay_plan_invalid"
                    ("replay_warm_recipe warm_kernel_plan[" +:+ pretty index
                       +:+ "].resolved_patch_targets must be a flat non-empty string list")
           end
  | _ => deny "warm_replay_plan_invalid"
           ("replay_warm_recipe warm_kernel_plan[" +:+ pretty index +:+ "] must be an object")
  end.

Definition _warm_replay_patch_key g (raw_patch : pyval F) (raw_targets : list string) : res path :=
  match raw_patch with
  | PStr patch =>
      if is_blank (py_strip patch) then
        deny "warm_replay_patch_missing"
          ("replay_warm_recipe resolved_patch_targets=" +:+ repr_names (F := F) raw_targets +:+ " has no patch_path")
      else
        kb_root ← _remote_recipe_files_root g;
        inside ← match kb_root with Some r => resolved_within patch (path_str r) | None => Ok false end;
        _ ← deny_if (negb inside) "warm_replay_patch_outside_kb_download"
              ("replay_warm_recipe patch_path=" +:+ repr_str patch +:+ " is outside the session KB download root="
                 +:+ match kb_root with Some r => path_str r | None => "None" end);
        key ← catching os_or_runtime (h_resolve h patch);
        match key with
        | Some k => Ok k
        | None => deny "warm_replay_patch_outside_kb_download"
                    ("replay_warm_recipe patch_path=" +:+ repr_str patch +:+ " cannot be resolved")
        end
  | _ => deny "warm_replay_patch_missing"
           ("replay_warm_recipe resolved_patch_targets=" +:+ repr_names (F := F) raw_targets +:+ " has no patch_path")
  end.

(** One target of a patch that declares [declared]: the names it covers and its resolved path. *)
Definition check_warm_target (declared : list string) (raw_target : string) : res (list string * path) :=
  inside ← (if is_blank (h_framework_root h) then Ok false else resolved_within raw_target (h_framework_root h));
  _ ← deny_if (negb inside) "warm_replay_target_outside_framework_roots"
        ("replay_warm_recipe target_file=" +:+ repr_str raw_target +:+ " is outside the Session active framework root");
  target_candidates ← _framework_relative_candidates raw_target;
  _ ← deny_if (forallb (λ c, negb (bool_decide (c ∈ declared))) target_candidates) "warm_replay_patch_target_mismatch"
        ("replay_warm_recipe target_file=" +:+ repr_str raw_target +:+ " does not match patch targets="
           +:+ repr_names (F := F) (py_sorted declared));
  resolved ← catching os_or_runtime (h_resolve h raw_target);
  match resolved with
  | Some r => Ok (target_candidates, r)
  | None => deny "warm_replay_target_outside_framework_roots"
              ("replay_warm_recipe target_file=" +:+ repr_str raw_target +:+ " cannot be resolved")
  end.

(** What the loop over the plan has gathered: the admitted paths, and per patch the names covered. *)
Record warm_acc := MkWarm { w_admitted : list path; w_coverage : list (path * list string) }.

Fixpoint cover (key : path) (names : list string) (coverage : list (path * list string)) : list (path * list string) :=
  match coverage with
  | [] => [(key, names)]
  | (k, c) :: rest => if bool_decide (k = key) then (k, c ++ names) :: rest else (k, c) :: cover key names rest
  end.

Fixpoint check_warm_targets (key : path) (raw_targets : list string) (acc : warm_acc) : res warm_acc :=
  match raw_targets with
  | [] => Ok acc
  | t :: ts =>
      r ← check_warm_target (h_declared h key) t;
      check_warm_targets key ts (MkWarm (w_admitted acc ++ [r.2]) (cover key r.1 (w_coverage acc)))
  end.

Fixpoint check_warm_plan g (index : nat) (plan : list (pyval F)) (acc : warm_acc) : res warm_acc :=
  match plan with
  | [] => Ok acc
  | entry :: plan' =>
      raw_targets ← _warm_plan_entry_targets entry index;
      match raw_targets with
      | [] => check_warm_plan g (S index) plan' acc
      | _ =>
          key ← _warm_replay_patch_key g (dget_or_none "patch_path" (default [] (as_dict entry))) raw_targets;
          acc ← check_warm_targets key raw_targets acc;
          check_warm_plan g (S index) plan' acc
      end
  end.

Definition _validate_warm_replay_targets g params : res (list path) :=
  match session_dir g with
  | None => Ok []
  | Some _ =>
      let raw := dget_or_none "warm_kernel_plan" params in
      match (if truthy raw then raw else PList []) with
      | PList plan =>
          acc ← check_warm_plan g 0 plan (MkWarm [] []);
          _ ← for_each (λ kc : path * list string,
                let uncovered := filter (λ t, t ∉ kc.2) (h_declared h kc.1) in
                deny_if (negb (bool_decide (uncovered = []))) "warm_replay_patch_target_mismatch"
                  ("replay_warm_recipe patch_path=" +:+ repr_str (path_str kc.1)
                     +:+ " declares targets with no matching target_file="
                     +:+ repr_names (F := F) (sorted_set uncovered))) (w_coverage acc);
          Ok (w_admitted acc)
      | _ => deny "warm_replay_plan_invalid" "replay_warm_recipe warm_kernel_plan must be a list"
      end
  end.

(** ** The gate *)

(** The payload as an admitted intent's handler sees it. *)
Definition validate_intent g (from_agent : string) (intent : Intent F) : res (pydict F) :=
  match dget from_agent (role_registry g) with
  | None => deny "role" ("unknown agent " +:+ repr_str from_agent)
  | Some role =>
      _ ← deny_if (negb (bool_decide (i_type intent ∈ allowed_intents role))) "role"
            ("role=" +:+ repr_str (role_name role) +:+ " cannot emit intent_type="
               +:+ repr_str (intent_value (i_type intent)));
      let payload := i_payload intent in
      payload ← match i_type intent with
                | DELEGATE => _validate_delegate g role payload true EmptyString
                | PROPOSE_ACTION => _ ← _validate_propose_action g role payload; Ok payload
                | SEND_MESSAGE => _ ← deny_malformed_send_message payload; Ok payload
                | REQUEST => _ ← _validate_request role payload; Ok payload
                | REVIEW_VERDICT => _ ← _validate_review_verdict role payload; Ok payload
                | EXTEND_LEASE => _ ← _validate_extend_lease g payload; Ok payload
                | PRUNE_BRANCH => _ ← _validate_prune_branch payload; Ok payload
                | ALERT | ESCALATE_STRATEGY_CHANGE => Ok payload
                end;
      _ ← _validate_payload_paths g role (i_type intent) payload [];
      Ok payload
  end.

(** A queued row replayed before its executor runs; [params] that is no dict counts as empty. *)
Definition validate_dispatched_task g (action_name : string) (params : pyval F) (task_id : string) : res unit :=
  let kind := py_strip action_name in
  _ ← deny_if (is_blank kind) "payload" "dispatched task missing kind";
  let params_dict := match params with PDict d => d | _ => [] end in
  let payload : pydict F := [("action_name", PStr kind); ("params", PDict params_dict)] in
  match dget "orchestration" (role_registry g) with
  | None => deny "role" "unknown agent 'orchestration'"
  | Some role =>
      trusted ← (if String.eqb kind _WARM_REPLAY_ACTION then _validate_warm_replay_targets g params_dict else Ok []);
      _ ← _validate_payload_paths g role DELEGATE payload trusted;
      if bool_decide (kind ∈ COORDINATOR_INTERNAL_ACTIONS) then Ok ()
      else _ ← _validate_delegate g role payload false task_id; Ok ()
  end.
End gate.

(** ** Tools ([mcp_tool_names.py]) *)

Definition MCP_SERVER_NAME : string := "inference_optimizer".
Definition CONTEXT_MCP_SERVER_NAME : string := "inference_optimizer_context".
Definition EMIT_INTENT_TOOL_NAME : string := "emit_intent".
Definition qualified_tool_name (server tool : string) : string := "mcp__" +:+ server +:+ "__" +:+ tool.
Definition CONTEXT_TOOL_NAMES : list string :=
  ["get_mission_status"; "get_shared_state"; "get_gaps"; "get_warm_start"; "get_proposal_scores";
   "get_intervention_mix"; "why_denied"; "show_analysis_md"; "get_runtime_findings"; "get_inbox";
   "get_recent_outcomes"; "get_running_tasks"; "read_reference"; "get_failure"; "get_variant_failures"].
Definition ORCHESTRATION_BUILTIN_TOOL_NAMES : list string := ["Read"; "WebSearch"; "WebFetch"].
Definition agent_tool_grant (agent_name : string) : list string :=
  qualified_tool_name MCP_SERVER_NAME EMIT_INTENT_TOOL_NAME ::
  (if String.eqb agent_name "orchestration"
   then (qualified_tool_name CONTEXT_MCP_SERVER_NAME <$> CONTEXT_TOOL_NAMES) ++ ORCHESTRATION_BUILTIN_TOOL_NAMES
   else []).
Definition allowed_tools_for_agent {F} (g : PolicyGate F) (agent_name : string) : list string :=
  match dget agent_name (role_registry g) with
  | None => []
  | Some role => if no_tools role then [] else agent_tool_grant agent_name
  end.
