(* ===== verification/PolicyRules.v ===== *)
(** * What the policy gate guarantees

    Theorems on [PolicyGate]: containment of the paths a payload names, the Critic's hold on patches, the
    equivalence of proposing and delegating, the separation of duties between the two roles, the gap a
    dispatch is given, and what the gate may raise. *)

From stdpp Require Import base list strings pretty sets.
From Stdlib Require Import ZArith Lia Ascii.
From Stdlib Require String.
From S2P Require Import Prelude PyFloat PyVal Store PhaseChain PhaseMachine Protocol Specialists PolicyGate.

(** ** Inversion *)

Lemma deny_if_inv b rule reason u : deny_if b rule reason = Ok u → b = false.
Proof. by destruct b. Qed.

(** Turn the guards an accepted call passed into equations on their conditions. *)
Ltac guards :=
  repeat match goal with
    | H : deny_if _ _ _ = Ok _ |- _ => apply deny_if_inv in H
    | H : deny _ _ = Ok _ |- _ => discriminate H
    | H : negb _ = false |- _ => apply negb_false_iff in H
    | H : within _ _ = true |- _ => unfold within in H
    | H : bool_decide _ = true |- _ => apply bool_decide_eq_true in H
    | H : bool_decide _ = false |- _ => apply bool_decide_eq_false in H
    end.

Lemma catching_Some {A} caught (m : res A) a : catching caught m = Ok (Some a) → m = Ok a.
Proof. destruct m as [x|e]; simpl; [by intros [= ->]|]. by destruct (caught e). Qed.

Section paths.
Context {F : Type} `{!FloatOps F}.
Context (h : host).
Implicit Types (g : PolicyGate F) (payload : pydict F) (v : pyval F).

(** A text of the payload and the dict key it stands under, lists being transparent. *)
Inductive text_under : string → pyval F → string → string → Prop :=
| tu_here key s : text_under key (PStr s) key s
| tu_list key l v k s : v ∈ l → text_under key v k s → text_under key (PList l) k s
| tu_dict key d k' v k s : (k', v) ∈ d → text_under k' v k s → text_under key (PDict d) k s.

(** Where a resolved path may lie. *)
Definition under_session g (s : string) : Prop :=
  ∃ dir sd r, session_dir g = Some dir ∧ h_resolve h dir = Ok sd ∧ h_resolve h s = Ok r ∧ sd `prefix_of` r.
Definition under_root (root s : string) : Prop :=
  ∃ rt r, h_resolve h root = Ok rt ∧ h_resolve h s = Ok r ∧ rt `prefix_of` r.
Definition contained g (k s : string) : Prop :=
  under_session g s ∨ (k ∈ TRACE_PATH_LIKE_FIELDS ∧ under_root (rstrip_slash (h_trace_root h) +:+ "/") s).

Lemma path_like_not_source k : k ∈ PATH_LIKE_FIELDS → k ∉ SOURCE_LIKE_FIELDS.
Proof.
  intros H1 H2. assert (Forall (λ k, k ∉ PATH_LIKE_FIELDS) SOURCE_LIKE_FIELDS) as Hd.
  { repeat constructor; by apply (bool_decide_eq_false _). }
  rewrite Forall_forall in Hd. by apply (Hd k).
Qed.

(** The walk reaches every text of the payload. *)
Lemma visit_reaches check key v k s :
  visit check key v = Ok () → text_under key v k s →
  py_strip s ≠ EmptyString → k ∈ PATH_LIKE_FIELDS → check k s = Ok ().
Proof.
  intros H Ht Hs Hk. induction Ht as [key s|key l v k s Hin _ IH|key d k' v k s Hin _ IH]; simpl in H.
  - unfold is_blank in H. apply String.eqb_neq in Hs. rewrite Hs in H.
    rewrite bool_decide_eq_false_2 in H by by apply path_like_not_source.
    by rewrite bool_decide_eq_true_2 in H.
  - rewrite for_each_ok in H. auto.
  - rewrite for_each_ok in H. apply IH; [|done..]. by specialize (H (k', v) Hin).
Qed.

Lemma text_under_dict key key' d k s : text_under key (PDict d) k s → text_under key' (PDict d) k s.
Proof. inversion 1; subst. by econstructor. Qed.

Lemma under_session_inv g s : _path_under_session h g s = Ok true → under_session g s.
Proof.
  unfold _path_under_session. destruct (session_dir g) as [dir|] eqn:E; [|done]. intros H.
  apply res_bind_ok in H as ([b|] & H & Hb); [|done]. simpl in Hb. injection Hb as ->.
  apply catching_Some in H. inv_res H. guards. exists dir, a, a0. split_and!; done.
Qed.

Lemma resolved_within_inv s root : resolved_within h s root = Ok true → under_root root s.
Proof.
  unfold resolved_within. intros H. apply res_bind_ok in H as ([b|] & H & Hb); [|done]. simpl in Hb. injection Hb as ->.
  apply catching_Some in H. inv_res H. guards. exists a0, a. split_and!; done.
Qed.

(** A checked path is contained, or is one of the trusted targets. *)
Lemma check_payload_path_inv g role it trusted k s :
  _check_payload_path h g role it trusted k s = Ok () →
  contained g k s ∨
  (k ∈ ["target_file"; "resolved_patch_targets"] ∧ ∃ r, h_resolve h s = Ok r ∧ r ∈ trusted).
Proof.
  unfold _check_payload_path. intros H. apply res_bind_ok in H as ([|] & Hu & H).
  { left. left. by apply under_session_inv. }
  apply res_bind_ok in H as (resolved & Hr & H).
  destruct (match resolved with Some r => _ | None => false end) eqn:Et.
  { destruct resolved as [r|]; [|done]. apply bool_decide_eq_true in Et.
    destruct (bool_decide (k ∈ _) && _) eqn:Ek; [|done]. apply andb_true_iff in Ek as [Ek _].
    apply bool_decide_eq_true in Ek. apply catching_Some in Hr. right. eauto. }
  apply res_bind_ok in H as ([|] & Hx & H); [|done].
  destruct (bool_decide (k ∈ TRACE_PATH_LIKE_FIELDS)) eqn:Ek; [|done]. apply bool_decide_eq_true in Ek.
  left. right. split; [done|]. by apply resolved_within_inv.
Qed.

Lemma payload_paths_inv g role it payload trusted dir key k s :
  session_dir g = Some dir → _validate_payload_paths h g role it payload trusted = Ok () →
  text_under key (PDict payload) k s → py_strip s ≠ EmptyString → k ∈ PATH_LIKE_FIELDS →
  contained g k s ∨
  (k ∈ ["target_file"; "resolved_patch_targets"] ∧ ∃ r, h_resolve h s = Ok r ∧ r ∈ trusted).
Proof.
  unfold _validate_payload_paths. intros -> H Ht Hs Hk. eapply check_payload_path_inv.
  eapply visit_reaches; [exact H|by eapply text_under_dict|done..].
Qed.

(** *** Warm replay *)

(** A framework file a warm replay may write: a patch of its plan, downloaded into this session's bundle,
    declares it. *)
Definition warm_target g (plan : list (pyval F)) (r : path) : Prop :=
  ∃ e patch raw pk root rest,
    PDict e ∈ plan ∧ dget "patch_path" e = Some (PStr patch) ∧
    (∃ sd, (∃ dir, session_dir g = Some dir ∧ h_resolve h dir = Ok sd) ∧
           under_root (path_str (sd ++ _REMOTE_RECIPE_FILES_PARTS)) patch) ∧
    h_resolve h patch = Ok pk ∧ h_resolve h raw = Ok r ∧
    h_resolve h (h_framework_root h) = Ok root ∧ r = root ++ rest ∧ rest ≠ [] ∧
    String.concat "/" rest ∈ h_declared h pk.

Lemma candidates_inv raw names c :
  _framework_relative_candidates h raw = Ok names → c ∈ names →
  ∃ root rest, h_resolve h (h_framework_root h) = Ok root ∧ h_resolve h raw = Ok (root ++ rest) ∧ rest ≠ [] ∧
    c = String.concat "/" rest.
Proof.
  unfold _framework_relative_candidates. destruct (is_blank _); [intros [= <-] []%not_elem_of_nil|].
  intros H Hc. apply res_bind_ok in H as (rest & Hr & H). injection H as <-.
  destruct rest as [[|x rest]|]; [by apply not_elem_of_nil in Hc| |by apply not_elem_of_nil in Hc].
  apply list_elem_of_singleton in Hc as ->. apply catching_Some in Hr.
  apply res_bind_ok in Hr as (target & Ht & Hr). apply res_bind_ok in Hr as (root & Hroot & Hr).
  destruct (within target root) eqn:Ew; [|done]. guards. destruct Ew as [tl ->].
  rewrite drop_app_length in Hr. injection Hr as ->. eauto 10.
Qed.

Lemma warm_target_inv declared raw names r :
  check_warm_target h declared raw = Ok (names, r) →
  ∃ root rest, h_resolve h (h_framework_root h) = Ok root ∧ h_resolve h raw = Ok r ∧ r = root ++ rest ∧ rest ≠ [] ∧
    String.concat "/" rest ∈ declared.
Proof.
  unfold check_warm_target. intros H. apply res_bind_ok in H as (inside & _ & H).
  apply res_bind_ok in H as (_ & _ & H). apply res_bind_ok in H as (cs & Hc & H).
  apply res_bind_ok in H as (? & Hd & H). guards. apply res_bind_ok in H as (resolved & Hr & H).
  destruct resolved as [r'|]; [|done]. injection H as -> ->. apply catching_Some in Hr.
  apply not_true_iff_false in Hd. rewrite forallb_forall in Hd.
  destruct (decide (Exists (λ c, c ∈ declared) names)) as [(c & Hin & Hcd)%Exists_exists|Hn].
  - destruct (candidates_inv _ _ _ Hc Hin) as (root & rest & H1 & H2 & H3 & ->). rewrite Hr in H2. injection H2 as ->.
    eauto 10.
  - exfalso. apply Hd. intros c Hin. apply negb_true_iff, bool_decide_eq_false. intros Hcd. apply Hn, Exists_exists.
    exists c. split; [|done]. by apply list_elem_of_In.
Qed.

Lemma patch_key_inv g patch targets pk :
  _warm_replay_patch_key h g patch targets = Ok pk →
  ∃ p, patch = PStr p ∧ h_resolve h p = Ok pk ∧
    ∃ sd, (∃ dir, session_dir g = Some dir ∧ h_resolve h dir = Ok sd) ∧
          under_root (path_str (sd ++ _REMOTE_RECIPE_FILES_PARTS)) p.
Proof.
  unfold _warm_replay_patch_key, _remote_recipe_files_root. destruct patch as [| | | |p| |]; try done.
  destruct (is_blank (py_strip p)); [done|]. destruct (session_dir g) as [dir|]; [|done]. intros H.
  apply res_bind_ok in H as (kb & Hkb & H). apply res_bind_ok in H as (inside & Hin & H).
  apply res_bind_ok in H as (? & Hd & H). guards. subst inside. apply res_bind_ok in H as ([k|] & Hk & H); [|done].
  injection H as ->. destruct kb as [kb|]; [|done]. apply catching_Some in Hkb, Hk.
  apply res_bind_ok in Hkb as (sd & Hsd & Hkb). injection Hkb as <-.
  exists p. split_and!; [done..|]. exists sd. split; [eauto|]. by apply resolved_within_inv.
Qed.

Lemma warm_targets_inv key targets acc acc' :
  check_warm_targets h key targets acc = Ok acc' →
  ∀ r, r ∈ w_admitted acc' → r ∈ w_admitted acc ∨
    ∃ raw root rest, h_resolve h (h_framework_root h) = Ok root ∧ h_resolve h raw = Ok r ∧ r = root ++ rest ∧ rest ≠ [] ∧
      String.concat "/" rest ∈ h_declared h key.
Proof.
  revert acc. induction targets as [|t targets IH]; intros acc; simpl; [intros [= ->]; auto|].
  intros H. apply res_bind_ok in H as ([names r0] & Ht & H). intros r Hr.
  destruct (IH _ H r Hr) as [Hin|Hin]; [|by right]. simpl in Hin.
  apply elem_of_app in Hin as [Hin|Hin]; [by left|]. apply list_elem_of_singleton in Hin as ->.
  right. apply warm_target_inv in Ht as (root & rest & ?). eauto 10.
Qed.

Lemma warm_plan_inv g plan0 n plan acc acc' :
  check_warm_plan h g n plan acc = Ok acc' → plan ⊆ plan0 →
  (∀ r, r ∈ w_admitted acc → warm_target g plan0 r) → ∀ r, r ∈ w_admitted acc' → warm_target g plan0 r.
Proof.
  revert n acc. induction plan as [|entry plan IH]; intros n acc; simpl; [intros [= ->]; auto|].
  intros H Hsub Hacc. apply res_bind_ok in H as (targets & Ht & H).
  assert (plan ⊆ plan0) as Hsub' by set_solver.
  destruct targets as [|t targets]; [by eapply IH|].
  apply res_bind_ok in H as (pk & Hpk & H). apply res_bind_ok in H as (acc1 & H1 & H).
  eapply IH; [exact H|done|]. intros r Hr.
  destruct (warm_targets_inv _ _ _ _ H1 r Hr) as [Hin|(raw & root & rest & Hw)]; [auto|].
  destruct entry as [| | | | | |e]; try done. apply patch_key_inv in Hpk as (patch & Hp & Hres & Hsd).
  simpl in Hp. unfold dget_or_none in Hp. destruct (dget "patch_path" e) as [pv|] eqn:Epp; [|done]. simpl in Hp. subst pv.
  exists e, patch, raw, pk, root, rest. split; [set_solver|]. tauto.
Qed.

Lemma warm_replay_inv g params trusted r :
  _validate_warm_replay_targets h g params = Ok trusted → r ∈ trusted →
  ∃ plan, dget "warm_kernel_plan" params = Some (PList plan) ∧ warm_target g plan r.
Proof.
  unfold _validate_warm_replay_targets, dget_or_none.
  destruct (session_dir g) eqn:Es; [|intros [= <-] []%not_elem_of_nil]. intros H Hr.
  destruct (dget "warm_kernel_plan" params) as [raw|] eqn:Ep; simpl in H.
  - destruct (truthy raw) eqn:Et.
    + destruct raw as [| | | | |plan|]; try done. inv_res H. subst trusted. exists plan. split; [done|].
      eapply warm_plan_inv; [eassumption|done| |done]. intros x []%not_elem_of_nil.
    + simpl in H. injection H as <-. by apply not_elem_of_nil in Hr.
  - injection H as <-. by apply not_elem_of_nil in Hr.
Qed.
End paths.

(** ** Containment *)

(** Safety.  An admitted intent names no path outside the session: every non-blank text that stands under
    a path-like field, anywhere in the payload however deeply nested, resolves under the session
    directory, or, for the three trace fields, under the shared trace root. *)
Theorem admitted_paths_contained {F} `{!FloatOps F} h (g : PolicyGate F) agent intent payload dir k s :
  session_dir g = Some dir →
  validate_intent h g agent intent = Ok payload →
  text_under EmptyString (PDict payload) k s → py_strip s ≠ EmptyString → k ∈ PATH_LIKE_FIELDS →
  contained h g k s.
Proof.
  intros Hd H Ht Hs Hk. unfold validate_intent in H. destruct (dget agent _) as [role|]; [|done].
  apply res_bind_ok in H as (_ & _ & H). apply res_bind_ok in H as (payload' & _ & H).
  apply res_bind_ok in H as ([] & Hp & H). injection H as ->.
  destruct (payload_paths_inv h _ _ _ _ _ _ _ _ _ Hd Hp Ht Hs Hk) as [?|(_ & r & _ & []%not_elem_of_nil)]. done.
Qed.


(** ** Verdicts *)

Lemma lower_char_idem c : lower_char (lower_char c) = lower_char c.
Proof. by destruct c as [[] [] [] [] [] [] [] []]. Qed.
Lemma py_lower_idem s : py_lower (py_lower s) = py_lower s.
Proof.
  unfold py_lower, chars, of_chars. rewrite String.list_ascii_of_string_of_list_ascii, <- list_fmap_compose. f_equal.
  apply list_fmap_ext. intros _ c _. apply lower_char_idem.
Qed.

Section verdicts.
Context {F : Type} `{!FloatOps F}.
Implicit Types (s : gate_state F) (hist : list (string * string)).

(** The Critic's rulings, each recorded over the earlier ones. *)
Definition record_all s hist : gate_state F := foldl (λ s '(subject, verdict), record_specialist_patch_verdict s subject verdict) s hist.
Definition last_ruling hist (subject : string) : option (string * string) :=
  last (filter (λ r, py_strip r.1 = py_strip subject) hist).

Lemma record_all_get s hist subject :
  py_strip subject ≠ EmptyString →
  get_specialist_patch_verdict (record_all s hist) subject =
  match last_ruling hist subject with
  | Some r => py_lower (py_strip r.2)
  | None => get_specialist_patch_verdict s subject
  end.
Proof.
  intros Hne. unfold record_all, last_ruling. induction hist as [|[subj v] hist IH] using rev_ind; [done|].
  rewrite foldl_snoc, filter_app, filter_cons. simpl. unfold record_specialist_patch_verdict at 1.
  unfold get_specialist_patch_verdict in *. unfold is_blank in *. apply String.eqb_neq in Hne as Hne'. rewrite Hne' in *.
  case_decide as Hs; simpl.
  - rewrite Hs, Hne', filter_nil, last_snoc. simpl. by rewrite dget_dset_eq.
  - rewrite filter_nil, app_nil_r, <- IH. destruct (String.eqb (py_strip subj) EmptyString); [done|]. simpl.
    by rewrite dget_dset_ne by congruence.
Qed.

Lemma critic_gate_inv (g : PolicyGate F) payload params s :
  _validate_integrate_patch_critic_gate g payload = Ok () →
  dget "params" payload = Some (PDict params) → get_bool "enablement_launch_only" params = false →
  shared_state g = Some s →
  py_strip (verdict_subject params) ≠ EmptyString ∧
  py_lower (get_specialist_patch_verdict s (verdict_subject params)) ∈ INTEGRATE_PATCH_PERMISSIVE_VERDICTS.
Proof.
  unfold _validate_integrate_patch_critic_gate, dget_or_none. intros H Hp Hl Hs. rewrite Hp in H. simpl default in H.
  assert ((if truthy (PDict params) then PDict params else PDict []) = PDict params) as E
    by (destruct params; done).
  rewrite E, Hl, Hs in H. apply res_bind_ok in H as (? & _ & H). apply res_bind_ok in H as (? & Hv & H). guards.
  split; [|done]. intros Hb. unfold get_specialist_patch_verdict in Hv. rewrite Hb in Hv. done.
Qed.
End verdicts.

(** Safety.  No patch is integrated over the Critic: whenever an agent's delegate, or the replay of a
    queued row, admits an [integrate_patch] other than the launch-only probe, the last ruling recorded for
    the patch's review subject, whatever was ruled before, is an approval or an advice.  A later rejection
    revokes an earlier approval. *)
Theorem integrate_patch_approved {F} `{!FloatOps F} h (g : PolicyGate F) params s0 hist tid :
  shared_state g = Some (record_all s0 hist) → specialist_patch_verdicts s0 = [] →
  get_bool "enablement_launch_only" params = false →
  (∃ agent payload payload', raw_text "action_name" payload = INTEGRATE_PATCH_ACTION_NAME ∧
     dget "params" payload = Some (PDict params) ∧ validate_intent h g agent (MkIntent DELEGATE payload) = Ok payload') ∨
  validate_dispatched_task h g INTEGRATE_PATCH_ACTION_NAME (PDict params) tid = Ok () →
  ∃ subject verdict, last_ruling hist (verdict_subject params) = Some (subject, verdict) ∧
    py_lower (py_strip verdict) ∈ INTEGRATE_PATCH_PERMISSIVE_VERDICTS.
Proof.
  intros Hs H0 Hl Hadm.
  assert (∃ payload, dget "params" payload = Some (PDict params) ∧
            _validate_integrate_patch_critic_gate g payload = Ok ()) as (payload & Hp & Hg).
  { destruct Hadm as [(agent & payload & payload' & Ha & Hp & H)|H].
    - exists payload. split; [done|]. unfold validate_intent in H. destruct (dget agent _) as [role|]; [|done].
      apply res_bind_ok in H as (_ & _ & H). apply res_bind_ok in H as (? & H & _). cbn [i_type i_payload] in H.
      unfold _validate_delegate in H. rewrite Ha in H. simpl in H.
      apply res_bind_ok in H as (? & _ & H). apply res_bind_ok in H as (? & _ & H).
      apply res_bind_ok in H as ([] & H & _). done.
    - exists [("action_name", PStr (py_strip INTEGRATE_PATCH_ACTION_NAME)); ("params", PDict params)]. split; [done|].
      unfold validate_dispatched_task in H. apply res_bind_ok in H as (? & _ & H).
      destruct (dget "orchestration" _) as [role|]; [|done].
      apply res_bind_ok in H as (? & _ & H). apply res_bind_ok in H as (? & _ & H).
      change (bool_decide (py_strip INTEGRATE_PATCH_ACTION_NAME ∈ COORDINATOR_INTERNAL_ACTIONS)) with false in H.
      apply res_bind_ok in H as (? & H & _). unfold _validate_delegate in H.
      apply res_bind_ok in H as (? & _ & H). apply res_bind_ok in H as (? & _ & H).
      apply res_bind_ok in H as (? & _ & H).
      change (String.eqb (raw_text "action_name" _) SPECIALIST_ACTION_NAME) with false in H.
      change (String.eqb (raw_text "action_name" _) INTEGRATE_PATCH_ACTION_NAME) with true in H.
      apply res_bind_ok in H as ([] & H & _). done. }
  destruct (critic_gate_inv _ _ _ _ Hg Hp Hl Hs) as [Hne Hin]. rewrite record_all_get in Hin by done.
  destruct (last_ruling hist _) as [[subject verdict]|].
  - exists subject, verdict. split; [done|]. simpl in Hin. by rewrite py_lower_idem in Hin.
  - exfalso. revert Hin. unfold get_specialist_patch_verdict. rewrite H0. simpl.
    by destruct (is_blank _); apply (bool_decide_eq_false _).
Qed.

(** A patch the Critic first approved and then rejected. *)
Definition approving_state : gate_state binary64 := MkGateState PHASE_FRAMEWORK_AGENT false [] [].
Definition patch_params : pydict binary64 := [("specialist_task_id", PStr "t7")].
Definition ruled (hist : list (string * string)) : PolicyGate binary64 :=
  MkGate default_role_registry None (Some (record_all approving_state hist)) unread_facts.
Definition plain_host : host := MkHost (λ _, Ok []) (λ _, []) "/traces" EmptyString false.

Lemma integrate_patch_approved_witness :
  ∃ subject verdict, last_ruling [("t7", "reject"); ("t7", "Approve ")] (verdict_subject patch_params) = Some (subject, verdict) ∧
    py_lower (py_strip verdict) ∈ INTEGRATE_PATCH_PERMISSIVE_VERDICTS.
Proof.
  apply (integrate_patch_approved plain_host (ruled [("t7", "reject"); ("t7", "Approve ")]) patch_params approving_state
           [("t7", "reject"); ("t7", "Approve ")] "t9"); [done..|].
  left. exists "orchestration", [("action_name", PStr "integrate_patch"); ("params", PDict patch_params)]. eexists.
  split_and!; [done..|]. vm_compute. reflexivity.
Defined.

Lemma later_rejection_revokes :
  validate_dispatched_task plain_host (ruled [("t7", "approve"); ("t7", "reject")]) "integrate_patch"
    (PDict patch_params) "t9" =
  deny "integrate_patch_requires_critic_verdict"
    "integrate_patch: Critic verdict for subject 't7' is 'reject'; integrate_patch only runs on ['advise', 'approve']".
Proof. vm_compute. reflexivity. Qed.

(** ** Rules on actions *)

Section actions.
Context {F : Type} `{!FloatOps F}.
Context (h : host).
Implicit Types (g : PolicyGate F) (role : AgentRole) (payload : pydict F).

Lemma validate_intent_inv g agent intent payload' :
  validate_intent h g agent intent = Ok payload' →
  ∃ role, dget agent (role_registry g) = Some role ∧ i_type intent ∈ allowed_intents role ∧
    match i_type intent with
    | DELEGATE => _validate_delegate h g role (i_payload intent) true EmptyString = Ok payload'
    | PROPOSE_ACTION => _validate_propose_action g role (i_payload intent) = Ok () ∧ payload' = i_payload intent
    | _ => payload' = i_payload intent
    end.
Proof.
  unfold validate_intent. destruct (dget agent _) as [role|]; [|done]. intros H.
  apply res_bind_ok in H as ([] & Ha & H). guards. apply res_bind_ok in H as (p & Hp & H).
  apply res_bind_ok in H as (_ & _ & H). injection H as ->. exists role. split_and!; [done..|].
  destruct intent as [ty pl]. cbn [i_type i_payload] in *. destruct ty;
    first [done | by apply res_bind_ok in Hp as ([] & ? & [= ->]) | by injection Hp as ->].
Qed.

(** The rules a proposal and a delegation share, as conditions on the action's name. *)
Definition action_permitted g (action : string) : Prop :=
  action ≠ EmptyString ∧
  ¬ (action ∈ CUSTOM_ONLY_DENIED_ACTIONS ∧ custom_only_framework (shared_state g) = true) ∧
  action ∉ COORDINATOR_INTERNAL_ACTIONS ∧
  ¬ (action = BASELINE_ACTION_NAME ∧ round_excludes (resources g) = true) ∧
  action ≠ GEMM_TUNING_ACTION_NAME ∧
  action ∉ PR_MONITOR_TOOL_NAMES ++ WEB_TOOL_NAMES.

Lemma deny_if_ok b rule reason : deny_if b rule reason = Ok () ↔ b = false.
Proof. by destruct b. Qed.
Lemma is_blank_false s : is_blank s = false ↔ s ≠ EmptyString.
Proof. apply String.eqb_neq. Qed.

Lemma custom_only_ok g a :
  deny_search_under_custom_only (shared_state g) a = Ok () ↔
  ¬ (a ∈ CUSTOM_ONLY_DENIED_ACTIONS ∧ custom_only_framework (shared_state g) = true).
Proof.
  unfold deny_search_under_custom_only. rewrite deny_if_ok, andb_false_iff, bool_decide_eq_false.
  destruct (custom_only_framework _); [|naive_solver]. destruct (decide (a ∈ CUSTOM_ONLY_DENIED_ACTIONS)); naive_solver.
Qed.
Lemma baseline_ok g a :
  _validate_baseline_not_mid_round g a EmptyString = Ok () ↔
  ¬ (a = BASELINE_ACTION_NAME ∧ round_excludes (resources g) = true).
Proof.
  unfold _validate_baseline_not_mid_round. destruct (String.eqb_spec a BASELINE_ACTION_NAME) as [->|]; simpl.
  - rewrite deny_if_ok, andb_true_r. destruct (round_excludes _); naive_solver.
  - naive_solver.
Qed.

Lemma propose_ok g role payload :
  _validate_propose_action g role payload = Ok () ↔ action_permitted g (raw_text "action_name" payload).
Proof.
  unfold _validate_propose_action, action_permitted. set (a := raw_text "action_name" payload).
  rewrite <- custom_only_ok, <- baseline_ok, <- is_blank_false.
  unfold _validate_coordinator_managed_action, _validate_gemm_tuning_action, _validate_tool_whitelist_collision.
  rewrite !seq_ok, !deny_if_ok, !bool_decide_eq_false, String.eqb_neq. tauto.
Qed.

(** What a delegated specialist may be: one the agents are allowed to choose. *)
Definition agent_dispatchable (params : pydict F) : Prop :=
  is_custom_specialist_dispatch params = false ∧
  ∀ d, get_domain (get_str "domain" params) = Some d → d_llm_selectable d = true.

Lemma coordinator_dispatched_ok params :
  deny_coordinator_dispatched_delegate params = Ok () ↔ agent_dispatchable params.
Proof.
  unfold deny_coordinator_dispatched_delegate, agent_dispatchable. rewrite seq_ok, deny_if_ok.
  destruct (get_domain _) as [d|]; [|naive_solver]. rewrite deny_if_ok, negb_false_iff. naive_solver.
Qed.

Lemma permitted_constant g a :
  a ∈ [SPECIALIST_ACTION_NAME; INTEGRATE_PATCH_ACTION_NAME] →
  deny_search_under_custom_only (shared_state g) a = Ok () → action_permitted g a.
Proof.
  rewrite custom_only_ok. unfold action_permitted. intros Ha Hc. rewrite elem_of_cons, list_elem_of_singleton in Ha.
  destruct Ha as [-> | ->]; (split_and!; [done|done|by apply (bool_decide_eq_false _)|by intros [[=] _]|done|
    by apply (bool_decide_eq_false _)]).
Qed.

Lemma delegate_plain_ok g role payload payload' :
  let a := raw_text "action_name" payload in
  can_delegate_side_effects role = true → a ∉ [SPECIALIST_ACTION_NAME; INTEGRATE_PATCH_ACTION_NAME] →
  _validate_delegate h g role payload true EmptyString = Ok payload' ↔ payload' = payload ∧ action_permitted g a.
Proof.
  intros a Hr Ha. unfold _validate_delegate, action_permitted. fold a.
  rewrite not_elem_of_cons, not_elem_of_cons in Ha. destruct Ha as (H1 & H2 & _).
  apply String.eqb_neq in H1, H2. rewrite H1, H2, <- custom_only_ok, <- baseline_ok, <- is_blank_false.
  unfold _validate_coordinator_managed_action, _validate_gemm_tuning_action, _validate_tool_whitelist_collision.
  rewrite !seq_ok, !deny_if_ok, !bool_decide_eq_false, String.eqb_neq, Hr. naive_solver.
Qed.

Lemma delegate_permitted g role payload payload' :
  _validate_delegate h g role payload true EmptyString = Ok payload' →
  can_delegate_side_effects role = true ∧ action_permitted g (raw_text "action_name" payload) ∧
  (raw_text "action_name" payload = SPECIALIST_ACTION_NAME →
   ∀ params, dget "params" payload = Some (PDict params) → agent_dispatchable params).
Proof.
  intros H. assert (can_delegate_side_effects role = true) as Hr.
  { unfold _validate_delegate in H. rewrite seq_ok, deny_if_ok in H. by destruct H as [?%negb_false_iff _]. }
  split; [done|]. split.
  - destruct (decide (raw_text "action_name" payload ∈ [SPECIALIST_ACTION_NAME; INTEGRATE_PATCH_ACTION_NAME])) as [Ha|Ha].
    + apply permitted_constant; [done|]. unfold _validate_delegate in H. rewrite !seq_ok in H. naive_solver.
    + by apply delegate_plain_ok in H as [_ ?].
  - intros Ha params Hp. unfold _validate_delegate, dget_or_none in H. rewrite Ha, Hp in H.
    simpl default in H. simpl String.eqb in H. cbv iota in H. rewrite !seq_ok in H.
    apply coordinator_dispatched_ok. naive_solver.
Qed.
End actions.

(** Equivalence.  Proposing an action and delegating it are the same gate: a proposal is admitted exactly
    when its action is named, is not search withheld by the custom-specialist-only mode, is not
    Coordinator-internal, is not a baseline under an excluding round, is not the GEMM lane and is not an
    external tool; and for a role that may delegate, a delegation of an action with no gate of its own is
    admitted, unchanged, under exactly the same condition. *)
Theorem propose_delegate_parity {F} `{!FloatOps F} h (g : PolicyGate F) role payload :
  let a := raw_text "action_name" payload in
  (_validate_propose_action g role payload = Ok () ↔ action_permitted g a) ∧
  (can_delegate_side_effects role = true → a ∉ [SPECIALIST_ACTION_NAME; INTEGRATE_PATCH_ACTION_NAME] →
   ∀ payload', _validate_delegate h g role payload true EmptyString = Ok payload' ↔
               payload' = payload ∧ action_permitted g a).
Proof. split; [apply propose_ok|]. intros. by apply delegate_plain_ok. Qed.


(** The orchestrator delegates a specialist of a domain it may choose. *)
Definition delegating : pydict binary64 :=
  [("action_name", PStr "specialist");
   ("params", PDict [("domain", PStr "comm_specialist"); ("gap_canonical_id", PStr "gap-1")])].

(** ** Filling in the gap *)

Section autofill.
Context {F : Type} `{!FloatOps F}.
Context (h : host).
Implicit Types (g : PolicyGate F) (gap params : pydict F) (a b c : gap_key * pydict F).

(** More severe first, then less tried, then seen earlier. *)
Definition gap_key_le (x y : gap_key) : Prop :=
  let '(s1, n1, t1) := x in
  let '(s2, n2, t2) := y in
  (s1 < s2)%Z ∨ (s1 = s2 ∧ ((n1 < n2)%Z ∨ (n1 = n2 ∧ String.leb t1 t2 = true))).

Lemma gap_key_leb_le a b : gap_key_leb a b = true ↔ gap_key_le a.1 b.1.
Proof.
  destruct a as [[[s1 n1] t1] ga], b as [[[s2 n2] t2] gb]. simpl.
  rewrite !orb_true_iff, !andb_true_iff, !Z.ltb_lt, !Z.eqb_eq. rewrite orb_true_iff, andb_true_iff, Z.ltb_lt, Z.eqb_eq. tauto.
Qed.
Lemma gap_key_leb_total a b : gap_key_leb a b = false → gap_key_leb b a = true.
Proof.
  intros H. apply gap_key_leb_le. apply not_true_iff_false in H. rewrite gap_key_leb_le in H.
  destruct a as [[[s1 n1] t1] ga], b as [[[s2 n2] t2] gb]. simpl in *.
  destruct (Z.lt_trichotomy s1 s2) as [|[|]]; [tauto| |lia]. destruct (Z.lt_trichotomy n1 n2) as [|[|]]; [tauto| |lia].
  right. split; [done|]. right. split; [done|]. destruct (String.leb_total t1 t2) as [?|?]; [|done]. exfalso. apply H. tauto.
Qed.
Lemma gap_key_leb_trans a b c : gap_key_leb a b = true → gap_key_leb b c = true → gap_key_leb a c = true.
Proof.
  rewrite !gap_key_leb_le.
  destruct a as [[[s1 n1] t1] ga], b as [[[s2 n2] t2] gb], c as [[[s3 n3] t3] gc]. simpl.
  intros [?|[-> [?|[-> H1]]]] [?|[-> [?|[-> H2]]]]; try (left; lia); right; (split; [done|]); try (left; lia).
  right. split; [done|]. by eapply (transitivity (R := str_le)).
Qed.

(** A gap of the ledger that names what the dispatch is about. *)
Definition candidate_gap g params gap : Prop :=
  ∃ s, shared_state g = Some s ∧ PDict gap ∈ g_gaps s ∧ get_text "canonical_id" gap ≠ EmptyString ∧
    py_lower (get_text "domain_hint" gap) ∈ gap_candidates params (normalize_dispatch_tags params).

Lemma ledger_matches_elem g params gap :
  gap ∈ ledger_matches g params (normalize_dispatch_tags params) ↔ candidate_gap g params gap.
Proof.
  unfold ledger_matches, candidate_gap. set (cands := gap_candidates _ _).
  transitivity (gap ∈ omap (gap_matches cands) (match shared_state g with Some s => g_gaps s | None => [] end)).
  { case_bool_decide as E; [|done]. rewrite elem_of_nil, E. split; [done|]. intros H.
    apply list_elem_of_omap in H as (x & _ & H). destruct x; try done. simpl in H. by rewrite andb_false_r in H. }
  rewrite list_elem_of_omap. split.
  - intros (x & Hx & H). destruct (shared_state g) as [s|]; [|by apply not_elem_of_nil in Hx].
    destruct x as [| | | | | |d]; try done. simpl in H. destruct (_ && _) eqn:E; [|done]. injection H as ->.
    apply andb_true_iff in E as [E1 E2]. apply negb_true_iff, is_blank_false in E1. apply bool_decide_eq_true in E2. eauto.
  - intros (s & -> & Hin & Hid & Hc). exists (PDict gap). split; [done|]. simpl.
    apply is_blank_false in Hid. rewrite Hid. by rewrite bool_decide_eq_true_2.
Qed.

Lemma autofill_spec g params chosen params' :
  _autofill_gap_from_ledger g params (normalize_dispatch_tags params) = Ok (chosen, params') →
  (chosen = EmptyString ∧ params' = params) ∨
  ∃ gap key, candidate_gap g params gap ∧ gap_actionability_key gap = Ok key ∧
    chosen = get_text "canonical_id" gap ∧ params' = dset "gap_canonical_id" (PStr chosen) params ∧
    ∀ gap', candidate_gap g params gap' → ∃ key', gap_actionability_key gap' = Ok key' ∧ gap_key_le key key'.
Proof.
  unfold _autofill_gap_from_ledger.
  intros H. apply res_bind_ok in H as (keyed & Hk & H). injection H as H. apply map_res_ok in Hk.
  pose proof (sort_by_sorted gap_key_leb gap_key_leb_total gap_key_leb_trans keyed) as Hs.
  pose proof (sort_by_perm gap_key_leb keyed) as Hp.
  destruct (sort_by gap_key_leb keyed) as [|[key gap] rest]; [left; by injection H as <- <-|]. right.
  injection H as <- <-.
  assert (∀ k gp, (k, gp) ∈ keyed → gap_actionability_key gp = Ok k ∧ candidate_gap g params gp) as Hkeyed.
  { intros k gp Hin. apply list_elem_of_lookup in Hin as [i Hi].
    destruct (Forall2_lookup_r _ _ _ _ _ Hk Hi) as (gp' & Hgp & Hx). inv_res Hx. subst. split; [done|].
    apply ledger_matches_elem. by eapply list_elem_of_lookup_2. }
  destruct (Hkeyed key gap) as [Hkey Hgap]; [rewrite <- Hp; left|]. exists gap, key.
  split_and!; [done..|]. intros gap' Hgap'. apply ledger_matches_elem in Hgap'.
  apply list_elem_of_lookup in Hgap' as [i Hi]. destruct (Forall2_lookup_l _ _ _ _ _ Hk Hi) as ([k' gp'] & Hy & Hx).
  inv_res Hx. subst. exists k'. split; [done|].
  apply list_elem_of_lookup_2 in Hy. rewrite <- Hp in Hy. apply elem_of_cons in Hy as [[= -> ->]|Hy].
  - apply (gap_key_leb_le (key, gap) (key, gap)). destruct (gap_key_leb (key, gap) (key, gap)) eqn:El; [done|].
    pose proof (gap_key_leb_total _ _ El). congruence.
  - inversion Hs as [|? ? _ Hall]; subst. rewrite Forall_forall in Hall. by apply Hall, gap_key_leb_le in Hy.
Qed.

Lemma specialist_dispatch_inv g role payload kv params params' :
  dget "params" payload = Some (PDict (kv :: params)) →
  _validate_specialist_dispatch h g role payload = Ok params' →
  params' = kv :: params ∨
  (cited_gap (kv :: params) = EmptyString ∧ ∃ chosen,
     _autofill_gap_from_ledger g (kv :: params) (normalize_dispatch_tags (kv :: params)) = Ok (chosen, params') ∧
     chosen ≠ EmptyString).
Proof.
  unfold _validate_specialist_dispatch, dget_or_none. intros Hp H. rewrite Hp in H. simpl default in H.
  change (truthy (PDict (kv :: params))) with true in H. set (ps := kv :: params) in *. cbv iota beta zeta in H.
  rewrite !seq_ok in H. destruct H as (_ & _ & H).
  destruct (_ || _); [rewrite seq_ok in H; destruct H as [_ [= ->]]; by left|].
  destruct (is_blank (cited_gap ps)) eqn:Ec; simpl in H.
  - apply res_bind_ok in H as ([chosen ps'] & Hf & H). rewrite !seq_ok, deny_if_ok, is_blank_false in H.
    destruct H as (Hne & _ & _ & [= ->]). right. apply String.eqb_eq in Ec. eauto.
  - rewrite !seq_ok in H. destruct H as (_ & _ & _ & [= ->]). by left.
Qed.
End autofill.

(** Functional.  Validation changes an intent in one way only: a delegated specialist that cites no gap
    gets one from the ledger, and the one it gets is the most actionable among those that name what the
    dispatch is about: no other such gap is more severe, or as severe and tried less often, or as severe
    and as often tried but first seen earlier.  Every other intent leaves the gate as it came. *)
Theorem autofill_most_actionable {F} `{!FloatOps F} h (g : PolicyGate F) agent intent payload' :
  validate_intent h g agent intent = Ok payload' →
  payload' = i_payload intent ∨
  ∃ params gap key,
    i_type intent = DELEGATE ∧ raw_text "action_name" (i_payload intent) = SPECIALIST_ACTION_NAME ∧
    dget "params" (i_payload intent) = Some (PDict params) ∧
    cited_gap params = EmptyString ∧
    candidate_gap g params gap ∧ gap_actionability_key gap = Ok key ∧
    (∀ gap', candidate_gap g params gap' → ∃ key', gap_actionability_key gap' = Ok key' ∧ gap_key_le key key') ∧
    payload' = dset "params" (PDict (dset "gap_canonical_id" (PStr (get_text "canonical_id" gap)) params))
                 (i_payload intent).
Proof.
  intros H. apply validate_intent_inv in H as (role & _ & _ & H).
  destruct intent as [[] payload]; try (by left); [|by destruct H as [_ ->]; left]. simpl in *.
  unfold _validate_delegate in H. rewrite !seq_ok in H. destruct H as (_ & _ & _ & H).
  destruct (String.eqb_spec (raw_text "action_name" payload) SPECIALIST_ACTION_NAME) as [Ha|_];
    [|rewrite !seq_ok in H; destruct H as (_ & _ & _ & _ & _ & [= ->]); by left].
  rewrite seq_ok in H. destruct H as (_ & H). apply res_bind_ok in H as (params' & Hd & H). injection H as <-.
  destruct (dget "params" payload) as [[| | | | | |[|kv params]]|] eqn:Ep; try (by left).
  destruct (specialist_dispatch_inv h _ _ _ _ _ _ Ep Hd) as [-> |(Hc & chosen & Hf & Hne)];
    [left; by apply dset_same|right].
  destruct (autofill_spec _ _ _ _ Hf) as [[-> _]|(gap & key & ? & ? & -> & -> & ?)]; [done|].
  exists (kv :: params), gap, key. split_and!; done.
Qed.

(** Two gaps of the same domain, the later one more severe. *)
Definition gap_row (id severity : string) : pyval binary64 :=
  PDict [("canonical_id", PStr id); ("severity", PStr severity); ("domain_hint", PStr "communication");
         ("first_seen_ts", PStr "2025-01-01")].
Definition ledger_gate : PolicyGate binary64 :=
  MkGate default_role_registry None
    (Some (MkGateState PHASE_FRAMEWORK_AGENT false [] [gap_row "slow" "low"; gap_row "stall" "high"])) unread_facts.
Definition unnamed_gap : pydict binary64 :=
  [("action_name", PStr "specialist"); ("params", PDict [("domain", PStr "comm_specialist")])].
Lemma autofill_most_actionable_witness :
  ∃ payload', validate_intent plain_host ledger_gate "orchestration" (MkIntent DELEGATE unnamed_gap) = Ok payload' ∧
    payload' ≠ unnamed_gap ∧
    ∃ gap, payload' = dset "params" (PDict (dset "gap_canonical_id" (PStr (get_text "canonical_id" gap))
             [("domain", PStr "comm_specialist")])) unnamed_gap ∧ get_text "canonical_id" gap = "stall".
Proof.
  eexists. split; [vm_compute; reflexivity|]. split; [done|].
  destruct (autofill_most_actionable plain_host ledger_gate "orchestration" (MkIntent DELEGATE unnamed_gap)
    [("action_name", PStr "specialist");
     ("params", PDict [("domain", PStr "comm_specialist"); ("gap_canonical_id", PStr "stall")])])
    as [H|(params & gap & key & _ & _ & Hp & _ & _ & _ & _ & H)]; [vm_compute; reflexivity|done|].
  injection Hp as <-. exists gap. split; [exact H|]. simpl in H. by injection H as <-.
Defined.

(** ** What the gate raises *)

Definition denied (e : exn) : Prop := ∃ rule reason, e = PolicyDenied rule reason.

Lemma denied_deny {A} rule reason : raises_only (A := A) denied (deny rule reason).
Proof. apply raises_raise. by do 2 eexists. Qed.
Lemma denied_if b rule reason : raises_only denied (deny_if b rule reason).
Proof. apply raises_if. intros _. by do 2 eexists. Qed.
Lemma denied_catching {A} caught (m : res A) :
  raises_only (λ e, caught e = true) m → raises_only denied (catching caught m).
Proof. intros H e. unfold catching. destruct m as [a|e']; [done|]. by rewrite (H e'). Qed.

(** Walk a call, guard by guard, leaving the steps that are not guards. *)
Ltac walk :=
  repeat first
    [ apply raises_ok | apply denied_if | apply denied_deny | done
    | progress cbv zeta
    | match goal with |- raises_only _ (mbind _ _) => apply raises_bind; [|intros ? ?] end
    | match goal with |- raises_only _ (match ?x with _ => _ end) => destruct x eqn:? end ].

Section denials.
Context {F : Type} `{!FloatOps F}.
Context (h : host).
Implicit Types (g : PolicyGate F) (v : pyval F) (payload params : pydict F).

(** No infinity anywhere in the value. *)
Fixpoint finite_numbers (v : pyval F) : bool :=
  match v with
  | PFloat f => f_isfinite f || negb (feqb f f)
  | PList l => forallb finite_numbers l
  | PDict d => forallb (λ kv, finite_numbers kv.2) d
  | _ => true
  end.

Lemma finite_dget k payload : finite_numbers (PDict payload) = true → finite_numbers (dget_or_none k payload) = true.
Proof.
  unfold dget_or_none. simpl. intros H. destruct (dget k payload) as [v|] eqn:E; [|done].
  apply dget_elem in E. rewrite forallb_forall in H. by apply list_elem_of_In, H in E.
Qed.

Lemma py_int_raises v : finite_numbers v = true → raises_only (λ e, type_or_value e = true) (py_int v).
Proof.
  intros H e. destruct v as [| |z|f|s| |]; simpl in *; try done; try (by intros [= <-]).
  - destruct (f_isfinite f); [done|]. simpl in H. destruct (feqb f f); [done|]. by intros [= <-].
  - destruct (py_int_of_str s); [done|]. by intros [= <-].
Qed.

Lemma max_turns_raises v w : finite_numbers v = true → raises_only denied (validate_specialist_max_turns_raw v w).
Proof.
  intros H. unfold validate_specialist_max_turns_raw.
  destruct v; try (walk; by apply denied_catching, py_int_raises).
Qed.

Lemma gpu_request_raises g params :
  finite_numbers (PDict params) = true → raises_only denied (_validate_specialist_gpu_request h g params).
Proof.
  intros H. unfold _validate_specialist_gpu_request, requested_gpu_count. walk.
  apply denied_catching, py_int_raises. apply (finite_dget "gpu_count") in H. unfold dget_or_none in H.
  destruct (dget "gpu_count" params) as [[| | | |s| |]|]; try done. by destruct (is_blank _).
Qed.

Lemma wave_raises i wave : forallb finite_numbers wave = true → raises_only denied (validate_wave i wave).
Proof.
  revert i. induction wave as [|task wave IH]; intros i; simpl; [walk|]. intros [Ht Hw]%andb_true_iff.
  apply raises_bind; [|intros _ _; apply raises_bind; [|by intros _ _; apply IH]].
  - unfold validate_freeform_wave_task, _check_freeform_task_description. walk.
  - destruct task; try apply raises_ok. by apply max_turns_raises, finite_dget.
Qed.

Lemma freeform_raises g params :
  finite_numbers (PDict params) = true → raises_only denied (_validate_freeform_specialist_dispatch h g params).
Proof.
  intros H. unfold _validate_freeform_specialist_dispatch.
  apply raises_bind; [by apply max_turns_raises, finite_dget|intros _ _].
  apply raises_bind; [by apply gpu_request_raises|intros _ _].
  pose proof (finite_dget "tasks" _ H) as Ht.
  destruct (dget_or_none "tasks" params) as [| | | | |[|task wave]|];
    try (unfold _check_freeform_task_description; by walk).
  apply raises_bind; [apply denied_if|intros _ _]. by apply wave_raises.
Qed.

(** Every gap of the ledger has a key. *)
Definition ledger_keyed g : Prop :=
  ∀ s gap, shared_state g = Some s → PDict gap ∈ g_gaps s → ∃ key, gap_actionability_key gap = Ok key.

Lemma autofill_raises g params :
  ledger_keyed g → raises_only denied (_autofill_gap_from_ledger g params (normalize_dispatch_tags params)).
Proof.
  intros Hl. unfold _autofill_gap_from_ledger. apply raises_bind; [|intros; apply raises_ok].
  assert (∀ gap, gap ∈ ledger_matches g params (normalize_dispatch_tags params) → ∃ key, gap_actionability_key gap = Ok key) as Hk.
  { intros gap (s & Hs & Hin & _)%ledger_matches_elem. eauto. }
  induction (ledger_matches g params _) as [|gap gaps IH]; simpl; [walk|].
  destruct (Hk gap) as [key ->]; [left|]. simpl. apply raises_bind; [|intros; apply raises_ok].
  apply IH. intros ? ?. apply Hk. by right.
Qed.

Lemma finite_dset k s params :
  finite_numbers (PDict params) = true → finite_numbers (PDict (dset k (PStr s) params)) = true.
Proof.
  simpl. induction params as [|[k' v] params IH]; simpl; [done|]. intros [Hv Hp]%andb_true_iff.
  case_bool_decide; simpl; [done|]. by rewrite Hv, IH.
Qed.

Lemma dispatch_raises g role payload :
  ledger_keyed g → finite_numbers (PDict payload) = true → raises_only denied (_validate_specialist_dispatch h g role payload).
Proof.
  intros Hl Hf. apply (finite_dget "params") in Hf. unfold _validate_specialist_dispatch.
  apply raises_bind; [apply denied_if|intros _ _].
  set (raw := if truthy _ then _ else _). assert (finite_numbers raw = true) as Hr by (unfold raw; by destruct (truthy _)).
  destruct raw as [| | | | | |params]; try apply denied_deny.
  apply raises_bind; [unfold _validate_specialist_framework; walk|intros _ _].
  destruct (_ || _); [apply raises_bind; [by apply freeform_raises|intros; apply raises_ok]|].
  apply raises_bind; [destruct (is_blank _); [by apply autofill_raises|apply raises_ok]|].
  intros [gap params'] Hfill.
  assert (finite_numbers (PDict params') = true) as Hf'.
  { destruct (is_blank _); [|by injection Hfill as _ <-].
    destruct (autofill_spec _ _ _ _ Hfill) as [[_ ->]|(? & ? & _ & _ & _ & -> & _)]; [done|by apply finite_dset]. }
  apply raises_bind; [apply denied_if|intros _ _].
  apply raises_bind; [by apply max_turns_raises, finite_dget|intros _ _].
  apply raises_bind; [by apply gpu_request_raises|intros; apply raises_ok].
Qed.

Lemma delegate_raises g role payload cs tid :
  ledger_keyed g → finite_numbers (PDict payload) = true → raises_only denied (_validate_delegate h g role payload cs tid).
Proof.
  intros Hl Hf. unfold _validate_delegate, deny_search_under_custom_only, deny_coordinator_dispatched_delegate,
    _validate_integrate_patch_critic_gate, _validate_baseline_not_mid_round, _validate_gemm_tuning_action,
    _validate_coordinator_managed_action, _validate_tool_whitelist_collision.
  walk; by apply dispatch_raises.
Qed.

(** *** Paths *)

Context (Hres : ∀ s e, h_resolve h s = Raise e → os_or_runtime e = true).

Lemma resolve_raises s : raises_only (λ e, os_or_runtime e = true) (h_resolve h s).
Proof. intros e. apply Hres. Qed.
Lemma within_raises s root : raises_only denied (resolved_within h s root).
Proof.
  unfold resolved_within. walk. apply denied_catching.
  repeat (apply raises_bind; [apply resolve_raises|intros]). apply raises_ok.
Qed.
Lemma under_session_raises g s : session_dir g ≠ None → raises_only denied (_path_under_session h g s).
Proof.
  unfold _path_under_session. destruct (session_dir g); [|done]. intros _. walk. apply denied_catching.
  repeat (apply raises_bind; [apply resolve_raises|intros]). apply raises_ok.
Qed.
Lemma candidates_raises s : raises_only denied (_framework_relative_candidates h s).
Proof.
  unfold _framework_relative_candidates. walk. apply denied_catching.
  repeat (apply raises_bind; [intros e He; apply Hres in He; by destruct e|intros]).
  destruct (within _ _); [apply raises_ok|]. by apply raises_raise.
Qed.

Lemma visit_raises check key v :
  (∀ k s, raises_only denied (check k s)) → raises_only denied (visit check key v).
Proof.
  intros Hc. revert key. induction v as [| | | | |l IH|d IH] using pyval_ind'; intros key; simpl; walk; try apply Hc.
  - apply raises_for_each. intros x Hx. rewrite Forall_forall in IH. by apply IH.
  - apply raises_for_each. intros x Hx. rewrite Forall_forall in IH. by apply IH.
Qed.

Lemma payload_paths_raises g role it payload trusted :
  raises_only denied (_validate_payload_paths h g role it payload trusted).
Proof.
  unfold _validate_payload_paths. destruct (session_dir g) eqn:E; [|apply raises_ok]. apply visit_raises. intros k s'.
  unfold _check_payload_path, _path_in_trace_allowlist.
  walk; first [apply under_session_raises; congruence | apply denied_catching, resolve_raises | apply within_raises].
Qed.

(** *** Warm replay *)

Lemma patch_key_raises g patch targets :
  session_dir g ≠ None → raises_only denied (_warm_replay_patch_key h g patch targets).
Proof.
  unfold _warm_replay_patch_key, _remote_recipe_files_root. destruct (session_dir g); [|done]. intros _.
  walk; first [apply within_raises | apply denied_catching, resolve_raises | idtac].
  apply denied_catching. apply raises_bind; [apply resolve_raises|intros; apply raises_ok].
Qed.
Lemma warm_target_raises declared t : raises_only denied (check_warm_target h declared t).
Proof.
  unfold check_warm_target.
  walk; first [apply within_raises | apply denied_catching, resolve_raises | apply candidates_raises].
Qed.
Lemma warm_plan_raises g i plan acc : session_dir g ≠ None → raises_only denied (check_warm_plan h g i plan acc).
Proof.
  intros Hd. revert i acc. induction plan as [|entry plan IH]; intros i acc; simpl; [walk|].
  apply raises_bind; [unfold _warm_plan_entry_targets; walk|intros targets _].
  destruct targets as [|t targets]; [apply IH|]. apply raises_bind; [by apply patch_key_raises|intros key _].
  apply raises_bind; [|intros; apply IH]. generalize (t :: targets). intros ts. clear IH. revert acc.
  induction ts as [|x ts IH]; intros acc; simpl; [walk|]. apply raises_bind; [apply warm_target_raises|intros; apply IH].
Qed.
Lemma warm_replay_raises g params : raises_only denied (_validate_warm_replay_targets h g params).
Proof.
  unfold _validate_warm_replay_targets. destruct (session_dir g) eqn:E; [|apply raises_ok]. walk.
  - apply warm_plan_raises. congruence.
  - apply raises_for_each. intros [] _. apply denied_if.
Qed.

(** *** Intents *)

Lemma review_verdict_raises role payload :
  values_ok REVIEW_VERDICT payload → raises_only denied (_validate_review_verdict role payload).
Proof.
  intros Hv. unfold _validate_review_verdict. walk. apply raises_for_each. intros [n e] Hin.
  destruct Hv as [(v & Hs & Hm & _)|(vm & _ & Hm & _ & Hall)]; unfold dget_or_none in Hin; rewrite Hm in Hin; simpl in Hin.
  - by apply not_elem_of_nil in Hin.
  - destruct (Hall n e Hin) as (_ & entry & v & -> & _). unfold check_map_verdict.
    assert ((if truthy (PDict entry) then PDict entry else PDict []) = PDict entry) as -> by (by destruct entry).
    apply denied_if.
Qed.
Lemma extend_lease_raises g payload :
  values_ok EXTEND_LEASE payload → raises_only denied (_validate_extend_lease g payload).
Proof.
  intros (_ & z & Hz & _). unfold _validate_extend_lease. walk. apply denied_catching. unfold get_int.
  destruct (truthy _); [|apply raises_ok]. unfold to_int in Hz. destruct (dget_or_none "extra_sec" payload); try done;
    destruct (py_int _); try done; apply raises_ok.
Qed.
End denials.


(** *** A host and its witnesses *)

Definition demo_resolve (s : string) : res path :=
  match dget s [("/work/s1", ["work"; "s1"]); ("/work/s1/p.diff", ["work"; "s1"; "p.diff"]);
                ("/fw", ["fw"]); ("/fw/srt/a.py", ["fw"; "srt"; "a.py"]); ("/traces/", ["traces"]);
                ("/work/s1/runtime/remote_recipe/files", ["work"; "s1"; "runtime"; "remote_recipe"; "files"]);
                ("/work/s1/runtime/remote_recipe/files/k.diff",
                 ["work"; "s1"; "runtime"; "remote_recipe"; "files"; "k.diff"])] with
  | Some p => Ok p
  | None => Raise (OSError "cannot resolve")
  end.
Definition demo_host : host := MkHost demo_resolve (λ _, ["srt/a.py"]) "/traces" "/fw" false.
Definition demo_gate : PolicyGate binary64 :=
  MkGate default_role_registry (Some "/work/s1") None unread_facts.

Definition patch_message : pydict binary64 :=
  [("topic", PStr "note"); ("body", PList [PDict [("patch_path", PStr "/work/s1/p.diff")]])].
Lemma admitted_paths_contained_witness : contained demo_host demo_gate "patch_path" "/work/s1/p.diff".
Proof.
  apply (admitted_paths_contained demo_host demo_gate "critic" (MkIntent SEND_MESSAGE patch_message) patch_message "/work/s1");
    [reflexivity|vm_compute; reflexivity| |done|by apply (bool_decide_eq_true _)].
  eapply tu_dict; [right; left|]. eapply tu_list; [left|]. eapply tu_dict; [left|]. constructor.
Defined.

Definition warm_params : pydict binary64 :=
  [("warm_kernel_plan", PList [PDict [("patch_path", PStr "/work/s1/runtime/remote_recipe/files/k.diff");
                                      ("resolved_patch_targets", PList [PStr "/fw/srt/a.py"])]])].

Definition turned (turns : pyval binary64) : pydict binary64 :=
  [("action_name", PStr "specialist");
   ("params", PDict [("scope", PStr "freeform"); ("task_description", PStr "probe"); ("max_turns", turns)])].

(** Error.  An infinite turn count is not refused: [int()] of it raises [OverflowError], which neither the
    check nor the callers of the gate catch, although the check says it denies every value that is not a
    non-negative integer. *)
Theorem infinite_max_turns_escapes :
  validate_intent demo_host demo_gate "orchestration" (MkIntent DELEGATE (turned (PFloat (SpecFloat.S754_infinity false)))) =
  Raise (OverflowError "cannot convert float infinity to integer").
Proof. vm_compute. reflexivity. Qed.
