(* ===== verification/OperatorName.v ===== *)
(** * Operator names ([kernelforge/knowledge/kb_store/identity/implementation.py])

    [normalize_operator_name] gives the spelling under which a kernel is known across lanes: the same
    kernel declared in camel case in a header and in snake case in the module that binds it.  The
    kernel gate compares landed recipes and trace rows on it. *)

From stdpp Require Import base list strings.
From Stdlib Require Import ZArith Lia Ascii.
From Stdlib Require String.
From S2P Require Import Prelude PyFloat PyVal.

Definition _UNKNOWN : string := "unknown".
Definition _ACRONYM_FRAGMENT_MAX : nat := 2.

Definition is_upper (c : ascii) : bool := (65 <=? nat_of_ascii c) && (nat_of_ascii c <=? 90).
Definition is_lower (c : ascii) : bool := (97 <=? nat_of_ascii c) && (nat_of_ascii c <=? 122).
Definition is_alnum (c : ascii) : bool := is_upper c || is_lower c || is_digit c.
Definition underscore : ascii := "_"%char.

(** [name.rsplit("::", 1)[-1]]: what follows the last separator, the whole name when there is none. *)
Fixpoint after_last (l : list ascii) : option (list ascii) :=
  match l with
  | [] => None
  | c :: l' =>
      match after_last l' with
      | Some r => Some r
      | None => match l' with
                | d :: r => if bool_decide (c = ":"%char ∧ d = ":"%char) then Some r else None
                | [] => None
                end
      end
  end.

(** The text outside template brackets and the depth left open at the end. *)
Fixpoint strip_loop (depth : nat) (l : list ascii) : list ascii * nat :=
  match l with
  | [] => ([], depth)
  | c :: l' =>
      if bool_decide (c = "<"%char) then strip_loop (S depth) l'
      else if bool_decide (c = ">"%char) && (0 <? depth) then strip_loop (pred depth) l'
      else let '(out, d) := strip_loop depth l' in
           ((if depth =? 0 then c :: out else out), d)
  end.
Definition _strip_balanced_template_arguments (l : list ascii) : list ascii :=
  let '(out, depth) := strip_loop 0 l in if depth =? 0 then out else l.

(** Insert an underscore wherever [boundary prev next rest] holds between two characters. *)
Fixpoint insert_at (boundary : ascii → ascii → list ascii → bool) (l : list ascii) : list ascii :=
  match l with
  | c :: ((d :: rest) as l') =>
      if boundary c d rest then c :: underscore :: insert_at boundary l' else c :: insert_at boundary l'
  | _ => l
  end.
Definition _ACRONYM_BOUNDARY (prev next : ascii) (rest : list ascii) : bool :=
  is_upper prev && is_upper next && match rest with c :: _ => is_lower c | [] => false end.
Definition _LOWER_UPPER_BOUNDARY (prev next : ascii) (_ : list ascii) : bool :=
  (is_lower prev || is_digit prev) && is_upper next.

(** [s.split("_")] *)
Fixpoint pieces (acc l : list ascii) : list (list ascii) :=
  match l with
  | [] => [reverse acc]
  | c :: l' => if bool_decide (c = underscore) then reverse acc :: pieces [] l' else pieces (c :: acc) l'
  end.

(** The loop over the pieces; [merged] is kept in reverse. *)
Fixpoint merge_pieces (merged ps : list (list ascii)) : list (list ascii) :=
  match ps with
  | [] => reverse merged
  | p :: ps' =>
      match merged with
      | m :: rest => if (length p =? 1) && (length m <=? _ACRONYM_FRAGMENT_MAX)
                     then merge_pieces ((m ++ p) :: rest) ps' else merge_pieces (p :: merged) ps'
      | [] => merge_pieces [p] ps'
      end
  end.

(** [sep.join(parts)] for the underscore. *)
Fixpoint join_pieces (ps : list (list ascii)) : list ascii :=
  match ps with
  | [] => []
  | [p] => p
  | p :: ps' => p ++ underscore :: join_pieces ps'
  end.

Definition split_word (w : list ascii) : list ascii :=
  join_pieces (merge_pieces [] (pieces [] (insert_at _LOWER_UPPER_BOUNDARY (insert_at _ACRONYM_BOUNDARY w)))).

(** [_WORD_RE.sub(split_word, value)]: each maximal run of letters and digits; [word] is the run so far,
    in reverse. *)
Fixpoint sub_words (word l : list ascii) : list ascii :=
  match l with
  | [] => match word with [] => [] | _ => split_word (reverse word) end
  | c :: l' =>
      if is_alnum c then sub_words (c :: word) l'
      else match word with [] => [] | _ => split_word (reverse word) end ++ c :: sub_words [] l'
  end.
Definition _split_camel_case (l : list ascii) : list ascii := sub_words [] l.

(** A character of a clean name, and the ones [re.sub("[^a-z0-9_]+", "_")] replaces. *)
Definition is_name_char (c : ascii) : bool := is_lower c || is_digit c || bool_decide (c = underscore).

(** A run of other characters becomes one underscore. *)
Fixpoint sub_others (in_run : bool) (l : list ascii) : list ascii :=
  match l with
  | [] => []
  | c :: l' =>
      if is_name_char c then c :: sub_others false l'
      else if in_run then sub_others true l' else underscore :: sub_others true l'
  end.

(** [re.sub("_+", "_")] *)
Fixpoint squeeze (l : list ascii) : list ascii :=
  match l with
  | c :: ((d :: _) as l') =>
      if bool_decide (c = underscore ∧ d = underscore) then squeeze l' else c :: squeeze l'
  | _ => l
  end.

(** [s.strip("_")] *)
Fixpoint drop_underscores (l : list ascii) : list ascii :=
  match l with
  | c :: l' => if bool_decide (c = underscore) then drop_underscores l' else l
  | [] => []
  end.
Definition strip_underscores (l : list ascii) : list ascii :=
  reverse (drop_underscores (reverse (drop_underscores l))).

(** [re.sub("_kernel$", "")] *)
Definition kernel_suffix : list ascii := chars "_kernel".
Definition drop_kernel (l : list ascii) : list ascii :=
  if bool_decide (kernel_suffix `suffix_of` l) then take (length l - length kernel_suffix) l else l.

Definition dot_to_underscore (c : ascii) : ascii := if bool_decide (c = "."%char) then underscore else c.

Definition normalize_operator_name (value : string) : string :=
  let name := chars (py_strip value) in
  let name := default name (after_last name) in
  let name := _strip_balanced_template_arguments name in
  let name := _split_camel_case name in
  let name := dot_to_underscore <$> (lower_char <$> name) in
  let name := strip_underscores (sub_others false name) in
  let name := squeeze name in
  let name := drop_kernel name in
  if bool_decide (name = []) then _UNKNOWN else of_chars name.

Example normalize_examples :
  normalize_operator_name <$>
    ["KdaPackedDecodeKernel"; "kda_packed_decode_kernel"; "FusedMoE"; "ChunkFwdKernelO"; "ns::HTTPServer<int, A<b>>";
     "aten::mm.out"; "  "; "a<b"; "MoEGemm"; "x_kernel_kernel"]
  = ["kda_packed_decode"; "kda_packed_decode"; "fused_moe"; "chunk_fwd_kernel_o"; "http_server"; "mm_out"; "unknown";
     "a_b"; "moe_gemm"; "x_kernel"].
Proof. vm_compute. reflexivity. Qed.

(** ** Clean names *)

Definition name_chars (l : list ascii) : Prop := Forall (λ c, is_name_char c = true) l.
Definition no_double (l : list ascii) : Prop := ∀ i, ¬ (l !! i = Some underscore ∧ l !! S i = Some underscore).
Definition clean (l : list ascii) : Prop :=
  name_chars l ∧ head l ≠ Some underscore ∧ last l ≠ Some underscore ∧ no_double l.

Lemma name_char_facts c :
  is_name_char c = true →
  is_space c = false ∧ c ≠ ":"%char ∧ c ≠ "<"%char ∧ c ≠ ">"%char ∧ is_upper c = false ∧
  lower_char c = c ∧ dot_to_underscore c = c ∧ (c ≠ underscore → is_alnum c = true) ∧ (c = underscore → is_alnum c = false).
Proof. by destruct c as [[] [] [] [] [] [] [] []]. Qed.

Section identity.
Implicit Types (l w : list ascii).

Lemma chars_of_chars l : chars (of_chars l) = l.
Proof. apply String.list_ascii_of_string_of_list_ascii. Qed.
Lemma drop_space_id l : name_chars l → drop_space l = l.
Proof. destruct 1 as [|c l Hc _]; [done|]. simpl. by destruct (name_char_facts c Hc) as (-> & _). Qed.
Lemma py_strip_id l : name_chars l → py_strip (of_chars l) = of_chars l.
Proof.
  intros H. unfold py_strip. rewrite chars_of_chars.
  rewrite (drop_space_id l H), drop_space_id, reverse_involutive; [done|]. unfold name_chars. by rewrite Forall_reverse.
Qed.
Lemma after_last_none l : name_chars l → after_last l = None.
Proof.
  induction 1 as [|c l Hc Hl IH]; [done|]. simpl. rewrite IH. destruct l as [|d l]; [done|].
  rewrite bool_decide_eq_false_2; [done|]. intros [-> _]. by destruct (name_char_facts ":" Hc) as (_ & ? & _).
Qed.
Lemma strip_loop_id l : name_chars l → strip_loop 0 l = (l, 0).
Proof.
  induction 1 as [|c l Hc Hl IH]; [done|]. simpl. destruct (name_char_facts c Hc) as (_ & _ & H1 & H2 & _).
  rewrite !bool_decide_eq_false_2 by done. simpl. by rewrite IH.
Qed.

Lemma insert_at_id boundary l :
  (∀ c d r, d ∈ l → boundary c d r = false) → insert_at boundary l = l.
Proof.
  induction l as [|c l IH]; intros H; [done|]. simpl. destruct l as [|d l]; [done|].
  rewrite H by (right; left). f_equal. apply IH. intros. apply H. by right.
Qed.
Lemma pieces_id acc w : underscore ∉ w → pieces acc w = [reverse acc ++ w].
Proof.
  revert acc. induction w as [|c w IH]; intros acc Hw; simpl; [by rewrite app_nil_r|].
  apply not_elem_of_cons in Hw as [Hc Hw]. rewrite bool_decide_eq_false_2, IH by congruence.
  by rewrite reverse_cons, <- app_assoc.
Qed.
Lemma split_word_id w : (∀ c, c ∈ w → is_upper c = false ∧ c ≠ underscore) → split_word w = w.
Proof.
  intros H. unfold split_word. rewrite (insert_at_id _ACRONYM_BOUNDARY), insert_at_id, pieces_id; [done| | |].
  - intros Hin. by apply H in Hin as [_ ?].
  - intros c d r Hd. unfold _LOWER_UPPER_BOUNDARY. destruct (H d Hd) as [-> _]. apply andb_false_r.
  - intros c d r Hd. unfold _ACRONYM_BOUNDARY. destruct (H d Hd) as [-> _]. by rewrite andb_false_r.
Qed.
Lemma split_run_id w : name_chars w → underscore ∉ w → split_word (reverse w) = reverse w.
Proof.
  intros Hw Hu. apply split_word_id. intros x Hx. rewrite elem_of_reverse in Hx.
  unfold name_chars in Hw. rewrite Forall_forall in Hw.
  destruct (name_char_facts x (Hw x Hx)) as (_ & _ & _ & _ & ? & _). split; [done|]. by intros ->.
Qed.
Lemma sub_words_id word l :
  name_chars word → underscore ∉ word → name_chars l → sub_words word l = reverse word ++ l.
Proof.
  intros Hw Hu Hl. revert word Hw Hu. induction Hl as [|c l Hc Hl IH]; intros word Hw Hu; simpl.
  - destruct word as [|d word]; [done|]. rewrite app_nil_r. by apply split_run_id.
  - destruct (name_char_facts c Hc) as (_ & _ & _ & _ & _ & _ & _ & Ha & Hb). destruct (decide (c = underscore)) as [->|Hne].
    + rewrite Hb by done. rewrite IH; [|constructor|apply not_elem_of_nil].
      destruct word as [|d word]; [done|]. simpl. f_equal. by apply split_run_id.
    + rewrite Ha by done. rewrite IH; [|by constructor|by apply not_elem_of_cons].
      by rewrite reverse_cons, <- app_assoc.
Qed.
Lemma sub_others_id b l : name_chars l → sub_others b l = l.
Proof. intros H. revert b. induction H as [|c l Hc Hl IH]; intros b; [done|]. simpl. rewrite Hc. by rewrite IH. Qed.
Lemma drop_underscores_id l : head l ≠ Some underscore → drop_underscores l = l.
Proof. destruct l as [|c l]; [done|]. simpl. intros H. rewrite bool_decide_eq_false_2; [done|]. congruence. Qed.
Lemma strip_underscores_id l : head l ≠ Some underscore → last l ≠ Some underscore → strip_underscores l = l.
Proof.
  intros H1 H2. unfold strip_underscores. rewrite (drop_underscores_id l) by done.
  rewrite drop_underscores_id, reverse_involutive; [done|]. by rewrite head_reverse.
Qed.
Lemma squeeze_id l : no_double l → squeeze l = l.
Proof.
  induction l as [|c l IH]; intros H; [done|]. simpl. destruct l as [|d l]; [done|].
  rewrite bool_decide_eq_false_2; [|intros [-> ->]; by apply (H 0)]. f_equal. apply IH. intros i. apply (H (S i)).
Qed.

Lemma normalize_clean l :
  clean l → l ≠ [] → ¬ kernel_suffix `suffix_of` l → normalize_operator_name (of_chars l) = of_chars l.
Proof.
  intros (Hn & Hh & Ht & Hd) Hne Hk. unfold normalize_operator_name. rewrite py_strip_id by done.
  rewrite chars_of_chars, after_last_none by done. simpl.
  unfold _strip_balanced_template_arguments. rewrite strip_loop_id by done. simpl.
  unfold _split_camel_case. rewrite sub_words_id; [|constructor|apply not_elem_of_nil|done]. simpl.
  rewrite <- list_fmap_compose, (list_fmap_ext _ id), list_fmap_id.
  - rewrite sub_others_id, strip_underscores_id, squeeze_id by done. unfold drop_kernel.
    rewrite (bool_decide_eq_false_2 (kernel_suffix `suffix_of` l)) by done. by rewrite bool_decide_eq_false_2.
  - intros i c Hc. unfold name_chars in Hn. rewrite Forall_lookup in Hn.
    destruct (name_char_facts c (Hn i c Hc)) as (_ & _ & _ & _ & _ & E1 & E2 & _). simpl. by rewrite E1, E2.
Qed.
End identity.

Section output.
Implicit Types l : list ascii.

Lemma sub_others_chars b l : name_chars (sub_others b l).
Proof.
  revert b. induction l as [|c l IH]; intros b; simpl; [constructor|].
  destruct (is_name_char c) eqn:E; [by constructor; [|apply IH]|]. destruct b; [apply IH|]. by constructor; [|apply IH].
Qed.
Lemma drop_underscores_suffix l : drop_underscores l `suffix_of` l ∧ head (drop_underscores l) ≠ Some underscore.
Proof.
  induction l as [|c l [IH1 IH2]]; [done|]. simpl. case_bool_decide; [split; [by apply suffix_cons_r|done]|].
  split; [done|]. simpl. congruence.
Qed.
Lemma strip_underscores_spec l :
  name_chars l →
  name_chars (strip_underscores l) ∧ head (strip_underscores l) ≠ Some underscore ∧
  last (strip_underscores l) ≠ Some underscore.
Proof.
  intros Hl. unfold strip_underscores. destruct (drop_underscores_suffix l) as [[p Hp] Hh].
  set (m := drop_underscores l) in *. destruct (drop_underscores_suffix (reverse m)) as [[q Hq] Ht].
  set (r := drop_underscores (reverse m)) in *. rewrite last_reverse.
  assert (m = reverse r ++ reverse q) as Em by (rewrite <- reverse_app, <- Hq; by rewrite reverse_involutive).
  assert (name_chars m) as Hm by (rewrite Hp in Hl; by apply Forall_app in Hl as [_ ?]).
  rewrite Em in Hm, Hh. apply Forall_app in Hm as [Hm _]. split_and!; [done| |done].
  destruct (reverse r) as [|c r']; [done|]. done.
Qed.

Lemma squeeze_spec l :
  name_chars l → name_chars (squeeze l) ∧ head (squeeze l) = head l ∧ last (squeeze l) = last l ∧ no_double (squeeze l).
Proof.
  induction l as [|c l IH]; intros Hl; [split_and!; try done; by intros i [? _]|].
  apply Forall_cons in Hl as [Hc Hl]. simpl. destruct l as [|d l].
  { split_and!; try done; [by constructor|]. intros i [_ H]. by destruct i. }
  destruct (IH Hl) as (H1 & H2 & H3 & H4). case_bool_decide as E.
  - destruct E as [-> ->]. by split_and!.
  - split_and!; [by constructor|done| |].
    + rewrite last_cons, H3. simpl. by destruct (last (d :: l)) eqn:El; [|apply last_None in El].
    + intros [|i]; simpl; [|apply H4]. intros [[= ->] Hd].
      assert (head (squeeze (d :: l)) = Some underscore) as Hd' by (rewrite head_lookup; exact Hd).
      rewrite H2 in Hd'. injection Hd' as ->. by apply E.
Qed.

Lemma drop_kernel_clean l : clean l → clean (drop_kernel l).
Proof.
  intros (Hn & Hh & Ht & Hd). unfold drop_kernel. case_bool_decide as E; [|done]. destruct E as [p ->].
  rewrite length_app, Nat.add_sub, take_app_length. apply Forall_app in Hn as [Hn _]. split_and!.
  - done.
  - destruct p; [done|]. done.
  - intros Hl. apply (Hd (pred (length p))). rewrite last_lookup in Hl. split; [by apply lookup_app_l_Some|].
    rewrite lookup_app_r; [|apply lookup_lt_Some in Hl; lia].
    apply lookup_lt_Some in Hl. by replace (S (pred (length p)) - length p) with 0 by lia.
  - intros i [H1 H2]. apply (Hd i). split; by apply lookup_app_l_Some.
Qed.

Lemma normalize_output s :
  ∃ l, normalize_operator_name s = of_chars l ∧ clean l ∧ l ≠ [].
Proof.
  unfold normalize_operator_name. set (l0 := sub_others _ _).
  destruct (strip_underscores_spec l0) as (H1 & H2 & H3); [apply sub_others_chars|].
  destruct (squeeze_spec _ H1) as (H4 & H5 & H6 & H7).
  assert (clean (squeeze (strip_underscores l0))) as Hc by (split_and!; [done|by rewrite H5|by rewrite H6|done]).
  apply drop_kernel_clean in Hc. case_bool_decide as E; [|by eexists].
  exists (chars _UNKNOWN). split_and!; [done| |done]. split_and!; [|done..|].
  - by repeat constructor.
  - intros i [Hi _]. by do 8 (destruct i as [|i]; [discriminate|]).
Qed.
End output.

(** Functional.  A normalized operator name is stable: it is made of lower-case letters, digits and single
    inner underscores, it is never empty, and normalizing it again changes nothing unless it still ends in
    [_kernel]; so the two sides of the gate, one of which normalizes an already normalized name, agree on
    every other name. *)
Theorem operator_name_stable s :
  (∃ l, normalize_operator_name s = of_chars l ∧ clean l ∧ l ≠ []) ∧
  (¬ kernel_suffix `suffix_of` chars (normalize_operator_name s) →
   normalize_operator_name (normalize_operator_name s) = normalize_operator_name s).
Proof.
  destruct (normalize_output s) as (l & -> & Hc & Hne). split; [eauto|]. rewrite chars_of_chars. by apply normalize_clean.
Qed.

(** Functional.  The exception is real: a name that carries the suffix twice loses it one normalization at
    a time, so a landed recipe, whose name is normalized twice, and the trace row of the same kernel,
    normalized once, do not meet. *)
Theorem operator_name_not_idempotent :
  normalize_operator_name "rms_norm_kernel_kernel" = "rms_norm_kernel" ∧
  normalize_operator_name (normalize_operator_name "rms_norm_kernel_kernel") = "rms_norm".
Proof. split; vm_compute; reflexivity. Qed.
