(* ===== verification/KernelQueue.v ===== *)
(** * The kernel patch queue ([kernel/kernel_decisions.py], [patch_landing.py], [nomination_result.py])

    Patches nominated by the kernel lane wait in a queue keyed by an integration id, are measured end to
    end one at a time, and end integrated, rejected or failed at dispatch.  The model keeps the ledgers as
    the shared state does, as dicts of dicts, with the exceptions their readers can raise.

    Arguments: [digest] is the hash that names a patch (its task key, source file and artifact path, the
    artifact bundle being empty at its only caller), and the environment gives the patch budget. *)

From stdpp Require Import base list strings pretty sets.
From Stdlib Require Import ZArith Lia Ascii.
From Stdlib Require String.
From S2P Require Import Prelude PyFloat PyVal PhaseChain PhaseMachine Protocol OperatorName.

(** ** Values *)

Section values.
Context {F : Type} `{!FloatOps F}.
Implicit Types (v : pyval F) (d : pydict F).

(** [str(v or "")] *)
Definition _text v : string := if truthy v then py_str v else EmptyString.

(** [list(v or [])] of a JSON value: a string gives its characters, a dict its keys. *)
Definition py_iter v : res (list (pyval F)) :=
  if negb (truthy v) then Ok []
  else match v with
       | PList l => Ok l
       | PDict d => Ok ((λ kv, PStr kv.1) <$> d)
       | PStr s => Ok ((λ c, PStr (of_chars [c])) <$> chars s)
       | _ => Raise (TypeError "object is not iterable")
       end.

(** [v in names] for a frozenset of strings: a list or a dict has no hash. *)
Definition in_names v (names : list string) : res bool :=
  match v with
  | PStr s => Ok (bool_decide (s ∈ names))
  | PList _ | PDict _ => Raise (TypeError "unhashable type")
  | _ => Ok false
  end.

(** [d.pop(k, None)] *)
Definition dpop (k : string) d : pydict F := filter (λ kv, kv.1 ≠ k) d.

(** The dicts among some values. *)
Definition dicts (l : list (pyval F)) : list (pydict F) := omap as_dict l.

(** [to_float(v, 0.0)] *)
Definition to_float0 v : res F := x ← to_float v; Ok (default fzero x).
End values.

(** ** Nominations ([nomination_result.py]) *)

Definition DROP_MISSING_KERNEL_NAME : string := "missing_kernel_name".
Definition DROP_MISSING_PATCH_PATH : string := "missing_patch_path".
Definition DROP_MISSING_TARGET_FILE : string := "missing_target_file".
Definition DROP_DUPLICATE_KERNEL_NAME : string := "duplicate_kernel_name".
Definition DROP_NOT_AN_OBJECT : string := "not_an_object".

Record NominatedPatch (F : Type) := MkNominated {
  kernel_name : string;
  patch_path : string;
  target_file : string;
  kernel_repo : string;
  snapshot_dir : string;
  base_commit : string;
  micro_speedup : F;
  env_flag : string
}.
Arguments MkNominated {F} _ _ _ _ _ _ _ _.
Arguments kernel_name {F} _.
Arguments patch_path {F} _.
Arguments target_file {F} _.
Arguments kernel_repo {F} _.
Arguments snapshot_dir {F} _.
Arguments base_commit {F} _.
Arguments micro_speedup {F} _.
Arguments env_flag {F} _.

Record DroppedPatch := MkDropped { dp_reason : string; dp_kernel_name : string }.
Record NominationOutcome (F : Type) := MkOutcome {
  patches : list (NominatedPatch F);
  dropped : list DroppedPatch;
  schema_error : string
}.
Arguments MkOutcome {F} _ _ _.
Arguments patches {F} _.
Arguments dropped {F} _.
Arguments schema_error {F} _.

Section nominations.
Context {F : Type} `{!FloatOps F}.
Implicit Types (v : pyval F) (row : pydict F) (p : NominatedPatch F).

Definition is_empty (o : NominationOutcome F) : bool := bool_decide (length (patches o) = 0).

(** [str(d.get(k) or "").strip()] *)
Definition stripped (k : string) row : string := py_strip (get_str k row).

Definition _finite_float v : res F :=
  match v with
  | PInt _ | PFloat _ => x ← py_float v; Ok (if f_isfinite x then x else fzero)
  | _ => Ok fzero
  end.

(** A patch, or why it was dropped. *)
Definition _read_entry v : res (NominatedPatch F + string) :=
  match v with
  | PDict row =>
      if String.eqb (stripped "kernel_name" row) EmptyString then Ok (inr DROP_MISSING_KERNEL_NAME)
      else if String.eqb (stripped "patch_path" row) EmptyString then Ok (inr DROP_MISSING_PATCH_PATH)
      else if String.eqb (stripped "target_file" row) EmptyString then Ok (inr DROP_MISSING_TARGET_FILE)
      else
        speedup ← _finite_float (dget_or_none "micro_speedup" row);
        Ok (inl (MkNominated (stripped "kernel_name" row) (stripped "patch_path" row) (stripped "target_file" row)
                   (stripped "kernel_repo" row) (stripped "snapshot_dir" row) (stripped "base_commit" row)
                   speedup (stripped "env_flag" row)))
  | _ => Ok (inr DROP_NOT_AN_OBJECT)
  end.

(** One row of the envelope: the patches kept so far by name and the drops so far. *)
Definition read_row (acc : list (string * NominatedPatch F) * list DroppedPatch) v
    : res (list (string * NominatedPatch F) * list DroppedPatch) :=
  let '(kept, drops) := acc in
  entry ← _read_entry v;
  match entry with
  | inr reason =>
      Ok (kept, drops ++ [MkDropped reason (match v with PDict row => get_str "kernel_name" row | _ => EmptyString end)])
  | inl p =>
      match dget (kernel_name p) kept with
      | None => Ok (dset (kernel_name p) p kept, drops)
      | Some incumbent =>
          let weaker_is_new := fleb (micro_speedup p) (micro_speedup incumbent) in
          let stronger := if weaker_is_new then incumbent else p in
          let weaker := if weaker_is_new then p else incumbent in
          Ok (dset (kernel_name p) stronger kept, drops ++ [MkDropped DROP_DUPLICATE_KERNEL_NAME (kernel_name weaker)])
      end
  end.

Fixpoint read_rows (acc : list (string * NominatedPatch F) * list DroppedPatch) (rows : list (pyval F))
    : res (list (string * NominatedPatch F) * list DroppedPatch) :=
  match rows with
  | [] => Ok acc
  | v :: rows' => acc' ← read_row acc v; read_rows acc' rows'
  end.

(** Strongest first; the sort is stable. *)
Definition stronger_leb p q : bool := fleb (micro_speedup q) (micro_speedup p).

Definition parse_outcome v : res (NominationOutcome F) :=
  match v with
  | PDict payload =>
      match dget_or_none "patches" payload with
      | PNone => Ok (MkOutcome [] [] "result envelope carries no patches array")
      | PList entries =>
          r ← read_rows ([], []) entries;
          let ordered := sort_by stronger_leb (snd <$> r.1) in
          let err := if negb (bool_decide (entries = [])) && bool_decide (length ordered = 0)
                     then "every one of the " +:+ pretty (length entries) +:+ " offered patch entries was refused"
                     else EmptyString in
          Ok (MkOutcome ordered r.2 err)
      | other => Ok (MkOutcome [] [] ("patches is " +:+ type_name other +:+ ", not an array"))
      end
  | _ => Ok (MkOutcome [] [] ("result envelope is " +:+ type_name v +:+ ", not an object"))
  end.
End nominations.

(** ** Landing ([patch_landing.py]) *)

Definition DEFAULT_PATCH_BUDGET : Z := 3.
Definition TERMINAL_RETENTION_MULTIPLE : Z := 2.
Definition VERDICT_STATUSES : list string := ["integrated"; "rejected"].
Definition TERMINAL_STATUSES : list string := VERDICT_STATUSES ++ ["dispatch_failed"].
Definition INTEGRATING_STACK_ACTIONS : list string := ["integrate"; "fusion"].

Section landing.
Context {F : Type} `{!FloatOps F}.
Implicit Types (v : pyval F) (record : pydict F) (queue : pydict F).

Definition first_nonblank (a b : string) : string := if String.eqb a EmptyString then b else a.

Definition record_source_path record : string :=
  py_strip (first_nonblank (get_str "target_file" record) (get_str "source_file" record)).

Definition record_matches_task record (kernel_id task_group_key source_file : string) (aliases : list string) : bool :=
  let recorded_key := get_str "task_group_key" record in
  if negb (String.eqb task_group_key EmptyString) && negb (String.eqb recorded_key EmptyString)
  then bool_decide (recorded_key ∈ task_group_key :: aliases)
  else if negb (String.eqb (get_str "kernel_id" record) kernel_id) then false
  else
    let recorded_source := record_source_path record in
    if negb (String.eqb source_file EmptyString) && negb (String.eqb recorded_source EmptyString)
    then String.eqb source_file recorded_source
    else true.

(** The stack rows whose KEEP landed a whole source file. *)
Record IntegratedStack := MkIntegrated { is_entries : list (pydict F); is_source_files : list string }.

Fixpoint integrating_entries (stack : list (pyval F)) : res (list (pydict F)) :=
  match stack with
  | [] => Ok []
  | PDict e :: stack' =>
      landed ← in_names (dget_or_none "action" e) INTEGRATING_STACK_ACTIONS;
      rest ← integrating_entries stack';
      Ok (if (landed : bool) then e :: rest else rest)
  | _ :: stack' => integrating_entries stack'
  end.
Definition integrated_of (stack : list (pyval F)) : res IntegratedStack :=
  entries ← integrating_entries stack;
  Ok (MkIntegrated entries (filter (λ p, p ≠ EmptyString) (record_source_path <$> entries))).

Definition covers (i : IntegratedStack) (kernel_ids : list string) (task_group_key source_file : string)
    (aliases : list string) : bool :=
  (negb (String.eqb source_file EmptyString) && bool_decide (source_file ∈ is_source_files i)) ||
  existsb (λ kid, existsb (λ e, record_matches_task e kid task_group_key source_file aliases) (is_entries i)) kernel_ids.

Definition optional_positive_int v (dflt : Z) : Z :=
  match to_int v with
  | Some n => if (n <=? 0)%Z then dflt else n
  | None => dflt
  end.
Definition patch_budget (configured : pyval F) : Z := optional_positive_int configured DEFAULT_PATCH_BUDGET.

Definition is_terminal v : bool :=
  match v with
  | PDict record => bool_decide (first_nonblank (get_str "status" record) "pending" ∈ TERMINAL_STATUSES)
  | _ => false
  end.
(** The records still to be dispatched, in order (a dict's keys are distinct), and the terminal ones. *)
Definition live_part queue : pydict F := filter (λ kv, is_terminal kv.2 = false) queue.
Definition terminal_part queue : pydict F := filter (λ kv, is_terminal kv.2 = true) queue.

Definition speedup_of v : res F :=
  match v with PDict record => to_float0 (dget_or_none "micro_speedup" record) | _ => Ok fzero end.
Definition weaker_leb (a b : F * (string * pyval F)) : bool := fleb a.1 b.1.

Definition evict_terminal queue (budget retention_multiple : Z) : res (pydict F) :=
  let terminal := terminal_part queue in
  let keep := Z.to_nat (Z.max 0 budget * Z.max 0 retention_multiple) in
  if (length terminal <=? keep)%nat then Ok (live_part queue ++ terminal)
  else
    keyed ← map_res (λ kv, k ← speedup_of kv.2; Ok (k, kv)) terminal;
    let sorted := snd <$> sort_by weaker_leb keyed in
    Ok (live_part queue ++ drop (length sorted - keep) sorted).

Definition bundle_belongs_to (bundle integration_id : pyval F) : bool :=
  match bundle with
  | PDict b =>
      let resolved_id := py_strip (_text integration_id) in
      let bundle_id := stripped "integration_id" b in
      if String.eqb resolved_id EmptyString || String.eqb bundle_id EmptyString then true
      else String.eqb bundle_id resolved_id
  | _ => false
  end.
End landing.
Arguments IntegratedStack F : clear implicits.

(** ** The queue and the ledgers ([kernel_decisions.py]) *)

Definition _MAX_INTEGRATE_FAULT_ATTEMPTS : Z := 2.
Definition _MAX_INTEGRATE_E2E_ATTEMPTS : Z := 3.
Definition _DEFAULT_ATTEMPTS_HISTORY : nat := 20.
Definition _FUSION_LANE : string := "forge_fusion".

Definition _INTEGRATE_FAULT_ERROR_CLASSES : list string :=
  ["missing_integration_inputs"; "patch_not_applied"; "apply_failed"; "eval_context_too_small";
   "mn_server_restart_failed_post_patch"; "rebaseline_exception"; "cpp_itfs_rebuild_not_verified";
   "framework_script_mismatch"; "bench_exception"; "subtask_exception"; "handler_exception"; "subprocess_timeout"].

Record kernel_state (F : Type) := MkKernelState {
  pending_kernel_integrations : pydict F;
  kernel_integrate_attempts : pydict F;
  rejected_kernel_patches : list (pyval F);
  rejected_kernel_ids : list string;
  optimization_stack : list (pyval F);
  last_trace_analyze : pydict F;
  kernel_rewrite_controller_result : pydict F;
  last_gemm_tuning : pydict F;
  gemm_tuning_attempts : list (pyval F);
  ks_macro_cycle : Z
}.
Arguments MkKernelState {F} _ _ _ _ _ _ _ _ _ _.
Arguments pending_kernel_integrations {F} _.
Arguments kernel_integrate_attempts {F} _.
Arguments rejected_kernel_patches {F} _.
Arguments rejected_kernel_ids {F} _.
Arguments optimization_stack {F} _.
Arguments last_trace_analyze {F} _.
Arguments kernel_rewrite_controller_result {F} _.
Arguments last_gemm_tuning {F} _.
Arguments gemm_tuning_attempts {F} _.
Arguments ks_macro_cycle {F} _.

Section setters.
Context {F : Type}.
Implicit Types s : kernel_state F.
Definition set_queue (q : pydict F) s : kernel_state F :=
  MkKernelState q (kernel_integrate_attempts s) (rejected_kernel_patches s) (rejected_kernel_ids s)
    (optimization_stack s) (last_trace_analyze s) (kernel_rewrite_controller_result s) (last_gemm_tuning s)
    (gemm_tuning_attempts s) (ks_macro_cycle s).
Definition set_attempts (a : pydict F) s : kernel_state F :=
  MkKernelState (pending_kernel_integrations s) a (rejected_kernel_patches s) (rejected_kernel_ids s)
    (optimization_stack s) (last_trace_analyze s) (kernel_rewrite_controller_result s) (last_gemm_tuning s)
    (gemm_tuning_attempts s) (ks_macro_cycle s).
Definition set_rejected (p : list (pyval F)) (ids : list string) s : kernel_state F :=
  MkKernelState (pending_kernel_integrations s) (kernel_integrate_attempts s) p ids
    (optimization_stack s) (last_trace_analyze s) (kernel_rewrite_controller_result s) (last_gemm_tuning s)
    (gemm_tuning_attempts s) (ks_macro_cycle s).
Definition set_gemm (last : pydict F) (attempts : list (pyval F)) s : kernel_state F :=
  MkKernelState (pending_kernel_integrations s) (kernel_integrate_attempts s) (rejected_kernel_patches s)
    (rejected_kernel_ids s) (optimization_stack s) (last_trace_analyze s) (kernel_rewrite_controller_result s) last
    attempts (ks_macro_cycle s).
End setters.

Section decisions.
Context {F : Type} `{!FloatOps F}.
Context (digest : string → string → string → string).
Context (budget_env : pyval F).
Implicit Types (s : kernel_state F) (v : pyval F) (result record entry : pydict F) (now : string).

(** *** Nominating a patch *)

Definition _kernel_integration_id (task_key source_file artifact_path : string) : string :=
  "kernel-integration:" +:+ digest task_key source_file artifact_path.

Definition same_patch (source_file artifact_path : string) v : bool :=
  match v with
  | PDict c => String.eqb (get_str "source_file" c) source_file && String.eqb (get_str "artifact_path" c) artifact_path
  | _ => false
  end.
Definition _existing_integration_id (queue : pydict F) (source_file artifact_path : string) : string :=
  match list_find (λ kv, same_patch source_file artifact_path kv.2 = true) queue with
  | Some (_, (id, _)) => id
  | None => EmptyString
  end.

Definition nominated_record (integration_id task_key : string) (p : NominatedPatch F) (keep_threshold_pct : F) now
    : pydict F :=
  let name := py_strip (kernel_name p) in
  let artifact := py_strip (patch_path p) in
  [("integration_id", PStr integration_id); ("task_key", PStr task_key); ("task_group_key", PStr EmptyString);
   ("identity_route", PStr EmptyString); ("legacy_task_group_keys", PList []);
   ("kernel_id", PStr (first_nonblank name _FUSION_LANE)); ("source_file", PStr (py_strip (target_file p)));
   ("artifact_path", PStr artifact); ("artifact_bundle", PDict []); ("snapshot_dir", PStr (snapshot_dir p));
   ("deploy_patch_path", PStr artifact); ("deploy_repo_root", PStr (kernel_repo p)); ("base_commit", PStr (base_commit p));
   ("micro_speedup", PFloat (micro_speedup p)); ("optimization_decision", PStr "KEEP"); ("trace_gpu_pct", PFloat fzero);
   ("created_at", PStr now); ("status", PStr "pending"); ("correctness_source", PStr EmptyString);
   ("artifact_kind", PStr EmptyString); ("integration_validation_status", PStr EmptyString);
   ("framework_applyback", PDict []); ("source", PStr _FUSION_LANE); ("action_label", PStr "fusion");
   ("fusion_env_flags",
    PDict ((λ f, (f, PStr "1")) <$> dict_fromkeys [] (py_words (py_strip (env_flag p)))));
   ("keep_threshold_pct", PFloat keep_threshold_pct)].

(** The refreshed record, [None] when its verdict stands. *)
Definition _refresh_queued_nomination (queued record : pydict F) : option (pydict F) :=
  if bool_decide (get_str "status" queued ∈ VERDICT_STATUSES) then None
  else
    let q := dset "status" (PStr "pending") queued in
    let q := dset "micro_speedup" (dget_or_none "micro_speedup" record) q in
    let q := dset "fusion_env_flags" (dget_or_none "fusion_env_flags" record) q in
    let q := dset "keep_threshold_pct" (dget_or_none "keep_threshold_pct" record) q in
    let q := dset "source" (PStr _FUSION_LANE) q in
    Some (dset "action_label" (PStr "fusion") q).

(** The queued record, [None] when the patch was not queued, and the state. *)
Definition enqueue_nominated_patch s (p : NominatedPatch F) (keep_threshold_pct : F) now
    : option (pyval F) * kernel_state F :=
  let name := py_strip (kernel_name p) in
  let artifact_path := py_strip (patch_path p) in
  let source_file := py_strip (target_file p) in
  if String.eqb artifact_path EmptyString || String.eqb source_file EmptyString then (None, s)
  else
    let queue := pending_kernel_integrations s in
    let task_key := _FUSION_LANE +:+ ":" +:+ first_nonblank name source_file in
    let integration_id := first_nonblank (_existing_integration_id queue source_file artifact_path)
                            (_kernel_integration_id task_key source_file artifact_path) in
    let record := nominated_record integration_id task_key p keep_threshold_pct now in
    match dget integration_id queue with
    | None => (Some (PDict record), set_queue (dset integration_id (PDict record) queue) s)
    | Some (PDict queued) =>
        match _refresh_queued_nomination queued record with
        | None => (None, s)
        | Some q => (Some (PDict q), set_queue (dset integration_id (PDict q) queue) s)
        end
    | Some other => (Some other, s)
    end.

(** *** What is pending *)

Definition _evict_settled_integrations s : res (kernel_state F) :=
  q ← evict_terminal (pending_kernel_integrations s) (patch_budget budget_env) TERMINAL_RETENTION_MULTIPLE;
  Ok (set_queue q s).

Definition group_aliases record : res (list string) :=
  l ← py_iter (dget_or_none "legacy_task_group_keys" record);
  Ok (filter (λ a, a ≠ EmptyString) (py_str <$> (l : list (pyval F)))).

Definition _pending_record_settled s record (integrated : IntegratedStack F) (attempted_entries : list (pydict F)) : res bool :=
  let task_group_key := get_str "task_group_key" record in
  aliases ← group_aliases record;
  let kernel_id := get_str "kernel_id" record in
  let source_file := record_source_path record in
  let artifact_path := get_str "artifact_path" record in
  Ok ((bool_decide (kernel_id ∈ rejected_kernel_ids s) && String.eqb task_group_key EmptyString)
      || covers integrated [kernel_id] task_group_key source_file aliases
      || existsb (λ a, record_matches_task a kernel_id task_group_key source_file aliases &&
                       (String.eqb artifact_path EmptyString || String.eqb (get_str "patch_path" a) artifact_path))
           attempted_entries).

Definition _kernel_trace_impact_pct s (kernel_id : string) : res F :=
  let kid := py_strip kernel_id in
  if String.eqb kid EmptyString then Ok fzero
  else
    rows ← py_iter (dget_or_none "hot_kernels_top15" (last_trace_analyze s));
    match list_find (λ row, stripped "kernel_id" row = kid) (dicts rows) with
    | Some (_, row) => to_float0 (dget_or_none "gpu_pct" row)
    | None => Ok fzero
    end.

(** An attempt that has not used up its retries does not count as a ruling. *)
Definition ruled_on entry : bool := negb (get_bool "retryable" entry && negb (get_bool "rejected" entry)).

Definition live_status record : bool := bool_decide (get_str "status" record ∈ [EmptyString; "pending"]).

Record candidate := MkCandidate { c_impact : F; c_micro : F; c_record : pydict F }.

Definition read_candidate s (integrated : IntegratedStack F) (attempted : list (pydict F)) (kv : string * pyval F)
    : res (option candidate) :=
  match kv.2 with
  | PDict record =>
      if negb (live_status record) then Ok None
      else
        settled ← _pending_record_settled s record integrated attempted;
        if (settled : bool) then Ok None
        else
          impact ← get_float0 "trace_gpu_pct" record;
          impact ← (if fleb impact fzero then _kernel_trace_impact_pct s (get_str "kernel_id" record) else Ok impact);
          micro ← get_float0 "micro_speedup" record;
          let id := first_nonblank (get_str "integration_id" record) kv.1 in
          Ok (Some (MkCandidate impact micro (dset "integration_id" (PStr id) record)))
  | _ => Ok None
  end.

(** [(impact, micro)] descending; the sort is stable. *)
Definition candidate_leb (a b : candidate) : bool :=
  if feqb (c_impact a) (c_impact b) then fleb (c_micro b) (c_micro a) else fleb (c_impact b) (c_impact a).

(** The strongest record per source file. *)
Fixpoint dedupe (claimed : list string) (l : list candidate) : list candidate :=
  match l with
  | [] => []
  | c :: l' =>
      let source := record_source_path (c_record c) in
      if negb (String.eqb source EmptyString) && bool_decide (source ∈ claimed) then dedupe claimed l'
      else c :: dedupe (if String.eqb source EmptyString then claimed else source :: claimed) l'
  end.

Definition pending_kernel_integration_records s : res (list (pydict F) * kernel_state F) :=
  s ← _evict_settled_integrations s;
  integrated ← integrated_of (optimization_stack s);
  let attempted := filter (λ e, ruled_on e = true) (dicts (snd <$> kernel_integrate_attempts s)) in
  cs ← map_res (read_candidate s integrated attempted) (pending_kernel_integrations s);
  let candidates := sort_by candidate_leb (omap id cs) in
  Ok (take (Z.to_nat (patch_budget budget_env)) (c_record <$> dedupe [] candidates), s).

(** *** Recording a result *)

(** Kernel id, patch path, target file and server args of a payload. *)
Definition _resolve_kernel_patch_identity result : string * string * string * string :=
  (get_str "kernel_id" result,
   first_nonblank (get_str "patch_path" result) (get_str "best_artifact_path" result),
   first_nonblank (get_str "target_file" result) (get_str "source_file" result),
   stripped "extra_server_args" result).

Definition kernel_patch_key result : string :=
  let '(kernel_id, patch, _, extra_args) := _resolve_kernel_patch_identity result in
  if String.eqb kernel_id EmptyString || String.eqb patch EmptyString then EmptyString
  else join "|" [kernel_id; patch; extra_args].

Definition has_key (key : string) v : bool :=
  match v with PDict r => match dget "key" r with Some k => is_str key k | None => false end | _ => false end.

Definition find_rejected_kernel_patch s result : option (pydict F) :=
  let key := kernel_patch_key result in
  if String.eqb key EmptyString then None
  else match list_find (λ v, has_key key v = true) (rejected_kernel_patches s) with
       | Some (_, PDict r) => Some r
       | _ => None
       end.

(** The result with what it left out, and the queued record it is bound to with its id. *)
Definition _bind_result_to_pending s result : pydict F * option (string * pydict F) :=
  let integration_id := get_str "integration_id" result in
  match (if String.eqb integration_id EmptyString then None else dget integration_id (pending_kernel_integrations s)) with
  | Some (PDict pending) =>
      let result := if get_bool "patch_path" result || get_bool "best_artifact_path" result then result
                    else dset "patch_path" (PStr (get_str "artifact_path" pending)) result in
      let result := if get_bool "target_file" result || get_bool "source_file" result then result
                    else dset "target_file" (PStr (record_source_path pending)) result in
      (result, Some (integration_id, pending))
  | _ => (result, None)
  end.

(** [max(gains, default=0.0)] as a float: a later gain replaces the best only when it is greater. *)
Fixpoint best_gain (best : option F) (rows : list (pydict F)) : res F :=
  match rows with
  | [] => Ok (default fzero best)
  | row :: rows' =>
      match dget_or_none "gain_pct" row with
      | (PInt _ | PFloat _ | PBool _) as v =>
          g ← py_float v;
          best_gain (Some (match best with Some b => fmax b g | None => g end)) rows'
      | _ => best_gain best rows'
      end
  end.
Definition count_faults (rows : list (pydict F)) : Z :=
  Z.of_nat (length (filter (λ row, get_bool "is_fault" row = true) rows)).
Definition _attempt_totals (attempts : list (pyval F)) : res (F * Z) :=
  best ← best_gain None (dicts attempts);
  Ok (best, count_faults (dicts attempts)).

(** [record.update(...)] of the queued record. *)
Definition update_pending (bound : option (string * pydict F)) (f : pydict F → pydict F) s : kernel_state F :=
  match bound with
  | Some (id, pending) => set_queue (dset id (PDict (f pending)) (pending_kernel_integrations s)) s
  | None => s
  end.

Definition _record_integration_keep s result (bound : option (string * pydict F)) now : kernel_state F :=
  update_pending bound (λ pending,
    let p := dmerge pending [("status", PStr "integrated"); ("integrated_at", PStr now)] in
    let integration_status := get_str "integration_validation_status" result in
    let validation_tier := get_str "validation_tier" result in
    let p := if String.eqb integration_status EmptyString then p
             else dset "integration_validation_status" (PStr integration_status) p in
    if String.eqb validation_tier EmptyString then p else dset "validation_tier" (PStr validation_tier) p) s.

Definition rejection_of entry (reason : string) now : pydict F :=
  ((λ k, (k, dget_or_none k entry)) <$>
     ["key"; "kernel_id"; "task_group_key"; "patch_path"; "target_file"; "extra_server_args"; "attempt_count";
      "fault_count"; "best_gain_pct"; "last_decision"; "last_error_class"])
  ++ [("reason", PStr reason); ("ts", PStr now)].

(** The entry with its rejection, and the state. *)
Definition _reject_integration s entry (reason : string) (bound : option (string * pydict F)) now
    : pydict F * kernel_state F :=
  let rejected := rejection_of entry reason now in
  let key := get_str "key" entry in
  let kernel_id := get_str "kernel_id" entry in
  let ids := if negb (String.eqb kernel_id EmptyString) && String.eqb (get_str "task_group_key" entry) EmptyString
                && negb (bool_decide (kernel_id ∈ rejected_kernel_ids s))
             then rejected_kernel_ids s ++ [kernel_id] else rejected_kernel_ids s in
  let ledger := filter (λ v, has_key key v = false) (rejected_kernel_patches s) ++ [PDict rejected] in
  let entry := dset "rejected" (PDict rejected) entry in
  let s := set_rejected ledger ids s in
  let s := set_attempts (dset key (PDict entry) (kernel_integrate_attempts s)) s in
  (entry, update_pending bound (λ pending,
            dmerge pending [("status", PStr "rejected"); ("rejected_at", PStr now); ("rejected_reason", PStr reason)]) s).

Definition _integrate_identity_fields result (bound : option (string * pydict F)) (key : string) : pydict F :=
  let '(kernel_id, patch, target, extra_args) := _resolve_kernel_patch_identity result in
  let pending := match bound with Some (_, p) => p | None => [] end in
  [("key", PStr key); ("kernel_id", PStr kernel_id); ("task_group_key", PStr (get_str "task_group_key" result));
   ("identity_route", PStr (first_nonblank (get_str "identity_route" result) (get_str "identity_route" pending)));
   ("integration_id", PStr (first_nonblank (get_str "integration_id" pending) (get_str "integration_id" result)));
   ("patch_path", PStr patch); ("target_file", PStr target); ("extra_server_args", PStr extra_args)].

Definition _integrate_attempt_row s result (is_fault : bool) now : pydict F :=
  [("decision", dget_or_none "decision" result); ("status", dget_or_none "status" result);
   ("error_class", dget_or_none "error_class" result); ("is_fault", PBool is_fault);
   ("new_tput", dget_or_none "new_tput" result); ("gain_pct", dget_or_none "gain_pct" result);
   ("graded_objective", dget_or_none "graded_objective" result); ("accuracy", dget_or_none "accuracy" result);
   ("accuracy_pass", dget_or_none "accuracy_pass" result); ("decision_reason", dget_or_none "decision_reason" result);
   ("artifact_kind", PStr (get_str "artifact_kind" result)); ("validation_tier", PStr (get_str "validation_tier" result));
   ("workspace", dget_or_none "workspace" result); ("report_path", dget_or_none "report_path" result);
   ("ts", PStr now); ("cycle", PInt (ks_macro_cycle s))].

Definition _is_integrate_fault result : bool :=
  String.eqb (py_lower (stripped "status" result)) "failed" ||
  bool_decide (stripped "error_class" result ∈ _INTEGRATE_FAULT_ERROR_CLASSES).

(** [dict(d.get(k) or {})] of the attempts ledger. *)
Definition attempts_entry s (key : string) : res (pydict F) := get_dict key (kernel_integrate_attempts s).

(** Why an attempt that was not kept ends the patch, if it does. *)
Definition rejection_reason result (is_fault : bool) (fault_count verdict_count : Z) : option string :=
  if is_fault then
    if (fault_count <? _MAX_INTEGRATE_FAULT_ATTEMPTS)%Z then None
    else Some ("fault_attempts_exhausted_" +:+ pretty _MAX_INTEGRATE_FAULT_ATTEMPTS)
  else if is_str "REVERT" (dget_or_none "decision" result) then Some "revert_decision"
  else if (_MAX_INTEGRATE_E2E_ATTEMPTS <=? verdict_count)%Z
  then Some ("max_e2e_attempts_" +:+ pretty _MAX_INTEGRATE_E2E_ATTEMPTS +:+ "_without_keep")
  else None.

(** The entry as the new attempt leaves it, before its consequences. *)
Definition updated_entry s result (bound : option (string * pydict F)) (key : string) now : res (pydict F) :=
  let is_fault := _is_integrate_fault result in
  entry ← attempts_entry s key;
  attempts ← py_iter (dget_or_none "attempts" entry);
  let attempts := attempts ++ [PDict (_integrate_attempt_row s result is_fault now)] in
  totals ← _attempt_totals attempts;
  let '(best, fault_count) := totals in
  Ok (dpop "retryable"
       (dmerge entry
         (_integrate_identity_fields result bound key ++
          [("attempts", PList attempts); ("attempt_count", PInt (Z.of_nat (length attempts)));
           ("fault_count", PInt fault_count);
           ("verdict_attempt_count", PInt (Z.of_nat (length attempts) - fault_count));
           ("best_gain_pct", PFloat best); ("last_decision", dget_or_none "decision" result);
           ("last_status", dget_or_none "status" result); ("last_error_class", dget_or_none "error_class" result);
           ("last_was_fault", PBool is_fault); ("updated_at", PStr now)]))).

(** [None] when the result names no patch. *)
Definition record_kernel_integrate_result s (v : pyval F) now : res (option (pydict F) * kernel_state F) :=
  match v with
  | PDict result =>
      let '(result, bound) := _bind_result_to_pending s result in
      let key := kernel_patch_key result in
      if String.eqb key EmptyString then Ok (None, s)
      else
        let is_fault := _is_integrate_fault result in
        entry ← updated_entry s result bound key now;
        fault_count ← get_int "fault_count" entry;
        verdict_count ← get_int "verdict_attempt_count" entry;
        let store entry := set_attempts (dset key (PDict entry) (kernel_integrate_attempts s)) s in
        if is_str "KEEP" (dget_or_none "decision" result)
        then Ok (Some entry, _record_integration_keep (store entry) result bound now)
        else
          match rejection_reason result is_fault fault_count verdict_count with
          | None =>
              let entry := if is_fault then dset "retryable" (PBool true) entry else entry in
              Ok (Some entry, store entry)
          | Some reason =>
              let '(entry, s') := _reject_integration (store entry) entry reason bound now in
              Ok (Some entry, s')
          end
  | _ => Ok (None, s)
  end.

Definition record_gemm_tuning s (v : pyval F) now : kernel_state F :=
  let result := match v with
                | PDict d => d
                | _ => [("status", PStr "failed"); ("error", PStr "non-dict gemm tuning result")]
                end in
  let entry := if din "ts" result then result else result ++ [("ts", PStr now)] in
  set_gemm entry (last_n _DEFAULT_ATTEMPTS_HISTORY (gemm_tuning_attempts s ++ [PDict entry])) s.

(** *** Readers *)

Definition pending_keep_kernel_ids s : res (list string * kernel_state F) :=
  r ← pending_kernel_integration_records s;
  Ok (filter (λ kid, kid ≠ EmptyString) (get_str "kernel_id" <$> (r.1 : list (pydict F))), r.2).
Definition has_keep_pending_integrate s : res (bool * kernel_state F) :=
  r ← pending_keep_kernel_ids s;
  Ok (negb (bool_decide (length r.1 = 0)), r.2).
End decisions.
Arguments candidate F : clear implicits.

(** ** Draining the queue ([phases/kernel_stack.py]) *)

Section drain.
Context {F : Type} `{!FloatOps F}.
Context (budget_env : pyval F).
(** The integrate handler at its n-th call: a result, or what it raised.  It is given the request (its
    base throughput, read from elsewhere in the session, left out) and works on the saved session, so it
    changes nothing here. *)
Context (integrate_handler : nat → kernel_state F → pydict F → res (pyval F)).
(** Promoting a KEEP onto the session: the state after it, and whether it raised. *)
Context (record_integrate_keep : kernel_state F → pydict F → kernel_state F * bool).
Context (clock : nat → string).
Implicit Types (s : kernel_state F) (pending : pydict F).

Definition _reject_undispatchable_integrate s pending : kernel_state F :=
  let kid := get_str "kernel_id" pending in
  let ids := if String.eqb (get_str "task_key" pending) EmptyString && negb (bool_decide (kid ∈ rejected_kernel_ids s))
             then rejected_kernel_ids s ++ [kid] else rejected_kernel_ids s in
  let s := set_rejected (rejected_kernel_patches s) ids s in
  let id := get_str "integration_id" pending in
  match dget id (pending_kernel_integrations s) with
  | Some (PDict queued) => set_queue (dset id (PDict (dset "status" (PStr "dispatch_failed") queued)) (pending_kernel_integrations s)) s
  | _ => s
  end.

Definition integrate_request pending : pydict F :=
  [("kernel_id", PStr (get_str "kernel_id" pending)); ("integration_id", PStr (get_str "integration_id" pending));
   ("task_group_key", PStr (get_str "task_group_key" pending)); ("identity_route", PStr (get_str "identity_route" pending))].

(** One pass of the loop over the record it picked. *)
Definition drain_one (n : nat) s pending : kernel_state F :=
  match integrate_handler n s (integrate_request pending) with
  | Raise _ => _reject_undispatchable_integrate s pending
  | Ok (PDict result) =>
      if is_str "skipped" (dget_or_none "status" result) then s
      else match record_kernel_integrate_result s (PDict result) (clock n) with
           | Raise _ => _reject_undispatchable_integrate s pending
           | Ok (_, s') =>
               if String.eqb (py_upper (get_str "decision" result)) "KEEP"
               then let '(s2, raised) := record_integrate_keep s' result in
                    if (raised : bool) then _reject_undispatchable_integrate s2 pending else s2
               else s'
           end
  | Ok _ => s
  end.

Definition max_drain : nat := 10.

(** The ids dispatched, in order, and the state when the loop ends. *)
Fixpoint drain_loop (fuel n : nat) s : res (list string * kernel_state F) :=
  match fuel with
  | O => Ok ([], s)
  | S fuel' =>
      r ← pending_kernel_integration_records budget_env s;
      match r.1 with
      | [] => Ok ([], r.2)
      | pending :: _ =>
          rest ← drain_loop fuel' (S n) (drain_one n r.2 pending);
          Ok (get_str "integration_id" pending :: rest.1, rest.2)
      end
  end.
Definition drain_pending_keep_integrates s : res (list string * kernel_state F) := drain_loop max_drain 0 s.
End drain.

(** ** Hot kernels nobody has tried ([kernel_decisions.py], [kernel_decision_settings.py]) *)

Definition KERNEL_RECIPE_PRODUCERS : list string := ["flydsl"; "forge-loop"; "fusion"].
Definition _DEFAULT_HOT_KERNEL_GATE_TOP_N : Z := 5.

Record hot_row (F : Type) := MkHotRow {
  hr_unranked : bool;
  hr_rank : Z;
  hr_score : F;
  hr_kernel_id : string;
  hr_source_file : string;
  hr_members : list string;
  hr_group_key : string;
  hr_name : string;
  hr_gpu_pct : F
}.
Arguments MkHotRow {F} _ _ _ _ _ _ _ _ _.
Arguments hr_unranked {F} _.
Arguments hr_rank {F} _.
Arguments hr_score {F} _.
Arguments hr_kernel_id {F} _.
Arguments hr_source_file {F} _.
Arguments hr_members {F} _.
Arguments hr_group_key {F} _.
Arguments hr_name {F} _.
Arguments hr_gpu_pct {F} _.

Section hot.
Context {F : Type} `{!FloatOps F}.
(** [HYPERLOOM_KERNEL_OPT_MIN_GPU_PCT] and [HYPERLOOM_KERNEL_OPT_GATE_TOP_N], [None] when unset. *)
Context (min_pct_env top_n_env : option string).
Implicit Types (s : kernel_state F) (v : pyval F) (k row : pydict F) (r : hot_row F).

Definition _DEFAULT_HOT_KERNEL_MIN_GPU_PCT : F := f_of_Z 5.
Definition resolve_hot_kernel_min_gpu_pct : F :=
  match min_pct_env with
  | Some text => default _DEFAULT_HOT_KERNEL_MIN_GPU_PCT (py_float_of_str text)
  | None => _DEFAULT_HOT_KERNEL_MIN_GPU_PCT
  end.
Definition _resolve_hot_kernel_top_n : Z :=
  Z.max 1 (match top_n_env with
           | Some text => default _DEFAULT_HOT_KERNEL_GATE_TOP_N (to_int (PStr (F := F) text))
           | None => _DEFAULT_HOT_KERNEL_GATE_TOP_N
           end).

(** [float(v)] with [TypeError] and [ValueError] caught. *)
Definition try_float v : res (option F) :=
  match py_float v with
  | Ok x => Ok (Some x)
  | Raise (TypeError _) | Raise (ValueError _) => Ok None
  | Raise e => Raise e
  end.

Definition effective_hot_kernel_gpu_pct k : res F :=
  let raw := dget_or_none "gpu_pct" k in
  row_pct ← try_float (if truthy raw then raw else PFloat fzero);
  let row_pct := default fzero row_pct in
  match dget_or_none "vendor_playbook_aggregate_gpu_pct" k with
  | PNone => Ok row_pct
  | aggregate => a ← try_float aggregate; Ok (match a with Some a => fmax row_pct a | None => row_pct end)
  end.
Definition effective_hot_kernel_min_gpu_pct k (min_gpu_pct : F) : res F :=
  match dget_or_none "vendor_playbook_min_gpu_pct_floor" k with
  | PNone => Ok min_gpu_pct
  | floor => f ← try_float floor; Ok (match f with Some f => fmax min_gpu_pct f | None => min_gpu_pct end)
  end.

(** Member to its group, and group key to its aliases; a later group overwrites an earlier one. *)
Definition group_index : Type := list (string * (list string * string)) * list (string * list string).
Definition index_group (acc : group_index) v : res group_index :=
  match v with
  | PDict g =>
      ids ← py_iter (dget_or_none "kernel_ids" g);
      legacy ← py_iter (dget_or_none "legacy_task_group_keys" g);
      let members := py_str <$> filter (λ m, truthy m = true) ids in
      let group_key := get_str "task_group_key" g in
      let aliases := filter (λ a, a ≠ EmptyString) (group_key :: (py_str <$> (legacy : list (pyval F)))) in
      Ok (foldl (λ d m, dset m (members, group_key) d) acc.1 members, dset group_key aliases acc.2)
  | _ => Ok acc
  end.
Fixpoint index_groups (acc : group_index) (groups : list (pyval F)) : res group_index :=
  match groups with
  | [] => Ok acc
  | g :: gs => acc' ← index_group acc g; index_groups acc' gs
  end.
Definition _task_group_index (groups : list (pyval F)) : res group_index := index_groups ([], []) groups.

Definition is_true v : bool := match v with PBool b => b | _ => false end.

Definition read_hot_row (kid_to_group : list (string * (list string * string))) (min_gpu_pct : F) v : res (option (hot_row F)) :=
  match v with
  | PDict k =>
      if negb (is_true (dget_or_none "reusable_native_kernel" k)) then Ok None
      else
        pct ← effective_hot_kernel_gpu_pct k;
        floor ← effective_hot_kernel_min_gpu_pct k min_gpu_pct;
        let kid := get_str "kernel_id" k in
        if fltb pct floor || String.eqb kid EmptyString then Ok None
        else
          gpu_pct ← to_float0 (dget_or_none "gpu_pct" k);
          rank ← get_int "tracelens_pitem_rank" k;
          let raw := dget_or_none "impact_score" k in
          score ← py_float (if truthy raw then raw else PFloat fzero);
          let group := dget kid kid_to_group in
          Ok (Some (MkHotRow (rank <=? 0)%Z rank (fmul (f_of_Z (-1)) score) kid (get_str "source_file" k)
                (match group with Some (members, _) => py_sorted members | None => [kid] end)
                (match group with Some (_, key) => key | None => EmptyString end)
                (first_nonblank (get_str "name" k) (get_str "operation" k)) gpu_pct))
  | _ => Ok None
  end.

(** Tuples compare field by field: ranked rows first, then by rank, then by score. *)
Definition hot_leb r1 r2 : bool :=
  if Bool.eqb (hr_unranked r1) (hr_unranked r2) then
    if (hr_rank r1 =? hr_rank r2)%Z then fleb (hr_score r1) (hr_score r2) else (hr_rank r1 <? hr_rank r2)%Z
  else hr_unranked r2.

Definition _hot_rows (hot : list (pyval F)) (kid_to_group : list (string * (list string * string))) (min_gpu_pct : F)
    : res (list (hot_row F)) :=
  rows ← map_res (read_hot_row kid_to_group min_gpu_pct) hot;
  Ok (sort_by hot_leb (omap id rows)).

(** What makes two rows one task: the group key, or the members when there is none. *)
Definition dedup_key r : string + list string :=
  if String.eqb (hr_group_key r) EmptyString then inr (hr_members r) else inl (hr_group_key r).
Definition same_identity (a b : string * string * F) : bool :=
  String.eqb a.1.1 b.1.1 && String.eqb a.1.2 b.1.2 && feqb a.2 b.2.
Definition identity_of r : string * string * F := (hr_source_file r, hr_name r, hr_gpu_pct r).

Fixpoint rank_loop (groups : list (string + list string)) (identities : list (string * string * F)) (rows : list (hot_row F))
    : list (hot_row F) :=
  match rows with
  | [] => []
  | r :: rows' =>
      if bool_decide (dedup_key r ∈ groups) then rank_loop groups identities rows'
      else
        let named := negb (String.eqb (hr_source_file r) EmptyString) && negb (String.eqb (hr_name r) EmptyString) in
        if named && existsb (same_identity (identity_of r)) identities then rank_loop groups identities rows'
        else r :: rank_loop (dedup_key r :: groups) (if named then identity_of r :: identities else identities) rows'
  end.
Definition _rank_hot_rows (rows : list (hot_row F)) (top_n : Z) : list (hot_row F) :=
  let ranked := rank_loop [] [] rows in
  take (Z.to_nat top_n) (filter (λ r, hr_unranked r = false) ranked) ++
  take (Z.to_nat top_n) (filter (λ r, hr_unranked r = true) ranked).

Definition _canonical_kernel_recipe_operator (kernel_id : string) : string :=
  match py_split ":"%char kernel_id with
  | [scheme; producer; name; _; _; _; _] =>
      if String.eqb scheme "kernel" && bool_decide (producer ∈ KERNEL_RECIPE_PRODUCERS) then name else EmptyString
  | _ => EmptyString
  end.
Definition _forge_loop_operators_in_optimization_stack s : res (list string) :=
  entries ← integrating_entries (optimization_stack s);
  Ok (normalize_operator_name <$>
        filter (λ op, op ≠ EmptyString) ((λ e, _canonical_kernel_recipe_operator (get_str "kernel_id" e)) <$> (entries : list (pydict F)))).

(** [record.get] of a value that is no dict raises. *)
Definition attr_get v : res (pydict F) :=
  match v with PDict d => Ok d | _ => Raise (AttributeError "get") end.
Definition _attempt_records s : list (pyval F) :=
  (snd <$> pending_kernel_integrations s) ++ (snd <$> kernel_integrate_attempts s).
Definition _attempted_operators s (records : list (pyval F)) : res (list string) :=
  ds ← map_res attr_get records;
  integration ← attr_get (default (PDict []) (dget "integration" (kernel_rewrite_controller_result s)));
  results ← match dget "results" integration with
            | None => Ok []
            | Some v => if truthy v then py_iter v
                        else match v with PList _ | PStr _ | PDict _ => Ok [] | _ => Raise (TypeError "object is not iterable") end
            end;
  rows ← map_res attr_get results;
  let names := (get_str "kernel_id" <$> (ds : list (pydict F))) ++ (get_str "operator_id" <$> (rows : list (pydict F))) in
  Ok ((λ name, normalize_operator_name (first_nonblank (_canonical_kernel_recipe_operator name) name))
        <$> filter (λ name, py_strip name ≠ EmptyString) names).

Definition row_tried (integrated : IntegratedStack F) (aliases : list (string * list string)) (operators : list string)
    (records : list (pydict F)) r : bool :=
  let al := default [] (dget (hr_group_key r) aliases) in
  covers integrated (hr_members r) (hr_group_key r) (hr_source_file r) al
  || (negb (String.eqb (hr_name r) EmptyString) && bool_decide (normalize_operator_name (hr_name r) ∈ operators))
  || existsb (λ record, existsb (λ m, record_matches_task record m (hr_group_key r) (hr_source_file r) al) (hr_members r)) records.

Definition untried_hot_reusable_kernels s : res (list string) :=
  let info := last_trace_analyze s in
  let top15 := dget_or_none "hot_kernels_top15" info in
  let all := dget_or_none "hot_kernels" info in
  match (if truthy top15 then top15 else if truthy all then all else PList []) with
  | PList hot =>
      groups ← py_iter (dget_or_none "task_groups" info);
      index ← _task_group_index groups;
      integrated ← integrated_of (optimization_stack s);
      let records := _attempt_records s in
      attempted ← _attempted_operators s records;
      landed ← _forge_loop_operators_in_optimization_stack s;
      rows ← _hot_rows hot index.1 resolve_hot_kernel_min_gpu_pct;
      Ok (hr_kernel_id <$>
            filter (λ r, row_tried integrated index.2 (attempted ++ landed) (dicts records) r = false)
              (_rank_hot_rows rows _resolve_hot_kernel_top_n))
  | _ => Ok []
  end.
End hot.
