(* ===== verification/KernelRules.v ===== *)
(** * What the kernel patch queue guarantees

    Theorems on [KernelQueue]: which patches are dispatched, what eviction keeps, that verdicts stand,
    that the attempts ledger and the rejection ledger agree, and that a drain ends. *)

From stdpp Require Import base list strings pretty sets sorting relations.
From Stdlib Require Import ZArith Lia Ascii Sorting.Sorted.
From Stdlib Require String.
From S2P Require Import Prelude PyFloat PyVal PhaseChain PhaseMachine Protocol OperatorName KernelQueue.

(** ** Floats that come from values are finite *)

Section finite.
Context {F : Type} `{!FloatOps F, !FloatOrder F}.
Implicit Types (v : pyval F) (d : pydict F).

Lemma to_float_finite v x : to_float v = Ok (Some x) → f_isfinite x = true.
Proof.
  unfold to_float. intros H.
  destruct v; try done; destruct (py_float _) as [y|e]; try (by destruct e);
    destruct (f_isfinite y) eqn:E; try done; by injection H as <-.
Qed.
Lemma to_float0_finite v x : to_float0 v = Ok x → f_isfinite x = true.
Proof.
  unfold to_float0. intros H. apply res_bind_ok in H as ([y|] & Hy & [= <-]); [by apply to_float_finite in Hy|].
  apply fzero_finite.
Qed.
Lemma get_float0_finite k d x : get_float0 k d = Ok x → f_isfinite x = true.
Proof.
  unfold get_float0. intros H. apply res_bind_ok in H as ([y|] & Hy & [= <-]); [|apply fzero_finite].
  apply to_float_finite in Hy. simpl. destruct (feqb y fzero); [apply fzero_finite|done].
Qed.

(** On finite floats the order is total. *)
Lemma fleb_refl x : f_isfinite x = true → fleb x x = true.
Proof. intros H. apply fltb_total; [done..|apply fltb_irrefl]. Qed.
Lemma fleb_false x y : f_isfinite x = true → f_isfinite y = true → fleb x y = false → fleb y x = true.
Proof.
  intros Hx Hy H. destruct (fltb x y) eqn:E; [by rewrite (fltb_fleb _ _ E) in H|]. by apply fltb_total.
Qed.
End finite.

(** ** Sorting a list whose elements satisfy a predicate *)

Section sort_on.
Context {A : Type} (leb : A → A → bool) (P : A → Prop).
Context (Htot : ∀ x y, P x → P y → leb x y = false → leb y x = true).
Context (Htrans : ∀ x y z, P x → P y → P z → leb x y = true → leb y z = true → leb x z = true).

Lemma sort_by_sorted_on l : Forall P l → StronglySorted (λ a b, leb a b = true) (sort_by leb l).
Proof.
  intros Hl. assert (Forall P (sort_by leb l)) as _ by by rewrite sort_by_perm.
  induction Hl as [|x l Hx Hl IH]; [constructor|]. unfold sort_by in *. simpl.
  assert (Forall P (foldr (sort_insert leb) [] l)) as HP by by (fold (sort_by leb l); rewrite sort_by_perm).
  revert HP. induction IH as [|y l' Hl' IH Hy]; intros HP; simpl; [repeat constructor|].
  apply Forall_cons in HP as [HPy HP]. destruct (leb x y) eqn:E.
  - constructor; [by constructor|]. constructor; [done|]. rewrite Forall_forall in Hy, HP |- *. eauto.
  - constructor; [auto|]. rewrite sort_insert_perm. constructor; auto.
Qed.
End sort_on.

Lemma sorted_sublist {A} (R : A → A → Prop) l1 l2 : l1 `sublist_of` l2 → StronglySorted R l2 → StronglySorted R l1.
Proof.
  intros Hl. induction Hl as [|x l1 l2 Hl IH|x l1 l2 Hl IH]; intros Hs; [done| |]; inversion Hs as [|? ? Hs' Hf]; subst; [|auto].
  constructor; [auto|]. rewrite Forall_forall in Hf |- *. intros y Hy. apply Hf. by eapply sublist_subseteq.
Qed.

(** ** Eviction *)

Section eviction.
Context {F : Type} `{!FloatOps F, !FloatOrder F}.
Implicit Types (queue : pydict F) (v : pyval F).

Lemma filter_partition queue : live_part queue ++ terminal_part queue ≡ₚ queue.
Proof.
  unfold live_part, terminal_part. induction queue as [|kv q IH]; [done|]. rewrite !filter_cons.
  destruct (is_terminal kv.2); simpl; [|by rewrite IH]. by rewrite <- Permutation_middle, IH.
Qed.
Lemma all_live queue :
  Forall (λ kv, is_terminal kv.2 = false) queue → live_part queue = queue ∧ terminal_part queue = [].
Proof.
  unfold live_part, terminal_part. induction 1 as [|kv q Hkv _ [IH1 IH2]]; [done|].
  rewrite !filter_cons, Hkv. simpl. by rewrite IH1, IH2.
Qed.
Lemma all_terminal queue :
  Forall (λ kv, is_terminal kv.2 = true) queue → live_part queue = [] ∧ terminal_part queue = queue.
Proof.
  unfold live_part, terminal_part. induction 1 as [|kv q Hkv _ [IH1 IH2]]; [done|].
  rewrite !filter_cons, Hkv. simpl. by rewrite IH1, IH2.
Qed.
Lemma live_part_live queue : Forall (λ kv, is_terminal kv.2 = false) (live_part queue).
Proof. apply Forall_forall. by intros kv [? _]%list_elem_of_filter. Qed.
Lemma terminal_part_terminal queue : Forall (λ kv, is_terminal kv.2 = true) (terminal_part queue).
Proof. apply Forall_forall. by intros kv [? _]%list_elem_of_filter. Qed.

(** The parts of a queue rebuilt from its live part and some terminal records. *)
Lemma rebuilt_parts queue kept :
  Forall (λ kv, is_terminal kv.2 = true) kept →
  live_part (live_part queue ++ kept) = live_part queue ∧ terminal_part (live_part queue ++ kept) = kept.
Proof.
  intros Hk. destruct (all_live _ (live_part_live queue)) as [H1 H2]. destruct (all_terminal _ Hk) as [H3 H4].
  unfold live_part, terminal_part in *. by rewrite !filter_app, H1, H2, H3, H4, app_nil_r.
Qed.

Definition keep_of (budget multiple : Z) : nat := Z.to_nat (Z.max 0 budget * Z.max 0 multiple).

Lemma map_res_snd (f : pyval F → res F) (l : pydict F) keyed :
  map_res (λ kv, k ← f kv.2; Ok (k, kv)) l = Ok keyed →
  snd <$> keyed = l ∧ Forall (λ x, f x.2.2 = Ok x.1) keyed.
Proof.
  intros H. apply map_res_ok in H. induction H as [|kv y l keyed Hy _ [IH1 IH2]]; [done|].
  apply res_bind_ok in Hy as (k & Hk & [= <-]). split; [by rewrite fmap_cons, IH1|]. by constructor.
Qed.

Lemma speedup_finite v x : speedup_of v = Ok x → f_isfinite x = true.
Proof. destruct v; simpl; try (intros [= <-]; apply fzero_finite). apply to_float0_finite. Qed.
End eviction.

(** Functional.  Eviction bounds what the queue remembers and loses nothing that is still to be done: every
    record that is not terminal stays, in its order; of the terminal ones at most twice the patch budget
    stay, none is invented, and none that stays is weaker than one that goes. *)
Theorem evict_terminal_spec {F} `{!FloatOps F, !FloatOrder F} (queue queue' : pydict F) budget multiple :
  evict_terminal queue budget multiple = Ok queue' →
  live_part queue' = live_part queue ∧
  terminal_part queue' ⊆ terminal_part queue ∧
  length (terminal_part queue') = keep_of budget multiple `min` length (terminal_part queue) ∧
  ∀ gone kept, gone ∈ queue → gone ∉ queue' → kept ∈ terminal_part queue' →
    ∃ x y, speedup_of gone.2 = Ok x ∧ speedup_of kept.2 = Ok y ∧ fleb x y = true.
Proof.
  unfold evict_terminal. fold (keep_of budget multiple). destruct (_ <=? _)%nat eqn:El.
  - intros [= <-]. apply Nat.leb_le in El.
    destruct (rebuilt_parts queue _ (terminal_part_terminal queue)) as [-> ->]. split_and!; [done|done|lia|].
    intros gone kept Hg Hn. exfalso. apply Hn. by rewrite filter_partition.
  - apply Nat.leb_gt in El. intros H. apply res_bind_ok in H as (keyed & Hk & [= <-]).
    apply map_res_snd in Hk as [Hsnd Hkeys].
    set (sorted := sort_by weaker_leb keyed) in *. assert (sorted ≡ₚ keyed) as Hp by apply sort_by_perm.
    assert (snd <$> sorted ≡ₚ terminal_part queue) as Hps by by rewrite Hp, Hsnd.
    assert (Forall (λ x : F * (string * pyval F), speedup_of x.2.2 = Ok x.1) sorted) as Hks by by rewrite Hp.
    assert (StronglySorted (λ a b, weaker_leb a b = true) sorted) as Hsorted.
    { apply (sort_by_sorted_on _ (λ x, f_isfinite x.1 = true)); [|intros x y z _ _ _; apply fleb_trans|].
      - intros x y Hx Hy. by apply fleb_false.
      - eapply Forall_impl; [exact Hkeys|]. intros x Hx. exact (speedup_finite _ _ Hx). }
    set (n := length (snd <$> sorted) - keep_of budget multiple).
    assert (length (snd <$> sorted) = length (terminal_part queue)) as Hlen by by rewrite Hps.
    assert (Forall (λ kv, is_terminal kv.2 = true) (drop n (snd <$> sorted))) as Hterm.
    { apply Forall_drop. rewrite Hps. apply terminal_part_terminal. }
    destruct (rebuilt_parts queue _ Hterm) as [-> ->]. split_and!.
    + done.
    + intros kv Hkv. rewrite <- Hps. by eapply subseteq_drop.
    + rewrite length_drop. unfold n. lia.
    + intros gone kept Hg Hn Hkept. rewrite <- filter_partition in Hg.
      rewrite elem_of_app in Hn. apply elem_of_app in Hg as [?|Hg]; [tauto|]. rewrite <- Hps in Hg.
      rewrite <- fmap_drop in Hkept, Hn. rewrite <- (take_drop n sorted), fmap_app, elem_of_app in Hg.
      destruct Hg as [Hg|Hg]; [|rewrite fmap_drop in Hg; rewrite fmap_drop in Hn; tauto].
      apply list_elem_of_fmap in Hg as ([x gone'] & -> & Hg), Hkept as ([y kept'] & -> & Hkept). exists x, y.
      rewrite Forall_forall in Hks.
      split_and!; [by apply (Hks (x, gone')), (subseteq_take n)|by apply (Hks (y, kept')), (subseteq_drop n)|].
      rewrite <- (take_drop n sorted) in Hsorted. by apply (StronglySorted_app_1_elem_of _ _ _ (x, gone') (y, kept') Hsorted).
Qed.

(** ** What is dispatched *)

Section pending.
Context {F : Type} `{!FloatOps F, !FloatOrder F}.
Context (budget_env : pyval F).
Implicit Types (s : kernel_state F) (c : candidate F) (l : list (candidate F)).

Definition finite_candidate c : Prop := f_isfinite (c_impact c) = true ∧ f_isfinite (c_micro c) = true.

Lemma feqb_sym (x y : F) : feqb x y = feqb y x.
Proof. apply eq_true_iff_eq. rewrite !feqb_fleb. tauto. Qed.

Lemma candidate_leb_total a b :
  finite_candidate a → finite_candidate b → candidate_leb a b = false → candidate_leb b a = true.
Proof.
  unfold candidate_leb. intros [Ha1 Ha2] [Hb1 Hb2]. rewrite (feqb_sym (c_impact b)).
  destruct (feqb _ _); by apply fleb_false.
Qed.
Lemma candidate_leb_trans a b c :
  candidate_leb a b = true → candidate_leb b c = true → candidate_leb a c = true.
Proof.
  unfold candidate_leb.
  destruct (feqb (c_impact a) (c_impact b)) eqn:E1, (feqb (c_impact b) (c_impact c)) eqn:E2;
    destruct (feqb (c_impact a) (c_impact c)) eqn:E3; intros H1 H2;
    repeat match goal with
      | E : feqb _ _ = true |- _ => apply feqb_fleb in E as [??]
      | E : feqb _ _ = false |- _ => apply not_true_iff_false in E; rewrite feqb_fleb in E
      end; eauto using fleb_trans; exfalso; eauto 8 using fleb_trans.
Qed.

Lemma read_candidate_finite s integrated attempted kv c :
  read_candidate s integrated attempted kv = Ok (Some c) → finite_candidate c.
Proof.
  unfold read_candidate. destruct kv.2 as [| | | | | |record]; try done. destruct (negb _); [done|]. intros H.
  apply res_bind_ok in H as ([] & _ & H); [done|]. apply res_bind_ok in H as (i0 & Hi0 & H).
  apply res_bind_ok in H as (i & Hi & H). apply res_bind_ok in H as (m & Hm & H). injection H as <-.
  split; simpl; [|by eapply get_float0_finite]. destruct (fleb i0 fzero); [|injection Hi as <-; by eapply get_float0_finite].
  unfold _kernel_trace_impact_pct in Hi. destruct (String.eqb _ _); [injection Hi as <-; apply fzero_finite|].
  apply res_bind_ok in Hi as (rows & _ & Hi).
  destruct (list_find _ _) as [[? row]|]; [by eapply to_float0_finite|injection Hi as <-; apply fzero_finite].
Qed.

(** *** One record per source file *)

Definition source_of c : string := record_source_path (c_record c).
Definition sources l : list string := filter (λ p, p ≠ EmptyString) (source_of <$> l).

Lemma dedupe_subset claimed l : dedupe claimed l `sublist_of` l.
Proof.
  revert claimed. induction l as [|c l IH]; intros claimed; simpl; [done|].
  destruct (_ && _); [by apply sublist_cons|]. by apply sublist_skip.
Qed.
Lemma dedupe_sources claimed l :
  NoDup (sources (dedupe claimed l)) ∧ ∀ p, p ∈ sources (dedupe claimed l) → p ∉ claimed.
Proof.
  revert claimed. induction l as [|c l IH]; intros claimed; simpl; [split; [constructor|]; by intros p []%not_elem_of_nil|].
  fold (source_of c). destruct (String.eqb_spec (source_of c) EmptyString) as [E|E]; simpl.
  - unfold sources. rewrite fmap_cons, filter_cons. rewrite decide_False by tauto. apply IH.
  - case_bool_decide as Hc; [apply IH|]. unfold sources. rewrite fmap_cons, filter_cons, decide_True by done.
    destruct (IH (source_of c :: claimed)) as [H1 H2]. split.
    + constructor; [|done]. intros Hin. apply H2 in Hin. by apply Hin; left.
    + intros p [-> |Hp]%elem_of_cons; [done|]. apply H2 in Hp. intros ?. apply Hp. by right.
Qed.

(** A record that is passed over shares its file with one that comes first. *)
Lemma dedupe_complete claimed l c :
  c ∈ l → c ∈ dedupe claimed l ∨ source_of c ∈ claimed ∨
  ∃ c' l1 l2 l3, c' ∈ dedupe claimed l ∧ source_of c' = source_of c ∧ l = l1 ++ c' :: l2 ++ c :: l3.
Proof.
  revert claimed. induction l as [|d l IH]; intros claimed; [by intros []%not_elem_of_nil|].
  rewrite elem_of_cons. simpl. fold (source_of d). intros [-> |Hin].
  - destruct (String.eqb _ _); simpl; [left; left|]. case_bool_decide; [by right; left|left; left].
  - destruct (negb _ && _) eqn:E.
    + destruct (IH claimed Hin) as [?|[?|(c' & l1 & l2 & l3 & H1 & H2 & ->)]]; [auto..|].
      right. right. exists c', (d :: l1), l2, l3. done.
    + set (claimed' := if String.eqb (source_of d) EmptyString then claimed else source_of d :: claimed).
      destruct (IH claimed' Hin) as [?|[Hc|(c' & l1 & l2 & l3 & H1 & H2 & ->)]]; [left; by right| |].
      * unfold claimed' in Hc. destruct (String.eqb _ _); [auto|]. apply elem_of_cons in Hc as [Hc|Hc]; [|auto].
        apply list_elem_of_split in Hin as (l2 & l3 & ->). right. right. exists d, [], l2, l3. split_and!; [left|done..].
      * right. right. exists c', (d :: l1), l2, l3. split_and!; [by right|done..].
Qed.

(** The attempts that rule on a patch. *)
Definition rulings s : list (pydict F) := filter (λ e, ruled_on e = true) (dicts (snd <$> kernel_integrate_attempts s)).

(** A queued record that is still to be dispatched and that nothing has ruled on, as it is ranked. *)
Definition eligible s c : Prop :=
  ∃ id raw integrated, (id, PDict raw) ∈ pending_kernel_integrations s ∧ live_status raw = true ∧
    integrated_of (optimization_stack s) = Ok integrated ∧
    _pending_record_settled s raw integrated (rulings s) = Ok false ∧
    read_candidate s integrated (rulings s) (id, PDict raw) = Ok (Some c).

Lemma read_candidate_inv s integrated kv c :
  integrated_of (optimization_stack s) = Ok integrated → kv ∈ pending_kernel_integrations s →
  read_candidate s integrated (rulings s) kv = Ok (Some c) → eligible s c.
Proof.
  intros Hi Hkv H. destruct kv as [id v]. pose proof H as H0. unfold read_candidate in H. cbn [snd] in H.
  destruct v as [| | | | | |raw]; try done. destruct (live_status raw) eqn:El; [|done]. simpl in H.
  apply res_bind_ok in H as ([] & Hs & H); [done|]. by exists id, raw, integrated.
Qed.

Lemma pending_candidates s rs s' :
  pending_kernel_integration_records budget_env s = Ok (rs, s') →
  ∃ cs, rs = take (Z.to_nat (patch_budget budget_env)) (c_record <$> dedupe [] (sort_by candidate_leb cs)) ∧
    ∀ c, c ∈ cs ↔ eligible s' c.
Proof.
  unfold pending_kernel_integration_records. intros H. apply res_bind_ok in H as (s1 & _ & H).
  apply res_bind_ok in H as (integrated & Hi & H). apply res_bind_ok in H as (cs & Hc & H). injection H as <- <-.
  fold (rulings s1) in Hc. exists (omap id cs). split; [done|]. apply map_res_ok in Hc. intros c.
  rewrite list_elem_of_omap. split.
  - intros (o & Ho & Hid). simpl in Hid. subst o. apply list_elem_of_lookup in Ho as [i Ho].
    destruct (Forall2_lookup_r _ _ _ _ _ Hc Ho) as (kv & Hkv & Hr).
    eapply read_candidate_inv; [done| |done]. by eapply list_elem_of_lookup_2.
  - intros (id0 & raw & integrated' & Hin & _ & Hi' & _ & Hr). rewrite Hi in Hi'. injection Hi' as <-.
    apply list_elem_of_lookup in Hin as [i Hin]. destruct (Forall2_lookup_l _ _ _ _ _ Hc Hin) as (o & Ho & Hr').
    rewrite Hr in Hr'. injection Hr' as <-. exists (Some c). split; [|done]. by eapply list_elem_of_lookup_2.
Qed.

Lemma patch_budget_pos : (0 < patch_budget budget_env)%Z.
Proof. unfold patch_budget, optional_positive_int. destruct (to_int _) as [n|]; [|done]. destruct (Z.leb_spec n 0); [done|lia]. Qed.
End pending.

(** Functional.  What the integrate lane is given: at most the patch budget of records, strongest first, no
    two for one source file, each of them queued, still to be dispatched and ruled on by nothing.  Nothing
    eligible is left out except a patch whose file a chosen one at least as strong already claims, or one
    no stronger than any of a full budget's worth of chosen ones. *)
Theorem pending_records_spec {F} `{!FloatOps F, !FloatOrder F} budget_env (s s' : kernel_state F) rs :
  pending_kernel_integration_records budget_env s = Ok (rs, s') →
  ∃ chosen, rs = c_record <$> chosen ∧
    (Z.of_nat (length chosen) <= patch_budget budget_env)%Z ∧
    StronglySorted (λ a b, candidate_leb a b = true) chosen ∧
    NoDup (sources chosen) ∧
    (∀ c, c ∈ chosen → eligible s' c) ∧
    (∀ c, eligible s' c →
       c ∈ chosen ∨
       (∃ c', c' ∈ chosen ∧ source_of c' = source_of c ∧ candidate_leb c' c = true) ∨
       (Z.of_nat (length chosen) = patch_budget budget_env ∧ ∀ c', c' ∈ chosen → candidate_leb c' c = true)).
Proof.
  intros H. apply pending_candidates in H as (cs & -> & Hcs). set (n := Z.to_nat (patch_budget budget_env)).
  set (sorted := sort_by candidate_leb cs). set (all := dedupe [] sorted).
  assert (∀ c, c ∈ sorted ↔ eligible s' c) as Hel by (intros c; rewrite <- Hcs; unfold sorted; by rewrite sort_by_perm).
  assert (StronglySorted (λ a b, candidate_leb a b = true) sorted) as Hs.
  { apply (sort_by_sorted_on _ finite_candidate); [apply candidate_leb_total|intros x y z _ _ _; apply candidate_leb_trans|].
    apply Forall_forall. intros c Hc. apply Hcs in Hc as (? & ? & ? & _ & _ & _ & _ & Hr). by eapply read_candidate_finite. }
  assert (StronglySorted (λ a b, candidate_leb a b = true) all) as Hall.
  { eapply sorted_sublist; [apply dedupe_subset|exact Hs]. }
  destruct (dedupe_sources [] sorted) as [Hnd _]. fold all in Hnd.
  pose proof (patch_budget_pos budget_env) as Hb. rewrite <- fmap_take. exists (take n all).
  rewrite <- (take_drop n all) in Hnd, Hall. unfold sources in Hnd |- *. rewrite fmap_app, filter_app in Hnd.
  split_and!; [done| | | | |].
  - rewrite length_take. lia.
  - by apply StronglySorted_app_1_l in Hall.
  - by apply NoDup_app in Hnd as [? _].
  - intros c Hc. apply Hel. apply subseteq_take in Hc. eapply sublist_subseteq; [apply dedupe_subset|exact Hc].
  - intros c Hc. apply Hel in Hc.
    assert (∃ c', c' ∈ all ∧ (c' = c ∨ source_of c' = source_of c ∧ candidate_leb c' c = true)) as (c' & Hc' & Hcc).
    { destruct (dedupe_complete [] sorted c Hc) as [?|[[]%not_elem_of_nil|(c' & l1 & l2 & l3 & H1 & H2 & E)]]; [eauto|].
      exists c'. split; [done|]. right. split; [done|]. rewrite E in Hs. apply StronglySorted_app_1_r in Hs.
      inversion Hs as [|? ? _ Hf]; subst. rewrite Forall_forall in Hf. apply Hf, elem_of_app. right. left. }
    rewrite <- (take_drop n all), elem_of_app in Hc'. destruct Hc' as [Hc'|Hc'].
    + destruct Hcc as [-> |[? ?]]; [by left|right; left; by exists c'].
    + right. right. split.
      * rewrite length_take. assert (length (drop n all) ≠ 0) as Hd by (destruct (drop n all); [by apply not_elem_of_nil in Hc'|done]).
        rewrite length_drop in Hd. lia.
      * intros d Hd. pose proof (StronglySorted_app_1_elem_of _ _ _ d c' Hall Hd Hc') as Hdc.
        destruct Hcc as [-> |[_ Hcc]]; [done|]. exact (candidate_leb_trans _ _ _ Hdc Hcc).
Qed.

(** ** Dicts *)

Section dicts.
Context {F : Type} `{!FloatOps F}.
Implicit Types (d : pydict F) (k : string).

Lemma dget_dpop_eq k d : dget k (dpop k d) = None.
Proof. apply dget_None. intros ([k' v] & -> & [? _]%list_elem_of_filter)%list_elem_of_fmap. done. Qed.
Lemma dget_dpop_ne k k' d : k ≠ k' → dget k (dpop k' d) = dget k d.
Proof.
  intros Hne. unfold dpop. induction d as [|[k2 v] d IH]; [done|]. rewrite filter_cons. simpl.
  case_decide as E; simpl; [by case_bool_decide|]. rewrite bool_decide_eq_false_2; [done|]. intros ->. tauto.
Qed.
Lemma get_str_dset_ne k k' v d : k ≠ k' → get_str k (dset k' v d) = get_str k d.
Proof. intros H. unfold get_str. by rewrite dget_dset_ne. Qed.
Lemma source_path_dset k v d : k ∉ ["target_file"; "source_file"] → record_source_path (dset k v d) = record_source_path d.
Proof.
  rewrite !not_elem_of_cons. intros (? & ? & _). unfold record_source_path. by rewrite !get_str_dset_ne by congruence.
Qed.
Lemma get_str_of k d v : dget k d = Some (PStr v) → get_str k d = v.
Proof. unfold get_str. intros ->. simpl. by destruct v. Qed.
End dicts.

(** Look a literal key up through the writes above it. *)
Ltac dict_lookup :=
  repeat first [rewrite dget_dset_eq | rewrite dget_dset_ne by done | rewrite dget_dpop_ne by done].

(** ** The ledgers *)

Section ledgers.
Context {F : Type} `{!FloatOps F}.
Implicit Types (s : kernel_state F) (result entry old : pydict F) (bound : option (string * pydict F)).

(** What recording an attempt leaves in its entry. *)
Record updated result bound (key : string) (old : pydict F) (rows : list (pyval F)) entry : Prop := {
  u_key : dget "key" entry = Some (PStr key);
  u_kernel : dget "kernel_id" entry = Some (PStr (get_str "kernel_id" result));
  u_group : dget "task_group_key" entry = Some (PStr (get_str "task_group_key" result));
  u_patch : dget "patch_path" entry =
    Some (PStr (first_nonblank (get_str "patch_path" result) (get_str "best_artifact_path" result)));
  u_target : dget "target_file" entry =
    Some (PStr (first_nonblank (get_str "target_file" result) (get_str "source_file" result)));
  u_attempts : dget "attempts" entry = Some (PList rows);
  u_count : dget "attempt_count" entry = Some (PInt (Z.of_nat (length rows)));
  u_faults : dget "fault_count" entry = Some (PInt (count_faults (dicts rows)));
  u_verdicts : dget "verdict_attempt_count" entry = Some (PInt (Z.of_nat (length rows) - count_faults (dicts rows)));
  u_last_fault : dget "last_was_fault" entry = Some (PBool (_is_integrate_fault result));
  u_decision : dget "last_decision" entry = Some (dget_or_none "decision" result);
  u_retryable : dget "retryable" entry = None;
  u_rejected : dget "rejected" entry = dget "rejected" old
}.

Lemma updated_entry_spec s result bound key now entry :
  updated_entry s result bound key now = Ok entry →
  ∃ old rows, attempts_entry s key = Ok old ∧ py_iter (dget_or_none "attempts" old) = Ok rows ∧
    updated result bound key old
      (rows ++ [PDict (_integrate_attempt_row s result (_is_integrate_fault result) now)]) entry.
Proof.
  unfold updated_entry. intros H. apply res_bind_ok in H as (old & Ho & H). apply res_bind_ok in H as (rows & Hr & H).
  apply res_bind_ok in H as ([best faults] & Ht & H). injection H as <-. exists old, rows. split_and!; [done..|].
  apply res_bind_ok in Ht as (best' & _ & [= <- <-]).
  set (all := rows ++ _). split; try apply dget_dpop_eq; rewrite dget_dpop_ne by done; by dict_lookup.
Qed.

(** An entry of the attempts ledger: its counts are those of its attempts, and it is open for a retry only
    while its last attempt was a fault and the faults have not used up their budget. *)
Record entry_ok (key : string) entry : Prop := {
  eo_key : get_str "key" entry = key;
  eo_counts : ∃ rows, dget "attempts" entry = Some (PList rows) ∧
    dget "attempt_count" entry = Some (PInt (Z.of_nat (length rows))) ∧
    dget "fault_count" entry = Some (PInt (count_faults (dicts rows))) ∧
    dget "verdict_attempt_count" entry = Some (PInt (Z.of_nat (length rows) - count_faults (dicts rows))) ∧
    (get_bool "retryable" entry = true →
     get_bool "last_was_fault" entry = true ∧ (count_faults (dicts rows) < _MAX_INTEGRATE_FAULT_ATTEMPTS)%Z)
}.

(** A row of the rejection ledger answers to one key, and to an entry that carries it. *)
Definition rejected_under s (key : string) (v : pyval F) : Prop :=
  ∃ r entry, v = PDict r ∧ dget "key" r = Some (PStr key) ∧
    dget key (kernel_integrate_attempts s) = Some (PDict entry) ∧ dget "rejected" entry = Some (PDict r).

(** The key a row of the rejection ledger carries. *)
Definition row_key (v : pyval F) : option string :=
  match v with PDict r => match dget "key" r with Some (PStr k) => Some k | _ => None end | _ => None end.

Record ledgers_ok s : Prop := {
  lo_entries : ∀ key v, dget key (kernel_integrate_attempts s) = Some v → ∃ entry, v = PDict entry ∧ entry_ok key entry;
  lo_rows : ∀ v, v ∈ rejected_kernel_patches s → ∃ key, rejected_under s key v;
  lo_unique : NoDup (row_key <$> rejected_kernel_patches s);
  lo_all : ∀ key entry v, dget key (kernel_integrate_attempts s) = Some (PDict entry) →
    dget "rejected" entry = Some v → v ∈ rejected_kernel_patches s ∧ row_key v = Some key
}.

Lemma ledgers_ok_ext s s' :
  kernel_integrate_attempts s' = kernel_integrate_attempts s → rejected_kernel_patches s' = rejected_kernel_patches s →
  ledgers_ok s → ledgers_ok s'.
Proof.
  intros E1 E2 [H1 H2 H3 H4]. split; unfold rejected_under in *; rewrite ?E1, ?E2; done.
Qed.

Definition stored_rejection s (key : string) : option (pyval F) :=
  match dget key (kernel_integrate_attempts s) with Some (PDict d) => dget "rejected" d | _ => None end.

Lemma has_key_of key v : has_key key v = true ↔ row_key v = Some key.
Proof.
  destruct v as [| | | | | |r]; try done. simpl. destruct (dget "key" r) as [v|]; [|done].
  destruct v; simpl; try done. rewrite String.eqb_eq. naive_solver.
Qed.
Lemma row_key_of key (r : pydict F) : row_key (PDict r) = Some key ↔ dget "key" r = Some (PStr key).
Proof. simpl. destruct (dget "key" r) as [v|]; [|done]. destruct v; simpl; try done. naive_solver. Qed.
Lemma NoDup_fmap_filter {A B} (f : A → B) (P : A → Prop) `{∀ x, Decision (P x)} l : NoDup (f <$> l) → NoDup (f <$> filter P l).
Proof.
  induction l as [|x l IH]; [done|]. rewrite fmap_cons, filter_cons. intros [Hx Hl]%NoDup_cons.
  case_decide; [|auto]. rewrite fmap_cons. constructor; [|auto]. intros (y & Hy & [_ Hin]%list_elem_of_filter)%list_elem_of_fmap.
  apply Hx. rewrite Hy. by apply list_elem_of_fmap_2.
Qed.

Lemma store_ok s key entry :
  ledgers_ok s → entry_ok key entry → dget "rejected" entry = stored_rejection s key →
  ledgers_ok (set_attempts (dset key (PDict entry) (kernel_integrate_attempts s)) s).
Proof.
  intros [H1 H2 H3 H4] Hok Hrej. split; simpl.
  - intros k v. destruct (decide (k = key)) as [->|Hne]; [rewrite dget_dset_eq; intros [= <-]; eauto|].
    rewrite dget_dset_ne by done. apply H1.
  - intros v Hv. destruct (H2 v Hv) as (k & r & e & -> & Hk & He & Hr). exists k. unfold rejected_under. simpl.
    destruct (decide (k = key)) as [->|Hne]; [|rewrite dget_dset_ne by done; eauto 10].
    rewrite dget_dset_eq. exists r, entry. split_and!; [done..|]. rewrite Hrej. unfold stored_rejection. by rewrite He.
  - apply H3.
  - intros k e v. destruct (decide (k = key)) as [->|Hne]; [|rewrite dget_dset_ne by done; apply H4].
    rewrite dget_dset_eq. intros [= <-]. rewrite Hrej. unfold stored_rejection.
    destruct (dget key _) as [w|] eqn:E; [|done]. destruct w; try done. by apply H4.
Qed.

Lemma reject_ok s entry reason bound now key :
  ledgers_ok s → dget key (kernel_integrate_attempts s) = Some (PDict entry) → dget "key" entry = Some (PStr key) →
  ledgers_ok (_reject_integration s entry reason bound now).2.
Proof.
  intros [H1 H2 H3 H4] He Hk. unfold _reject_integration. rewrite (get_str_of _ _ _ Hk). cbn [snd].
  set (rej := rejection_of entry reason now). set (ids := if (_ : bool) then _ else rejected_kernel_ids s).
  assert (dget "key" rej = Some (PStr key)) as Hrk by (unfold rej, rejection_of; simpl; unfold dget_or_none; by rewrite Hk).
  eapply ledgers_ok_ext with (s := set_attempts (dset key (PDict (dset "rejected" (PDict rej) entry)) (kernel_integrate_attempts s))
    (set_rejected (filter (λ v, has_key key v = false) (rejected_kernel_patches s) ++ [PDict rej]) ids s));
    [by destruct bound as [[]|]..|].
  split; simpl.
  - intros k v. destruct (decide (k = key)) as [->|Hne]; [rewrite dget_dset_eq; intros [= <-]|rewrite dget_dset_ne by done; apply H1].
    eexists. split; [done|]. destruct (H1 _ _ He) as (e & [= <-] & [Hkey (rows & Hr)]).
    split; [unfold get_str in *; by dict_lookup|]. exists rows. unfold get_bool in *. by dict_lookup.
  - intros v [[Hv Hin]%list_elem_of_filter| ->%list_elem_of_singleton]%elem_of_app; unfold rejected_under; simpl.
    + destruct (H2 v Hin) as (k & r & e & -> & Hk' & He' & Hr). exists k. destruct (decide (k = key)) as [->|Hne].
      * apply row_key_of, has_key_of in Hk'. congruence.
      * exists r, e. by rewrite dget_dset_ne.
    + exists key, rej. eexists. split_and!; [done|done|by rewrite dget_dset_eq|by rewrite dget_dset_eq].
  - rewrite fmap_app. apply NoDup_app. split_and!; [by apply NoDup_fmap_filter| |apply NoDup_singleton].
    intros o (v & -> & [Hv _]%list_elem_of_filter)%list_elem_of_fmap Hin. apply list_elem_of_singleton in Hin.
    apply row_key_of in Hrk. rewrite Hrk in Hin. apply has_key_of in Hin. congruence.
  - intros k e v. destruct (decide (k = key)) as [->|Hne].
    + rewrite dget_dset_eq. intros [= <-]. rewrite dget_dset_eq. intros [= <-]. split; [apply elem_of_app; right; left|].
      by apply row_key_of.
    + rewrite dget_dset_ne by done. intros Hke Hr. destruct (H4 _ _ _ Hke Hr) as [Hin Hkk]. split; [|done].
      apply elem_of_app. left. apply list_elem_of_filter. split; [|done]. apply not_true_iff_false. rewrite has_key_of. congruence.
Qed.

Lemma attempts_entry_of s key old :
  ledgers_ok s → attempts_entry s key = Ok old →
  dget "rejected" old = stored_rejection s key.
Proof.
  intros Hok. unfold attempts_entry, get_dict, dget_or_none, stored_rejection.
  destruct (dget key _) as [v|] eqn:E; simpl; [|by intros [= <-]].
  destruct (lo_entries _ Hok _ _ E) as (e & -> & _). by intros [= <-].
Qed.

Lemma get_int_of k (d : pydict F) n z : dget k d = Some (PInt n) → get_int k d = Ok z → z = n.
Proof.
  unfold get_int, dget_or_none. intros ->. simpl. destruct (Z.eqb_spec n 0) as [->|]; simpl; by intros [= <-].
Qed.

(** The branch a recorded result takes. *)
Lemma record_inv s v now out s' :
  record_kernel_integrate_result s v now = Ok (out, s') →
  (out = None ∧ s' = s ∧ ∀ r0, v = PDict r0 → kernel_patch_key (_bind_result_to_pending s r0).1 = EmptyString) ∨
  ∃ result0 result bound key old rows entry,
    v = PDict result0 ∧ _bind_result_to_pending s result0 = (result, bound) ∧ key = kernel_patch_key result ∧
    attempts_entry s key = Ok old ∧ updated result bound key old rows entry ∧
    (∃ rows0 row, py_iter (dget_or_none "attempts" old) = Ok rows0 ∧ rows = rows0 ++ [PDict row] ∧
       dget "is_fault" row = Some (PBool (_is_integrate_fault result))) ∧
    let store e := set_attempts (dset key (PDict e) (kernel_integrate_attempts s)) s in
    let fault := _is_integrate_fault result in
    let faults := count_faults (dicts rows) in
    if is_str "KEEP" (dget_or_none "decision" result) then
      out = Some entry ∧ s' = _record_integration_keep (store entry) result bound now
    else match rejection_reason result fault faults (Z.of_nat (length rows) - faults) with
         | None => let e := if fault then dset "retryable" (PBool true) entry else entry in out = Some e ∧ s' = store e
         | Some reason => s' = (_reject_integration (store entry) entry reason bound now).2 ∧
                          out = Some (_reject_integration (store entry) entry reason bound now).1
         end.
Proof.
  unfold record_kernel_integrate_result. destruct v as [| | | | | |result0]; try (intros [= <- <-]; by left).
  destruct (_bind_result_to_pending s result0) as [result bound] eqn:Eb. set (key := kernel_patch_key result).
  destruct (String.eqb_spec key EmptyString) as [Ek|_];
    [intros [= <- <-]; left; split_and!; [done..|]; intros r0 [= <-]; by rewrite Eb|]. intros H. right.
  apply res_bind_ok in H as (entry & He & H). apply updated_entry_spec in He as (old & rows & Ho & Hi & Hu).
  apply res_bind_ok in H as (fc & Hfc & H). apply res_bind_ok in H as (vc & Hvc & H).
  apply (get_int_of _ _ _ _ (u_faults _ _ _ _ _ _ Hu)) in Hfc. apply (get_int_of _ _ _ _ (u_verdicts _ _ _ _ _ _ Hu)) in Hvc.
  subst fc vc. exists result0, result, bound, key, old, (rows ++ [PDict (_integrate_attempt_row s result (_is_integrate_fault result) now)]), entry.
  split_and!; [done..|by do 2 eexists|]. cbv zeta in H |- *.
  destruct (is_str "KEEP" _); [by injection H as <- <-|].
  destruct (rejection_reason _ _ _ _) as [reason|]; [|by injection H as <- <-].
  destruct (_reject_integration _ _ _ _ _) as [e s2]. by injection H as <- <-.
Qed.

Lemma updated_ok result bound key old rows entry :
  updated result bound key old rows entry → entry_ok key entry.
Proof.
  intros Hu. split; [apply get_str_of, Hu|]. exists rows. split_and!; try apply Hu.
  unfold get_bool. by rewrite (u_retryable _ _ _ _ _ _ Hu).
Qed.
Lemma retryable_ok result bound key old rows entry :
  updated result bound key old rows entry → _is_integrate_fault result = true →
  (count_faults (dicts rows) < _MAX_INTEGRATE_FAULT_ATTEMPTS)%Z → entry_ok key (dset "retryable" (PBool true) entry).
Proof.
  intros Hu Hf Hc. destruct (updated_ok _ _ _ _ _ _ Hu) as [Hk _]. split.
  - unfold get_str in *. by dict_lookup.
  - exists rows. unfold get_bool. dict_lookup. rewrite (u_last_fault _ _ _ _ _ _ Hu), Hf. split_and!; [apply Hu..|done].
Qed.

Lemma record_ledgers_ok s v now out s' :
  record_kernel_integrate_result s v now = Ok (out, s') → ledgers_ok s → ledgers_ok s'.
Proof.
  intros H Hok. apply record_inv in H as [(_ & -> & _)|(r0 & result & bound & key & old & rows & entry & _ & _ & _ & Ho & Hu & _ & H)]; [done|].
  pose proof (attempts_entry_of _ _ _ Hok Ho) as Hrej. pose proof (u_rejected _ _ _ _ _ _ Hu) as Hr. rewrite Hrej in Hr.
  pose proof (store_ok s key entry Hok (updated_ok _ _ _ _ _ _ Hu) Hr) as Hst. cbv zeta in H.
  destruct (is_str "KEEP" _).
  - destruct H as [_ ->]. eapply ledgers_ok_ext; [..|exact Hst]; by destruct bound as [[]|].
  - destruct (rejection_reason _ _ _ _) as [reason|] eqn:Er.
    + destruct H as [-> _]. apply reject_ok with (key := key); [done| |apply Hu]. simpl. by rewrite dget_dset_eq.
    + destruct H as [_ ->]. destruct (_is_integrate_fault result) eqn:Ef; [|done]. apply store_ok; [done| |by dict_lookup].
      eapply retryable_ok; [done..|]. unfold rejection_reason in Er. by destruct (Z.ltb_spec (count_faults (dicts rows)) _MAX_INTEGRATE_FAULT_ATTEMPTS).
Qed.
End ledgers.

(** ** Runs *)

(** The operations on the queue and the ledgers, and the rest of the session, which may change everything
    else. *)
Inductive kernel_step {F} `{!FloatOps F} digest budget_env : kernel_state F → kernel_state F → Prop :=
| step_nominate s p keep now : kernel_step digest budget_env s (enqueue_nominated_patch digest s p keep now).2
| step_read s rs s' : pending_kernel_integration_records budget_env s = Ok (rs, s') → kernel_step digest budget_env s s'
| step_result s v now out s' : record_kernel_integrate_result s v now = Ok (out, s') → kernel_step digest budget_env s s'
| step_undispatchable s pending : kernel_step digest budget_env s (_reject_undispatchable_integrate s pending)
| step_gemm s v now : kernel_step digest budget_env s (record_gemm_tuning s v now)
| step_session s s' :
    pending_kernel_integrations s' = pending_kernel_integrations s →
    kernel_integrate_attempts s' = kernel_integrate_attempts s →
    rejected_kernel_patches s' = rejected_kernel_patches s →
    rejected_kernel_ids s' = rejected_kernel_ids s → kernel_step digest budget_env s s'.

Section steps.
Context {F : Type} `{!FloatOps F}.
Context (digest : string → string → string → string) (budget_env : pyval F).
Implicit Types s : kernel_state F.

(** Only a recorded result writes the attempts and the rejections. *)
Lemma enqueue_ledgers s p keep now :
  let s' := (enqueue_nominated_patch digest s p keep now).2 in
  kernel_integrate_attempts s' = kernel_integrate_attempts s ∧ rejected_kernel_patches s' = rejected_kernel_patches s ∧
  optimization_stack s' = optimization_stack s ∧ rejected_kernel_ids s' = rejected_kernel_ids s.
Proof. unfold enqueue_nominated_patch. cbv zeta. repeat case_match; done. Qed.
Lemma read_ledgers s rs s' :
  pending_kernel_integration_records budget_env s = Ok (rs, s') →
  (∃ q, evict_terminal (pending_kernel_integrations s) (patch_budget budget_env) TERMINAL_RETENTION_MULTIPLE = Ok q ∧
        s' = set_queue q s).
Proof.
  unfold pending_kernel_integration_records. intros H. apply res_bind_ok in H as (s1 & H1 & H).
  inv_res H. subst. apply res_bind_ok in H1 as (q & Hq & H1). injection H1 as <-. eauto.
Qed.
Lemma undispatchable_ledgers s pending :
  let s' := _reject_undispatchable_integrate s pending in
  kernel_integrate_attempts s' = kernel_integrate_attempts s ∧ rejected_kernel_patches s' = rejected_kernel_patches s.
Proof. unfold _reject_undispatchable_integrate. cbv zeta. repeat case_match; done. Qed.

Lemma step_ledgers_ok s s' : kernel_step digest budget_env s s' → ledgers_ok s → ledgers_ok s'.
Proof.
  intros H Hok. destruct H as [s p keep now|s rs s' H|s v now out s' H|s pending|s v now|s s' _ H1 H2 _].
  - destruct (enqueue_ledgers s p keep now) as (H1 & H2 & _). by eapply ledgers_ok_ext.
  - apply read_ledgers in H as (q & _ & ->). by eapply ledgers_ok_ext; [..|exact Hok].
  - by eapply record_ledgers_ok.
  - destruct (undispatchable_ledgers s pending). by eapply ledgers_ok_ext.
  - by eapply ledgers_ok_ext; [..|exact Hok].
  - by eapply ledgers_ok_ext.
Qed.
End steps.

(** Invariant.  The two ledgers never disagree.  However nominations, reads of the queue, results, failed
    dispatches and the rest of the session interleave, every entry of the attempts ledger counts exactly
    its own attempts, splitting them into faults and verdicts; it is open for a retry only while its last
    attempt was a fault and fewer than two faults are on record; and the rejection ledger holds exactly one
    row per rejected patch, the one its entry carries. *)
Theorem ledgers_agree {F} `{!FloatOps F} digest budget_env (s s' : kernel_state F) :
  kernel_integrate_attempts s = [] → rejected_kernel_patches s = [] →
  rtc (kernel_step digest budget_env) s s' → ledgers_ok s'.
Proof.
  intros H1 H2 Hr. assert (ledgers_ok s) as Hok.
  { split; rewrite ?H1, ?H2; [done| |constructor|done]. intros v []%not_elem_of_nil. }
  clear H1 H2. induction Hr as [|s s1 s2 Hs _ IH]; [done|]. by eapply IH, step_ledgers_ok.
Qed.

(** ** Rulings stand *)

(** A step that records no result. *)
Definition quiet_step {F} `{!FloatOps F} digest budget_env (s s' : kernel_state F) : Prop :=
  kernel_step digest budget_env s s' ∧ kernel_integrate_attempts s' = kernel_integrate_attempts s.

(** The attempt and the queued record are about one patch. *)
Record same_patch_as {F} `{!FloatOps F} (e record : pydict F) : Prop := {
  sp_group : get_str "task_group_key" record = get_str "task_group_key" e;
  sp_kernel : get_str "kernel_id" record = get_str "kernel_id" e;
  sp_source : record_source_path record = record_source_path e;
  sp_artifact : get_str "artifact_path" record = get_str "patch_path" e
}.

Section rulings.
Context {F : Type} `{!FloatOps F}.
Implicit Types (s : kernel_state F) (e record : pydict F).

Lemma same_patch_matches e record aliases :
  same_patch_as e record →
  record_matches_task e (get_str "kernel_id" record) (get_str "task_group_key" record) (record_source_path record) aliases = true.
Proof.
  intros [Hg Hk Hs _]. unfold record_matches_task. rewrite Hg, Hk, Hs.
  destruct (String.eqb_spec (get_str "task_group_key" e) EmptyString); simpl.
  - rewrite String.eqb_refl. simpl. destruct (String.eqb _ _); simpl; [done|]. by rewrite String.eqb_refl.
  - apply bool_decide_eq_true. left.
Qed.

Lemma ruled_settles s e record integrated b :
  e ∈ rulings s → same_patch_as e record → _pending_record_settled s record integrated (rulings s) = Ok b → b = true.
Proof.
  intros He Hs H. unfold _pending_record_settled in H. apply res_bind_ok in H as (aliases & _ & [= <-]).
  apply orb_true_iff. right. apply existsb_exists. exists e. split; [by apply list_elem_of_In|].
  rewrite same_patch_matches by done. rewrite (sp_artifact _ _ Hs), String.eqb_refl. by rewrite orb_true_r.
Qed.

Lemma stamp_same_patch e record id : same_patch_as e (dset "integration_id" (PStr id) record) → same_patch_as e record.
Proof.
  intros [Hg Hk Hs Ha]. rewrite get_str_dset_ne in Hg, Hk, Ha by done.
  rewrite source_path_dset in Hs by (by apply (bool_decide_eq_false _)). by split.
Qed.

Lemma eligible_record s c : eligible s c →
  ∃ id raw integrated, (id, PDict raw) ∈ pending_kernel_integrations s ∧ live_status raw = true ∧
    _pending_record_settled s raw integrated (rulings s) = Ok false ∧
    c_record c = dset "integration_id" (PStr (first_nonblank (get_str "integration_id" raw) id)) raw.
Proof.
  intros (id & raw & integrated & Hin & Hl & _ & Hs & Hr). exists id, raw, integrated. split_and!; [done..|].
  unfold read_candidate in Hr. cbn [snd fst] in Hr. rewrite Hl, Hs in Hr. simpl in Hr. inv_res Hr. by subst c.
Qed.
End rulings.

(** Safety.  A ruling stands: once an attempt rules on a patch (it was kept, reverted, used up its retries,
    or was measured without a fault), no sequence of nominations, reads of the queue, failed dispatches and
    unrelated work, under whatever id the patch is offered again, gets it dispatched again before a new
    result is recorded. *)
Theorem ruling_stands {F} `{!FloatOps F, !FloatOrder F} digest budget_env (s s1 s2 : kernel_state F) e rs r :
  e ∈ rulings s → rtc (quiet_step digest budget_env) s s1 →
  pending_kernel_integration_records budget_env s1 = Ok (rs, s2) → r ∈ rs → ¬ same_patch_as e r.
Proof.
  intros He Hrun Hp Hr Hs.
  assert (rulings s2 = rulings s) as Erul.
  { apply read_ledgers in Hp as (q & _ & ->). unfold rulings. simpl.
    induction Hrun as [|s s0 s1 [_ E] _ IH]; [done|]. rewrite IH, E; [done|]. unfold rulings in *. by rewrite E. }
  apply pending_candidates in Hp as (cs & -> & Hcs). apply subseteq_take in Hr.
  apply list_elem_of_fmap in Hr as (c & -> & Hc). eapply sublist_subseteq in Hc; [|apply dedupe_subset].
  rewrite sort_by_perm in Hc. apply Hcs, eligible_record in Hc as (id & raw & integrated & _ & _ & Hset & Hrec).
  rewrite Hrec in Hs. apply stamp_same_patch in Hs. rewrite Erul in Hset.
  assert (e ∈ rulings s2) as He' by by rewrite Erul.
  rewrite <- Erul in Hset. by apply (ruled_settles s2 e raw integrated false He' Hs) in Hset.
Qed.

(** ** A drain ends *)

Section drain.
Context {F : Type} `{!FloatOps F, !FloatOrder F}.
Context (budget_env : pyval F).
Context (handler : nat → kernel_state F → pydict F → res (pyval F)).
Context (promote : kernel_state F → pydict F → kernel_state F * bool).
Context (clock : nat → string).
(** The server args the handler measures a queued patch under. *)
Context (args_of : string → string).
Implicit Types (s : kernel_state F) (raw e result : pydict F) (id : string).

Definition patch_key id raw : string := join "|" [get_str "kernel_id" raw; get_str "artifact_path" raw; args_of id].

(** A result that answers for the record it was asked about: it echoes its identity, and the patch and the
    file it names, if it names any, are the record's. *)
Record answers_for id raw result : Prop := {
  af_id : get_str "integration_id" result = id;
  af_kernel : get_str "kernel_id" result = get_str "kernel_id" raw;
  af_group : get_str "task_group_key" result = get_str "task_group_key" raw;
  af_patch : get_bool "patch_path" result || get_bool "best_artifact_path" result = true →
    first_nonblank (get_str "patch_path" result) (get_str "best_artifact_path" result) = get_str "artifact_path" raw;
  af_target : get_bool "target_file" result || get_bool "source_file" result = true →
    py_strip (first_nonblank (get_str "target_file" result) (get_str "source_file" result)) = record_source_path raw;
  af_args : stripped "extra_server_args" result = args_of id;
  af_status : is_str "skipped" (dget_or_none "status" result) = false
}.

(** The queue of a session: each record under its own id, naming a patch and a file, no two the same patch;
    an entry of the ledger under a queued patch's key is about that patch. *)
Record queue_ok s : Prop := {
  qo_keys : NoDup (pending_kernel_integrations s).*1;
  qo_record : ∀ id raw, dget id (pending_kernel_integrations s) = Some (PDict raw) →
    id ≠ EmptyString ∧ get_str "integration_id" raw = id ∧ get_str "kernel_id" raw ≠ EmptyString ∧
    get_str "artifact_path" raw ≠ EmptyString ∧ record_source_path raw ≠ EmptyString;
  qo_distinct : ∀ id1 raw1 id2 raw2,
    dget id1 (pending_kernel_integrations s) = Some (PDict raw1) →
    dget id2 (pending_kernel_integrations s) = Some (PDict raw2) →
    patch_key id1 raw1 = patch_key id2 raw2 → id1 = id2;
  qo_entry : ∀ id raw e, dget id (pending_kernel_integrations s) = Some (PDict raw) →
    dget (patch_key id raw) (kernel_integrate_attempts s) = Some (PDict e) → same_patch_as e raw;
  qo_ledgers : ledgers_ok s
}.

(** The handler answers for what it is asked, or raises; promoting a KEEP leaves the queue and the attempts
    alone. *)
Context (Hanswers : ∀ n s id raw v, dget id (pending_kernel_integrations s) = Some (PDict raw) →
  get_str "integration_id" raw = id →
  handler n s (integrate_request (dset "integration_id" (PStr id) raw)) = Ok v →
  ∃ result, v = PDict result ∧ answers_for id raw result).
Context (Hpromote : ∀ s result, let s' := (promote s result).1 in
  pending_kernel_integrations s' = pending_kernel_integrations s ∧
  kernel_integrate_attempts s' = kernel_integrate_attempts s ∧
  rejected_kernel_patches s' = rejected_kernel_patches s).

(** How many dispatches a queued patch can still have. *)
Definition faults_of e : Z := match dget "fault_count" e with Some (PInt n) => n | _ => 0 end.
Definition remaining s id : nat :=
  match dget id (pending_kernel_integrations s) with
  | Some (PDict raw) =>
      if negb (live_status raw) then 0
      else match dget (patch_key id raw) (kernel_integrate_attempts s) with
           | Some (PDict e) => if ruled_on e then 0 else Z.to_nat (_MAX_INTEGRATE_FAULT_ATTEMPTS - faults_of e)
           | _ => Z.to_nat _MAX_INTEGRATE_FAULT_ATTEMPTS
           end
  | _ => 0
  end.

Lemma remaining_bound s id : ledgers_ok s → remaining s id ≤ 2.
Proof.
  intros Hok. unfold remaining. destruct (dget id _) as [v|]; [|lia]. destruct v as [| | | | | |raw]; try lia.
  destruct (negb _); [lia|]. destruct (dget (patch_key id raw) _) as [v|] eqn:E; [|unfold _MAX_INTEGRATE_FAULT_ATTEMPTS; lia].
  destruct (lo_entries _ Hok _ _ E) as (e & -> & [_ (rows & _ & _ & Hf & _)]). destruct (ruled_on e); [lia|].
  unfold faults_of. rewrite Hf. unfold count_faults, _MAX_INTEGRATE_FAULT_ATTEMPTS. lia.
Qed.

Lemma dget_in id v (q : pydict F) : NoDup q.*1 → (id, v) ∈ q ↔ dget id q = Some v.
Proof.
  intros Hnd. split; [|apply dget_elem]. induction q as [|[k w] q IH]; [by intros []%not_elem_of_nil|].
  apply NoDup_cons in Hnd as [Hk Hnd]. intros [[= -> ->]|Hin]%elem_of_cons; simpl; [by rewrite bool_decide_eq_true_2|].
  rewrite bool_decide_eq_false_2; [auto|]. intros ->. apply Hk. apply list_elem_of_fmap. by exists (k, v).
Qed.

(** Reading the queue only evicts. *)
Lemma evict_subset (q q' : pydict F) b m : evict_terminal q b m = Ok q' → ∀ kv, kv ∈ q' → kv ∈ q.
Proof.
  intros H kv Hkv. destruct (evict_terminal_spec _ _ _ _ H) as (Hl & Ht & _).
  rewrite <- filter_partition in Hkv |- *. rewrite Hl in Hkv. apply elem_of_app in Hkv as [?|?]; apply elem_of_app; auto.
Qed.
Lemma evict_keys (q q' : pydict F) b m : NoDup q.*1 → evict_terminal q b m = Ok q' → NoDup q'.*1.
Proof.
  intros Hnd H. unfold evict_terminal in H.
  assert (NoDup (live_part q ++ terminal_part q).*1) as Hpart by by rewrite filter_partition.
  destruct (_ <=? _)%nat; [by injection H as <-|]. apply res_bind_ok in H as (keyed & Hk & [= <-]).
  apply map_res_snd in Hk as [Hsnd _]. set (sorted := snd <$> sort_by weaker_leb keyed).
  assert (sorted ≡ₚ terminal_part q) as Hp by (unfold sorted; by rewrite sort_by_perm, Hsnd).
  rewrite <- Hp in Hpart. rewrite <- (take_drop (length sorted - Z.to_nat (Z.max 0 b * Z.max 0 m)) sorted) in Hpart.
  rewrite Permutation_app_swap_app in Hpart. rewrite fmap_app in Hpart. by apply NoDup_app in Hpart as (_ & _ & ?).
Qed.
Lemma read_ok s rs s1 :
  pending_kernel_integration_records budget_env s = Ok (rs, s1) → queue_ok s →
  queue_ok s1 ∧ ∀ id, remaining s1 id ≤ remaining s id.
Proof.
  intros H [Hk Hr Hd He Hl]. apply read_ledgers in H as (q & Hq & ->).
  assert (NoDup q.*1) as Hqk by by eapply evict_keys.
  assert (∀ id v, dget id q = Some v → dget id (pending_kernel_integrations s) = Some v) as Hsub.
  { intros id v Hv. apply dget_in; [done|]. eapply evict_subset; [exact Hq|]. by apply dget_in. }
  split.
  - split; simpl; eauto. by eapply ledgers_ok_ext; [..|exact Hl].
  - intros id. unfold remaining. simpl. destruct (dget id q) as [v|] eqn:E; [|lia]. by rewrite (Hsub _ _ E).
Qed.

Lemma dispatched_remaining s pending rs s1 :
  pending_kernel_integration_records budget_env s = Ok (pending :: rs, s1) → queue_ok s1 →
  ∃ id raw, dget id (pending_kernel_integrations s1) = Some (PDict raw) ∧ live_status raw = true ∧
    pending = dset "integration_id" (PStr id) raw ∧ 1 ≤ remaining s1 id.
Proof.
  intros H Hok. apply pending_candidates in H as (cs & Hrs & Hcs).
  assert (pending ∈ c_record <$> dedupe [] (sort_by candidate_leb cs)) as Hin.
  { eapply subseteq_take. rewrite <- Hrs. left. }
  apply list_elem_of_fmap in Hin as (c & -> & Hc). eapply sublist_subseteq in Hc; [|apply dedupe_subset].
  rewrite sort_by_perm in Hc. apply Hcs, eligible_record in Hc as (id & raw & integrated & Hin & Hl & Hset & Hrec).
  apply dget_in in Hin; [|apply Hok]. destruct (qo_record _ Hok _ _ Hin) as (Hid & Hii & _).
  exists id, raw. rewrite Hii in Hrec. unfold first_nonblank in Hrec. apply String.eqb_neq in Hid. rewrite Hid in Hrec.
  split_and!; [done..|]. unfold remaining. rewrite Hin, Hl. simpl.
  destruct (dget (patch_key id raw) _) as [v|] eqn:E; [|unfold _MAX_INTEGRATE_FAULT_ATTEMPTS; lia].
  destruct (lo_entries _ (qo_ledgers _ Hok) _ _ E) as (e & -> & [_ (rows & _ & _ & Hf & _ & Hret)]).
  destruct (ruled_on e) eqn:Er.
  - exfalso. apply (ruled_settles s1 e raw integrated false) in Hset; [done| |by eapply qo_entry].
    unfold rulings. apply list_elem_of_filter. split; [done|]. unfold dicts. apply list_elem_of_omap.
    exists (PDict e). split; [|done]. apply list_elem_of_fmap. exists (patch_key id raw, PDict e). split; [done|]. by apply dget_elem.
  - unfold ruled_on in Er. apply negb_false_iff, andb_true_iff in Er as [Er _]. destruct (Hret Er) as [_ Hlt].
    unfold faults_of. rewrite Hf. unfold _MAX_INTEGRATE_FAULT_ATTEMPTS in *. lia.
Qed.

(** Writing a queued record keeps the rest of the queue. *)
Lemma set_record_keys (q : pydict F) id v : dget id q ≠ None → (dset id v q).*1 = q.*1.
Proof.
  induction q as [|[k w] q IH]; simpl; [done|]. case_bool_decide; simpl; [by subst|]. intros Hq. f_equal. auto.
Qed.

(** The same record with other fields than its identity rewritten. *)
Record restated raw raw' : Prop := {
  rs_id : get_str "integration_id" raw' = get_str "integration_id" raw;
  rs_kernel : get_str "kernel_id" raw' = get_str "kernel_id" raw;
  rs_group : get_str "task_group_key" raw' = get_str "task_group_key" raw;
  rs_artifact : get_str "artifact_path" raw' = get_str "artifact_path" raw;
  rs_source : record_source_path raw' = record_source_path raw
}.
Lemma restated_key id raw raw' : restated raw raw' → patch_key id raw' = patch_key id raw.
Proof. intros [_ Hk _ Ha _]. unfold patch_key. by rewrite Hk, Ha. Qed.
Lemma restated_same raw raw' e : restated raw raw' → same_patch_as e raw → same_patch_as e raw'.
Proof. intros [_ ? ? ? ?] [? ? ? ?]. split; congruence. Qed.
Lemma restated_dset raw k v :
  k ∉ ["integration_id"; "kernel_id"; "task_group_key"; "artifact_path"; "target_file"; "source_file"] →
  restated raw (dset k v raw).
Proof.
  rewrite !not_elem_of_cons. intros (? & ? & ? & ? & ? & ? & _). split; try (apply get_str_dset_ne; congruence).
  unfold record_source_path. by rewrite !get_str_dset_ne by congruence.
Qed.
Lemma restated_trans a b c : restated a b → restated b c → restated a c.
Proof. intros [] []. split; congruence. Qed.

(** Rewriting a queued record of an accepted queue, with its entry about the same patch. *)
Lemma set_record_ok s id raw raw' :
  queue_ok s → dget id (pending_kernel_integrations s) = Some (PDict raw) → restated raw raw' →
  queue_ok (set_queue (dset id (PDict raw') (pending_kernel_integrations s)) s).
Proof.
  intros [Hk Hr Hd He Hl] Hin Hrs.
  assert (∀ i r, dget i (dset id (PDict raw') (pending_kernel_integrations s)) = Some (PDict r) →
            ∃ r0, dget i (pending_kernel_integrations s) = Some (PDict r0) ∧ restated r0 r) as Hback.
  { intros i r. destruct (decide (i = id)) as [->|Hne]; [rewrite dget_dset_eq; intros [= <-]; eauto|].
    rewrite dget_dset_ne by done. exists r. split; [done|]. by split. }
  split; simpl.
  - by rewrite set_record_keys by congruence.
  - intros i r Hi. destruct (Hback _ _ Hi) as (r0 & H0 & [H1 H2 _ H4 H5]). rewrite H1, H2, H4, H5. by apply Hr.
  - intros i1 r1 i2 r2 H1 H2. destruct (Hback _ _ H1) as (r10 & ? & E1), (Hback _ _ H2) as (r20 & ? & E2).
    rewrite (restated_key _ _ _ E1), (restated_key _ _ _ E2). by apply Hd.
  - intros i r e Hi. destruct (Hback _ _ Hi) as (r0 & ? & E). rewrite (restated_key _ _ _ E). intros ?.
    eapply restated_same; [done|]. by eapply He.
  - by eapply ledgers_ok_ext; [..|exact Hl].
Qed.

Lemma queue_ok_ext s s' :
  pending_kernel_integrations s' = pending_kernel_integrations s →
  kernel_integrate_attempts s' = kernel_integrate_attempts s →
  rejected_kernel_patches s' = rejected_kernel_patches s → queue_ok s → queue_ok s'.
Proof.
  intros E1 E2 E3 [Hk Hr Hd He Hl]. split; rewrite ?E1, ?E2; try done. by eapply ledgers_ok_ext.
Qed.

Lemma get_str_dset_eq k v (d : pydict F) : get_str k (dset k (PStr v) d) = v.
Proof. apply get_str_of, dget_dset_eq. Qed.
Lemma first_nonblank_l a b : a ≠ EmptyString → first_nonblank a b = a.
Proof. unfold first_nonblank. by intros H%String.eqb_neq; rewrite H. Qed.
Lemma get_bool_dset_ne k k' v (d : pydict F) : k ≠ k' → get_bool k (dset k' v d) = get_bool k d.
Proof. intros Hne. unfold get_bool. by rewrite dget_dset_ne. Qed.
Lemma stripped_dset_ne k k' v (d : pydict F) : k ≠ k' → stripped k (dset k' v d) = stripped k d.
Proof. intros Hne. unfold stripped. by rewrite get_str_dset_ne. Qed.

(** The result, once bound to its record, names the record's patch and file. *)
Lemma bind_answer s id raw result0 :
  queue_ok s → dget id (pending_kernel_integrations s) = Some (PDict raw) → answers_for id raw result0 →
  ∃ result, _bind_result_to_pending s result0 = (result, Some (id, raw)) ∧
    get_str "kernel_id" result = get_str "kernel_id" raw ∧
    get_str "task_group_key" result = get_str "task_group_key" raw ∧
    first_nonblank (get_str "patch_path" result) (get_str "best_artifact_path" result) = get_str "artifact_path" raw ∧
    py_strip (first_nonblank (get_str "target_file" result) (get_str "source_file" result)) = record_source_path raw ∧
    stripped "extra_server_args" result = args_of id.
Proof.
  intros Hok Hin [Hid Hk Hg Hp Ht Ha _]. destruct (qo_record _ Hok _ _ Hin) as (Hne & _ & _ & Hart & Hsrc).
  unfold _bind_result_to_pending. rewrite Hid. apply String.eqb_neq in Hne. rewrite Hne, Hin.
  eexists. split; [reflexivity|].
  set (r1 := if (get_bool "patch_path" result0 || _) then result0 else _).
  assert (get_str "kernel_id" r1 = get_str "kernel_id" raw ∧ get_str "task_group_key" r1 = get_str "task_group_key" raw ∧
    first_nonblank (get_str "patch_path" r1) (get_str "best_artifact_path" r1) = get_str "artifact_path" raw ∧
    stripped "extra_server_args" r1 = args_of id ∧
    get_str "target_file" r1 = get_str "target_file" result0 ∧ get_str "source_file" r1 = get_str "source_file" result0 ∧
    get_bool "target_file" r1 = get_bool "target_file" result0 ∧ get_bool "source_file" r1 = get_bool "source_file" result0)
    as (H1 & H2 & H3 & H4 & H5 & H6 & H7 & H8).
  { unfold r1. destruct (_ || _); [by split_and!; auto|].
    rewrite get_str_dset_eq, !get_str_dset_ne, !get_bool_dset_ne, stripped_dset_ne by done. by rewrite first_nonblank_l. }
  rewrite H7, H8. destruct (get_bool "target_file" result0 || get_bool "source_file" result0) eqn:Eb.
  - split_and!; try done. rewrite H5, H6. auto.
  - rewrite get_str_dset_eq, !get_str_dset_ne, stripped_dset_ne by done. split_and!; try done.
    rewrite first_nonblank_l by done. unfold record_source_path. by rewrite py_strip_idemp.
Qed.

Lemma bound_key id raw result :
  get_str "kernel_id" result = get_str "kernel_id" raw →
  first_nonblank (get_str "patch_path" result) (get_str "best_artifact_path" result) = get_str "artifact_path" raw →
  stripped "extra_server_args" result = args_of id →
  get_str "kernel_id" raw ≠ EmptyString → get_str "artifact_path" raw ≠ EmptyString →
  kernel_patch_key result = patch_key id raw.
Proof.
  intros Hk Hp Ha Hk0 Ha0. unfold kernel_patch_key, _resolve_kernel_patch_identity. rewrite Hk, Hp, Ha.
  apply String.eqb_neq in Hk0, Ha0. by rewrite Hk0, Ha0.
Qed.

Lemma updated_same result bound key old rows entry raw :
  updated result bound key old rows entry →
  get_str "kernel_id" result = get_str "kernel_id" raw →
  get_str "task_group_key" result = get_str "task_group_key" raw →
  first_nonblank (get_str "patch_path" result) (get_str "best_artifact_path" result) = get_str "artifact_path" raw →
  py_strip (first_nonblank (get_str "target_file" result) (get_str "source_file" result)) = record_source_path raw →
  record_source_path raw ≠ EmptyString → same_patch_as entry raw.
Proof.
  intros Hu Hk Hg Hp Ht Hsrc.
  pose proof (get_str_of _ _ _ (u_target _ _ _ _ _ _ Hu)) as Et. split.
  - by rewrite (get_str_of _ _ _ (u_group _ _ _ _ _ _ Hu)).
  - by rewrite (get_str_of _ _ _ (u_kernel _ _ _ _ _ _ Hu)).
  - unfold record_source_path at 2. rewrite Et, first_nonblank_l; [done|]. intros E. rewrite E in Ht. by rewrite <- Ht in Hsrc.
  - by rewrite (get_str_of _ _ _ (u_patch _ _ _ _ _ _ Hu)).
Qed.

Lemma remaining_others s s' id raw :
  queue_ok s → dget id (pending_kernel_integrations s) = Some (PDict raw) →
  (∀ i, i ≠ id → dget i (pending_kernel_integrations s') = dget i (pending_kernel_integrations s)) →
  (∀ k, k ≠ patch_key id raw → dget k (kernel_integrate_attempts s') = dget k (kernel_integrate_attempts s)) →
  ∀ i, i ≠ id → remaining s' i = remaining s i.
Proof.
  intros Hok Hin Hq Ha i Hne. unfold remaining. rewrite Hq by done.
  destruct (dget i (pending_kernel_integrations s)) as [v|] eqn:E; [|done]. destruct v as [| | | | | |r]; try done.
  rewrite Ha; [done|]. intros Ek. apply Hne. by eapply qo_distinct.
Qed.

Lemma remaining_dead s id raw :
  dget id (pending_kernel_integrations s) = Some (PDict raw) → live_status raw = false → remaining s id = 0.
Proof. intros Hin Hl. unfold remaining. by rewrite Hin, Hl. Qed.
Lemma dead_status (raw : pydict F) st : dget "status" raw = Some (PStr st) → st ∈ TERMINAL_STATUSES → live_status raw = false.
Proof.
  intros Hs Ht. unfold live_status. rewrite (get_str_of _ _ _ Hs). apply bool_decide_eq_false.
  unfold TERMINAL_STATUSES, VERDICT_STATUSES in Ht. simpl app in Ht.
  do 3 (apply elem_of_cons in Ht as [->|Ht]; [by apply (bool_decide_eq_false _)|]). by apply not_elem_of_nil in Ht.
Qed.

Lemma undispatchable_ok s id raw pending :
  queue_ok s → dget id (pending_kernel_integrations s) = Some (PDict raw) → get_str "integration_id" pending = id →
  let s' := _reject_undispatchable_integrate s pending in
  queue_ok s' ∧ remaining s' id = 0 ∧ ∀ i, i ≠ id → remaining s' i = remaining s i.
Proof.
  intros Hok Hin Hid. unfold _reject_undispatchable_integrate. rewrite Hid. cbv zeta.
  set (ids := if (_ && _) then _ else _). set (s1 := set_rejected _ ids s).
  change (pending_kernel_integrations s1) with (pending_kernel_integrations s). rewrite Hin.
  assert (queue_ok s1) as Hok1 by by eapply queue_ok_ext; [..|exact Hok].
  split_and!.
  - apply (set_record_ok s1 id raw); [done..|]. apply restated_dset. by apply (bool_decide_eq_false _).
  - eapply remaining_dead; [by simpl; rewrite dget_dset_eq|]. eapply dead_status; [by rewrite dget_dset_eq|].
    by apply (bool_decide_eq_true _).
  - apply (remaining_others s _ id raw); [done..| |done]. intros i Hne. simpl. by rewrite dget_dset_ne.
Qed.

Lemma count_faults_snoc (rows : list (pyval F)) row :
  dget "is_fault" row = Some (PBool true) → count_faults (dicts (rows ++ [PDict row])) = (1 + count_faults (dicts rows))%Z.
Proof.
  intros H. unfold dicts, count_faults. rewrite omap_app. simpl. rewrite filter_app, filter_cons.
  rewrite decide_True by (unfold get_bool; by rewrite H). rewrite length_app. simpl. lia.
Qed.

(** The faults on record for a key, and the attempts they are counted from. *)
Definition faults_at s (key : string) : Z :=
  match dget key (kernel_integrate_attempts s) with Some (PDict e) => faults_of e | _ => 0 end.
Lemma old_rows s key old rows0 :
  ledgers_ok s → attempts_entry s key = Ok old → py_iter (dget_or_none "attempts" old) = Ok rows0 →
  count_faults (dicts rows0) = faults_at s key.
Proof.
  intros Hok. unfold attempts_entry, get_dict, faults_at, dget_or_none at 1.
  destruct (dget key (kernel_integrate_attempts s)) as [v|] eqn:E; simpl; [|by intros [= <-] [= <-]].
  destruct (lo_entries _ Hok _ _ E) as (e & -> & [_ (rows & Ha & _ & Hf & _)]). intros [= <-].
  unfold dget_or_none, faults_of. rewrite Ha, Hf. simpl. unfold py_iter. destruct rows; simpl; by intros [= <-].
Qed.

Lemma restated_refl raw : restated raw raw.
Proof. by split. Qed.

(** A record whose status was settled, with fields other than its identity written after it. *)
Inductive settled_from raw : pydict F → Prop :=
| sf_status st : st ∈ TERMINAL_STATUSES → settled_from raw (dset "status" (PStr st) raw)
| sf_field raw' k v :
    settled_from raw raw' →
    k ∉ ["status"; "integration_id"; "kernel_id"; "task_group_key"; "artifact_path"; "target_file"; "source_file"] →
    settled_from raw (dset k v raw').
Lemma settled_from_spec raw raw' : settled_from raw raw' → restated raw raw' ∧ live_status raw' = false.
Proof.
  intros H. assert (∃ st, st ∈ TERMINAL_STATUSES ∧ restated raw raw' ∧ dget "status" raw' = Some (PStr st)) as (st & H1 & H2 & H3).
  { induction H as [st Hst|raw' k v _ (st & IH1 & IH2 & IH3) Hk].
    - exists st. split_and!; [done| |apply dget_dset_eq]. apply restated_dset. by apply (bool_decide_eq_false _).
    - exists st. apply not_elem_of_cons in Hk as [Hs Hk]. split_and!; [done| |by rewrite dget_dset_ne by congruence].
      eapply restated_trans; [done|]. by apply restated_dset. }
  split; [done|]. by eapply dead_status.
Qed.
Ltac settled := repeat (apply sf_field; [|by apply (bool_decide_eq_false _)]); apply sf_status; by apply (bool_decide_eq_true _).

(** What recording an answer does to the record and its entry. *)
Lemma record_effect s id raw result0 now out s' :
  queue_ok s → dget id (pending_kernel_integrations s) = Some (PDict raw) → answers_for id raw result0 →
  record_kernel_integrate_result s (PDict result0) now = Ok (out, s') →
  ∃ e raw', pending_kernel_integrations s' = dset id (PDict raw') (pending_kernel_integrations s) ∧ restated raw raw' ∧
    dget (patch_key id raw) (kernel_integrate_attempts s') = Some (PDict e) ∧
    (∀ k, k ≠ patch_key id raw → dget k (kernel_integrate_attempts s') = dget k (kernel_integrate_attempts s)) ∧
    same_patch_as e raw ∧
    (live_status raw' = false ∨ ruled_on e = true ∨ faults_of e = (1 + faults_at s (patch_key id raw))%Z).
Proof.
  intros Hok Hin Hans H. destruct (qo_record _ Hok _ _ Hin) as (_ & _ & Hk0 & Ha0 & Hs0).
  destruct (bind_answer _ _ _ _ Hok Hin Hans) as (result & Hb & Hk & Hg & Hp & Ht & Hx).
  pose proof (bound_key id raw result Hk Hp Hx Hk0 Ha0) as Hkey.
  apply record_inv in H as [(_ & _ & Hn)|(r0 & res & bound & key & old & rows & entry & [= <-] & Hb' & Ekey & Ho & Hu & Hrows & H)].
  { exfalso. specialize (Hn _ eq_refl). rewrite Hb in Hn. simpl in Hn. rewrite Hkey in Hn. unfold patch_key in Hn.
    destruct (get_str "kernel_id" raw); done. }
  rewrite Hb in Hb'. injection Hb' as <- <-. rewrite Hkey in Ekey. subst key.
  pose proof (updated_same _ _ _ _ _ _ raw Hu Hk Hg Hp Ht Hs0) as Hsame.
  assert (∀ e v, same_patch_as e raw → same_patch_as (dset "retryable" v e) raw ∧ same_patch_as (dset "rejected" v e) raw) as Hext.
  { intros e v [? ? ? ?]. split; split; rewrite ?source_path_dset by (by apply (bool_decide_eq_false _));
      by rewrite ?get_str_dset_ne. }
  cbv zeta in H. destruct (is_str "KEEP" _).
  - destruct H as [_ ->]. unfold _record_integration_keep, update_pending.
    match goal with |- context [dset id (PDict ?r) _] => set (raw' := r) end.
    assert (settled_from raw raw') as Hset by (unfold raw', dmerge; simpl; repeat case_match; settled).
    apply settled_from_spec in Hset as [? ?]. exists entry, raw'.
    split_and!; [done..|by simpl; rewrite dget_dset_eq|by intros k Hne; simpl; rewrite dget_dset_ne|done|by left].
  - destruct (rejection_reason _ _ _ _) as [reason|] eqn:Er.
    + destruct H as [-> _]. unfold _reject_integration, update_pending. rewrite (get_str_of _ _ _ (u_key _ _ _ _ _ _ Hu)).
      cbn [snd]. set (raw' := dmerge raw _).
      assert (settled_from raw raw') as Hset by (unfold raw', dmerge; simpl; settled).
      apply settled_from_spec in Hset as [? ?]. eexists _, raw'. simpl.
      split_and!; [done..|by rewrite dget_dset_eq|by intros k Hne; rewrite !dget_dset_ne|by apply Hext|by left].
    + destruct H as [_ ->]. set (e := if _is_integrate_fault result then _ else entry). exists e, raw. simpl.
      split_and!; [by rewrite dset_same|apply restated_refl|by rewrite dget_dset_eq|by intros k Hne; rewrite dget_dset_ne| |].
      * unfold e. destruct (_is_integrate_fault result); [by apply Hext|done].
      * right. unfold e. destruct (_is_integrate_fault result) eqn:Ef.
        -- right. unfold faults_of. rewrite dget_dset_ne, (u_faults _ _ _ _ _ _ Hu) by done.
           destruct Hrows as (rows0 & row & Hi & -> & Hrow). rewrite count_faults_snoc by by rewrite Hrow.
           by rewrite (old_rows _ _ _ _ (qo_ledgers _ Hok) Ho Hi).
        -- left. unfold ruled_on, get_bool at 1. by rewrite (u_retryable _ _ _ _ _ _ Hu).
Qed.

Lemma recorded_ok s id raw result0 now out s' :
  queue_ok s → dget id (pending_kernel_integrations s) = Some (PDict raw) → live_status raw = true →
  1 ≤ remaining s id → answers_for id raw result0 →
  record_kernel_integrate_result s (PDict result0) now = Ok (out, s') →
  queue_ok s' ∧ (∃ raw', dget id (pending_kernel_integrations s') = Some (PDict raw')) ∧
  remaining s' id < remaining s id ∧ ∀ i, i ≠ id → remaining s' i ≤ remaining s i.
Proof.
  intros Hok Hin Hl Hrem Hans H. pose proof (record_ledgers_ok _ _ _ _ _ H (qo_ledgers _ Hok)) as Hled.
  destruct (record_effect _ _ _ _ _ _ _ Hok Hin Hans H) as (e & raw' & Hq & Hrs & He & Hother & Hsame & Hcase).
  assert (∀ i r, dget i (pending_kernel_integrations s') = Some (PDict r) → i ≠ id → dget i (pending_kernel_integrations s) = Some (PDict r)) as Hback.
  { intros i r Hi Hne. rewrite Hq, dget_dset_ne in Hi; done. }
  assert (queue_ok (set_queue (pending_kernel_integrations s') s)) as Hmid by (rewrite Hq; by eapply set_record_ok).
  split_and!.
  - destruct Hmid as [M1 M2 M3 _ _]. split; try done. intros i r e' Hi He'. destruct (decide (i = id)) as [->|Hne].
    + rewrite Hq, dget_dset_eq in Hi. injection Hi as <-. rewrite (restated_key _ _ _ Hrs), He in He'. injection He' as <-.
      by eapply restated_same.
    + apply (qo_entry _ Hok i r); [auto|]. rewrite <- Hother; [done|]. intros Ek. apply Hne. eapply (qo_distinct _ Hok); eauto.
  - exists raw'. by rewrite Hq, dget_dset_eq.
  - unfold remaining at 1. rewrite Hq, dget_dset_eq, (restated_key _ _ _ Hrs), He.
    destruct (live_status raw') eqn:El; [|simpl; lia]. simpl. destruct (ruled_on e) eqn:Er; [lia|].
    destruct Hcase as [?|[?|Hf]]; [congruence..|]. rewrite Hf. unfold remaining in Hrem |- *. rewrite Hin, Hl in Hrem |- *.
    simpl in Hrem |- *. unfold faults_at. destruct (dget (patch_key id raw) (kernel_integrate_attempts s)) as [v|] eqn:E;
      [|unfold _MAX_INTEGRATE_FAULT_ATTEMPTS; lia].
    destruct (lo_entries _ (qo_ledgers _ Hok) _ _ E) as (e0 & -> & _). destruct (ruled_on e0); lia.
  - intros i Hne. rewrite (remaining_others s s' id raw); [done..| |done|done].
    intros j Hj. by rewrite Hq, dget_dset_ne.
Qed.

Lemma drain_one_ok n s id raw :
  queue_ok s → dget id (pending_kernel_integrations s) = Some (PDict raw) → live_status raw = true → 1 ≤ remaining s id →
  let s' := drain_one handler promote clock n s (dset "integration_id" (PStr id) raw) in
  queue_ok s' ∧ remaining s' id < remaining s id ∧ ∀ i, i ≠ id → remaining s' i ≤ remaining s i.
Proof.
  intros Hok Hin Hl Hrem. destruct (qo_record _ Hok _ _ Hin) as (_ & Hid & _). unfold drain_one.
  pose proof (get_str_dset_eq "integration_id" id raw) as Hpid. set (pending := dset "integration_id" (PStr id) raw) in *.
  destruct (handler n s (integrate_request pending)) as [v|e] eqn:Eh.
  - destruct (Hanswers _ _ _ _ _ Hin Hid Eh) as (result & -> & Hans). rewrite (af_status _ _ _ Hans).
    destruct (record_kernel_integrate_result s (PDict result) (clock n)) as [[out s']|e] eqn:Er.
    + destruct (recorded_ok _ _ _ _ _ _ _ Hok Hin Hl Hrem Hans Er) as (H1 & [raw' H2] & H3 & H4).
      destruct (String.eqb _ _); [|done]. destruct (promote s' result) as [s2 raised] eqn:Ep.
      pose proof (Hpromote s' result) as (E1 & E2 & E3). rewrite Ep in E1, E2, E3. simpl in E1, E2, E3.
      assert (queue_ok s2) as Hok2 by by eapply queue_ok_ext.
      assert (∀ i, remaining s2 i = remaining s' i) as Erem by (intros i; unfold remaining; by rewrite E1, E2).
      destruct raised; [|rewrite !Erem; split_and!; [done..|]; intros i Hi; rewrite Erem; auto].
      rewrite <- E1 in H2. destruct (undispatchable_ok s2 id raw' pending Hok2 H2 Hpid) as (H5 & H6 & H7).
      rewrite H6. split_and!; [done|lia|]. intros i Hi. rewrite H7, Erem by done. auto.
    + destruct (undispatchable_ok s id raw pending Hok Hin Hpid) as (H5 & H6 & H7).
      rewrite H6. split_and!; [done|lia|]. intros i Hi. by rewrite H7.
  - destruct (undispatchable_ok s id raw pending Hok Hin Hpid) as (H5 & H6 & H7).
    rewrite H6. split_and!; [done|lia|]. intros i Hi. by rewrite H7.
Qed.

(** Along the loop the dispatches of a patch are paid for by what it had left. *)
Lemma drain_loop_count fuel n s ids s' id :
  queue_ok s → drain_loop budget_env handler promote clock fuel n s = Ok (ids, s') →
  length (filter (λ i, i = id) ids) + remaining s' id ≤ remaining s id ∧
  (length ids < fuel → ∃ s1, pending_kernel_integration_records budget_env s1 = Ok ([], s')).
Proof.
  revert n s ids. induction fuel as [|fuel IH]; intros n s ids Hok; simpl; [intros [= <- <-]; simpl; split; lia|].
  intros H. apply res_bind_ok in H as ([rs s1] & Hr & H). cbn [fst snd] in H.
  destruct (read_ok _ _ _ Hr Hok) as [Hok1 Hle]. destruct rs as [|pending rs].
  { injection H as <- <-. simpl. split; [apply Hle|]. eauto. }
  destruct (dispatched_remaining _ _ _ _ Hr Hok1) as (id0 & raw & Hin & Hl & -> & Hrem).
  destruct (drain_one_ok n s1 id0 raw Hok1 Hin Hl Hrem) as (Hok2 & Hlt & Hothers).
  apply res_bind_ok in H as ([ids' s2] & Hd & H). injection H as <- <-. rewrite get_str_dset_eq. cbn [fst snd] in *.
  destruct (IH _ _ _ Hok2 Hd) as [Hc Hend]. split; [|intros ?; apply Hend; simpl in *; lia].
  rewrite filter_cons. specialize (Hle id). destruct (decide (id0 = id)) as [->|Hne].
  - simpl. lia.
  - specialize (Hothers id). assert (id ≠ id0) as Hne' by congruence. specialize (Hothers Hne'). lia.
Qed.
End drain.


(** ** Witnesses *)

Definition demo_digest (a b c : string) : string := a +:+ "#" +:+ b +:+ "#" +:+ c.
Definition nominate (name path file : string) (speedup : Z) : NominatedPatch binary64 :=
  MkNominated name path file EmptyString EmptyString EmptyString (f_of_Z speedup) "HL_FUSED".
Definition empty_kernel : kernel_state binary64 := MkKernelState [] [] [] [] [] [] [] [] [] 0.
Definition enqueue_all (s : kernel_state binary64) (ps : list (NominatedPatch binary64)) : kernel_state binary64 :=
  foldl (λ s p, (enqueue_nominated_patch demo_digest s p (f_of_Z 1) "t0").2) s ps.
(** Three siblings, the first two over one file. *)
Definition siblings : kernel_state binary64 :=
  enqueue_all empty_kernel [nominate "rms" "/p/rms1" "/src/rms.py" 2; nominate "rms_b" "/p/rms2" "/src/rms.py" 5;
                            nominate "moe" "/p/moe" "/src/moe.py" 3].

Lemma pending_records_spec_witness :
  ∃ rs s', pending_kernel_integration_records PNone siblings = Ok (rs, s') ∧
    (get_str "kernel_id" <$> rs) = ["rms_b"; "moe"] ∧
    ∃ chosen, rs = c_record <$> chosen ∧ NoDup (sources chosen).
Proof.
  eexists _, _. split; [vm_compute; reflexivity|]. split; [vm_compute; reflexivity|].
  destruct (pending_records_spec PNone siblings siblings
    match pending_kernel_integration_records PNone siblings with Ok (rs, _) => rs | Raise _ => [] end)
    as (chosen & H1 & _ & _ & H2 & _); [vm_compute; reflexivity|]. exists chosen. split; [|done]. rewrite <- H1. vm_compute. reflexivity.
Defined.

Definition row (id status : string) (speedup : Z) : string * pyval binary64 :=
  (id, PDict [("status", PStr status); ("micro_speedup", PFloat (f_of_Z speedup))]).
Lemma evict_terminal_spec_witness :
  ∃ q, evict_terminal [row "a" "rejected" 5; row "b" "pending" 1; row "c" "integrated" 2; row "d" "rejected" 7] 1 2 = Ok q ∧
    q.*1 = ["b"; "a"; "d"] ∧ length (terminal_part q) = keep_of 1 2.
Proof.
  eexists. split; [vm_compute; reflexivity|]. split; [reflexivity|].
  destruct (evict_terminal_spec [row "a" "rejected" 5; row "b" "pending" 1; row "c" "integrated" 2; row "d" "rejected" 7]
    [row "b" "pending" 1; row "a" "rejected" 5; row "d" "rejected" 7] 1 2) as (_ & _ & H & _); [vm_compute; reflexivity|].
  exact H.
Defined.

(** The first result is a fault, the later ones are kept. *)
Definition result_for (n : nat) (req : pydict binary64) : pydict binary64 :=
  [("kernel_id", PStr (get_str "kernel_id" req)); ("integration_id", PStr (get_str "integration_id" req));
   ("task_group_key", PStr (get_str "task_group_key" req)); ("status", PStr (if n is 0 then "failed" else "ok"));
   ("decision", PStr (if n is 0 then "NEEDS_REVIEW" else "KEEP")); ("gain_pct", PFloat (f_of_Z 2))].
Definition faulty_first (n : nat) (_ : kernel_state binary64) (req : pydict binary64) : res (pyval binary64) :=
  Ok (PDict (result_for n req)).
Definition keep_quiet (s : kernel_state binary64) (_ : pydict binary64) : kernel_state binary64 * bool := (s, false).
Definition pair_queue : kernel_state binary64 :=
  enqueue_all empty_kernel [nominate "rms" "/p/rms1" "/src/rms.py" 2; nominate "moe" "/p/moe" "/src/moe.py" 3].

Lemma pair_queue_ok : queue_ok (λ _, EmptyString) pair_queue.
Proof.
  assert (∀ id raw, dget id (pending_kernel_integrations pair_queue) = Some (PDict raw) →
    id = "kernel-integration:forge_fusion:rms#/src/rms.py#/p/rms1" ∧ get_str "kernel_id" raw = "rms" ∧
      get_str "integration_id" raw = id ∧ get_str "artifact_path" raw = "/p/rms1" ∧ record_source_path raw = "/src/rms.py" ∨
    id = "kernel-integration:forge_fusion:moe#/src/moe.py#/p/moe" ∧ get_str "kernel_id" raw = "moe" ∧
      get_str "integration_id" raw = id ∧ get_str "artifact_path" raw = "/p/moe" ∧ record_source_path raw = "/src/moe.py") as Hcases.
  { intros id raw Hd. apply dget_elem in Hd. vm_compute in Hd.
    apply elem_of_cons in Hd as [[= -> ->]|Hd]; [left; by split_and!|].
    apply list_elem_of_singleton in Hd as [= -> ->]. right. by split_and!. }
  split.
  - vm_compute. apply (bool_decide_unpack _). vm_compute. reflexivity.
  - intros id raw Hd. destruct (Hcases _ _ Hd) as [(-> & -> & -> & -> & ->)|(-> & -> & -> & -> & ->)]; by split_and!.
  - intros i1 r1 i2 r2 H1 H2. unfold patch_key.
    destruct (Hcases _ _ H1) as [(-> & -> & _ & -> & _)|(-> & -> & _ & -> & _)],
      (Hcases _ _ H2) as [(-> & -> & _ & -> & _)|(-> & -> & _ & -> & _)]; done.
  - intros id raw e _ He. done.
  - split; [done| |constructor|done]. by intros v []%not_elem_of_nil.
Qed.

(** The strongest patch faults once, is retried and kept, then the other is kept. *)
Definition drained : list string * kernel_state binary64 :=
  match drain_pending_keep_integrates PNone faulty_first keep_quiet (λ _, "t1") pair_queue with
  | Ok r => r
  | Raise _ => ([], pair_queue)
  end.

(** The first sibling is measured and reverted. *)
Definition reverted_result : pyval binary64 :=
  PDict [("kernel_id", PStr "rms"); ("integration_id", PStr "kernel-integration:forge_fusion:rms#/src/rms.py#/p/rms1");
         ("task_group_key", PStr "forge_fusion:rms"); ("status", PStr "ok"); ("decision", PStr "REVERT");
         ("gain_pct", PFloat (f_of_Z 0))].
Definition reverted : kernel_state binary64 :=
  match record_kernel_integrate_result pair_queue reverted_result "t1" with Ok (_, s) => s | Raise _ => pair_queue end.
Definition reverted_entry : pydict binary64 :=
  match rulings reverted with e :: _ => e | [] => [] end.

Lemma ledgers_agree_witness :
  ledgers_ok reverted ∧ length (rejected_kernel_patches reverted) = 1.
Proof.
  split; [|vm_compute; reflexivity]. apply (ledgers_agree demo_digest PNone pair_queue); [vm_compute; reflexivity..|].
  apply rtc_once. apply step_result with (v := reverted_result) (now := "t1")
    (out := match record_kernel_integrate_result pair_queue reverted_result "t1" with Ok (o, _) => o | Raise _ => None end).
  vm_compute. reflexivity.
Defined.

(** The reverted patch is nominated again: the queue still dispatches the other one only. *)
Definition renominated : kernel_state binary64 :=
  (enqueue_nominated_patch demo_digest reverted (nominate "rms" "/p/rms1" "/src/rms.py" 9) (f_of_Z 1) "t2").2.
Definition offered : list (pydict binary64) :=
  match pending_kernel_integration_records PNone renominated with Ok (rs, _) => rs | Raise _ => [] end.
Lemma ruling_stands_witness :
  get_str "kernel_id" <$> offered = ["moe"] ∧ ∀ r, r ∈ offered → ¬ same_patch_as reverted_entry r.
Proof.
  split; [vm_compute; reflexivity|]. intros r Hr.
  apply (ruling_stands demo_digest PNone reverted renominated
    match pending_kernel_integration_records PNone renominated with Ok (_, s) => s | Raise _ => renominated end
    reverted_entry offered r).
  - change (rulings reverted) with [reverted_entry]. apply list_elem_of_here.
  - apply rtc_once. split; [apply step_nominate|vm_compute; reflexivity].
  - vm_compute. reflexivity.
  - exact Hr.
Defined.
