(* ===== verification/PhaseFacts.v ===== *)
(** * Freezing the facts of a phase decision ([phases/machine_state.py], [controller_settlement.py])

    What [compute_next_phase] reads of the session before it decides: which rows belong to the current
    macro-cycle, whether each lever still pays, whether KERNEL has work left, what measured rounds cost, and
    the frozen inputs themselves, section by section.  The session is that of [PhaseState] with the kernel
    queue of [KernelQueue] and the measurement fields beside it; its cycle number is the session's.  The
    environment is a function from names to values.  The instants at which the wall clock is read are
    arguments: [now_unix] for the frozen one, and one more for each read behind it. *)

From stdpp Require Import base list strings pretty sets sorting.
From Stdlib Require Import ZArith Lia.
From Stdlib Require String.
From S2P Require Import Prelude PyFloat PyVal PhaseChain PhaseMachine.
From S2P Require Import PhaseClock PhaseState Protocol OperatorName KernelQueue.

(** ** Constants *)

Definition DEFAULT_PLATEAU_EXPLORE_KEEP_GAIN_PCT {F} `{!FloatOps F} : F := f_lit 5 10.
Definition DEFAULT_PLATEAU_EXPLORE_EMPTY_STREAK : Z := 5.
Definition DEFAULT_PLATEAU_EXPLORE_LOOKBACK : Z := 5.
Definition DEFAULT_FRAMEWORK_PLATEAU_NO_KEEP_STREAK : Z := 5.

Definition LEVER_CONFIG : string := "config".
Definition LEVER_SOURCE_PATCH : string := "source_patch".
Definition LEVER_UPSTREAM_PR : string := "upstream_pr".

Definition GEAK_TERMINAL_STATUSES : list string :=
  ["ok"; "no_gain"; GEAK_STATUS_ERROR; "timeout"; "failed"; "skipped"; "baseline_reproduction_failed"].

Record PhaseFlags := MkFlags {
  kernel_enabled : bool;
  optimize_enabled : bool;
  enablement_enabled : bool
}.
Record WorkInFlight := MkInFlight {
  wif_enablement : bool;
  wif_kernel : bool;
  wif_prelude : bool
}.

(** ** State *)

(** The measurement fields of [SharedState] the predicates read. *)
Record measured (F : Type) := MkMeasured {
  closing_phase : bool;
  target_reached_at : string;
  warm_replay_outcome : pydict F;
  baseline_failure_streak : Z;
  baseline_measure_round_dropped : bool;
  baseline_tput : F;
  auto_roofline_pending_task_id : string;
  baseline_runtime_sec : F;
  baseline_post_ready_runtime_sec : F;
  baseline_warm_runtime_sec : F;
  baseline_eval_runtime_sec : F;
  attempts : list (pyval F);
  specialist_rounds : list (pyval F);
  plateau_overrides : pydict F;
  kernel_optimizer : string;
  geak_result : pydict F;
  kernel_idle_ticks : Z;
  kernel_idle_since_unix : F;
  saturated_directions : pydict F;
  validation_pending : bool;                (* enablement.validation_pending *)
  framework_agent_phase_enabled : bool
}.
Arguments MkMeasured {F} _ _ _ _ _ _ _ _ _ _ _ _ _ _ _ _ _ _ _ _ _.
Arguments closing_phase {F} _.
Arguments target_reached_at {F} _.
Arguments warm_replay_outcome {F} _.
Arguments baseline_failure_streak {F} _.
Arguments baseline_measure_round_dropped {F} _.
Arguments baseline_tput {F} _.
Arguments auto_roofline_pending_task_id {F} _.
Arguments baseline_runtime_sec {F} _.
Arguments baseline_post_ready_runtime_sec {F} _.
Arguments baseline_warm_runtime_sec {F} _.
Arguments baseline_eval_runtime_sec {F} _.
Arguments attempts {F} _.
Arguments specialist_rounds {F} _.
Arguments plateau_overrides {F} _.
Arguments kernel_optimizer {F} _.
Arguments geak_result {F} _.
Arguments kernel_idle_ticks {F} _.
Arguments kernel_idle_since_unix {F} _.
Arguments saturated_directions {F} _.
Arguments validation_pending {F} _.
Arguments framework_agent_phase_enabled {F} _.

Record world (F : Type) := MkWorld {
  w_session : session F;
  w_kernel : kernel_state F;
  w_measured : measured F
}.
Arguments MkWorld {F} _ _ _.
Arguments w_session {F} _.
Arguments w_kernel {F} _.
Arguments w_measured {F} _.
Coercion w_measured : world >-> measured.

Definition w_clock {F} (w : world F) : clock F := s_clock (w_session w).
Definition w_cycle {F} (w : world F) : Z := macro_cycle (w_session w).
Definition with_kernel {F} (k : kernel_state F) (w : world F) : world F := MkWorld (w_session w) k (w_measured w).

(** ** The environment ([hyperloom_common/env.py]) *)

Section env.
Context {F : Type} `{!FloatOps F}.
Context (env : string → option string).

Definition env_raw (name : string) : string := py_strip (default EmptyString (env name)).
Definition env_int (name : string) (dflt : Z) : res Z :=
  let raw := env_raw name in
  if String.eqb raw EmptyString then Ok dflt
  else match py_int_of_str raw with
       | Some z => Ok z
       | None => Raise (ValueError (name +:+ "=" +:+ repr_str raw +:+ " is not an integer"))
       end.
Definition env_float (name : string) (dflt : F) : res F :=
  let raw := env_raw name in
  if String.eqb raw EmptyString then Ok dflt
  else match py_float_of_str raw with
       | Some x => Ok x
       | None => Raise (ValueError (name +:+ "=" +:+ repr_str raw +:+ " is not a number"))
       end.

Definition _kernel_idle_max_ticks : res Z :=
  val ← env_int "INFERENCE_OPTIMIZER_KERNEL_IDLE_MAX_TICKS" 3;
  Ok (if (1 <=? val)%Z then val else 3%Z).
Definition _kernel_idle_min_seconds : res F :=
  val ← env_float "INFERENCE_OPTIMIZER_KERNEL_IDLE_MIN_SECONDS" (f_of_Z 600);
  Ok (if fpos val then val else f_of_Z 600).
Definition _default_cycle_reloop_min_remaining_sec : res F :=
  val ← env_float "INFERENCE_OPTIMIZER_CYCLE_RELOOP_MIN_REMAINING_SEC" (f_of_Z 10800);
  Ok (if fpos val then val else f_of_Z 10800).
End env.

(** ** Rows of the cycle *)

Section readers.
Context {F : Type} `{!FloatOps F}.
Context (parse_iso : string → option F) (env : string → option string).
Implicit Types (w : world F) (row overrides : pydict F) (v : pyval F).
Local Open Scope float_scope.

(** [int(row.get("cycle", 0) or 0)], zero on a [TypeError] or a [ValueError]. *)
Definition _row_cycle row : res Z :=
  match get_int "cycle" row with
  | Raise (TypeError _) | Raise (ValueError _) => Ok 0%Z
  | r => r
  end.

(** The rows for which a fallible predicate holds. *)
Fixpoint filter_res (p : pydict F → res bool) (rows : list (pydict F)) : res (list (pydict F)) :=
  match rows with
  | [] => Ok []
  | row :: rows => b ← p row; rest ← filter_res p rows; Ok (if (b : bool) then row :: rest else rest)
  end.

Definition _rows_for_current_cycle (rows : list (pyval F)) w : res (list (pydict F)) :=
  let dict_rows := dicts rows in
  if existsb (din "cycle") dict_rows
  then filter_res (λ row, c ← _row_cycle row; Ok (c =? w_cycle w)%Z) dict_rows
  else Ok dict_rows.

(** [to_unix] of a value. *)
Definition to_unix_value v : res (option F) :=
  match v with
  | PInt z => x ← float_of_int z; Ok (Some x)
  | PFloat x => Ok (Some x)
  | PStr s => Ok (to_unix parse_iso s)
  | _ => Ok None
  end.

Definition _rounds_since_phase_entry w : res (list (pydict F)) :=
  rows ← _rows_for_current_cycle (specialist_rounds w) w;
  let entered := _phase_started_unix (w_clock w) in
  if entered <=? fzero then Ok rows
  else filter_res (λ row, t ← to_unix_value (dget_or_none "completed_at" row); Ok (entered <=? or_zero t)) rows.

(** ** Prelude and measured costs *)

Definition warm_status w : string := py_strip (get_str "status" (warm_replay_outcome w)).
Definition warm_replay_in_flight w : bool := String.eqb (warm_status w) "in_flight".

(** [measured_seconds(state, field)] of a field's value. *)
Definition measured_seconds (x : F) : option F :=
  let value := or_zero (Some x) in if fzero <? value then Some value else None.

Definition boot_cost_sec w : option F :=
  match measured_seconds (baseline_runtime_sec w), measured_seconds (baseline_post_ready_runtime_sec w) with
  | Some total, Some post_ready => Some (fmax fzero (total - post_ready))
  | _, _ => None
  end.

Definition baseline_round_cost_sec w (double_run : bool) : res (option F) :=
  match measured_seconds (baseline_runtime_sec w), double_run with
  | Some first_pass, true =>
      let field x := opt_float (measured_seconds x) in
      second ← hot_pass_cost_sec (field (baseline_warm_runtime_sec w)) (field (baseline_post_ready_runtime_sec w))
                 (field (baseline_eval_runtime_sec w));
      Ok (Some (match second with None => first_pass | Some s => first_pass + s end))
  | first_pass, _ => Ok first_pass
  end.

(** A boot plus one benchmark pass. *)
Definition one_more_measurement_sec w : option F :=
  let benchmark := match measured_seconds (baseline_warm_runtime_sec w) with
                   | Some warm => Some warm
                   | None => measured_seconds (baseline_post_ready_runtime_sec w)
                   end in
  match boot_cost_sec w, benchmark with
  | Some boot, Some b => Some (boot + b)
  | _, _ => None
  end.

Definition round_headroom_sec (state : option (world F)) now : option F * pydict F :=
  match state with
  | None => (None, [("reason", PStr "no_session_state")])
  | Some w =>
      match session_budget_usable_sec parse_iso (w_clock w) None now with
      | None => (None, [("reason", PStr "unbounded_session_budget")])
      | Some usable => (Some usable, [("bound", PStr "session_usable"); ("affordable_sec", rounded 1 usable)])
      end
  end.

(** ** Levers *)

Definition _resolve_plateau_overrides w : pydict F := plateau_overrides w.

Definition _lever_attempts w (levers : list string) : res (list (pydict F)) :=
  rows ← _rows_for_current_cycle (attempts w) w;
  Ok (filter (λ r, get_str "lever_kind" r ∈ levers) rows).

(** Trailing items that did not adopt, over any kind of item. *)
Fixpoint leading_no_keep {A} (adopted : A → bool) (l : list A) : nat :=
  match l with
  | [] => 0
  | x :: l => if adopted x then 0 else S (leading_no_keep adopted l)
  end.
Definition _trailing_no_keep {A} (adopted : A → bool) (l : list A) : nat := leading_no_keep adopted (reverse l).

(** One benched round. *)
Record config_round := MkRound { cr_id : string; cr_adopted : bool; cr_gain : F }.
Definition bank_variant row (r : config_round) : res config_round :=
  if get_bool "adopted" row then
    let raw := dget_or_none "gain_pct" row in
    gain ← (if truthy raw then py_float raw else Ok fzero);
    Ok (MkRound (cr_id r) true (cr_gain r + gain))
  else Ok r.

(** One variant: the rounds so far, and the position of each round by its id. *)
Definition fold_variant (acc : list config_round * list (string * nat)) row : res (list config_round * list (string * nat)) :=
  let '(rounds, index) := acc in
  let round_id := get_str "round_id" row in
  let pos := if String.eqb round_id EmptyString then None else dget round_id index in
  let '(pos, rounds, index) :=
    match pos with
    | Some pos => (pos, rounds, index)
    | None =>
        (length rounds, rounds ++ [MkRound round_id false fzero],
         if String.eqb round_id EmptyString then index else dset round_id (length rounds) index)
    end in
  match rounds !! pos with
  | Some r => r' ← bank_variant row r; Ok (<[pos := r']> rounds, index)
  | None => Ok (rounds, index)
  end.
Fixpoint fold_variants (acc : list config_round * list (string * nat)) (rows : list (pydict F))
    : res (list config_round * list (string * nat)) :=
  match rows with
  | [] => Ok acc
  | row :: rows => acc' ← fold_variant acc row; fold_variants acc' rows
  end.
Definition _fold_config_rounds (rows : list (pydict F)) : res (list config_round) :=
  acc ← fold_variants ([], []) rows; Ok acc.1.

(** [l[-n:]] *)
Definition slice_from_end {A} (n : Z) (l : list A) : list A :=
  if (0 <? n)%Z then last_n (Z.to_nat n) l else drop (Z.to_nat (- n)) l.

(** [int(overrides.get(k, dflt))] and [float(overrides.get(k, dflt))] *)
Definition override_int (k : string) (dflt : Z) overrides : res Z := py_int (default (PInt dflt) (dget k overrides)).
Definition override_float (k : string) (dflt : F) overrides : res F := py_float (default (PFloat dflt) (dget k overrides)).

Definition _config_lever_evidence w overrides : res (pydict F) :=
  lookback ← override_int "explore_lookback" DEFAULT_PLATEAU_EXPLORE_LOOKBACK overrides;
  gain_floor ← override_float "explore_keep_gain_pct" DEFAULT_PLATEAU_EXPLORE_KEEP_GAIN_PCT overrides;
  streak_floor ← override_int "explore_empty_streak" DEFAULT_PLATEAU_EXPLORE_EMPTY_STREAK overrides;
  rows ← _lever_attempts w [LEVER_CONFIG];
  rounds ← _fold_config_rounds rows;
  let recent_gain := fsum (or_zero ∘ Some ∘ cr_gain <$> filter (λ r, cr_adopted r = true) (slice_from_end lookback rounds)) in
  let streak := _trailing_no_keep cr_adopted rounds in
  Ok [("recent_keep_gain_pct", rounded 4 recent_gain); ("keep_gain_threshold_pct", PFloat gain_floor);
      ("empty_streak", PInt (Z.of_nat streak)); ("empty_streak_threshold", PInt streak_floor);
      ("lookback", PInt lookback)].

Definition _patch_lever_evidence w overrides : res (pydict F) :=
  streak_floor ← override_int "framework_no_keep_streak" DEFAULT_FRAMEWORK_PLATEAU_NO_KEEP_STREAK overrides;
  rows ← _lever_attempts w [LEVER_SOURCE_PATCH; LEVER_UPSTREAM_PR];
  let streak := _trailing_no_keep (get_bool "adopted") rows in
  Ok [("source_consecutive_no_keep", PInt (Z.of_nat streak)); ("source_threshold", PInt streak_floor);
      ("source_candidates_exhausted", PBool (framework_agent_phase_done F (s_per_cycle (w_session w))))].

Definition per_lever_dryness w : res (bool * pydict F) :=
  let overrides := _resolve_plateau_overrides w in
  config ← _config_lever_evidence w overrides;
  patch ← _patch_lever_evidence w overrides;
  plateau ← framework_plateau (dmerge config patch);
  Ok (config_dry plateau && source_dry plateau, arms plateau).

(** ** Kernel work *)

Definition _geak_phase_terminal w : bool :=
  String.eqb (py_lower (py_strip (kernel_optimizer w))) "geak"
  && bool_decide (py_lower (py_strip (get_str "status" (geak_result w))) ∈ GEAK_TERMINAL_STATUSES).

Definition kernel_controller_settled w : res bool :=
  if negb (String.eqb (py_lower (py_strip (kernel_optimizer w))) "forge") then Ok false
  else
    let result := kernel_rewrite_controller_result (w_kernel w) in
    match py_int (default (PInt (-1)) (dget "macro_cycle" result)) with
    | Ok cycle =>
        Ok ((cycle =? w_cycle w)%Z
            && bool_decide (py_lower (py_strip (get_str "status" result)) ∈ CONTROLLER_TERMINAL_STATUSES))
    | Raise (TypeError _) | Raise (ValueError _) => Ok false
    | Raise e => Raise e
    end.

Definition budget_env : pyval F := match env "HL_KERNEL_PATCH_BUDGET" with Some s => PStr s | None => PNone end.

(** Reading the queue evicts its settled records, so the state is handed on. *)
Definition kernel_work_pending w : res (bool * world F) :=
  r ← has_keep_pending_integrate budget_env (w_kernel w);
  let w := with_kernel r.2 w in
  if (r.1 : bool) then Ok (true, w)
  else
    settled ← kernel_controller_settled w;
    if settled || _geak_phase_terminal w then Ok (false, w)
    else
      untried ← untried_hot_reusable_kernels (env "HYPERLOOM_KERNEL_OPT_MIN_GPU_PCT") (env "HYPERLOOM_KERNEL_OPT_GATE_TOP_N")
                  (w_kernel w);
      Ok (negb (bool_decide (untried = [])), w).
End readers.
Arguments config_round F : clear implicits.
Arguments MkRound {F} _ _ _.
Arguments cr_id {F} _.
Arguments cr_adopted {F} _.
Arguments cr_gain {F} _.

(** ** The frozen inputs *)

Section inputs.
Context {F : Type} `{!FloatOps F}.
Context (parse_iso : string → option F) (env : string → option string).
(** [resolve_benchmark_timeouts()[1]] *)
Context (round_grant : F).
Implicit Types (w : world F) (budget : pydict F).
Local Open Scope float_scope.

Definition _pending_escalate_hint w : string :=
  let raw := py_strip (pending_escalate_hint (w_session w)) in
  if negb (String.eqb raw EmptyString) && is_valid_escalate_hint raw then raw else EmptyString.

Definition _budget_predicate_inputs w (now_unix : F) : pydict F :=
  let c := w_clock w in
  let remaining := opt_float (phase_budget_remaining_seconds parse_iso c now_unix) in
  [("remaining_sec", remaining); ("entry_elapsed_sec", PFloat (phase_elapsed_seconds parse_iso c now_unix));
   ("cumulative_elapsed_sec", PFloat (phase_cumulative_seconds parse_iso c None now_unix));
   ("current_balance", remaining)].

Definition _base_workflow_predicate_inputs w (current : string) (now_unix : F) (flags : PhaseFlags)
    (enablement_in_flight : bool) : pydict F :=
  let hint := _pending_escalate_hint w in
  [("current_phase", PStr current); ("now_unix", PFloat now_unix);
   ("global", PDict [("stop_reason", PStr (py_strip (stop_reason (w_session w)))); ("closing_phase", PBool (closing_phase w));
                     ("target_reached_at", PStr (target_reached_at w))]);
   ("baseline", PNone); ("pending_work", PNone); ("budget", PNone); ("plateau", PNone);
   ("hint", if String.eqb hint EmptyString then PNone else PStr hint); ("sweep_result", PNone);
   ("macro_cycle", PInt (w_cycle w));
   ("run_flags", PDict [("kernel_enabled", PBool (kernel_enabled flags));
                        ("framework_agent_enabled", PBool (optimize_enabled flags));
                        ("enablement_enabled", PBool (enablement_enabled flags))]);
   ("enablement_in_flight", PBool enablement_in_flight)].

Definition _initial_analysis_inputs w (read : F) : pydict F :=
  [("initial_analysis_pending", PBool (negb (String.eqb (py_strip (auto_roofline_pending_task_id w)) EmptyString)));
   ("analysis_affordable_sec", opt_float (prelude_affordable_seconds parse_iso (w_clock w) read).1)].

Definition tput_fact w : res (pyval F) := x ← to_float (PFloat (baseline_tput w)); Ok (PFloat (or_zero x)).
Definition runtime_fact (x : F) : res (pyval F) := y ← optional_positive_float (PFloat x); Ok (opt_float y).

(** The session clock is read twice more: for the analysis and for the session. *)
Definition _prelude_predicate_inputs w (now_unix read1 read2 : F) : res (pydict F) :=
  tput ← tput_fact w;
  runtime ← runtime_fact (baseline_runtime_sec w);
  post_ready ← runtime_fact (baseline_post_ready_runtime_sec w);
  warm ← runtime_fact (baseline_warm_runtime_sec w);
  evaluation ← runtime_fact (baseline_eval_runtime_sec w);
  Ok ([("failure_streak", PInt (baseline_failure_streak w)); ("failures_this_leg", PInt (c_leg_failures (w_clock w)));
       ("warm_replay_status", PStr (warm_status w));
       ("measure_round_dropped", PBool (baseline_measure_round_dropped w)); ("tput", tput)]
      ++ _initial_analysis_inputs w read1 ++
      [("session_usable_sec", opt_float (session_budget_usable_sec parse_iso (w_clock w) None read2));
       ("phase_spent_sec", PFloat (phase_cumulative_seconds parse_iso (w_clock w) (Some PHASE_PRELUDE) now_unix));
       ("runtime_sec", runtime); ("post_ready_runtime_sec", post_ready); ("warm_runtime_sec", warm);
       ("eval_runtime_sec", evaluation)]).

Definition _framework_predicate_inputs w (now_unix : F) : res (pydict F * pydict F) :=
  dryness ← per_lever_dryness w;
  rows ← _rows_for_current_cycle (attempts w) w;
  rounds ← _rounds_since_phase_entry parse_iso w;
  let plateau := filter (λ kv, kv.1 ∉ ["config_arm_plateaued"; "source_arm_plateaued"; "switch_bottleneck"]) dryness.2 in
  Ok (dset "specialist_round_count" (PInt (Z.of_nat (length rounds)))
        (dset "attempt_count" (PInt (Z.of_nat (length rows))) plateau),
      _budget_predicate_inputs w now_unix).

(** [int(to_float(v, -1))] *)
Definition controller_cycle_of (v : pyval F) : res Z :=
  x ← to_float v; Ok (match x with Some x => f_trunc x | None => (-1)%Z end).

Definition _kernel_predicate_inputs w (now_unix : F) (kernel_work_in_flight : bool)
    : res (pydict F * pydict F * pydict F * world F) :=
  let controller := kernel_rewrite_controller_result (w_kernel w) in
  let optimizer := py_lower (py_strip (kernel_optimizer w)) in
  work ← kernel_work_pending env w;
  cycle ← controller_cycle_of (dget_or_none "macro_cycle" controller);
  patches ← get_int "patch_count" controller;
  tasks ← get_int "task_count" controller;
  idle_max ← _kernel_idle_max_ticks env;
  idle_min ← _kernel_idle_min_seconds env;
  let pending : pydict F :=
    [("kernel_work_pending", PBool work.1); ("kernel_agent_in_flight", PBool kernel_work_in_flight);
     ("optimizer", PStr optimizer); ("controller_cycle", PInt cycle);
     ("controller_status", PStr (py_lower (py_strip (get_str "status" controller))));
     ("controller_patch_count", PInt patches); ("controller_task_count", PInt tasks);
     ("controller_reason", PStr (get_str "reason" controller))] in
  let pending :=
    if String.eqb optimizer "geak" then
      let geak := geak_result w in
      dmerge pending [("geak_status", PStr (py_lower (py_strip (get_str "status" geak))));
                      ("geak_error_class", PStr (get_str "error_class" geak));
                      ("geak_error", PStr (String.substring 0 500 (get_str "error" geak)))]
    else pending in
  let plateau : pydict F :=
    [("idle_ticks", PInt (kernel_idle_ticks w)); ("idle_since_unix", PFloat (nonneg (kernel_idle_since_unix w)));
     ("idle_max_ticks", PInt idle_max); ("idle_min_seconds", PFloat idle_min);
     ("rejected_kernel_count", PInt (Z.of_nat (length (rejected_kernel_ids (w_kernel w)))))] in
  Ok (pending, plateau, _budget_predicate_inputs w now_unix, work.2).

(** While the granted sweep runs, its grant is the budget. *)
Definition _extend_budget_to_sweep_grant budget w (now_unix : F) : res (pydict F) :=
  granted ← to_float (PFloat (conc_sweep_granted_until_unix F (s_per_cycle (w_session w))));
  let grant_left := or_zero granted - now_unix in
  if grant_left <=? fzero then Ok budget
  else
    remaining ← get_float "remaining_sec" budget;
    Ok (match remaining with
        | Some r => if r <? grant_left
                    then dset "current_balance" (PFloat grant_left) (dset "remaining_sec" (PFloat grant_left) budget)
                    else budget
        | None => budget
        end).

Definition saturated_facts (saturated : pydict F) : pydict F :=
  omap (λ kv, match kv.2 with PDict d => Some (kv.1, PBool (get_bool "saturated" d)) | _ => None end) saturated.

Definition reloop_facts_of w (now_unix : F) : res (pydict F) :=
  start ← to_float (PFloat (gain_at_cycle_start (w_session w)));
  floor ← _default_cycle_reloop_min_remaining_sec env;
  Ok [("current_gain_pct", PFloat (or_zero (Some (cumulative_gain_validated (w_session w)))));
      ("gain_at_cycle_start_pct", PFloat (or_zero start));
      ("min_gain_pct", PFloat (decaying_keep_threshold_pct (w_cycle w) false));
      ("prior_no_gain_cycle_streak", PInt (no_gain_cycle_streak (w_session w)));
      ("no_gain_cycles", PInt DEFAULT_GLOBAL_CONVERGENCE_NO_GAIN_CYCLES);
      ("saturated_directions", PDict (saturated_facts (saturated_directions w)));
      ("session_remaining_sec", opt_float (session_remaining_seconds parse_iso (w_clock w) now_unix));
      ("min_remaining_sec", PFloat (_cycle_reloop_min_remaining_sec floor round_grant (w_clock w)))].

Definition _sweep_predicate_inputs w (now_unix : F) : res (pydict F * pydict F) :=
  let last_conc := last_conc_sweep F (s_per_cycle (w_session w)) in
  let summary := match dget "summary" last_conc with Some (PDict d) => d | _ => [] end in
  pairs ← get_int "successful_pairs" summary;
  reloop ← reloop_facts_of w now_unix;
  let status := py_lower (get_str "status" last_conc) in
  let result : pydict F :=
    [("status", PStr status); ("was_skipped", PBool (get_bool "was_skipped" last_conc));
     ("budget_exhausted", PBool (get_bool "budget_exhausted" last_conc));
     ("skip_reason", PStr (get_str "skip_reason" last_conc)); ("successful_pairs", PInt pairs);
     ("summary_present", PBool (negb (bool_decide (summary = [])))); ("reloop", PDict reloop)] in
  let budget := _budget_predicate_inputs w now_unix in
  budget ← (if String.eqb status EmptyString then _extend_budget_to_sweep_grant budget w now_unix else Ok budget);
  Ok (result, budget).

(** The phase a state without one is in. *)
Definition current_or_prelude w : string :=
  let current := norm_phase (c_phase (w_clock w)) in
  if String.eqb current EmptyString then PHASE_PRELUDE else current.

Definition workflow_predicate_inputs w (flags : PhaseFlags) (now_unix read1 read2 : F) (in_flight : WorkInFlight)
    (framework_round_fits : bool) : res (pydict F * world F) :=
  let current := current_or_prelude w in
  let inputs := _base_workflow_predicate_inputs w current now_unix flags (wif_enablement in_flight) in
  if String.eqb current PHASE_PRELUDE then
    baseline ← _prelude_predicate_inputs w now_unix read1 read2;
    Ok (dset "pending_work" (PDict [("prelude_work_in_flight", PBool (wif_prelude in_flight))])
          (dset "baseline" (PDict baseline) inputs), w)
  else if String.eqb current PHASE_ENABLEMENT then
    tput ← tput_fact w;
    Ok (dset "pending_work" (PDict [("validation_pending", PBool (validation_pending w));
                                    ("enablement_in_flight", PBool (wif_enablement in_flight))])
          (dset "baseline" (PDict (("tput", tput) :: _initial_analysis_inputs w read1)) inputs), w)
  else if String.eqb current PHASE_FRAMEWORK_AGENT then
    '(plateau, budget) ← _framework_predicate_inputs w now_unix;
    Ok (dset "budget" (PDict (dset "round_fits" (PBool framework_round_fits) budget))
          (dset "plateau" (PDict plateau) inputs), w)
  else if String.eqb current PHASE_KERNEL_AGENT then
    '(pending, plateau, budget, w) ← _kernel_predicate_inputs w now_unix (wif_kernel in_flight);
    Ok (dset "budget" (PDict budget) (dset "plateau" (PDict plateau) (dset "pending_work" (PDict pending) inputs)), w)
  else if String.eqb current PHASE_SWEEP then
    '(result, budget) ← _sweep_predicate_inputs w now_unix;
    Ok (dset "budget" (PDict budget) (dset "sweep_result" (PDict result) inputs), w)
  else Ok (inputs, w).

Definition initial_workflow_predicate_inputs w (current_phase : string) (flags : PhaseFlags) (now : F) : pydict F :=
  _base_workflow_predicate_inputs w current_phase now flags false.

Definition cycle_reloop_decision w (now_unix : F) : res (bool * pydict F) :=
  '(sweep_result, _) ← _sweep_predicate_inputs w now_unix;
  '(reloop, evidence) ← _reloop_decision
    [("macro_cycle", PInt (w_cycle w)); ("global", PDict [("target_reached_at", PStr (target_reached_at w))]);
     ("sweep_result", PDict sweep_result)];
  Ok (reloop && framework_agent_phase_enabled w, evidence).

Definition compute_next_phase w (flags : PhaseFlags) (now_unix read1 read2 : F) (in_flight : WorkInFlight)
    (framework_round_fits : bool) : res (option (string * string * pydict F) * world F) :=
  '(inputs, w) ← workflow_predicate_inputs w flags now_unix read1 read2 in_flight framework_round_fits;
  decision ← replay_next_phase inputs;
  Ok (decision, w).
End inputs.
