(* ===== verification/PhaseDrive.v ===== *)
(** * What the frozen facts guarantee

    [workflow_predicate_inputs] freezes what the phase machine assumes, so the bound on its runs holds of the
    machine driven by [compute_next_phase]; a sweep in progress is not cut short by the phase budget; KERNEL
    is left as finished only with its queue drained; and the config lever is judged per benched round. *)

From stdpp Require Import base list strings pretty sets sorting.
From Stdlib Require Import ZArith Lia.
From Stdlib Require String.
From S2P Require Import Prelude PyFloat PyVal PhaseChain PhaseMachine PhaseClock.
From S2P Require Import PhaseState Protocol OperatorName KernelQueue KernelRules PhaseFacts.

Section freeze.
Context {F : Type} `{!FloatOps F}.
Context (parse_iso : string → option F) (env : string → option string) (round_grant : F).
Implicit Types (w : world F).

Lemma dget_filter_none {V} k (P : string * V → Prop) `{∀ x, Decision (P x)} (d : list (string * V)) :
  dget k d = None → dget k (filter P d) = None.
Proof.
  rewrite !dget_None. intros Hk Hin. apply Hk. apply list_elem_of_fmap in Hin as (kv & -> & Hkv).
  apply list_elem_of_filter in Hkv as [_ Hkv]. by apply list_elem_of_fmap_2.
Qed.

Lemma to_float_PFloat (x : F) : to_float (PFloat x) = Ok (if f_isfinite x then Some x else None).
Proof. done. Qed.
Lemma get_float_PFloat k (d : pydict F) x : dget k d = Some (PFloat x) → ∃ y, get_float k d = Ok y.
Proof. intros H. unfold get_float, dget_or_none. rewrite H. simpl. eauto. Qed.
Lemma get_float_opt k (d : pydict F) x : dget k d = Some (opt_float x) → ∃ y, get_float k d = Ok y.
Proof. intros H. unfold get_float, dget_or_none. rewrite H. destruct x; simpl; eauto. Qed.

Lemma get_dict_found k (d d' : pydict F) : dget k d = Some (PDict d') → get_dict k d = Ok d'.
Proof. intros H. unfold get_dict, dget_or_none. by rewrite H. Qed.

Lemma dryness_unmarked w b ev : per_lever_dryness w = Ok (b, ev) → unmarked ev.
Proof.
  unfold per_lever_dryness. intros H. apply res_bind_ok in H as (config & Hc & H).
  apply res_bind_ok in H as (patch & Hp & H). apply res_bind_ok in H as (pl & Hpl & [= _ <-]).
  unfold framework_plateau in Hpl. inv_res Hpl; subst pl; cbn [arms];
    unfold unmarked; rewrite !dget_dset_ne by done;
    apply dget_filter_none; unfold _config_lever_evidence, _patch_lever_evidence in *;
    inv_res Hc; inv_res Hp; subst; reflexivity.
Qed.

Lemma framework_unmarked w now plateau budget :
  _framework_predicate_inputs parse_iso w now = Ok (plateau, budget) → unmarked plateau.
Proof.
  unfold _framework_predicate_inputs. intros H. apply res_bind_ok in H as ([b ev] & Hd & H).
  apply res_bind_ok in H as (rows & _ & H). apply res_bind_ok in H as (rounds & _ & [= <- _]).
  apply dryness_unmarked in Hd. unfold unmarked. rewrite !dget_dset_ne by done. by apply dget_filter_none.
Qed.

(** The facts SWEEP decides its next cycle on. *)
Lemma sweep_facts w now result budget inputs :
  _sweep_predicate_inputs parse_iso env round_grant w now = Ok (result, budget) →
  dget "sweep_result" inputs = Some (PDict result) → dget "macro_cycle" inputs = Some (PInt (w_cycle w)) →
  (∃ g, get_dict "global" inputs = Ok g) →
  ∃ cf, read_cycle_facts inputs = Ok cf ∧ cf_cycle cf = w_cycle w ∧
    cf_prior cf = no_gain_cycle_streak (w_session w) ∧ cf_limit cf = DEFAULT_GLOBAL_CONVERGENCE_NO_GAIN_CYCLES.
Proof.
  unfold _sweep_predicate_inputs. intros H Hs Hm (g & Hg). apply res_bind_ok in H as (pairs & _ & H).
  apply res_bind_ok in H as (reloop & Hr & H). apply res_bind_ok in H as (b & _ & [= <- _]).
  unfold reloop_facts_of in Hr. apply res_bind_ok in Hr as (start & _ & Hr).
  apply res_bind_ok in Hr as (floor & _ & [= <-]).
  unfold read_cycle_facts. rewrite (get_dict_found _ _ _ Hs). cbn [mbind res_bind].
  match type of Hs with _ = Some (PDict (?a :: ?b :: ?c :: ?d :: ?e :: ?f :: [("reloop", PDict ?facts)])) =>
    set (fs := facts); change (get_dict "reloop" _) with (@Ok (pydict F) fs) end.
  cbn [mbind res_bind]. rewrite (get_int_PInt "macro_cycle" inputs _ Hm), Hg.
  rewrite (get_int_PInt "prior_no_gain_cycle_streak" fs (no_gain_cycle_streak (w_session w)) eq_refl).
  rewrite (get_int_PInt "no_gain_cycles" fs DEFAULT_GLOBAL_CONVERGENCE_NO_GAIN_CYCLES eq_refl).
  destruct (get_float_opt "session_remaining_sec" fs (session_remaining_seconds parse_iso (w_clock w) now) eq_refl) as [y ->].
  eexists. split; [reflexivity|]. done.
Qed.

Lemma kernel_inputs_spec w now busy pending plateau budget w' :
  _kernel_predicate_inputs parse_iso env w now busy = Ok (pending, plateau, budget, w') →
  ∃ b, kernel_work_pending env w = Ok (b, w') ∧ dget "kernel_work_pending" pending = Some (PBool b) ∧
    dget "kernel_agent_in_flight" pending = Some (PBool busy) ∧ unmarked plateau.
Proof.
  unfold _kernel_predicate_inputs. intros H. apply res_bind_ok in H as ([b w2] & Hw & H).
  do 5 (apply res_bind_ok in H as (? & _ & H)). injection H as <- <- _ <-.
  exists b. split_and!; [done|by destruct (String.eqb _ "geak")..|done].
Qed.
Lemma work_pending_session w b w' : kernel_work_pending env w = Ok (b, w') → w_session w' = w_session w.
Proof. unfold kernel_work_pending. intros H. inv_res H; simplify_eq; done. Qed.

Lemma frozen_intro w inputs plateau g :
  dget "current_phase" inputs = Some (PStr (phase_of (w_session w))) → dget "global" inputs = Some (PDict g) →
  get_str "stop_reason" g = py_strip (stop_reason (w_session w)) →
  dget "plateau" inputs = Some plateau → (∀ pl, plateau = PDict pl → unmarked pl) →
  (phase_of (w_session w) = PHASE_SWEEP → ∃ cf, read_cycle_facts inputs = Ok cf ∧ cf_cycle cf = w_cycle w ∧
    cf_prior cf = no_gain_cycle_streak (w_session w) ∧ cf_limit cf = DEFAULT_GLOBAL_CONVERGENCE_NO_GAIN_CYCLES) →
  frozen_from (w_session w) inputs.
Proof.
  intros Hc Hg Hs Hp Hu Hcy. split; [by unfold current_phase; rewrite Hc| | |done].
  - exists g. split; [by apply get_dict_found|done].
  - intros pl. unfold get_dict, dget_or_none. rewrite Hp. simpl. intros H.
    destruct plateau; simpl in H; repeat case_match; try done; try (injection H as <-; done). by injection H as <-; apply Hu.
Qed.

Lemma get_str_PStr k (d : pydict F) s : dget k d = Some (PStr s) → get_str k d = s.
Proof. intros H. unfold get_str. rewrite H. simpl. by destruct s. Qed.

(** The frozen inputs say of the machine's own fields what they are, and freezing changes none of them. *)
Lemma freeze_spec w flags now read1 read2 in_flight fits inputs w' :
  phase_of (w_session w) ∈ PHASE_NAMES →
  workflow_predicate_inputs parse_iso env round_grant w flags now read1 read2 in_flight fits = Ok (inputs, w') →
  frozen_from (w_session w) inputs ∧ w_session w' = w_session w.
Proof.
  intros Hin. unfold workflow_predicate_inputs.
  assert (current_or_prelude w = phase_of (w_session w)) as ->.
  { unfold current_or_prelude, w_clock. fold (phase_of (w_session w)).
    destruct (String.eqb_spec (phase_of (w_session w)) EmptyString) as [E|]; [|done]. rewrite E in Hin.
    unfold PHASE_NAMES in Hin. rewrite !elem_of_cons, elem_of_nil in Hin. naive_solver. }
  assert (∀ s, get_str "stop_reason" [("stop_reason", PStr s); ("closing_phase", PBool (closing_phase w));
     ("target_reached_at", PStr (target_reached_at w))] = s) as Hstop by (intros s; by apply get_str_PStr).
  intros H. repeat (match type of H with context [String.eqb ?a ?b] =>
    destruct (String.eqb_spec a b) as [Ephase|?] end; [|]).
  - apply res_bind_ok in H as (baseline & _ & [= <- <-]). split; [|done].
    eapply frozen_intro; try reflexivity; [apply Hstop|done|by rewrite Ephase].
  - apply res_bind_ok in H as (tput & _ & [= <- <-]). split; [|done].
    eapply frozen_intro; try reflexivity; [apply Hstop|done|by rewrite Ephase].
  - apply res_bind_ok in H as ([plateau budget] & Hf & [= <- <-]). split; [|done].
    eapply frozen_intro; try reflexivity; [apply Hstop| |by rewrite Ephase].
    intros pl [= <-]. by eapply framework_unmarked.
  - apply res_bind_ok in H as ([[[pending plateau] budget] w1] & Hk & [= <- <-]).
    apply kernel_inputs_spec in Hk as (b & Hw & _ & _ & Hu). split; [|by eapply work_pending_session].
    eapply frozen_intro; try reflexivity; [apply Hstop| |by rewrite Ephase]. by intros pl [= <-].
  - apply res_bind_ok in H as ([result budget] & Hs & [= <- <-]). split; [|done].
    eapply frozen_intro; try reflexivity; [apply Hstop|done|]. intros _. apply (sweep_facts _ _ _ _ _ Hs); [reflexivity|reflexivity|].
    eexists. reflexivity.
  - injection H as <- <-. split; [|done]. eapply frozen_intro; try reflexivity; [apply Hstop|done|by intros E; rewrite E in *].
Qed.
End freeze.

(** ** The driven machine *)

Section drive.
Context {F : Type} `{!FloatOps F}.
Context (parse_iso : string → option F) (env : string → option string) (round_grant : F) (plan : session F → pydict F).
Implicit Types (w : world F).

(** A decision computed from the session and committed to it; what the session carries beside the machine's
    state is free. *)
Definition drive_step w (t r : string) (ev : pydict F) w' : Prop :=
  ∃ flags now read1 read2 in_flight fits w1 top ts at_unix,
    compute_next_phase parse_iso env round_grant w flags now read1 read2 in_flight fits = Ok (Some (t, r, ev), w1) ∧
    _commit_transition parse_iso (w_session w1) (MkTransition (c_phase (w_clock w1)) t r ev) top plan ts at_unix
      = Ok (w_session w').

(** A driven run counts like [run]: transitions, cycles opened, cycles opened after a gain. *)
Inductive driven w : nat → nat → nat → world F → Prop :=
| driven_refl : driven w 0 0 0 w
| driven_env m c g w1 w2 :
    driven w m c g w1 → machine_view (w_session w2) = machine_view (w_session w1) → driven w m c g w2
| driven_step m c g w1 t r ev w2 :
    driven w m c g w1 → drive_step w1 t r ev w2 →
    driven w (S m) (if is_reloop (w_session w1) t then S c else c)
      (if is_reloop (w_session w1) t && get_bool "cycle_gained" ev then S g else g) w2.

Lemma drive_commits w t r ev w' :
  phase_of (w_session w) ∈ PHASE_NAMES → drive_step w t r ev w' →
  ∃ inputs, commit_step parse_iso plan (w_session w) inputs t r ev (w_session w').
Proof.
  intros Hin (flags & now & r1 & r2 & fl & fits & w1 & top & ts & at_unix & Hn & Hc).
  unfold compute_next_phase in Hn. apply res_bind_ok in Hn as ([inputs w2] & Hf & Hn).
  apply res_bind_ok in Hn as (d & Hd & [= -> <-]).
  destruct (freeze_spec _ _ _ _ _ _ _ _ _ _ _ _ Hin Hf) as [Hfr Es].
  exists inputs. split; [done|]. split; [done|]. exists top, ts, at_unix. unfold w_clock in Hc. by rewrite Es in Hc.
Qed.

Lemma driven_run w m c g w' :
  phase_of (w_session w) ∈ PHASE_NAMES → no_gain_cycle_streak (w_session w) = 0%Z →
  driven w m c g w' → run parse_iso plan (w_session w) m c g (w_session w').
Proof.
  intros Hin H0. induction 1 as [|m c g w1 w2 _ IH Hv|m c g w1 t r ev w2 _ IH Hs].
  - apply run_refl.
  - by eapply run_env.
  - destruct (run_progress _ _ _ _ _ _ _ Hin H0 IH) as (Hin1 & _).
    destruct (drive_commits _ _ _ _ _ Hin1 Hs) as (inputs & Hc). by eapply run_commit.
Qed.
End drive.

(** C13: Liveness.  The machine cannot run on without gaining.  Driven from the session itself, every decision
    being computed by [compute_next_phase] and committed while anything else of the session may change in
    between, a run from a fresh streak that opened [c] macro-cycles, [g] of them after a cycle that gained,
    has made at most [11 + 9g] transitions and opened at most [3g + 2] cycles; its cycle number counts
    them, and once in CLOSE it makes no further transition. *)
Theorem drive_bounded_by_gains {F} `{!FloatOps F} (parse_iso : string → option F) (env : string → option string)
    (round_grant : F) (plan : session F → pydict F) (w w' : world F) (m c g : nat) :
  phase_of (w_session w) ∈ PHASE_NAMES →
  no_gain_cycle_streak (w_session w) = 0%Z →
  driven parse_iso env round_grant plan w m c g w' →
  m <= 5 + 3 * c ∧ c <= 3 * g + 2 ∧ m <= 11 + 9 * g ∧
  macro_cycle (w_session w') = (macro_cycle (w_session w) + Z.of_nat c)%Z ∧
  (phase_of (w_session w') = PHASE_CLOSE → ∀ t r ev w2, ¬ drive_step parse_iso env round_grant plan w' t r ev w2).
Proof.
  intros Hin H0 Hd. apply driven_run in Hd as Hrun; [|done..].
  destruct (run_bounded _ _ _ _ _ _ _ Hin H0 Hrun) as (H1 & H2 & H3 & H4 & H5). split_and!; [done..|].
  intros Hcl t r ev w2 Hs. destruct (run_progress _ _ _ _ _ _ _ Hin H0 Hrun) as (Hin' & _).
  destruct (drive_commits _ _ _ _ _ _ _ _ _ Hin' Hs) as (inputs & Hc). by eapply H5.
Qed.

(** ** A sweep in progress *)

Section sweep.
Context {F : Type} `{!FloatOps F, !FloatOrder F}.

(** The widened budget is never spent while the grant lasts. *)
Lemma granted_budget_holds w now (budget budget' : pydict F) reason ev granted :
  to_float (PFloat (conc_sweep_granted_until_unix F (s_per_cycle (w_session w)))) = Ok granted →
  fltb fzero (fsub (or_zero granted) now) = true →
  _extend_budget_to_sweep_grant budget w now = Ok budget' → budget_exit budget' reason ev = Ok None.
Proof.
  intros Hg Hpos. unfold _extend_budget_to_sweep_grant. rewrite Hg. cbn [mbind res_bind].
  set (left := fsub (or_zero granted) now) in *. rewrite (fltb_asym_leb _ _ Hpos). intros H.
  apply res_bind_ok in H as (remaining & Hr & H). unfold budget_exit.
  assert (∀ x : F, fleb x fzero = true → fltb x left = true) as Hlow by (intros x Hx; by eapply fleb_ltb_trans).
  destruct remaining as [x|].
  - destruct (fltb x left) eqn:E; injection H as <-.
    + unfold get_float, dget_or_none. rewrite dget_dset_ne, dget_dset_eq by done. simpl.
      destruct (f_isfinite left); [|done]. by rewrite (fltb_asym_leb _ _ Hpos).
    + rewrite Hr. simpl. destruct (fleb x fzero) eqn:E'; [|done]. by rewrite (Hlow _ E') in E.
  - injection H as <-. by rewrite Hr.
Qed.

Lemma sweep_stays (inputs : pydict F) :
  current_phase inputs = Ok PHASE_SWEEP → not_forced inputs → (∃ f, get_dict "run_flags" inputs = Ok f) →
  _sweep_exit inputs = Ok None → replay_next_phase inputs = Ok None.
Proof.
  intros Hc Hn [f Hf] He. unfold replay_next_phase. rewrite (not_forced_terminal _ _ Hn Hc), Hc, Hf.
  destruct Hn as (g & -> & _). cbn [mbind res_bind]. change (phase_index PHASE_SWEEP <? phase_index PHASE_SWEEP)%Z with false.
  rewrite !andb_false_r. cbv iota. unfold _sweep_transition. by rewrite He.
Qed.
End sweep.

(** Safety.  The phase budget never cuts a granted sweep short: in SWEEP, with no stop requested, no outcome
    booked yet and the grant of the running concurrency sweep still ahead, the machine stays where it is,
    however little of the phase's own share is left. *)
Theorem granted_sweep_holds {F} `{!FloatOps F, !FloatOrder F} (parse_iso : string → option F) (env : string → option string)
    (round_grant : F) (w : world F) flags now read1 read2 in_flight fits granted floor :
  phase_of (w_session w) = PHASE_SWEEP →
  py_strip (stop_reason (w_session w)) = EmptyString → closing_phase w = false →
  last_conc_sweep F (s_per_cycle (w_session w)) = [] →
  _default_cycle_reloop_min_remaining_sec env = Ok floor →
  to_float (PFloat (conc_sweep_granted_until_unix F (s_per_cycle (w_session w)))) = Ok (Some granted) →
  fltb fzero (fsub (or_zero (Some granted)) now) = true →
  compute_next_phase parse_iso env round_grant w flags now read1 read2 in_flight fits = Ok (None, w).
Proof.
  intros Hph Hstop Hclose Hconc Henv Hgr Hpos.
  assert (∃ budget', _extend_budget_to_sweep_grant (_budget_predicate_inputs parse_iso w now) w now = Ok budget') as [b Hb].
  { unfold _extend_budget_to_sweep_grant. rewrite Hgr. cbn [mbind res_bind]. case_match; [eauto|].
    destruct (get_float_opt "remaining_sec" (_budget_predicate_inputs parse_iso w now)
      (phase_budget_remaining_seconds parse_iso (w_clock w) now) eq_refl) as [y ->]. simpl. eauto. }
  pose proof (granted_budget_holds w now _ b "sweep_budget_exhausted" [] _ Hgr Hpos Hb) as Hexit.
  unfold compute_next_phase, workflow_predicate_inputs.
  assert (current_or_prelude w = PHASE_SWEEP) as -> by (unfold current_or_prelude, w_clock; fold (phase_of (w_session w)); by rewrite Hph).
  change (String.eqb PHASE_SWEEP PHASE_PRELUDE) with false. change (String.eqb PHASE_SWEEP PHASE_ENABLEMENT) with false.
  change (String.eqb PHASE_SWEEP PHASE_FRAMEWORK_AGENT) with false. change (String.eqb PHASE_SWEEP PHASE_KERNEL_AGENT) with false.
  change (String.eqb PHASE_SWEEP PHASE_SWEEP) with true. cbv iota.
  assert (∃ result, _sweep_predicate_inputs parse_iso env round_grant w now = Ok (result, b) ∧ get_str "status" result = EmptyString)
    as (result & -> & Hst).
  { unfold _sweep_predicate_inputs, reloop_facts_of. rewrite Hconc, Henv. cbn [mbind res_bind to_float py_float].
    change (get_int "successful_pairs" []) with (@Ok Z 0). cbn [mbind res_bind].
    change (String.eqb (py_lower (get_str "status" [])) EmptyString) with true. cbv iota. rewrite Hb. cbn [mbind res_bind].
    eexists. split; reflexivity. }
  cbn [mbind res_bind]. rewrite sweep_stays; [done|reflexivity| | |].
  - eexists. split; [reflexivity|]. split; [|exact Hclose]. etransitivity; [by apply get_str_PStr|exact Hstop].
  - eexists. reflexivity.
  - unfold _sweep_exit. rewrite (get_dict_found "sweep_result" _ result), (get_dict_found "budget" _ b) by reflexivity.
    cbn [mbind res_bind]. rewrite Hst. exact Hexit.
Qed.

(** ** Leaving KERNEL *)

(** The exits that say the phase's work is done, as opposed to its time. *)
Definition kernel_done {F} (r : string) (ev : pydict F) : Prop :=
  r = "kernel_controller_done" ∨ r = "kernel_geak_failed" ∨
  r = "kernel_no_more_leverage" ∧ dget "evidence" ev = Some (PStr "kernel_settled").

Section kernel.
Context {F : Type} `{!FloatOps F}.
Implicit Types (inputs pending plateau ev : pydict F).

Lemma budget_exit_named budget reason ev r ev' :
  budget_exit (F := F) budget reason ev = Ok (Some (r, ev')) → r = reason.
Proof. unfold budget_exit. intros H. inv_res H; by simplify_eq. Qed.

Lemma quiet_done pending plateau inputs r ev :
  kernel_quiet_exit pending plateau inputs = Ok (Some (r, ev)) → kernel_done r ev → get_bool "kernel_work_pending" pending = false.
Proof.
  unfold kernel_quiet_exit, _kernel_idle_exit. intros H Hd.
  destruct (get_bool "kernel_work_pending" pending); [|done].
  apply res_bind_ok in H as (settled & _ & H). rewrite andb_false_r in H. simpl negb in H. inv_res H; simplify_eq.
  destruct Hd as [?|[?|[_ ?]]]; [done|done|]. simpl in *. done.
Qed.

Lemma kernel_exit_done inputs pending r ev :
  get_dict "pending_work" inputs = Ok pending → _kernel_exit inputs = Ok (Some (r, ev)) → kernel_done r ev →
  get_bool "kernel_work_pending" pending = false ∧ get_bool "kernel_agent_in_flight" pending = false.
Proof.
  intros Hp H Hd. unfold _kernel_exit in H. rewrite Hp in H. cbn [mbind res_bind] in H.
  apply res_bind_ok in H as (plateau & _ & H). apply res_bind_ok in H as (quiet & Hq & H).
  destruct (get_bool "kernel_agent_in_flight" pending).
  - injection Hq as <-. apply res_bind_ok in H as (budget & _ & H). apply res_bind_ok in H as (n & _ & H).
    apply budget_exit_named in H as ->. by destruct Hd as [?|[?|[? _]]].
  - split; [|done]. destruct quiet as [[r' ev']|].
    + injection H as -> ->. by eapply quiet_done.
    + apply res_bind_ok in H as (budget & _ & H). apply res_bind_ok in H as (n & _ & H).
      apply budget_exit_named in H as ->. by destruct Hd as [?|[?|[? _]]].
Qed.

Lemma no_work_pending env w (w' : world F) :
  kernel_work_pending env w = Ok (false, w') →
  (∃ rs, pending_kernel_integration_records (budget_env env) (w_kernel w) = Ok (rs, w_kernel w') ∧
     ∀ p, p ∈ rs → get_str "kernel_id" p = EmptyString) ∧
  (kernel_controller_settled w' = Ok true ∨ _geak_phase_terminal w' = true ∨
   untried_hot_reusable_kernels (env "HYPERLOOM_KERNEL_OPT_MIN_GPU_PCT") (env "HYPERLOOM_KERNEL_OPT_GATE_TOP_N")
     (w_kernel w') = Ok []).
Proof.
  unfold kernel_work_pending. intros H. apply res_bind_ok in H as ([b k] & Hk & H). cbn [fst snd] in H.
  destruct b; [done|]. apply res_bind_ok in H as (settled & Hs & H).
  unfold has_keep_pending_integrate, pending_keep_kernel_ids in Hk. apply res_bind_ok in Hk as ([ids k0] & Hi & [= Hn ->]).
  apply res_bind_ok in Hi as ([rs k'] & Hr & [= <- <-]). cbn [fst snd] in *.
  assert (∀ p, p ∈ rs → get_str "kernel_id" p = EmptyString) as Hblank.
  { intros p Hp. apply negb_false_iff, bool_decide_eq_true, nil_length_inv in Hn.
    destruct (decide (get_str "kernel_id" p = EmptyString)) as [|Hne]; [done|]. exfalso.
    apply (not_elem_of_nil (get_str "kernel_id" p)). rewrite <- Hn. apply list_elem_of_filter. split; [done|].
    by apply list_elem_of_fmap_2. }
  destruct (settled || _geak_phase_terminal _) eqn:E.
  - injection H as <-. split; [eauto|]. apply orb_true_iff in E as [->|E]; eauto.
  - apply res_bind_ok in H as (untried & Hu & [= H <-]). split; [eauto|]. right; right.
    apply negb_false_iff, bool_decide_eq_true in H as ->. done.
Qed.

(** A move to SWEEP out of KERNEL that is not the target's is the phase's own exit. *)
Lemma kernel_move inputs r ev :
  current_phase inputs = Ok PHASE_KERNEL_AGENT → replay_next_phase inputs = Ok (Some (PHASE_SWEEP, r, ev)) →
  r ≠ "target_reached" → ∃ ev0, _kernel_exit inputs = Ok (Some (r, ev0)) ∧ ev = dset "predicate_inputs" (PDict inputs) ev0.
Proof.
  intros Hc H Hr. unfold replay_next_phase, _terminal_close_transition in H. rewrite Hc in H. cbn [mbind res_bind] in H.
  change (String.eqb PHASE_KERNEL_AGENT PHASE_CLOSE) with false in H. cbv iota in H.
  apply res_bind_ok in H as (forced & Hf & H). destruct forced as [tr|].
  { injection H as ->. inv_res Hf; done. }
  apply res_bind_ok in H as (g & _ & H). case_match; [by injection H as <- _|].
  apply res_bind_ok in H as (flags & _ & H). unfold _kernel_transition in H.
  change (_ ≫= _) with (_kernel_exit inputs ≫= λ normal, Ok (match normal with
      | None => None | Some (reason, ev) => Some (_transition_result PHASE_SWEEP reason ev inputs) end)) in H.
  apply res_bind_ok in H as ([[r' ev']|] & He & H); [|done]. injection H as <- <-. eauto.
Qed.
End kernel.

(** Safety.  KERNEL is left as finished only when it is: if the machine moves from KERNEL_AGENT to SWEEP because
    the controller is done, GEAK failed or the phase has settled, then no kernel agent was in flight, reading
    the queue at that moment offers no patch to integrate, and either the optimizer has reached a terminal
    status or no hot reusable kernel is left untried. *)
Theorem kernel_done_means_drained {F} `{!FloatOps F} (parse_iso : string → option F) (env : string → option string)
    (round_grant : F) (w w' : world F) flags now read1 read2 in_flight fits r ev :
  phase_of (w_session w) = PHASE_KERNEL_AGENT →
  compute_next_phase parse_iso env round_grant w flags now read1 read2 in_flight fits = Ok (Some (PHASE_SWEEP, r, ev), w') →
  kernel_done r ev →
  wif_kernel in_flight = false ∧
  (∃ rs, pending_kernel_integration_records (budget_env env) (w_kernel w) = Ok (rs, w_kernel w') ∧
     ∀ p, p ∈ rs → get_str "kernel_id" p = EmptyString) ∧
  (kernel_controller_settled w' = Ok true ∨ _geak_phase_terminal w' = true ∨
   untried_hot_reusable_kernels (env "HYPERLOOM_KERNEL_OPT_MIN_GPU_PCT") (env "HYPERLOOM_KERNEL_OPT_GATE_TOP_N")
     (w_kernel w') = Ok []).
Proof.
  intros Hph H Hd. unfold compute_next_phase in H. apply res_bind_ok in H as ([inputs w1] & Hin & H).
  apply res_bind_ok in H as (d & Hd' & [= -> ->]). unfold workflow_predicate_inputs in Hin.
  assert (current_or_prelude w = PHASE_KERNEL_AGENT) as Ec
    by (unfold current_or_prelude, w_clock; fold (phase_of (w_session w)); by rewrite Hph).
  rewrite Ec in Hin.
  change (String.eqb PHASE_KERNEL_AGENT PHASE_PRELUDE) with false in Hin.
  change (String.eqb PHASE_KERNEL_AGENT PHASE_ENABLEMENT) with false in Hin.
  change (String.eqb PHASE_KERNEL_AGENT PHASE_FRAMEWORK_AGENT) with false in Hin.
  change (String.eqb PHASE_KERNEL_AGENT PHASE_KERNEL_AGENT) with true in Hin. cbv iota in Hin.
  apply res_bind_ok in Hin as ([[[pending plateau] budget] w2] & Hk & [= <- ->]).
  apply kernel_inputs_spec in Hk as (b & Hw & Hb & Hbusy & _).
  apply kernel_move in Hd' as (ev0 & He & ->); [|reflexivity|by intros ->; destruct Hd as [?|[?|[? _]]]].
  assert (kernel_done r ev0) as Hd0.
  { destruct Hd as [?|[?|[? Hev]]]; [by left|by right; left|]. right; right. split; [done|]. by rewrite dget_dset_ne in Hev. }
  eapply kernel_exit_done in He as [Hp Hfl]; [|by apply get_dict_found|done].
  unfold get_bool in Hp, Hfl. rewrite Hb in Hp. rewrite Hbusy in Hfl. simpl in Hp, Hfl. subst b. split; [done|].
  by apply no_work_pending.
Qed.

(** ** Witnesses *)

Definition no_env (_ : string) : option string := None.
Definition quiet_measured : measured binary64 :=
  MkMeasured false EmptyString [] 0 false (f_of_Z 100) EmptyString fzero fzero fzero fzero [] [] [] "geak" [] 0 fzero [] false true.
Definition idle_queue : kernel_state binary64 := MkKernelState [] [] [] [] [] [] [] [] [] 0.
Definition all_phases : PhaseFlags := MkFlags true true true.
Definition nothing_in_flight : WorkInFlight := MkInFlight false false false.

(** The session of [swept] with what its sweep left behind. *)
Definition sweeping (last_conc : pydict binary64) (granted_until : binary64) : world binary64 :=
  MkWorld (set_cycle 0 0 (f_of_Z 5) [] (MkPerCycle 0 false 0 0 [] [] last_conc granted_until) swept) idle_queue quiet_measured.
Definition swept_world : world binary64 := sweeping [("status", PStr "succeeded")] fzero.
Definition swept_decision : option (string * string * pydict binary64) :=
  match compute_next_phase no_iso no_env (f_of_Z 3600) swept_world all_phases (f_of_Z 2000) (f_of_Z 2000) (f_of_Z 2000)
          nothing_in_flight true with Ok (d, _) => d | Raise _ => None end.
Definition swept_evidence : pydict binary64 := match swept_decision with Some (_, _, ev) => ev | None => [] end.
Definition reopened_world : world binary64 :=
  MkWorld
    match _commit_transition no_iso (w_session swept_world)
            (MkTransition PHASE_SWEEP PHASE_FRAMEWORK_AGENT "cycle_reloop" swept_evidence) EmptyString plain_plan
            "2026-01-01T00:00:00+00:00" (f_of_Z 2001) with Ok s => s | Raise _ => swept end
    idle_queue quiet_measured.

Lemma drive_bounded_by_gains_witness :
  macro_cycle (w_session reopened_world) = 1%Z ∧ phase_of (w_session reopened_world) = PHASE_FRAMEWORK_AGENT ∧ 1 <= 11 + 9 * 1.
Proof.
  assert (driven no_iso no_env (f_of_Z 3600) plain_plan swept_world 1 1 1 reopened_world) as Hd.
  { refine (driven_step _ _ _ _ _ 0 0 0 swept_world PHASE_FRAMEWORK_AGENT "cycle_reloop" swept_evidence reopened_world
              (driven_refl _ _ _ _ _) _).
    exists all_phases, (f_of_Z 2000), (f_of_Z 2000), (f_of_Z 2000), nothing_in_flight, true, swept_world, EmptyString,
      "2026-01-01T00:00:00+00:00", (f_of_Z 2001). split; vm_compute; reflexivity. }
  destruct (drive_bounded_by_gains no_iso no_env (f_of_Z 3600) plain_plan swept_world reopened_world 1 1 1)
    as (_ & _ & H1 & H2 & _); [vm_compute; find_in|reflexivity|exact Hd|].
  split; [exact H2|]. split; [vm_compute; reflexivity|exact H1].
Defined.

(** Nothing is left of the phase's share, and the granted sweep has a minute to go. *)
Lemma granted_sweep_holds_witness :
  compute_next_phase no_iso no_env (f_of_Z 3600) (sweeping [] (f_of_Z 90060)) all_phases (f_of_Z 90000) (f_of_Z 90000)
    (f_of_Z 90000) nothing_in_flight true = Ok (None, sweeping [] (f_of_Z 90060)).
Proof.
  apply (granted_sweep_holds no_iso no_env (f_of_Z 3600) (sweeping [] (f_of_Z 90060)) all_phases (f_of_Z 90000)
    (f_of_Z 90000) (f_of_Z 90000) nothing_in_flight true (f_of_Z 90060) (f_of_Z 10800)); vm_compute; reflexivity.
Defined.

(** KERNEL under a forge controller that completed this cycle. *)
Definition settled_kernel : world binary64 :=
  MkWorld
    (set_clock (MkClock PHASE_KERNEL_AGENT (f_of_Z 1000) EmptyString [] DEFAULT_PHASE_BUDGET_PCT 0 (f_of_Z 0) (f_of_Z 0)
                  (f_of_Z 900) EmptyString None 0) swept)
    (MkKernelState [] [] [] [] [] [] [("macro_cycle", PInt 0); ("status", PStr "completed"); ("patch_count", PInt 2)] [] [] 0)
    (MkMeasured false EmptyString [] 0 false (f_of_Z 100) EmptyString fzero fzero fzero fzero [] [] [] "forge" [] 0 fzero [] false
       true).
Definition settled_move : option (string * string * pydict binary64) * world binary64 :=
  match compute_next_phase no_iso no_env (f_of_Z 3600) settled_kernel all_phases (f_of_Z 2000) (f_of_Z 2000) (f_of_Z 2000)
          nothing_in_flight true with Ok r => r | Raise _ => (None, settled_kernel) end.

Lemma kernel_done_means_drained_witness :
  ∃ ev, settled_move.1 = Some (PHASE_SWEEP, "kernel_controller_done", ev) ∧
    ∃ rs, pending_kernel_integration_records (budget_env no_env) (w_kernel settled_kernel) = Ok (rs, w_kernel settled_move.2).
Proof.
  eexists. split; [vm_compute; reflexivity|].
  destruct (kernel_done_means_drained no_iso no_env (f_of_Z 3600) settled_kernel settled_move.2 all_phases (f_of_Z 2000)
    (f_of_Z 2000) (f_of_Z 2000) nothing_in_flight true "kernel_controller_done"
    match settled_move.1 with Some (_, _, ev) => ev | None => [] end) as (_ & (rs & H & _) & _);
    [vm_compute; reflexivity|vm_compute; reflexivity|by left|].
  exists rs. exact H.
Defined.
