(* ===== verification/ConfigRounds.v ===== *)
(** * The config lever is judged per benched round

    [_fold_config_rounds] folds the variants of the attempts ledger into rounds with a running index of
    positions.  Here it is shown equal to the grouping it stands for. *)

From stdpp Require Import base list strings pretty sets.
From Stdlib Require Import ZArith Lia.
From Stdlib Require String.
From S2P Require Import Prelude PyFloat PyVal PhaseChain PhaseMachine PhaseClock.
From S2P Require Import PhaseState Protocol OperatorName KernelQueue PhaseFacts.

Section grouping.
Context {F : Type} `{!FloatOps F}.
Implicit Types (row : pydict F).

(** A variant: the id of its round, and its gain when it was adopted. *)
Definition variant : Type := string * option F.
Implicit Types (v : variant) (vs : list variant).

Definition read_variant row : res variant :=
  if get_bool "adopted" row then
    let raw := dget_or_none "gain_pct" row in
    gain ← (if truthy raw then py_float raw else Ok fzero);
    Ok (get_str "round_id" row, Some gain)
  else Ok (get_str "round_id" row, None).

(** Variants with the same id are one round, a variant without one is its own. *)
Definition round_key (i : nat) v : string + nat := if String.eqb v.1 EmptyString then inr i else inl v.1.
Definition keyed vs : list ((string + nat) * variant) := imap (λ i v, (round_key i v, v)) vs.
Definition keys vs : list (string + nat) := dict_fromkeys [] (keyed vs).*1.

(** A round adopted when one of its variants did, and banked what those gained. *)
Definition round_of (k : string + nat) vs : config_round F :=
  MkRound (match k with inl id => id | inr _ => EmptyString end)
    (existsb (λ v, bool_decide (is_Some v.2)) vs) (fsum (omap snd vs)).
Definition members (k : string + nat) vs : list variant := snd <$> filter (λ kv, kv.1 = k) (keyed vs).
Definition grouped vs : list (config_round F) := (λ k, round_of k (members k vs)) <$> keys vs.

Lemma keyed_snoc vs v : keyed (vs ++ [v]) = keyed vs ++ [(round_key (length vs) v, v)].
Proof. unfold keyed. rewrite imap_app. simpl. by rewrite Nat.add_0_r. Qed.
Lemma keys_snoc vs v :
  keys (vs ++ [v]) = keys vs ++ (if decide (round_key (length vs) v ∈ keys vs) then [] else [round_key (length vs) v]).
Proof.
  unfold keys. rewrite keyed_snoc, fmap_app. simpl. rewrite fromkeys_snoc. f_equal.
  rewrite app_nil_r. repeat case_decide; try done; rewrite elem_of_fromkeys in *; set_solver.
Qed.
Lemma members_snoc k vs v :
  members k (vs ++ [v]) = members k vs ++ (if decide (round_key (length vs) v = k) then [v] else []).
Proof.
  unfold members. rewrite keyed_snoc, filter_app, fmap_app. f_equal. rewrite filter_cons, filter_nil. simpl.
  by case_decide.
Qed.
Lemma members_none k vs : k ∉ keys vs → members k vs = [].
Proof.
  intros Hk. unfold members. destruct (filter _ (keyed vs)) as [|kv l] eqn:E; [done|]. exfalso. apply Hk.
  assert (kv ∈ filter (λ kv, kv.1 = k) (keyed vs)) as H by (rewrite E; left).
  apply list_elem_of_filter in H as [<- H]. apply elem_of_fromkeys. split; [by apply list_elem_of_fmap_2|set_solver].
Qed.
Lemma fresh_index vs : inr (length vs) ∉ keys vs.
Proof.
  unfold keys. rewrite elem_of_fromkeys. intros [H _]. apply list_elem_of_fmap in H as ([k v] & E & H). simpl in E. subst k.
  unfold keyed in H. apply elem_of_lookup_imap in H as (i & v' & [= E ->] & Hi). unfold round_key in E.
  case_match; [|done]. injection E as E. apply lookup_lt_Some in Hi. lia.
Qed.

(** Adding a variant to its round. *)
Definition bank (o : option F) (r : config_round F) : config_round F :=
  match o with Some g => MkRound (cr_id r) true (fadd (cr_gain r) g) | None => r end.
Lemma round_of_snoc k vs v : round_of k (vs ++ [v]) = bank v.2 (round_of k vs).
Proof.
  unfold round_of, bank, fsum. rewrite existsb_app, omap_app, foldl_app. simpl. rewrite orb_false_r.
  destruct v as [id [g|]]; simpl; [by rewrite orb_true_r|by rewrite orb_false_r].
Qed.

Lemma grouped_snoc vs v :
  grouped (vs ++ [v]) =
    let k := round_key (length vs) v in
    if decide (k ∈ keys vs)
    then (λ k', if decide (k' = k) then bank v.2 (round_of k' (members k' vs)) else round_of k' (members k' vs)) <$> keys vs
    else grouped vs ++ [bank v.2 (MkRound v.1 false fzero)].
Proof.
  unfold grouped. rewrite keys_snoc. cbv zeta. set (k := round_key (length vs) v).
  assert (∀ k', round_of k' (members k' (vs ++ [v])) =
    if decide (k' = k) then bank v.2 (round_of k' (members k' vs)) else round_of k' (members k' vs)) as Hm.
  { intros k'. rewrite members_snoc. fold k. destruct (decide (k' = k)) as [->|Hne].
    - rewrite decide_True by done. by rewrite round_of_snoc.
    - rewrite decide_False by done. by rewrite app_nil_r. }
  case_decide as Hk.
  - rewrite app_nil_r. apply list_fmap_ext. intros i k' _. apply Hm.
  - rewrite fmap_app. simpl. f_equal.
    + apply list_fmap_ext. intros i k' Hi. rewrite Hm, decide_False; [done|]. intros ->. by apply Hk, (list_elem_of_lookup_2 _ i).
    + rewrite Hm, decide_True by done. rewrite (members_none k vs Hk). f_equal. f_equal.
      unfold round_of, k, round_key. destruct v as [id g]. simpl.
      destruct (String.eqb_spec id EmptyString) as [->|]; done.
Qed.

(** ** The fold *)

Implicit Types (rounds : list (config_round F)) (index : list (string * nat)).

(** The index knows where every named round is. *)
Definition index_ok vs index : Prop :=
  ∀ id, id ≠ EmptyString → ∀ pos, dget id index = Some pos ↔ keys vs !! pos = Some (inl id).

Lemma index_absent vs index id : index_ok vs index → id ≠ EmptyString → dget id index = None → inl id ∉ keys vs.
Proof.
  intros Hi Hid Hn Hin. apply list_elem_of_lookup in Hin as [pos Hp]. apply Hi in Hp; [|done]. by rewrite Hn in Hp.
Qed.

Lemma bank_read row r o id : read_variant row = Ok (id, o) → bank_variant row r = Ok (bank o r) ∧ id = get_str "round_id" row.
Proof.
  unfold read_variant, bank_variant. destruct (get_bool "adopted" row).
  - intros H. apply res_bind_ok in H as (g & -> & [= <- <-]). done.
  - by intros [= <- <-].
Qed.
Lemma bank_raises row r e : read_variant row = Raise e → bank_variant row r = Raise e.
Proof.
  unfold read_variant, bank_variant. destruct (get_bool "adopted" row); [|done].
  destruct (if truthy _ then _ else _) as [g|e']; [done|]. by intros [= <-].
Qed.

(** The position of the variant's round, with the round appended when it is new. *)
Definition placed rounds index (id : string) : nat * list (config_round F) * list (string * nat) :=
  match (if String.eqb id EmptyString then None else dget id index) with
  | Some pos => (pos, rounds, index)
  | None => (length rounds, rounds ++ [MkRound id false fzero],
             if String.eqb id EmptyString then index else dset id (length rounds) index)
  end.

Lemma placed_spec vs index (v : variant) :
  index_ok vs index →
  let '(pos, rounds', index') := placed (grouped vs) index v.1 in
  index_ok (vs ++ [v]) index' ∧ ∃ r, rounds' !! pos = Some r ∧ ∀ o, <[pos := bank o r]> rounds' = grouped (vs ++ [(v.1, o)]).
Proof.
  intros Hi. unfold placed. destruct v as [id o0]. cbn [fst].
  assert (length (grouped vs) = length (keys vs)) as Hlen by (unfold grouped; by rewrite length_fmap).
  destruct (String.eqb id EmptyString) eqn:Eid.
  - apply String.eqb_eq in Eid as ->.
    assert (∀ o, round_key (length vs) (EmptyString, o : option F) = inr (length vs)) as Hk by done.
    split.
    + intros id' Hne pos. rewrite keys_snoc, Hk, decide_False by apply fresh_index. rewrite (Hi id' Hne).
      rewrite lookup_app. destruct (keys vs !! pos) eqn:E; [done|]. split; [done|]. by destruct (pos - length (keys vs)) as [|[]].
    + exists (MkRound EmptyString false fzero). split; [by rewrite lookup_app_r, Nat.sub_diag by lia|]. intros o.
      rewrite grouped_snoc. cbv zeta. rewrite Hk, decide_False by apply fresh_index.
      rewrite insert_app_r_alt, Nat.sub_diag by lia. done.
  - apply String.eqb_neq in Eid as Hne.
    assert (∀ o, round_key (length vs) (id, o : option F) = inl id) as Hk by (intros o; unfold round_key; simpl; by rewrite Eid).
    destruct (dget id index) as [pos|] eqn:Ed.
    + apply (Hi id Hne) in Ed as Hpos. apply list_elem_of_lookup_2 in Hpos as Hin. split.
      { intros id' Hne' pos'. rewrite keys_snoc, Hk, decide_True by done. rewrite app_nil_r. by apply Hi. }
      exists (round_of (inl id) (members (inl id) vs)). split; [unfold grouped; by rewrite list_lookup_fmap, Hpos|].
      intros o. rewrite grouped_snoc. cbv zeta. rewrite Hk, decide_True by done. apply list_eq. intros i.
      rewrite list_lookup_fmap. unfold grouped. destruct (decide (i = pos)) as [->|Hip].
      * rewrite Hpos. simpl. rewrite decide_True by done. apply list_lookup_insert_eq. rewrite length_fmap. by eapply lookup_lt_Some.
      * rewrite list_lookup_insert_ne, list_lookup_fmap by done. destruct (keys vs !! i) as [k|] eqn:Ek; [|done]. simpl.
        rewrite decide_False; [done|]. intros ->. apply Hip. apply (NoDup_lookup (keys vs) i pos (inl id)); [apply NoDup_fromkeys|done|done].
    + pose proof (index_absent _ _ _ Hi Hne Ed) as Hout. split.
      * intros id' Hne' pos. rewrite keys_snoc, Hk, decide_False, Hlen by done. rewrite lookup_app.
        destruct (decide (id' = id)) as [->|Hd].
        -- rewrite dget_dset_eq. split.
           ++ intros [= <-]. rewrite lookup_ge_None_2 by lia. by rewrite Nat.sub_diag.
           ++ destruct (keys vs !! pos) as [k|] eqn:Ek.
              ** intros [= ->]. by apply list_elem_of_lookup_2 in Ek.
              ** apply lookup_ge_None_1 in Ek. intros H. destruct (pos - length (keys vs)) as [|[]] eqn:E; [|done..].
                 f_equal. lia.
        -- rewrite dget_dset_ne, (Hi id' Hne') by done. destruct (keys vs !! pos) eqn:Ek; [done|]. split; [done|].
           destruct (pos - length (keys vs)) as [|[]]; [|done..]. intros [= ->]. done.
      * exists (MkRound id false fzero). split; [by rewrite lookup_app_r, Nat.sub_diag by lia|]. intros o.
        rewrite grouped_snoc. cbv zeta. rewrite Hk, decide_False by done. by rewrite insert_app_r_alt, Nat.sub_diag by lia.
Qed.

Lemma fold_variants_snoc acc rows row :
  fold_variants acc (rows ++ [row]) = (acc' ← fold_variants acc rows; fold_variant acc' row).
Proof.
  revert acc. induction rows as [|x rows IH]; intros acc; simpl; [by destruct (fold_variant acc row)|].
  destruct (fold_variant acc x); simpl; [apply IH|done].
Qed.
Lemma map_res_snoc {A B} (f : A → res B) l x : map_res f (l ++ [x]) = (ys ← map_res f l; y ← f x; Ok (ys ++ [y])).
Proof.
  induction l as [|a l IH]; simpl; [by destruct (f x)|]. destruct (f a); simpl; [|done]. rewrite IH.
  destruct (map_res f l); simpl; [|done]. by destruct (f x).
Qed.

Lemma fold_variants_spec rows :
  match map_res read_variant rows with
  | Ok vs => ∃ index, fold_variants ([], []) rows = Ok (grouped vs, index) ∧ index_ok vs index
  | Raise e => fold_variants ([], []) rows = Raise e
  end.
Proof.
  induction rows as [|row rows IH] using rev_ind; [exists []; split; [done|]; by intros id _ pos|].
  rewrite map_res_snoc, fold_variants_snoc. destruct (map_res read_variant rows) as [vs|e]; [|by rewrite IH].
  destruct IH as (index & -> & Hi). cbn [mbind res_bind]. unfold fold_variant. fold (placed (grouped vs) index (get_str "round_id" row)).
  pose proof (placed_spec vs index (get_str "round_id" row, None) Hi) as Hp. cbn [fst] in Hp.
  destruct (placed _ _ _) as [[pos rounds'] index']. destruct Hp as (Hi' & r & Hr & Hins). rewrite Hr.
  destruct (read_variant row) as [[id o]|e] eqn:Ev; cbn [mbind res_bind].
  - destruct (bank_read row r o id Ev) as [-> ->]. cbn [mbind res_bind]. exists index'. rewrite Hins. split; [done|].
    unfold index_ok in *. rewrite keys_snoc in Hi' |- *. exact Hi'.
  - by rewrite (bank_raises row r e Ev).
Qed.
End grouping.

(** Equivalence.  The rounds the config lever is judged on are the grouping of its variants: one round per
    distinct round id, in the order the ids first appear, a variant without an id being a round of its own;
    a round adopted when any of its variants did, wherever in the grid that variant stands, and banked the
    gains of exactly those, in order; a gain that does not read as a float raises as reading it would. *)
Theorem config_rounds_grouped {F} `{!FloatOps F} (rows : list (pydict F)) :
  _fold_config_rounds rows = (vs ← map_res read_variant rows; Ok (grouped vs)).
Proof.
  unfold _fold_config_rounds. pose proof (fold_variants_spec rows) as H.
  destruct (map_res read_variant rows) as [vs|e]; [destruct H as (index & -> & _)|rewrite H]; done.
Qed.
