(* ===== verification/Admission.v ===== *)
(** * Admission ([loop/time_budget.py], the gates of [loop/dispatcher.py], [phases/dispatch_order.py])

    What an action is priced at, whether the session's and the phase's time can still fit it, and the gates a
    proposed action or kernel request passes before a task row exists for it.  The action catalogue is a
    parameter; the instants at which a gate reads the clock are arguments: [read1] for the session's budget,
    [read2] for the phase's.  A denial is the [PolicyDenied] the source returns. *)

From stdpp Require Import base list strings pretty sets.
From Stdlib Require Import ZArith Lia.
From Stdlib Require String.
From S2P Require Import Prelude PyFloat PyVal Store Tasks PhaseChain PhaseMachine PhaseClock.
From S2P Require Import PhaseState Protocol Specialists OperatorName KernelQueue PhaseFacts PhaseDrive.

(** ** Costs *)

Definition PHASE_BUDGET_GATED_PHASES : list string := ["FRAMEWORK_AGENT"; "KERNEL_AGENT"].
Definition _BENCH_SPECIALIST_STARTUP_MIN {F} `{!FloatOps F} : F := f_of_Z 10.
Definition TIME_BUDGET_EXEMPT_ACTIONS : list string := ["report"; "session_breakdown"].
Definition _GPU_BENCH_LANES : list string := ["benchmark_lane"; "profile_lane"].
Definition _SECONDS_PER_MINUTE {F} `{!FloatOps F} : F := f_of_Z 60.
Definition GPU_LEASE_TTL_GRACE {F} `{!FloatOps F} : F := f_lit 1 10.
Definition NO_LEASE_EXTENSION : string := "no_lease_extension".

(** What the gates read of a catalogue entry. *)
Record action_meta (F : Type) := MkMeta {
  typical_runtime_min : F;
  m_requires_lanes : list string;
  admission_rounds : Z;
  m_lease_ttl_sec : Z
}.
Arguments MkMeta {F} _ _ _ _.
Arguments typical_runtime_min {F} _.
Arguments m_requires_lanes {F} _.
Arguments admission_rounds {F} _.
Arguments m_lease_ttl_sec {F} _.

Section costs.
Context {F : Type} `{!FloatOps F}.
Implicit Types (w : world F) (meta : action_meta F) (p : list (string * json)).
Local Open Scope float_scope.

(** [max(0.0, shared_state.baseline_runtime_sec)] *)
Definition measured_baseline_runtime_sec w : F := fmax fzero (baseline_runtime_sec w).

Definition _action_benches_on_gpu (meta : option (action_meta F)) : bool :=
  match meta with
  | Some m => existsb (λ lane, bool_decide (lane ∈ _GPU_BENCH_LANES)) (m_requires_lanes m)
  | None => false
  end.

Definition expected_action_cost_minutes (meta : option (action_meta F)) (measured_baseline_sec : F) : F :=
  let catalogue_min := match meta with Some m => or_zero (Some (typical_runtime_min m)) | None => fzero end in
  match meta with
  | Some m =>
      if (measured_baseline_sec <=? fzero) || negb (_action_benches_on_gpu meta) then catalogue_min
      else if (0 <? admission_rounds m)%Z
      then f_of_Z (admission_rounds m) * measured_baseline_sec / _SECONDS_PER_MINUTE
      else fmax catalogue_min (measured_baseline_sec / _SECONDS_PER_MINUTE)
  | None => catalogue_min
  end.

(** [math.ceil(x)] *)
Definition py_ceil (x : F) : res Z :=
  if f_isfinite x then let t := f_trunc x in Ok (if f_of_Z t <? x then (t + 1)%Z else t)
  else if feqb x x then Raise (OverflowError "cannot convert float infinity to integer")
  else Raise (ValueError "cannot convert float NaN to integer").

Definition time_lease_ttl_sec meta (measured_baseline_sec : F) : res Z :=
  let expected_sec := _SECONDS_PER_MINUTE * expected_action_cost_minutes (Some meta) measured_baseline_sec in
  c ← py_ceil (expected_sec * (f_of_Z 1 + GPU_LEASE_TTL_GRACE));
  Ok (Z.max (m_lease_ttl_sec meta) c).

Definition action_fits_time_budget (usable_sec : option F) (expected_cost_minutes : F) : bool :=
  match usable_sec with
  | None => true
  | Some u => (expected_cost_minutes <=? fzero) || (expected_cost_minutes * _SECONDS_PER_MINUTE <=? u)
  end.

Context (parse_iso : string → option F).

(** The gated phase's remaining seconds: the phase name is compared without stripping. *)
Definition gated_phase_remaining_sec w (now : F) : option F :=
  if bool_decide (py_upper (c_phase (w_clock w)) ∈ PHASE_BUDGET_GATED_PHASES)
  then phase_budget_remaining_seconds parse_iso (w_clock w) now else None.

Definition specialist_admission_minutes w p : F :=
  let floor_min := f_of_Z (wall_budget_base_min p) in
  if reserves_benchmark_lane (resolve_specialist_profile p None)
  then fmax floor_min (measured_baseline_runtime_sec w / _SECONDS_PER_MINUTE + _BENCH_SPECIALIST_STARTUP_MIN)
  else floor_min.

(** [f"{x:.0f}"] of a finite non-negative float. *)
Definition format_0f (x : F) : string := pretty (f_trunc (fround 0 x)).

Definition _cost_exceeds (action : string) (expected_cost_minutes : F) (usable_sec : option F) (budget : string) : string :=
  "action=" +:+ repr_str action +:+ " denied: needs ~" +:+ format_0f expected_cost_minutes +:+ " min but only "
    +:+ format_0f (or_zero usable_sec / _SECONDS_PER_MINUTE) +:+ " min of " +:+ budget +:+ " is left".

Definition time_budget_denial (action : string) (expected_cost_minutes : F) w (read1 read2 : F) : option exn :=
  let session_sec := session_budget_usable_sec parse_iso (w_clock w) None read1 in
  if negb (action_fits_time_budget session_sec expected_cost_minutes)
  then Some (PolicyDenied "time_budget" (_cost_exceeds action expected_cost_minutes session_sec "the session budget"))
  else
    let phase_sec := gated_phase_remaining_sec w read2 in
    if negb (action_fits_time_budget phase_sec expected_cost_minutes)
    then Some (PolicyDenied "phase_time_budget"
           (_cost_exceeds action expected_cost_minutes phase_sec ("the " +:+ c_phase (w_clock w) +:+ " phase budget")))
    else None.

(** ** Gates *)

Context (registry : string → option (action_meta F)).

Definition dispatch_paused_for_phase_budget w (now : F) : bool :=
  match gated_phase_remaining_sec w now with Some r => r <=? fzero | None => false end.

Definition registry_lanes_ttl (known : list string) w (k : string) : res (list string * Z) :=
  match registry k with
  | None => Ok ([], 0%Z)
  | Some meta =>
      ttl ← time_lease_ttl_sec meta (measured_baseline_runtime_sec w);
      Ok (filter (λ lane, lane ∈ known) (m_requires_lanes meta), ttl)
  end.

Definition cycle_idem_suffix w : string := if (0 <? w_cycle w)%Z then "-c" +:+ pretty (w_cycle w) else EmptyString.

Definition _phase_denial_for_action w (action_name : string) : option exn :=
  let action := py_strip action_name in
  let phase := norm_phase (c_phase (w_clock w)) in
  if String.eqb phase EmptyString || bool_decide (action ∈ allowed_actions_for phase) then None
  else Some (PolicyDenied "phase_incompatible"
         ("action=" +:+ repr_str action +:+ " is not proposable while the phase is " +:+ repr_str phase)).

Definition sequence_actions : list string := ["target_analysis"; "baseline"; "report"; "integrate"; "explore"].
Definition _sequence_denial_for_action w (action_name : string) : option exn :=
  let action := py_strip action_name in
  if negb (bool_decide (action ∈ sequence_actions)) then None
  else if negb (String.eqb (stop_reason (w_session w)) EmptyString) then None
  else if (baseline_tput w <=? fzero) && negb (bool_decide (action ∈ ["baseline"; "target_analysis"]))
  then Some (PolicyDenied "execution_order" ("action=" +:+ repr_str action +:+ " denied: baseline must run first"))
  else None.

Definition admission_cost_minutes w (action_name : string) : F :=
  expected_action_cost_minutes (registry action_name) (measured_baseline_runtime_sec w).

Definition time_budget_denial_for_action w (action_name : string) (fallback_cost_minutes : option F) p (read1 read2 : F)
    : option exn :=
  let action := py_strip action_name in
  if String.eqb action EmptyString || bool_decide (action ∈ TIME_BUDGET_EXEMPT_ACTIONS) then None
  else if negb (String.eqb (stop_reason (w_session w)) EmptyString) then None
  else
    match (match registry action with
           | Some _ => Some (admission_cost_minutes w action)
           | None => fallback_cost_minutes
           end) with
    | None => None
    | Some expected_min =>
        let expected_min := if String.eqb action "specialist"
                            then fmax expected_min (specialist_admission_minutes w p) else expected_min in
        time_budget_denial action expected_min w read1 read2
    end.

(** [a or b] of denials. *)
Definition first_denial (a b : option exn) : option exn := match a with Some x => Some x | None => b end.

(** Every gate, the first denial winning.  [grid] is what [explore_grid_denial] answers. *)
Definition admission_denial_for_action w (action_name : string) p (db : DB) (find_gap : string → option (list (string * json)))
    (grid : option exn) (read1 read2 : F) : option exn :=
  first_denial (_phase_denial_for_action w action_name)
    (first_denial (_sequence_denial_for_action w action_name)
      (first_denial (specialist_in_flight_denial action_name p db find_gap)
        (first_denial (time_budget_denial_for_action w action_name None p read1 read2) grid))).

Definition KERNEL_REQUEST_HANDLERS : list string := ["trace_analyze"; "integrate"; "apply_patch"].
Definition REQUEST_KIND_TO_OWNED_ACTION : list (string * string) :=
  [("run_gemm_tuning", "gemm_tuning"); ("integrate", "integrate"); ("apply_patch", "integrate")].

Definition admission_denial_for_request w (target_agent k : string) (read1 read2 : F) : option exn :=
  let target := py_strip target_agent in
  let req_kind := py_strip k in
  if negb (String.eqb target "kernel_agent") || negb (String.eqb (stop_reason (w_session w)) EmptyString) then None
  else if String.eqb req_kind "trace_analyze" then None
  else if negb (bool_decide (req_kind ∈ KERNEL_REQUEST_HANDLERS)) then None
  else if baseline_tput w <=? fzero
  then Some (PolicyDenied "execution_order" ("request kind=" +:+ repr_str req_kind +:+ " denied: baseline must run first"))
  else time_budget_denial_for_action w (default req_kind (dget req_kind REQUEST_KIND_TO_OWNED_ACTION)) None [] read1 read2.

(** The price of a queued row: the catalogue's, or its lease when it has none. *)
Definition queued_task_denial w (t : task) (read1 read2 : F) : option exn :=
  time_budget_denial_for_action w (kind t)
    (if (0 <? lease_ttl_sec t)%Z then Some (f_of_Z (lease_ttl_sec t) / _SECONDS_PER_MINUTE) else None) (params t) read1 read2.

(** ** Deadlines *)

(** Whichever of two stop instants comes first; [None] does not bound. *)
Definition tightened_to (at_ : F) (other : option F) : F :=
  match other with None => at_ | Some o => if at_ <=? o then at_ else o end.

(** [rebench_timeout] is [resolve_benchmark_timeouts()[1]]. *)
Definition _specialist_wall_budget_sec w p (rebench_timeout : F) : F :=
  let cap_min := f_of_Z 240 in
  let base_min := f_of_Z (wall_budget_base_min p * (w_cycle w + 1)) in
  let budget_sec := (if get_bool NO_LEASE_EXTENSION p then cap_min else fmin base_min cap_min) * f_of_Z 60 in
  if reserves_benchmark_lane (resolve_specialist_profile p None)
  then fmax budget_sec (rebench_timeout + f_of_Z 600) else budget_sec.

(** Instants on the monotonic clock, [mono] being its reading. *)
Definition session_deadline w (now mono : F) : option F :=
  if (c_max (w_clock w) =? 0)%Z then None
  else Some (mono + (f_of_Z (c_max (w_clock w)) - elapsed_minutes parse_iso (w_clock w) now) * f_of_Z 60).
Definition phase_deadline w (now mono : F) : option F :=
  match gated_phase_remaining_sec w now with Some r => Some (mono + r) | None => None end.
(** Each of the three instants is anchored at its own reading of the monotonic clock, [mono1] to [mono3]. *)
Definition _specialist_deadline w p (rebench_timeout mono1 now2 mono2 now3 mono3 : F) : F :=
  tightened_to (tightened_to (mono1 + _specialist_wall_budget_sec w p rebench_timeout) (session_deadline w now2 mono2))
    (phase_deadline w now3 mono3).
(** [later] is the reading of [remaining()]. *)
Definition gpu_lease_ttl_sec w p (floor_ttl_sec : Z) (rebench_timeout mono1 now2 mono2 now3 mono3 later : F) : res Z :=
  let stop_at := _specialist_deadline w p rebench_timeout mono1 now2 mono2 now3 mono3 in
  c ← py_ceil (fmax fzero (stop_at - later) * (f_of_Z 1 + GPU_LEASE_TTL_GRACE));
  Ok (Z.max floor_ttl_sec c).
End costs.

(** ** Dispatch order *)

Definition PHASE_DISPATCH_FIRST : list (string * list string) := [(PHASE_FRAMEWORK_AGENT, ["integrate_patch"])].

Definition is_operator_work (k : string) (p : list (string * json)) : bool :=
  if String.eqb k "specialist" then String.eqb (get_str "domain" p) CUSTOM_SPECIALIST_KEY
  else String.eqb k "explore" && get_bool "operator_priority" p.

Definition tier (phase : string) (t : task) : nat :=
  if is_operator_work (kind t) (params t) then 0
  else if bool_decide (kind t ∈ default [] (dget phase PHASE_DISPATCH_FIRST)) then 1 else 2.

Definition in_dispatch_order (ts : list task) (phase : string) : list task :=
  sort_by (λ a b, (tier phase a <=? tier phase b)%nat) ts.

(** * Properties *)

(** The price the time gate puts on an action the catalogue knows. *)
Definition admission_price {F} `{!FloatOps F} (registry : string → option (action_meta F)) (w : world F) (action : string)
    (p : list (string * json)) : F :=
  let expected := admission_cost_minutes registry w action in
  if String.eqb action "specialist" then fmax expected (specialist_admission_minutes w p) else expected.

Lemma fits_time_budget {F} `{!FloatOps F} (usable cost : F) :
  action_fits_time_budget (Some usable) cost = true →
  fleb cost fzero = true ∨ fleb (fmul cost _SECONDS_PER_MINUTE) usable = true.
Proof. unfold action_fits_time_budget. by intros [?|?]%orb_true_iff; [left|right]. Qed.

(** Inserting a row moves it past the rows of lower tiers only. *)
Lemma insert_tier {A} (key : A → nat) x l1 l2 :
  (∀ y, y ∈ l1 → key y < key x) → (∀ y, y ∈ l2 → key x ≤ key y) →
  sort_insert (λ a b, (key a <=? key b)%nat) x (l1 ++ l2) = l1 ++ x :: l2.
Proof.
  intros H1 H2. induction l1 as [|y l1 IH]; simpl.
  - destruct l2 as [|y l2]; [done|]. simpl. rewrite (proj2 (Nat.leb_le _ _)); [done|]. apply H2. left.
  - rewrite (proj2 (Nat.leb_gt _ _)) by (apply H1; left). f_equal. apply IH. intros z Hz. apply H1. by right.
Qed.

Lemma tier_bound phase t : tier phase t = 0 ∨ tier phase t = 1 ∨ tier phase t = 2.
Proof. unfold tier. repeat case_match; auto. Qed.

(** * Claims *)

(** Equivalence.  The dispatch order is three queues one after the other: the operator's rows, then the kinds
    the phase puts first, then the rest, each in the order the rows were created. *)
Theorem dispatch_order_is_three_queues ts phase :
  in_dispatch_order ts phase =
    filter (λ t, tier phase t = 0) ts ++ filter (λ t, tier phase t = 1) ts ++ filter (λ t, tier phase t = 2) ts.
Proof.
  unfold in_dispatch_order, sort_by. induction ts as [|t ts IH]; [done|]. simpl. rewrite IH, !filter_cons.
  destruct (tier_bound phase t) as [E|[E|E]]; rewrite E; simpl.
  - apply (insert_tier (tier phase) t []); [set_solver|]. rewrite E. lia.
  - apply (insert_tier (tier phase) t); rewrite E; intros y; rewrite ?elem_of_app, !list_elem_of_filter; intuition lia.
  - rewrite !app_assoc. apply (insert_tier (tier phase) t); rewrite E; intros y; rewrite ?elem_of_app, !list_elem_of_filter; intuition lia.
Qed.

(** Safety.  An action that passes every gate while the session is not stopping is one its phase may propose,
    comes after the baseline where the order demands it, and, unless it is exempt, has a price that both the
    session's and the gated phase's remaining time can pay. *)
Theorem admitted_action_fits {F} `{!FloatOps F} (parse_iso : string → option F) (registry : string → option (action_meta F))
    (w : world F) action_name p db find_gap grid read1 read2 :
  let action := py_strip action_name in
  let phase := norm_phase (c_phase (w_clock w)) in
  stop_reason (w_session w) = EmptyString →
  admission_denial_for_action parse_iso registry w action_name p db find_gap grid read1 read2 = None →
  (phase = EmptyString ∨ action ∈ allowed_actions_for phase) ∧
  (action ∈ ["report"; "integrate"; "explore"] → fleb (baseline_tput w) fzero = false) ∧
  (∀ meta usable, registry action = Some meta → action ≠ EmptyString → action ∉ TIME_BUDGET_EXEMPT_ACTIONS →
     session_budget_usable_sec parse_iso (w_clock w) None read1 = Some usable ∨
     gated_phase_remaining_sec parse_iso w read2 = Some usable →
     fleb (admission_price registry w action p) fzero = true ∨
     fleb (fmul (admission_price registry w action p) _SECONDS_PER_MINUTE) usable = true).
Proof.
  intros action phase Hstop. unfold admission_denial_for_action, first_denial.
  destruct (_phase_denial_for_action w action_name) eqn:Hp; [done|].
  destruct (_sequence_denial_for_action w action_name) eqn:Hs; [done|].
  destruct (specialist_in_flight_denial _ _ _ _); [done|].
  destruct (time_budget_denial_for_action _ _ _ _ _ _ _ _) eqn:Ht; [done|]. intros _. split_and!.
  - unfold _phase_denial_for_action in Hp. fold phase action in Hp.
    destruct (String.eqb phase EmptyString || bool_decide (action ∈ allowed_actions_for phase)) eqn:E; [|done].
    apply orb_true_iff in E as [?%String.eqb_eq|?%bool_decide_eq_true]; auto.
  - intros Ha. unfold _sequence_denial_for_action in Hs. fold action in Hs. rewrite Hstop in Hs. simpl in Hs.
    rewrite bool_decide_eq_true_2 in Hs by (unfold sequence_actions; set_solver). simpl in Hs.
    rewrite (bool_decide_eq_false_2 (action ∈ ["baseline"; "target_analysis"])) in Hs.
    + destruct (fleb (baseline_tput w) fzero); [done|done].
    + revert Ha. clear. generalize action. apply Forall_forall. apply (bool_decide_unpack _). vm_compute. exact I.
  - intros meta usable Hm Hne Hex Hu. unfold time_budget_denial_for_action in Ht. fold action in Ht.
    rewrite (proj2 (String.eqb_neq _ _) Hne), bool_decide_eq_false_2, Hstop, Hm in Ht by done. simpl in Ht.
    fold (admission_price registry w action p) in Ht. unfold time_budget_denial in Ht.
    destruct (action_fits_time_budget (session_budget_usable_sec _ _ _ _) _) eqn:F1; [|done]. simpl in Ht.
    destruct (action_fits_time_budget (gated_phase_remaining_sec _ _ _) _) eqn:F2; [|done].
    destruct Hu as [Hu|Hu]; rewrite Hu in *; by apply fits_time_budget.
Qed.

(** * Witnesses *)

(** A session of five hours in its framework phase, and an exploration priced at half an hour. *)
Definition working_world : world binary64 :=
  MkWorld (set_clock (MkClock PHASE_FRAMEWORK_AGENT (f_of_Z 1000) EmptyString [] DEFAULT_PHASE_BUDGET_PCT 300 (f_of_Z 0) (f_of_Z 0)
    (f_of_Z 900) EmptyString None 0) swept) idle_queue quiet_measured.
Definition explore_catalogue (k : string) : option (action_meta binary64) :=
  if String.eqb k "explore" then Some (MkMeta (f_of_Z 30) ["benchmark_lane"] 0 600) else None.
Definition phase_seconds_left : binary64 :=
  match gated_phase_remaining_sec no_iso working_world (f_of_Z 2000) with Some r => r | None => fzero end.

Lemma admitted_action_fits_witness :
  fleb (fmul (f_of_Z 30) _SECONDS_PER_MINUTE) phase_seconds_left = true ∧ fleb (f_of_Z 120) phase_seconds_left = true.
Proof.
  destruct (admitted_action_fits no_iso explore_catalogue working_world " explore" [] seeded_db (λ _, None) None (f_of_Z 2000)
    (f_of_Z 2000)) as (_ & _ & H); [reflexivity|vm_compute; reflexivity|].
  split; [|vm_compute; reflexivity].
  destruct (H (MkMeta (f_of_Z 30) ["benchmark_lane"] 0 600) phase_seconds_left) as [E|E];
    [vm_compute; reflexivity|done|by apply (bool_decide_unpack _); vm_compute|right; vm_compute; reflexivity| |].
  - vm_compute in E. discriminate E.
  - vm_compute in E |- *. exact E.
Defined.
