(* ===== verification/Reconcile.v ===== *)
(** * Queueing refused patches again ([loop/dispatcher.py])

    An [integrate_patch] row the gate cancelled at dispatch, because its review verdict was missing, is
    queued again under a fresh key once the verdict is there.  The pump runs this every tick, so it has to
    settle: a pass right after a pass does nothing. *)

From stdpp Require Import base list strings gmap pretty sets sorting.
From Stdlib Require Import ZArith Lia.
From Stdlib Require String.
From S2P Require Import Prelude PyFloat PyVal PyTime Store Lanes Tasks PhaseChain PhaseMachine Protocol Specialists.
From S2P Require Import PolicyGate PolicyRules OperatorName KernelQueue.

(** ** The pass *)

(** The refusal a row was cancelled with at dispatch, the latest first; an entry that is no dict raises. *)
Fixpoint denied_evidence (entries : list json) : res (list (string * json)) :=
  match entries with
  | [] => Ok []
  | entry :: rest =>
      d ← attr_get entry;
      if negb (is_str "queued" (dget_or_none "from" d)) || negb (is_str "cancelled" (dget_or_none "to" d))
      then denied_evidence rest
      else
        evidence ← (if truthy (dget_or_none "evidence" d) then attr_get (dget_or_none "evidence" d) else Ok []);
        if is_str "policy_denied" (dget_or_none "reason" evidence) then Ok evidence else denied_evidence rest
  end.
Definition _dispatch_policy_denied_evidence (t : task) : res (list (string * json)) := denied_evidence (reverse (history t)).

Definition CRITIC_RULE : string := "integrate_patch_requires_critic_verdict".

(** A session without a policy gate reconciles nothing; this one has a gate. *)
Section reconcile.
Context (h : host) (state : gate_state binary64) (gate : PolicyGate binary64).
Context (provider : option (list (string * json))).

(** Whether a cancelled row is a refused patch that passes now. *)
Definition reconcilable (t : task) : res bool :=
  if negb (String.eqb (kind t) INTEGRATE_PATCH_ACTION_NAME) then Ok false
  else
    evidence ← _dispatch_policy_denied_evidence t;
    if bool_decide (evidence = []) then Ok false
    else if negb (String.eqb (get_str "rule" evidence) CRITIC_RULE) then Ok false
    else
      let sid := verdict_subject (params t) in
      if String.eqb sid EmptyString then Ok false
      else if negb (bool_decide (py_lower (py_strip (get_specialist_patch_verdict state sid)) ∈ INTEGRATE_PATCH_PERMISSIVE_VERDICTS))
      then Ok false
      else
        match validate_dispatched_task h gate (kind t) (PDict (params t)) EmptyString with
        | Raise (PolicyDenied _ _) => Ok false
        | Raise x => Raise x
        | Ok () => Ok true
        end.

Definition child_key_prefix (t : task) : string :=
  py_strip (if String.eqb (idempotency_key t) EmptyString then "integrate-" +:+ task_id t else idempotency_key t)
    +:+ "-reconcile".
Definition child_spec (t : task) (attempt : nat) : TaskSpec :=
  MkSpec (kind t) (params t) (child_key_prefix t +:+ pretty (N.of_nat attempt)) (Some (requires_lanes t)) (lease_ttl_sec t) None
    (Some "coordinator") None.

(** A child that is still to run, runs, or succeeded. *)
Definition standing (st : task_state) : bool := bool_decide (st ∈ [Succeeded; Queued; Running]).
Definition has_standing_child (t : task) (db : DB) : bool :=
  existsb (λ c, standing (t_state c)) (with_key_prefix (kind t) (child_key_prefix t) db).

(** The first free key of the row's five. *)
Fixpoint create_child (e : env) (t : task) (attempts : list nat) : Io DB (option string) :=
  match attempts with
  | [] => mret None
  | n :: rest =>
      r ← create_or_return_existing e provider (child_spec t n);
      let '(child, was_existing) := (r : task * bool) in
      if was_existing then create_child e t rest else mret (Some (task_id child))
  end.
Definition reconcile_attempts : list nat := [1; 2; 3; 4; 5].

Definition reconcile_row (e : env) (t : task) : Io DB (option string) :=
  ok ← io_lift (reconcilable t);
  if negb (ok : bool) then mret None
  else
    standing ← io_gets (has_standing_child t);
    if (standing : bool) then mret None else create_child e t reconcile_attempts.

(** The rows are read once; each creation has its own environment. *)
Fixpoint reconcile_rows (es : nat → env) (n : nat) (ts : list task) : Io DB (list string) :=
  match ts with
  | [] => mret []
  | t :: ts =>
      created ← reconcile_row (es n) t;
      rest ← reconcile_rows es (S n) ts;
      mret (option_list created ++ rest)
  end.

Definition _reconcile_cancelled_policy_denied_integrate_tasks (es : nat → env) : Io DB (list string) :=
  ts ← (λ db, (by_state "cancelled" db, db));
  reconcile_rows es 0 ts.
End reconcile.

(** * Properties *)

Section rules.
Context (h : host) (state : gate_state binary64) (gate : PolicyGate binary64) (provider : option (list (string * json))).

(** The table grows by rows that were just queued. *)
Definition grows (db db' : DB) : Prop := ∃ ts, tasks db' = tasks db ++ ts ∧ Forall (λ t, t_state t = Queued) ts.

#[global] Instance grows_preorder : PreOrder grows.
Proof.
  split.
  - intros db. exists []. by rewrite app_nil_r.
  - intros db1 db2 db3 (ts1 & E1 & H1) (ts2 & E2 & H2). exists (ts1 ++ ts2). rewrite E2, E1, app_assoc. split; [done|].
    by apply Forall_app.
Qed.

Lemma grows_cancelled db db' : grows db db' → by_state "cancelled" db' = by_state "cancelled" db.
Proof.
  intros (ts & E & Hts). unfold by_state, in_state. simpl. rewrite E, filter_app, (list_filter_none _ ts), app_nil_r; [done|].
  intros t Ht. rewrite Forall_forall in Hts. by rewrite (Hts t Ht).
Qed.

Lemma grows_key db db' k t : grows db db' → find_by_idempotency_key db k = Some t → find_by_idempotency_key db' k = Some t.
Proof.
  intros (ts & E & _). unfold find_by_idempotency_key. rewrite E.
  destruct (list_find _ (tasks db)) as [[i t0]|] eqn:Hf; [|done]. intros [= <-]. by rewrite (list_find_app_l _ _ _ _ _ Hf).
Qed.

Lemma has_standing_child_true t db :
  has_standing_child t db = true ↔
  ∃ c, c ∈ tasks db ∧ kind c = kind t ∧ py_startswith (child_key_prefix t) (idempotency_key c) = true ∧ standing (t_state c) = true.
Proof.
  unfold has_standing_child, with_key_prefix. rewrite existsb_exists. setoid_rewrite <- list_elem_of_In.
  setoid_rewrite merge_sort_Permutation. setoid_rewrite list_elem_of_filter. naive_solver.
Qed.
Lemma grows_standing t db db' : grows db db' → has_standing_child t db = true → has_standing_child t db' = true.
Proof.
  rewrite !has_standing_child_true. intros (ts & E & _) (c & Hc & H). exists c. split; [|done]. rewrite E. apply elem_of_app. by left.
Qed.

Lemma create_again e e' s db db' t db2 :
  create_or_return_existing e provider s db = (Ok (t, true), db') → grows db db2 →
  create_or_return_existing e' provider s db2 = (Ok (t, true), db2).
Proof.
  intros H Hg. unfold create_or_return_existing, create_lookup, io_lift, io_gets, mbind, io_bind in *.
  destruct (_validate_dispatch_class _); [|done].
  destruct (find_by_idempotency_key db (sp_key s)) as [t0|] eqn:Hf.
  - rewrite (grows_key _ _ _ _ Hg Hf). destruct (_validate_dispatch_reuse t0 _); [|done]. by injection H as -> _.
  - exfalso. unfold mret, io_ret in H.
    by destruct (create_insert_result e provider s db) as [(? & E)|(? & ? & _ & _ & _ & _ & E)]; rewrite E in H.
Qed.

Lemma complete_origin_same s :
  sp_kind (complete_origin provider s) = sp_kind s ∧ sp_params (complete_origin provider s) = sp_params s ∧
  sp_key (complete_origin provider s) = sp_key s.
Proof. unfold complete_origin. by repeat case_match. Qed.

(** The child of a row: the same patch under one of the row's five keys. *)
Definition child_of (t c : task) : Prop :=
  kind c = kind t ∧ params c = params t ∧ t_state c = Queued ∧
  ∃ n, n ∈ reconcile_attempts ∧ idempotency_key c = child_key_prefix t +:+ pretty (N.of_nat n).

Lemma create_child_result e t ns db r db' :
  ns ⊆ reconcile_attempts → create_child provider e t ns db = (Ok r, db') →
  match r with
  | None => db' = db ∧ ∀ e' db2, grows db db2 → create_child provider e' t ns db2 = (Ok None, db2)
  | Some id => ∃ c, child_of t c ∧ task_id c = id ∧ tasks db' = tasks db ++ [c]
  end.
Proof.
  revert db. induction ns as [|n ns IH]; intros db Hns; simpl; [by intros [= <- <-]|]. unfold mbind, io_bind.
  destruct (create_or_return_existing e provider (child_spec t n) db) as [[[c []]|x] db1] eqn:E; [| |done].
  - destruct (create_existing _ _ _ _ _ _ E) as [-> _]. intros H. apply IH in H; [|set_solver]. destruct r; [done|].
    destruct H as [-> H]. split; [done|]. intros e' db2 Hg. rewrite (create_again _ e' _ _ _ _ _ E Hg). by apply H.
  - intros [= <- <-]. destruct (create_fresh _ _ _ _ _ _ E) as (s' & hist & -> & _ & _ & _ & -> & -> & _ & _).
    destruct (complete_origin_same (child_spec t n)) as (Hk & Hp & Hkey).
    exists (new_task e (complete_origin provider (child_spec t n)) hist). split; [|done].
    split_and!; [done..|]. exists n. split; [set_solver|done].
Qed.

Lemma prefix_app p s : py_startswith p (p +:+ s) = true.
Proof. unfold py_startswith. induction p as [|c p IH]; simpl; [by destruct s|]. by destruct (Ascii.ascii_dec c c). Qed.

Lemma reconcilable_inv t :
  reconcilable h state gate t = Ok true →
  kind t = INTEGRATE_PATCH_ACTION_NAME ∧
  py_lower (py_strip (get_specialist_patch_verdict state (verdict_subject (params t)))) ∈ INTEGRATE_PATCH_PERMISSIVE_VERDICTS ∧
  validate_dispatched_task h gate (kind t) (PDict (params t)) EmptyString = Ok ().
Proof.
  unfold reconcilable. destruct (String.eqb_spec (kind t) INTEGRATE_PATCH_ACTION_NAME) as [Hk|]; [|discriminate].
  cbn [negb]. intros (evidence & _ & H)%res_bind_ok. case_bool_decide; [discriminate|].
  destruct (String.eqb (get_str "rule" evidence) CRITIC_RULE); [cbn [negb] in H|discriminate H].
  destruct (String.eqb (verdict_subject (params t)) EmptyString); [discriminate H|].
  match type of H with context [bool_decide ?P] => destruct (bool_decide_reflect P) as [Hv|]; [|discriminate H] end.
  cbn [negb] in H. split; [exact Hk|]. split; [exact Hv|].
  destruct (validate_dispatched_task _ _ _ _ _) as [[]|[]]; first [reflexivity|discriminate H].
Qed.

(** What one row of a pass does, and that it does nothing more once done. *)
Lemma reconcile_row_result e t db r db1 :
  reconcile_row h state gate provider e t db = (Ok r, db1) →
  (match r with
   | None => db1 = db
   | Some id => reconcilable h state gate t = Ok true ∧ ∃ c, child_of t c ∧ task_id c = id ∧ tasks db1 = tasks db ++ [c]
   end) ∧ ∀ e' db2, grows db1 db2 → reconcile_row h state gate provider e' t db2 = (Ok None, db2).
Proof.
  unfold reconcile_row, mbind, io_bind, io_lift, io_gets.
  destruct (reconcilable h state gate t) as [[]|x]; [|by intros [= <- <-]|done]. cbn [negb].
  destruct (has_standing_child t db) eqn:Hs.
  - intros [= <- <-]. split; [done|]. intros e' db2 Hg. by rewrite (grows_standing _ _ _ Hg Hs).
  - intros H. apply create_child_result in H; [|done]. destruct r as [id|].
    + destruct H as (c & Hc & Hid & E). split; [eauto 10|]. intros e' db2 (ts & E2 & _).
      rewrite (proj2 (has_standing_child_true t db2)); [done|]. exists c. destruct Hc as (Hk & _ & Hq & n & _ & Hkey).
      split_and!; [rewrite E2, E; set_solver|done|rewrite Hkey; apply prefix_app|by rewrite Hq].
    + destruct H as [-> H]. split; [done|]. intros e' db2 Hg. destruct (has_standing_child t db2); [done|by apply H].
Qed.

Lemma reconcile_rows_result es n ts db ids db1 :
  reconcile_rows h state gate provider es n ts db = (Ok ids, db1) →
  (∃ cs, tasks db1 = tasks db ++ cs ∧ task_id <$> cs = ids ∧
     ∀ c, c ∈ cs → ∃ t, t ∈ ts ∧ reconcilable h state gate t = Ok true ∧ child_of t c) ∧
  ∀ es' n' db2, grows db1 db2 → reconcile_rows h state gate provider es' n' ts db2 = (Ok [], db2).
Proof.
  revert n db ids. induction ts as [|t ts IH]; intros n db ids; simpl.
  { intros [= <- <-]. split; [|done]. exists []. rewrite app_nil_r. split_and!; [done..|]. by intros c []%not_elem_of_nil. }
  unfold mbind, io_bind. destruct (reconcile_row _ _ _ _ _ t db) as [[r|x] dba] eqn:Hr; [|done].
  destruct (reconcile_rows _ _ _ _ es (S n) ts dba) as [[rest|x] dbb] eqn:Hrest; [|done]. intros [= <- <-].
  apply reconcile_row_result in Hr as [Hr Hagain]. apply IH in Hrest as [(cs & E & Hids & Hcs) Hnext].
  assert (Forall (λ c, t_state c = Queued) cs) as Hq.
  { apply Forall_forall. intros c Hc. by destruct (Hcs c Hc) as (? & _ & _ & _ & _ & ? & _). }
  split.
  - destruct r as [id|]; [|subst dba; exists cs; split_and!; [done..|]; intros c Hc; destruct (Hcs c Hc) as (u & ? & ?); exists u; set_solver].
    destruct Hr as (Hok & c0 & Hc0 & Hid & E0). exists (c0 :: cs). rewrite E, E0, <- app_assoc, fmap_cons, Hid, Hids.
    split_and!; [done..|]. intros c [->|Hc]%elem_of_cons; [exists t; split; [left|done]|].
    destruct (Hcs c Hc) as (u & ? & ?). exists u. set_solver.
  - intros es' n' db2 Hg. rewrite Hagain; [by rewrite Hnext|]. etrans; [|exact Hg]. by exists cs.
Qed.
End rules.

(** * Claims *)

(** Functional.  Reconciling is safe and settles.  Whatever a pass queues is a second try of an [integrate_patch]
    row that the gate had cancelled for a missing verdict: the same parameters under one of the row's five
    keys, with a verdict that now permits it and past the whole dispatch gate.  A pass that follows it, under
    the same verdicts, queues nothing and changes nothing. *)
Theorem reconcile_settles h state gate provider es es' db ids db' :
  _reconcile_cancelled_policy_denied_integrate_tasks h state gate provider es db = (Ok ids, db') →
  (∃ cs, tasks db' = tasks db ++ cs ∧ task_id <$> cs = ids ∧
     ∀ c, c ∈ cs → ∃ t, t ∈ tasks db ∧ t_state t = Cancelled ∧ kind t = INTEGRATE_PATCH_ACTION_NAME ∧ child_of t c ∧
       py_lower (py_strip (get_specialist_patch_verdict state (verdict_subject (params t)))) ∈ INTEGRATE_PATCH_PERMISSIVE_VERDICTS ∧
       validate_dispatched_task h gate (kind t) (PDict (params t)) EmptyString = Ok ()) ∧
  _reconcile_cancelled_policy_denied_integrate_tasks h state gate provider es' db' = (Ok [], db').
Proof.
  unfold _reconcile_cancelled_policy_denied_integrate_tasks, mbind, io_bind.
  destruct (by_state "cancelled" db) as [ts|x] eqn:Hts; [|done]. intros H.
  apply reconcile_rows_result in H as [(cs & E & Hids & Hcs) Hagain]. split.
  - exists cs. split_and!; [done..|]. intros c Hc. destruct (Hcs c Hc) as (t & Ht & Hok & Hch). exists t.
    unfold by_state in Hts. simpl in Hts. injection Hts as <-. rewrite merge_sort_Permutation in Ht.
    apply list_elem_of_filter in Ht as [Hst Hin]. apply reconcilable_inv in Hok as (Hk & Hv & Hg). done.
  - rewrite (grows_cancelled db db'), Hts; [apply (Hagain es' 0 db'); reflexivity|]. exists cs. split; [done|].
    apply Forall_forall. intros c Hc. by destruct (Hcs c Hc) as (? & _ & _ & _ & _ & ? & _).
Qed.

(** ** Witness *)

(** A patch cancelled before its review arrived, and the review. *)
Definition patch_spec : TaskSpec :=
  MkSpec INTEGRATE_PATCH_ACTION_NAME [("specialist_task_id", PStr "s7")] "patch-7" None 600 (Some "t7") (Some "llm")
    (Some (task_dispatch_origin "FRAMEWORK_AGENT" 0 3)).
Definition refused_db : DB :=
  (transition sample_env "t7" "cancelled"
     [("reason", PStr "policy_denied"); ("rule", PStr CRITIC_RULE); ("error", PStr "no verdict")]
     (create_or_return_existing sample_env None patch_spec seeded_db).2).2.
Definition reviewed : gate_state binary64 :=
  record_specialist_patch_verdict (MkGateState "FRAMEWORK_AGENT" false [] []) "s7" "Approve".
Definition reviewed_gate : PolicyGate binary64 := MkGate default_role_registry (Some "/work/s1") (Some reviewed) unread_facts.
Definition reconciled : DB :=
  (_reconcile_cancelled_policy_denied_integrate_tasks demo_host reviewed reviewed_gate
     (Some (task_dispatch_origin "FRAMEWORK_AGENT" 0 9)) (λ _, sample_env) refused_db).2.

Lemma reconcile_settles_witness :
  idempotency_key <$> tasks reconciled = ["patch-7"; "patch-7-reconcile1"] ∧
  _reconcile_cancelled_policy_denied_integrate_tasks demo_host reviewed reviewed_gate
    (Some (task_dispatch_origin "FRAMEWORK_AGENT" 0 9)) (λ _, later_env) reconciled = (Ok [], reconciled).
Proof.
  destruct (reconcile_settles demo_host reviewed reviewed_gate (Some (task_dispatch_origin "FRAMEWORK_AGENT" 0 9))
    (λ _, sample_env) (λ _, later_env) refused_db [uuid4_hex sample_env] reconciled) as [_ H]; [vm_compute; reflexivity|].
  split; [vm_compute; reflexivity|exact H].
Defined.

(** ** Twins *)

(** The review is withdrawn before the second try runs, so that it is refused too, and then restored. *)
Definition refused_twice : DB :=
  (transition later_env (uuid4_hex sample_env) "cancelled"
     [("reason", PStr "policy_denied"); ("rule", PStr CRITIC_RULE); ("error", PStr "rejected")] reconciled).2.
Definition fresh_env (n : nat) : env :=
  Env (now_iso later_env) (now_unix later_env) (getpid later_env) (local_owner_scope later_env) (pid_alive later_env)
    ("task-" +:+ pretty (N.of_nat n)).

(** Functional.  A second try that was refused as well is reconciled as a row of its own beside the row it
    stands for: the guard against a standing child looks only below each row's own key, so one pass queues
    the same patch twice. *)
Theorem reconcile_queues_twins :
  let '(ids, db) := _reconcile_cancelled_policy_denied_integrate_tasks demo_host reviewed reviewed_gate
                      (Some (task_dispatch_origin "FRAMEWORK_AGENT" 0 9)) fresh_env refused_twice in
  ids = Ok ["task-0"; "task-1"] ∧
  (λ t, (idempotency_key t, params t)) <$> queued db =
    [("patch-7-reconcile2", sp_params patch_spec); ("patch-7-reconcile1-reconcile1", sp_params patch_spec)].
Proof. vm_compute. split; reflexivity. Qed.
