(* ===== verification/Runner.v ===== *)
(** * Running one task ([loop/sub_agent_runner.py])

    [SubAgentRunner.run_task]: the policy gate is replayed, the row is claimed, the executor runs, and the
    execution is settled: its terminal row is written and what it held is given back.  The executor is the
    one await of any length, so a run is modelled in two parts around it, [claim] and [end_of_run]; what the
    executor does in between is a value of [executor_end].  [gate] is what replaying the policy gate gives for
    the task, and [release_resources] the execution's own release of its cards. *)

From stdpp Require Import base list strings gmap sorting.
From Stdlib Require Import ZArith Lia.
From Stdlib Require String.
From S2P Require Import Prelude PyFloat PyVal PyTime Store Lanes GpuPool Tasks.

Abbreviation jdict := (list (string * json)).

Record SubAgentResult := MkResult {
  sr_task_id : string;
  sr_state : task_state;      (* succeeded, failed or cancelled *)
  sr_result : jdict;
  sr_error : option string;
  sr_error_class : string
}.

(** [dataclasses.asdict] of a result. *)
Definition asdict (r : SubAgentResult) : json :=
  PDict [("task_id", PStr (sr_task_id r)); ("state", PStr (state_str (sr_state r))); ("result", PDict (sr_result r));
         ("error", match sr_error r with Some e => PStr e | None => PNone end); ("error_class", PStr (sr_error_class r))].

(** What awaiting an executor ends in.  An exception is given by its class name and its [repr]. *)
Inductive executor_end :=
| Returned (payload : jdict)
| FuturesCancelled (msg : string)
| ExecutorRaised (cls repr : string)
| HardCancelled                                                           (* asyncio.CancelledError *)
| CleanupFailed (result : option SubAgentResult) (pgid : option Z) (repr : string). (* ExecutionCleanupUnconfirmed *)

(** What [run_task] raises. *)
Inductive run_error :=
| Interrupted                                        (* asyncio.CancelledError *)
| Unconfirmed (result : option SubAgentResult) (pgid : option Z) (repr : string)
| Other (e : exn).

(** The second half of [_execute]: the outcome and the evidence of its row, or what is raised. *)
Definition executed (t : task) (x : executor_end) : (SubAgentResult * jdict) + run_error :=
  match x with
  | Returned payload =>
      inl (MkResult (task_id t) Succeeded payload None EmptyString,
           [("result_keys", PList (PStr <$> py_sorted payload.*1))])
  | FuturesCancelled msg =>
      inl (MkResult (task_id t) Cancelled [("status", PStr "cancelled"); ("reason", PStr msg)] (Some msg) "cancelled",
           [("reason", PStr msg)])
  | ExecutorRaised cls repr => inl (MkResult (task_id t) Failed [] (Some repr) cls, [("error", PStr repr)])
  | HardCancelled => inr Interrupted
  | CleanupFailed result pgid repr => inr (Unconfirmed result pgid repr)
  end.

Section runner.
Context (e : env).
(** The registered executors, by kind. *)
Context (executor_registry : list string).

Definition _write_terminal (tid : string) (new_state : task_state) (evidence : jdict) : Io DB unit := λ db,
  match transition e tid (state_str new_state) evidence db with
  | (Ok _, db') => (Ok (), db')
  | (Raise (IllegalTransition _), db') => append_completion_evidence e tid evidence db'
  | (Raise x, db') => (Raise x, db')
  end.

(** The first half of [_execute]: an outcome decided without the executor, or [None] once the row is claimed
    and the executor is awaited. *)
Definition claim (gate : res unit) (t : task) (l : option lease) : Io DB (option (SubAgentResult * jdict)) :=
  match gate with
  | Raise (PolicyDenied rule error) =>
      mret (Some (MkResult (task_id t) Cancelled [] (Some error)
                    ("policy_" +:+ (if String.eqb rule EmptyString then "denied" else rule)),
                  [("reason", PStr "policy_denied"); ("rule", PStr rule); ("error", PStr error)]))
  | Raise x => io_raise x
  | Ok () =>
      if bool_decide (l = None) && negb (bool_decide (requires_lanes t = [])) then
        io_raise (ValueError ("task " +:+ task_id t +:+ " (" +:+ kind t +:+ ") requires lanes "
                    +:+ py_repr (PList (PStr <$> requires_lanes t) : json) +:+ " but was dispatched without a lease"))
      else
        _ ← transition e (task_id t) "running" [];
        if bool_decide (kind t ∈ executor_registry) then mret None
        else mret (Some (MkResult (task_id t) Failed [] (Some ("no runner registered for kind=" +:+ repr_str (kind t))) "no_executor",
                         [("reason", PStr "no_executor"); ("kind", PStr (kind t))]))
  end.

(** The evidence of the terminal row. *)
Definition terminal_evidence (evidence : jdict) (outcome : SubAgentResult) (confirmed : bool) (cleanup_error : option (string * option Z))
    : jdict :=
  let evidence := dmerge evidence [("outcome", asdict outcome); (CLEANUP_CONFIRMED_KEY, PBool confirmed)] in
  if confirmed then evidence
  else
    let evidence := dset "cleanup_error"
      (PStr (match cleanup_error with Some (repr, _) => repr | None => "physical cleanup unconfirmed" end)) evidence in
    match cleanup_error with
    | Some (_, Some pgid) => if (pgid =? 0)%Z then evidence else dset CLEANUP_TREE_PGID_KEY (PInt pgid) evidence
    | _ => evidence
    end.

(** [repr] of an exception, as the evidence has it. *)
Context (exn_repr : exn → string).

(** [_settle_execution]: what it raises itself, if anything, and the database it leaves. *)
Definition _settle_execution (t : task) (outcome : option SubAgentResult) (evidence : jdict) (error : option run_error)
    (l : option lease) (release_resources : option (Io DB bool)) (db : DB) : option run_error * DB :=
  match error with
  | Some Interrupted => (None, db)
  | _ =>
      let unconfirmed := match error with Some (Unconfirmed _ pgid repr) => Some (repr, pgid) | _ => None end in
      (* release_resources(), unless the executor already failed to clean up *)
      let '(released, raised, db) :=
        match unconfirmed, release_resources with
        | Some _, _ => (false, None, db)
        | None, None => (true, None, db)
        | None, Some release =>
            match release db with
            | (Ok b, db) => (b, None, db)
            | (Raise x, db) => (false, Some x, db)
            end
        end in
      let cleanup_error := match raised with Some x => Some (exn_repr x, None) | None => unconfirmed end in
      let confirmed := released && negb (bool_decide (is_Some cleanup_error)) in
      let '(wrote, db) :=
        match outcome with
        | Some o => _write_terminal (task_id t) (sr_state o) (terminal_evidence evidence o confirmed cleanup_error) db
        | None => (Ok (), db)
        end in
      match wrote with
      | Raise x => (Some (Other x), db)
      | Ok () =>
          let db := match l with
                    | Some l => if bool_decide (is_Some outcome) || confirmed then (release l db).2 else db
                    | None => db
                    end in
          (match raised, unconfirmed with
           | Some AsyncCancelled, _ => Some Interrupted
           | Some (ExecutionCleanupUnconfirmed msg), _ => Some (Unconfirmed outcome None msg)
           | Some _, _ => Some (Unconfirmed outcome None ("task=" +:+ task_id t +:+ ": physical cleanup unconfirmed"))
           | None, Some _ => None
           | None, None => if confirmed then None
                           else Some (Unconfirmed outcome None ("task=" +:+ task_id t +:+ ": physical cleanup unconfirmed"))
           end, db)
      end
  end.

(** The end of [run_task]: what it returns or raises once [_execute] has returned or raised. *)
Definition end_of_run (t : task) (l : option lease) (release_resources : option (Io DB bool))
    (x : (SubAgentResult * jdict) + run_error) (db : DB) : (SubAgentResult + run_error) * DB :=
  match x with
  | inl (outcome, evidence) =>
      let '(raised, db) := _settle_execution t (Some outcome) evidence None l release_resources db in
      (match raised with None => inl outcome | Some err => inr err end, db)
  | inr err =>
      let outcome := match err with Unconfirmed result _ _ => result | _ => None end in
      let '(raised, db) := _settle_execution t outcome [] (Some err) l release_resources db in
      (inr (match raised with None => err | Some err' => err' end), db)
  end.

(** A run whose executor is never awaited: refused by the gate, rejected by the claim, or without a runner. *)
Definition run_unclaimed (t : task) (l : option lease) (release_resources : option (Io DB bool))
    (claimed : res (option (SubAgentResult * jdict))) (db : DB) : option ((SubAgentResult + run_error) * DB) :=
  match claimed with
  | Ok None => None
  | Ok (Some done) => Some (end_of_run t l release_resources (inl done) db)
  | Raise x => Some (end_of_run t l release_resources (inr (Other x)) db)
  end.
End runner.
