(* ===== verification/Dispatcher.v ===== *)
(** * The dispatcher ([loop/dispatcher.py]) and the transition barrier ([phases/machine.py])

    Queued rows become executions: the pump cancels rows the time left cannot fit, takes the lanes and the
    cards a row needs, and starts it; the execution claims the row, runs it, gives back what it held and queues
    its completion; a phase transition freezes admission, clears the queue and waits until nothing runs.

    The state is the session database with the dispatcher's in-process tables.  Coroutines interleave at
    their awaits: an execution is a [job] whose stages are separate operations, and a pass over the queue
    visits rows that may have changed since it read them.  Calls that write the session state rather than
    the database are recorded, in order, in [d_notes].  Readings of the environment (Ray, the GPU pools, the
    policy gate, the clock) are arguments. *)

From stdpp Require Import base list strings gmap pretty sets sorting.
From Stdlib Require Import ZArith Lia.
From Stdlib Require String.
From S2P Require Import Prelude PyFloat PyVal PyTime Store Lanes GpuPool Tasks Bus PhaseChain PhaseMachine.
From S2P Require Import PhaseClock PhaseState Protocol Specialists PolicyGate OperatorName KernelQueue PhaseFacts Admission Runner.

(** ** State *)

Definition _SELF_SETTLING_KINDS : list string := ["targeted_build"; "kernel_agent"].

(** [HeldLeases], the Ray lease by whether there is one. *)
Record HeldLeases := MkHeld {
  prebound_lease : option lease;
  h_gpu_lease : option gpu_lease;
  h_gpu_specialist_lease : bool
}.

(** An execution: its coroutine created; its dispatch recorded; past its claim with the executor awaited; or
    cancelled out of that await, which leaves its worker possibly alive. *)
Inductive stage := Created | Recorded | Awaiting | Abandoned.
#[global] Instance stage_eq_dec : EqDecision stage.
Proof. solve_decision. Defined.

(** One call of [run_task_registered] that got its lanes; two calls for one row are two jobs. *)
Record job := MkJob {
  j_no : nat;
  j_task : task;
  j_held : HeldLeases;
  j_books : bool;             (* a completion is queued when it returns *)
  j_stage : stage
}.
Definition j_id (j : job) : string := task_id (j_task j).

(** Calls into the session state. *)
Inductive note :=
| SpecialistDispatched (domain : string)
| SweepSkipped (denied : string).

Record dispatcher := MkDispatcher {
  d_db : DB;
  d_inflight : list (string * string);               (* _inflight_actions: the kind of each *)
  d_jobs : list job;                                 (* the executions that have not ended *)
  d_execution_of : list (string * nat);              (* _execution_of: the newest execution of a row *)
  d_count : nat;                                     (* numbers the executions *)
  d_completions : list (task * SubAgentResult);      (* _completion_queue *)
  admission_frozen : bool;
  d_notes : list note
}.

Definition set_db (db : DB) (d : dispatcher) : dispatcher :=
  MkDispatcher db (d_inflight d) (d_jobs d) (d_execution_of d) (d_count d) (d_completions d) (admission_frozen d) (d_notes d).
Definition set_tables (inflight : list (string * string)) (jobs : list job) (d : dispatcher) : dispatcher :=
  MkDispatcher (d_db d) inflight jobs (d_execution_of d) (d_count d) (d_completions d) (admission_frozen d) (d_notes d).
Definition set_execution_of (execs : list (string * nat)) (d : dispatcher) : dispatcher :=
  MkDispatcher (d_db d) (d_inflight d) (d_jobs d) execs (d_count d) (d_completions d) (admission_frozen d) (d_notes d).
Definition set_completions (q : list (task * SubAgentResult)) (d : dispatcher) : dispatcher :=
  MkDispatcher (d_db d) (d_inflight d) (d_jobs d) (d_execution_of d) (d_count d) q (admission_frozen d) (d_notes d).
Definition set_frozen (b : bool) (d : dispatcher) : dispatcher :=
  MkDispatcher (d_db d) (d_inflight d) (d_jobs d) (d_execution_of d) (d_count d) (d_completions d) b (d_notes d).
Definition add_note (n : note) (d : dispatcher) : dispatcher :=
  MkDispatcher (d_db d) (d_inflight d) (d_jobs d) (d_execution_of d) (d_count d) (d_completions d) (admission_frozen d) (d_notes d ++ [n]).

(** The action is registered and its execution begins. *)
Definition register (t : task) (held : HeldLeases) (books : bool) (d : dispatcher) : dispatcher :=
  MkDispatcher (d_db d) (dset (task_id t) (kind t) (d_inflight d)) (d_jobs d ++ [MkJob (d_count d) t held books Created])
    (d_execution_of d) (S (d_count d)) (d_completions d) (admission_frozen d) (d_notes d).

(** A database operation of the dispatcher. *)
Definition on_db {A} (m : Io DB A) : Io dispatcher A := λ d, let '(r, db) := m (d_db d) in (r, set_db db d).
Definition modify (f : dispatcher → dispatcher) : Io dispatcher unit := λ d, (Ok (), f d).

(** ** Admitting a row *)

(** [int(capacities.get(lane, 1))] against [int(holders.get(lane, 0))], for every lane. *)
Definition _lanes_fit (expanded : list string) (holders : list (string * nat)) (capacities : gmap string Z) : bool :=
  forallb (λ lane, let cap := default 1%Z (capacities !! lane) in
                   (0 <? cap)%Z && (Z.of_nat (default 0%nat (dget lane holders)) <? cap)%Z) expanded.

Definition bump (holders : list (string * nat)) (lane : string) : list (string * nat) :=
  dset lane (S (default 0 (dget lane holders))) holders.
Definition drop_holder (holders : list (string * nat)) (lane : string) : list (string * nat) :=
  dset lane (pred (default 0 (dget lane holders))) holders.

(** The lease TTL of a row, a minute when it has none. *)
Definition row_ttl (t : task) : Z := if (lease_ttl_sec t =? 0)%Z then 60 else lease_ttl_sec t.

(** The local view of the holders grows with the lanes taken. *)
Definition _admit_lanes (e : env) (t : task) (holders : list (string * nat)) (capacities : gmap string Z)
    : Io DB (option lease * list (string * nat)) :=
  if decide (requires_lanes t = []) then mret (None, holders)
  else
    match _expand_lanes (requires_lanes t) with
    | Raise (ValueError _) => mret (None, holders)
    | Raise x => io_raise x
    | Ok expanded =>
        if negb (_lanes_fit expanded holders capacities) then mret (None, holders)
        else
          l ← acquire_many e (requires_lanes t) (task_id t) (task_id t) (kind t) (row_ttl t);
          match l with
          | None => mret (None, holders)
          | Some l => mret (Some l, foldl bump holders (lease_lanes l))
          end
    end.

(** What is read of Ray and of the GPU pools around one admission. *)
Record gpu_env := MkGpuEnv {
  serving_busy : bool;          (* ray_serving_priority_enabled() and serving_slot_busy() *)
  whole_machine : bool;         (* as requires_gpu reads it *)
  ge_serving_tp : Z;            (* serving_tp_for_policy *)
  framework_gpu_pool : list Z;
  gpu_specialist_pool : list Z;
  ray_exec : bool;              (* ray_exec_enabled() *)
  ray_pending_limit : Z;        (* ray_gpu_pending_limit() *)
  ray_lease : bool              (* maybe_gpu_specialist_lease is not None *)
}.

(** [x or y] of ints. *)
Definition int_or (x y : Z) : Z := if (x =? 0)%Z then y else x.

(** The pool a specialist draws its cards from, and how many it asks for. *)
Definition gpu_request (g : gpu_env) (p : list (string * json)) : list Z * Z :=
  let tp := ge_serving_tp g in
  let pool := if uses_whole_machine_gpu_lane p then framework_gpu_pool g else gpu_specialist_pool g in
  let default_gpu_count :=
    if negb (uses_whole_machine_gpu_lane p) then int_or tp 1
    else if is_authoring_specialist p then int_or (gpu_capacity pool) 1
    else int_or (int_or tp (gpu_capacity pool)) 1 in
  let gpu_count := int_or (default 0%Z (to_int (dget_or_none "gpu_count" p))) default_gpu_count in
  (pool, if is_truthy (dget_or_none "bench" p) false && (0 <? tp)%Z && (gpu_count <? tp)%Z then tp else gpu_count).

(** [None] keeps the row queued. *)
Definition _admit_gpu_specialist (g : gpu_env) (t : task) (l : option lease) : Io DB (option HeldLeases) :=
  if negb (requires_gpu (whole_machine g) (params t)) then mret (Some (MkHeld l None false))
  else if serving_busy g then mret None
  else
    let '(pool, gpu_count) := gpu_request g (params t) in
    gl ← (if ray_exec g then try_acquire_ray_observation (task_id t) (task_id t) (ray_pending_limit g)
          else try_acquire pool gpu_count (task_id t) (task_id t));
    match gl with
    | None => mret None
    | Some gl => mret (Some (MkHeld l (Some gl) (ray_exec g && ray_lease g)))
    end.

(** Drop a queued row the budget can no longer fit; [denied] is the time gate's answer for it, whose hint the
    observation repeats in the source and not here. *)
Definition _cancel_queued_task_over_budget (e : env) (t : task) (denied : option exn) : Io dispatcher bool := λ d,
  match denied with
  | Some (PolicyDenied rule error) =>
      match transition e (task_id t) "cancelled" [("reason", PStr rule); ("error", PStr error)] (d_db d) with
      | (Raise (TaskNotFound _), db) | (Raise (IllegalTransition _), db) => (Ok true, set_db db d)
      | (Raise x, db) => (Raise x, set_db db d)
      | (Ok _, db) =>
          (_ ← on_db (record_observation e "coordinator" "observation"
                 [("kind", PStr "dispatch_denied_time_budget"); ("task_id", PStr (task_id t)); ("action", PStr (kind t));
                  ("error", PStr error)]);
           _ ← modify (if String.eqb (kind t) "conc_sweep" then add_note (SweepSkipped error) else id);
           mret true) (set_db db d)
      end
  | _ => (Ok false, d)
  end.

(** One row of a pass, in the parts its awaits divide it into.  The holders are the pass's local view.

    First: a row already in flight is passed over, and one the budget cannot fit is dropped. *)
Definition spawn_begin (e : env) (denied : option exn) (t : task) : Io dispatcher bool := λ d,
  if din (task_id t) (d_inflight d) then (Ok false, d)
  else (over ← _cancel_queued_task_over_budget e t denied; mret (negb over)) d.
(** Second: its lanes, if it asks for any; [None] passes it over. *)
Definition spawn_lanes (e : env) (capacities : gmap string Z) (t : task) (holders : list (string * nat))
    : Io dispatcher (option (option lease) * list (string * nat)) :=
  lh ← on_db (_admit_lanes e t holders capacities);
  let '(l, holders) := (lh : option lease * list (string * nat)) in
  if bool_decide (l = None) && negb (bool_decide (requires_lanes t = [])) then mret (None, holders)
  else mret (Some l, holders).
(** Third: the cards of a specialist. *)
Definition spawn_cards (g : gpu_env) (t : task) (l : option lease) : Io dispatcher (option HeldLeases) :=
  if String.eqb (kind t) "specialist" then on_db (_admit_gpu_specialist g t l) else mret (Some (MkHeld l None false)).
(** Last: the row is started, or its lanes go back. *)
Definition spawn_start (t : task) (held : HeldLeases) (d : dispatcher) : dispatcher :=
  (if String.eqb (kind t) "specialist" then add_note (SpecialistDispatched (get_str "domain" (params t))) else id)
    (register t held (negb (bool_decide (kind t ∈ _SELF_SETTLING_KINDS))) d).
Definition spawn_back (l : option lease) (holders : list (string * nat)) : Io dispatcher (list (string * nat)) :=
  match l with
  | Some l => _ ← on_db (release l); mret (foldl drop_holder holders (lease_lanes l))
  | None => mret holders
  end.

(** The row without interruption. *)
Definition spawn_one (e : env) (g : gpu_env) (denied : option exn) (capacities : gmap string Z) (t : task)
    (holders : list (string * nat)) : Io dispatcher (list (string * nat)) :=
  on ← spawn_begin e denied t;
  if (on : bool) then
    lh ← spawn_lanes e capacities t holders;
    let '(l, holders) := (lh : option (option lease) * list (string * nat)) in
    match l with
    | None => mret holders
    | Some l =>
        held ← spawn_cards g t l;
        match (held : option HeldLeases) with
        | None => spawn_back l holders
        | Some held => _ ← modify (spawn_start t held); mret holders
        end
    end
  else mret holders.

Fixpoint spawn_all (e : env) (g : gpu_env) (denial : task → option exn) (capacities : gmap string Z) (ts : list task)
    (holders : list (string * nat)) : Io dispatcher unit :=
  match ts with
  | [] => mret ()
  | t :: ts => holders ← spawn_one e g (denial t) capacities t holders; spawn_all e g denial capacities ts holders
  end.

Definition _spawn_fitting_queued (e : env) (g : gpu_env) (denial : task → option exn) (phase : string) : Io dispatcher unit := λ d,
  spawn_all e g denial (lane_capacities (d_db d)) (in_dispatch_order (queued (d_db d)) phase) (lane_holders (d_db d)) d.

(** ** Running a job *)

(** [release_resources] of an execution; [close] is what closing its Ray lease gives. *)
Definition release_resources (h : HeldLeases) (close : res json) : Io DB bool :=
  if bool_decide (h_gpu_lease h = None) && negb (h_gpu_specialist_lease h) then mret true
  else release_execution (h_gpu_lease h) (if h_gpu_specialist_lease h then Some close else None).

(** The done callback of an execution: forget it, unless a newer one replaced it. *)
Definition _forget_execution (j : job) (d : dispatcher) : dispatcher :=
  if decide (dget (j_id j) (d_execution_of d) = Some (j_no j))
  then set_execution_of (filter (λ kv, kv.1 ≠ j_id j) (d_execution_of d)) d else d.

(** An execution ends, and its action is forgotten or stays registered. *)
Definition drop_execution (j : job) (d : dispatcher) : dispatcher :=
  _forget_execution j (set_tables (d_inflight d) (filter (λ j', j_no j' ≠ j_no j) (d_jobs d)) d).
Definition drop_job (j : job) (d : dispatcher) : dispatcher :=
  drop_execution j (set_tables (filter (λ kv, kv.1 ≠ j_id j) (d_inflight d)) (d_jobs d) d).

(** [_record_dispatch_evidence] when the write failed: everything goes back and the row stays queued; a release
    that raises leaves the lanes held and the action registered. *)
Definition refuse_dispatch (j : job) (close : res json) (d : dispatcher) : dispatcher :=
  match release_resources (j_held j) close (d_db d) with
  | (Raise _, db) => drop_execution j (set_db db d)
  | (Ok _, db) =>
      let db := match prebound_lease (j_held j) with Some l => (release l db).2 | None => db end in
      drop_job j (set_db db d)
  end.

Definition set_stage (s : stage) (j : job) (d : dispatcher) : dispatcher :=
  set_tables (d_inflight d)
    ((λ j', if decide (j_no j' = j_no j) then MkJob (j_no j') (j_task j') (j_held j') (j_books j') s else j') <$> d_jobs d) d.

(** The dispatch is recorded and the execution created behind its shield. *)
Definition record_dispatch (j : job) (d : dispatcher) : dispatcher :=
  set_execution_of (dset (j_id j) (j_no j) (d_execution_of d)) (set_stage Recorded j d).

(** The end of [execute_and_complete]: a returned result is queued and the action is forgotten; after an
    exception the action stays registered, and the ended asyncio task stays in [_executions], which only the
    shutdown reads. *)
Definition conclude (j : job) (r : (SubAgentResult + run_error) * DB) (d : dispatcher) : dispatcher :=
  let d := set_db r.2 d in
  match r.1 with
  | inl result =>
      drop_job j (if j_books j then set_completions (d_completions d ++ [(j_task j, result)]) d else d)
  | inr _ => drop_execution j d
  end.

Section running.
Context (e : env) (executor_registry : list string) (exn_repr : exn → string).

(** From creation to the executor, or to the end of a run that never reaches it. *)
Definition claim_job (gate : res unit) (close : res json) (j : job) (d : dispatcher) : dispatcher :=
  let '(claimed, db) := claim e executor_registry gate (j_task j) (prebound_lease (j_held j)) (d_db d) in
  match run_unclaimed e exn_repr (j_task j) (prebound_lease (j_held j)) (Some (release_resources (j_held j) close)) claimed db with
  | None => set_stage Awaiting j (set_db db d)
  | Some r => conclude j r d
  end.

(** From the executor's end to the execution's. *)
Definition finish_job (x : executor_end) (close : res json) (j : job) (d : dispatcher) : dispatcher :=
  match x with
  | HardCancelled => _forget_execution j (set_stage Abandoned j d)
  | _ => conclude j (end_of_run e exn_repr (j_task j) (prebound_lease (j_held j)) (Some (release_resources (j_held j) close))
                       (executed (j_task j) x) (d_db d)) d
  end.
End running.

(** A direct [run_task_registered], outside the pump, on either side of its one await: [None] when its lanes
    were busy.  It does not look at the row nor at what is in flight.  Its caller books the result itself, so
    nothing is queued. *)
Definition inline_lanes (e : env) (t : task) : Io dispatcher (option (option lease)) :=
  if decide (requires_lanes t = []) then mret (Some None)
  else r ← on_db (acquire_many e (requires_lanes t) (task_id t) (task_id t) (kind t) (row_ttl t));
       mret (match (r : option lease) with None => None | Some l => Some (Some l) end).
Definition inline_start (t : task) (l : option lease) (d : dispatcher) : dispatcher := register t (MkHeld l None false) false d.

(** ** Completions and the pump *)

Definition has_unbooked_completions (d : dispatcher) : bool := negb (bool_decide (length (d_completions d) = 0)).

(** The execution of the task is running, or its completion waits to be booked. *)
Definition owes_result (tid : string) (d : dispatcher) : bool :=
  if String.eqb tid EmptyString then false
  else din tid (d_execution_of d)
       || existsb (λ c, String.eqb (task_id c.1) tid) (d_completions d).

(** ** The transition barrier ([phases/machine.py]) *)

(** Cancel what the target does not admit, then hold while anything runs or waits to be booked.  [stopped] are
    the tasks a terminal transition asked to stop, which is theirs to answer. *)
Definition _drain_for_transition (e : env) (prior target reason : string) (stopped : list string) : Io dispatcher bool :=
  let barrier_reason := "phase_transition:" +:+ py_upper (py_strip prior) +:+ "->" +:+ target in
  cancelled ← on_db (cancel_queued e (actions_of PHASE_ALLOWED_ACTIONS target) barrier_reason);
  _ ← (if bool_decide (cancelled = []) && bool_decide (stopped = []) then mret ()
       else on_db (record_observation e "coordinator" "observation"
              [("kind", PStr "tasks_cancelled_on_phase_transition"); ("prior_phase", PStr prior); ("target_phase", PStr target);
               ("reason", PStr reason); ("cancelled_task_ids", PList (PStr <$> (cancelled : list string)));
               ("stopped_task_ids", PList (PStr <$> stopped))]));
  io_gets (λ d, bool_decide (length (running (d_db d)) = 0) && negb (has_unbooked_completions d)).

(** Tasks of the given kinds that are queued or running. *)
Definition work_of (kinds : list string) (db : DB) : bool :=
  existsb (λ t, bool_decide (py_strip (kind t) ∈ kinds)) (queued db ++ running db).
Definition _prelude_work_in_flight (db : DB) : bool := work_of (actions_of PHASE_ALLOWED_ACTIONS PHASE_PRELUDE) db.
Definition _agent_in_flight (db : DB) : bool := existsb (λ t, String.eqb (kind t) "kernel_agent") (queued db ++ running db).

Definition _LEVERAGE_EXIT_REASON : string := "optimize_no_more_leverage".
Definition is_leverage_exit (next_phase : string * string * pydict float) : bool :=
  String.eqb next_phase.1.2 _LEVERAGE_EXIT_REASON.

Section advance.
Context (e : env) (parse_iso : string → option float) (getenv : string → option string) (round_grant : float).
Context (registry : string → option (action_meta float)) (plan : session float → pydict float).

(** The current phase, as the machine compares it. *)
Definition upper_phase (w : world float) : string := py_upper (c_phase (w_clock w)).

Definition _framework_round_fits (w : world float) (db : DB) (read1 read2 : float) : bool :=
  if negb (String.eqb (upper_phase w) PHASE_FRAMEWORK_AGENT) then true
  else if negb (bool_decide (length (queued db) = 0)) || negb (bool_decide (length (running db) = 0)) then true
  else existsb (λ action, bool_decide (time_budget_denial_for_action parse_iso registry w action None [] read1 read2 = None))
         (allowed_actions_for PHASE_FRAMEWORK_AGENT).

(** The transition the predicates ask for, held for the operator's work. *)
Definition _next_phase (w : world float) (flags : PhaseFlags) (now read1 read2 : float) (in_flight : WorkInFlight)
    (fits operator_work_pending : bool) : res (option (string * string * pydict float) * world float) :=
  '(next, w) ← compute_next_phase parse_iso getenv round_grant w flags now read1 read2 in_flight fits;
  match next with
  | None => Ok (None, w)
  | Some n =>
      if negb (String.eqb (upper_phase w) PHASE_FRAMEWORK_AGENT) then Ok (Some n, w)
      else if negb (is_leverage_exit n) || negb operator_work_pending then Ok (Some n, w)
      else Ok (None, w)
  end.

(** What one tick's advance reads besides the state. *)
Record tick := MkTick {
  tk_flags : PhaseFlags;
  tk_now : float;
  tk_read1 : float;
  tk_read2 : float;
  tk_enablement_in_flight : bool;
  tk_operator_work : bool;
  tk_stopped : list string;
  tk_top_bottleneck : string;
  tk_ts : string;
  tk_at : float
}.

(** [advance_phase_if_needed] from the decision on: freeze admission while a transition is pending, drain, commit. *)
Definition advance_phase (w : world float) (tk : tick) : Io dispatcher (world float) := λ d,
  let db := d_db d in
  let in_flight := MkInFlight (String.eqb (upper_phase w) PHASE_ENABLEMENT && tk_enablement_in_flight tk)
                     (String.eqb (upper_phase w) PHASE_KERNEL_AGENT && _agent_in_flight db)
                     (String.eqb (upper_phase w) PHASE_PRELUDE && _prelude_work_in_flight db) in
  match _next_phase w (tk_flags tk) (tk_now tk) (tk_read1 tk) (tk_read2 tk) in_flight
          (_framework_round_fits w db (tk_read1 tk) (tk_read2 tk)) (tk_operator_work tk) with
  | Raise x => (Raise x, d)
  | Ok (next, w) =>
      let frozen := match next with Some (target, _, _) => negb (String.eqb target (upper_phase w)) | None => false end in
      let d := set_frozen frozen d in
      match next with
      | Some (target, reason, evidence) =>
          if frozen then
            (clear ← _drain_for_transition e (c_phase (w_clock w)) target reason
                       (if get_bool "terminal" evidence then tk_stopped tk else []);
             if (clear : bool) then
               _ ← modify (set_frozen false);
               s ← io_lift (_commit_transition parse_iso (w_session w)
                      (MkTransition (c_phase (w_clock w)) target reason evidence) (tk_top_bottleneck tk) plan (tk_ts tk) (tk_at tk));
               mret (MkWorld s (w_kernel w) (w_measured w))
             else mret w) d
          else (Ok w, d)
      | None => (Ok w, d)
      end
  end.
End advance.
