(* ===== verification/DispatchRules.v ===== *)
(** * What the dispatcher guarantees

    However executions start, run, fail, are abandoned and end, and whatever the rest of the session does to the
    store meanwhile: two executions never hold conflicting lanes, no executor is started twice for one row, an
    execution that ends gives back what it held, and a transition commits on a quiet session. *)

From stdpp Require Import base list strings gmap pretty sets sorting relations.
From Stdlib Require Import ZArith Lia.
From Stdlib Require String.
From S2P Require Import Prelude PyFloat PyVal PyTime Store Lanes GpuPool Tasks Bus PhaseChain PhaseMachine PhaseClock.
From S2P Require Import PhaseState Protocol Specialists PolicyGate OperatorName KernelQueue PhaseFacts PhaseDrive Admission Runner Dispatcher.

(** ** Effects on the store *)

(** Tasks, leases and capacities are untouched. *)
Definition same_core (db db' : DB) : Prop :=
  tasks db' = tasks db ∧ leases db' = leases db ∧ lane_capacity db' = lane_capacity db.

(** What an operation may do to the store: it keeps the lanes consistent, it takes lane rows from none but
    the holders in [own], and it changes the task table only through the registry. *)
Record effect (own : string → Prop) (db db' : DB) : Prop := {
  ef_lanes : lane_inv db → lane_inv db';
  ef_kept : ∀ r, r ∈ leases db → ¬ own (l_holder r) → ∃ r', r' ∈ leases db' ∧ l_key r' = l_key r;
  ef_tasks : rtc registry_step db db'
}.
(** No holder, or one. *)
Definition nobody : string → Prop := λ _, False.
Definition only (holder : string) : string → Prop := λ h, h = holder.

Lemma effect_refl own db : effect own db db.
Proof. split; [done| |done]. intros r Hr _. eauto. Qed.
Lemma effect_trans own db1 db2 db3 : effect own db1 db2 → effect own db2 db3 → effect own db1 db3.
Proof.
  intros [H1 H2 H3] [H4 H5 H6]. split; [auto| |by etrans]. intros r Hr Ho.
  destruct (H2 r Hr Ho) as (r' & Hr' & E). destruct (H5 r' Hr') as (r'' & Hr'' & E').
  { by injection E as _ ->. }
  exists r''. split; [done|congruence].
Qed.
Lemma effect_nobody own db db' : effect nobody db db' → effect own db db'.
Proof. intros [H1 H2 H3]. split; [done| |done]. intros r Hr _. by apply H2; [|intros []]. Qed.
Lemma effect_core own db db' : same_core db db' → effect own db db'.
Proof.
  intros (Ht & Hl & Hc). split; [by apply lane_inv_ext| |].
  - intros r Hr _. exists r. by rewrite Hl.
  - by apply rtc_once, rs_other.
Qed.
Lemma effect_registry own db db' :
  registry_step db db' → leases db' = leases db → lane_capacity db' = lane_capacity db → effect own db db'.
Proof.
  intros Hs Hl Hc. split; [by apply lane_inv_ext| |by apply rtc_once]. intros r Hr _. exists r. by rewrite Hl.
Qed.

Lemma transition_core e tid st ev db :
  leases (transition e tid st ev db).2 = leases db ∧ lane_capacity (transition e tid st ev db).2 = lane_capacity db.
Proof.
  unfold transition. destruct (state_of_str st); [|done]. unfold mbind, io_bind, transaction, mbind, tx_bind, tx_get.
  destruct (find_task db tid); [|done]. case_decide; [|done]. simpl. unfold get, find_task.
  by destruct (list_find _ _) as [[]|].
Qed.
Lemma completion_core e tid ev db :
  leases (append_completion_evidence e tid ev db).2 = leases db ∧
  lane_capacity (append_completion_evidence e tid ev db).2 = lane_capacity db.
Proof.
  unfold append_completion_evidence, transaction, mbind, tx_bind, tx_get. by destruct (find_task db tid).
Qed.
Lemma cancel_queued_core e allowed reason db :
  leases (cancel_queued e allowed reason db).2 = leases db ∧ lane_capacity (cancel_queued e allowed reason db).2 = lane_capacity db.
Proof. done. Qed.
Lemma observation_core e s top pl db : same_core db (record_observation e s top pl db).2.
Proof.
  unfold record_observation, append_and_seq, mbind, io_bind. case_decide; [|done].
  unfold transaction, mbind, tx_bind, tx_get. simpl. case_decide; done.
Qed.

Lemma gpu_release_core l db : same_core db (gpu_release l db).2.
Proof. unfold gpu_release. destruct l as [l|]; [|done]. by case_decide. Qed.
Lemma release_execution_core l close db : same_core db (release_execution l close db).2.
Proof.
  unfold release_execution, mbind, io_bind. pose proof (gpu_release_core l db) as H.
  destruct close as [[closed|x]|]; destruct (gpu_release l db) as [[[]|x'] db'] eqn:E; simpl in *; done.
Qed.
Lemma release_resources_core h close db : same_core db (release_resources h close db).2.
Proof. unfold release_resources. case_match; [done|]. apply release_execution_core. Qed.

Lemma insert_gpus_core holder tid gs db u db' : insert_gpus holder tid gs db = Ok (u, db') → same_core db db'.
Proof.
  revert db. induction gs as [|g gs IH]; intros db; simpl; [by intros [= _ <-]|].
  unfold mbind, tx_bind, insert_gpu at 1, mbind, tx_bind, tx_get.
  destruct (gpu_leases db !! g); [done|]. simpl. intros H. by apply IH in H.
Qed.
Lemma try_acquire_core pool n holder tid db : same_core db (try_acquire pool n holder tid db).2.
Proof.
  unfold try_acquire. case_match; [done|]. unfold transaction, mbind, tx_bind, tx_get. simpl. case_decide; [done|].
  case_decide; simpl; (match goal with |- context [(?a <? ?b)%nat] => destruct (a <? b)%nat end; [done|]).
  - destruct (insert_gpus _ _ _ db) as [[[] db']|x] eqn:E; [|done]. simpl. by eapply insert_gpus_core.
  - destruct (insert_gpus _ _ _ (drop_own holder tid db)) as [[[] db']|x] eqn:E; [|done]. simpl.
    apply insert_gpus_core in E as (E1 & E2 & E3). done.
Qed.
Lemma ray_observation_core holder tid n db : same_core db (try_acquire_ray_observation holder tid n db).2.
Proof.
  unfold try_acquire_ray_observation, transaction, mbind, tx_bind, tx_get. simpl.
  destruct (list_find _ _) as [[i slot]|]; [|done]. unfold insert_gpu, mbind, tx_bind, tx_get.
  by destruct (gpu_leases db !! slot).
Qed.
Lemma admit_gpu_core g t l db : same_core db (_admit_gpu_specialist g t l db).2.
Proof.
  unfold _admit_gpu_specialist. case_match; [done|]. case_match; [done|]. destruct (gpu_request g (params t)) as [pool n].
  unfold mbind, io_bind. destruct (ray_exec g).
  - pose proof (ray_observation_core (task_id t) (task_id t) (ray_pending_limit g) db) as Hc.
    destruct (try_acquire_ray_observation _ _ _ db) as [[[gl|]|x] db']; done.
  - pose proof (try_acquire_core pool n (task_id t) (task_id t) db) as Hc.
    destruct (try_acquire _ _ _ _ db) as [[[gl|]|x] db']; done.
Qed.

(** *** Lanes *)

(** The holder has a row on each of the lanes. *)
Definition holds (holder : string) (lanes : list string) (db : DB) : Prop :=
  ∀ lane, lane ∈ lanes → ∃ r, r ∈ leases db ∧ l_key r = (lane, holder).

Lemma holds_effect own holder lanes db db' :
  effect own db db' → ¬ own holder → holds holder lanes db → holds holder lanes db'.
Proof.
  intros He Ho Hh lane Hl. destruct (Hh lane Hl) as (r & Hr & Ek).
  destruct (ef_kept _ _ _ He r Hr) as (r' & Hr' & E); [by injection Ek as _ ->|]. exists r'. split; [done|congruence].
Qed.

(** A grant takes no row away, not even one of another holder. *)
Lemma acquire_effect e lanes holder tid action ttl db :
  effect nobody db (acquire_many e lanes holder tid action ttl db).2 ∧
  ∀ l, (acquire_many e lanes holder tid action ttl db).1 = Ok (Some l) →
    ∃ ex, _expand_lanes lanes = Ok ex ∧ l = Lease holder ex ∧
      holds holder ex (acquire_many e lanes holder tid action ttl db).2.
Proof.
  pose proof (step_acquire db e lanes holder tid action ttl) as Hstep.
  destruct (acquire_many_result e lanes holder tid action ttl db) as [(x & Hr)|[Hr|(ex & expires & Hne & Hex & Hok & Hr)]];
    rewrite Hr in *; simpl in *; [split; [apply effect_refl|done]..|].
  pose proof (NoDup_expand _ _ Hex) as Hnd. split.
  - split; [by apply lane_step_inv| |by apply rtc_once, rs_other]. intros r Hin _.
    destruct (decide (l_lane r ∈ ex ∧ l_holder r = holder)) as [[Hl Hh]|Hn].
    + exists (lease_for e holder tid action expires (l_lane r)). split; [|by rewrite <- Hh].
      apply elem_of_batch_db; [done|]. left. eauto.
    + exists r. split; [|done]. apply elem_of_batch_db; [done|]. by right.
  - intros l [= <-]. exists ex. split_and!; [done..|]. intros lane Hl.
    exists (lease_for e holder tid action expires lane). split; [|done]. apply elem_of_batch_db; [done|]. left. eauto.
Qed.

Lemma release_effect holder lanes ex db :
  _expand_lanes lanes = Ok ex → effect (only holder) db (release (Lease holder ex) db).2.
Proof.
  intros Hex. split; [by eapply lane_step_inv, step_release| |by apply rtc_once, rs_other].
  intros r Hr Ho. exists r. split; [|done]. apply list_elem_of_filter. split; [|done]. intros [_ E]. by apply Ho.
Qed.

Lemma transition_effect own e tid st ev db : effect own db (transition e tid st ev db).2.
Proof. destruct (transition_core e tid st ev db). by apply effect_registry; [constructor|..]. Qed.
Lemma completion_effect own e tid ev db : effect own db (append_completion_evidence e tid ev db).2.
Proof. destruct (completion_core e tid ev db). by apply effect_registry; [constructor|..]. Qed.

Create HintDb effects.
#[export] Hint Resolve effect_refl transition_effect completion_effect release_effect : effects.
#[export] Hint Resolve release_resources_core admit_gpu_core observation_core effect_core : effects.

(** *** One execution *)

Lemma write_terminal_effect own e tid st ev db : effect own db (_write_terminal e tid st ev db).2.
Proof.
  unfold _write_terminal. pose proof (transition_effect own e tid (state_str st) ev db) as H.
  destruct (transition e tid (state_str st) ev db) as [[t|x] db'] eqn:E; [done|]. simpl in H.
  destruct x; try done. eapply effect_trans; [done|]. apply completion_effect.
Qed.

(** The lease of an execution covers the lanes its row asks for. *)
Definition lease_of (t : task) (l : option lease) : Prop :=
  match l with
  | None => requires_lanes t = []
  | Some l => ∃ ex, _expand_lanes (requires_lanes t) = Ok ex ∧ l = Lease (task_id t) ex
  end.

(** The lanes at the end of an execution, given back or kept. *)
Lemma give_back_effect t l (b : bool) db :
  lease_of t l →
  effect (only (task_id t)) db (match l with Some l => if b then (Lanes.release l db).2 else db | None => db end).
Proof.
  intros Hl. destruct l as [l|]; [|apply effect_refl]. destruct b; [|apply effect_refl].
  destruct Hl as (ex & Hex & ->). by eapply release_effect.
Qed.

Lemma settle_effect e exn_repr t outcome evidence error l release db :
  lease_of t l → (∀ db, same_core db (release db).2) →
  effect (only (task_id t)) db (_settle_execution e exn_repr t outcome evidence error l (Some release) db).2.
Proof.
  intros Hl Hrel. specialize (Hrel db). unfold _settle_execution.
  assert (∀ r : option unit, effect (only (task_id t)) db (match r with Some _ => db | None => (release db).2 end)) as H1.
  { intros [[]|]; [apply effect_refl|by apply effect_core]. }
  destruct error as [[|res pgid repr|x]|]; [apply effect_refl|specialize (H1 (Some ()))|specialize (H1 None)..];
    [|destruct (release db) as [[b|y] db1]..]; (destruct outcome as [o|];
    [match goal with |- context [_write_terminal e ?i ?s ?ev ?d] =>
       pose proof (write_terminal_effect (only (task_id t)) e i s ev d) as Hw;
       destruct (_write_terminal e i s ev d) as [[[]|?] db2] end|]); cbn -[Lanes.release bool_decide orb] in *;
    eauto using effect_trans, give_back_effect.
Qed.

Lemma end_of_run_effect e exn_repr t l release x db :
  lease_of t l → (∀ db, same_core db (release db).2) →
  effect (only (task_id t)) db (end_of_run e exn_repr t l (Some release) x db).2.
Proof.
  intros Hl Hrel. unfold end_of_run. destruct x as [[o ev]|err].
  - pose proof (settle_effect e exn_repr t (Some o) ev None l release db Hl Hrel). by destruct (_settle_execution _ _ _ _ _ _ _ _ _).
  - pose proof (settle_effect e exn_repr t (match err with Unconfirmed result _ _ => result | _ => None end) [] (Some err)
      l release db Hl Hrel). by destruct (_settle_execution _ _ _ _ _ _ _ _ _).
Qed.

Lemma claim_effect own e reg gate t l db : effect own db (claim e reg gate t l db).2.
Proof.
  unfold claim. destruct gate as [[]|x]; [|destruct x; apply effect_refl]. case_match; [apply effect_refl|].
  unfold mbind, io_bind. pose proof (transition_effect own e (task_id t) "running" [] db) as Ht.
  destruct (transition _ _ _ _ db) as [[t'|x] db']; [|done]. by case_match.
Qed.

(** *** Starting an execution *)

Definition tables_kept (d d' : dispatcher) : Prop := d_inflight d' = d_inflight d ∧ d_jobs d' = d_jobs d.

Lemma over_budget_effect e t denied d :
  effect nobody (d_db d) (d_db (_cancel_queued_task_over_budget e t denied d).2) ∧
  tables_kept d (_cancel_queued_task_over_budget e t denied d).2.
Proof.
  unfold _cancel_queued_task_over_budget. destruct denied as [[]|]; try by split; [apply effect_refl|].
  match goal with |- context [transition e ?i ?s ?ev ?db] =>
    pose proof (transition_effect nobody e i s ev db) as Ht; destruct (transition e i s ev db) as [[t'|x] db'] end;
    [|by destruct x].
  unfold mbind, io_bind, on_db. simpl in *.
  match goal with |- context [record_observation e "coordinator" "observation" ?p db'] =>
    pose proof (observation_core e "coordinator" "observation" p db') as Hc;
    destruct (record_observation e "coordinator" "observation" p db') as [[u|x] db2] end; simpl in *;
    [destruct (String.eqb _ _)|]; (split; [|done]); simpl; eapply effect_trans; eauto with effects.
Qed.

Lemma admit_lanes_effect e t holders capacities db :
  effect nobody db (_admit_lanes e t holders capacities db).2 ∧
  ∀ l h, (_admit_lanes e t holders capacities db).1 = Ok (Some l, h) →
    lease_of t (Some l) ∧ holds (task_id t) (lease_lanes l) (_admit_lanes e t holders capacities db).2.
Proof.
  unfold _admit_lanes. case_decide; [by split; [apply effect_refl|]|].
  destruct (_expand_lanes (requires_lanes t)) as [expanded|x]; 
    [|destruct x; (split; [apply effect_refl|intros l h E; discriminate E])].
  destruct (_lanes_fit _ _ _); [|by split; [apply effect_refl|]]. unfold mbind, io_bind. simpl.
  destruct (acquire_effect e (requires_lanes t) (task_id t) (task_id t) (kind t) (row_ttl t) db) as [He Hl].
  destruct (acquire_many _ _ _ _ _ _ db) as [[[l|]|x] db']; simpl in *; (split; [done|]); try done.
  intros l' h [= <- _]. destruct (Hl l eq_refl) as (ex & Hex & -> & Hh). split; [|done]. by exists ex.
Qed.

Lemma admit_gpu_lease g t l db h : (_admit_gpu_specialist g t l db).1 = Ok (Some h) → prebound_lease h = l.
Proof.
  unfold _admit_gpu_specialist. case_match; [by intros [= <-]|]. case_match; [done|].
  destruct (gpu_request g (params t)) as [pool n]. unfold mbind, io_bind.
  destruct (if ray_exec g then _ else _) as [[[gl|]|x] db']; [by intros [= <-]|done..].
Qed.

Lemma spawn_begin_effect e denied t d :
  effect nobody (d_db d) (d_db (spawn_begin e denied t d).2) ∧ tables_kept d (spawn_begin e denied t d).2 ∧
  ((spawn_begin e denied t d).1 = Ok true → task_id t ∉ (d_inflight d).*1).
Proof.
  unfold spawn_begin. destruct (din (task_id t) (d_inflight d)) eqn:Hin; [by split_and!; [apply effect_refl|..]|].
  unfold mbind, io_bind. destruct (over_budget_effect e t denied d) as [H1 Hk].
  destruct (_cancel_queued_task_over_budget e t denied d) as [[over|x] d1]; simpl in *; (split_and!; [done..|]); [|done].
  intros _. rewrite <- din_elem. congruence.
Qed.

Lemma spawn_lanes_effect e caps t holders d :
  let out := spawn_lanes e caps t holders d in
  effect nobody (d_db d) (d_db out.2) ∧ tables_kept d out.2 ∧
  ∀ l h, out.1 = Ok (Some l, h) → lease_of t l ∧ ∀ l', l = Some l' → holds (task_id t) (lease_lanes l') (d_db out.2).
Proof.
  unfold spawn_lanes, mbind, io_bind, on_db. destruct (admit_lanes_effect e t holders caps (d_db d)) as [H2 Hl].
  destruct (_admit_lanes e t holders caps (d_db d)) as [[[l holders2]|x] db2]; simpl in *; [|by split_and!].
  destruct (bool_decide (l = None) && negb (bool_decide (requires_lanes t = []))) eqn:Hbusy; [by split_and!|].
  split_and!; [done..|]. intros l0 h [= <- _]. split; [|intros l' ->; by eapply Hl].
  destruct l as [l|]; [by eapply Hl|]. simpl in *.
  by destruct (bool_decide (requires_lanes t = [])) eqn:E; [apply bool_decide_eq_true in E|].
Qed.

Lemma spawn_cards_effect g t l d :
  let out := spawn_cards g t l d in
  same_core (d_db d) (d_db out.2) ∧ tables_kept d out.2 ∧ ∀ h, out.1 = Ok (Some h) → prebound_lease h = l.
Proof.
  unfold spawn_cards. destruct (String.eqb (kind t) "specialist"); [|split_and!; [done..|by intros h [= <-]]].
  unfold on_db. pose proof (admit_gpu_core g t l (d_db d)) as Hc. pose proof (admit_gpu_lease g t l (d_db d)) as Hp.
  by destruct (_admit_gpu_specialist g t l (d_db d)) as [held db3].
Qed.

Lemma spawn_back_effect t l holders d :
  lease_of t l →
  effect (only (task_id t)) (d_db d) (d_db (spawn_back l holders d).2) ∧ tables_kept d (spawn_back l holders d).2.
Proof.
  intros Hl. unfold spawn_back. destruct l as [l|]; [|by split; [apply effect_refl|]]. destruct Hl as (ex & Hex & ->).
  split; [|done]. by eapply release_effect.
Qed.

Lemma inline_lanes_effect e t d :
  let out := inline_lanes e t d in
  effect nobody (d_db d) (d_db out.2) ∧ tables_kept d out.2 ∧
  ∀ l, out.1 = Ok (Some l) → lease_of t l ∧ ∀ l', l = Some l' → holds (task_id t) (lease_lanes l') (d_db out.2).
Proof.
  unfold inline_lanes, mbind, io_bind. case_decide as Hn; [by split_and!; [apply effect_refl|done|intros l [= <-]]|].
  unfold on_db. destruct (acquire_effect e (requires_lanes t) (task_id t) (task_id t) (kind t) (row_ttl t) (d_db d)) as [He Hl].
  destruct (acquire_many _ _ _ _ _ _ (d_db d)) as [[[l|]|x] db']; simpl in *; (split_and!; [done..|]); try done.
  destruct (Hl l eq_refl) as (ex & Hex & -> & Hh). intros l0 [= <-]. split; [by exists ex|]. by intros l' [= <-].
Qed.

(** *** The barrier *)

Lemma drain_effect e prior target reason stopped d :
  effect nobody (d_db d) (d_db (_drain_for_transition e prior target reason stopped d).2) ∧
  tables_kept d (_drain_for_transition e prior target reason stopped d).2 ∧
  d_completions (_drain_for_transition e prior target reason stopped d).2 = d_completions d.
Proof.
  unfold _drain_for_transition, mbind, io_bind, on_db.
  match goal with |- context [cancel_queued e ?a ?r (d_db d)] =>
    pose proof (effect_registry nobody _ _ (rs_cancel_queued (d_db d) e a r) eq_refl eq_refl) as H1;
    destruct (cancel_queued e a r (d_db d)) as [[c|x] db1] end; simpl in *; [|done].
  destruct (bool_decide (c = []) && _); [done|]. simpl.
  match goal with |- context [record_observation e ?s ?t ?p db1] =>
    pose proof (observation_core e s t p db1) as H2; destruct (record_observation e s t p db1) as [[u|x] db2] end; simpl in *;
    (split; [|done]); eapply effect_trans; eauto with effects.
Qed.

Lemma advance_effect e parse_iso getenv grant registry plan w tk d :
  effect nobody (d_db d) (d_db (advance_phase e parse_iso getenv grant registry plan w tk d).2) ∧
  tables_kept d (advance_phase e parse_iso getenv grant registry plan w tk d).2.
Proof.
  unfold advance_phase. destruct (_next_phase _ _ _ _ _ _ _ _ _ _ _) as [[[[[target reason] ev]|] w1]|x];
    [|by split; [apply effect_refl|]..].
  destruct (negb _) eqn:Hne; [|by split; [apply effect_refl|]].
  match goal with |- context [_drain_for_transition e ?p ?t ?r ?s] =>
    destruct (drain_effect e p t r s (set_frozen true d)) as (He & [Hi Hj] & _) end.
  unfold mbind, io_bind. destruct (_drain_for_transition _ _ _ _ _ _) as [[clear|x] d1]; [|done].
  destruct clear; [|done]. unfold modify, io_lift, io_bind. simpl in *.
  by destruct (_commit_transition _ _ _ _ _ _ _).
Qed.

(** ** Every interleaving *)

(** What the rest of the session, or another process, does to the store while the executions with the ids
    [ids] exist.  Their lanes are released by themselves only, and the process that runs them is alive, so no
    reaper takes their rows for a dead holder's. *)
Inductive outside (ids : list string) (db : DB) : DB → Prop :=
| out_registry db' :
    registry_step db db' → leases db' = leases db → lane_capacity db' = lane_capacity db → outside ids db db'
| out_acquire e lanes holder tid action ttl : outside ids db (acquire_many e lanes holder tid action ttl db).2
| out_release holder lanes ex :
    holder ∉ ids → _expand_lanes lanes = Ok ex → outside ids db (release (Lease holder ex) db).2
| out_heartbeat e tid ttl : outside ids db (heartbeat_by_task e tid ttl db).2
| out_reap e :
    (∀ r, r ∈ leases db → l_holder r ∈ ids → reapable e db r = false) → outside ids db (reap_dead_holders e db).2
| out_hold_round rid holder expires now : outside ids db (transaction (hold_round_lane rid holder expires now) db).2
| out_drop_round rid : rid ∉ ids → outside ids db (transaction (drop_round_lane rid) db).2.

(** Where the coordinator's coroutine is.  Its tick runs the pump, whose pass visits one row at a time, and
    the close steps, which run a row inline; between two of its awaits anything else may happen. *)
Inductive pump :=
| Idle
| Checked (t : task)                            (* the row is not in flight and its cost fits *)
| LanesTaken (t : task) (l : option lease)
| CardsTaken (t : task) (held : HeldLeases)
| GivingBack (t : task) (l : option lease)      (* the cards were refused *)
| InlineTaken (t : task) (l : option lease).    (* an inline run has its lanes *)

(** The row it is admitting, and the lanes it took for it. *)
Definition pump_task (c : pump) : option task :=
  match c with
  | Idle => None
  | Checked t | LanesTaken t _ | CardsTaken t _ | GivingBack t _ | InlineTaken t _ => Some t
  end.
Definition pump_lanes (c : pump) : option lease :=
  match c with
  | Idle | Checked _ => None
  | LanesTaken _ l | GivingBack _ l | InlineTaken _ l => l
  | CardsTaken _ held => prebound_lease held
  end.
Definition pump_ids (c : pump) : list string := option_list (task_id <$> pump_task c).

(** What a step shows: a row's executor starts; a row is run inline while an execution of it exists. *)
Inductive event := Ran (tid : string) | Rerun (tid : string).
Definition inline_event (t : task) (d : dispatcher) : option event :=
  if bool_decide (task_id t ∈ j_id <$> d_jobs d) then Some (Rerun (task_id t)) else None.
Definition claim_event (j : job) (r : res (option (SubAgentResult * jdict))) : option event :=
  match r with Ok None => Some (Ran (j_id j)) | _ => None end.

(** One step of the dispatcher or around it.  The settlement of an execution is one step. *)
Inductive disp_step (d : dispatcher) : pump → option event → dispatcher → pump → Prop :=
| st_begin e denied t :
    disp_step d Idle None (spawn_begin e denied t d).2
      (match (spawn_begin e denied t d).1 with Ok true => Checked t | _ => Idle end)
| st_lanes e capacities t holders :
    disp_step d (Checked t) None (spawn_lanes e capacities t holders d).2
      (match (spawn_lanes e capacities t holders d).1 with Ok (Some l, _) => LanesTaken t l | _ => Idle end)
| st_cards g t l :
    disp_step d (LanesTaken t l) None (spawn_cards g t l d).2
      (match (spawn_cards g t l d).1 with Ok (Some held) => CardsTaken t held | Ok None => GivingBack t l | Raise _ => Idle end)
| st_start t held : disp_step d (CardsTaken t held) None (spawn_start t held d) Idle
| st_back t l holders : disp_step d (GivingBack t l) None (spawn_back l holders d).2 Idle
| st_inline e t :
    disp_step d Idle (inline_event t d) (inline_lanes e t d).2
      (match (inline_lanes e t d).1 with Ok (Some l) => InlineTaken t l | _ => Idle end)
| st_inline_start t l : disp_step d (InlineTaken t l) None (inline_start t l d) Idle
| st_refuse c j close : j ∈ d_jobs d → j_stage j = Created → disp_step d c None (refuse_dispatch j close d) c
| st_record c j : j ∈ d_jobs d → j_stage j = Created → disp_step d c None (record_dispatch j d) c
| st_claim c e reg exn_repr gate close j :
    j ∈ d_jobs d → j_stage j = Recorded →
    disp_step d c (claim_event j (claim e reg gate (j_task j) (prebound_lease (j_held j)) (d_db d)).1)
      (claim_job e reg exn_repr gate close j d) c
| st_finish c e exn_repr x close j :
    j ∈ d_jobs d → j_stage j = Awaiting → disp_step d c None (finish_job e exn_repr x close j d) c
| st_book c x q : d_completions d = x :: q → disp_step d c None (set_completions q d) c
| st_advance e parse_iso getenv grant registry plan w tk :
    disp_step d Idle None (advance_phase e parse_iso getenv grant registry plan w tk d).2 Idle
| st_outside c db' : outside ((j_id <$> d_jobs d) ++ pump_ids c) (d_db d) db' → disp_step d c None (set_db db' d) c.

(** The dispatcher of a process that starts on a store, and what it can reach, with what its steps showed, in
    order. *)
Definition fresh (db : DB) : dispatcher := MkDispatcher db [] [] [] 0 [] false [].
Inductive dispatched (d0 : dispatcher) : list event → dispatcher → pump → Prop :=
| dp_start : dispatched d0 [] d0 Idle
| dp_step log d c l d' c' : dispatched d0 log d c → disp_step d c l d' c' → dispatched d0 (log ++ option_list l) d' c'.

(** The rows whose executors started, in order; and no row was run inline while an execution of it existed. *)
Definition executors (log : list event) : list string := omap (λ x, match x with Ran tid => Some tid | Rerun _ => None end) log.
Definition no_rerun (log : list event) : Prop := Forall (λ x, match x with Ran _ => True | Rerun _ => False end) log.

Lemma filter_rows_kept (P : lease_row → Prop) `{∀ r, Decision (P r)} own db :
  (lane_inv db → lane_inv (with_leases (filter P) db)) → (∀ r, r ∈ leases db → ¬ own (l_holder r) → P r) →
  effect own db (with_leases (filter P) db).
Proof.
  intros Hi HP. split; [done| |by apply rtc_once, rs_other]. intros r Hr Ho. exists r. split; [|done].
  apply list_elem_of_filter. split; [by apply HP|done].
Qed.

Lemma outside_effect ids db db' :
  lane_inv db → outside ids db db' → effect (λ h, h ∉ ids) db db'.
Proof.
  intros Hinv Hs. destruct Hs as [db' Hs Hl Hc|e lanes h t a ttl|h lanes ex Hh Hex|e t ttl|e Hlive|rid h x n|rid Hr].
  - by apply effect_registry.
  - apply effect_nobody, acquire_effect.
  - destruct (release_effect h lanes ex db Hex) as [H1 H2 H3]. split; [done| |done]. intros r Hr Ho. apply H2; [done|].
    intros E. apply Ho. by rewrite E.
  - split; [by apply heartbeat_inv| |]; unfold heartbeat_by_task, mbind, io_bind, io_lift;
      (destruct (_lease_iso _); simpl; [|by eauto using rtc_refl]); unfold transaction, tx_get, mbind, tx_bind;
      (case_decide; simpl; [by eauto using rtc_refl|]); [|by apply rtc_once, rs_other].
    intros r Hr _. eexists. split; [by apply list_elem_of_fmap_2|]. by case_decide.
  - pose proof (lane_step_inv _ _ (step_reap db e)) as Hi. rewrite reap_dead_holders_eq in * by auto with lanes.
    apply filter_rows_kept; [done|]. intros r Hr Ho. rewrite Hlive; [done..|]. by apply dec_stable.
  - split; [by apply lane_step_inv, step_hold_round| |]; unfold transaction, hold_round_lane, mbind, tx_bind, tx_lift;
      (destruct (_lease_iso n); [|by eauto using rtc_refl]); (destruct (_lease_iso x); [|by eauto using rtc_refl]);
      [|by apply rtc_once, rs_other].
    intros r Hr _. simpl. unfold upsert_lease. case_decide.
    + eexists. split; [by apply list_elem_of_fmap_2|]. by case_decide.
    + exists r. split; [apply elem_of_app; by left|done].
  - apply (filter_rows_kept _ _ db); [by apply lane_step_inv, (step_drop_round db rid)|].
    intros r Hin Ho [_ <-]. by apply Ho.
Qed.

(** *** The invariant *)

(** The row left the queue for good. *)
Definition left_queue (db : DB) (tid : string) : Prop := ∃ t, t ∈ tasks db ∧ task_id t = tid ∧ t_state t ≠ Queued.

(** What every run keeps. *)
Record base_inv (log : list event) (d : dispatcher) (c : pump) : Prop := {
  bi_lanes : lane_inv (d_db d);
  bi_tasks : task_inv (d_db d);
  bi_lease : ∀ j, j ∈ d_jobs d → lease_of (j_task j) (prebound_lease (j_held j));
  bi_pump : ∀ t, pump_task c = Some t → c = Checked t ∨ lease_of t (pump_lanes c);
  bi_once : NoDup (executors log);
  bi_log : ∀ tid, tid ∈ executors log → left_queue (d_db d) tid
}.

(** What a run keeps in which no row is run inline while an execution of it exists. *)
Record excl_inv (d : dispatcher) (c : pump) : Prop := {
  ei_ids : NoDup (j_id <$> d_jobs d);
  ei_inflight : ∀ j, j ∈ d_jobs d → j_id j ∈ (d_inflight d).*1;
  ei_holds : ∀ j l, j ∈ d_jobs d → prebound_lease (j_held j) = Some l → holds (j_id j) (lease_lanes l) (d_db d);
  ei_pump : ∀ t, pump_task c = Some t →
    task_id t ∉ j_id <$> d_jobs d ∧ ∀ l, pump_lanes c = Some l → holds (task_id t) (lease_lanes l) (d_db d)
}.

Lemma left_queue_stays db db' tid : task_inv db → rtc registry_step db db' → left_queue db tid → left_queue db' tid.
Proof.
  intros Hinv Hs (t & Ht & Hid & Hq). destruct (registry_evolves db db' t Hinv Hs Ht) as (t' & Ht' & He).
  exists t'. split_and!; [done|by rewrite (ev_id _ _ He)|]. intros Hq'. apply Hq. pose proof (ev_state _ _ He) as Hr.
  rewrite Hq' in Hr. clear - Hr. remember Queued as q eqn:Eq. induction Hr as [|a b c Hab _ IH]; [done|].
  specialize (IH Eq). rewrite IH in Hab. by destruct a; unfold edge in Hab; vm_compute in Hab; set_solver.
Qed.

(** The two halves of every step: what it does to the store with the leases it leaves behind, and, in a run
    without a second execution of a row, that it takes lanes from no other execution. *)
Lemma base_step log d c d' c' own :
  base_inv log d c → effect own (d_db d) (d_db d') →
  (∀ j', j' ∈ d_jobs d' → lease_of (j_task j') (prebound_lease (j_held j'))) →
  (∀ t, pump_task c' = Some t → c' = Checked t ∨ lease_of t (pump_lanes c')) → base_inv log d' c'.
Proof.
  intros [H1 H2 H3 H4 H5 H6] [E1 E2 E3] Hj Hc. split; [auto|by eapply task_inv_reachable|done..|].
  intros tid Htid. eapply left_queue_stays; eauto.
Qed.
Lemma base_kept log d c d' c' own :
  base_inv log d c → effect own (d_db d) (d_db d') → d_jobs d' = d_jobs d →
  (∀ t, pump_task c' = Some t → c' = Checked t ∨ lease_of t (pump_lanes c')) → base_inv log d' c'.
Proof. intros Hb He Hj Hc. eapply base_step; [done..| |done]. rewrite Hj. by eapply bi_lease. Qed.

Lemma excl_shrink d c d' c' own :
  excl_inv d c → effect own (d_db d) (d_db d') → (j_id <$> d_jobs d') `sublist_of` (j_id <$> d_jobs d) →
  (∀ j', j' ∈ d_jobs d' → j_id j' ∈ (d_inflight d').*1 ∧
     ∃ j, j ∈ d_jobs d ∧ j_task j' = j_task j ∧ j_held j' = j_held j ∧ ¬ own (j_id j)) →
  (∀ t, pump_task c' = Some t →
    task_id t ∉ j_id <$> d_jobs d ∧ ∀ l, pump_lanes c' = Some l → holds (task_id t) (lease_lanes l) (d_db d')) →
  excl_inv d' c'.
Proof.
  intros [H1 H2 H3 H4] He Hsub Hjobs Hc. split.
  - exact (sublist_NoDup _ _ H1 Hsub).
  - intros j' Hj'. by apply Hjobs.
  - intros j' l Hj' Hl. destruct (Hjobs j' Hj') as (_ & j & Hj & Ht & Hh & Ho). unfold j_id. rewrite Ht.
    eapply holds_effect; [done|exact Ho|]. apply H3; [done|congruence].
  - intros t Ht. destruct (Hc t Ht) as [Hn Hl]. split; [|done]. intros Hin. apply Hn.
    eapply elem_of_submseteq; [done|by apply sublist_submseteq].
Qed.
Lemma excl_kept d c d' c' own :
  excl_inv d c → effect own (d_db d) (d_db d') → tables_kept d d' → (∀ j, j ∈ d_jobs d → ¬ own (j_id j)) →
  (∀ t, pump_task c' = Some t →
    task_id t ∉ j_id <$> d_jobs d ∧ ∀ l, pump_lanes c' = Some l → holds (task_id t) (lease_lanes l) (d_db d')) →
  excl_inv d' c'.
Proof.
  intros Hx He [Hi Hj] Ho Hc. eapply excl_shrink; [done..| | |done]; rewrite Hj; [done|]. intros j Hin. rewrite Hi.
  split; [by eapply ei_inflight|]. exists j. auto.
Qed.
(** The coordinator waits while something else steps that takes no lanes from the row it is admitting. *)
Lemma pump_waits d c d' own :
  excl_inv d c → effect own (d_db d) (d_db d') → (∀ t, pump_task c = Some t → ¬ own (task_id t)) →
  ∀ t, pump_task c = Some t →
    task_id t ∉ j_id <$> d_jobs d ∧ ∀ l, pump_lanes c = Some l → holds (task_id t) (lease_lanes l) (d_db d').
Proof.
  intros Hx He Ho t Ht. destruct (ei_pump _ _ Hx t Ht) as [Hn Hl]. split; [done|]. intros l El.
  eapply holds_effect; [done|by apply Ho|by apply Hl].
Qed.

Lemma base_register log d c t held books :
  base_inv log d c → lease_of t (prebound_lease held) → base_inv log (register t held books d) Idle.
Proof.
  intros Hb Hl. apply (base_step log d c _ _ nobody); [done|apply effect_refl| |done].
  intros j [Hin| ->%list_elem_of_singleton]%elem_of_app; [by eapply bi_lease|done].
Qed.
Lemma excl_register d c t held books :
  excl_inv d c → pump_task c = Some t → prebound_lease held = pump_lanes c → excl_inv (register t held books d) Idle.
Proof.
  intros [H1 H2 H3 H4] Ht Hh. destruct (H4 t Ht) as [Hf Hl]. split; simpl; [| | |done].
  - rewrite fmap_app. apply NoDup_app. split_and!; [done| |apply NoDup_singleton]. by intros x Hx ->%list_elem_of_singleton.
  - intros j [Hin| ->%list_elem_of_singleton]%elem_of_app; apply elem_of_dset_keys; [right; by apply H2|by left].
  - intros j l [Hin| ->%list_elem_of_singleton]%elem_of_app E; [by apply H3|]. apply Hl. simpl in E. congruence.
Qed.

Lemma sublist_fmap_filter {A B} (f : A → B) (P : A → Prop) `{∀ x, Decision (P x)} l :
  f <$> filter P l `sublist_of` f <$> l.
Proof. induction l as [|x l IH]; [done|]. rewrite filter_cons. case_decide; by constructor. Qed.

Lemma forget_tables j d :
  d_db (_forget_execution j d) = d_db d ∧ d_jobs (_forget_execution j d) = d_jobs d ∧ d_inflight (_forget_execution j d) = d_inflight d.
Proof. unfold _forget_execution. by case_decide. Qed.
Lemma elem_of_keys_filter {A} (l : list (string * A)) k k' : k ∈ l.*1 → k ≠ k' → k ∈ (filter (λ kv, kv.1 ≠ k') l).*1.
Proof. intros (kv & -> & Hin)%list_elem_of_fmap Hne. apply list_elem_of_fmap. exists kv. by rewrite list_elem_of_filter. Qed.

(** [d'] is [d] with an execution of the row [tid] gone or moved to another stage. *)
Definition ended (j : job) (d d' : dispatcher) : Prop :=
  d_jobs d' = filter (λ j', j_no j' ≠ j_no j) (d_jobs d) ∧
  (d_inflight d' = d_inflight d ∨ d_inflight d' = filter (λ kv, kv.1 ≠ j_id j) (d_inflight d)).
Definition moved_on (d d' : dispatcher) : Prop :=
  d_inflight d' = d_inflight d ∧
  ∃ f : job → job, d_jobs d' = f <$> d_jobs d ∧ ∀ j, j_task (f j) = j_task j ∧ j_held (f j) = j_held j.

Lemma drop_execution_ended j d d1 : tables_kept d d1 → ended j d (drop_execution j d1) ∧ d_db (drop_execution j d1) = d_db d1.
Proof.
  intros [Hi Hj]. unfold drop_execution, ended. destruct (forget_tables j (set_tables (d_inflight d1)
    (filter (λ j', j_no j' ≠ j_no j) (d_jobs d1)) d1)) as (-> & -> & ->). simpl. rewrite Hi, Hj. auto.
Qed.
Lemma drop_job_ended j d d1 : tables_kept d d1 → ended j d (drop_job j d1) ∧ d_db (drop_job j d1) = d_db d1.
Proof.
  intros [Hi Hj]. unfold drop_job, drop_execution, ended.
  match goal with |- context [_forget_execution j ?x] => destruct (forget_tables j x) as (-> & -> & ->) end. simpl. rewrite Hi, Hj. auto.
Qed.
Lemma conclude_ended j r d : ended j d (conclude j r d) ∧ d_db (conclude j r d) = r.2.
Proof.
  unfold conclude. destruct r.1; [|by apply drop_execution_ended].
  destruct (j_books j); by apply drop_job_ended.
Qed.
Lemma set_stage_moved s j d d1 : tables_kept d d1 → moved_on d (set_stage s j d1).
Proof.
  intros [Hi Hj]. split; [done|]. simpl. rewrite Hj. eexists. split; [done|]. intros j'. cbn beta. by destruct (decide (j_no j' = j_no j)).
Qed.

Lemma base_ended log d c d' j own :
  base_inv log d c → effect own (d_db d) (d_db d') → ended j d d' → base_inv log d' c.
Proof.
  intros Hb He [Hj _]. eapply base_step; [done..| |by eapply bi_pump]. rewrite Hj.
  intros j' [_ Hin]%list_elem_of_filter. by eapply bi_lease.
Qed.
Lemma excl_ended d c d' j :
  excl_inv d c → j ∈ d_jobs d → effect (only (j_id j)) (d_db d) (d_db d') → ended j d d' → excl_inv d' c.
Proof.
  intros Hx Hj He [Hjs Hi]. eapply excl_shrink; [done|exact He|rewrite Hjs; apply sublist_fmap_filter| |].
  - rewrite Hjs. intros j' [Hne Hin]%list_elem_of_filter.
    assert (j_id j' ≠ j_id j) as Hid.
    { intros E. apply Hne. f_equal. eapply (NoDup_key_inj j_id); [by eapply ei_ids|done..]. }
    pose proof (ei_inflight _ _ Hx j' Hin) as Hf. split; [|by exists j'].
    destruct Hi as [-> | ->]; [done|by apply elem_of_keys_filter].
  - eapply pump_waits; [done..|]. intros t Ht E. destruct (ei_pump _ _ Hx t Ht) as [Hn _]. apply Hn. rewrite E.
    by apply list_elem_of_fmap_2.
Qed.
Lemma base_moved log d c d' own : base_inv log d c → effect own (d_db d) (d_db d') → moved_on d d' → base_inv log d' c.
Proof.
  intros Hb He (_ & f & Hj & Hf). eapply base_step; [done..| |by eapply bi_pump]. rewrite Hj.
  intros j' (j & -> & Hin)%list_elem_of_fmap. destruct (Hf j) as [-> ->]. by eapply bi_lease.
Qed.
Lemma excl_moved d c d' : excl_inv d c → effect nobody (d_db d) (d_db d') → moved_on d d' → excl_inv d' c.
Proof.
  intros Hx He (Hi & f & Hj & Hf). eapply excl_shrink; [done..| | |apply (pump_waits d c d' nobody Hx He); by intros ? ? []]; rewrite Hj.
  - rewrite <- list_fmap_compose. assert (j_id ∘ f <$> d_jobs d = j_id <$> d_jobs d) as ->; [|done].
    apply list_fmap_ext. intros i j _. unfold compose, j_id. by destruct (Hf j) as [-> _].
  - intros j' (j & -> & Hin)%list_elem_of_fmap. rewrite Hi. destruct (Hf j) as [Ht Hh]. unfold j_id. rewrite Ht.
    split; [by apply (ei_inflight _ _ Hx j)|]. exists j. split_and!; [done..|by intros []].
Qed.

(** *** Claims *)

(** The executor is reached only by a row that was queued, and which is running then. *)
Lemma claim_reaches e reg gate t l db db' :
  task_inv db → claim e reg gate t l db = (Ok None, db') → left_queue db' (task_id t) ∧ ¬ left_queue db (task_id t).
Proof.
  intros Hinv. unfold claim. destruct gate as [[]|x]; [|destruct x; discriminate]. case_match; [discriminate|].
  unfold mbind, io_bind.
  destruct (transition_result e (task_id t) "running" [] db) as [(x & ->)|(st & t0 & Hf & Hst & E & ->)];
    [by apply ti_ids|discriminate|]. injection E as <-. case_match; [|discriminate]. intros [= <-].
  apply find_task_Some in Hf as [Hin Hid]. split.
  - exists (moved Running (now_iso e) [] t0). split_and!; [|done..]. apply list_elem_of_fmap. exists t0.
    by rewrite decide_True.
  - intros (t1 & Hin1 & Hid1 & Hq). assert (t1 = t0) as ->.
    { eapply (NoDup_key_inj task_id); [by apply ti_ids|done..|congruence]. }
    apply Hq. clear - Hst. by destruct (t_state t0); vm_compute in Hst; set_solver.
Qed.

Lemma executors_app log l : executors (log ++ l) = executors log ++ executors l.
Proof. apply omap_app. Qed.
Lemma base_silent log x d c : executors (option_list x) = [] → base_inv log d c → base_inv (log ++ option_list x) d c.
Proof. intros Hx [H1 H2 H3 H4 H5 H6]. split; try done; by rewrite executors_app, Hx, app_nil_r. Qed.
Lemma base_ran log d c tid :
  base_inv log d c → left_queue (d_db d) tid → tid ∉ executors log → base_inv (log ++ [Ran tid]) d c.
Proof.
  intros [H1 H2 H3 H4 H5 H6] Hq Hn. split; [done..| |]; rewrite executors_app.
  - apply NoDup_app. split_and!; [done| |apply NoDup_singleton]. by intros x Hx ->%list_elem_of_singleton.
  - intros x [Hx| ->%list_elem_of_singleton]%elem_of_app; auto.
Qed.

(** A claim that does not reach the executor ends the execution. *)
Lemma claim_job_cases log e reg exn_repr gate close j d c :
  base_inv log d c → j ∈ d_jobs d →
  let r := claim e reg gate (j_task j) (prebound_lease (j_held j)) (d_db d) in
  let d' := claim_job e reg exn_repr gate close j d in
  (r.1 = Ok None ∧ moved_on d d' ∧ d_db d' = r.2 ∧ effect nobody (d_db d) r.2) ∨
  (claim_event j r.1 = None ∧ ended j d d' ∧ effect (only (j_id j)) (d_db d) (d_db d')).
Proof.
  intros Hb Hj. unfold claim_job.
  pose proof (claim_effect nobody e reg gate (j_task j) (prebound_lease (j_held j)) (d_db d)) as He.
  destruct (claim _ _ _ _ _ _) as [r db]. simpl in He |- *. unfold run_unclaimed.
  assert (∀ x d', d' = conclude j (end_of_run e exn_repr (j_task j) (prebound_lease (j_held j))
      (Some (release_resources (j_held j) close)) x db) d → ended j d d' ∧ effect (only (j_id j)) (d_db d) (d_db d')) as Hend.
  { intros x d' ->. destruct (conclude_ended j (end_of_run e exn_repr (j_task j) (prebound_lease (j_held j))
      (Some (release_resources (j_held j) close)) x db) d) as [H ->]. split; [done|].
    eapply effect_trans; [by apply effect_nobody|]. apply end_of_run_effect; [by eapply bi_lease|apply release_resources_core]. }
  destruct r as [[o|]|x]; [right; split; [done|by eapply Hend]| |right; split; [done|by eapply Hend]].
  left. split_and!; [done|by apply set_stage_moved|done|done].
Qed.

Lemma finish_job_cases log e exn_repr x close j d c :
  base_inv log d c → j ∈ d_jobs d →
  let d' := finish_job e exn_repr x close j d in
  (moved_on d d' ∧ d_db d' = d_db d) ∨ (ended j d d' ∧ effect (only (j_id j)) (d_db d) (d_db d')).
Proof.
  intros Hb Hj. unfold finish_job.
  assert (∀ y, let d' := conclude j (end_of_run e exn_repr (j_task j) (prebound_lease (j_held j))
      (Some (release_resources (j_held j) close)) y (d_db d)) d in ended j d d' ∧ effect (only (j_id j)) (d_db d) (d_db d')) as Hend.
  { intros y. destruct (conclude_ended j (end_of_run e exn_repr (j_task j) (prebound_lease (j_held j))
      (Some (release_resources (j_held j) close)) y (d_db d)) d) as [H E]. split; [done|]. rewrite E.
    apply end_of_run_effect; [by eapply bi_lease|apply release_resources_core]. }
  destruct x; try (right; apply Hend). left. destruct (forget_tables j (set_stage Abandoned j d)) as (-> & Hjs & Hi).
  split; [|done]. unfold moved_on. rewrite Hjs, Hi. by apply set_stage_moved.
Qed.

Lemma refuse_ended log j close d c :
  base_inv log d c → j ∈ d_jobs d →
  ended j d (refuse_dispatch j close d) ∧ effect (only (j_id j)) (d_db d) (d_db (refuse_dispatch j close d)).
Proof.
  intros Hb Hj. unfold refuse_dispatch. pose proof (release_resources_core (j_held j) close (d_db d)) as Hc.
  destruct (release_resources (j_held j) close (d_db d)) as [[b|x] db1].
  - match goal with |- context [drop_job j ?x] => destruct (drop_job_ended j d x) as [H ->]; [done|split; [exact H|]] end.
    simpl. pose proof (bi_lease _ _ _ Hb j Hj) as Hl. eapply effect_trans; [by apply effect_core|].
    by apply (give_back_effect (j_task j) (prebound_lease (j_held j)) true).
  - destruct (drop_execution_ended j d (set_db db1 d)) as [H ->]; [done|]. split; [exact H|by apply effect_core].
Qed.

Lemma base_disp_step log d c l d' c' :
  base_inv log d c → disp_step d c l d' c' → base_inv (log ++ option_list l) d' c'.
Proof.
  intros Hb Hs. destruct Hs as [e denied t|e caps t holders|g t lo|t held|t lo holders|e t|t lo|c j close Hj Hst|c j Hj Hst
    |c e reg er gate close j Hj Hst|c e er x close j Hj Hst|c x q Hq|e pi ge gr rg pl w tk|c db' Ho]; rewrite ?app_nil_r.
  - destruct (spawn_begin_effect e denied t d) as (He & [_ Hk] & _). eapply base_kept; [done..|].
    intros t0. repeat case_match; try done. intros [= <-]. by left.
  - destruct (spawn_lanes_effect e caps t holders d) as (He & [_ Hk] & Hl). eapply base_kept; [done..|].
    destruct (spawn_lanes e caps t holders d).1 as [[[l|] h]|x]; try done. intros t0 [= <-]. right. by eapply Hl.
  - destruct (spawn_cards_effect g t lo d) as (He & [_ Hk] & Hl). eapply base_kept; [done|by eapply (effect_core nobody)|done|].
    pose proof (bi_pump _ _ _ Hb t eq_refl) as [?|Hlo]; [done|].
    destruct (spawn_cards g t lo d).1 as [[h|]|x]; try done; intros t0 [= <-]; right; [|done]. simpl. by rewrite (Hl h eq_refl).
  - unfold spawn_start. pose proof (bi_pump _ _ _ Hb t eq_refl) as [?|Hlo]; [done|].
    pose proof (base_register log d _ t held (negb (bool_decide (kind t ∈ _SELF_SETTLING_KINDS))) Hb Hlo) as H.
    destruct (String.eqb _ _); [|done]. by eapply base_kept; [done|apply (effect_refl nobody)|..].
  - pose proof (bi_pump _ _ _ Hb t eq_refl) as [?|Hlo]; [done|].
    destruct (spawn_back_effect t lo holders d Hlo) as (He & [_ Hk]). by eapply base_kept.
  - apply base_silent; [unfold inline_event; by case_bool_decide|].
    destruct (inline_lanes_effect e t d) as (He & [_ Hk] & Hl). eapply base_kept; [done..|].
    destruct (inline_lanes e t d).1 as [[l|]|x]; try done. intros t0 [= <-]. right. by eapply Hl.
  - pose proof (bi_pump _ _ _ Hb t eq_refl) as [?|Hlo]; [done|]. by eapply base_register.
  - destruct (refuse_ended _ j close d c Hb Hj). by eapply base_ended.
  - eapply base_moved; [done|apply (effect_refl nobody)|]. by apply set_stage_moved.
  - destruct (claim_job_cases log e reg er gate close j d c Hb Hj) as [(Hr & Hm & Hdb & He)|(Hr & Hm & He)].
    + rewrite Hr. simpl. destruct (claim e reg gate (j_task j) (prebound_lease (j_held j)) (d_db d)) as [r db] eqn:Hc.
      simpl in *. subst r. destruct (claim_reaches _ _ _ _ _ _ _ (bi_tasks _ _ _ Hb) Hc) as [Hq Hn].
      apply base_ran; [eapply (base_moved _ _ _ _ nobody); [done|by rewrite Hdb|done]|by rewrite Hdb|]. intros Hl. by apply Hn, (bi_log _ _ _ Hb).
    + rewrite Hr, app_nil_r. by eapply base_ended.
  - destruct (finish_job_cases log e er x close j d c Hb Hj) as [(Hm & Hdb)|(Hm & He)]; [|by eapply base_ended].
    eapply base_moved; [done| |done]. rewrite Hdb. apply (effect_refl nobody).
  - by eapply base_kept; [done|apply (effect_refl nobody)|..|eapply bi_pump].
  - destruct (advance_effect e pi ge gr rg pl w tk d) as [He [_ Hk]]. by eapply base_kept.
  - eapply base_kept; [done|by eapply outside_effect; [by eapply bi_lanes|]|done|by eapply bi_pump].
Qed.

Lemma excl_disp_step log d c l d' c' :
  base_inv log d c → excl_inv d c → no_rerun (option_list l) → disp_step d c l d' c' → excl_inv d' c'.
Proof.
  intros Hb Hx Hno Hs. destruct Hs as [e denied t|e caps t holders|g t lo|t held|t lo holders|e t|t lo|c j close Hj Hst|c j Hj Hst
    |c e reg er gate close j Hj Hst|c e er x close j Hj Hst|c x q Hq|e pi ge gr rg pl w tk|c db' Ho].
  - destruct (spawn_begin_effect e denied t d) as (He & Hk & Hf). eapply excl_kept; [done..|by intros ? ? []|].
    destruct (spawn_begin e denied t d).1 as [[]|x]; try done. intros t0 [= <-]. split; [|done].
    intros (j & E & Hin)%list_elem_of_fmap. apply Hf; [done|]. rewrite E. by eapply ei_inflight.
  - destruct (spawn_lanes_effect e caps t holders d) as (He & Hk & Hl). eapply excl_kept; [done..|by intros ? ? []|].
    destruct (spawn_lanes e caps t holders d).1 as [[[l|] h]|x]; try done. intros t0 [= <-].
    split; [by apply (ei_pump _ _ Hx t eq_refl)|]. intros l' E. by eapply Hl.
  - destruct (spawn_cards_effect g t lo d) as (He & Hk & Hl). destruct (ei_pump _ _ Hx t eq_refl) as [Hn Hh].
    apply (effect_core nobody) in He as He'. eapply excl_kept; [done..|by intros ? ? []|].
    assert (∀ l', lo = Some l' → holds (task_id t) (lease_lanes l') (d_db (spawn_cards g t lo d).2)) as Hh'.
    { intros l' E. eapply holds_effect; [done|by intros []|by apply Hh]. }
    destruct (spawn_cards g t lo d).1 as [[h|]|x]; try done; intros t0 [= <-]; (split; [done|]); [|done].
    simpl. by rewrite (Hl h eq_refl).
  - unfold spawn_start.
    pose proof (excl_register d _ t held (negb (bool_decide (kind t ∈ _SELF_SETTLING_KINDS))) Hx eq_refl eq_refl) as H.
    destruct (String.eqb _ _); [|done]. by eapply excl_kept; [done|apply (effect_refl nobody)|..|intros ? ? []|].
  - pose proof (bi_pump _ _ _ Hb t eq_refl) as [?|Hlo]; [done|]. destruct (ei_pump _ _ Hx t eq_refl) as [Hn _].
    destruct (spawn_back_effect t lo holders d Hlo) as (He & Hk). eapply excl_kept; [done..| |done].
    intros j Hj E. apply Hn. rewrite <- E. by apply list_elem_of_fmap_2.
  - destruct (inline_lanes_effect e t d) as (He & Hk & Hl). eapply excl_kept; [done..|by intros ? ? []|].
    destruct (inline_lanes e t d).1 as [[l|]|x]; try done. intros t0 [= <-]. split; [|intros l' E; by eapply Hl].
    intros Hin. unfold inline_event in Hno. rewrite bool_decide_eq_true_2 in Hno by done. by inversion Hno.
  - by apply (excl_register _ _ t _ _ Hx).
  - destruct (refuse_ended _ j close d c Hb Hj). by eapply excl_ended.
  - eapply excl_moved; [done|apply (effect_refl nobody)|]. by apply set_stage_moved.
  - destruct (claim_job_cases log e reg er gate close j d c Hb Hj) as [(Hr & Hm & Hdb & He)|(Hr & Hm & He)];
      [eapply excl_moved; [done|by rewrite Hdb|done]|by eapply excl_ended].
  - destruct (finish_job_cases log e er x close j d c Hb Hj) as [(Hm & Hdb)|(Hm & He)]; [|by eapply excl_ended].
    eapply excl_moved; [done| |done]. rewrite Hdb. apply (effect_refl nobody).
  - eapply excl_kept; [done|apply (effect_refl nobody)|done|by intros ? ? []|exact (ei_pump _ _ Hx)].
  - destruct (advance_effect e pi ge gr rg pl w tk d) as [He Hk]. eapply excl_kept; [done..|by intros ? ? []|done].
  - apply outside_effect in Ho; [|by eapply bi_lanes].
    eapply excl_kept; [done..| |eapply pump_waits; [done..|]].
    + intros j Hj Hn. apply Hn, elem_of_app. left. by apply list_elem_of_fmap_2.
    + intros t Ht Hn. apply Hn, elem_of_app. right. unfold pump_ids. rewrite Ht. apply list_elem_of_singleton. done.
Qed.

Lemma dispatched_base db0 log d c : lane_inv db0 → task_inv db0 → dispatched (fresh db0) log d c → base_inv log d c.
Proof.
  intros Hl Ht Hd. induction Hd; [|by eapply base_disp_step].
  split; simpl; try done; try constructor; intros; by set_solver.
Qed.
Lemma dispatched_excl db0 log d c :
  lane_inv db0 → task_inv db0 → dispatched (fresh db0) log d c → no_rerun log → excl_inv d c.
Proof.
  intros Hl Ht Hd. induction Hd as [|log d c l d' c' Hd IH Hs].
  - intros _. split; simpl; try done; try constructor; intros; by set_solver.
  - intros [H1 H2]%Forall_app. eapply excl_disp_step; [by eapply dispatched_base|by apply IH|done..].
Qed.

(** A job is a holder of every lane its row names and of every lane that conflicts with one. *)
Lemma job_holds_lanes log d c j l :
  base_inv log d c → excl_inv d c → j ∈ d_jobs d → l ∈ requires_lanes (j_task j) →
  l ∈ KNOWN_LANES ∧ ∀ l', l' = l ∨ l' ∈ conflicts_of l → j_id j ∈ holders_of (d_db d) l'.
Proof.
  intros Hb Hx Hj Hl. pose proof (bi_lease _ _ _ Hb j Hj) as Hlease. pose proof (λ x, ei_holds _ _ Hx j x Hj) as Hh.
  unfold lease_of in Hlease. destruct (prebound_lease (j_held j)) as [ls|]; [|by rewrite Hlease in Hl; apply not_elem_of_nil in Hl].
  destruct Hlease as (ex & Hex & ->). specialize (Hh _ eq_refl). split.
  - pose proof (expand_known _ _ Hex) as Hk. rewrite Forall_forall in Hk. auto.
  - intros l' Hc. apply elem_of_holders_of. destruct (Hh l') as (r & Hr & [= <- <-]); [|by exists r].
    apply (elem_of_expand _ _ _ Hex). eauto.
Qed.

Lemma one_holder db lane h1 h2 :
  lane_inv db → lane ∈ KNOWN_LANES → capacity_of db lane = 1%Z → h1 ∈ holders_of db lane → h2 ∈ holders_of db lane → h1 = h2.
Proof.
  intros Hinv Hk Hcap H1 H2. pose proof (inv_capacity _ Hinv _ Hk) as Hlen. rewrite Hcap in Hlen.
  destruct (holders_of db lane) as [|h [|h' t]]; simpl in Hlen; [set_solver|set_solver|lia].
Qed.

(** *** A transition *)

Lemma record_observation_tasks e s top pl db : tasks (record_observation e s top pl db).2 = tasks db.
Proof. by destruct (observation_core e s top pl db) as (? & _). Qed.

(** A drain that answers yes leaves nothing running, nothing to book, and only rows the target admits. *)
Lemma drain_clear e prior target reason stopped d d' :
  NoDup (task_id <$> tasks (d_db d)) →
  _drain_for_transition e prior target reason stopped d = (Ok true, d') →
  running (d_db d') = [] ∧ d_completions d' = [] ∧
  ∀ t, t ∈ queued (d_db d') → py_strip (kind t) ∈ stripped_set (actions_of PHASE_ALLOWED_ACTIONS target).
Proof.
  intros Hnd. unfold _drain_for_transition, mbind, io_bind, on_db. rewrite cancel_queued_eq by done. simpl.
  set (allowed := actions_of PHASE_ALLOWED_ACTIONS target).
  match goal with |- context [with_tasks ?f (d_db d)] => set (db1 := with_tasks f (d_db d)) end.
  assert (∀ db2, tasks db2 = tasks db1 → ∀ t, t ∈ queued db2 → py_strip (kind t) ∈ stripped_set allowed) as Hq.
  { intros db2 E t. unfold queued, in_state. rewrite merge_sort_Permutation, list_elem_of_filter, E.
    intros [Hst (t0 & -> & Hin)%list_elem_of_fmap]. unfold cancel_rows in *. case_decide as Hd; [done|]. unfold phase_doomed in Hd.
    apply dec_stable. naive_solver. }
  assert (∀ d2, bool_decide (length (running (d_db d2)) = 0) && negb (has_unbooked_completions d2) = true →
    running (d_db d2) = [] ∧ d_completions d2 = []) as Hc.
  { intros d2 [H1%bool_decide_eq_true H2]%andb_true_iff. unfold has_unbooked_completions in H2.
    rewrite negb_involutive, bool_decide_eq_true in H2. split; by apply nil_length_inv. }
  destruct (bool_decide _ && _).
  - intros [= Hclear <-]. destruct (Hc (set_db db1 d) Hclear) as [H1 H2]. split_and!; [done..|]. by apply Hq.
  - simpl. match goal with |- context [record_observation e ?s ?t ?p db1] =>
      pose proof (record_observation_tasks e s t p db1) as Ht; destruct (record_observation e s t p db1) as [[u|x] db2] end; [|done].
    intros [= Hclear <-]. destruct (Hc _ Hclear) as [H1 H2]. split_and!; [done..|]. by apply Hq.
Qed.

Lemma stripped_actions p x :
  p ∈ PHASE_NAMES → x ∈ stripped_set (actions_of PHASE_ALLOWED_ACTIONS p) → x ∈ actions_of PHASE_ALLOWED_ACTIONS p.
Proof.
  intros Hp. assert (Forall (λ p, Forall (λ x, x ∈ actions_of PHASE_ALLOWED_ACTIONS p)
    (stripped_set (actions_of PHASE_ALLOWED_ACTIONS p))) PHASE_NAMES) as H by (apply (bool_decide_unpack _); vm_compute; exact I).
  rewrite Forall_forall in H. specialize (H p Hp). rewrite Forall_forall in H. apply H.
Qed.

Lemma next_phase_decides parse_iso getenv grant w flags now r1 r2 fl fits op next w1 :
  _next_phase parse_iso getenv grant w flags now r1 r2 fl fits op = Ok (next, w1) →
  ∃ n, compute_next_phase parse_iso getenv grant w flags now r1 r2 fl fits = Ok (n, w1) ∧ ∀ x, next = Some x → n = Some x.
Proof.
  unfold _next_phase. intros ([n w2] & Hc & H)%res_bind_ok.
  destruct n as [n|]; [|injection H as <- <-; by eexists]. exists (Some n).
  repeat (destruct (negb _) in H; simpl in H); injection H as <- <-; split; try done; by intros x [= <-].
Qed.
Lemma compute_next_phase_session parse_iso getenv grant (w : world float) flags now r1 r2 fl fits next w1 :
  phase_of (w_session w) ∈ PHASE_NAMES →
  compute_next_phase parse_iso getenv grant w flags now r1 r2 fl fits = Ok (next, w1) → w_session w1 = w_session w.
Proof.
  intros Hin ([inputs w2] & Hf & H)%res_bind_ok. apply res_bind_ok in H as (dec & _ & [= _ <-]).
  by eapply freeze_spec.
Qed.

(** *** The end of an execution *)

Definition row_terminal (db : DB) (tid : string) : Prop := ∃ t, t ∈ tasks db ∧ task_id t = tid ∧ t_state t ∈ TERMINAL_STATES.
(** The execution's rows on the lanes and the cards it was given are gone. *)
Definition lanes_free (l : option lease) (db : DB) : Prop :=
  ∀ ls r, l = Some ls → r ∈ leases db → l_holder r = lease_holder ls → l_lane r ∉ lease_lanes ls.
Definition cards_free (gl : option gpu_lease) (db : DB) : Prop :=
  ∀ ls g row, gl = Some ls → g ∈ gpu_ids ls → gpu_leases db !! g = Some row → g_holder row ≠ gl_holder ls.

Lemma terminal_states st : st ∈ TERMINAL_STATES ↔ st ≠ Queued ∧ st ≠ Running.
Proof. destruct st; split; (try by intros [? ?]); intros H; vm_compute; try set_solver; vm_compute in H; set_solver. Qed.

(** A terminal outcome of a claimed row is always written: as its state, or as evidence when the row is
    terminal already. *)
Lemma write_terminal_spec e tid st ev db :
  task_inv db → left_queue db tid → st ∈ TERMINAL_STATES →
  ∃ db', _write_terminal e tid st ev db = (Ok (), db') ∧ row_terminal db' tid ∧ leases db' = leases db ∧ gpu_leases db' = gpu_leases db.
Proof.
  intros Hinv (t & Hin & Hid & Hq) Hst. pose proof (ti_ids _ Hinv) as Hnd.
  assert (find_task db tid = Some t) as Hf by (rewrite <- Hid; by apply find_task_elem).
  assert (state_of_str (state_str st) = Some st) as Hs by by destruct st.
  unfold _write_terminal. destruct (decide (st ∈ TRANSITIONS (t_state t))) as [Htr|Htr].
  - rewrite (transition_eq _ _ _ _ _ _ _ Hnd Hs Hf Htr). eexists. split; [done|]. split_and!; [|done..].
    exists (moved st (now_iso e) ev t). split_and!; [|done..]. apply list_elem_of_fmap. exists t. by rewrite decide_True.
  - unfold transition. rewrite Hs. unfold mbind, io_bind, transaction, mbind, tx_bind, tx_get. rewrite Hf, decide_False by done.
    unfold tx_raise, illegal_transition. cbn -[append_completion_evidence].
    assert (row_terminal db tid) as Hterm.
    { exists t. split_and!; [done..|]. apply terminal_states. split; [done|]. intros E. apply Htr. rewrite E.
      apply terminal_states in Hst. destruct st; set_solver. }
    destruct (append_completion_result e tid ev db Hnd) as [[x Hr]|Hr].
    { unfold append_completion_evidence, transaction, mbind, tx_bind, tx_get in Hr. by rewrite Hf in Hr. }
    rewrite Hr.
    eexists. split; [done|]. split_and!; [|done..]. destruct Hterm as (t1 & Hin1 & Hid1 & Hst1).
    exists (if decide (task_id t1 = tid) then completed (now_iso e) ev t1 else t1). 
    split_and!; [apply list_elem_of_fmap; eauto|by case_decide..].
Qed.

Lemma terminal_outcomes : Succeeded ∈ TERMINAL_STATES ∧ Failed ∈ TERMINAL_STATES ∧ Cancelled ∈ TERMINAL_STATES.
Proof. by rewrite !terminal_states. Qed.

Lemma release_resources_cards h close db : cards_free (h_gpu_lease h) (release_resources h close db).2.
Proof.
  unfold release_resources. intros ls g row Hls Hg. rewrite Hls. simpl. unfold release_execution, mbind, io_bind.
  assert (∀ db', gpu_leases (gpu_release (Some ls) db').2 !! g = Some row → g_holder row ≠ gl_holder ls) as H.
  { intros db'. unfold gpu_release. case_decide as E; [rewrite E in Hg; by apply not_elem_of_nil in Hg|]. simpl.
    rewrite map_lookup_filter_Some. naive_solver. }
  specialize (H db). destruct (if h_gpu_specialist_lease h then _ else _) as [[c|x]|];
    destruct (gpu_release (Some ls) db) as [[[]|y] db']; simpl in *; auto.
Qed.

Lemma release_lanes_free ls db : lanes_free (Some ls) (release ls db).2.
Proof. intros ls' r [= <-] [Hn _]%list_elem_of_filter Hh Hl. by apply Hn. Qed.

(** The outcome [o] settled over a database where the execution's cards were dealt with. *)
Lemma settle_writes e exn_repr t o evidence error h close db :
  task_inv db → left_queue db (task_id t) → sr_state o ∈ TERMINAL_STATES → error ≠ Some Interrupted →
  let db' := (_settle_execution e exn_repr t (Some o) evidence error (prebound_lease h) (Some (release_resources h close)) db).2 in
  row_terminal db' (task_id t) ∧ lanes_free (prebound_lease h) db' ∧
  match error with
  | Some (Unconfirmed _ _ _) => gpu_leases db' = gpu_leases db
  | _ => cards_free (h_gpu_lease h) db'
  end.
Proof.
  intros Hinv Hq Hst Herr. unfold _settle_execution.
  pose proof (release_resources_core (h) close db) as Hc. pose proof (release_resources_cards h close db) as Hcards.
  assert (∀ db1 ev, same_core db db1 →
    ∃ db2, _write_terminal e (task_id t) (sr_state o) ev db1 = (Ok (), db2) ∧
      let db3 := match prebound_lease h with Some l => (release l db2).2 | None => db2 end in
      row_terminal db3 (task_id t) ∧ lanes_free (prebound_lease h) db3 ∧ gpu_leases db3 = gpu_leases db1) as Hw.
  { intros db1 ev Hcore. destruct (write_terminal_spec e (task_id t) (sr_state o) ev db1) as (db2 & Hw & H1 & H2 & H3);
      [| |done|].
    - eapply task_inv_reachable; [done|]. by apply (effect_core nobody) in Hcore as [_ _ ?].
    - eapply left_queue_stays; [done| |done]. by apply (effect_core nobody) in Hcore as [_ _ ?].
    - exists db2. split; [done|]. destruct (prebound_lease h) as [l|]; [|done]. simpl.
      split_and!; [done|apply release_lanes_free|done]. }
  destruct error as [[|res pgid repr|x]|]; [done|..]; [|destruct (release_resources h close db) as [[b|y] db1]..];
    match goal with |- context [_write_terminal e ?i ?s ?ev ?d] => destruct (Hw d ev) as (db2 & E & H1 & H2 & H3);
      [first [exact Hc|by split_and!]|rewrite E] end;
    (split; [exact H1|split; [exact H2|]]); [exact H3|..]; intros ls g row Hls Hg Hr; refine (Hcards ls g row Hls Hg _);
    simpl; rewrite <- H3; exact Hr.
Qed.

(** * Claims *)

(** C4: Safety.  Since a process started on a consistent store, let the dispatcher and the rest of the session have
    done anything, in any interleaving of their awaits, as long as no row was run inline while an execution of it
    existed.  Then two executions that exist together, abandoned ones included, need no common lane and no
    conflicting lanes of capacity one; nor does an execution need one of a row that is still being admitted with
    its lanes already taken.  (Without the condition it fails: [rerun_frees_lanes].) *)
Theorem no_conflicting_executions db0 log d c l1 l2 :
  lane_inv db0 → task_inv db0 → dispatched (fresh db0) log d c → no_rerun log →
  l2 = l1 ∨ l2 ∈ conflicts_of l1 → capacity_of (d_db d) l1 = 1%Z →
  (∀ j1 j2, j1 ∈ d_jobs d → j2 ∈ d_jobs d → l1 ∈ requires_lanes (j_task j1) → l2 ∈ requires_lanes (j_task j2) → j1 = j2) ∧
  (∀ j t ls, j ∈ d_jobs d → pump_task c = Some t → pump_lanes c = Some ls →
     l1 ∈ requires_lanes (j_task j) → l2 ∉ requires_lanes t).
Proof.
  intros Hl0 Ht0 Hd Hno Hc Hcap. pose proof (dispatched_base _ _ _ _ Hl0 Ht0 Hd) as Hb.
  pose proof (dispatched_excl _ _ _ _ Hl0 Ht0 Hd Hno) as Hx.
  assert (l1 = l2 ∨ l1 ∈ conflicts_of l2) as Hc'.
  { destruct Hc as [->|Hc]; [by left|]. right. by apply conflict_clique in Hc as (? & _). }
  split.
  - intros j1 j2 Hj1 Hj2 H1 H2. apply (NoDup_key_inj j_id (d_jobs d)); [by eapply ei_ids|done..|].
    destruct (job_holds_lanes _ _ _ _ _ Hb Hx Hj1 H1) as [Hk1 Hh1].
    apply (one_holder (d_db d) l1); [by eapply bi_lanes|done..|by apply Hh1; left|].
    by eapply job_holds_lanes.
  - intros j t ls Hj Ht Hls H1 H2. destruct (ei_pump _ _ Hx t Ht) as [Hn Hh]. apply Hn.
    destruct (job_holds_lanes _ _ _ _ _ Hb Hx Hj H1) as [Hk1 Hh1].
    assert (task_id t ∈ holders_of (d_db d) l1) as Hin.
    { destruct (bi_pump _ _ _ Hb t Ht) as [E|Hlo]; [by rewrite E in Hls|]. rewrite Hls in Hlo.
      destruct Hlo as (ex & Hex & ->). apply elem_of_holders_of. destruct (Hh _ Hls l1) as (r & Hr & [= <- <-]); [|by exists r].
      apply (elem_of_expand _ _ _ Hex). eauto. }
    rewrite (one_holder (d_db d) l1 (task_id t) (j_id j)); [by apply list_elem_of_fmap_2|by eapply bi_lanes|done..|by apply Hh1; left].
Qed.

(** C9: Safety.  A row's executor is started at most once, whatever passes over the queue read stale rows, however
    often the row is dispatched again or run inline meanwhile, and whatever other processes do to the task table. *)
Theorem executed_at_most_once db0 log d c :
  lane_inv db0 → task_inv db0 → dispatched (fresh db0) log d c → NoDup (executors log).
Proof. intros Hl Ht Hd. by eapply bi_once, dispatched_base. Qed.


(** C23: Safety.  A transition is committed on a quiet session or not at all: either the machine's tick leaves the
    session as it was, or no task is running, no completion waits to be booked, admission is open again, and
    every row still queued is one the new phase admits. *)
Theorem transition_on_quiet_session e parse_iso getenv grant registry plan w tk d w' d' :
  task_inv (d_db d) → phase_of (w_session w) ∈ PHASE_NAMES →
  advance_phase e parse_iso getenv grant registry plan w tk d = (Ok w', d') →
  w_session w' = w_session w ∨
  (running (d_db d') = [] ∧ d_completions d' = [] ∧ admission_frozen d' = false ∧
   ∀ t, t ∈ queued (d_db d') → py_strip (kind t) ∈ actions_of PHASE_ALLOWED_ACTIONS (phase_of (w_session w'))).
Proof.
  intros Hinv Hin. unfold advance_phase.
  destruct (_next_phase _ _ _ _ _ _ _ _ _ _ _) as [[next w1]|x] eqn:Hn; [|done].
  destruct (next_phase_decides _ _ _ _ _ _ _ _ _ _ _ _ _ Hn) as (n & Hcn & Hsub).
  assert (w_session w1 = w_session w) as Es by by eapply compute_next_phase_session.
  destruct next as [[[target reason] ev]|]; [|by intros [= <- <-]; left].
  rewrite (Hsub _ eq_refl) in Hcn. destruct (negb _) eqn:Hne; [|by intros [= <- <-]; left].
  unfold mbind, io_bind. destruct (_drain_for_transition _ _ _ _ _ _) as [[[]|x] d1] eqn:Hd; [|by intros [= <- <-]; left|done].
  apply drain_clear in Hd as (H1 & H2 & H3); [|by apply ti_ids]. unfold modify, io_lift, io_bind.
  destruct (_commit_transition _ _ _ _ _ _ _) as [s'|x] eqn:Hc; [|done]. intros [= <- <-]. right.
  assert (drive_step parse_iso getenv grant plan w target reason ev (MkWorld s' (w_kernel w1) (w_measured w1))) as Hs.
  { repeat eexists; [exact Hcn|exact Hc]. }
  apply drive_commits in Hs as (inputs & Hs); [|done]. apply commit_step_effect in Hs as (Hp & Ht & _); [|done].
  split_and!; [done..|]. simpl in *. rewrite Hp. intros t Hq. apply stripped_actions; [done|]. by apply H3.
Qed.

(** ** Witnesses *)

(** A second row wants a lane that conflicts with the first one's; both are passed over with the holders the
    pass read before either ran. *)
Definition rival_spec : TaskSpec := MkSpec "profile" [] "prof-1" (Some ["profile_lane"]) 600 (Some "t2") None None.
Definition two_queued : DB := (create_or_return_existing sample_env None rival_spec queued_db).2.
Definition rival_task : task := new_task sample_env rival_spec [].
Definition no_gpus : gpu_env := MkGpuEnv false false 1 [] [] false 1 false.
Definition job_of (t : task) (l : list string) (s : stage) : job := MkJob 0 t (MkHeld (Some (Lease (task_id t) l)) None false) true s.
Definition first_job : job := job_of sample_task sample_lanes Created.

(** The pass takes the first row's lanes and starts it, then asks for the second row's, which conflict. *)
Definition checked (t : task) (d : dispatcher) : dispatcher := (spawn_begin sample_env None t d).2.
Definition laned (t : task) (d : dispatcher) : dispatcher := (spawn_lanes sample_env (lane_capacities two_queued) t [] d).2.
Definition lease1 : option lease := Some (Lease "t1" sample_lanes).
Definition held1 : HeldLeases := MkHeld lease1 None false.
Definition carded (t : task) (l : option lease) (d : dispatcher) : dispatcher := (spawn_cards no_gpus t l d).2.
Definition laned1 : dispatcher := laned sample_task (checked sample_task (fresh two_queued)).
Definition started1 : dispatcher := spawn_start sample_task held1 (carded sample_task lease1 laned1).
Definition passed : dispatcher := laned rival_task (checked rival_task started1).
Definition recorded : dispatcher := record_dispatch first_job passed.
Definition recorded_job : job := job_of sample_task sample_lanes Recorded.
Definition begun : dispatcher := claim_job sample_env ["benchmark"] (λ _, "boom") (Ok ()) (Ok PNone) recorded_job recorded.

Lemma two_queued_inv : task_inv two_queued.
Proof. apply (registry_step_inv queued_db); [apply rs_create|exact queued_inv]. Qed.
Lemma two_queued_lanes : lane_inv two_queued.
Proof. apply lane_inv_init. vm_compute. reflexivity. Qed.
(** A step that shows nothing, and where it leaves the coordinator. *)
Lemma dp_silent d0 log d c d' c1 c' :
  dispatched d0 log d c → disp_step d c None d' c1 → c1 = c' → dispatched d0 log d' c'.
Proof. intros Hd Hs <-. rewrite <- (app_nil_r log). exact (dp_step _ log d c None d' c1 Hd Hs). Qed.
Lemma laned_run : dispatched (fresh two_queued) [] laned1 (LanesTaken sample_task lease1).
Proof.
  unfold laned1, laned, checked. eapply dp_silent; [|apply st_lanes|vm_compute; reflexivity].
  eapply dp_silent; [apply dp_start|apply st_begin|vm_compute; reflexivity].
Qed.
Lemma started_run : dispatched (fresh two_queued) [] started1 Idle.
Proof.
  unfold started1, carded. eapply dp_silent; [|apply st_start|reflexivity].
  eapply dp_silent; [exact laned_run|apply st_cards|vm_compute; reflexivity].
Qed.
Lemma passed_run : dispatched (fresh two_queued) [] passed Idle.
Proof.
  unfold passed, laned, checked. eapply dp_silent; [|apply st_lanes|vm_compute; reflexivity].
  eapply dp_silent; [exact started_run|apply st_begin|vm_compute; reflexivity].
Qed.
Lemma passed_jobs : d_jobs passed = [first_job].
Proof. vm_compute. reflexivity. Qed.
Lemma recorded_run : dispatched (fresh two_queued) [] recorded Idle.
Proof.
  unfold recorded. eapply dp_silent; [exact passed_run|apply st_record; [rewrite passed_jobs; left|reflexivity]|reflexivity].
Qed.
Lemma recorded_jobs : d_jobs recorded = [recorded_job].
Proof. vm_compute. reflexivity. Qed.
Lemma begun_event :
  claim_event recorded_job (claim sample_env ["benchmark"] (Ok ()) (j_task recorded_job) (prebound_lease (j_held recorded_job)) (d_db recorded)).1
  = Some (Ran "t1").
Proof. vm_compute. reflexivity. Qed.
Lemma begun_run : dispatched (fresh two_queued) [Ran "t1"] begun Idle.
Proof.
  change [Ran "t1"] with ([] ++ option_list (Some (Ran "t1"))). rewrite <- begun_event.
  unfold begun. eapply dp_step; [exact recorded_run|]. apply st_claim; [rewrite recorded_jobs; left|reflexivity].
Qed.

Lemma no_conflicting_executions_witness :
  "profile_lane" ∈ conflicts_of "benchmark_lane" ∧ ∀ j, j ∈ d_jobs passed → "profile_lane" ∈ requires_lanes (j_task j) → j = first_job.
Proof.
  split; [vm_compute; find_in|].
  destruct (no_conflicting_executions two_queued [] passed Idle "benchmark_lane" "profile_lane") as [H _];
    [exact two_queued_lanes|exact two_queued_inv|exact passed_run|apply Forall_nil_2|right; vm_compute; find_in|vm_compute; reflexivity|].
  intros j Hj Hl. symmetry. apply H; [| |vm_compute; find_in|exact Hl]; [rewrite passed_jobs; left|exact Hj].
Defined.

Lemma executed_at_most_once_witness : length (d_jobs begun) = 1 ∧ NoDup ["t1"].
Proof.
  split; [vm_compute; reflexivity|].
  exact (executed_at_most_once two_queued [Ran "t1"] begun Idle two_queued_lanes two_queued_inv begun_run).
Defined.

(** A row that is running is run inline, as the close step of [phases/close.py] does with whatever row its
    enqueue returns.  The second execution is given the lanes its row already holds, its claim is refused, and
    its settlement gives the lanes of the first one back: the conflicting row is then admitted while the first
    executor is still awaited. *)
Definition rerun_job : job := MkJob 1 sample_task held1 false Recorded.
Definition rerun : dispatcher := record_dispatch rerun_job (inline_start sample_task (Some (Lease "t1" sample_lanes)) (inline_lanes sample_env sample_task begun).2).
Definition ended_rerun : dispatcher := claim_job sample_env ["benchmark"] (λ _, "boom") (Ok ()) (Ok PNone) rerun_job rerun.
Example rerun_frees_lanes :
  (inline_lanes sample_env sample_task begun).1 = Ok (Some (Some (Lease "t1" sample_lanes))) ∧
  d_jobs rerun = [job_of sample_task sample_lanes Awaiting; rerun_job] ∧
  d_jobs ended_rerun = [job_of sample_task sample_lanes Awaiting] ∧ leases (d_db ended_rerun) = [] ∧
  match (spawn_lanes sample_env (lane_capacities two_queued) rival_task [] ended_rerun).1 with
  | Ok (Some (Some l), _) => lease_holder l = "t2"
  | _ => False
  end.
Proof. vm_compute. done. Qed.


(** The sweep of [swept_world] is booked; a row its successor does not admit is still queued. *)
Definition swept_tick : tick :=
  MkTick all_phases (f_of_Z 2000) (f_of_Z 2000) (f_of_Z 2000) false false [] EmptyString "2026-01-01T00:00:00+00:00" (f_of_Z 2001).
Definition stale_spec : TaskSpec := MkSpec "conc_sweep" [] "sweep-1" None 600 (Some "t3") None None.
Definition stale_db : DB := (create_or_return_existing sample_env None stale_spec seeded_db).2.
Definition advanced : res (world binary64) * dispatcher :=
  advance_phase sample_env no_iso no_env (f_of_Z 3600) (λ _, None) plain_plan swept_world swept_tick (fresh stale_db).
Definition advanced_world : world binary64 := match advanced.1 with Ok w => w | Raise _ => swept_world end.

Lemma transition_on_quiet_session_witness :
  phase_of (w_session advanced_world) = PHASE_FRAMEWORK_AGENT ∧ length (queued stale_db) = 1 ∧ length (queued (d_db advanced.2)) = 0 ∧
  running (d_db advanced.2) = [].
Proof.
  destruct (transition_on_quiet_session sample_env no_iso no_env (f_of_Z 3600) (λ _, None) plain_plan swept_world swept_tick
    (fresh stale_db) advanced_world advanced.2) as [H|(H & _)].
  - apply (registry_step_inv seeded_db); [apply rs_create|exact seeded_task_inv].
  - vm_compute. find_in.
  - vm_compute. reflexivity.
  - apply (f_equal phase_of) in H. vm_compute in H. discriminate H.
  - split_and!; [vm_compute; reflexivity..|exact H].
Defined.
