(* ===== verification/Dicts.v ===== *)
(** * Dicts and enums

    What the multi-branch components need of Python's insertion-ordered dicts beyond [PyVal]: deletion,
    the values and what item assignment and deletion do to the number of values a test picks, and enums
    read back from their values. *)

From stdpp Require Import base list strings pretty sets gmap.
From Stdlib Require Import ZArith Lia.
From S2P Require Import Prelude PyFloat PyVal.

Section dicts.
Context {V : Type}.
Implicit Types (d : list (string * V)) (k : string) (v : V).

(** [d.pop(k, None)], and [del d[k]] of a key that is there. *)
Fixpoint ddel k d : list (string * V) :=
  match d with
  | [] => []
  | (k', v) :: d' => if bool_decide (k = k') then d' else (k', v) :: ddel k d'
  end.

(** [list(d.values())] *)
Definition dvals d : list V := d.*2.

Lemma dvals_cons k v d : dvals ((k, v) :: d) = v :: dvals d.
Proof. done. Qed.

Lemma elem_dget k v d : NoDup d.*1 → (k, v) ∈ d → dget k d = Some v.
Proof.
  induction d as [|[k' v'] d IH]; simpl; [intros _ []%not_elem_of_nil|].
  rewrite NoDup_cons. intros [Hn Hnd] [[= -> ->]|H]%elem_of_cons; [by rewrite bool_decide_eq_true_2|].
  case_bool_decide as Hk; [|auto]. subst. exfalso. apply Hn. apply list_elem_of_fmap. by exists (k', v).
Qed.

Lemma dget_val k v d : dget k d = Some v → v ∈ dvals d.
Proof. intros H%dget_elem. apply list_elem_of_fmap. by exists (k, v). Qed.

Lemma dget_is_Some k d : is_Some (dget k d) ↔ k ∈ d.*1.
Proof. rewrite <- not_eq_None_Some, dget_None. split; [apply dec_stable|auto]. Qed.

Lemma dset_keys_in k v d : k ∈ d.*1 → (dset k v d).*1 = d.*1.
Proof.
  induction d as [|[k' v'] d IH]; simpl; [intros []%not_elem_of_nil|].
  case_bool_decide; [done|]. intros [?|?]%elem_of_cons; [done|]. simpl. f_equal. auto.
Qed.

Lemma dset_notin k v d : k ∉ d.*1 → dset k v d = d ++ [(k, v)].
Proof.
  induction d as [|[k' v'] d IH]; simpl; [done|]. rewrite not_elem_of_cons. intros [Hne Hn].
  rewrite bool_decide_eq_false_2 by done. f_equal. auto.
Qed.

Lemma NoDup_dset k v d : NoDup d.*1 → NoDup (dset k v d).*1.
Proof.
  intros Hnd. destruct (decide (k ∈ d.*1)) as [H|H]; [by rewrite dset_keys_in|].
  rewrite dset_notin, fmap_app by done. apply NoDup_app. split; [done|]. split; [|apply NoDup_singleton].
  intros x Hx ->%list_elem_of_singleton. done.
Qed.

Lemma dset_elem k v k' v' d : (k', v') ∈ dset k v d → (k' = k ∧ v' = v) ∨ (k', v') ∈ d.
Proof.
  induction d as [|[k2 v2] d IH]; simpl; [intros [[= -> ->]|[]%not_elem_of_nil]%elem_of_cons; auto|].
  case_bool_decide as E; subst; (intros [[= -> ->]|H]%elem_of_cons; [auto using list_elem_of_here|]).
  - right. by right.
  - destruct (IH H) as [?|?]; auto. right. by right.
Qed.

Lemma dset_get_elem k v k' v' d : (k', v') ∈ d → k' ≠ k → (k', v') ∈ dset k v d.
Proof.
  induction d as [|[k2 v2] d IH]; simpl; [intros []%not_elem_of_nil|].
  intros [[= -> ->]|H]%elem_of_cons Hne; case_bool_decide as E; subst; try done; [left|by right|right; auto].
Qed.

Lemma ddel_notin k d : k ∉ d.*1 → ddel k d = d.
Proof.
  induction d as [|[k' v'] d IH]; simpl; [done|]. rewrite not_elem_of_cons. intros [Hne Hn].
  rewrite bool_decide_eq_false_2 by done. f_equal. auto.
Qed.

Lemma ddel_sublist k d : sublist (ddel k d) d.
Proof. induction d as [|[k' v'] d IH]; simpl; [done|]. case_bool_decide; [by constructor|by constructor]. Qed.

Lemma elem_of_ddel_keys k k' d : k' ∈ (ddel k d).*1 → k' ∈ d.*1.
Proof.
  induction d as [|[k2 v2] d IH]; simpl; [done|]. case_bool_decide as E; simpl; set_solver.
Qed.

Lemma NoDup_ddel k d : NoDup d.*1 → NoDup (ddel k d).*1.
Proof.
  induction d as [|[k2 v2] d IH]; simpl; [done|]. rewrite NoDup_cons. intros [Hn Hnd].
  case_bool_decide as E; [done|]. simpl. apply NoDup_cons. split; [|auto]. by intros ?%elem_of_ddel_keys.
Qed.

Lemma dget_ddel_ne k k' d : k ≠ k' → dget k (ddel k' d) = dget k d.
Proof.
  intros Hne. induction d as [|[k2 v2] d IH]; simpl; [done|].
  case_bool_decide; subst; [by rewrite bool_decide_eq_false_2|]. simpl. by rewrite IH.
Qed.

Lemma dget_ddel_eq k d : NoDup d.*1 → dget k (ddel k d) = None.
Proof.
  induction d as [|[k2 v2] d IH]; simpl; [done|]. rewrite NoDup_cons. intros [Hn Hnd].
  case_bool_decide; subst; [by apply dget_None|]. simpl. rewrite bool_decide_eq_false_2 by done. auto.
Qed.

Lemma elem_of_ddel k k' v' d : (k', v') ∈ ddel k d → (k', v') ∈ d.
Proof. intros H. eapply elem_of_submseteq; [done|]. apply sublist_submseteq, ddel_sublist. Qed.

Lemma ddel_elem k k' v' d : (k', v') ∈ d → k' ≠ k → (k', v') ∈ ddel k d.
Proof.
  intros H Hne. induction d as [|[k2 v2] d IH]; simpl; [by apply not_elem_of_nil in H|].
  apply elem_of_cons in H as [[= -> ->]|H]; [by rewrite bool_decide_eq_false_2; [left|]|].
  case_bool_decide; [done|]. right. auto.
Qed.

(** [dict(pairs)] of pairs with distinct keys *)
Lemma dmerge_app (a b : list (string * V)) : NoDup (a ++ b).*1 → dmerge a b = a ++ b.
Proof.
  unfold dmerge. revert a. induction b as [|[k v] b IH]; intros a Hnd; simpl; [by rewrite app_nil_r|].
  rewrite fmap_app, NoDup_app in Hnd. destruct Hnd as (Ha & Hd & Hb).
  assert (k ∉ a.*1) as Hk by (intros H; apply (Hd k H); left).
  rewrite dset_notin by done. rewrite IH; [by rewrite <- app_assoc|].
  rewrite <- app_assoc, fmap_app. apply NoDup_app. split_and!; auto.
Qed.
Lemma dmerge_nil (b : list (string * V)) : NoDup b.*1 → dmerge [] b = b.
Proof. apply (dmerge_app []). Qed.

Lemma elem_of_dmerge_keys k (a b : list (string * V)) : k ∈ (dmerge a b).*1 ↔ k ∈ a.*1 ∨ k ∈ b.*1.
Proof.
  unfold dmerge. revert a. induction b as [|[k' v] b IH]; intros a; simpl; [set_solver|].
  rewrite IH, elem_of_dset_keys. set_solver.
Qed.
Lemma elem_of_dmerge kv (a b : list (string * V)) : kv ∈ dmerge a b → kv ∈ a ∨ kv ∈ b.
Proof.
  unfold dmerge. revert a. induction b as [|[k' v] b IH]; intros a; simpl; [by left|].
  intros [H|H]%IH; [|right; by right]. destruct kv. apply dset_elem in H as [[-> ->]|H]; [right; left|by left].
Qed.

(** *** Counting the values a test picks *)

(** [sum(1 for v in vs if p(v))] *)
Definition count (p : V → bool) (vs : list V) : Z := Z.of_nat (length (filter (λ v, p v = true) vs)).

Lemma count_nil p : count p [] = 0%Z.
Proof. done. Qed.
Lemma count_cons p v vs : count p (v :: vs) = (Z.b2z (p v) + count p vs)%Z.
Proof.
  unfold count. destruct (p v) eqn:E.
  - rewrite filter_cons_True by done. simpl. lia.
  - rewrite filter_cons_False by (by rewrite E). simpl. lia.
Qed.
Lemma count_app p vs ws : count p (vs ++ ws) = (count p vs + count p ws)%Z.
Proof. unfold count. rewrite filter_app, length_app. lia. Qed.
Lemma count_nonneg p vs : (0 ≤ count p vs)%Z.
Proof. unfold count. lia. Qed.
Lemma count_pos p vs v : v ∈ vs → p v = true → (0 < count p vs)%Z.
Proof.
  induction vs as [|w vs IH]; [intros []%not_elem_of_nil|]. intros [->|H]%elem_of_cons Hp; rewrite count_cons.
  - rewrite Hp. pose proof (count_nonneg p vs). simpl. lia.
  - specialize (IH H Hp). destruct (p w); simpl; lia.
Qed.
Lemma count_ext p q vs : (∀ v, v ∈ vs → p v = q v) → count p vs = count q vs.
Proof.
  induction vs as [|v vs IH]; [done|]. intros H. rewrite !count_cons, H, IH by set_solver. done.
Qed.
Lemma count_le p q vs : (∀ v, v ∈ vs → p v = true → q v = true) → (count p vs ≤ count q vs)%Z.
Proof.
  induction vs as [|v vs IH]; [done|]. intros H. rewrite !count_cons.
  assert (count p vs ≤ count q vs)%Z by (apply IH; intros; apply H; set_solver).
  specialize (H v (list_elem_of_here _ _)). destruct (p v), (q v); simpl; naive_solver lia.
Qed.
Lemma count_length p vs : (count p vs ≤ Z.of_nat (length vs))%Z.
Proof. induction vs as [|v vs IH]; [done|]. rewrite count_cons, length_cons. destruct (p v); simpl; lia. Qed.

Lemma count_dset_new p k v d : k ∉ d.*1 → count p (dvals (dset k v d)) = (count p (dvals d) + Z.b2z (p v))%Z.
Proof.
  intros H. rewrite dset_notin by done. unfold dvals. rewrite fmap_app, count_app. simpl.
  rewrite count_cons, count_nil. lia.
Qed.

Lemma count_dset_upd p k v v0 d :
  dget k d = Some v0 → count p (dvals (dset k v d)) = (count p (dvals d) - Z.b2z (p v0) + Z.b2z (p v))%Z.
Proof.
  induction d as [|[k' v'] d IH]; cbn [dget dset ddel]; [done|]. case_bool_decide as E; rewrite !dvals_cons, !count_cons.
  - intros [= ->]. lia.
  - intros H. rewrite IH by done. lia.
Qed.

Lemma count_ddel p k v0 d :
  dget k d = Some v0 → count p (dvals (ddel k d)) = (count p (dvals d) - Z.b2z (p v0))%Z.
Proof.
  induction d as [|[k' v'] d IH]; cbn [dget dset ddel]; [done|]. case_bool_decide as E; rewrite !dvals_cons, !count_cons.
  - intros [= ->]. lia.
  - intros H. rewrite IH by done. lia.
Qed.
End dicts.

(** [sum(d.values())] of ints. *)
Definition zsum (l : list Z) : Z := foldr Z.add 0%Z l.

Lemma zsum_cons n l : zsum (n :: l) = (n + zsum l)%Z.
Proof. done. Qed.
Lemma zsum_app l l' : zsum (l ++ l') = (zsum l + zsum l')%Z.
Proof. induction l as [|x l IH]; [done|]. simpl app. rewrite !zsum_cons. lia. Qed.
Lemma zsum_nonneg l : Forall (λ n, 0 ≤ n)%Z l → (0 ≤ zsum l)%Z.
Proof. induction 1 as [|n l Hn Hl IH]; [done|]. rewrite zsum_cons. lia. Qed.
Lemma zsum_dset_upd k v v0 (d : list (string * Z)) :
  dget k d = Some v0 → zsum (dvals (dset k v d)) = (zsum (dvals d) - v0 + v)%Z.
Proof.
  induction d as [|[k' v'] d IH]; cbn [dget dset ddel]; [done|]. case_bool_decide as E; rewrite !dvals_cons, !zsum_cons.
  - intros [= ->]. lia.
  - intros H. rewrite IH by done. lia.
Qed.
Lemma zsum_dset_new k v (d : list (string * Z)) :
  k ∉ d.*1 → zsum (dvals (dset k v d)) = (zsum (dvals d) + v)%Z.
Proof. intros H. rewrite dset_notin by done. unfold dvals. rewrite fmap_app, zsum_app. unfold zsum. simpl. lia. Qed.
Lemma zsum_ddel k v0 (d : list (string * Z)) :
  dget k d = Some v0 → zsum (dvals (ddel k d)) = (zsum (dvals d) - v0)%Z.
Proof.
  induction d as [|[k' v'] d IH]; cbn [dget dset ddel]; [done|]. case_bool_decide as E; rewrite !dvals_cons, !zsum_cons.
  - intros [= ->]. lia.
  - intros H. rewrite IH by done. lia.
Qed.

(** *** Sums of a weight over the values *)

Section weights.
Context {V : Type}.
Implicit Types (f g : V → Z) (d : list (string * V)).

Definition wsum f d : Z := zsum (f <$> dvals d).

Lemma wsum_cons f k v d : wsum f ((k, v) :: d) = (f v + wsum f d)%Z.
Proof. done. Qed.
Lemma wsum_dset_new f k v d : dget k d = None → wsum f (dset k v d) = (wsum f d + f v)%Z.
Proof.
  induction d as [|[k' v'] d IH]; cbn [dget dset]; [intros _; rewrite wsum_cons; unfold wsum; simpl; lia|].
  case_bool_decide as E; [done|]. rewrite !wsum_cons. intros H%IH. lia.
Qed.
Lemma wsum_dset_upd f k v v0 d : dget k d = Some v0 → wsum f (dset k v d) = (wsum f d - f v0 + f v)%Z.
Proof.
  induction d as [|[k' v'] d IH]; cbn [dget dset]; [done|]. case_bool_decide as E; rewrite !wsum_cons; [intros [= ->]; lia|].
  intros H%IH. lia.
Qed.
Lemma wsum_ddel f k v0 d : dget k d = Some v0 → wsum f (ddel k d) = (wsum f d - f v0)%Z.
Proof.
  induction d as [|[k' v'] d IH]; cbn [dget ddel]; [done|]. case_bool_decide as E; rewrite !wsum_cons; [intros [= ->]; lia|].
  intros H%IH. lia.
Qed.
Lemma wsum_nonneg f d : (∀ v, 0 ≤ f v)%Z → (0 ≤ wsum f d)%Z.
Proof. intros H. induction d as [|[k v] d IH]; [done|]. rewrite wsum_cons. specialize (H v). lia. Qed.
Lemma wsum_ge f k v d : (∀ v, 0 ≤ f v)%Z → dget k d = Some v → (f v ≤ wsum f d)%Z.
Proof.
  intros H. induction d as [|[k' v'] d IH]; cbn [dget]; [done|]. rewrite wsum_cons. case_bool_decide as E.
  - intros [= ->]. pose proof (wsum_nonneg f d H). lia.
  - intros Hk%IH. specialize (H v'). lia.
Qed.
End weights.

(** *** Values that satisfy a predicate *)

Section vals.
Context {V : Type} (P : V → Prop).
Implicit Types d : list (string * V).

Lemma Forall_dset k v d : P v → Forall P (dvals d) → Forall P (dvals (dset k v d)).
Proof.
  intros Hv H. induction d as [|[k' v'] d IH]; simpl; [by constructor|].
  apply Forall_cons in H as [H1 H2]. case_bool_decide; constructor; auto.
Qed.
Lemma Forall_ddel k d : Forall P (dvals d) → Forall P (dvals (ddel k d)).
Proof.
  intros H. induction d as [|[k' v'] d IH]; simpl; [done|].
  apply Forall_cons in H as [H1 H2]. case_bool_decide; [done|]. constructor; auto.
Qed.
End vals.

(** ** Enums by value: [E(s)] *)

Section enums.
Context {E : Type} (all : list E) (value : E → string).

Definition enum_of (s : string) : res E :=
  match filter (λ e, value e = s) all with
  | e :: _ => Ok e
  | [] => Raise (ValueError (repr_str s +:+ " is not a valid member"))
  end.

Lemma enum_of_value e : e ∈ all → (∀ e1 e2, value e1 = value e2 → e1 = e2) → enum_of (value e) = Ok e.
Proof.
  intros Hin Hinj. unfold enum_of. destruct (filter _ all) as [|e' l] eqn:Hf.
  - exfalso. assert (e ∈ filter (λ e0, value e0 = value e) all) as H by (by apply list_elem_of_filter).
    rewrite Hf in H. by apply not_elem_of_nil in H.
  - f_equal. apply Hinj. assert (e' ∈ filter (λ e0, value e0 = value e) all) as H by (rewrite Hf; left).
    by apply list_elem_of_filter in H as [? _].
Qed.
End enums.

(** ** Sublists and invariants of runs *)

Lemma Forall_sublist {A} (P : A → Prop) l l' : sublist l' l → Forall P l → Forall P l'.
Proof. intros Hs. induction Hs; inversion 1; subst; auto. Qed.


Lemma dget_dset k k' {V} (v : V) d : dget k (dset k' v d) = if bool_decide (k = k') then Some v else dget k d.
Proof. case_bool_decide; [subst; apply dget_dset_eq|by apply dget_dset_ne]. Qed.
Lemma dget_ddel k k' {V} (d : list (string * V)) : NoDup d.*1 →
  dget k (ddel k' d) = if bool_decide (k = k') then None else dget k d.
Proof. intros H. case_bool_decide; [subst; by apply dget_ddel_eq|by apply dget_ddel_ne]. Qed.

Lemma rtc_preserves {A} (R : relation A) (P : A → Prop) x y :
  (∀ a b, P a → R a b → P b) → P x → rtc R x y → P y.
Proof. intros Hstep Hx Hr. induction Hr; eauto. Qed.
