(* ===== verification/TestRequests.v ===== *)
(** * Test requests

    The request a multi-branch module hands to the toolbox ([contracts/measurement.py], [TestRequest])
    with the checks its construction makes ([contracts/_validate.py]).  The change a request carries (a
    [RecipeDelta]) is a type [D] with its empty value; the components that look inside it say so. *)

From stdpp Require Import base list strings pretty sets gmap.
From Stdlib Require Import ZArith Lia Ascii.
From S2P Require Import Prelude PyFloat PyVal Dicts.

Definition PRIORITY_HIGHEST : Z := 0.
Definition PRIORITY_LOWEST : Z := 4.

Inductive TestKind := K_TEST | K_PROFILE | K_ACCURACY | K_REPRO | K_SWEEP.
Definition TestKind_value (k : TestKind) : string :=
  match k with
  | K_TEST => "test" | K_PROFILE => "profile" | K_ACCURACY => "accuracy" | K_REPRO => "repro" | K_SWEEP => "sweep"
  end.

Inductive Purpose :=
| P_BASELINE | P_HEALTH | P_EXPLORE | P_CONFIRM | P_INTEGRATION | P_PROFILE | P_ACCURACY | P_REPRO | P_FINAL.
Definition Purpose_all : list Purpose :=
  [P_BASELINE; P_HEALTH; P_EXPLORE; P_CONFIRM; P_INTEGRATION; P_PROFILE; P_ACCURACY; P_REPRO; P_FINAL].
Definition Purpose_value (p : Purpose) : string :=
  match p with
  | P_BASELINE => "baseline" | P_HEALTH => "health" | P_EXPLORE => "explore" | P_CONFIRM => "confirm"
  | P_INTEGRATION => "integration" | P_PROFILE => "profile" | P_ACCURACY => "accuracy" | P_REPRO => "repro"
  | P_FINAL => "final"
  end.

#[global] Instance TestKind_eq_dec : EqDecision TestKind.
Proof. solve_decision. Defined.
#[global] Instance Purpose_eq_dec : EqDecision Purpose.
Proof. solve_decision. Defined.

Lemma Purpose_value_inj p p' : Purpose_value p = Purpose_value p' → p = p'.
Proof. by destruct p, p'. Qed.

(** [_SHA256.fullmatch]: 64 lowercase hexadecimal digits. *)
Definition is_hex (c : ascii) : bool :=
  let n := nat_of_ascii c in ((48 <=? n) && (n <=? 57) || (97 <=? n) && (n <=? 102))%nat.
Definition is_sha256 (s : string) : bool := bool_decide (String.length s = 64) && forallb is_hex (chars s).

Record AttachmentRef := { at_id : string; at_kind : string; at_sha256 : string }.
#[global] Instance AttachmentRef_eq_dec : EqDecision AttachmentRef.
Proof. solve_decision. Defined.

Section request.
Context {D : Type} `{!EqDecision D} (no_delta : D).

Record TestRequest := {
  tr_kind : TestKind;
  tr_purpose : Purpose;
  tr_branch_id : string;
  tr_parent_commit : string;
  tr_delta : D;
  tr_intent_fingerprint : option string;
  tr_priority : option Z;
  tr_retest_of : option string;
  tr_avoid_nodes : list string;
  tr_accuracy : bool;
  tr_concurrency : list Z;
  tr_attachments : list AttachmentRef;
  tr_request_id : option string;
  tr_diff_ref : string;
  tr_consistency_check : option bool;
  tr_long_context_check : option bool
}.

#[global] Instance TestRequest_eq_dec : EqDecision TestRequest.
Proof. solve_decision. Defined.

(** *** The checks of [__post_init__], each with the error it raises *)

(** [_text] *)
Definition check_text (value what : string) : res unit :=
  raise_if (String.eqb (py_strip value) EmptyString || negb (String.eqb value (py_strip value)))
    (MeasurementError (what +:+ " must be a non-empty string without surrounding whitespace, got "
                       +:+ repr_str value)).
Definition check_optional_text (value : option string) (what : string) : res unit :=
  match value with Some v => check_text v what | None => Ok () end.
(** [_int] *)
Definition check_int (value : Z) (what : string) (minimum : Z) : res unit :=
  raise_if (value <? minimum)%Z
    (MeasurementError (what +:+ " must be an integer of at least " +:+ pretty minimum +:+ ", got " +:+ pretty value)).

(** [AttachmentRef.__post_init__] *)
Definition check_attachment (a : AttachmentRef) : res unit :=
  _ ← check_text (at_id a) "an attachment id";
  _ ← raise_if (negb (bool_decide (at_kind a ∈ ["file"; "dir"])))
        (MeasurementError ("an attachment kind must be 'file' or 'dir', got " +:+ repr_str (at_kind a)));
  raise_if (negb (is_sha256 (at_sha256 a)))
    (MeasurementError ("the sha256 of attachment " +:+ at_id a +:+ " must be a lowercase hex sha256, got "
                       +:+ repr_str (at_sha256 a))).

Definition check_priority (r : TestRequest) : res unit :=
  match tr_priority r with
  | None => Ok ()
  | Some p =>
      _ ← check_int p "priority" PRIORITY_HIGHEST;
      raise_if (PRIORITY_LOWEST <? p)%Z
        (MeasurementError ("priority must be " +:+ pretty PRIORITY_HIGHEST +:+ " to " +:+ pretty PRIORITY_LOWEST
                           +:+ ", got " +:+ pretty p))
  end.

Definition check_lists (r : TestRequest) : res unit :=
  _ ← for_each (λ n, check_text n "an avoided node") (tr_avoid_nodes r);
  _ ← for_each (λ v, check_int v "a concurrency" 1) (tr_concurrency r);
  _ ← raise_if (negb (bool_decide (NoDup (tr_concurrency r))))
        (MeasurementError "concurrency values must not repeat");
  raise_if (negb (bool_decide (NoDup (at_id <$> tr_attachments r))))
    (MeasurementError "attachments must be AttachmentRef values with distinct ids").

Definition check_combinations (r : TestRequest) : res unit :=
  _ ← raise_if (xorb (bool_decide (tr_purpose r = P_CONFIRM)) (bool_decide (is_Some (tr_retest_of r))))
        (MeasurementError "retest_of is required for purpose 'confirm' and allowed for no other purpose");
  _ ← raise_if (bool_decide (tr_purpose r ∈ [P_BASELINE; P_HEALTH]) && negb (bool_decide (tr_delta r = no_delta)))
        (MeasurementError ("a '" +:+ Purpose_value (tr_purpose r)
                           +:+ "' test measures the parent as it is: delta must be empty"));
  _ ← raise_if (bool_decide (tr_kind r = K_ACCURACY) && negb (tr_accuracy r))
        (MeasurementError "an 'accuracy' test only evaluates accuracy: accuracy must be true");
  _ ← raise_if (bool_decide (tr_kind r = K_REPRO) && bool_decide (tr_attachments r = []))
        (MeasurementError "a 'repro' test needs the reproduction case as an attachment");
  raise_if (bool_decide (1 < length (tr_concurrency r))%nat && negb (bool_decide (tr_kind r ∈ [K_TEST; K_SWEEP])))
    (MeasurementError ("several concurrency values are only for 'test' requests, not "
                       +:+ repr_str (TestKind_value (tr_kind r)))).

(** [TestRequest.__post_init__]; the type checks of the enums, the delta and the flags are the record's types. *)
Definition post_init (r : TestRequest) : res unit :=
  _ ← check_text (tr_branch_id r) "branch_id";
  _ ← check_text (tr_parent_commit r) "parent_commit";
  _ ← check_optional_text (tr_intent_fingerprint r) "intent_fingerprint";
  _ ← check_optional_text (tr_request_id r) "request_id";
  _ ← check_optional_text (tr_retest_of r) "retest_of";
  _ ← check_priority r;
  _ ← check_lists r;
  check_combinations r.

(** A request construction accepts is a valid request. *)
Definition request_ok (r : TestRequest) : Prop := post_init r = Ok ().

(** [accepted] *)
Definition accepted (request_id : string) (r : TestRequest) : TestRequest :=
  {| tr_kind := tr_kind r; tr_purpose := tr_purpose r; tr_branch_id := tr_branch_id r;
     tr_parent_commit := tr_parent_commit r; tr_delta := tr_delta r;
     tr_intent_fingerprint := tr_intent_fingerprint r; tr_priority := tr_priority r;
     tr_retest_of := tr_retest_of r; tr_avoid_nodes := tr_avoid_nodes r; tr_accuracy := tr_accuracy r;
     tr_concurrency := tr_concurrency r; tr_attachments := tr_attachments r; tr_request_id := Some request_id;
     tr_diff_ref := tr_diff_ref r; tr_consistency_check := tr_consistency_check r;
     tr_long_context_check := tr_long_context_check r |}.

Lemma request_ok_priority r p :
  request_ok r → tr_priority r = Some p → (PRIORITY_HIGHEST ≤ p ≤ PRIORITY_LOWEST)%Z.
Proof.
  unfold request_ok, post_init. rewrite !seq_ok. intros (_&_&_&_&_&H&_) E.
  unfold check_priority in H. rewrite E in H. unfold check_int in H.
  rewrite raise_if_bind, raise_if_ok, Z.ltb_ge, Z.ltb_ge in H. done.
Qed.

Lemma request_ok_confirm r : request_ok r → tr_purpose r = P_CONFIRM ↔ is_Some (tr_retest_of r).
Proof.
  unfold request_ok, post_init. rewrite !seq_ok. intros (_&_&_&_&_&_&_&H).
  unfold check_combinations in H. rewrite raise_if_bind in H. destruct H as [H _].
  repeat case_bool_decide; naive_solver.
Qed.
End request.
#[global] Arguments TestRequest : clear implicits.
