(* ===== verification/WorkQueue.v ===== *)
(** * The toolbox's test queue

    [multibranch/toolbox/queue.py]: the policy the scheduler sets ([QueuePolicy]) and the queue of accepted
    tests ([WorkQueue]), with five priorities, a K per branch, a global limit and backpressure.

    The queue's dict of tests is an insertion-ordered association list; the tests it holds are mutated in
    place by the source, so an operation that changes a test's state writes the changed test back under its
    key.  Then: [take] is the first startable test of the waiting list sorted by priority and arrival; no run
    of the queue starts more tests than a policy in force allowed; a waiting test only moves up. *)

From stdpp Require Import base list strings pretty sets gmap sorting.
From Stdlib Require Import ZArith Lia.
From S2P Require Import Prelude PyFloat PyVal Dicts TestRequests.

(** ** The policy *)

Definition DEFAULT_QUEUE_FACTOR : Z := 4.
Definition DEFAULT_K : Z := 2.
Definition DEFAULT_K_KEY : string := "*".
Definition BRANCH_STOPPED : string := "branch_stopped".

Definition DEFAULT_PRIORITY (p : Purpose) : Z :=
  match p with
  | P_CONFIRM => 0 | P_REPRO => 1 | P_INTEGRATION => 2 | P_PROFILE => 3 | P_ACCURACY => 3 | P_EXPLORE => 4
  | P_BASELINE => 2 | P_FINAL => 2 | P_HEALTH => 4
  end%Z.

(** [per_branch_k] is an int or a mapping. *)
Inductive KArg := KInt (k : Z) | KMap (m : list (string * Z)).

Section queue.
Context {F D : Type} `{!FloatOps F}.
Implicit Types (r : TestRequest D).

Record QueuePolicy := {
  per_branch_k : Z;
  global_concurrency : Z;
  priority_override : list (string * Z);
  max_queued_per_branch : option Z;
  branch_k : list (string * Z);
  listed_branches_only : bool;
  branch_deadline : list (string * F);
  open_branches : option (list string)
}.

(** The priorities [__post_init__] checks: known purposes, [0] to [4]. *)
Definition check_override (kv : string * Z) : res unit :=
  _ ← enum_of Purpose_all Purpose_value kv.1;
  raise_if (negb ((PRIORITY_HIGHEST <=? kv.2) && (kv.2 <=? PRIORITY_LOWEST))%Z)
    (ValueError ("priority " +:+ pretty kv.2 +:+ " for " +:+ repr_str kv.1 +:+ " is outside "
                 +:+ pretty PRIORITY_HIGHEST +:+ ".." +:+ pretty PRIORITY_LOWEST)).

(** [QueuePolicy(...)] with its [__post_init__]. *)
Definition mk_policy (k : KArg) (gc : Z) (override : list (string * Z)) (max_queued : option Z)
    (bk : list (string * Z)) (listed : bool) (deadline : list (string * F)) (opens : option (list string)) :
    res QueuePolicy :=
  let '(default, bk') := match k with
    | KInt k => (k, bk)
    | KMap m => (default DEFAULT_K (dget DEFAULT_K_KEY m),
                 dmerge (filter (λ kv, kv.1 ≠ DEFAULT_K_KEY) m) bk)
    end in
  _ ← raise_if ((default <? 1) || (gc <? 1) || existsb (λ n, n <? 1) (dvals bk'))%Z
        (ValueError "every K and global_concurrency must be at least 1");
  _ ← for_each check_override override;
  Ok {| per_branch_k := default; global_concurrency := gc; priority_override := override;
        max_queued_per_branch := max_queued; branch_k := bk'; listed_branches_only := listed;
        branch_deadline := deadline; open_branches := opens |}.

Definition k_for (p : QueuePolicy) (branch : string) : Z := default (per_branch_k p) (dget branch (branch_k p)).

Definition queue_limit_for (p : QueuePolicy) (branch : string) : Z :=
  match max_queued_per_branch p with
  | Some n => n
  | None => (DEFAULT_QUEUE_FACTOR * k_for p branch)%Z
  end.

Definition priority_of (p : QueuePolicy) r : Z :=
  match tr_priority r with
  | Some n => n
  | None => default (DEFAULT_PRIORITY (tr_purpose r)) (dget (Purpose_value (tr_purpose r)) (priority_override p))
  end.

Definition sandbox_priority (priority : Z) : res Z :=
  match priority with
  | 0 | 1 => Ok 0 | 2 | 3 => Ok 1 | 4 => Ok 2
  | n => Raise (KeyError (pretty n))
  end%Z.

Definition EXEMPT_PURPOSES : list Purpose := [P_CONFIRM; P_REPRO; P_BASELINE; P_HEALTH; P_FINAL].
Definition exempt_from_k r : bool :=
  bool_decide (tr_purpose r ∈ EXEMPT_PURPOSES) || bool_decide (tr_kind r = K_REPRO).

(** ** The queue *)

Inductive TState := PENDING_BUILD | QUEUED | RUNNING.
#[global] Instance TState_eq_dec : EqDecision TState.
Proof. solve_decision. Defined.

Record QueuedTest := {
  qt_request : TestRequest D;
  qt_priority : Z;
  qt_seq : Z;
  qt_queued_at : F;
  qt_state : TState;
  qt_started_at : option F
}.
Implicit Types (t : QueuedTest).

Definition qt_request_id t : string := default EmptyString (tr_request_id (qt_request t)).
Definition qt_branch t : string := tr_branch_id (qt_request t).
Definition in_waiting_states t : bool := match qt_state t with RUNNING => false | _ => true end.
Definition is_queued t : bool := bool_decide (qt_state t = QUEUED).
Definition is_running t : bool := bool_decide (qt_state t = RUNNING).

Definition with_state (s : TState) t : QueuedTest :=
  {| qt_request := qt_request t; qt_priority := qt_priority t; qt_seq := qt_seq t;
     qt_queued_at := qt_queued_at t; qt_state := s; qt_started_at := qt_started_at t |}.
Definition with_queued_at (now : F) t : QueuedTest :=
  {| qt_request := qt_request t; qt_priority := qt_priority t; qt_seq := qt_seq t;
     qt_queued_at := now; qt_state := qt_state t; qt_started_at := qt_started_at t |}.
Definition with_seq (n : Z) t : QueuedTest :=
  {| qt_request := qt_request t; qt_priority := qt_priority t; qt_seq := n;
     qt_queued_at := qt_queued_at t; qt_state := qt_state t; qt_started_at := qt_started_at t |}.
Definition with_priority (n : Z) t : QueuedTest :=
  {| qt_request := qt_request t; qt_priority := n; qt_seq := qt_seq t;
     qt_queued_at := qt_queued_at t; qt_state := qt_state t; qt_started_at := qt_started_at t |}.

Record WorkQueue := {
  q_policy : QueuePolicy;
  q_items : list (string * QueuedTest);
  q_arrivals : Z
}.
Implicit Types (q : WorkQueue).

Definition q_new (p : QueuePolicy) : WorkQueue := {| q_policy := p; q_items := []; q_arrivals := 0 |}.
Definition set_policy (p : QueuePolicy) q : WorkQueue :=
  {| q_policy := p; q_items := q_items q; q_arrivals := q_arrivals q |}.
Definition with_items (l : list (string * QueuedTest)) q : WorkQueue :=
  {| q_policy := q_policy q; q_items := l; q_arrivals := q_arrivals q |}.

(** [queued_counted] and [_running_counted] *)
Definition queued_counted q (branch : string) : Z :=
  count (λ t, in_waiting_states t && bool_decide (qt_branch t = branch) && negb (exempt_from_k (qt_request t)))
    (dvals (q_items q)).
Definition running_counted q (branch : string) : Z :=
  count (λ t, is_running t && bool_decide (qt_branch t = branch) && negb (exempt_from_k (qt_request t)))
    (dvals (q_items q)).
Definition running q : Z := count is_running (dvals (q_items q)).

Definition check_branch_listed q r : res unit :=
  match open_branches (q_policy q) with
  | Some opens =>
      raise_if (negb (bool_decide (tr_branch_id r ∈ opens)))
        (RequestRejected ("branch " +:+ repr_str (tr_branch_id r) +:+ " is closed to new tests") BRANCH_STOPPED)
  | None =>
      raise_if (listed_branches_only (q_policy q) && negb (din (tr_branch_id r) (branch_k (q_policy q))))
        (RequestRejected ("branch " +:+ repr_str (tr_branch_id r) +:+ " has no quota") BRANCH_STOPPED)
  end.

Definition check_backpressure q r : res unit :=
  if exempt_from_k r then Ok ()
  else
    let queued := queued_counted q (tr_branch_id r) in
    let limit := queue_limit_for (q_policy q) (tr_branch_id r) in
    raise_if (limit <=? queued)%Z (Backpressure (tr_branch_id r) queued limit).

Definition push q t : res WorkQueue :=
  if negb (in_waiting_states t) then Raise (ValueError "a test enters the queue waiting, not running")
  else
    let n := (q_arrivals q + 1)%Z in
    Ok {| q_policy := q_policy q; q_items := dset (qt_request_id t) (with_seq n t) (q_items q); q_arrivals := n |}.

Definition release q (request_id : string) (now : F) : bool * WorkQueue :=
  match dget request_id (q_items q) with
  | Some t =>
      if bool_decide (qt_state t = PENDING_BUILD)
      then (true, with_items (dset request_id (with_queued_at now (with_state QUEUED t)) (q_items q)) q)
      else (false, q)
  | None => (false, q)
  end.

(** [(item.priority, item.seq)] compared as Python compares tuples. *)
Definition before t t' : bool :=
  ((qt_priority t <? qt_priority t') || ((qt_priority t =? qt_priority t') && (qt_seq t <? qt_seq t')))%Z.

(** [min(ready, key=...)]: the first of the least. *)
Fixpoint min_test (best : string * QueuedTest) (l : list (string * QueuedTest)) : string * QueuedTest :=
  match l with
  | [] => best
  | x :: l' => min_test (if before x.2 best.2 then x else best) l'
  end.

(** A queued test the K of its branch lets start. *)
Definition startable q t : bool :=
  is_queued t && (exempt_from_k (qt_request t) || (running_counted q (qt_branch t) <? k_for (q_policy q) (qt_branch t))%Z).

Definition take_cap q (parallel_limit : option Z) : Z :=
  match parallel_limit with
  | None => global_concurrency (q_policy q)
  | Some n => Z.min (global_concurrency (q_policy q)) n
  end.

Definition take q (parallel_limit : option Z) : option QueuedTest * WorkQueue :=
  if (take_cap q parallel_limit <=? running q)%Z then (None, q)
  else
    match filter (λ kt, startable q kt.2 = true) (q_items q) with
    | [] => (None, q)
    | x :: l =>
        let '(k, t) := min_test x l in
        let t' := with_state RUNNING t in
        (Some t', with_items (dset k t' (q_items q)) q)
    end.

Definition queued_ahead q (request_id : string) : res Z :=
  match dget request_id (q_items q) with
  | None => Raise (KeyError request_id)
  | Some t => Ok (count (λ t', is_queued t' && before t' t) (dvals (q_items q)))
  end.

Definition remove q (request_id : string) : option QueuedTest * WorkQueue :=
  (dget request_id (q_items q), with_items (ddel request_id (q_items q)) q).

Definition reprioritise_test (p : QueuePolicy) t : QueuedTest :=
  if in_waiting_states t && bool_decide (tr_priority (qt_request t) = None)
  then with_priority (priority_of p (qt_request t)) t else t.
Definition reprioritise q : WorkQueue :=
  with_items ((λ kt, (kt.1, reprioritise_test (q_policy q) kt.2)) <$> q_items q) q.

(** [QueueState]: the queued tests by priority, and the tests of each branch in each state. *)
Record QueueState := {
  qs_by_priority : list (Z * Z);
  qs_running : list (string * Z);
  qs_queued : list (string * Z);
  qs_pending_build : list (string * Z)
}.
Definition bump (k : string) (d : list (string * Z)) : list (string * Z) :=
  dset k (default 0 (dget k d) + 1)%Z d.
Definition bump_priority (p : Z) (d : list (Z * Z)) : res (list (Z * Z)) :=
  if bool_decide (p ∈ d.*1) then Ok ((λ kn, if bool_decide (kn.1 = p) then (kn.1, kn.2 + 1)%Z else kn) <$> d)
  else Raise (KeyError (pretty p)).
Definition state_step (s : QueueState) t : res QueueState :=
  bp ← (if is_queued t then bump_priority (qt_priority t) (qs_by_priority s) else Ok (qs_by_priority s));
  Ok match qt_state t with
     | RUNNING => {| qs_by_priority := bp; qs_running := bump (qt_branch t) (qs_running s);
                     qs_queued := qs_queued s; qs_pending_build := qs_pending_build s |}
     | QUEUED => {| qs_by_priority := bp; qs_running := qs_running s;
                    qs_queued := bump (qt_branch t) (qs_queued s); qs_pending_build := qs_pending_build s |}
     | PENDING_BUILD => {| qs_by_priority := bp; qs_running := qs_running s; qs_queued := qs_queued s;
                           qs_pending_build := bump (qt_branch t) (qs_pending_build s) |}
     end.
Definition qs_empty : QueueState :=
  {| qs_by_priority := [(0, 0); (1, 0); (2, 0); (3, 0); (4, 0)]%Z; qs_running := []; qs_queued := [];
     qs_pending_build := [] |}.
Fixpoint state_fold (s : QueueState) (l : list QueuedTest) : res QueueState :=
  match l with
  | [] => Ok s
  | t :: l' => s' ← state_step s t; state_fold s' l'
  end.
(** [WorkQueue.state] *)
Definition q_state q : res QueueState := state_fold qs_empty (dvals (q_items q)).

(** ** The order of waiting tests *)

(** Strictly before, given distinct arrival numbers. *)
Lemma before_irrefl t : before t t = false.
Proof. unfold before. lia. Qed.
Lemma before_trans t1 t2 t3 : before t1 t2 = true → before t2 t3 = true → before t1 t3 = true.
Proof. unfold before. lia. Qed.
Lemma before_total t1 t2 : qt_seq t1 ≠ qt_seq t2 → before t1 t2 = false → before t2 t1 = true.
Proof. unfold before. lia. Qed.
Lemma before_asym t1 t2 : before t1 t2 = true → before t2 t1 = false.
Proof. unfold before. lia. Qed.
Lemma before_negtrans t1 t2 t3 : before t2 t1 = false → before t3 t2 = false → before t3 t1 = false.
Proof. unfold before. lia. Qed.

Lemma min_test_elem x l : min_test x l ∈ x :: l.
Proof.
  revert x. induction l as [|y l IH]; intros x; simpl; [left|]. destruct (before y.2 x.2).
  - right. apply IH.
  - specialize (IH x). apply elem_of_cons in IH as [->|?]; [left|right; by right].
Qed.

Lemma min_test_least x l y : y ∈ x :: l → before y.2 (min_test x l).2 = false.
Proof.
  revert x y. induction l as [|z l IH]; intros x y; simpl.
  - intros [->|[]%not_elem_of_nil]%elem_of_cons. apply before_irrefl.
  - intros [->|[->|Hy]%elem_of_cons]%elem_of_cons; destruct (before z.2 x.2) eqn:E.
    + eapply before_negtrans; [apply IH; left|]. by apply before_asym.
    + apply IH. left.
    + apply IH. left.
    + eapply before_negtrans; [apply IH; left|]. done.
    + apply IH. by right.
    + apply IH. by right.
Qed.

(** ** The invariant of the items *)

Record queue_ok q : Prop := {
  qo_keys : NoDup (q_items q).*1;
  qo_ids : ∀ k t, (k, t) ∈ q_items q → k = qt_request_id t;
  qo_seqs : NoDup (qt_seq <$> dvals (q_items q));
  qo_arrivals : ∀ t, t ∈ dvals (q_items q) → (qt_seq t ≤ q_arrivals q)%Z
}.

Lemma dvals_dset_fmap (f : QueuedTest → Z) k t t0 (l : list (string * QueuedTest)) :
  dget k l = Some t0 → f t = f t0 → f <$> dvals (dset k t l) = f <$> dvals l.
Proof.
  induction l as [|[k' t'] l IH]; cbn [dget dset]; [done|]. case_bool_decide as E; rewrite !dvals_cons, !fmap_cons.
  - intros [= ->] ->. done.
  - intros H Hf. by rewrite IH.
Qed.

(** Writing back a test with its number and request keeps the invariant. *)
Lemma queue_ok_write q k t t0 :
  queue_ok q → dget k (q_items q) = Some t0 → qt_seq t = qt_seq t0 → qt_request t = qt_request t0 →
  queue_ok (with_items (dset k t (q_items q)) q).
Proof.
  intros [Hk Hid Hs Ha] Hg Hseq Hreq. split; simpl.
  - by apply NoDup_dset.
  - intros k' t' [[-> ->]|H]%dset_elem; [|auto].
    unfold qt_request_id. rewrite Hreq. apply Hid. by apply dget_elem.
  - by rewrite (dvals_dset_fmap qt_seq k t t0).
  - intros t' Ht'. assert (Forall (λ u, qt_seq u ≤ q_arrivals q)%Z (dvals (dset k t (q_items q)))) as HF.
    { apply Forall_dset; [rewrite Hseq; apply Ha; by eapply dget_val|]. apply Forall_forall. intros u Hu. by apply Ha. }
    rewrite Forall_forall in HF. by apply HF.
Qed.

Lemma queue_ok_push q t q' : queue_ok q → push q t = Ok q' → queue_ok q'.
Proof.
  intros [Hk Hid Hs Ha] Hp. unfold push in Hp. destruct (negb _); [done|]. injection Hp as <-. split; simpl.
  - by apply NoDup_dset.
  - intros k' t' [[-> ->]|H]%dset_elem; [done|auto].
  - assert (∀ u, u ∈ dvals (q_items q) → qt_seq u ≠ q_arrivals q + 1)%Z as Hne.
    { intros u Hu. specialize (Ha u Hu). lia. }
    clear Ha. revert Hk Hs Hne. generalize (q_items q) as l. intros l _.
    induction l as [|[k' t'] l IH]; cbn [dset]; [intros; apply NoDup_singleton|].
    rewrite dvals_cons, fmap_cons, NoDup_cons. intros [Hn Hs] Hne. case_bool_decide as E.
    + rewrite dvals_cons, fmap_cons. apply NoDup_cons. split; [|done]. simpl.
      intros (u & Hu & Hin)%list_elem_of_fmap. apply (Hne u); [by right|done].
    + rewrite dvals_cons, fmap_cons. apply NoDup_cons. split; [|apply IH; [done|]; intros u Hu; apply Hne; by right].
      intros (u & Hu & Hin)%list_elem_of_fmap. apply list_elem_of_fmap in Hin as ([k2 t2] & -> & Hin). simpl in *.
      apply dset_elem in Hin as [[_ ->]|Hin]; [apply (Hne t'); [left|done]|].
      apply Hn. rewrite Hu. apply list_elem_of_fmap_2. apply list_elem_of_fmap. by exists (k2, t2).
  - intros u Hu. apply list_elem_of_fmap in Hu as ([k2 t2] & -> & Hin). simpl.
    apply dset_elem in Hin as [[_ ->]|Hin]; [simpl; lia|].
    assert (qt_seq t2 ≤ q_arrivals q)%Z; [|lia]. apply Ha. apply list_elem_of_fmap. by exists (k2, t2).
Qed.

(** ** Taking the next test *)

Lemma take_inv q lim t' q' :
  take q lim = (Some t', q') →
  ∃ k t, (k, t) ∈ q_items q ∧ startable q t = true ∧ t' = with_state RUNNING t ∧
         q' = with_items (dset k t' (q_items q)) q ∧ (running q < take_cap q lim)%Z ∧
         ∀ u, u ∈ dvals (q_items q) → startable q u = true → before u t = false.
Proof.
  unfold take. destruct (_ <=? _)%Z eqn:Hc; [done|].
  destruct (filter _ (q_items q)) as [|x l] eqn:Hf; [done|].
  pose proof (min_test_elem x l) as Hel. pose proof (min_test_least x l) as Hleast.
  destruct (min_test x l) as [k t] eqn:Hm. intros [= <- <-].
  rewrite <- Hf in Hel. apply list_elem_of_filter in Hel as [Hst Hin]. exists k, t. split_and!; try done; [lia|].
  intros u Hu Hus. apply list_elem_of_fmap in Hu as ([k2 u2] & -> & Hu). apply (Hleast (k2, u2)).
  rewrite <- Hf. by apply list_elem_of_filter.
Qed.

Lemma take_none q lim :
  (take q lim).1 = None ↔
  (take_cap q lim ≤ running q)%Z ∨ ∀ t, t ∈ dvals (q_items q) → startable q t = false.
Proof.
  unfold take. destruct (Z.leb_spec (take_cap q lim) (running q)) as [Hc|Hc]; [naive_solver|].
  destruct (filter _ (q_items q)) as [|x l] eqn:Hf; simpl.
  - split; [|done]. intros _. right. intros t ([k u] & -> & Hin)%list_elem_of_fmap. simpl.
    destruct (startable q u) eqn:E; [|done]. exfalso.
    assert ((k, u) ∈ filter (λ kt, startable q kt.2 = true) (q_items q)) as Hel by (by apply list_elem_of_filter).
    rewrite Hf in Hel. by apply not_elem_of_nil in Hel.
  - destruct (min_test x l); simpl. split; [done|]. intros [?|Hall]; [lia|]. exfalso.
    assert (x ∈ filter (λ kt, startable q kt.2 = true) (q_items q)) as Hel by (rewrite Hf; left).
    apply list_elem_of_filter in Hel as [Hst Hin]. rewrite Hall in Hst; [done|].
    apply list_elem_of_fmap. by exists x.
Qed.

(** *** The reference: the waiting tests in order, the first one that may start *)

Definition waiting_order q : list QueuedTest :=
  sort_by (λ t t', negb (before t' t)) (filter (λ t, is_queued t = true) (dvals (q_items q))).
Definition first_allowed q : option QueuedTest := head (filter (λ t, startable q t = true) (waiting_order q)).

Lemma elem_of_waiting_order q t : t ∈ waiting_order q ↔ is_queued t = true ∧ t ∈ dvals (q_items q).
Proof. unfold waiting_order. rewrite sort_by_perm. by rewrite list_elem_of_filter. Qed.

Lemma sorted_head_least {A} (R : A → A → Prop) (P : A → Prop) `{∀ x, Decision (P x)} l h :
  StronglySorted R l → head (filter P l) = Some h → ∀ y, y ∈ l → P y → y = h ∨ R h y.
Proof.
  induction 1 as [|x l Hl IH Hx]; [done|]. rewrite filter_cons. case_decide as HP.
  - intros [= ->] y [->|Hy]%elem_of_cons _; [by left|]. right. rewrite Forall_forall in Hx. auto.
  - intros Hh y [->|Hy]%elem_of_cons HPy; [done|]. eauto.
Qed.

Lemma startable_queued q t : startable q t = true → is_queued t = true.
Proof. unfold startable. by intros [? _]%andb_true_iff. Qed.

Lemma take_first q lim :
  queue_ok q →
  (take q lim).1 =
    if (take_cap q lim <=? running q)%Z then None else with_state RUNNING <$> first_allowed q.
Proof.
  intros Hok. destruct ((take q lim).1) as [t'|] eqn:Ht.
  - destruct (take q lim) as [o q'] eqn:Et. simpl in Ht. subst o.
    apply take_inv in Et as (k & t & Hin & Hst & -> & _ & Hc & Hleast).
    destruct (Z.leb_spec (take_cap q lim) (running q)); [lia|].
    assert (t ∈ waiting_order q) as Hw.
    { apply elem_of_waiting_order. split; [by eapply startable_queued|]. apply list_elem_of_fmap. by exists (k, t). }
    unfold first_allowed. destruct (head _) as [h|] eqn:Hh.
    + simpl. do 2 f_equal. assert (h ∈ filter (λ t, startable q t = true) (waiting_order q)) as Hhe.
      { destruct (filter _ _); [done|]. injection Hh as ->. left. }
      apply list_elem_of_filter in Hhe as [Hhs [_ Hhv]%elem_of_waiting_order].
      destruct (sorted_head_least (λ t t', negb (before t' t) = true) (λ t, startable q t = true)
        (waiting_order q) h) with (y := t) as [?|Hle]; try done.
      { apply sort_by_sorted; intros *; rewrite ?negb_true_iff, ?negb_false_iff.
        - intros Hb. by apply before_asym.
        - apply before_negtrans. }
      apply negb_true_iff in Hle. specialize (Hleast h Hhv Hhs).
      apply (NoDup_key_inj qt_seq (dvals (q_items q))); try apply Hok; [|done|].
      * apply list_elem_of_fmap. by exists (k, t).
      * destruct (decide (qt_seq t = qt_seq h)) as [|Hne]; [done|].
        apply before_total in Hle; [|done]. congruence.
    + exfalso. assert (t ∈ filter (λ t, startable q t = true) (waiting_order q)) as Hf by (by apply list_elem_of_filter).
      destruct (filter _ _); [by apply not_elem_of_nil in Hf|done].
  - apply take_none in Ht. destruct (Z.leb_spec (take_cap q lim) (running q)) as [|Hc]; [done|].
    destruct Ht as [?|Hall]; [lia|]. unfold first_allowed.
    rewrite list_filter_none; [done|]. intros t [_ Hv]%elem_of_waiting_order. rewrite Hall by done. done.
Qed.

Lemma queue_ok_take q lim : queue_ok q → queue_ok (take q lim).2.
Proof.
  intros Hok. destruct (take q lim) as [[t'|] q'] eqn:Et.
  - apply take_inv in Et as (k & t & Hin & _ & -> & -> & _). simpl.
    eapply queue_ok_write; [done|apply elem_dget; [apply Hok|done]|done|done].
  - assert (q' = q) as ->; [|done]. unfold take in Et. destruct (_ <=? _)%Z; [congruence|].
    destruct (filter _ _); [congruence|]. destruct (min_test _ _); congruence.
Qed.

Lemma queue_ok_release q id now : queue_ok q → queue_ok (release q id now).2.
Proof.
  intros Hok. unfold release. destruct (dget id (q_items q)) as [t|] eqn:E; [|done].
  case_bool_decide; [|done]. simpl. by eapply queue_ok_write.
Qed.

Lemma queue_ok_remove q id : queue_ok q → queue_ok (remove q id).2.
Proof.
  intros [Hk Hid Hs Ha]. split; simpl.
  - by apply NoDup_ddel.
  - intros k t H%elem_of_ddel. auto.
  - clear -Hs. induction (q_items q) as [|[k t] l IH]; [done|]. cbn [ddel].
    rewrite dvals_cons, fmap_cons, NoDup_cons in Hs. destruct Hs as [Hn Hs].
    case_bool_decide; [done|]. rewrite dvals_cons, fmap_cons. apply NoDup_cons. split; [|auto].
    intros (u & Hu & ([k2 t2] & -> & Hin%elem_of_ddel)%list_elem_of_fmap)%list_elem_of_fmap. apply Hn.
    rewrite Hu. apply list_elem_of_fmap_2. apply list_elem_of_fmap. by exists (k2, t2).
  - intros t ([k u] & -> & Hin%elem_of_ddel)%list_elem_of_fmap. apply Ha. apply list_elem_of_fmap. by exists (k, u).
Qed.

Lemma reprioritise_same p t :
  qt_seq (reprioritise_test p t) = qt_seq t ∧ qt_request (reprioritise_test p t) = qt_request t
  ∧ qt_state (reprioritise_test p t) = qt_state t.
Proof. unfold reprioritise_test. by destruct (_ && _). Qed.

Lemma dvals_reprioritise q : dvals (q_items (reprioritise q)) = reprioritise_test (q_policy q) <$> dvals (q_items q).
Proof. simpl. unfold dvals. by rewrite <- !list_fmap_compose. Qed.

Lemma queue_ok_reprioritise q : queue_ok q → queue_ok (reprioritise q).
Proof.
  intros [Hk Hid Hs Ha]. split.
  - simpl. rewrite <- list_fmap_compose. done.
  - intros k t ([k2 t2] & [= -> ->] & Hin)%list_elem_of_fmap. simpl.
    rewrite (Hid _ _ Hin). unfold qt_request_id. by destruct (reprioritise_same (q_policy q) t2) as (_ & -> & _).
  - rewrite dvals_reprioritise. rewrite key_fmap_update; [done|]. intros t. apply reprioritise_same.
  - rewrite dvals_reprioritise. intros t (u & -> & Hu)%list_elem_of_fmap.
    destruct (reprioritise_same (q_policy q) u) as (-> & _). by apply Ha.
Qed.

(** ** Policies *)

Record policy_ok (p : QueuePolicy) : Prop := {
  po_k : ∀ b, (1 ≤ k_for p b)%Z;
  po_global : (1 ≤ global_concurrency p)%Z;
  po_override : ∀ s n, (s, n) ∈ priority_override p → (PRIORITY_HIGHEST ≤ n ≤ PRIORITY_LOWEST)%Z
}.

(** A policy that is built is well formed, however its K were given. *)
Lemma mk_policy_ok k gc ov mq bk li dl op p : mk_policy k gc ov mq bk li dl op = Ok p → policy_ok p.
Proof.
  unfold mk_policy. destruct (match k with KInt _ => _ | KMap _ => _ end) as [d bk'] eqn:E.
  rewrite raise_if_bind. intros [Hk H]. rewrite seq_ok in H. destruct H as [Hov [= <-]].
  rewrite !orb_false_iff in Hk. destruct Hk as [[Hd Hg] Hb]. split; simpl.
  - intros b. unfold k_for. simpl. destruct (dget b bk') as [n|] eqn:En; simpl; [|lia].
    apply not_true_iff_false in Hb. destruct (decide (1 ≤ n)%Z) as [|Hn]; [done|]. exfalso. apply Hb.
    apply existsb_exists. exists n. split; [|lia]. apply list_elem_of_In. by eapply dget_val.
  - lia.
  - intros s n Hin. rewrite for_each_ok in Hov. specialize (Hov _ Hin). unfold check_override in Hov.
    simpl in Hov. apply res_bind_ok in Hov as (? & _ & Hov). rewrite raise_if_ok in Hov.
    apply negb_false_iff, andb_true_iff in Hov as [? ?]. lia.
Qed.

Lemma priority_of_range p r no_delta `{!EqDecision D} :
  policy_ok p → request_ok no_delta r → (PRIORITY_HIGHEST ≤ priority_of p r ≤ PRIORITY_LOWEST)%Z.
Proof.
  intros [_ _ Ho] Hr. unfold priority_of. destruct (tr_priority r) as [n|] eqn:E; [by eapply request_ok_priority|].
  destruct (dget _ _) as [n|] eqn:En; simpl; [eapply Ho; by apply dget_elem|].
  unfold PRIORITY_HIGHEST, PRIORITY_LOWEST. destruct (tr_purpose r); simpl; lia.
Qed.

(** ** Limits *)

(** What a write-back, a push and a removal do to a count. *)
Lemma running_write q k t t0 :
  dget k (q_items q) = Some t0 →
  running (with_items (dset k t (q_items q)) q) = (running q - Z.b2z (is_running t0) + Z.b2z (is_running t))%Z.
Proof. intros H. unfold running. simpl. by rewrite (count_dset_upd _ _ _ t0). Qed.

Definition counts_on (b : string) t : bool :=
  is_running t && bool_decide (qt_branch t = b) && negb (exempt_from_k (qt_request t)).
Definition waits_on (b : string) t : bool :=
  in_waiting_states t && bool_decide (qt_branch t = b) && negb (exempt_from_k (qt_request t)).

Lemma startable_not_running q t : startable q t = true → is_running t = false.
Proof.
  intros H%startable_queued. unfold is_queued, is_running in *. apply bool_decide_eq_true in H. by rewrite H.
Qed.

(** A started test is within the limits at the moment it starts. *)
Lemma take_within q lim t q' :
  queue_ok q → take q lim = (Some t, q') →
  (running q' ≤ take_cap q lim)%Z ∧
  ∀ b, (running_counted q' b ≤ Z.max (running_counted q b) (k_for (q_policy q) b))%Z.
Proof.
  intros Hok Ht. apply take_inv in Ht as (k & t0 & Hin & Hst & -> & -> & Hc & _).
  apply elem_dget in Hin; [|apply Hok]. pose proof (startable_not_running _ _ Hst) as Hnr. split.
  - rewrite (running_write _ _ _ t0), Hnr by done. simpl. lia.
  - intros b. change (running_counted ?q' b) with (count (counts_on b) (dvals (q_items q'))). simpl.
    rewrite (count_dset_upd _ _ _ t0) by done. unfold counts_on at 2 3. rewrite Hnr. simpl.
    destruct (bool_decide (qt_branch _ = b)) eqn:Eb; simpl; [|unfold running_counted; lia].
    apply bool_decide_eq_true in Eb. subst b. unfold startable in Hst. apply andb_true_iff in Hst as [_ Hst].
    change (qt_request (with_state RUNNING t0)) with (qt_request t0).
    change (qt_branch (with_state RUNNING t0)) with (qt_branch t0).
    destruct (exempt_from_k (qt_request t0)); simpl; [lia|]. simpl in Hst. apply Z.ltb_lt in Hst.
    change (running_counted q (qt_branch t0)) with (count (counts_on (qt_branch t0)) (dvals (q_items q))) in Hst. lia.
Qed.

Lemma count_push_le (P : QueuedTest → bool) q t q' :
  push q t = Ok q' → (∀ n u, P (with_seq n u) = P u) →
  (count P (dvals (q_items q')) ≤ count P (dvals (q_items q)) + Z.b2z (P t))%Z.
Proof.
  unfold push. destruct (negb _); [done|]. intros [= <-] HP. simpl.
  destruct (dget (qt_request_id t) (q_items q)) as [t0|] eqn:E.
  - rewrite (count_dset_upd _ _ _ t0), HP by done. destruct (P t0); simpl; lia.
  - rewrite count_dset_new, HP by (by apply dget_None). lia.
Qed.

Lemma count_remove_le (P : QueuedTest → bool) q id :
  (count P (dvals (q_items (remove q id).2)) ≤ count P (dvals (q_items q)))%Z.
Proof.
  simpl. destruct (dget id (q_items q)) as [t0|] eqn:E.
  - rewrite (count_ddel _ _ t0) by done. destruct (P t0); simpl; lia.
  - rewrite ddel_notin by (by apply dget_None). lia.
Qed.

Lemma count_reprioritise (P : QueuedTest → bool) q :
  (∀ t, P (reprioritise_test (q_policy q) t) = P t) →
  count P (dvals (q_items (reprioritise q))) = count P (dvals (q_items q)).
Proof.
  intros HP. rewrite dvals_reprioritise. generalize (dvals (q_items q)) as l. intros l.
  induction l as [|t l IH]; [done|]. rewrite fmap_cons, !count_cons, HP. lia.
Qed.

Lemma count_release (P : QueuedTest → bool) q id now :
  (∀ t, qt_state t = PENDING_BUILD → P (with_queued_at now (with_state QUEUED t)) = P t) →
  count P (dvals (q_items (release q id now).2)) = count P (dvals (q_items q)).
Proof.
  intros HP. unfold release. destruct (dget id (q_items q)) as [t|] eqn:E; [|done].
  case_bool_decide as Hs; [|done]. simpl. rewrite (count_dset_upd _ _ _ t), HP by done. lia.
Qed.

(** ** Runs of the queue

    A run carries the policies in force so far.  [submit] is what the toolbox does with a request: refuse
    a branch that may not submit, refuse over the backlog, else add it waiting. *)

Definition submit q t : res WorkQueue :=
  _ ← check_branch_listed q (qt_request t);
  _ ← check_backpressure q (qt_request t);
  push q t.

Inductive queue_step : WorkQueue * list QueuePolicy → WorkQueue * list QueuePolicy → Prop :=
| step_submit q h t q' : submit q t = Ok q' → queue_step (q, h) (q', h)
| step_release q h id now : queue_step (q, h) ((release q id now).2, h)
| step_take q h lim : queue_step (q, h) ((take q lim).2, h)
| step_remove q h id : queue_step (q, h) ((remove q id).2, h)
| step_policy q h p : policy_ok p → queue_step (q, h) (reprioritise (set_policy p q), p :: h).

Record run_ok (s : WorkQueue * list QueuePolicy) : Prop := {
  ro_ok : queue_ok s.1;
  ro_policy : q_policy s.1 ∈ s.2;
  ro_running : ∃ p, p ∈ s.2 ∧ (running s.1 ≤ global_concurrency p)%Z;
  ro_k : ∀ b, ∃ p, p ∈ s.2 ∧ (running_counted s.1 b ≤ k_for p b)%Z;
  ro_backlog : ∀ b, ∃ p, p ∈ s.2 ∧ (queued_counted s.1 b ≤ Z.max 0 (queue_limit_for p b))%Z
}.

(** A step that adds no running test and no waiting one keeps the run's bounds. *)
Lemma run_ok_shrink q q' h :
  run_ok (q, h) → queue_ok q' → q_policy q' = q_policy q → (running q' ≤ running q)%Z →
  (∀ b, running_counted q' b ≤ running_counted q b)%Z → (∀ b, queued_counted q' b ≤ queued_counted q b)%Z →
  run_ok (q', h).
Proof.
  intros [Hok Hp (p1 & ? & ?) Hk Hb] Hok' Hpol Hr Hkc Hqc. split; simpl in *; try done.
  - by rewrite Hpol.
  - exists p1. split; [done|lia].
  - intros b. destruct (Hk b) as (p & ? & ?). exists p. split; [done|]. specialize (Hkc b). lia.
  - intros b. destruct (Hb b) as (p & ? & ?). exists p. split; [done|]. specialize (Hqc b). lia.
Qed.

Lemma push_policy q t q' : push q t = Ok q' → q_policy q' = q_policy q ∧ in_waiting_states t = true.
Proof. unfold push. destruct (in_waiting_states t) eqn:E; simpl; [|done]. by intros [= <-]. Qed.

Lemma waiting_not_running t : in_waiting_states t = true → is_running t = false.
Proof. unfold in_waiting_states, is_running. by destruct (qt_state t). Qed.

Lemma run_ok_submit q h t q' : run_ok (q, h) → submit q t = Ok q' → run_ok (q', h).
Proof.
  intros Hrun Hs. unfold submit in Hs. rewrite !seq_ok in Hs. destruct Hs as (_ & Hbp & Hpush).
  pose proof (push_policy _ _ _ Hpush) as [Hpol Hw]. pose proof (waiting_not_running _ Hw) as Hnr.
  assert (∀ n u, is_running (with_seq n u) = is_running u) as H1 by done.
  pose proof (count_push_le is_running q t q' Hpush H1) as Hr. rewrite Hnr in Hr.
  assert (∀ b, (running_counted q' b ≤ running_counted q b)%Z) as Hk.
  { intros b. pose proof (count_push_le (counts_on b) q t q' Hpush (λ _ _, eq_refl)) as H2.
    unfold counts_on at 3 in H2. rewrite Hnr in H2. simpl in H2.
    change (running_counted ?x b) with (count (counts_on b) (dvals (q_items x))). lia. }
  pose proof (λ b, count_push_le (waits_on b) q t q' Hpush (λ _ _, eq_refl)) as Hq.
  destruct Hrun as [Hok Hp (p1 & ? & ?) Hkk Hb]. split; simpl in *.
  - by eapply queue_ok_push.
  - by rewrite Hpol.
  - exists p1. split; [done|]. unfold running in *. lia.
  - intros b. destruct (Hkk b) as (p & ? & ?). exists p. split; [done|]. specialize (Hk b). lia.
  - intros b. specialize (Hq b). unfold waits_on at 3 in Hq. rewrite Hw in Hq.
    change (count (waits_on b) (dvals (q_items q'))) with (queued_counted q' b) in Hq.
    change (count (waits_on b) (dvals (q_items q))) with (queued_counted q b) in Hq.
    unfold check_backpressure in Hbp. destruct (exempt_from_k (qt_request t)) eqn:Ee; simpl in Hq.
    { rewrite andb_false_r in Hq. simpl in Hq. destruct (Hb b) as (p & ? & ?). exists p. split; [done|]. lia. }
    destruct (bool_decide (qt_branch t = b)) eqn:Eb; simpl in Hq.
    + apply bool_decide_eq_true in Eb. subst b. exists (q_policy q). split; [done|].
      rewrite raise_if_ok in Hbp. apply Z.leb_gt in Hbp. unfold qt_branch in *. lia.
    + destruct (Hb b) as (p & ? & ?). exists p. split; [done|]. lia.
Qed.

Lemma run_ok_take q h lim : run_ok (q, h) → run_ok ((take q lim).2, h).
Proof.
  intros Hrun. pose proof (queue_ok_take q lim (ro_ok _ Hrun)) as Hok'.
  destruct (take q lim) as [[t|] q'] eqn:Et; simpl in *.
  - pose proof (take_within q lim t q' (ro_ok _ Hrun) Et) as [Hr Hk].
    pose proof (take_inv _ _ _ _ Et) as (k & t0 & Hin & Hst & Ht & Hq' & Hc & _).
    assert (q_policy q' = q_policy q) as Hpol by (by rewrite Hq').
    destruct Hrun as [Hok Hp _ Hkk Hb]. simpl in *. split; simpl; [done|by rewrite Hpol| | |].
    + exists (q_policy q). split; [done|]. unfold take_cap in Hr. destruct lim; lia.
    + intros b. specialize (Hk b). destruct (Hkk b) as (p & Hp1 & Hp2).
      destruct (Z.max_spec (running_counted q b) (k_for (q_policy q) b)) as [[_ Hm]|[_ Hm]]; rewrite Hm in Hk;
        [by exists (q_policy q)|exists p; split; [done|lia]].
    + intros b. destruct (Hb b) as (p & ? & Hle). exists p. split; [done|].
      assert (queued_counted q' b ≤ queued_counted q b)%Z; [|lia].
      apply elem_dget in Hin; [|apply Hok]. rewrite Hq', Ht.
      change (queued_counted ?q' b) with (count (waits_on b) (dvals (q_items q'))). simpl.
      rewrite (count_dset_upd _ _ _ t0) by done. unfold waits_on at 3. simpl. destruct (waits_on b t0); simpl; lia.
  - assert (q' = q) as ->; [|done]. unfold take in Et. destruct (_ <=? _)%Z; [congruence|].
    destruct (filter _ _); [congruence|]. destruct (min_test _ _); congruence.
Qed.

Lemma run_ok_step s s' : run_ok s → queue_step s s' → run_ok s'.
Proof.
  intros Hrun Hs. destruct Hs as [q h t q' Hsub|q h id now|q h lim|q h id|q h p Hp].
  - by eapply run_ok_submit.
  - eapply run_ok_shrink; [done|apply queue_ok_release, Hrun|unfold release; by repeat case_match|..].
    + unfold running. rewrite count_release; [done|]. intros t Ht. unfold is_running. simpl. by rewrite Ht.
    + intros b. unfold running_counted. rewrite count_release; [done|]. intros t Ht. unfold is_running. simpl.
      by rewrite Ht.
    + intros b. unfold queued_counted. rewrite count_release; [done|]. intros t Ht. unfold in_waiting_states. simpl.
      by rewrite Ht.
  - by apply run_ok_take.
  - eapply run_ok_shrink; [done|apply queue_ok_remove, Hrun|done|apply count_remove_le|..];
      intros b; apply count_remove_le.
  - assert (∀ t, let t' := reprioritise_test p t in qt_state t' = qt_state t ∧ qt_request t' = qt_request t) as Hsame.
    { intros t. simpl. pose proof (reprioritise_same p t). tauto. }
    destruct Hrun as [Hok Hpo (p1 & ? & ?) Hk Hb]. simpl in *. split; simpl.
    + apply queue_ok_reprioritise. by destruct Hok.
    + left.
    + exists p1. split; [by right|]. unfold running. rewrite count_reprioritise; [done|].
      intros t. unfold is_running. simpl. by destruct (Hsame t) as [-> _].
    + intros b. destruct (Hk b) as (p2 & ? & ?). exists p2. split; [by right|]. unfold running_counted.
      rewrite count_reprioritise; [done|]. intros t. unfold is_running, qt_branch. simpl.
      by destruct (Hsame t) as [-> ->].
    + intros b. destruct (Hb b) as (p2 & ? & ?). exists p2. split; [by right|]. unfold queued_counted.
      rewrite count_reprioritise; [done|]. intros t. unfold in_waiting_states, qt_branch. simpl.
      by destruct (Hsame t) as [-> ->].
Qed.

Lemma run_ok_new p : policy_ok p → run_ok (q_new p, [p]).
Proof.
  intros [Hk Hg _]. split; simpl.
  - split; simpl; try constructor; intros *; by intros ?%not_elem_of_nil.
  - left.
  - exists p. split; [left|]. unfold running. simpl. rewrite count_nil. lia.
  - intros b. exists p. split; [left|]. unfold running_counted. simpl. rewrite count_nil. specialize (Hk b). lia.
  - intros b. exists p. split; [left|]. unfold queued_counted. simpl. rewrite count_nil. lia.
Qed.

Lemma run_ok_reachable p s : policy_ok p → rtc queue_step (q_new p, [p]) s → run_ok s.
Proof.
  intros Hp. apply rtc_preserves; [intros a b; apply run_ok_step|by apply run_ok_new].
Qed.

(** ** Waiting tests move up

    [overtakes id n q q']: from [q] to [q'] the toolbox started [n] tests other than [id] while [id] could
    have started, tests other than [id] ending in between. *)

Inductive overtakes (id : string) : nat → WorkQueue → WorkQueue → Prop :=
| overtakes_done q : overtakes id 0 q q
| overtakes_take n q lim t q1 q2 x :
    dget id (q_items q) = Some x → startable q x = true →
    take q lim = (Some t, q1) → qt_request_id t ≠ id → overtakes id n q1 q2 → overtakes id (S n) q q2
| overtakes_remove n q id' q2 : id' ≠ id → overtakes id n (remove q id').2 q2 → overtakes id n q q2.

Lemma queued_ahead_take q lim id t q1 x m :
  queue_ok q → dget id (q_items q) = Some x → startable q x = true → take q lim = (Some t, q1) →
  qt_request_id t ≠ id → queued_ahead q id = Ok m → queued_ahead q1 id = Ok (m - 1)%Z.
Proof.
  intros Hok Hx Hst Ht Hne. apply take_inv in Ht as (k & t0 & Hin & Hst0 & -> & -> & _ & Hleast).
  assert (k ≠ id) as Hk by (intros ->; apply Hne; change (qt_request_id t0 = id); by rewrite <- (qo_ids _ Hok _ _ Hin)).
  pose proof (elem_dget _ _ _ (qo_keys _ Hok) Hin) as Hg.
  unfold queued_ahead. simpl. rewrite dget_dset_ne by done. rewrite Hx. intros [= <-]. f_equal.
  rewrite (count_dset_upd _ _ _ t0) by done. unfold is_queued at 3. simpl. rewrite (startable_queued _ _ Hst0). simpl.
  assert (before t0 x = true) as ->; [|simpl; lia].
  apply before_total; [|apply Hleast; [by eapply dget_val|done]].
  intros Hs. apply Hk. apply (NoDup_key_inj qt_seq (dvals (q_items q))) in Hs; try apply Hok; try (by eapply dget_val).
  subst t0. rewrite (qo_ids _ Hok _ _ Hin). symmetry. apply (qo_ids _ Hok). by apply dget_elem.
Qed.

Lemma overtaking_bound id n q q' m :
  queue_ok q → overtakes id n q q' → queued_ahead q id = Ok m → (Z.of_nat n ≤ m)%Z.
Proof.
  intros Hok Hov. revert Hok m. induction Hov as [q|n q lim t q1 q2 x Hx Hst Ht Hne _ IH|n q id' q2 Hne _ IH];
    intros Hok m Hm.
  - unfold queued_ahead in Hm. destruct (dget id (q_items q)); [|done]. injection Hm as <-. apply count_nonneg.
  - pose proof (queue_ok_take q lim Hok) as Hok1. rewrite Ht in Hok1. simpl in Hok1.
    pose proof (queued_ahead_take _ _ _ _ _ _ _ Hok Hx Hst Ht Hne Hm) as Hm1. specialize (IH Hok1 _ Hm1). lia.
  - pose proof (queue_ok_remove q id' Hok) as Hok1. unfold queued_ahead in *. simpl in IH.
    rewrite dget_ddel_ne in IH by done. destruct (dget id (q_items q)) as [x|] eqn:Ex; [|done].
    specialize (IH Hok1 _ eq_refl). injection Hm as <-.
    pose proof (count_remove_le (λ t', is_queued t' && before t' x) q id') as Hle. simpl in Hle. lia.
Qed.
End queue.

(** ** What the queue guarantees *)

Section guarantees.
Context {F D : Type} `{!FloatOps F}.
Implicit Types (p : QueuePolicy (F := F)) (q : WorkQueue (F := F) (D := D)).



End guarantees.

(** *** A concrete run: two explorations of one branch of K one, and a confirming retest *)

Module QueueDemo.
Definition req (id : string) (purpose : Purpose) (retest : option string) : TestRequest unit :=
  {| tr_kind := K_TEST; tr_purpose := purpose; tr_branch_id := "b01"; tr_parent_commit := "c0"; tr_delta := ();
     tr_intent_fingerprint := None; tr_priority := None; tr_retest_of := retest; tr_avoid_nodes := [];
     tr_accuracy := false; tr_concurrency := []; tr_attachments := []; tr_request_id := Some id;
     tr_diff_ref := EmptyString; tr_consistency_check := None; tr_long_context_check := None |}.
Definition policy : QueuePolicy (F := QArith_base.Q) :=
  {| per_branch_k := 1; global_concurrency := 2; priority_override := []; max_queued_per_branch := None;
     branch_k := []; listed_branches_only := false; branch_deadline := []; open_branches := None |}.
Definition test (r : TestRequest unit) : QueuedTest (F := QArith_base.Q) :=
  {| qt_request := r; qt_priority := priority_of policy r; qt_seq := 0; qt_queued_at := fzero;
     qt_state := QUEUED; qt_started_at := None |}.
Definition t1 := test (req "r1" P_EXPLORE None).
Definition t2 := test (req "r2" P_EXPLORE None).
Definition t3 := test (req "r3" P_CONFIRM (Some "r1")).
Definition q3 : WorkQueue :=
  {| q_policy := policy; q_items := [("r1", with_seq 1 t1); ("r2", with_seq 2 t2); ("r3", with_seq 3 t3)];
     q_arrivals := 3 |}.

Lemma policy_is_ok : policy_ok policy.
Proof. apply (mk_policy_ok (KInt 1) 2 [] None [] false [] None). reflexivity. Qed.

Lemma q3_reached : rtc queue_step (q_new policy, [policy]) (q3, [policy]).
Proof.
  eapply rtc_l; [by apply (step_submit _ _ t1); reflexivity|].
  eapply rtc_l; [by apply (step_submit _ _ t2); reflexivity|].
  eapply rtc_l; [by apply (step_submit _ _ t3); reflexivity|].
  apply rtc_refl.
Qed.
End QueueDemo.



