(* ===== verification/Roster.v ===== *)
(** * The branch roster

    [multibranch/scheduling/roster.py]: the branches of a multi-branch session, their K, why each stopped,
    the slots a mapping branch holds, and the snapshot file written after every change.

    The dict of entries is an insertion-ordered association list.  The snapshot file is part of the state as
    the JSON document last written to it; writing it is taken to succeed.  A roster built over the file of
    an earlier run takes that run's branches up again ([roster_new]). *)

From stdpp Require Import base list strings pretty sets gmap.
From Stdlib Require Import ZArith Lia Ascii.
From S2P Require Import Prelude PyFloat PyVal Dicts TestRequests WorkQueue.

Definition INTEGRATION_BRANCH : string := "integration".

Inductive BranchKind := SPECIALIST | INTEGRATION.
Inductive BranchOrigin := O_ROOT | O_USER | O_AGENT | O_FIRST_BATCH | O_REFILL | O_FORK | O_REPAIR | O_SHARE.
Inductive BranchStatus := ADMITTED | BRUNNING | STOPPED.
Inductive StopCause := C_JUDGE | C_SESSION_END | C_START_FAILED | C_GAVE_UP | C_REPAIR_TIME_LIMIT.
Inductive BranchDriver := DR_SPECIALIST | DR_AUTONOMOUS.

#[global] Instance BranchKind_eq_dec : EqDecision BranchKind.
Proof. solve_decision. Defined.
#[global] Instance BranchOrigin_eq_dec : EqDecision BranchOrigin.
Proof. solve_decision. Defined.
#[global] Instance BranchStatus_eq_dec : EqDecision BranchStatus.
Proof. solve_decision. Defined.
#[global] Instance StopCause_eq_dec : EqDecision StopCause.
Proof. solve_decision. Defined.

Definition kind_all : list BranchKind := [SPECIALIST; INTEGRATION].
Definition kind_value (k : BranchKind) : string :=
  match k with SPECIALIST => "specialist" | INTEGRATION => "integration" end.
Definition origin_all : list BranchOrigin :=
  [O_ROOT; O_USER; O_AGENT; O_FIRST_BATCH; O_REFILL; O_FORK; O_REPAIR; O_SHARE].
Definition origin_value (o : BranchOrigin) : string :=
  match o with
  | O_ROOT => "root" | O_USER => "user" | O_AGENT => "agent" | O_FIRST_BATCH => "first_batch"
  | O_REFILL => "refill" | O_FORK => "fork" | O_REPAIR => "repair" | O_SHARE => "share"
  end.
Definition status_value (s : BranchStatus) : string :=
  match s with ADMITTED => "admitted" | BRUNNING => "running" | STOPPED => "stopped" end.
Definition cause_all : list StopCause := [C_JUDGE; C_SESSION_END; C_START_FAILED; C_GAVE_UP; C_REPAIR_TIME_LIMIT].
Definition cause_value (c : StopCause) : string :=
  match c with
  | C_JUDGE => "judge" | C_SESSION_END => "session_end" | C_START_FAILED => "start_failed"
  | C_GAVE_UP => "gave_up" | C_REPAIR_TIME_LIMIT => "repair_time_limit"
  end.

Definition cut_by_scheduler (o : BranchOrigin) : bool := match o with O_FORK => false | _ => true end.
Definition reserved_by_gate (o : BranchOrigin) : bool := match o with O_FORK | O_REPAIR => true | _ => false end.
Definition driver (o : BranchOrigin) : BranchDriver :=
  match o with O_AGENT | O_SHARE => DR_AUTONOMOUS | _ => DR_SPECIALIST end.
Definition steered_by_judge (o : BranchOrigin) : bool :=
  match driver o with DR_SPECIALIST => true | DR_AUTONOMOUS => false end.
Definition lets_tests_finish (c : StopCause) : bool := match c with C_SESSION_END => false | _ => true end.

Record RosterCaps := { max_branches : Z; max_k_per_branch : Z; max_parallel_tests : Z }.

(** [RosterCaps.__post_init__] *)
Definition mk_caps (branches k tests : Z) : res RosterCaps :=
  let below name v := raise_if (v <? 1)%Z (ValueError (name +:+ " must be at least 1, got " +:+ pretty v)) in
  _ ← below "max_branches" branches;
  _ ← below "max_k_per_branch" k;
  _ ← below "max_parallel_tests" tests;
  Ok {| max_branches := branches; max_k_per_branch := k; max_parallel_tests := tests |}.

Definition clamp_k (c : RosterCaps) (k : Z) : Z := Z.min (Z.max k 1) (max_k_per_branch c).

Section roster.
Context {F : Type} `{!FloatOps F}.

Record BranchStop := { bs_cause : StopCause; bs_reason : string; bs_at : F }.
Definition summary (s : BranchStop) : string := cause_value (bs_cause s) +:+ ": " +:+ bs_reason s.

Record BranchEntry := {
  be_branch : string;
  be_kind : BranchKind;
  be_origin : BranchOrigin;
  be_start_commit : string;
  be_k : Z;
  be_opened_at : F;
  be_from_branch : string;
  be_stop : option BranchStop
}.
Implicit Types (e : BranchEntry).

Definition status e : BranchStatus :=
  match be_stop e with
  | Some _ => STOPPED
  | None => if negb (String.eqb (be_start_commit e) EmptyString) then BRUNNING else ADMITTED
  end.
Definition stopped e : bool := match be_stop e with Some _ => true | None => false end.
Definition counts_toward_cap e : bool := bool_decide (be_kind e = SPECIALIST) && negb (stopped e).
Definition finishes_tests e : bool :=
  match be_stop e with Some s => lets_tests_finish (bs_cause s) | None => false end.
Definition specialist_open (l : list BranchEntry) : bool :=
  existsb (λ e, counts_toward_cap e && steered_by_judge (be_origin e)) l.

Definition with_commit (c : string) e : BranchEntry :=
  {| be_branch := be_branch e; be_kind := be_kind e; be_origin := be_origin e; be_start_commit := c; be_k := be_k e;
     be_opened_at := be_opened_at e; be_from_branch := be_from_branch e; be_stop := be_stop e |}.
Definition with_k (k : Z) e : BranchEntry :=
  {| be_branch := be_branch e; be_kind := be_kind e; be_origin := be_origin e; be_start_commit := be_start_commit e;
     be_k := k; be_opened_at := be_opened_at e; be_from_branch := be_from_branch e; be_stop := be_stop e |}.
Definition with_stop (s : BranchStop) e : BranchEntry :=
  {| be_branch := be_branch e; be_kind := be_kind e; be_origin := be_origin e; be_start_commit := be_start_commit e;
     be_k := be_k e; be_opened_at := be_opened_at e; be_from_branch := be_from_branch e; be_stop := Some s |}.

(** ** The snapshot document *)

(** [_entry_record] *)
Definition entry_record e : pyval F :=
  PDict [("branch", PStr (be_branch e)); ("kind", PStr (kind_value (be_kind e)));
         ("origin", PStr (origin_value (be_origin e))); ("status", PStr (status_value (status e)));
         ("start_commit", PStr (be_start_commit e)); ("k", PInt (be_k e)); ("opened_at", PFloat (be_opened_at e));
         ("from_branch", PStr (be_from_branch e));
         ("stop", match be_stop e with
                  | None => PNone
                  | Some s => PDict [("cause", PStr (cause_value (bs_cause s))); ("reason", PStr (bs_reason s));
                                     ("at", PFloat (bs_at s))]
                  end)].

(** [d[k]] of a document *)
Definition item (k : string) (d : pydict F) : res (pyval F) :=
  match dget k d with Some v => Ok v | None => Raise (KeyError k) end.
(** A value the source takes as a string: a snapshot has no other there. *)
Definition as_str (v : pyval F) : res string :=
  match v with PStr s => Ok s | _ => Raise (TypeError "not a string") end.
Definition as_dict (v : pyval F) : res (pydict F) :=
  match v with PDict d => Ok d | _ => Raise (TypeError "not an object") end.
Definition as_list (v : pyval F) : res (list (pyval F)) :=
  match v with PList l => Ok l | _ => Raise (TypeError "not a list") end.

Definition item_str (k : string) (d : pydict F) : res string := v ← item k d; as_str v.
Definition item_int (k : string) (d : pydict F) : res Z := v ← item k d; py_int v.
Definition item_float (k : string) (d : pydict F) : res F := v ← item k d; py_float v.
Definition item_enum {E} (all : list E) (value : E → string) (k : string) (d : pydict F) : res E :=
  s ← item_str k d; enum_of all value s.

Definition stop_from_record (v : pyval F) : res (option BranchStop) :=
  match v with
  | PNone => Ok None
  | _ =>
      d ← as_dict v;
      cause ← item_enum cause_all cause_value "cause" d;
      reason ← item_str "reason" d;
      at_ ← item_float "at" d;
      Ok (Some {| bs_cause := cause; bs_reason := reason; bs_at := at_ |})
  end.

(** [_entry_from_record] *)
Definition entry_from_record (v : pyval F) : res BranchEntry :=
  d ← as_dict v;
  stop ← item "stop" d;
  branch ← item_str "branch" d;
  kind ← item_enum kind_all kind_value "kind" d;
  origin ← item_enum origin_all origin_value "origin" d;
  commit ← item_str "start_commit" d;
  k ← item_int "k" d;
  opened ← item_float "opened_at" d;
  from ← item_str "from_branch" d;
  stop' ← stop_from_record stop;
  Ok {| be_branch := branch; be_kind := kind; be_origin := origin; be_start_commit := commit; be_k := k;
        be_opened_at := opened; be_from_branch := from; be_stop := stop' |}.

Record Roster := {
  caps : RosterCaps;
  entries : list (string * BranchEntry);
  issued : Z;
  closed : bool;
  held : list (string * Z);
  snapshot_file : option (pyval F)
}.
Implicit Types (r : Roster).

(** The document [_persist] writes. *)
Definition snapshot_dict r : pydict F :=
  [("caps", PDict [("max_branches", PInt (max_branches (caps r)));
                         ("max_k_per_branch", PInt (max_k_per_branch (caps r)));
                         ("max_parallel_tests", PInt (max_parallel_tests (caps r)))]);
   ("closed", PBool (closed r)); ("issued_branch_ids", PInt (issued r));
   ("held_slots", PDict ((λ kn, (kn.1, PInt kn.2)) <$> held r));
   ("entries", PList (entry_record <$> dvals (entries r)))].
Definition snapshot_doc r : pyval F := PDict (snapshot_dict r).

(** [_persist] *)
Definition persist r : Roster :=
  {| caps := caps r; entries := entries r; issued := issued r; closed := closed r; held := held r;
     snapshot_file := Some (snapshot_doc r) |}.

Record Snapshot := {
  sn_entries : list BranchEntry;
  sn_issued : Z;
  sn_closed : bool;
  sn_held : list (string * Z)
}.

(** [_read_snapshot]; the file's JSON document, [None] when there is no file. *)
Definition read_snapshot (file : option (pyval F)) : res Snapshot :=
  match file with
  | None => Ok {| sn_entries := []; sn_issued := 0; sn_closed := false; sn_held := [] |}
  | Some doc =>
      d ← as_dict doc;
      rows ← item "entries" d;
      rows' ← as_list rows;
      es ← map_res entry_from_record rows';
      hd ← as_dict (default (PDict []) (dget "held_slots" d));
      hs ← map_res (λ kv : string * pyval F, n ← py_int kv.2; Ok (kv.1, n)) hd;
      n ← item_int "issued_branch_ids" d;
      c ← item "closed" d;
      Ok {| sn_entries := es; sn_issued := n; sn_closed := truthy c; sn_held := dmerge [] hs |}
  end.

(** [Roster.__init__] *)
Definition roster_new (c : RosterCaps) (file : option (pyval F)) : res Roster :=
  s ← read_snapshot file;
  Ok (persist {| caps := c; entries := dmerge [] ((λ e, (be_branch e, e)) <$> sn_entries s);
                 issued := sn_issued s; closed := sn_closed s; held := sn_held s; snapshot_file := file |}).

(** ** Operations *)

Definition with_entries (l : list (string * BranchEntry)) r : Roster :=
  {| caps := caps r; entries := l; issued := issued r; closed := closed r; held := held r;
     snapshot_file := snapshot_file r |}.
Definition with_held (h : list (string * Z)) r : Roster :=
  {| caps := caps r; entries := entries r; issued := issued r; closed := closed r; held := h;
     snapshot_file := snapshot_file r |}.

Definition taken r : Z := (count counts_toward_cap (dvals (entries r)) + zsum (dvals (held r)))%Z.
Definition free_slots r : Z := if closed r then 0%Z else Z.max (max_branches (caps r) - taken r) 0.

Definition hold r (branch : string) (slots : Z) : Roster :=
  if (0 <? slots)%Z then persist (with_held (dset branch slots (held r)) r) else r.

Definition unhold r (branch : string) : Roster :=
  let left := (default 0 (dget branch (held r)) - 1)%Z in
  if (0 <=? left)%Z then
    persist (with_held (if negb (left =? 0)%Z then dset branch left (held r) else ddel branch (held r)) r)
  else r.

Definition SESSION_STOPPING : string := "the session is stopping".
Definition open_refusal r : string :=
  if closed r then SESSION_STOPPING
  else if (free_slots r =? 0)%Z then "all " +:+ pretty (max_branches (caps r)) +:+ " branch slots are taken"
  else EmptyString.

(** [f"b{n:02d}"] *)
Definition branch_id (n : Z) : string := "b" +:+ (if (n <? 10)%Z then "0" else EmptyString) +:+ pretty n.

Definition next_branch_id r : string * Roster :=
  let n := (issued r + 1)%Z in
  (branch_id n, persist {| caps := caps r; entries := entries r; issued := n; closed := closed r; held := held r;
                           snapshot_file := snapshot_file r |}).

Definition close r : Roster :=
  persist {| caps := caps r; entries := entries r; issued := issued r; closed := true; held := held r;
             snapshot_file := snapshot_file r |}.

(** [_add], [_update] and [_live] *)
Definition add r e : res (BranchEntry * Roster) :=
  if din (be_branch e) (entries r) then Raise (ValueError (be_branch e +:+ " is already on the roster"))
  else Ok (e, persist (with_entries (dset (be_branch e) e (entries r)) r)).
Definition update r e (changed : BranchEntry) : BranchEntry * Roster :=
  (changed, persist (with_entries (dset (be_branch e) changed (entries r)) r)).
Definition live r (branch : string) : res BranchEntry :=
  match dget branch (entries r) with
  | None => Raise (KeyError branch)
  | Some e =>
      match be_stop e with
      | Some s => Raise (BranchStopped (branch +:+ " is stopped (" +:+ summary s +:+ ")"))
      | None => Ok e
      end
  end.

Definition add_integration r (root_commit : string) (k : Z) (now : F) : res (BranchEntry * Roster) :=
  add r {| be_branch := INTEGRATION_BRANCH; be_kind := INTEGRATION; be_origin := O_ROOT; be_start_commit := root_commit;
           be_k := clamp_k (caps r) k; be_opened_at := now; be_from_branch := EmptyString; be_stop := None |}.

Definition open r (branch : string) (origin : BranchOrigin) (start_commit : string) (k : Z) (from_branch : string)
    (now : F) : res (BranchEntry * Roster) :=
  let refusal := open_refusal r in
  if negb (String.eqb refusal EmptyString)
  then Raise (RosterFull ("cannot open " +:+ branch +:+ ": " +:+ refusal))
  else
    add r {| be_branch := branch; be_kind := SPECIALIST; be_origin := origin; be_start_commit := start_commit;
             be_k := clamp_k (caps r) k; be_opened_at := now; be_from_branch := from_branch; be_stop := None |}.

Definition started r (branch start_commit : string) : res (BranchEntry * Roster) :=
  if String.eqb start_commit EmptyString then Raise (ValueError (branch +:+ " cannot start without a commit"))
  else e ← live r branch; Ok (update r e (with_commit start_commit e)).

Definition set_k r (branch : string) (k : Z) : res (BranchEntry * Roster) :=
  e ← live r branch; Ok (update r e (with_k (clamp_k (caps r) k) e)).

Definition stop r (branch : string) (s : BranchStop) : res (BranchEntry * Roster) :=
  match dget branch (entries r) with
  | None => Raise (KeyError branch)
  | Some e =>
      match be_stop e with
      | Some _ => Ok (e, r)
      | None => let r' := with_held (ddel branch (held r)) r in Ok (update r' e (with_stop s e))
      end
  end.

(** [quota_policy]; [busy] are the branches the toolbox holds a test of. *)
Definition may_submit (busy : list string) e : bool :=
  bool_decide (status e = BRUNNING) || (finishes_tests e && bool_decide (be_branch e ∈ busy)).
Definition quota_ks r (busy : list string) : list (string * Z) :=
  dmerge [] ((λ e, (be_branch e, be_k e)) <$> filter (λ e, may_submit busy e = true) (dvals (entries r))).
Definition quota_policy r (busy : list string) (deadlines : list (string * F)) : res (QueuePolicy (F := F)) :=
  let ks := quota_ks r busy in
  let ds := ks ≫= λ kn, match dget kn.1 deadlines with Some d => [(kn.1, d)] | None => [] end in
  mk_policy (KInt 2) (max_parallel_tests (caps r)) [] None ks true ds None.

Definition final_quota (c : RosterCaps) : res (QueuePolicy (F := F)) :=
  mk_policy (KInt 2) (max_parallel_tests c) [] None [(INTEGRATION_BRANCH, 1%Z)] true [] None.

(** ** Branch ids *)

Lemma pretty_N_go_head x s :
  (0 < x)%N → ∃ d s', (0 < d < 10)%N ∧ pretty_N_go x s = String (pretty_N_char d) s'.
Proof.
  revert s. induction (N.lt_wf_0 x) as [x _ IH]. intros s Hx. rewrite pretty_N_go_step by done.
  destruct (decide (x < 10)%N) as [Hlt|Hge].
  - rewrite N.div_small by done. rewrite pretty_N_go_0. exists (x mod 10)%N, s. split; [|done].
    rewrite N.mod_small by done. done.
  - apply IH; [apply N.div_lt; lia|]. apply N.div_str_pos. lia.
Qed.

Lemma pretty_pos_head n : (0 < n)%Z → ∃ d s', (0 < d < 10)%N ∧ pretty n = String (pretty_N_char d) s'.
Proof.
  destruct n as [|p|p]; try lia. intros _. destruct (pretty_N_go_head (Npos p) EmptyString) as (d & s' & ? & H); [lia|].
  exists d, s'. split; [done|]. rewrite <- H. done.
Qed.

(** An id is handed out for one number only. *)
Lemma branch_id_inj n m : (0 < n)%Z → (0 < m)%Z → branch_id n = branch_id m → n = m.
Proof.
  intros Hn Hm. unfold branch_id.
  assert (∀ a b : Z, (0 < b)%Z → (10 <= b)%Z → ("0" +:+ pretty a : string) ≠ pretty b) as Hzero.
  { intros a b Hb _ H. destruct (pretty_pos_head b Hb) as (d & s' & Hd & E). rewrite E in H. simpl in H.
    injection H as H _. assert (d ∈ (N.of_nat <$> seq 1 9)) as Hin.
    { apply list_elem_of_fmap. exists (N.to_nat d). rewrite N2Nat.id. split; [done|]. apply elem_of_seq. lia. }
    repeat (apply elem_of_cons in Hin as [->|Hin]; [discriminate H|]). by apply not_elem_of_nil in Hin. }
  destruct (Z.ltb_spec n 10), (Z.ltb_spec m 10); simpl; intros H'; injection H' as H'.
  - apply (inj pretty). exact H'.
  - exfalso. apply (Hzero n m); [lia|lia|]. exact H'.
  - exfalso. apply (Hzero m n); [lia|lia|]. exact (eq_sym H').
  - apply (inj pretty). exact H'.
Qed.

(** ** The invariant *)

Definition caps_ok (c : RosterCaps) : Prop :=
  (1 ≤ max_branches c ∧ 1 ≤ max_k_per_branch c ∧ 1 ≤ max_parallel_tests c)%Z.

Lemma mk_caps_ok b k t c : mk_caps b k t = Ok c → caps_ok c.
Proof.
  unfold mk_caps. rewrite !raise_if_bind. intros (H1 & H2 & H3 & [= <-]). unfold caps_ok. simpl. lia.
Qed.

Lemma clamp_k_range c k : caps_ok c → (1 ≤ clamp_k c k ≤ max_k_per_branch c)%Z.
Proof. unfold caps_ok, clamp_k. lia. Qed.

Record roster_ok r : Prop := {
  ok_caps : caps_ok (caps r);
  ok_keys : NoDup (entries r).*1;
  ok_ids : ∀ b e, (b, e) ∈ entries r → b = be_branch e;
  ok_k : Forall (λ e, 1 ≤ be_k e ≤ max_k_per_branch (caps r))%Z (dvals (entries r));
  ok_cap : (count counts_toward_cap (dvals (entries r)) ≤ max_branches (caps r))%Z;
  ok_held_keys : NoDup (held r).*1;
  ok_held : Forall (λ n, 0 < n)%Z (dvals (held r));
  ok_issued : (0 ≤ issued r)%Z;
  ok_file : snapshot_file r = Some (snapshot_doc r)
}.

Lemma roster_ok_persist r :
  caps_ok (caps r) → NoDup (entries r).*1 → (∀ b e, (b, e) ∈ entries r → b = be_branch e) →
  Forall (λ e, 1 ≤ be_k e ≤ max_k_per_branch (caps r))%Z (dvals (entries r)) →
  (count counts_toward_cap (dvals (entries r)) ≤ max_branches (caps r))%Z →
  NoDup (held r).*1 → Forall (λ n, 0 < n)%Z (dvals (held r)) → (0 ≤ issued r)%Z → roster_ok (persist r).
Proof. intros. by split. Qed.

Lemma roster_ok_empty c : caps_ok c → ∃ r, roster_new c None = Ok r ∧ roster_ok r ∧ entries r = [] ∧ issued r = 0%Z.
Proof.
  intros Hc. eexists. split; [reflexivity|]. split; [|done]. apply roster_ok_persist; simpl; try done; try constructor.
  - intros *. by intros ?%not_elem_of_nil.
  - unfold count. simpl. destruct Hc. lia.
Qed.

Lemma roster_ok_hold r b n : roster_ok r → roster_ok (hold r b n).
Proof.
  intros [? ? ? ? ? ? ? ? ?]. unfold hold. destruct (Z.ltb_spec 0 n); [|by split].
  apply roster_ok_persist; simpl; try done; [by apply NoDup_dset|]. by apply Forall_dset.
Qed.

Lemma roster_ok_unhold r b : roster_ok r → roster_ok (unhold r b).
Proof.
  intros [? ? ? ? ? ? ? ? ?]. unfold unhold. destruct (Z.leb_spec 0 (default 0 (dget b (held r)) - 1)%Z) as [Hl|]; [|by split].
  apply roster_ok_persist; simpl; try done; destruct (Z.eqb_spec (default 0 (dget b (held r)) - 1)%Z 0); simpl.
  - by apply NoDup_ddel.
  - by apply NoDup_dset.
  - by apply Forall_ddel.
  - apply Forall_dset; [lia|done].
Qed.

Lemma roster_ok_next r : roster_ok r → roster_ok (next_branch_id r).2.
Proof. intros [? ? ? ? ? ? ? ? ?]. apply roster_ok_persist; simpl; try done. lia. Qed.

Lemma roster_ok_close r : roster_ok r → roster_ok (close r).
Proof. intros [? ? ? ? ? ? ? ? ?]. by apply roster_ok_persist. Qed.

(** An added entry takes a slot only when it counts toward the cap. *)
Lemma roster_ok_add r e e' r' :
  roster_ok r → (1 ≤ be_k e ≤ max_k_per_branch (caps r))%Z →
  (counts_toward_cap e = true → count counts_toward_cap (dvals (entries r)) < max_branches (caps r))%Z →
  add r e = Ok (e', r') → roster_ok r'.
Proof.
  intros [? ? Hids ? ? ? ? ? ?] Hk Hcap. unfold add. destruct (din _ _) eqn:Hd; [done|]. intros [= <- <-].
  assert (be_branch e ∉ (entries r).*1) as Hn by (rewrite <- din_elem; by rewrite Hd).
  apply roster_ok_persist; simpl; try done.
  - by apply NoDup_dset.
  - intros b e1 [[-> ->]|H1]%dset_elem; [done|eauto].
  - by apply Forall_dset.
  - rewrite count_dset_new by done. destruct (counts_toward_cap e); simpl; [specialize (Hcap eq_refl)|]; lia.
Qed.

(** Replacing a live entry by one of the same branch that takes no more slots. *)
Lemma roster_ok_update r e e1 :
  roster_ok r → dget (be_branch e) (entries r) = Some e → be_branch e1 = be_branch e →
  (1 ≤ be_k e1 ≤ max_k_per_branch (caps r))%Z →
  (counts_toward_cap e1 = true → counts_toward_cap e = true) → roster_ok (update r e e1).2.
Proof.
  intros [? ? Hids ? ? ? ? ? ?] Hg Hb Hk Hc. apply roster_ok_persist; simpl; try done.
  - by apply NoDup_dset.
  - intros b e2 [[-> ->]|H1]%dset_elem; [done|eauto].
  - by apply Forall_dset.
  - rewrite (count_dset_upd _ _ _ e) by done. destruct (counts_toward_cap e1), (counts_toward_cap e); simpl;
      lia || discriminate (Hc eq_refl).
Qed.

Lemma open_refusal_empty r :
  roster_ok r → open_refusal r = EmptyString →
  closed r = false ∧ (count counts_toward_cap (dvals (entries r)) + zsum (dvals (held r)) < max_branches (caps r))%Z.
Proof.
  intros Hok. unfold open_refusal, free_slots, taken. destruct (closed r); [done|].
  destruct (Z.eqb_spec (Z.max (max_branches (caps r) - (count counts_toward_cap (dvals (entries r))
    + zsum (dvals (held r)))) 0) 0); [done|]. intros _. split; [done|]. lia.
Qed.

Lemma held_nonneg r : roster_ok r → (0 ≤ zsum (dvals (held r)))%Z.
Proof. intros H. apply zsum_nonneg. eapply Forall_impl; [apply H|]. simpl. lia. Qed.

Lemma roster_ok_open r b o c k f now e r' : roster_ok r → open r b o c k f now = Ok (e, r') → roster_ok r'.
Proof.
  intros Hok. unfold open. destruct (String.eqb_spec (open_refusal r) EmptyString) as [E|]; [|done]. simpl.
  apply (open_refusal_empty r Hok) in E as [_ Hlt]. pose proof (held_nonneg r Hok).
  apply roster_ok_add; [done|apply clamp_k_range, Hok|]. simpl. lia.
Qed.

Lemma live_ok r b e : roster_ok r → live r b = Ok e → dget (be_branch e) (entries r) = Some e ∧ be_branch e = b ∧ be_stop e = None.
Proof.
  intros Hok. unfold live. destruct (dget b (entries r)) as [e0|] eqn:E; [|done].
  destruct (be_stop e0) eqn:Es; [done|]. intros [= ->].
  assert (b = be_branch e) as <- by (apply (ok_ids r Hok); by apply dget_elem). done.
Qed.

Lemma entry_k r b e : roster_ok r → dget b (entries r) = Some e → (1 ≤ be_k e ≤ max_k_per_branch (caps r))%Z.
Proof. intros Hok H%dget_val. by apply (proj1 (Forall_forall _ _) (ok_k r Hok)). Qed.

Lemma roster_ok_started r b c e r' : roster_ok r → started r b c = Ok (e, r') → roster_ok r'.
Proof.
  intros Hok. unfold started. destruct (String.eqb c EmptyString); [done|].
  destruct (live r b) as [e0|] eqn:El; [|done]. simpl. intros [= <- <-].
  apply live_ok in El as (Hg & _ & Hs); [|done].
  apply (roster_ok_update r e0 (with_commit c e0)); [done..|by apply (entry_k r (be_branch e0) e0)|]. done.
Qed.

Lemma roster_ok_set_k r b k e r' : roster_ok r → set_k r b k = Ok (e, r') → roster_ok r'.
Proof.
  intros Hok. unfold set_k. destruct (live r b) as [e0|] eqn:El; [|done]. simpl. intros [= <- <-].
  apply live_ok in El as (Hg & _ & Hs); [|done].
  apply (roster_ok_update r e0 (with_k (clamp_k (caps r) k) e0)); [done..|apply clamp_k_range, Hok|]. done.
Qed.

Lemma roster_ok_stop r b s e r' : roster_ok r → stop r b s = Ok (e, r') → roster_ok r'.
Proof.
  intros Hok. unfold stop. destruct (dget b (entries r)) as [e0|] eqn:E; [|done].
  destruct (be_stop e0) eqn:Es; intros [= <- <-]; [done|].
  assert (b = be_branch e0) as -> by (apply (ok_ids r Hok); by apply dget_elem).
  pose proof (entry_k _ _ _ Hok E) as Hk. destruct Hok as [? ? Hids ? ? ? ? ? ?]. apply roster_ok_persist; simpl; try done.
  - by apply NoDup_dset.
  - intros b e2 [[-> ->]|H1]%dset_elem; [done|eauto].
  - by apply Forall_dset.
  - rewrite (count_dset_upd _ _ _ e0) by done. unfold counts_toward_cap at 3. simpl. rewrite andb_false_r. simpl.
    destruct (counts_toward_cap e0); simpl; lia.
  - by apply NoDup_ddel.
  - by apply Forall_ddel.
Qed.

(** ** The snapshot is the roster *)

Lemma entry_record_roundtrip e : entry_from_record (entry_record e) = Ok e.
Proof. destruct e as [b [] [] c k o f [[[] ? ?]|]]; reflexivity. Qed.

Lemma map_res_roundtrip {A B} (f : A → B) (g : B → res A) l : (∀ x, g (f x) = Ok x) → map_res g (f <$> l) = Ok l.
Proof.
  intros H. apply map_res_ok. induction l as [|x l IH]; simpl; constructor; auto.
Qed.

Lemma read_snapshot_doc r :
  NoDup (held r).*1 →
  read_snapshot (Some (snapshot_doc r)) =
    Ok {| sn_entries := dvals (entries r); sn_issued := issued r; sn_closed := closed r; sn_held := held r |}.
Proof.
  intros Hh. unfold read_snapshot, snapshot_doc. cbn [as_dict mbind res_bind].
  replace (item "entries" (snapshot_dict r)) with (Ok (PList (entry_record <$> dvals (entries r)))) by reflexivity.
  cbn [mbind res_bind as_list].
  rewrite (map_res_roundtrip _ _ _ entry_record_roundtrip). cbn [mbind res_bind].
  replace (dget "held_slots" (snapshot_dict r))
    with (Some (PDict (F := F) ((λ kn : string * Z, (kn.1, PInt kn.2)) <$> held r))) by reflexivity.
  cbn [from_option id as_dict mbind res_bind].
  rewrite (map_res_roundtrip (λ kn : string * Z, (kn.1, PInt kn.2))) by (by intros []). cbn [mbind res_bind].
  replace (item_int "issued_branch_ids" (snapshot_dict r)) with (Ok (issued r)) by reflexivity.
  replace (item "closed" (snapshot_dict r)) with (Ok (PBool (F := F) (closed r))) by reflexivity.
  cbn [mbind res_bind truthy].
  by rewrite dmerge_nil.
Qed.

Lemma entries_by_branch r :
  roster_ok r → dmerge [] ((λ e, (be_branch e, e)) <$> dvals (entries r)) = entries r.
Proof.
  intros Hok. assert ((λ e, (be_branch e, e)) <$> dvals (entries r) = entries r) as ->; [|apply dmerge_nil, Hok].
  pose proof (ok_ids r Hok) as Hids. revert Hids. generalize (entries r) as l. clear. intros l.
  induction l as [|[b e] l IH]; intros Hids; [done|]. rewrite dvals_cons, fmap_cons.
  rewrite <- (Hids b e) by left. f_equal. apply IH. intros b' e' H. apply Hids. by right.
Qed.

(** A roster rebuilt from the file is the roster that wrote it. *)
Lemma roster_rebuilt r : roster_ok r → roster_new (caps r) (snapshot_file r) = Ok r.
Proof.
  intros Hok. rewrite (ok_file r Hok). unfold roster_new.
  rewrite (read_snapshot_doc r (ok_held_keys r Hok)). cbn [mbind res_bind sn_entries sn_issued sn_closed sn_held].
  rewrite (entries_by_branch r Hok). f_equal. pose proof (ok_file r Hok) as Hf. destruct r; simpl in *. by rewrite Hf.
Qed.

(** ** Runs of the roster

    Every operation of the session, and the death of the process that owns it: a new one builds its roster
    over the same file.  The run carries the ids handed out, newest first. *)

Inductive roster_step : Roster * list string → Roster * list string → Prop :=
| rs_hold r ids b n : roster_step (r, ids) (hold r b n, ids)
| rs_unhold r ids b : roster_step (r, ids) (unhold r b, ids)
| rs_next r ids : roster_step (r, ids) ((next_branch_id r).2, (next_branch_id r).1 :: ids)
| rs_close r ids : roster_step (r, ids) (close r, ids)
| rs_integration r ids c k now e r' : add_integration r c k now = Ok (e, r') → roster_step (r, ids) (r', ids)
| rs_open r ids b o c k f now e r' : open r b o c k f now = Ok (e, r') → roster_step (r, ids) (r', ids)
| rs_started r ids b c e r' : started r b c = Ok (e, r') → roster_step (r, ids) (r', ids)
| rs_set_k r ids b k e r' : set_k r b k = Ok (e, r') → roster_step (r, ids) (r', ids)
| rs_stop r ids b s e r' : stop r b s = Ok (e, r') → roster_step (r, ids) (r', ids)
| rs_restart r ids r' : roster_new (caps r) (snapshot_file r) = Ok r' → roster_step (r, ids) (r', ids).

Lemma roster_ok_step s s' : roster_ok s.1 → roster_step s s' → roster_ok s'.1.
Proof.
  intros Hok Hs. destruct Hs; simpl in *; eauto using roster_ok_hold, roster_ok_unhold, roster_ok_close,
    roster_ok_open, roster_ok_started, roster_ok_set_k, roster_ok_stop.
  - by apply roster_ok_next.
  - unfold add_integration in *. eapply roster_ok_add; [done| |..|done]; [apply clamp_k_range, Hok|done].
  - rewrite roster_rebuilt in * by done. congruence.
Qed.

(** What an operation other than handing out an id leaves alone. *)
Lemma add_issued r e e' r' : add r e = Ok (e', r') → issued r' = issued r ∧ caps r' = caps r.
Proof. unfold add. destruct (din _ _); [done|]. by intros [= <- <-]. Qed.

Definition ids_issued (s : Roster * list string) : Prop :=
  s.2 = branch_id <$> (Z.of_nat <$> reverse (seq 1 (Z.to_nat (issued s.1)))).

Lemma ids_issued_same r r' ids : ids_issued (r, ids) → issued r' = issued r → ids_issued (r', ids).
Proof. unfold ids_issued. simpl. by intros -> ->. Qed.

Lemma ids_issued_step s s' : roster_ok s.1 → ids_issued s → roster_step s s' → ids_issued s'.
Proof.
  intros Hok Hi Hs. destruct Hs as [r ids b n|r ids b|r ids|r ids|r ids c k now e r' H|r ids b o c k f now e r' H
    |r ids b c e r' H|r ids b k e r' H|r ids b s e r' H|r ids r' H]; try (by eapply ids_issued_same).
  - eapply ids_issued_same; [done|]. unfold hold. by destruct (_ <? _)%Z.
  - eapply ids_issued_same; [done|]. unfold unhold. by destruct (_ <=? _)%Z.
  - unfold ids_issued in *. simpl in *. pose proof (ok_issued r Hok). rewrite Hi.
    replace (Z.to_nat (issued r + 1)) with (S (Z.to_nat (issued r))) by lia.
    rewrite seq_S, reverse_app. simpl. f_equal. f_equal. lia.
  - eapply ids_issued_same; [done|]. by apply add_issued in H as [? _].
  - eapply ids_issued_same; [done|]. unfold open in H. destruct (negb _); [done|]. by apply add_issued in H as [? _].
  - eapply ids_issued_same; [done|]. unfold started in H. destruct (String.eqb _ _); [done|].
    destruct (live r b); [|done]. by injection H as _ <-.
  - eapply ids_issued_same; [done|]. unfold set_k in H. destruct (live r b); [|done]. by injection H as _ <-.
  - eapply ids_issued_same; [done|]. unfold stop in H. destruct (dget b _) as [e0|]; [|done].
    destruct (be_stop e0); by injection H as _ <-.
  - simpl in Hok. rewrite roster_rebuilt in H by done. injection H as <-. done.
Qed.

(** ** Entries are kept, and a stopped one is never touched again *)

Definition entry_le e e' : Prop :=
  be_branch e' = be_branch e ∧ be_kind e' = be_kind e ∧ be_origin e' = be_origin e ∧
  be_opened_at e' = be_opened_at e ∧ be_from_branch e' = be_from_branch e ∧ (stopped e = true → e' = e).

#[global] Instance entry_le_refl : Reflexive entry_le.
Proof. by intros e. Qed.
#[global] Instance entry_le_trans : Transitive entry_le.
Proof.
  intros e1 e2 e3 (?&?&?&?&?&Hs1) (?&?&?&?&?&Hs2). split_and!; try congruence.
  intros Hs. specialize (Hs1 Hs). subst e2. auto.
Qed.

Definition roster_le r r' : Prop :=
  ∀ b e, dget b (entries r) = Some e → ∃ e', dget b (entries r') = Some e' ∧ entry_le e e'.

#[global] Instance roster_le_refl : Reflexive roster_le.
Proof. intros r b e H. by exists e. Qed.
#[global] Instance roster_le_trans : Transitive roster_le.
Proof.
  intros r1 r2 r3 H1 H2 b e He. destruct (H1 b e He) as (e' & He' & ?). destruct (H2 b e' He') as (e2 & ? & ?).
  exists e2. split; [done|]. by etrans.
Qed.

Lemma roster_le_same r r' : entries r' = entries r → roster_le r r'.
Proof. intros H b e He. exists e. by rewrite H. Qed.

Lemma roster_le_add r e e' r' : add r e = Ok (e', r') → roster_le r r'.
Proof.
  unfold add. destruct (din _ _) eqn:Hd; [done|]. intros [= <- <-] b e1 He1. exists e1. split; [|done]. simpl.
  rewrite dget_dset_ne; [done|]. intros ->. unfold din in Hd. by rewrite He1 in Hd.
Qed.

Lemma roster_le_write r h e e1 f :
  dget (be_branch e) (entries r) = Some e → entry_le e e1 →
  roster_le r (persist {| caps := caps r; entries := dset (be_branch e) e1 (entries r); issued := issued r;
                          closed := closed r; held := h; snapshot_file := f |}).
Proof.
  intros Hg Hle b e2 He2. simpl. destruct (decide (b = be_branch e)) as [->|Hne].
  - exists e1. rewrite dget_dset_eq. split; [done|]. congruence.
  - exists e2. rewrite dget_dset_ne by done. done.
Qed.

Lemma roster_le_step s s' : roster_ok s.1 → roster_step s s' → roster_le s.1 s'.1 ∧ caps s'.1 = caps s.1.
Proof.
  intros Hok Hs. destruct Hs as [r ids b n|r ids b|r ids|r ids|r ids c k now e r' H|r ids b o c k f now e r' H
    |r ids b c e r' H|r ids b k e r' H|r ids b s e r' H|r ids r' H]; simpl in *.
  - unfold hold. destruct (_ <? _)%Z; (split; [by apply roster_le_same|done]).
  - unfold unhold. destruct (_ <=? _)%Z; (split; [by apply roster_le_same|done]).
  - split; [by apply roster_le_same|done].
  - split; [by apply roster_le_same|done].
  - split; [by eapply roster_le_add|]. by apply add_issued in H as [_ ?].
  - unfold open in H. destruct (negb _); [done|]. split; [by eapply roster_le_add|]. by apply add_issued in H as [_ ?].
  - unfold started in H. destruct (String.eqb _ _); [done|]. destruct (live r b) as [e0|] eqn:El; [|done].
    injection H as _ <-. split; [|done]. apply live_ok in El as (Hg & _ & Hs); [|done].
    apply roster_le_write; [done|]. split_and!; try done. unfold stopped. by rewrite Hs.
  - unfold set_k in H. destruct (live r b) as [e0|] eqn:El; [|done].
    injection H as _ <-. split; [|done]. apply live_ok in El as (Hg & _ & Hs); [|done].
    apply roster_le_write; [done|]. split_and!; try done. unfold stopped. by rewrite Hs.
  - unfold stop in H. destruct (dget b (entries r)) as [e0|] eqn:E; [|done].
    destruct (be_stop e0) eqn:Es; injection H as _ <-; [done|]. split; [|done].
    assert (b = be_branch e0) as -> by (apply (ok_ids r Hok); by apply dget_elem).
    apply (roster_le_write r (ddel (be_branch e0) (held r)) e0 (with_stop s e0) (snapshot_file r)); [done|].
    split_and!; try done. unfold stopped. by rewrite Es.
  - rewrite roster_rebuilt in H by done. injection H as <-. split; [by apply roster_le_same|done].
Qed.

Lemma roster_run_ok c r0 s :
  caps_ok c → roster_new c None = Ok r0 → rtc roster_step (r0, []) s →
  roster_ok s.1 ∧ ids_issued s ∧ caps s.1 = c.
Proof.
  intros Hc Hn. apply (rtc_preserves roster_step (λ s, roster_ok s.1 ∧ ids_issued s ∧ caps s.1 = c)).
  - intros a b (Hok & Hi & Hcaps) Hstep. split_and!; [by eapply roster_ok_step|by eapply ids_issued_step|].
    rewrite <- Hcaps. by apply roster_le_step.
  - destruct (roster_ok_empty c Hc) as (r & Hr & Hok & _ & Hi0). rewrite Hn in Hr. injection Hr as <-.
    split_and!; [done| |by injection Hn as <-]. unfold ids_issued. simpl. by rewrite Hi0.
Qed.

(** ** Quotas *)

Lemma quota_ks_keys r busy b :
  roster_ok r → b ∈ (quota_ks r busy).*1 ↔ ∃ e, dget b (entries r) = Some e ∧ may_submit busy e = true.
Proof.
  intros Hok. unfold quota_ks. rewrite elem_of_dmerge_keys, <- list_fmap_compose.
  rewrite (list_elem_of_fmap (fst ∘ _)). split.
  - intros [[]%not_elem_of_nil|(e & -> & [Hm ([b' e'] & -> & Hin)%list_elem_of_fmap]%list_elem_of_filter)]. simpl in *.
    exists e'. split; [|done]. rewrite <- (ok_ids r Hok _ _ Hin). apply elem_dget; [apply Hok|done].
  - intros (e & He & Hm). right. exists e. split.
    + simpl. apply (ok_ids r Hok). by apply dget_elem.
    + apply list_elem_of_filter. split; [done|]. by eapply dget_val.
Qed.

Lemma quota_ks_pos r busy b n : roster_ok r → (b, n) ∈ quota_ks r busy → (1 ≤ n)%Z.
Proof.
  intros Hok [[]%not_elem_of_nil|H]%elem_of_dmerge.
  apply list_elem_of_fmap in H as (e & [= -> ->] & [_ He]%list_elem_of_filter).
  pose proof (proj1 (Forall_forall _ _) (ok_k r Hok) e He) as Hk. simpl in Hk. lia.
Qed.

Lemma quota_built r busy dl :
  roster_ok r → ∃ p, quota_policy r busy dl = Ok p ∧ branch_k p = quota_ks r busy ∧
    listed_branches_only p = true ∧ open_branches p = None ∧ global_concurrency p = max_parallel_tests (caps r).
Proof.
  intros Hok. unfold quota_policy, mk_policy. eexists. split.
  - rewrite raise_if_false; [reflexivity|]. rewrite !orb_false_iff. split_and!; [done| |].
    + pose proof (ok_caps r Hok) as (_ & _ & ?). lia.
    + apply not_true_iff_false. intros (n & Hn%list_elem_of_In & Hlt)%existsb_exists.
      apply list_elem_of_fmap in Hn as ([b n'] & -> & Hin). apply quota_ks_pos in Hin; [|done]. simpl in Hlt. lia.
  - done.
Qed.
End roster.

(** ** What the roster guarantees *)

Section guarantees.
Context {F : Type} `{!FloatOps F}.
Implicit Types (r : Roster (F := F)).

(** C31: Over every run of the session, restarts of its process included: the admitted and running specialist
    branches never exceed the branch cap, every K stays within its bounds, and no branch id is handed out
    twice. *)
Theorem roster_within_caps c r0 r ids :
  caps_ok c → roster_new c None = Ok r0 → rtc roster_step (r0, []) (r, ids) →
  (count counts_toward_cap (dvals (entries r)) ≤ max_branches c)%Z ∧
  (∀ b e, dget b (entries r) = Some e → 1 ≤ be_k e ≤ max_k_per_branch c)%Z ∧
  NoDup ids.
Proof.
  intros Hc Hn Hr. destruct (roster_run_ok c r0 _ Hc Hn Hr) as (Hok & Hi & <-). simpl in *.
  split_and!; [apply Hok|intros b e; by apply entry_k|].
  unfold ids_issued in Hi. simpl in Hi. subst ids. pose proof (ok_issued r Hok).
  rewrite <- list_fmap_compose. apply NoDup_fmap_2_strong.
  - intros x y Hx%elem_of_reverse%elem_of_seq Hy%elem_of_reverse%elem_of_seq Hxy.
    apply branch_id_inj in Hxy; simpl in *; lia.
  - rewrite reverse_Permutation. apply NoDup_seq.
Qed.

(** C32: The snapshot file always is the roster: a process that dies after any operation and is started again
    over the same file has exactly the roster it had: the branches with their stops, in order, the slots
    held, the ids handed out and whether it closed. *)
Theorem roster_survives_restart c r0 r ids :
  caps_ok c → roster_new c None = Ok r0 → rtc roster_step (r0, []) (r, ids) →
  roster_new c (snapshot_file r) = Ok r.
Proof.
  intros Hc Hn Hr. destruct (roster_run_ok c r0 _ Hc Hn Hr) as (Hok & _ & <-). by apply roster_rebuilt.
Qed.

(** A branch once on the roster stays, with its kind, origin and parent; once it is stopped nothing changes
    it again, its first stop included, whatever the session does. *)
Theorem stopped_branch_final c r0 r ids r' ids' b e :
  caps_ok c → roster_new c None = Ok r0 → rtc roster_step (r0, []) (r, ids) → rtc roster_step (r, ids) (r', ids') →
  dget b (entries r) = Some e →
  ∃ e', dget b (entries r') = Some e' ∧ entry_le e e'.
Proof.
  intros Hc Hn Hr Hr'. destruct (roster_run_ok c r0 _ Hc Hn Hr) as (Hok & _ & _). intros He.
  assert (roster_ok r' ∧ roster_le r r') as [_ Hle].
  { change r' with ((r', ids').1). revert Hr'. apply (rtc_preserves roster_step (λ s, roster_ok s.1 ∧ roster_le r s.1)).
    - intros x y [Hx Hle] Hstep. split; [by eapply roster_ok_step|]. etrans; [done|]. by apply roster_le_step.
    - done. }
  by apply Hle.
Qed.

(** The queue policy a roster gives is always well formed, and under it a branch may submit a test exactly
    when it is running, or was stopped by a stop that lets its tests finish while the toolbox still holds one
    of them. *)
Theorem quota_admits c r0 r ids busy dl D (req : TestRequest D) :
  caps_ok c → roster_new c None = Ok r0 → rtc roster_step (r0, []) (r, ids) →
  ∃ p, quota_policy r busy dl = Ok p ∧ policy_ok p ∧
    (check_branch_listed (q_new p) req = Ok () ↔
     ∃ e, dget (tr_branch_id req) (entries r) = Some e ∧ may_submit busy e = true).
Proof.
  intros Hc Hn Hr. destruct (roster_run_ok c r0 _ Hc Hn Hr) as (Hok & _ & _).
  destruct (quota_built r busy dl Hok) as (p & Hp & Hbk & Hli & Hop & _). exists p. split; [done|].
  split; [unfold quota_policy in Hp; by apply mk_policy_ok in Hp|]. unfold check_branch_listed. simpl. rewrite Hop, Hli, Hbk, raise_if_ok. simpl.
  rewrite negb_false_iff, din_elem. by apply quota_ks_keys.
Qed.
End guarantees.

(** *** A concrete session: the integration branch, one specialist started and stopped, one running *)

Module RosterDemo.
Definition caps0 : RosterCaps := {| max_branches := 2; max_k_per_branch := 3; max_parallel_tests := 4 |}.
Definition run (file : option (pyval QArith_base.Q)) : res (Roster (F := QArith_base.Q)) :=
  r0 ← roster_new caps0 file;
  x1 ← add_integration r0 "c0" 1 fzero;
  let x2 := next_branch_id x1.2 in
  x3 ← open x2.2 x2.1 O_FIRST_BATCH "c0" 9 EmptyString fzero;
  x4 ← stop x3.2 "b01" {| bs_cause := C_JUDGE; bs_reason := "no gain"; bs_at := fzero |};
  let x5 := next_branch_id x4.2 in
  x6 ← open x5.2 x5.1 O_REFILL "c0" 2 EmptyString fzero;
  Ok x6.2.
Definition start : Roster (F := QArith_base.Q) := Eval vm_compute in
  match roster_new caps0 None with Ok r => r | Raise _ =>
    {| caps := caps0; entries := []; issued := 0; closed := false; held := []; snapshot_file := None |} end.
Definition final : Roster (F := QArith_base.Q) := Eval vm_compute in
  match run None with Ok r => r | Raise _ => start end.

Lemma caps0_ok : caps_ok caps0.
Proof. unfold caps_ok. simpl. lia. Qed.

Lemma final_reached : rtc roster_step (start, []) (final, ["b02"; "b01"]).
Proof.
  eapply rtc_l; [by eapply (rs_integration _ _ "c0" 1 fzero); vm_compute; reflexivity|].
  eapply rtc_l; [apply rs_next|].
  eapply rtc_l; [by eapply (rs_open _ _ "b01" O_FIRST_BATCH "c0" 9 EmptyString fzero); vm_compute; reflexivity|].
  eapply rtc_l; [by eapply (rs_stop _ _ "b01" {| bs_cause := C_JUDGE; bs_reason := "no gain"; bs_at := fzero |});
    vm_compute; reflexivity|].
  eapply rtc_l; [apply rs_next|].
  eapply rtc_l; [by eapply (rs_open _ _ "b02" O_REFILL "c0" 2 EmptyString fzero); vm_compute; reflexivity|].
  vm_compute. apply rtc_refl.
Qed.
End RosterDemo.

Lemma roster_within_caps_witness : (count counts_toward_cap (dvals (entries RosterDemo.final)) ≤ 2)%Z.
Proof.
  apply (roster_within_caps RosterDemo.caps0 RosterDemo.start RosterDemo.final ["b02"; "b01"] RosterDemo.caps0_ok
           eq_refl RosterDemo.final_reached).
Defined.

Lemma roster_survives_restart_witness :
  roster_new RosterDemo.caps0 (snapshot_file RosterDemo.final) = Ok RosterDemo.final.
Proof.
  apply (roster_survives_restart RosterDemo.caps0 RosterDemo.start RosterDemo.final ["b02"; "b01"]
           RosterDemo.caps0_ok eq_refl RosterDemo.final_reached).
Defined.

Lemma stopped_branch_final_witness :
  ∃ e', dget "b01" (entries RosterDemo.final) = Some e' ∧ stopped e' = true.
Proof.
  destruct (dget "b01" (entries RosterDemo.final)) as [e|] eqn:He; [|vm_compute in He; discriminate].
  destruct (stopped_branch_final RosterDemo.caps0 RosterDemo.start RosterDemo.final ["b02"; "b01"]
              RosterDemo.final ["b02"; "b01"] "b01" e RosterDemo.caps0_ok eq_refl RosterDemo.final_reached
              (rtc_refl _ _) He) as (e' & He' & Hle).
  exists e'. rewrite <- He. split; [exact He'|].
  assert (stopped e = true) as Hs by (vm_compute in He; injection He as <-; reflexivity).
  destruct Hle as (_ & _ & _ & _ & _ & Hle). rewrite (Hle Hs). exact Hs.
Defined.

Lemma quota_admits_witness :
  ∃ p, quota_policy RosterDemo.final [] [] = Ok p ∧
    (check_branch_listed (q_new p) (QueueDemo.req "r1" P_EXPLORE None) = Ok () → False).
Proof.
  destruct (quota_admits RosterDemo.caps0 RosterDemo.start RosterDemo.final ["b02"; "b01"] [] [] unit
              (QueueDemo.req "r1" P_EXPLORE None) RosterDemo.caps0_ok eq_refl RosterDemo.final_reached)
    as (p & Hp & _ & Hiff).
  exists p. split; [exact Hp|]. intros H. apply Hiff in H as (e & He & Hm). vm_compute in He.
  injection He as <-. vm_compute in Hm. discriminate.
Defined.
