(* ===== verification/ForkContracts.v ===== *)
(** * Intents, judgements and requests for a branch

    The contracts the rule gate and the scheduler exchange: [contracts/intent.py], [contracts/judgement.py],
    [contracts/fork.py], the conclusions of [contracts/blackboard/vocab.py], and the table that turns a
    judgement into an action ([rulegate/decision.py]).  SHA-256 and the fingerprint of a recipe change are
    arguments. *)

From stdpp Require Import base list strings pretty sets gmap.
From Stdlib Require Import ZArith Lia Ascii.
From S2P Require Import Prelude PyFloat PyVal Dicts TestRequests.

(** ** Intents *)

Inductive IntentLayer := L_CONFIG | L_SOURCE | L_KERNEL.
Definition layer_value (l : IntentLayer) : string :=
  match l with L_CONFIG => "config" | L_SOURCE => "source" | L_KERNEL => "kernel" end.
#[global] Instance IntentLayer_eq_dec : EqDecision IntentLayer.
Proof. solve_decision. Defined.

(** [_normalized] *)
Definition normalized (text : string) : string := join " " (py_words (py_lower text)).

Section contracts.
Context {F D : Type} `{!FloatOps F} `{!EqDecision F} `{!EqDecision D}.
(** [hashlib.sha256(...).hexdigest()] of a text, and [RecipeDelta.fingerprint]. *)
Context (sha256 : string → string) (delta_fingerprint : D → string).

Definition intent_fingerprint (target mechanism : string) (layer : IntentLayer) : string :=
  sha256 (join (String (ascii_of_nat 31) EmptyString)
            [normalized target; normalized mechanism; normalized (layer_value layer)]).

Record Intent := {
  in_branch : string;
  in_parent_commit : string;
  in_target : string;
  in_mechanism : string;
  in_layer : IntentLayer;
  in_target_share_pct : option F
}.
#[global] Instance Intent_eq_dec : EqDecision Intent.
Proof. solve_decision. Defined.

(** [Intent.__post_init__] *)
Definition intent_check (i : Intent) : res unit :=
  _ ← raise_if (String.eqb (normalized (in_target i)) EmptyString
                || String.eqb (normalized (in_mechanism i)) EmptyString)
        (ValueError "an intent needs a target and a mechanism");
  match in_target_share_pct i with
  | None => Ok ()
  | Some p => raise_if (negb (fleb fzero p && fleb p (f_of_Z 100)))
                (ValueError ("a target's share of GPU time is a percentage, not " +:+ frepr p))
  end.

Definition fingerprint (i : Intent) : string := intent_fingerprint (in_target i) (in_mechanism i) (in_layer i).

(** ** Judgements *)

Inductive Verdict := V_IMPROVED | V_FLAT | V_REGRESSED | V_NEEDS_CONFIRM | V_BLOCKED | V_INCONCLUSIVE.
Definition verdict_value (v : Verdict) : string :=
  match v with
  | V_IMPROVED => "improved" | V_FLAT => "flat" | V_REGRESSED => "regressed" | V_NEEDS_CONFIRM => "needs_confirm"
  | V_BLOCKED => "blocked" | V_INCONCLUSIVE => "inconclusive"
  end.
Inductive AccuracyVerdict := A_PASSED | A_FAILED | A_NOT_MEASURED.
#[global] Instance Verdict_eq_dec : EqDecision Verdict.
Proof. solve_decision. Defined.
#[global] Instance AccuracyVerdict_eq_dec : EqDecision AccuracyVerdict.
Proof. solve_decision. Defined.

Record Judgement := {
  ju_verdict : Verdict;
  ju_gain_pct : F;
  ju_threshold_pct : F;
  ju_request_ids : list string;
  ju_recorded_value : list (string * F);
  ju_accuracy : AccuracyVerdict;
  ju_refused_by : list string;
  ju_fixes_correctness : bool;
  ju_foundation_fix : bool
}.
#[global] Instance Judgement_eq_dec : EqDecision Judgement.
Proof. solve_decision. Defined.

(** ** What to do with a judged candidate *)

Inductive Action := RETEST | COMMIT | REQUEST_FORK | DIAGNOSE | RECORD_ONLY.
#[global] Instance Action_eq_dec : EqDecision Action.
Proof. solve_decision. Defined.

(** [_COMMIT_TABLE] *)
Definition commit_table (v : Verdict) (fixes : bool) : Action :=
  match v, fixes with
  | V_NEEDS_CONFIRM, _ => RETEST
  | V_IMPROVED, _ => COMMIT
  | V_BLOCKED, _ => DIAGNOSE
  | V_INCONCLUSIVE, _ => RECORD_ONLY
  | V_FLAT, false => RECORD_ONLY
  | V_FLAT, true => COMMIT
  | V_REGRESSED, false => RECORD_ONLY
  | V_REGRESSED, true => REQUEST_FORK
  end.
Definition decide_action (j : Judgement) : Action :=
  commit_table (ju_verdict j) (ju_fixes_correctness j && bool_decide (ju_accuracy j = A_PASSED)).

(** What [check_fix] makes of the judgement of a proven fix the critic finds reachable. *)
Definition as_fix (foundation : bool) (j : Judgement) : Judgement :=
  {| ju_verdict := ju_verdict j; ju_gain_pct := ju_gain_pct j; ju_threshold_pct := ju_threshold_pct j;
     ju_request_ids := ju_request_ids j; ju_recorded_value := ju_recorded_value j; ju_accuracy := ju_accuracy j;
     ju_refused_by := ju_refused_by j; ju_fixes_correctness := true; ju_foundation_fix := foundation |}.

Lemma committed_flags (j : Judgement) :
  decide_action j = COMMIT →
  ju_verdict j = V_IMPROVED ∨ ju_verdict j = V_FLAT ∧ ju_fixes_correctness j = true ∧ ju_accuracy j = A_PASSED.
Proof.
  unfold decide_action, commit_table. destruct (ju_verdict j), (ju_fixes_correctness j); cbn [andb]; try done; auto;
    case_bool_decide; auto; done.
Qed.

Inductive Conclusion :=
| CC_COMMITTED | CC_COMMITTED_WITH_REPRO | CC_SPLIT_REQUESTED | CC_SPLIT_PENDING | CC_SPLIT_COMMITTED
| CC_DIAGNOSIS_PENDING | CC_REPAIR_REQUESTED | CC_RECORDED_ONLY | CC_ACCURACY_FAILED | CC_UNVERIFIED
| CC_MERGED | CC_NOT_STACKABLE.
#[global] Instance Conclusion_eq_dec : EqDecision Conclusion.
Proof. solve_decision. Defined.

(** [COMMITTING] *)
Definition committing (c : Conclusion) : bool :=
  match c with CC_COMMITTED | CC_COMMITTED_WITH_REPRO | CC_SPLIT_COMMITTED => true | _ => false end.

(** [_recorded_as] of the rule gate *)
Definition recorded_as (j : Judgement) : Conclusion :=
  if bool_decide (ju_accuracy j = A_FAILED) && negb (bool_decide (ju_verdict j = V_INCONCLUSIVE))
  then CC_ACCURACY_FAILED else CC_RECORDED_ONLY.

(** ** Requests for a branch *)

Record ForkRequest := { fr_from_branch : string; fr_parent_commit : string; fr_reason : string }.
Record RepairRequest := {
  rr_intent : Intent;
  rr_candidate_delta : D;
  rr_judgement : Judgement;
  rr_diagnosis : string
}.
Record ShareRequest := { sr_from_branch : string; sr_start_commit : string; sr_agent : string; sr_plan : string }.
#[global] Instance RepairRequest_eq_dec : EqDecision RepairRequest.
Proof. solve_decision. Defined.
#[global] Instance ShareRequest_eq_dec : EqDecision ShareRequest.
Proof. solve_decision. Defined.

(** [RepairRequest(...)] with its [__post_init__] *)
Definition mk_repair (i : Intent) (d : D) (j : Judgement) (diagnosis : string) : res RepairRequest :=
  _ ← raise_if (negb (bool_decide (ju_verdict j = V_BLOCKED)))
        (ValueError ("only a blocked gain is repaired, not a " +:+ verdict_value (ju_verdict j) +:+ " one"));
  Ok {| rr_intent := i; rr_candidate_delta := d; rr_judgement := j; rr_diagnosis := diagnosis |}.

Inductive AdmissionStatus := ACCEPTED | PENDING | REJECTED.
#[global] Instance AdmissionStatus_eq_dec : EqDecision AdmissionStatus.
Proof. solve_decision. Defined.
Record ForkAdmission := { fa_status : AdmissionStatus; fa_reason : string; fa_branch : string }.

(** [ForkAdmission(...)] with its [__post_init__]: it names a branch exactly when it is not rejected. *)
Definition mk_admission (s : AdmissionStatus) (reason branch : string) : res ForkAdmission :=
  _ ← raise_if (xorb (negb (String.eqb branch EmptyString)) (negb (bool_decide (s = REJECTED))))
        (ValueError "an accepted or pending request, and only such a one, names its new branch");
  Ok {| fa_status := s; fa_reason := reason; fa_branch := branch |}.

(** [_repair_keys] of the fork desk: the change, and the intent on the commit it was measured against. *)
Definition repair_keys (r : RepairRequest) : list (list string) :=
  [[delta_fingerprint (rr_candidate_delta r)]; [in_parent_commit (rr_intent r); fingerprint (rr_intent r)]].

Lemma repair_keys_distinct r : NoDup (repair_keys r).
Proof. unfold repair_keys. repeat constructor; set_solver. Qed.
End contracts.
#[global] Arguments Intent : clear implicits.
#[global] Arguments Judgement : clear implicits.
#[global] Arguments RepairRequest : clear implicits.
