(* ===== verification/ForkDesk.v ===== *)
(** * The fork desk

    [multibranch/scheduling/forks.py]: the scheduler's answer to the rule gate's requests for a branch (a fork
    for a correctness fix, a repair of a blocked gain) and to a mapping branch's shares.  A request is
    refused, entered on the roster, or queued first in first out under a reserved branch id.

    The desk's methods await nothing, so each is one step; the clock reads of one call are one time [now].
    Every call the desk makes on the roster may raise in the source and is a [res] here; the theorems show
    that none does.  Python keeps what was already changed when a call raises; since none does, a raise
    simply has no state. *)

From stdpp Require Import base list strings pretty sets gmap sorting.
From Stdlib Require Import ZArith Lia Ascii.
From S2P Require Import Prelude PyFloat PyVal Dicts TestRequests WorkQueue Roster ForkContracts.

Definition QUEUE_FULL : string := "pending queue full".
Definition WAITING : string := "waiting for a branch slot".

(** [DECISION_KINDS], by value; the desk handles no other origin. *)
Definition DECISION_KINDS (o : BranchOrigin) : res string :=
  match o with
  | O_FORK => Ok "fork" | O_REPAIR => Ok "repair" | O_SHARE => Ok "share"
  | o => Raise (KeyError (origin_value o))
  end.
Definition status_text (s : AdmissionStatus) : string :=
  match s with ACCEPTED => "accepted" | PENDING => "pending" | REJECTED => "rejected" end.

Section desk.
Context {F D : Type} `{!FloatOps F} `{!EqDecision F} `{!EqDecision D}.
Context (sha256 : string → string) (delta_fingerprint : D → string).
Abbreviation keys_of := (repair_keys (F := F) (D := D) sha256 delta_fingerprint).

Record AdmittedBranch := {
  ab_branch : string;
  ab_parent_commit : string;
  ab_repair : option (RepairRequest F D);
  ab_share : option ShareRequest
}.

Record PendingBranch := {
  pb_branch : string;
  pb_origin : BranchOrigin;
  pb_from_branch : string;
  pb_parent_commit : string;
  pb_queued_at : F;
  pb_repair : option (RepairRequest F D);
  pb_share : option ShareRequest
}.
#[global] Instance PendingBranch_eq_dec : EqDecision PendingBranch.
Proof. solve_decision. Defined.

(** [Decision] as the log keeps it. *)
Record Decision := { dc_kind : string; dc_reason : string; dc_branch : string; dc_detail : pydict F }.

Record Desk := {
  dk_roster : Roster (F := F);
  dk_queue : list PendingBranch;
  dk_waiting : list (string * AdmittedBranch);
  dk_repairs : gmap (list string) string;
  dk_log : list Decision
}.
Implicit Types (d : Desk) (p : PendingBranch).

Definition desk_new (r : Roster (F := F)) : Desk :=
  {| dk_roster := r; dk_queue := []; dk_waiting := []; dk_repairs := ∅; dk_log := [] |}.

Definition with_roster (r : Roster (F := F)) d : Desk :=
  {| dk_roster := r; dk_queue := dk_queue d; dk_waiting := dk_waiting d; dk_repairs := dk_repairs d;
     dk_log := dk_log d |}.
Definition with_queue (q : list PendingBranch) d : Desk :=
  {| dk_roster := dk_roster d; dk_queue := q; dk_waiting := dk_waiting d; dk_repairs := dk_repairs d;
     dk_log := dk_log d |}.
Definition with_repairs (m : gmap (list string) string) d : Desk :=
  {| dk_roster := dk_roster d; dk_queue := dk_queue d; dk_waiting := dk_waiting d; dk_repairs := m;
     dk_log := dk_log d |}.
Definition with_branch (b : string) p : PendingBranch :=
  {| pb_branch := b; pb_origin := pb_origin p; pb_from_branch := pb_from_branch p;
     pb_parent_commit := pb_parent_commit p; pb_queued_at := pb_queued_at p; pb_repair := pb_repair p;
     pb_share := pb_share p |}.

(** [_parent_refusal] and [_share_refusal] *)
Definition find_entry (r : Roster (F := F)) (b : string) : option BranchEntry :=
  head (filter (λ e, be_branch e = b) (dvals (entries r))).
Definition unknown_parent (b : string) : string := "unknown parent branch " +:+ repr_str b.
Definition parent_refusal (r : Roster (F := F)) (from_branch : string) : string :=
  match find_entry r from_branch with
  | None => unknown_parent from_branch
  | Some e => if stopped e then "parent branch is stopped" else EmptyString
  end.
Definition share_refusal (r : Roster (F := F)) (q : ShareRequest) : string :=
  if existsb (λ e, bool_decide (be_branch e = sr_from_branch q)) (dvals (entries r)) then EmptyString
  else unknown_parent (sr_from_branch q).

(** [_record] *)
Definition record d p (reason st : string) : res Desk :=
  kind ← DECISION_KINDS (pb_origin p);
  let detail := [("status", PStr st); ("from_branch", PStr (pb_from_branch p));
                 ("parent_commit", PStr (pb_parent_commit p))]
    ++ match pb_repair p with Some r => [("diagnosis", PStr (rr_diagnosis r))] | None => [] end
    ++ match pb_share p with Some s => [("agent", PStr (sr_agent s)); ("plan", PStr (sr_plan s))] | None => [] end in
  Ok {| dk_roster := dk_roster d; dk_queue := dk_queue d; dk_waiting := dk_waiting d; dk_repairs := dk_repairs d;
        dk_log := dk_log d ++ [{| dc_kind := kind; dc_reason := reason; dc_branch := pb_branch p;
                                  dc_detail := detail |}] |}.

(** [_enter] *)
Definition enter d p (now : F) : res Desk :=
  match dget (pb_from_branch p) (entries (dk_roster d)) with
  | None => Raise (KeyError (pb_from_branch p))
  | Some parent =>
      er ← open (dk_roster d) (pb_branch p) (pb_origin p) EmptyString (be_k parent) (pb_from_branch p) now;
      Ok {| dk_roster := er.2; dk_queue := dk_queue d;
            dk_waiting := dset (pb_branch p)
              {| ab_branch := pb_branch p; ab_parent_commit := pb_parent_commit p; ab_repair := pb_repair p;
                 ab_share := pb_share p |} (dk_waiting d);
            dk_repairs := dk_repairs d; dk_log := dk_log d |}
  end.

(** [_queue_refusal] *)
Definition queue_refusal d : string :=
  if closed (dk_roster d) then open_refusal (dk_roster d)
  else if (max_branches (caps (dk_roster d)) <=? Z.of_nat (length (dk_queue d)))%Z then QUEUE_FULL else EmptyString.

Definition nonempty (s : string) : bool := negb (String.eqb s EmptyString).

(** [_admit] *)
Definition admit_pending d p (reason refusal : string) (now : F) : res (ForkAdmission * Desk) :=
  let refusal := if nonempty refusal then refusal else queue_refusal d in
  if nonempty refusal then
    d' ← record d p refusal (status_text REJECTED);
    a ← mk_admission REJECTED refusal EmptyString;
    Ok (a, d')
  else
    let waits := negb (bool_decide (dk_queue d = [])) || nonempty (open_refusal (dk_roster d)) in
    let '(b, r) := next_branch_id (dk_roster d) in
    let p' := with_branch b p in
    let d1 := with_roster r d in
    if waits then
      let d2 := with_queue (dk_queue d1 ++ [p']) d1 in
      a ← mk_admission PENDING WAITING b;
      d3 ← record d2 p' reason (status_text PENDING);
      Ok (a, d3)
    else
      d2 ← enter d1 p' now;
      a ← mk_admission ACCEPTED reason b;
      d3 ← record d2 p' reason (status_text ACCEPTED);
      Ok (a, d3).

(** [admit_fork], [admit_repair] and [admit_share] *)
Definition admit_fork d (q : ForkRequest) (now : F) : res (ForkAdmission * Desk) :=
  let p := {| pb_branch := EmptyString; pb_origin := O_FORK; pb_from_branch := fr_from_branch q;
              pb_parent_commit := fr_parent_commit q; pb_queued_at := now; pb_repair := None; pb_share := None |} in
  admit_pending d p (fr_reason q) (parent_refusal (dk_roster d) (fr_from_branch q)) now.

Definition repairing (m : gmap (list string) string) (keys : list (list string)) : string :=
  default EmptyString (head (omap (λ k, m !! k) keys)).

Definition admit_repair d (q : RepairRequest F D) (now : F) : res (ForkAdmission * Desk) :=
  let i := rr_intent q in
  let keys := keys_of q in
  let refusal := parent_refusal (dk_roster d) (in_branch i) in
  let other := repairing (dk_repairs d) keys in
  let refusal := if negb (nonempty refusal) && nonempty other
    then other +:+ " already repairs this change, or this intent on " +:+ in_parent_commit i
         +:+ ", and is open or queued; replay what it lands instead"
    else refusal in
  let p := {| pb_branch := EmptyString; pb_origin := O_REPAIR; pb_from_branch := in_branch i;
              pb_parent_commit := in_parent_commit i; pb_queued_at := now; pb_repair := Some q; pb_share := None |} in
  ad ← admit_pending d p ("repair of " +:+ in_mechanism i +:+ " on " +:+ in_target i) refusal now;
  if bool_decide (fa_status ad.1 = REJECTED) then Ok ad
  else Ok (ad.1, with_repairs (foldl (λ m k, <[k := fa_branch ad.1]> m) (dk_repairs ad.2) keys) ad.2).

Definition admit_share d (q : ShareRequest) (now : F) : res (ForkAdmission * Desk) :=
  let p := {| pb_branch := EmptyString; pb_origin := O_SHARE; pb_from_branch := sr_from_branch q;
              pb_parent_commit := sr_start_commit q; pb_queued_at := now; pb_repair := None; pb_share := Some q |} in
  let d' := with_roster (unhold (dk_roster d) (sr_from_branch q)) d in
  admit_pending d' p ("share " +:+ sr_plan q +:+ " of " +:+ sr_agent q) (share_refusal (dk_roster d') q) now.

(** [f"{x:.0f}"] of a waiting time. *)
Definition fmt_seconds (x : F) : string := pretty (f_trunc (fround 0 x)).

(** [fill_free_slots], recursing on the queue the loop pops from. *)
Fixpoint fill_from (q : list PendingBranch) d (now : F) : res Desk :=
  match q with
  | [] => Ok (with_queue [] d)
  | p :: q' =>
      if nonempty (open_refusal (dk_roster d)) then Ok (with_queue q d)
      else
        d1 ← enter (with_queue q' d) p now;
        d2 ← record d1 p ("dequeued after " +:+ fmt_seconds (fsub now (pb_queued_at p)) +:+ "s") "dequeued";
        fill_from q' d2 now
  end.
Definition fill_free_slots d (now : F) : res Desk := fill_from (dk_queue d) d now.

(** [_void]: the loop over the voided requests. *)
Fixpoint del_keys (m : gmap (list string) string) (keys : list (list string)) : res (gmap (list string) string) :=
  match keys with
  | [] => Ok m
  | k :: ks => match m !! k with
               | Some _ => del_keys (delete k m) ks
               | None => Raise (KeyError (join ", " k))
               end
  end.
Fixpoint void_each (voided : list PendingBranch) (reason : string) d : res Desk :=
  match voided with
  | [] => Ok d
  | p :: ps =>
      m ← match pb_repair p with Some r => del_keys (dk_repairs d) (keys_of r) | None => Ok (dk_repairs d) end;
      d' ← record (with_repairs m d) p ("voided: " +:+ reason) "voided";
      void_each ps reason d'
  end.
Definition void d (voided : list PendingBranch) (reason : string) : res (list string * Desk) :=
  d' ← void_each voided reason (with_queue (filter (λ p, p ∉ voided) (dk_queue d)) d);
  Ok (pb_branch <$> voided, d').

(** [void_from] and [void_all] *)
Definition void_from d (parent reason : string) : res (list string * Desk) :=
  void d (filter (λ p, pb_from_branch p = parent ∧ pb_origin p ≠ O_SHARE) (dk_queue d)) reason.
Definition void_all d (reason : string) : res (list string * Desk) := void d (dk_queue d) reason.

(** [pending], [waiting] and [release] *)
Definition pending d : list PendingBranch := dk_queue d.
Definition waiting d : list AdmittedBranch := dvals (dk_waiting d).
Definition release_branch d (branch : string) : res Desk :=
  if din branch (dk_waiting d) then
    Ok {| dk_roster := dk_roster d; dk_queue := dk_queue d; dk_waiting := ddel branch (dk_waiting d);
          dk_repairs := dk_repairs d; dk_log := dk_log d |}
  else Raise (KeyError branch).

(** ** The invariant

    [core r q w]: a roster, a queue and the branches waiting to start that belong together. *)

Definition desk_origin (o : BranchOrigin) : bool := match o with O_FORK | O_REPAIR | O_SHARE => true | _ => false end.
Definition desk_entries (r : Roster (F := F)) : list BranchEntry :=
  filter (λ e, desk_origin (be_origin e) = true) (dvals (entries r)).

Record core (r : Roster (F := F)) (q : list PendingBranch) (w : list (string * AdmittedBranch)) : Prop := {
  co_roster : roster_ok r;
  co_ids : ∀ b, b ∈ (entries r).*1 → b = INTEGRATION_BRANCH ∨ ∃ n, (0 < n ≤ issued r)%Z ∧ b = branch_id n;
  co_fresh : ∀ p, p ∈ q → pb_branch p ∉ (entries r).*1;
  co_parent : ∀ p, p ∈ q → pb_from_branch p ∈ (entries r).*1;
  co_origin : ∀ p, p ∈ q → desk_origin (pb_origin p) = true;
  co_len : (Z.of_nat (length q) ≤ max_branches (caps r))%Z;
  co_waiting : ∀ b, b ∈ w.*1 → b ∈ (entries r).*1;
  co_wkeys : NoDup w.*1;
  co_wnames : ∀ b a, (b, a) ∈ w → ab_branch a = b;
  co_nums : ∃ ms ns, be_branch <$> desk_entries r = branch_id <$> ms ∧ pb_branch <$> q = branch_id <$> ns ∧
                     StronglySorted Z.lt (ms ++ ns) ∧ Forall (λ n, 0 < n ≤ issued r)%Z (ms ++ ns)
}.

Lemma sorted_snoc (l : list Z) n : StronglySorted Z.lt l → Forall (λ m, m < n)%Z l → StronglySorted Z.lt (l ++ [n]).
Proof.
  induction 1 as [|m l Hl IH Hm]; intros Hn; simpl; [repeat constructor|].
  apply Forall_cons in Hn as [? ?]. constructor; [auto|]. apply Forall_app. split; [done|]. by constructor.
Qed.
Lemma sorted_NoDup (l : list Z) : StronglySorted Z.lt l → NoDup l.
Proof.
  induction 1 as [|m l Hl IH Hm]; constructor; [|done]. rewrite Forall_forall in Hm.
  intros Hin. specialize (Hm m Hin). lia.
Qed.
Lemma sorted_nums_sublist (l l' : list Z) : sublist l' l → StronglySorted Z.lt l → StronglySorted Z.lt l'.
Proof.
  induction 1 as [|m l1 l2 Hs IH|m l1 l2 Hs IH]; inversion 1; subst; [done| |auto].
  constructor; [auto|]. by eapply Forall_sublist.
Qed.
(** A part of a queue has a part of its numbers. *)
Lemma sublist_nums (q q' : list PendingBranch) (ns : list Z) :
  sublist q' q → pb_branch <$> q = branch_id <$> ns → ∃ ns', sublist ns' ns ∧ pb_branch <$> q' = branch_id <$> ns'.
Proof.
  intros Hs. revert ns. induction Hs as [|p q1 q2 Hs IH|p q1 q2 Hs IH]; intros [|n ns] Heq; try discriminate Heq.
  - by exists [].
  - injection Heq as Hp Heq. destruct (IH ns Heq) as (ns' & ? & ?). exists (n :: ns'). split; [by constructor|].
    simpl. by f_equal.
  - injection Heq as Hp Heq. destruct (IH ns Heq) as (ns' & ? & ?). exists ns'. split; [by constructor|done].
Qed.

Lemma core_queue_ids r q w : core r q w → NoDup (pb_branch <$> q).
Proof.
  intros [? ? ? ? ? ? ? ? ? (ms & ns & _ & -> & Hs & Hr)].
  apply NoDup_fmap_2_strong.
  - intros x y Hx Hy. rewrite Forall_forall in Hr.
    apply branch_id_inj; [apply (Hr x)|apply (Hr y)]; apply elem_of_app; by right.
  - apply sorted_NoDup in Hs. by apply NoDup_app in Hs as (_ & _ & ?).
Qed.

Lemma branch_id_ne_integration n : branch_id n ≠ INTEGRATION_BRANCH.
Proof. unfold branch_id. intros H. discriminate H. Qed.
Lemma branch_id_nonempty n : branch_id n ≠ EmptyString.
Proof. unfold branch_id. intros H. discriminate H. Qed.

(** The queue loses requests. *)
Lemma core_sublist r q q' w : core r q w → sublist q' q → core r q' w.
Proof.
  intros [H1 H2 H3 H4 H5 H6 H7 H8 H9 (ms & ns & E1 & E2 & Hs & Hr)] Hsub.
  assert (∀ p, p ∈ q' → p ∈ q) as Hin by (intros p Hp; eapply elem_of_submseteq; [exact Hp|]; by apply sublist_submseteq).
  split; try done; try (intros p Hp; by auto).
  - apply sublist_length in Hsub. lia.
  - destruct (sublist_nums _ _ _ Hsub E2) as (ns' & Hns & E2'). exists ms, ns'.
    assert (sublist (ms ++ ns') (ms ++ ns)) as Hsub' by (by apply sublist_skips_l || by apply sublist_app).
    split_and!; try done; [by eapply sorted_nums_sublist|]. by eapply Forall_sublist.
Qed.

(** The roster changes outside the desk: its entries keep their origin and none is the desk's. *)
Lemma core_roster r r' q w :
  core r q w → roster_ok r' → caps r' = caps r → (issued r ≤ issued r')%Z →
  (∀ b, b ∈ (entries r').*1 → b ∈ (entries r).*1 ∨ b = INTEGRATION_BRANCH ∨ ∃ n, (0 < n ≤ issued r')%Z ∧ b = branch_id n) →
  (∀ b, b ∈ (entries r).*1 → b ∈ (entries r').*1) → (∀ p, p ∈ q → pb_branch p ∉ (entries r').*1) →
  be_branch <$> desk_entries r' = be_branch <$> desk_entries r → core r' q w.
Proof.
  intros [H1 H2 H3 H4 H5 H6 H7 H8 H9 (ms & ns & E1 & E2 & Hs & Hr)] Hok Hcaps Hi Hids Hkeep Hfresh Hdesk.
  split; try done; eauto.
  - intros b Hb. destruct (Hids b Hb) as [Hb'|?]; [|done]. destruct (H2 b Hb') as [?|(n & ? & ?)]; [by left|].
    right. exists n. split; [lia|done].
  - by rewrite Hcaps.
  - exists ms, ns. rewrite Hdesk. split_and!; try done. eapply Forall_impl; [done|]. simpl. lia.
Qed.

Lemma core_next r q w : core r q w → core (next_branch_id r).2 q w.
Proof.
  intros H. eapply core_roster; [done|apply roster_ok_next, H|done|simpl; lia|auto|auto|apply H|done].
Qed.

(** A request is queued under the next id. *)
Lemma core_push r q w p :
  core r q w → pb_from_branch p ∈ (entries r).*1 → desk_origin (pb_origin p) = true →
  (Z.of_nat (length q) < max_branches (caps r))%Z →
  core (next_branch_id r).2 (q ++ [with_branch (next_branch_id r).1 p]) w.
Proof.
  intros Hc Hp Ho Hlen. pose proof (core_next r q w Hc) as [H1 H2 H3 H4 H5 H6 H7 H8 H9 _].
  destruct (co_nums _ _ _ Hc) as (ms & ns & E1 & E2 & Hs & Hr).
  pose proof (ok_issued r (co_roster _ _ _ Hc)) as Hi. cbn [next_branch_id fst snd] in *.
  split; simpl; try done.
  - intros p' [?| ->%list_elem_of_singleton]%elem_of_app; [auto|]. simpl. intros Hin.
    destruct (co_ids _ _ _ Hc _ Hin) as [Hb|(n & Hn & Hb)].
    + by apply branch_id_ne_integration in Hb.
    + apply branch_id_inj in Hb; lia.
  - intros p' [?| ->%list_elem_of_singleton]%elem_of_app; [auto|done].
  - intros p' [?| ->%list_elem_of_singleton]%elem_of_app; [auto|done].
  - rewrite length_app. simpl. lia.
  - exists ms, (ns ++ [issued r + 1]%Z). rewrite !fmap_app, E2, app_assoc. split_and!; try done.
    + apply sorted_snoc; [done|]. eapply Forall_impl; [done|]. simpl. lia.
    + apply Forall_app. split; [eapply Forall_impl; [done|]; simpl; lia|]. constructor; [simpl; lia|done].
Qed.

(** The first of the queue enters the roster: the open cannot fail. *)
Lemma open_enters (r : Roster (F := F)) b o c k f now :
  roster_ok r → open_refusal r = EmptyString → b ∉ (entries r).*1 →
  ∃ e r', open r b o c k f now = Ok (e, r') ∧ roster_ok r' ∧ entries r' = entries r ++ [(b, e)] ∧
          be_branch e = b ∧ be_origin e = o ∧ issued r' = issued r ∧ caps r' = caps r ∧ closed r' = closed r.
Proof.
  intros Hok Hr Hb. destruct (open r b o c k f now) as [[e r']|ex] eqn:E.
  - exists e, r'. pose proof (roster_ok_open _ _ _ _ _ _ _ _ _ Hok E) as Hok'. split_and!; try done;
      unfold open in E; rewrite Hr in E; simpl in E; unfold add in E; destruct (din _ _); try done;
      injection E as <- <-; simpl; try done. by rewrite dset_notin.
  - exfalso. unfold open in E. rewrite Hr in E. simpl in E. unfold add in E. simpl in E.
    destruct (din b (entries r)) eqn:Hd; [|done]. by apply din_elem in Hd.
Qed.

Definition admitted_of p : AdmittedBranch :=
  {| ab_branch := pb_branch p; ab_parent_commit := pb_parent_commit p; ab_repair := pb_repair p;
     ab_share := pb_share p |}.

Lemma enter_ok d p q now :
  core (dk_roster d) (p :: q) (dk_waiting d) → open_refusal (dk_roster d) = EmptyString →
  ∃ d', enter d p now = Ok d' ∧ core (dk_roster d') q (dk_waiting d') ∧
        dk_waiting d' = dset (pb_branch p) (admitted_of p) (dk_waiting d) ∧
        dk_queue d' = dk_queue d ∧ dk_repairs d' = dk_repairs d.
Proof.
  intros [H1 H2 H3 H4 H5 H6 H7 H8 H9 (ms & ns & E1 & E2 & Hs & Hr)] Href. unfold enter.
  destruct (dget (pb_from_branch p) (entries (dk_roster d))) as [e0|] eqn:Eg.
  2:{ apply dget_None in Eg. exfalso. apply Eg, H4. left. }
  destruct (open_enters (dk_roster d) (pb_branch p) (pb_origin p) EmptyString (be_k e0) (pb_from_branch p) now)
    as (e & r' & Ho & Hok' & Hent & Hbe & Hoe & Hiss & Hcaps & _); [done|done|apply H3; left|].
  rewrite Ho. simpl. eexists. split; [reflexivity|]. simpl. split; [|done].
  assert (∀ x, x ∈ (entries r').*1 ↔ x ∈ (entries (dk_roster d)).*1 ∨ x = pb_branch p) as Hkeys.
  { intros x. rewrite Hent, fmap_app, elem_of_app. set_solver. }
  assert (NoDup (pb_branch p :: (pb_branch <$> q))) as Hnd.
  { apply (core_queue_ids (dk_roster d) (p :: q) (dk_waiting d)). split; try done. eauto 10. }
  apply NoDup_cons in Hnd as [Hnp _].
  destruct ns as [|n ns]; [discriminate E2|]. injection E2 as En E2.
  assert (0 < n ≤ issued (dk_roster d))%Z as Hn.
  { rewrite Forall_forall in Hr. apply Hr. apply elem_of_app. right. left. }
  split; try done.
  - intros b [Hb| ->]%Hkeys; rewrite Hiss; [by apply H2|]. right. by exists n.
  - intros p' Hp' [Hb|Hb]%Hkeys; [apply (H3 p'); [by right|done]|]. apply Hnp. rewrite <- Hb. by apply list_elem_of_fmap_2.
  - intros p' Hp'. apply Hkeys. left. apply H4. by right.
  - intros p' Hp'. apply H5. by right.
  - rewrite Hcaps. simpl in H6. lia.
  - intros b [->|Hb]%elem_of_dset_keys; apply Hkeys; [by right|left; auto].
  - by apply NoDup_dset.
  - intros b a [[-> ->]|Ha]%dset_elem; [done|auto].
  - exists (ms ++ [n]), ns. rewrite <- app_assoc. rewrite Hiss. split_and!; try done.
    unfold desk_entries. rewrite Hent. unfold dvals. rewrite fmap_app, filter_app. rewrite !fmap_app.
    change (filter _ (entries (dk_roster d)).*2) with (desk_entries (dk_roster d)). rewrite E1. f_equal.
    simpl. rewrite filter_cons_True; [|rewrite Hoe; apply H5; left]. simpl. by rewrite Hbe, En.
Qed.

(** ** Repairs in progress *)

(** The repairs queued and those waiting to start, with their branches. *)
Definition open_repairs d : list (string * RepairRequest F D) :=
  (dk_queue d ≫= λ p, match pb_repair p with Some r => [(pb_branch p, r)] | None => [] end)
  ++ (dvals (dk_waiting d) ≫= λ a, match ab_repair a with Some r => [(ab_branch a, r)] | None => [] end).

Definition repairs_ok d : Prop :=
  (∀ b r, (b, r) ∈ open_repairs d → ∀ k, k ∈ keys_of r → dk_repairs d !! k = Some b) ∧
  (∀ k b, dk_repairs d !! k = Some b → b ≠ EmptyString).

Record desk_ok d : Prop := {
  de_core : core (dk_roster d) (dk_queue d) (dk_waiting d);
  de_repairs : repairs_ok d
}.

Lemma elem_queue_repairs (q : list PendingBranch) b r :
  (b, r) ∈ (q ≫= λ p, match pb_repair p with Some r => [(pb_branch p, r)] | None => [] end) ↔
  ∃ p, p ∈ q ∧ pb_branch p = b ∧ pb_repair p = Some r.
Proof.
  rewrite list_elem_of_bind. split.
  - intros (p & Hin & Hp). exists p. destruct (pb_repair p) as [r'|]; [|by apply not_elem_of_nil in Hin].
    apply list_elem_of_singleton in Hin. injection Hin as -> ->. done.
  - intros (p & Hp & <- & Hr). exists p. rewrite Hr. split; [by apply list_elem_of_singleton|done].
Qed.
Lemma elem_waiting_repairs (w : list AdmittedBranch) b r :
  (b, r) ∈ (w ≫= λ a, match ab_repair a with Some r => [(ab_branch a, r)] | None => [] end) ↔
  ∃ a, a ∈ w ∧ ab_branch a = b ∧ ab_repair a = Some r.
Proof.
  rewrite list_elem_of_bind. split.
  - intros (p & Hin & Hp). exists p. destruct (ab_repair p) as [r'|]; [|by apply not_elem_of_nil in Hin].
    apply list_elem_of_singleton in Hin. injection Hin as -> ->. done.
  - intros (p & Hp & <- & Hr). exists p. rewrite Hr. split; [by apply list_elem_of_singleton|done].
Qed.
Lemma elem_open_repairs d b r :
  (b, r) ∈ open_repairs d ↔
  (∃ p, p ∈ dk_queue d ∧ pb_branch p = b ∧ pb_repair p = Some r) ∨
  (∃ a, a ∈ dvals (dk_waiting d) ∧ ab_branch a = b ∧ ab_repair a = Some r).
Proof. unfold open_repairs. rewrite elem_of_app, elem_queue_repairs, elem_waiting_repairs. done. Qed.

(** A request that moves from the queue to the waiting branches opens no new repair. *)
Lemma enter_repairs d d' p q b r :
  dk_waiting d' = dset (pb_branch p) (admitted_of p) (dk_waiting d) → dk_queue d' = q →
  (b, r) ∈ open_repairs d' →
  (b, r) ∈ open_repairs (with_queue (p :: q) d).
Proof.
  intros Hw Hq. rewrite !elem_open_repairs, Hw, Hq. simpl. intros [(p' & ? & ?)|(a & Ha & Hb & Hr)].
  - left. exists p'. split; [by right|done].
  - apply list_elem_of_fmap in Ha as ([k a'] & -> & Ha). simpl in *. apply dset_elem in Ha as [[-> ->]|Ha].
    + left. exists p. split; [left|done].
    + right. exists a'. split; [|done]. apply list_elem_of_fmap. by exists (k, a').
Qed.

Lemma record_ok d p reason st :
  desk_origin (pb_origin p) = true →
  ∃ d', record d p reason st = Ok d' ∧ dk_roster d' = dk_roster d ∧ dk_queue d' = dk_queue d ∧
        dk_waiting d' = dk_waiting d ∧ dk_repairs d' = dk_repairs d.
Proof. unfold record. by destruct (pb_origin p); simpl; eauto 10. Qed.

(** ** Admission *)

Lemma nonempty_false x : nonempty x = false ↔ x = EmptyString.
Proof. unfold nonempty. rewrite negb_false_iff. apply String.eqb_eq. Qed.

Lemma mk_admission_named s reason b :
  s ≠ REJECTED → b ≠ EmptyString →
  mk_admission s reason b = Ok {| fa_status := s; fa_reason := reason; fa_branch := b |}.
Proof.
  intros Hs Hb. unfold mk_admission. apply String.eqb_neq in Hb. rewrite Hb. by destruct s.
Qed.

Record admitted_spec d p refusal (a : ForkAdmission) d' : Prop := {
  as_core : core (dk_roster d') (dk_queue d') (dk_waiting d');
  as_repairs : dk_repairs d' = dk_repairs d;
  as_reason : fa_status a = REJECTED → fa_reason a ≠ EmptyString ∧ open_repairs d' = open_repairs d ∧
                                       dk_queue d' = dk_queue d ∧ dk_roster d' = dk_roster d;
  as_fresh : fa_status a ≠ REJECTED → refusal = EmptyString ∧ fa_branch a = branch_id (issued (dk_roster d) + 1);
  as_open : ∀ b r, (b, r) ∈ open_repairs d' → (b, r) ∈ open_repairs d ∨
                   (fa_status a ≠ REJECTED ∧ b = fa_branch a ∧ pb_repair p = Some r);
  as_accepted : fa_status a = ACCEPTED ↔ refusal = EmptyString ∧ queue_refusal d = EmptyString ∧
                  dk_queue d = [] ∧ open_refusal (dk_roster d) = EmptyString;
  as_pending : fa_status a = PENDING → dk_queue d' = dk_queue d ++ [with_branch (fa_branch a) p]
}.

Lemma admit_pending_ok d p reason refusal now :
  core (dk_roster d) (dk_queue d) (dk_waiting d) → desk_origin (pb_origin p) = true →
  (refusal = EmptyString → pb_from_branch p ∈ (entries (dk_roster d)).*1) →
  ∃ a d', admit_pending d p reason refusal now = Ok (a, d') ∧ admitted_spec d p refusal a d'.
Proof.
  intros Hc Ho Hp. unfold admit_pending.
  set (rf := if nonempty refusal then refusal else queue_refusal d).
  destruct (nonempty rf) eqn:Hrf.
  - destruct (record_ok d p rf (status_text REJECTED) Ho) as (d' & -> & Hr & Hq & Hw & Hre). simpl.
    eexists _, d'. split; [reflexivity|]. split; try done; simpl.
    + by rewrite Hr, Hq, Hw.
    + intros _. unfold open_repairs. rewrite Hq, Hw. split_and!; try done. intros E. by rewrite E in Hrf.
    + intros b r Hin. left. rewrite elem_open_repairs in *. by rewrite Hq, Hw in Hin.
    + split; [done|]. intros (-> & Hqr & _). unfold rf in Hrf. simpl in Hrf. by rewrite Hqr in Hrf.
  - assert (refusal = EmptyString ∧ queue_refusal d = EmptyString) as [Er Eq].
    { unfold rf in Hrf. destruct (nonempty refusal) eqn:E; [congruence|].
      by apply nonempty_false in E, Hrf. }
    specialize (Hp Er).
    assert (Z.of_nat (length (dk_queue d)) < max_branches (caps (dk_roster d)) ∧ closed (dk_roster d) = false)%Z as [Hlen Hcl].
    { unfold queue_refusal, open_refusal in Eq. destruct (closed (dk_roster d)); [done|].
      destruct (Z.leb_spec (max_branches (caps (dk_roster d))) (Z.of_nat (length (dk_queue d)))); [done|]. done. }
    pose proof (core_push _ _ _ p Hc Hp Ho Hlen) as Hpush.
    destruct (next_branch_id (dk_roster d)) as [b r1] eqn:En. simpl in Hpush.
    assert (b = branch_id (issued (dk_roster d) + 1)) as Hb by (by injection En as <- _).
    assert (b ≠ EmptyString) as Hbne by (rewrite Hb; apply branch_id_nonempty).
    set (p' := with_branch b p) in *.
    destruct (negb (bool_decide (dk_queue d = [])) || nonempty (open_refusal (dk_roster d))) eqn:Hw.
    + rewrite mk_admission_named by done. cbn [mbind res_bind].
      destruct (record_ok (with_queue (dk_queue (with_roster r1 d) ++ [p']) (with_roster r1 d)) p' reason
                  (status_text PENDING) Ho) as (d3 & -> & Hr3 & Hq3 & Hw3 & Hre3). simpl in *.
      eexists _, d3. split; [reflexivity|]. split; simpl; try done.
      * by rewrite Hr3, Hq3, Hw3.
      * intros b' r. rewrite !elem_open_repairs, Hq3, Hw3. intros [(x & Hx & Hxb & Hxr)|Hx]; [|by left; right].
        apply elem_of_app in Hx as [Hx| ->%list_elem_of_singleton]; [left; left; by exists x|]. right. done.
      * split; [done|]. intros (_ & _ & Hqe & Hre). rewrite Hqe, Hre in Hw. done.
    + apply orb_false_iff in Hw as [Hqe Hop]. apply negb_false_iff, bool_decide_eq_true in Hqe.
      apply nonempty_false in Hop. rewrite Hqe in Hpush. simpl in Hpush.
      assert (open_refusal r1 = EmptyString) as Hop1 by (injection En as _ <-; exact Hop).
      destruct (enter_ok (with_roster r1 d) p' [] now Hpush Hop1) as (d2 & -> & Hc2 & Hw2 & Hq2 & Hre2).
      cbn [mbind res_bind]. rewrite mk_admission_named by done. cbn [mbind res_bind].
      destruct (record_ok d2 p' reason (status_text ACCEPTED) Ho) as (d3 & -> & Hr3 & Hq3 & Hw3 & Hre3).
      simpl in *. eexists _, d3. split; [reflexivity|]. split; simpl; try done.
      * rewrite Hr3, Hq3, Hw3, Hq2, Hqe. done.
      * by rewrite Hre3, Hre2.
      * intros b' r. rewrite !elem_open_repairs, Hq3, Hw3, Hq2, Hw2.
        intros [Hx|(a & Ha & Hab & Har)]; [left; by left|].
        apply list_elem_of_fmap in Ha as ([k a'] & -> & Ha). simpl in *. apply dset_elem in Ha as [[-> ->]|Ha].
        { right. done. }
        left. right. exists a'. split; [|done]. apply list_elem_of_fmap. by exists (k, a').
Qed.

Lemma find_entry_keys (r : Roster (F := F)) b e : roster_ok r → find_entry r b = Some e → b ∈ (entries r).*1.
Proof.
  intros Hok. unfold find_entry. destruct (filter _ _) as [|e' l] eqn:Ef; [done|]. intros [= ->].
  assert (e ∈ filter (λ e0, be_branch e0 = b) (dvals (entries r))) as Hin by (rewrite Ef; left).
  apply list_elem_of_filter in Hin as [<- Hin]. apply list_elem_of_fmap in Hin as ([k e'] & -> & Hin). simpl.
  apply list_elem_of_fmap. exists (k, e'). split; [|done]. simpl. symmetry. by apply (ok_ids r Hok).
Qed.

Lemma parent_refusal_empty (r : Roster (F := F)) b : roster_ok r → parent_refusal r b = EmptyString → b ∈ (entries r).*1.
Proof.
  intros Hok. unfold parent_refusal. destruct (find_entry r b) as [e|] eqn:E; [|done]. intros _.
  by eapply find_entry_keys.
Qed.

Lemma share_refusal_empty (r : Roster (F := F)) q :
  roster_ok r → share_refusal r q = EmptyString → sr_from_branch q ∈ (entries r).*1.
Proof.
  intros Hok. unfold share_refusal. destruct (existsb _ _) eqn:E; [|done]. intros _.
  apply existsb_exists in E as (e & Hin%list_elem_of_In & Hb%bool_decide_eq_true).
  apply list_elem_of_fmap in Hin as ([k e'] & -> & Hin). simpl in *. subst.
  apply list_elem_of_fmap. exists (k, e'). split; [|done]. simpl. symmetry. rewrite <- Hb. by apply (ok_ids r Hok).
Qed.

Lemma desk_ok_admitted d p refusal a d' :
  desk_ok d → pb_repair p = None → admitted_spec d p refusal a d' → desk_ok d'.
Proof.
  intros [Hc [Hr1 Hr2]] Hnone [Hc' Hre _ _ Hopen _ _]. split; [done|]. split; rewrite Hre; [|done].
  intros b r Hin. destruct (Hopen b r Hin) as [?|(_ & _ & Hs)]; [by apply Hr1|congruence].
Qed.

Lemma admit_ok d q now : desk_ok d → ∃ a d', admit_fork d q now = Ok (a, d') ∧ desk_ok d'.
Proof.
  intros Hd. unfold admit_fork.
  edestruct admit_pending_ok as (a & d' & -> & Hspec); [apply Hd| | |exists a, d'; split; [done|]].
  3:{ eapply desk_ok_admitted; [exact Hd| |exact Hspec]. done. }
  - done.
  - simpl. apply parent_refusal_empty, Hd.
Qed.

Lemma core_unhold r q w b : core r q w → core (unhold r b) q w.
Proof.
  intros H. assert (entries (unhold r b) = entries r ∧ issued (unhold r b) = issued r ∧ caps (unhold r b) = caps r) as (E1 & E2 & E3).
  { unfold unhold. by destruct (_ <=? _)%Z. }
  eapply core_roster; [done|apply roster_ok_unhold, H|done|lia|rewrite E1; auto|rewrite E1; auto|rewrite E1; apply H|].
  unfold desk_entries. by rewrite E1.
Qed.

Lemma admit_share_ok d q now : desk_ok d → ∃ a d', admit_share d q now = Ok (a, d') ∧ desk_ok d'.
Proof.
  intros Hd. unfold admit_share. set (d1 := with_roster (unhold (dk_roster d) (sr_from_branch q)) d).
  assert (desk_ok d1) as Hd1 by (split; [apply core_unhold, Hd|apply Hd]).
  edestruct (admit_pending_ok d1) as (a & d' & -> & Hspec); [apply Hd1| | |exists a, d'; split; [done|]].
  3:{ eapply desk_ok_admitted; [exact Hd1| |exact Hspec]. done. }
  - done.
  - simpl. apply share_refusal_empty, Hd1.
Qed.

Lemma repairing_none (m : gmap (list string) string) keys :
  (∀ k b, m !! k = Some b → b ≠ EmptyString) → nonempty (repairing m keys) = false → ∀ k, k ∈ keys → m !! k = None.
Proof.
  intros Hne. unfold repairing. rewrite nonempty_false. induction keys as [|k keys IH]; [intros _ k []%not_elem_of_nil|].
  simpl. destruct (m !! k) as [b|] eqn:E; simpl.
  - intros ->. by destruct (Hne k EmptyString E).
  - intros H k' [->|Hk']%elem_of_cons; auto.
Qed.

Lemma foldl_insert_lookup (m : gmap (list string) string) b keys k :
  foldl (λ m k, <[k := b]> m) m keys !! k = if decide (k ∈ keys) then Some b else m !! k.
Proof.
  revert m. induction keys as [|k' keys IH]; intros m; cbn [foldl].
  - by destruct (decide (k ∈ [])) as [[]%not_elem_of_nil|].
  - rewrite IH. destruct (decide (k = k')) as [->|Hne].
    + rewrite lookup_insert_eq, (decide_True (P := k' ∈ k' :: keys)) by left. by case_decide.
    + rewrite lookup_insert_ne by done. repeat case_decide; set_solver.
Qed.

Lemma admit_repair_ok d q now : desk_ok d → ∃ a d', admit_repair d q now = Ok (a, d') ∧ desk_ok d'.
Proof.
  intros [Hc [Hr1 Hr2]]. unfold admit_repair.
  set (pr := parent_refusal (dk_roster d) (in_branch (rr_intent q))).
  set (other := repairing (dk_repairs d) (keys_of q)).
  set (rf := if negb (nonempty pr) && nonempty other then _ else pr).
  set (p := {| pb_branch := EmptyString; pb_origin := O_REPAIR |}).
  assert (rf = EmptyString → pr = EmptyString ∧ nonempty other = false) as Hrf.
  { unfold rf. destruct (nonempty pr) eqn:Ep; simpl; [intros E; by rewrite E in Ep|].
    destruct (nonempty other) eqn:Eo; [|done]. intros E. exfalso. unfold nonempty in Eo. destruct other; [done|discriminate E]. }
  destruct (admit_pending_ok d p ("repair of " +:+ in_mechanism (rr_intent q) +:+ " on " +:+ in_target (rr_intent q))
              rf now Hc) as (a & d' & Ea & Hspec); [done| |].
  { intros E. apply Hrf in E as [E _]. by apply parent_refusal_empty; [apply Hc|]. }
  rewrite Ea. cbn [mbind res_bind fst snd]. destruct Hspec as [Hc' Hre Hrej Hfresh Hopen _ _].
  case_bool_decide as Hst.
  - eexists _, _. split; [reflexivity|]. simpl. split; [done|]. split; rewrite Hre; [|done].
    intros b r Hin. destruct (Hopen b r Hin) as [?|(? & _)]; [by apply Hr1|done].
  - eexists _, _. split; [reflexivity|]. destruct (Hfresh Hst) as [Erf Hb]. apply Hrf in Erf as [_ Hother].
    assert (∀ k, k ∈ keys_of q → dk_repairs d !! k = None) as Hnone by (by apply repairing_none).
    split; [done|]. split; cbn [dk_repairs with_repairs snd].
    + intros b r Hin k Hk. rewrite foldl_insert_lookup, Hre.
      destruct (Hopen b r Hin) as [Hold|(_ & -> & Hs)].
      * specialize (Hr1 b r Hold k Hk). case_decide as Hkq; [|done]. rewrite Hnone in Hr1; done.
      * injection Hs as <-. by rewrite decide_True.
    + intros k b. rewrite foldl_insert_lookup, Hre. case_decide; [|apply Hr2].
      intros [= <-]. rewrite Hb. apply branch_id_nonempty.
Qed.

(** ** Filling the free slots *)

Lemma fill_from_ok q d now :
  core (dk_roster d) q (dk_waiting d) → repairs_ok (with_queue q d) →
  ∃ d' n, fill_from q d now = Ok d' ∧ desk_ok d' ∧ dk_queue d' = drop n q ∧
          (dk_queue d' = [] ∨ open_refusal (dk_roster d') ≠ EmptyString).
Proof.
  revert d. induction q as [|p q IH]; intros d Hc Hr; simpl.
  - exists (with_queue [] d), 0. split_and!; try done. by left.
  - destruct (nonempty (open_refusal (dk_roster d))) eqn:Ho.
    + exists (with_queue (p :: q) d), 0. split_and!; try done. right. simpl. intros E. by rewrite E in Ho.
    + apply nonempty_false in Ho.
      destruct (enter_ok (with_queue q d) p q now Hc Ho) as (d1 & -> & Hc1 & Hw1 & Hq1 & Hre1). cbn [mbind res_bind].
      destruct (record_ok d1 p ("dequeued after " +:+ fmt_seconds (fsub now (pb_queued_at p)) +:+ "s") "dequeued")
        as (d2 & -> & Hro2 & Hq2 & Hw2 & Hre2); [apply (co_origin _ _ _ Hc); left|]. cbn [mbind res_bind].
      destruct (IH d2) as (d' & n & Hf & Hok & Hq & Hend); [by rewrite Hro2, Hw2| |].
      { destruct Hr as [Hr1 Hr2]. split; cbn [with_queue dk_repairs] in *; rewrite Hre2, Hre1; [|done].
        intros b r Hin. apply Hr1. apply (enter_repairs d (with_queue q d2) p q); simpl; [by rewrite Hw2|done|done]. }
      exists d', (S n). done.
Qed.

Lemma fill_ok d now :
  desk_ok d → ∃ d' n, fill_free_slots d now = Ok d' ∧ desk_ok d' ∧ dk_queue d' = drop n (dk_queue d) ∧
                      (dk_queue d' = [] ∨ open_refusal (dk_roster d') ≠ EmptyString).
Proof. intros [Hc Hr]. apply fill_from_ok; [done|]. by destruct d. Qed.

(** ** Voiding *)

Lemma del_keys_ok (m : gmap (list string) string) keys :
  NoDup keys → (∀ k, k ∈ keys → is_Some (m !! k)) →
  ∃ m', del_keys m keys = Ok m' ∧ ∀ k, m' !! k = if decide (k ∈ keys) then None else m !! k.
Proof.
  revert m. induction keys as [|k keys IH]; intros m Hnd Hin; cbn [del_keys].
  - exists m. split; [done|]. intros k. by destruct (decide (k ∈ [])) as [[]%not_elem_of_nil|].
  - apply NoDup_cons in Hnd as [Hk Hnd]. destruct (Hin k) as [b Hb]; [left|]. rewrite Hb.
    destruct (IH (delete k m)) as (m' & Hm & Hl); [done| |].
    { intros k' Hk'. rewrite lookup_delete_ne by (by intros ->). apply Hin. by right. }
    exists m'. split; [done|]. intros k'. rewrite Hl. destruct (decide (k' = k)) as [->|Hne].
    + rewrite lookup_delete_eq, (decide_True (P := k ∈ k :: keys)) by left. by case_decide.
    + rewrite lookup_delete_ne by done. repeat case_decide; set_solver.
Qed.

(** The part of [repairs_ok] that speaks of some requests. *)
Definition keyed (m : gmap (list string) string) (l : list (string * RepairRequest F D)) : Prop :=
  ∀ b r, (b, r) ∈ l → ∀ k, k ∈ keys_of r → m !! k = Some b.

Lemma void_each_ok voided reason d (others : list (string * RepairRequest F D)) :
  (∀ p, p ∈ voided → desk_origin (pb_origin p) = true) → NoDup (pb_branch <$> voided) →
  keyed (dk_repairs d) (voided ≫= λ p, match pb_repair p with Some r => [(pb_branch p, r)] | None => [] end) →
  keyed (dk_repairs d) others → (∀ b r, (b, r) ∈ others → b ∉ pb_branch <$> voided) →
  ∃ d', void_each voided reason d = Ok d' ∧ dk_roster d' = dk_roster d ∧ dk_queue d' = dk_queue d ∧
        dk_waiting d' = dk_waiting d ∧ keyed (dk_repairs d') others ∧
        (∀ k b, dk_repairs d' !! k = Some b → dk_repairs d !! k = Some b).
Proof.
  revert d. induction voided as [|p ps IH]; intros d Ho Hnd Hv Hoth Hdisj; cbn [void_each]; [by exists d|].
  rewrite fmap_cons in Hnd. apply NoDup_cons in Hnd as [Hp Hnd].
  assert (∃ m, match pb_repair p with Some r => del_keys (dk_repairs d) (keys_of r) | None => Ok (dk_repairs d) end = Ok m
    ∧ (∀ k b, m !! k = Some b → dk_repairs d !! k = Some b)
    ∧ (∀ k b, dk_repairs d !! k = Some b → b ≠ pb_branch p → m !! k = Some b)) as (m & -> & Hm1 & Hm2).
  { destruct (pb_repair p) as [r|] eqn:Er; [|by eexists].
    assert (∀ k, k ∈ keys_of r → dk_repairs d !! k = Some (pb_branch p)) as Hk.
    { apply Hv. apply elem_queue_repairs. exists p. split; [left|done]. }
    destruct (del_keys_ok (dk_repairs d) (keys_of r)) as (m & -> & Hl); [apply repair_keys_distinct| |].
    { intros k Hin. rewrite Hk by done. by eexists. }
    exists m. split_and!; [done| |].
    - intros k b. rewrite Hl. by case_decide.
    - intros k b Hb Hne. rewrite Hl. case_decide as Hin; [|done]. rewrite Hk in Hb by done. congruence. }
  cbn [mbind res_bind].
  destruct (record_ok (with_repairs m d) p ("voided: " +:+ reason) "voided") as (d1 & -> & Hr1 & Hq1 & Hw1 & Hre1);
    [apply Ho; left|]. cbn [mbind res_bind].
  destruct (IH d1) as (d' & -> & Hr & Hq & Hw & Hk & Hmono).
  - intros p' Hp'. apply Ho. by right.
  - done.
  - intros b r Hin k Hkk. rewrite Hre1. simpl. apply Hm2.
    + apply (Hv b r); [|done]. apply elem_queue_repairs in Hin as (p' & ? & ? & ?). apply elem_queue_repairs.
      exists p'. split; [by right|done].
    + apply elem_queue_repairs in Hin as (p' & Hin & <- & _). intros E. apply Hp. rewrite <- E. by apply list_elem_of_fmap_2.
  - intros b r Hin k Hkk. rewrite Hre1. simpl. apply Hm2; [by apply (Hoth b r)|].
    intros ->. apply (Hdisj _ _ Hin). left.
  - intros b r Hin Hb. apply (Hdisj _ _ Hin). by right.
  - exists d'. simpl in *. split_and!; try congruence; [done|]. intros k b H. apply Hm1. rewrite <- Hre1. auto.
Qed.

Lemma void_ok d voided reason :
  desk_ok d → sublist voided (dk_queue d) →
  ∃ d', void d voided reason = Ok (pb_branch <$> voided, d') ∧ desk_ok d' ∧
        dk_queue d' = filter (λ p, p ∉ voided) (dk_queue d) ∧ dk_roster d' = dk_roster d.
Proof.
  intros [Hc [Hr1 Hr2]] Hsub. unfold void. set (q' := filter (λ p, p ∉ voided) (dk_queue d)).
  assert (∀ p, p ∈ voided → p ∈ dk_queue d) as Hin by (intros p Hp; eapply elem_of_submseteq; [exact Hp|]; by apply sublist_submseteq).
  pose proof (core_queue_ids _ _ _ Hc) as Hids.
  set (d0 := with_queue q' d).
  destruct (void_each_ok voided reason d0 (open_repairs d0)) as (d' & -> & Hr & Hq & Hw & Hk & Hmono).
  - intros p Hp. apply (co_origin _ _ _ Hc). auto.
  - apply (core_queue_ids _ _ _ (core_sublist _ _ _ _ Hc Hsub)).
  - intros b r Hbr k. apply Hr1. apply elem_open_repairs. left. apply elem_queue_repairs in Hbr as (p & ? & ? & ?).
    exists p. auto.
  - intros b r Hbr. apply Hr1. rewrite elem_open_repairs in *. simpl in Hbr.
    destruct Hbr as [(p & [_ Hp]%list_elem_of_filter & ?)|?]; [left; by exists p|by right].
  - intros b r Hbr (p & -> & Hp)%list_elem_of_fmap. apply elem_open_repairs in Hbr as [(p' & Hp' & Hb & _)|(a & Ha & Hb & _)].
    + simpl in Hp'. apply list_elem_of_filter in Hp' as [Hnv Hp']. apply Hnv.
      rewrite (NoDup_key_inj pb_branch (dk_queue d) p' p); auto.
    + apply (co_fresh _ _ _ Hc p); [auto|]. apply (co_waiting _ _ _ Hc). simpl in Ha.
      apply list_elem_of_fmap in Ha as ([k a'] & -> & Ha). simpl in Hb. apply list_elem_of_fmap. exists (k, a'). split; [|done].
      simpl.
      rewrite <- Hb. by apply (co_wnames _ _ _ Hc).
  - exists d'. split; [done|]. split_and!; try done. split.
    + rewrite Hr, Hq, Hw. eapply core_sublist; [done|]. apply sublist_filter.
    + split.
      * intros b r Hbr. apply Hk. rewrite elem_open_repairs in *. by rewrite Hq, Hw in Hbr.
      * intros k b H%Hmono. by apply Hr2 in H.
Qed.

(** ** Runs of the desk

    The desk's own operations, and what the session does to the roster between them: a branch the session
    opens has an id it took for itself (one of [reserved_ids], the ids the desk never got) and an origin
    that is not the desk's. *)

Inductive desk_step : Desk → Desk → Prop :=
| ds_admit d q now a d' : admit_fork d q now = Ok (a, d') → desk_step d d'
| ds_repair d q now a d' : admit_repair d q now = Ok (a, d') → desk_step d d'
| ds_share d q now a d' : admit_share d q now = Ok (a, d') → desk_step d d'
| ds_fill d now d' : fill_free_slots d now = Ok d' → desk_step d d'
| ds_void_from d parent reason bs d' : void_from d parent reason = Ok (bs, d') → desk_step d d'
| ds_void_all d reason bs d' : void_all d reason = Ok (bs, d') → desk_step d d'
| ds_release d b d' : release_branch d b = Ok d' → desk_step d d'
| ds_hold d b n : desk_step d (with_roster (hold (dk_roster d) b n) d)
| ds_next d : desk_step d (with_roster (next_branch_id (dk_roster d)).2 d)
| ds_close d : desk_step d (with_roster (close (dk_roster d)) d)
| ds_integration d c k now e r' :
    add_integration (dk_roster d) c k now = Ok (e, r') → desk_step d (with_roster r' d)
| ds_open d n o c k f now e r' :
    (0 < n ≤ issued (dk_roster d))%Z → branch_id n ∉ pb_branch <$> dk_queue d → desk_origin o = false →
    open (dk_roster d) (branch_id n) o c k f now = Ok (e, r') → desk_step d (with_roster r' d)
| ds_started d b c e r' : started (dk_roster d) b c = Ok (e, r') → desk_step d (with_roster r' d)
| ds_set_k d b k e r' : set_k (dk_roster d) b k = Ok (e, r') → desk_step d (with_roster r' d)
| ds_stop d b s e r' : stop (dk_roster d) b s = Ok (e, r') → desk_step d (with_roster r' d).

Lemma desk_entries_write (l : list (string * BranchEntry (F := F))) k e e1 :
  dget k l = Some e → be_branch e1 = be_branch e → be_origin e1 = be_origin e →
  be_branch <$> filter (λ e, desk_origin (be_origin e) = true) (dvals (dset k e1 l)) =
  be_branch <$> filter (λ e, desk_origin (be_origin e) = true) (dvals l).
Proof.
  intros Hg Hb Ho. induction l as [|[k' e'] l IH]; [done|]. cbn [dget dset] in *. case_bool_decide as Ek.
  - injection Hg as ->. rewrite !dvals_cons, !filter_cons, Ho. case_decide; [|done]. rewrite !fmap_cons. by rewrite Hb.
  - rewrite !dvals_cons, !filter_cons. case_decide; rewrite ?fmap_cons, (IH Hg); done.
Qed.

Lemma core_write r q w e e1 h f :
  core r q w → dget (be_branch e) (entries r) = Some e → be_branch e1 = be_branch e → be_origin e1 = be_origin e →
  let r' := persist {| caps := caps r; entries := dset (be_branch e) e1 (entries r); issued := issued r;
                       closed := closed r; held := h; snapshot_file := f |} in
  roster_ok r' → core r' q w.
Proof.
  intros Hc Hg Hb Ho r' Hok. assert ((entries r').*1 = (entries r).*1) as Hk.
  { simpl. apply dset_keys_in. apply dget_is_Some. by eexists. }
  eapply core_roster; [done|done|done|simpl; lia|rewrite Hk; auto|rewrite Hk; auto|rewrite Hk; apply Hc|].
  by apply (desk_entries_write _ _ e).
Qed.

Lemma core_added r q w e e' r' :
  core r q w → add r e = Ok (e', r') → roster_ok r' → desk_origin (be_origin e) = false →
  (be_branch e = INTEGRATION_BRANCH ∨ ∃ n, (0 < n ≤ issued r)%Z ∧ be_branch e = branch_id n) →
  be_branch e ∉ pb_branch <$> q → core r' q w.
Proof.
  intros Hc Ha Hok Ho Hid Hq. unfold add in Ha. destruct (din _ _) eqn:Hd; [done|]. injection Ha as <- <-.
  assert (be_branch e ∉ (entries r).*1) as Hn by (rewrite <- din_elem; by rewrite Hd).
  eapply core_roster; simpl; [done|done|done|simpl; lia| | | |].
  - intros b [->|Hb]%elem_of_dset_keys; [by right|by left].
  - intros b Hb. apply elem_of_dset_keys. by right.
  - intros p Hp [Hb|Hb]%elem_of_dset_keys; [|by apply (co_fresh _ _ _ Hc p)]. apply Hq. rewrite <- Hb. by apply list_elem_of_fmap_2.
  - unfold desk_entries. simpl. rewrite dset_notin by done. unfold dvals. rewrite fmap_app, filter_app. simpl.
    rewrite (filter_cons_False _ e) by (by rewrite Ho). by rewrite app_nil_r.
Qed.

Lemma desk_ok_roster d r' : desk_ok d → core r' (dk_queue d) (dk_waiting d) → desk_ok (with_roster r' d).
Proof. intros [_ Hr] Hc. by split. Qed.

Lemma desk_ok_release d b d' : desk_ok d → release_branch d b = Ok d' → desk_ok d'.
Proof.
  intros [Hc [Hr1 Hr2]]. unfold release_branch. destruct (din _ _); [|done]. intros [= <-].
  destruct Hc as [H1 H2 H3 H4 H5 H6 H7 H8 H9 H10]. split; [split; simpl; try done|].
  - intros b' Hb'. apply H7. by apply elem_of_ddel_keys in Hb'.
  - by apply NoDup_ddel.
  - intros b' a Ha%elem_of_ddel. auto.
  - split; simpl; [|done]. intros b' r Hin. apply Hr1. rewrite elem_open_repairs in *. simpl in Hin.
    destruct Hin as [?|(a & Ha & ?)]; [by left|]. right. exists a. split; [|done].
    apply list_elem_of_fmap in Ha as ([k a'] & -> & Ha%elem_of_ddel). apply list_elem_of_fmap. by exists (k, a').
Qed.

Lemma desk_ok_hold d b n : desk_ok d → desk_ok (with_roster (hold (dk_roster d) b n) d).
Proof.
  intros Hd. apply desk_ok_roster; [done|]. set (r := dk_roster d).
  assert (entries (hold r b n) = entries r ∧ issued (hold r b n) = issued r ∧ caps (hold r b n) = caps r) as (E1 & E2 & E3).
  { unfold hold. by destruct (_ <? _)%Z. }
  eapply core_roster; [apply Hd|apply roster_ok_hold, Hd|done|unfold r in *; lia|rewrite E1; auto|rewrite E1; auto|rewrite E1; apply Hd|].
  unfold desk_entries. by rewrite E1.
Qed.

Lemma desk_ok_step d d' : desk_ok d → desk_step d d' → desk_ok d'.
Proof.
  intros Hd Hs. destruct Hs as [d q now a d' H|d q now a d' H|d q now a d' H|d now d' H|d pa re bs d' H|d re bs d' H|d b d' H
    |d b n|d|d|d c k now e r' H|d n o c k f now e r' Hn Hq Ho H|d b c e r' H|d b k e r' H|d b s e r' H].
  - destruct (admit_ok d q now Hd) as (? & ? & E & ?). congruence.
  - destruct (admit_repair_ok d q now Hd) as (? & ? & E & ?). congruence.
  - destruct (admit_share_ok d q now Hd) as (? & ? & E & ?). congruence.
  - destruct (fill_ok d now Hd) as (? & ? & E & ? & _). congruence.
  - destruct (void_ok d (filter (λ p, pb_from_branch p = pa ∧ pb_origin p ≠ O_SHARE) (dk_queue d)) re Hd
                (sublist_filter _ _)) as (? & E & ? & _). unfold void_from in H. congruence.
  - destruct (void_ok d (dk_queue d) re Hd (reflexivity _)) as (? & E & ? & _). unfold void_all in H. congruence.
  - by eapply desk_ok_release.
  - by apply desk_ok_hold.
  - apply desk_ok_roster; [done|]. apply core_next, Hd.
  - apply desk_ok_roster; [done|]. eapply core_roster; [apply Hd|apply roster_ok_close, Hd|done|simpl; lia|auto|auto|apply Hd|done].
  - apply desk_ok_roster; [done|]. pose proof (co_roster _ _ _ (de_core _ Hd)) as Hok.
    unfold add_integration in H. eapply core_added; [apply Hd|exact H| |done|by left|].
    + apply (roster_ok_add _ _ _ _ Hok) in H; [done|apply clamp_k_range, Hok|done].
    + simpl. intros (p & Hp & Hin)%list_elem_of_fmap. destruct (co_nums _ _ _ (de_core _ Hd)) as (ms & ns & _ & E2 & _).
      assert (pb_branch p ∈ branch_id <$> ns) as Hb by (rewrite <- E2; by apply list_elem_of_fmap_2).
      apply list_elem_of_fmap in Hb as (n & Hb & _). rewrite <- Hp in Hb. symmetry in Hb. by apply branch_id_ne_integration in Hb.
  - apply desk_ok_roster; [done|]. pose proof (co_roster _ _ _ (de_core _ Hd)) as Hok.
    pose proof (roster_ok_open _ _ _ _ _ _ _ _ _ Hok H) as Hok'. unfold open in H. destruct (negb _); [done|].
    eapply core_added; [apply Hd|exact H|done|done|right; by exists n|done].
  - apply desk_ok_roster; [done|]. pose proof (co_roster _ _ _ (de_core _ Hd)) as Hok.
    pose proof (roster_ok_started _ _ _ _ _ Hok H) as Hok'. unfold started in H. destruct (String.eqb _ _); [done|].
    destruct (live _ b) as [e0|] eqn:El; [|done]. injection H as _ <-. apply live_ok in El as (Hg & _ & _); [|done].
    by apply core_write; [apply Hd|..].
  - apply desk_ok_roster; [done|]. pose proof (co_roster _ _ _ (de_core _ Hd)) as Hok.
    pose proof (roster_ok_set_k _ _ _ _ _ Hok H) as Hok'. unfold set_k in H.
    destruct (live _ b) as [e0|] eqn:El; [|done]. injection H as _ <-. apply live_ok in El as (Hg & _ & _); [|done].
    by apply core_write; [apply Hd|..].
  - pose proof (co_roster _ _ _ (de_core _ Hd)) as Hok. pose proof (roster_ok_stop _ _ _ _ _ Hok H) as Hok'.
    unfold stop in H. destruct (dget b _) as [e0|] eqn:Eg; [|done]. destruct (be_stop e0); injection H as _ <-.
    + destruct d. exact Hd.
    + apply desk_ok_roster; [done|]. assert (b = be_branch e0) as -> by (apply (ok_ids _ Hok); by apply dget_elem).
      by apply (core_write (dk_roster d) _ _ e0 (with_stop s e0)); [apply Hd|..].
Qed.

Lemma desk_ok_new (r : Roster (F := F)) c : caps_ok c → roster_new c None = Ok r → desk_ok (desk_new r).
Proof.
  intros Hc Hn. destruct (roster_ok_empty (F := F) c Hc) as (r' & Hr & Hok & He & Hi). rewrite Hn in Hr. injection Hr as <-.
  split; [|split; [intros b q []%not_elem_of_nil|intros k b; simpl; by rewrite lookup_empty]].
  split; simpl; try done; try (intros * []%not_elem_of_nil); try apply NoDup_nil_2.
  - rewrite He. intros b []%not_elem_of_nil.
  - pose proof (ok_caps _ Hok) as (? & _). lia.
  - exists [], []. unfold desk_entries. rewrite He. split_and!; try done; constructor.
Qed.

Lemma desk_ok_reachable (r : Roster (F := F)) c d :
  caps_ok c → roster_new c None = Ok r → rtc desk_step (desk_new r) d → desk_ok d.
Proof. intros Hc Hn. apply rtc_preserves; [intros a b; apply desk_ok_step|by eapply desk_ok_new]. Qed.
End desk.

(** ** What the desk guarantees *)

Section guarantees.
Context {F D : Type} `{!FloatOps F} `{!EqDecision F} `{!EqDecision D}.
Context (sha256 : string → string) (delta_fingerprint : D → string).
Implicit Types (d : Desk (F := F) (D := D)).

(** Whatever the session did before, no call of the desk raises: it never opens a branch without a slot or
    under an id that is taken, never looks up a parent that left, never gives an answer that names a
    branch without having one, and never voids a repair whose keys are gone.  So every request is
    answered and every queued request can be entered or voided. *)
Theorem desk_never_fails (r : Roster (F := F)) c d :
  caps_ok c → roster_new c None = Ok r → rtc (desk_step sha256 delta_fingerprint) (desk_new r) d →
  ∀ now,
  (∀ q, is_ok (admit_fork d q now) = true) ∧
  (∀ q, is_ok (admit_repair sha256 delta_fingerprint d q now) = true) ∧
  (∀ q, is_ok (admit_share d q now) = true) ∧
  is_ok (fill_free_slots d now) = true ∧
  (∀ parent reason, is_ok (void_from sha256 delta_fingerprint d parent reason) = true) ∧
  (∀ reason, is_ok (void_all sha256 delta_fingerprint d reason) = true).
Proof.
  intros Hc Hn Hr now. pose proof (desk_ok_reachable _ _ _ _ _ Hc Hn Hr) as Hd. split_and!.
  - intros q. destruct (admit_ok _ _ d q now Hd) as (? & ? & -> & _). done.
  - intros q. destruct (admit_repair_ok _ _ d q now Hd) as (? & ? & -> & _). done.
  - intros q. destruct (admit_share_ok _ _ d q now Hd) as (? & ? & -> & _). done.
  - destruct (fill_ok _ _ d now Hd) as (? & ? & -> & _). done.
  - intros pa re. unfold void_from.
    destruct (void_ok _ _ d (filter (λ p, pb_from_branch p = pa ∧ pb_origin p ≠ O_SHARE) (dk_queue d)) re Hd
                (sublist_filter _ _)) as (? & -> & _). done.
  - intros re. unfold void_all. destruct (void_ok _ _ d (dk_queue d) re Hd (reflexivity _)) as (? & -> & _). done.
Qed.

(** Requests are served in the order they were asked: the branches the desk put on the roster are there in
    the order of their ids, every request still queued has a later id than all of them, and the queue
    itself is in that order; whatever else the session opens, stops and holds in between.  The queue
    never holds more requests than there are branch slots. *)
Theorem desk_first_come (r : Roster (F := F)) c d :
  caps_ok c → roster_new c None = Ok r → rtc (desk_step sha256 delta_fingerprint) (desk_new r) d →
  (∃ ms ns, be_branch <$> desk_entries (dk_roster d) = branch_id <$> ms ∧
            pb_branch <$> pending d = branch_id <$> ns ∧ StronglySorted Z.lt (ms ++ ns)) ∧
  (Z.of_nat (length (pending d)) ≤ max_branches (caps (dk_roster d)))%Z.
Proof.
  intros Hc Hn Hr. destruct (desk_ok_reachable _ _ _ _ _ Hc Hn Hr) as [Hcore _]. split; [|apply Hcore].
  destruct (co_nums _ _ _ Hcore) as (ms & ns & ? & ? & ? & _). by exists ms, ns.
Qed.

(** A blocked change is repaired once: two repairs that are queued or waiting to start and share a key, the
    change itself or the intent on the commit it was measured against, are the same branch. *)
Theorem one_repair_per_change (r : Roster (F := F)) c d b1 r1 b2 r2 k :
  caps_ok c → roster_new c None = Ok r → rtc (desk_step sha256 delta_fingerprint) (desk_new r) d →
  (b1, r1) ∈ open_repairs d → (b2, r2) ∈ open_repairs d →
  k ∈ repair_keys sha256 delta_fingerprint r1 → k ∈ repair_keys sha256 delta_fingerprint r2 → b1 = b2.
Proof.
  intros Hc Hn Hr H1 H2 K1 K2. destruct (desk_ok_reachable _ _ _ _ _ Hc Hn Hr) as [_ [Hk _]].
  pose proof (Hk _ _ H1 _ K1). pose proof (Hk _ _ H2 _ K2). congruence.
Qed.

(** What a fork request is answered: it is accepted exactly when its branch may ask, the session and the
    queue take it, nothing is queued and a slot is free; a pending one is the last of the queue under its
    id; a rejected one changes neither the queue nor the roster. *)
Theorem fork_answer (r : Roster (F := F)) c d q now a d' :
  caps_ok c → roster_new c None = Ok r → rtc (desk_step sha256 delta_fingerprint) (desk_new r) d →
  admit_fork d q now = Ok (a, d') →
  (fa_status a = ACCEPTED ↔ parent_refusal (dk_roster d) (fr_from_branch q) = EmptyString ∧
     queue_refusal d = EmptyString ∧ pending d = [] ∧ open_refusal (dk_roster d) = EmptyString) ∧
  (fa_status a = PENDING → ∃ p, pending d' = pending d ++ [p] ∧ pb_branch p = fa_branch a) ∧
  (fa_status a = REJECTED → pending d' = pending d ∧ dk_roster d' = dk_roster d).
Proof.
  intros Hc Hn Hr Ha. pose proof (desk_ok_reachable _ _ _ _ _ Hc Hn Hr) as Hd. unfold admit_fork in Ha.
  edestruct (admit_pending_ok sha256 d) as (a' & d1 & E & Hspec); [apply Hd| | |rewrite E in Ha; injection Ha as <- <-].
  - done.
  - simpl. apply parent_refusal_empty, Hd.
  - destruct Hspec as [_ _ Hrej _ _ Hacc Hpend]. split_and!; [done| |].
    + intros Hp. eexists. split; [by apply Hpend|done].
    + intros Hp. by destruct (Hrej Hp) as (_ & _ & ? & ?).
Qed.
End guarantees.

(** *** A concrete desk: one specialist, a repair of its blocked gain, a fork that waits *)

Module DeskDemo.
Abbreviation Q := QArith_base.Q.
Definition sha (s : string) : string := s.
Definition fp (s : string) : string := s.
Definition intent : Intent Q :=
  {| in_branch := "b01"; in_parent_commit := "c1"; in_target := "attention"; in_mechanism := "fuse";
     in_layer := L_KERNEL; in_target_share_pct := None |}.
Definition blocked : Judgement Q :=
  {| ju_verdict := V_BLOCKED; ju_gain_pct := f_of_Z 5; ju_threshold_pct := f_of_Z 1; ju_request_ids := ["r1"];
     ju_recorded_value := []; ju_accuracy := A_FAILED; ju_refused_by := []; ju_fixes_correctness := false;
     ju_foundation_fix := false |}.
Definition repair : RepairRequest Q string :=
  {| rr_intent := intent; rr_candidate_delta := "delta"; rr_judgement := blocked; rr_diagnosis := "stale cache" |}.
Definition fork : ForkRequest := {| fr_from_branch := "b01"; fr_parent_commit := "c1"; fr_reason := "fix" |}.
Definition no_desk : Desk (F := Q) (D := string) := desk_new RosterDemo.start.
Definition get (x : res (ForkAdmission * Desk (F := Q) (D := string))) : Desk :=
  match x with Ok (_, d) => d | Raise _ => no_desk end.
Definition roster_of (x : res (BranchEntry (F := Q) * Roster (F := Q))) : Roster :=
  match x with Ok (_, r) => r | Raise _ => RosterDemo.start end.
(** [b01] runs; a repair of it takes the second and last slot; a fork waits. *)
Definition d1 : Desk := with_roster (next_branch_id RosterDemo.start).2 no_desk.
Definition d2 : Desk := with_roster (roster_of (open (dk_roster d1) "b01" O_USER "c0" 1 EmptyString fzero)) d1.
Definition d3 : Desk := get (admit_repair sha fp d2 repair fzero).
Definition d4 : Desk := get (admit_fork d3 fork fzero).

Lemma d4_reached : rtc (desk_step sha fp) (desk_new RosterDemo.start) d4.
Proof.
  eapply rtc_l; [apply ds_next|].
  eapply rtc_l; [eapply (ds_open _ _ _ 1 O_USER "c0" 1 EmptyString fzero);
    [simpl; lia|by apply not_elem_of_nil|reflexivity|vm_compute; reflexivity]|].
  eapply rtc_l; [eapply (ds_repair _ _ _ repair fzero); vm_compute; reflexivity|].
  eapply rtc_l; [eapply (ds_admit _ _ _ fork fzero); vm_compute; reflexivity|].
  vm_compute. apply rtc_refl.
Qed.
End DeskDemo.

Lemma desk_never_fails_witness : is_ok (fill_free_slots DeskDemo.d4 fzero) = true.
Proof.
  apply (desk_never_fails DeskDemo.sha DeskDemo.fp RosterDemo.start RosterDemo.caps0 DeskDemo.d4 RosterDemo.caps0_ok
           eq_refl DeskDemo.d4_reached fzero).
Defined.

Lemma desk_first_come_witness : (Z.of_nat (length (pending DeskDemo.d4)) ≤ 2)%Z ∧ pb_branch <$> pending DeskDemo.d4 = ["b03"].
Proof.
  split; [|vm_compute; reflexivity].
  apply (desk_first_come DeskDemo.sha DeskDemo.fp RosterDemo.start RosterDemo.caps0 DeskDemo.d4 RosterDemo.caps0_ok
           eq_refl DeskDemo.d4_reached).
Defined.

Lemma one_repair_per_change_witness : "b02" = "b02".
Proof.
  apply (one_repair_per_change DeskDemo.sha DeskDemo.fp RosterDemo.start RosterDemo.caps0 DeskDemo.d4 "b02"
           DeskDemo.repair "b02" DeskDemo.repair ["delta"] RosterDemo.caps0_ok eq_refl DeskDemo.d4_reached);
    vm_compute; left.
Defined.

Lemma fork_answer_witness :
  ∃ a d', admit_fork DeskDemo.d4 DeskDemo.fork fzero = Ok (a, d') ∧
          ∃ p, pending d' = pending DeskDemo.d4 ++ [p] ∧ pb_branch p = fa_branch a.
Proof.
  eexists _, _. split; [vm_compute; reflexivity|].
  eapply (fork_answer DeskDemo.sha DeskDemo.fp RosterDemo.start RosterDemo.caps0 DeskDemo.d4 DeskDemo.fork fzero);
    [exact RosterDemo.caps0_ok|reflexivity|exact DeskDemo.d4_reached|vm_compute; reflexivity|reflexivity].
Defined.

(** The desk says a repair is refused while one of the same change is open or queued; it is refused for
    good: once the branch [b02] that repaired it has stopped and is off the desk, the same request is
    rejected naming [b02]. *)
Definition after_stop : res (ForkAdmission * bool) :=
  d5 ← release_branch DeskDemo.d4 "b02";
  x ← stop (dk_roster d5) "b02" {| bs_cause := C_GAVE_UP; bs_reason := "no fix"; bs_at := fzero |};
  a ← admit_repair DeskDemo.sha DeskDemo.fp (with_roster x.2 d5) DeskDemo.repair fzero;
  Ok (a.1, stopped x.1).
Lemma ended_repair_still_refuses :
  after_stop = Ok ({| fa_status := REJECTED;
                      fa_reason := "b02 already repairs this change, or this intent on c1, and is open or queued; replay what it lands instead";
                      fa_branch := EmptyString |}, true).
Proof. vm_compute. reflexivity. Qed.
