(* ===== verification/RepoContract.v ===== *)
(** * The contract of the experiment repository

    [contracts/repo.py], the protocol [ExperimentRepo] as far as the rule gate calls it: the operations and, as a
    second class, what the protocol's documentation promises of them.  The git repository of [repo/git_repo.py]
    implements it ([GitRepo]); the rule gate is proved against it ([RuleGate]). *)

From stdpp Require Import base list strings.
From S2P Require Import Prelude.

Class ExperimentRepo (R Recipe : Type) := {
  repo_head : R → string → option string;
  read_recipe : R → string → res Recipe;
  create_branch : string → string → Io R unit;
  repo_commit : string → string → Recipe → string → Io R string;
  repo_rewind : string → string → string → Io R unit
}.

Section laws.
Context {R Recipe : Type} `{!ExperimentRepo R Recipe}.

(** No branch moved. *)
Definition same_heads (r r' : R) : Prop := ∀ b, repo_head r' b = repo_head r b.
(** Only [b] moved, from [old] to [new]; [None] is no branch. *)
Definition moves (b : string) (old new : option string) (r r' : R) : Prop :=
  repo_head r b = old ∧ repo_head r' b = new ∧ ∀ b', b' ≠ b → repo_head r' b' = repo_head r b'.
(** Every commit that could be read can still be read. *)
Definition keeps (r r' : R) : Prop := ∀ c, is_ok (read_recipe r c) = true → is_ok (read_recipe r' c) = true.

(** [commit] lands only while the branch is at the parent; [rewind] takes a branch that is still at the commit
    back to the parent; [create_branch] makes a branch that was not there; a call that raises moves
    no branch, and no call takes a commit away. *)
Class ExperimentRepoLaws : Prop := {
  commit_law : ∀ r b parent rc m x r', repo_commit b parent rc m r = (x, r') →
    keeps r r' ∧ match x with Ok c => moves b (Some parent) (Some c) r r' | Raise _ => same_heads r r' end;
  rewind_law : ∀ r b c parent x r', repo_head r b = Some c → repo_rewind b c parent r = (x, r') →
    keeps r r' ∧ match x with Ok _ => moves b (Some c) (Some parent) r r' | Raise _ => same_heads r r' end;
  create_law : ∀ r b c x r', create_branch b c r = (x, r') →
    keeps r r' ∧ match x with Ok _ => moves b None (Some c) r r' | Raise _ => same_heads r r' end
}.

#[export] Instance same_heads_equiv : Equivalence same_heads.
Proof.
  split; [intros r b; done|intros r r' H b; by rewrite H|intros r1 r2 r3 H1 H2 b; by rewrite H2, H1].
Qed.
#[export] Instance keeps_preorder : PreOrder keeps.
Proof. split; [intros r c; done|intros r1 r2 r3 H1 H2 c Hc; auto]. Qed.

(** A branch that moved away and back left every branch where it was. *)
Lemma moves_back b old new r1 r2 r3 : moves b old new r1 r2 → moves b new old r2 r3 → same_heads r1 r3.
Proof.
  intros (H1 & H2 & Ho) (_ & H3 & Ho') b'. destruct (decide (b' = b)) as [->|]; [by rewrite H3, H1|].
  by rewrite Ho', Ho.
Qed.
Lemma moves_then b old mid new r1 r2 r3 : moves b old mid r1 r2 → moves b mid new r2 r3 → moves b old new r1 r3.
Proof. intros (H1 & H2 & Ho) (_ & H3 & Ho'). split_and!; [done..|]. intros b' Hb. by rewrite Ho', Ho. Qed.
End laws.
Arguments ExperimentRepoLaws R Recipe {_}.
