(* ===== verification/GitRepo.v ===== *)
(** * The experiment repository as a bare git repository

    [repo/git_repo.py]: commits are written with plumbing and a branch moves by compare-and-swap on its ref.  Git
    itself is the interface [Git] with the laws its manual pages document; the document codec of recipes is a pair
    of functions.  [_land] is given twice: as the call the gate makes, and as the steps between which other writers
    run, for the claim that writers racing on one branch leave exactly one commit on it.

    A git command that does not finish within its timeout is not modelled. *)

From stdpp Require Import base list strings relations gmap.
From Stdlib Require Import Ascii ZArith Lia.
From S2P Require Import Prelude PyVal Dicts TestRequests RepoContract.

(** ** Git *)

Definition NO_COMMIT : string := "0000000000000000000000000000000000000000".

Class Git (G : Type) := {
  (** [rev-parse --verify --quiet <ref>] *)
  git_ref : G → string → option string;
  (** [show <commit>:recipe.json] of a commit object. *)
  git_show : G → string → option string;
  (** [update-ref <ref> <new> <old>]: did it exit with 0? *)
  git_update_ref : string → string → string → G → bool * G;
  (** [hash-object -w], [mktree] and [commit-tree] of one document; [None] when one of them fails. *)
  git_write : string → list string → string → G → option string * G;
  (** The generation number of a commit. *)
  git_rank : string → nat
}.

Definition old_value (old : string) : option string := if bool_decide (old = NO_COMMIT) then None else Some old.

Class GitLaws (G : Type) `{!Git G} : Prop := {
  (** [update-ref] verifies the current value, an all-zero old value being no ref; it touches only its ref, and may
      fail for reasons of its own, such as a lock. *)
  update_ref_done : ∀ ref new old (g g' : G), git_update_ref ref new old g = (true, g') →
    git_ref g ref = old_value old ∧ git_ref g' ref = Some new ∧
    (∀ ref', ref' ≠ ref → git_ref g' ref' = git_ref g ref') ∧ ∀ c, git_show g' c = git_show g c;
  update_ref_failed : ∀ ref new old (g g' : G), git_update_ref ref new old g = (false, g') →
    (∀ ref', git_ref g' ref' = git_ref g ref') ∧ ∀ c, git_show g' c = git_show g c;
  (** The object commands move no ref and lose no object; a commit comes after its parents. *)
  write_refs : ∀ doc ps m (g : G) ref, git_ref (git_write doc ps m g).2 ref = git_ref g ref;
  write_kept : ∀ doc ps m (g : G) c d, git_show g c = Some d → git_show (git_write doc ps m g).2 c = Some d;
  write_made : ∀ doc ps m (g g' : G) c, git_write doc ps m g = (Some c, g') →
    git_show g' c = Some doc ∧ ∀ p, p ∈ ps → (git_rank p < git_rank c)%nat;
  (** The null id names no object. *)
  ref_real : ∀ (g : G) ref, git_ref g ref ≠ Some NO_COMMIT
}.

(** [_COMMIT_ID.fullmatch] *)
Definition is_commit_id (s : string) : bool := bool_decide (String.length s = 40) && forallb is_hex (chars s).
(** [_ref] *)
Definition ref_of (branch : string) : string := "refs/heads/" +:+ branch.

Lemma ref_of_inj b b' : ref_of b = ref_of b' → b = b'.
Proof. unfold ref_of. intros H. by apply (inj (String.append "refs/heads/")) in H. Qed.

Section repo.
Context {G Recipe : Type} `{!Git G}.
(** [json.dumps(recipe.to_document(), ...)] and [Recipe.from_document(json.loads(...))]. *)
Context (encode : Recipe → string) (decode : string → res Recipe).
Implicit Types (g : G).

Definition head g (branch : string) : option string := git_ref g (ref_of branch).

(** [_commit_of] *)
Definition commit_of g (commit : string) : res string :=
  if is_commit_id commit && bool_decide (is_Some (git_show g commit)) then Ok commit else Raise (KeyError commit).

Definition read_recipe_at g (commit : string) : res Recipe :=
  resolved ← commit_of g commit;
  match git_show g resolved with
  | Some doc => decode doc
  | None => Raise (GitError "git show failed")
  end.

Definition git_create_branch (branch at_commit : string) : Io G unit := λ g,
  match commit_of g at_commit with
  | Raise e => (Raise e, g)
  | Ok resolved =>
      let '(created, g') := git_update_ref (ref_of branch) resolved NO_COMMIT g in
      if created then (Ok (), g')
      else if bool_decide (is_Some (head g' branch))
           then (Raise (ValueError ("branch " +:+ repr_str branch +:+ " already exists")), g')
           else (Raise (GitError ("cannot create branch " +:+ repr_str branch)), g')
  end.

(** [_land] and [_write] *)
Record Landing := {
  la_branch : string; la_parent : string; la_recipe : Recipe; la_parents : list string; la_message : string
}.
Definition moved_error (a : Landing) (at_commit : string) : exn :=
  BranchMoved (la_branch a +:+ " is at " +:+ at_commit +:+ ", not " +:+ la_parent a).
Definition raced_error (a : Landing) (made : string) : exn :=
  BranchMoved (la_branch a +:+ " moved off " +:+ la_parent a +:+ " while " +:+ made +:+ " was written").
Definition stuck_error (a : Landing) (made : string) : exn :=
  GitError ("cannot move " +:+ la_branch a +:+ " to " +:+ made).

Definition land (a : Landing) : Io G string := λ g,
  match head g (la_branch a) with
  | None => (Raise (KeyError (la_branch a)), g)
  | Some current =>
      if negb (bool_decide (current = la_parent a)) then (Raise (moved_error a current), g)
      else
        match git_write (encode (la_recipe a)) (la_parents a) (la_message a) g with
        | (None, g1) => (Raise (GitError "git commit-tree failed"), g1)
        | (Some made, g1) =>
            let '(moved, g2) := git_update_ref (ref_of (la_branch a)) made (la_parent a) g1 in
            if moved then (Ok made, g2)
            else match head g2 (la_branch a) with
                 | None => (Raise (KeyError (la_branch a)), g2)
                 | Some now => (Raise (if bool_decide (now = la_parent a) then stuck_error a made
                                       else raced_error a made), g2)
                 end
        end
  end.

(** [commit] *)
Definition git_commit (branch parent : string) (rc : Recipe) (message : string) : Io G string :=
  land {| la_branch := branch; la_parent := parent; la_recipe := rc; la_parents := [parent]; la_message := message |}.

Definition git_rewind (branch commit parent : string) : Io G unit := λ g,
  match commit_of g parent with
  | Raise e => (Raise e, g)
  | Ok resolved =>
      let '(moved, g') := git_update_ref (ref_of branch) resolved commit g in
      if moved then (Ok (), g')
      else (Raise (BranchMoved (branch +:+ " is no longer at " +:+ commit)), g')
  end.

#[export] Instance git_repo : ExperimentRepo G Recipe := {|
  repo_head := head; read_recipe := read_recipe_at; create_branch := git_create_branch;
  repo_commit := git_commit; repo_rewind := git_rewind
|}.

(** ** The git repository keeps the contract *)

Context `{!GitLaws G}.

Lemma commit_of_ok g c c' : commit_of g c = Ok c' → c' = c ∧ is_Some (git_show g c).
Proof.
  unfold commit_of. destruct (is_commit_id c); simpl; [|done]. case_bool_decide; [|done]. by intros [= <-].
Qed.

Lemma keeps_shown g g' : (∀ c d, git_show g c = Some d → git_show g' c = Some d) → keeps g g'.
Proof.
  intros Hk c. change (is_ok (read_recipe_at g c) = true → is_ok (read_recipe_at g' c) = true).
  unfold read_recipe_at, commit_of. destruct (is_commit_id c); [|done].
  destruct (git_show g c) as [d|] eqn:E; [rewrite (Hk _ _ E)|]; cbn; [rewrite E, (Hk _ _ E)|]; done.
Qed.

Lemma keeps_same g g' : (∀ c, git_show g' c = git_show g c) → keeps g g'.
Proof. intros H. apply keeps_shown. intros c d. by rewrite H. Qed.

Lemma update_ref_law branch new old g b g' :
  git_update_ref (ref_of branch) new old g = (b, g') →
  (∀ c, git_show g' c = git_show g c) ∧
  (if b then moves branch (old_value old) (Some new) g g' else same_heads g g').
Proof.
  intros E. destruct b.
  - destruct (update_ref_done _ _ _ _ _ E) as (H1 & H2 & H3 & H4). split; [done|]. split_and!; [done..|].
    intros b' Hb. apply H3. intros ?%ref_of_inj. done.
  - destruct (update_ref_failed _ _ _ _ _ E) as [H1 H2]. split; [done|]. intros b'. apply H1.
Qed.

Lemma head_old g b c : head g b = Some c → git_ref g (ref_of b) = old_value c.
Proof.
  intros H. unfold old_value. case_bool_decide as E; [|exact H]. subst. by apply ref_real in H.
Qed.

Lemma land_law a g x g' :
  land a g = (x, g') →
  keeps g g' ∧ match x with Ok c => moves (la_branch a) (Some (la_parent a)) (Some c) g g' | Raise _ => same_heads g g' end.
Proof.
  unfold land. destruct (head g (la_branch a)) as [cur|] eqn:Eh; [|by intros [= <- <-]].
  destruct (bool_decide (cur = la_parent a)) eqn:Ec; simpl; [|by intros [= <- <-]].
  apply bool_decide_eq_true in Ec as ->.
  assert (la_parent a ≠ NO_COMMIT) as Hreal by (intros E; rewrite E in Eh; by apply ref_real in Eh).
  destruct (git_write _ _ _ g) as [y g1] eqn:Ew.
  assert (keeps g g1) as Hk1 by (apply keeps_shown; intros c d Hd; change g1 with (y, g1).2; rewrite <- Ew; by apply write_kept).
  assert (∀ b, head g1 b = head g b) as Hh1 by (intros b; change g1 with (y, g1).2; rewrite <- Ew; apply write_refs).
  destruct y as [made|]; [|by intros [= <- <-]].
  destruct (git_update_ref _ _ _ g1) as [moved g2] eqn:Eu. apply update_ref_law in Eu as [Hs Hm].
  assert (keeps g g2) as Hk2 by (etrans; [exact Hk1|by apply keeps_same]).
  destruct moved; [intros [= <- <-]|].
  - split; [done|]. destruct Hm as (H1 & H2 & H3). unfold old_value in H1. rewrite bool_decide_eq_false_2 in H1 by done.
    split_and!; [done..|]. intros b' Hb. rewrite H3 by done. apply Hh1.
  - assert (same_heads g g2) as Hsame by (intros b; rewrite Hm; apply Hh1).
    destruct (head g2 _); intros [= <- <-]; done.
Qed.

#[export] Instance git_repo_laws : ExperimentRepoLaws G Recipe.
Proof.
  split.
  - intros r b parent rc m x r' E. exact (land_law _ _ _ _ E).
  - intros r b c parent x r' Hh. cbn. unfold git_rewind.
    destruct (commit_of r parent) as [p|e] eqn:Ep; [|by intros [= <- <-]]. apply commit_of_ok in Ep as [-> _].
    destruct (git_update_ref _ _ _ r) as [ok r2] eqn:Eu. apply update_ref_law in Eu as [Hk Hm]. apply keeps_same in Hk.
    destruct ok; intros [= <- <-]; (split; [done|]); [|done]. destruct Hm as (H1 & H2 & H3). by split_and!.
  - intros r b c x r'. cbn. unfold git_create_branch. destruct (commit_of r c) as [p|e] eqn:Ep; [|by intros [= <- <-]].
    apply commit_of_ok in Ep as [-> _]. destruct (git_update_ref _ _ _ r) as [ok r2] eqn:Eu.
    apply update_ref_law in Eu as [Hk Hm]. apply keeps_same in Hk.
    destruct ok; [|destruct (bool_decide (is_Some _))]; intros [= <- <-]; done.
Qed.

(** ** Racing writers *)

(** Where a writer is in [_land]; between two steps another writer may run. *)
Inductive Pc := L_HEAD | L_WRITE | L_MOVE (made : string) | L_CHECK (made : string) | L_DONE (r : res string).

Definition land_step (a : Landing) (pc : Pc) g : Pc * G :=
  match pc with
  | L_HEAD =>
      (match head g (la_branch a) with
       | None => L_DONE (Raise (KeyError (la_branch a)))
       | Some current => if negb (bool_decide (current = la_parent a)) then L_DONE (Raise (moved_error a current))
                         else L_WRITE
       end, g)
  | L_WRITE =>
      let '(x, g') := git_write (encode (la_recipe a)) (la_parents a) (la_message a) g in
      (match x with Some made => L_MOVE made | None => L_DONE (Raise (GitError "git commit-tree failed")) end, g')
  | L_MOVE made =>
      let '(moved, g') := git_update_ref (ref_of (la_branch a)) made (la_parent a) g in
      (if moved then L_DONE (Ok made) else L_CHECK made, g')
  | L_CHECK made =>
      (L_DONE (Raise match head g (la_branch a) with
                     | None => KeyError (la_branch a)
                     | Some now => if bool_decide (now = la_parent a) then stuck_error a made else raced_error a made
                     end), g)
  | L_DONE r => (pc, g)
  end.

(** A writer that is never interrupted does what [land] does. *)
Definition land_steps (a : Landing) (s : Pc * G) : Pc * G := land_step a s.1 s.2.
Lemma land_is_steps a g :
  Nat.iter 4 (land_steps a) (L_HEAD, g) = (L_DONE (land a g).1, (land a g).2).
Proof.
  unfold land, land_steps. cbn.
  repeat (case_match; cbn in *; simplify_eq; try done).
Qed.

Local Notation Writer := (Landing * Pc)%type.
Definition Race : Type := G * list Writer.

Inductive race_step : Race → Race → Prop :=
| race_one g ws i a pc pc' g' :
    ws !! i = Some (a, pc) → land_step a pc g = (pc', g') → race_step (g, ws) (g', <[i := (a, pc')]> ws).

Definition race_start (g : G) (ls : list Landing) : Race := (g, (λ a, (a, L_HEAD)) <$> ls).

(** The writers on branch [b] that judged against [p], and those of them that landed. *)
Definition on (b p : string) (w : Writer) : bool :=
  bool_decide (la_branch w.1 = b) && bool_decide (la_parent w.1 = p).
Definition landed_pc (pc : Pc) : bool := match pc with L_DONE (Ok _) => true | _ => false end.
Definition landed (b p : string) (ws : list Writer) : list Writer :=
  filter (λ w, on b p w && landed_pc w.2 = true) ws.
(** A writer that ended with its commit landed, or with the branch found elsewhere. *)
Definition answered (pc : Pc) : bool :=
  match pc with L_DONE (Ok _) | L_DONE (Raise (BranchMoved _)) | L_DONE (Raise (KeyError _)) => true | _ => false end.

Lemma landed_insert b p ws i w w' :
  ws !! i = Some w → on b p w' = on b p w → landed_pc w.2 = false →
  length (landed b p (<[i := w']> ws)) = (length (landed b p ws) + (if on b p w && landed_pc w'.2 then 1 else 0))%nat.
Proof.
  intros Hi Ho Hn. rewrite insert_take_drop by (by eapply lookup_lt_Some). rewrite <- (take_drop_middle _ _ _ Hi) at 3.
  unfold landed. rewrite !filter_app, !length_app, !filter_cons, Ho, Hn, andb_false_r.
  destruct (on b p w && landed_pc w'.2) eqn:E; rewrite ?decide_True, ?decide_False by done; simpl; lia.
Qed.

(** What holds of every writer on its own: a commit it holds is written and comes after its parent. *)
Definition writer_ok g (w : Writer) : Prop :=
  match w.2 with
  | L_MOVE made | L_CHECK made => is_Some (git_show g made) ∧ (git_rank (la_parent w.1) < git_rank made)%nat
  | _ => True
  end.
(** The branch is at [p] and no writer on it that judged against [p] has been answered, or one of them landed and
    the branch is at a later commit. *)
Definition race_inv (b p : string) (s : Race) : Prop :=
  Forall (λ w, writer_ok s.1 w ∧ la_parent w.1 ∈ la_parents w.1) s.2 ∧
  ((head s.1 b = Some p ∧
    Forall (λ w, on b p w = true → answered w.2 = false) s.2) ∨
   (∃ h, head s.1 b = Some h ∧ (git_rank p < git_rank h)%nat ∧ length (landed b p s.2) = 1)).

Lemma land_step_shown a pc g pc' g' c d :
  land_step a pc g = (pc', g') → git_show g c = Some d → git_show g' c = Some d.
Proof.
  destruct pc; cbn; try by intros [= <- <-].
  - destruct (git_write _ _ _ g) as [x g1] eqn:E. intros [= <- <-] Hd. change g1 with (x, g1).2. rewrite <- E.
    by apply write_kept.
  - destruct (git_update_ref _ _ _ g) as [x g1] eqn:E. intros [= <- <-]. apply update_ref_law in E as [Hs _]. by rewrite Hs.
Qed.

Lemma land_step_writer a pc g pc' g' :
  land_step a pc g = (pc', g') → la_parent a ∈ la_parents a → writer_ok g (a, pc) → writer_ok g' (a, pc').
Proof.
  unfold writer_ok. intros E Hin H. pose proof (λ c d, land_step_shown _ _ _ _ _ c d E) as Hk. revert E.
  destruct pc; cbn in *.
  - intros [= <- <-]. destruct (head g _); cbn; [by destruct (negb _)|done].
  - destruct (git_write _ _ _ g) as [[made|] g1] eqn:Ew; intros [= <- <-]; cbn; [|done].
    destruct (write_made _ _ _ _ _ _ Ew) as [Hs Hr]. split; [by exists (encode (la_recipe a))|auto].
  - destruct (git_update_ref _ _ _ g) as [[] g1] eqn:Eu; intros [= <- <-]; cbn; [done|].
    destruct H as [[d Hd] ?]. split; [exists d; auto|done].
  - by intros [= <- <-].
  - by intros [= <- <-].
Qed.

(** A step moves a branch only where it lands its writer's commit. *)
Lemma land_step_heads a pc g pc' g' :
  land_step a pc g = (pc', g') →
  (same_heads g g' ∧ (landed_pc pc = false → landed_pc pc' = false)) ∨
  (∃ made, pc = L_MOVE made ∧ pc' = L_DONE (Ok made) ∧ moves (la_branch a) (old_value (la_parent a)) (Some made) g g').
Proof.
  destruct pc; cbn.
  - intros [= <- <-]. left. split; [done|]. intros _. destruct (head g _); [by destruct (negb _)|done].
  - destruct (git_write _ _ _ g) as [x g1] eqn:E. intros [= <- <-]. left. split; [|by destruct x].
    intros b. change g1 with (x, g1).2. rewrite <- E. apply write_refs.
  - destruct (git_update_ref _ _ _ g) as [x g1] eqn:E. intros [= <- <-]. apply update_ref_law in E as [_ H].
    destruct x; [right; by eexists|by left].
  - intros [= <- <-]. by left.
  - intros [= <- <-]. by left.
Qed.

(** While the branch stays at [p], a writer that judged against [p] is not told that it moved. *)
Lemma land_step_waits a pc g pc' g' p :
  land_step a pc g = (pc', g') → head g (la_branch a) = Some p → la_parent a = p →
  landed_pc pc' = false → answered pc = false → answered pc' = false.
Proof.
  intros E Hh Hp Hl Ha. revert E. destruct pc; cbn in *.
  - rewrite Hh, Hp, bool_decide_eq_true_2 by done. by intros [= <- <-].
  - destruct (git_write _ _ _ g) as [[]]; by intros [= <- <-].
  - destruct (git_update_ref _ _ _ g) as [[] g1]; by intros [= <- <-].
  - rewrite Hh, Hp, bool_decide_eq_true_2 by done. by intros [= <- <-].
  - by intros [= <- <-].
Qed.

Lemma landed_none b p ws : Forall (λ w, on b p w = true → answered w.2 = false) ws → landed b p ws = [].
Proof.
  intros H. unfold landed. induction H as [|w ws Hw _ IH]; [done|]. rewrite filter_cons, IH. case_decide as E; [|done].
  apply andb_true_iff in E as [E1 E2]. specialize (Hw E1). by destruct w as [? [| | | |[|]]].
Qed.

Lemma on_pc b p a pc pc' : on b p (a, pc) = on b p (a, pc').
Proof. done. Qed.

Lemma race_counts b p ws i a pc pc' :
  ws !! i = Some (a, pc) → (landed_pc pc = true → pc' = pc) →
  on b p (a, pc) && landed_pc pc' = on b p (a, pc) && landed_pc pc →
  length (landed b p (<[i := (a, pc')]> ws)) = length (landed b p ws).
Proof.
  intros Hi Hd Hl. destruct (landed_pc pc) eqn:E.
  - rewrite (Hd eq_refl), list_insert_id; done.
  - rewrite (landed_insert b p ws i (a, pc) (a, pc')) by done. simpl. rewrite Hl, andb_false_r. lia.
Qed.

Lemma race_inv_step b p s s' : race_inv b p s → race_step s s' → race_inv b p s'.
Proof.
  intros [Hw Hcase] Hstep. destruct Hstep as [g ws i a pc pc' g' Hi E]. cbn [fst snd] in *.
  assert (writer_ok g (a, pc) ∧ la_parent a ∈ la_parents a) as [Hok Hin] by exact (Forall_lookup_1 _ _ _ _ Hw Hi).
  assert (landed_pc pc = true → pc' = pc) as Hd by (destruct pc; try done; intros _; by injection E).
  split; cbn [fst snd].
  { apply Forall_insert; [|split; [by eapply land_step_writer|done]]. eapply Forall_impl; [exact Hw|].
    intros [a' pc2] [H ?]. split; [|done]. unfold writer_ok in *. cbn in *.
    destruct pc2; try done; destruct H as [[d Hs] ?]; (split; [exists d; by eapply land_step_shown|done]). }
  destruct (land_step_heads _ _ _ _ _ E) as [[Hsame Hl]|(made & -> & -> & H1 & H2 & H3)].
  - assert (on b p (a, pc) && landed_pc pc' = on b p (a, pc) && landed_pc pc) as Hc.
    { destruct (landed_pc pc) eqn:Ep; [by rewrite (Hd eq_refl), Ep|by rewrite Hl]. }
    destruct Hcase as [[Hh Hall]|(h & Hh & Hr & Hn)].
    + left. split; [by rewrite <- Hh; apply Hsame|]. apply Forall_insert; [done|]. cbn. intros Hon.
      pose proof (Forall_lookup_1 _ _ _ _ Hall Hi Hon) as Ha. cbn in Ha.
      unfold on in Hon. cbn in Hon. apply andb_true_iff in Hon as [<-%bool_decide_eq_true Hp%bool_decide_eq_true].
      eapply land_step_waits; try done. apply Hl. by destruct pc as [| | | |[]].
    + right. exists h. split_and!; [by rewrite <- Hh; apply Hsame|done|]. by rewrite (race_counts _ _ _ _ _ _ _ Hi).
  - destruct Hok as [Hs Hrank]. cbn in Hrank. destruct (decide (la_branch a = b)) as [Hb|Hb].
    + subst b. assert (∃ cur, head g (la_branch a) = Some cur ∧ cur = la_parent a) as (cur & Hcur & ->).
      { assert (is_Some (head g (la_branch a))) as [cur Hcur] by (destruct Hcase as [[-> _]|(? & -> & _)]; eauto).
        exists cur. split; [done|]. change (head g (la_branch a) = old_value (la_parent a)) in H1.
        rewrite Hcur in H1. unfold old_value in H1. case_bool_decide; [done|congruence]. }
      right. exists made. split; [done|]. destruct Hcase as [[Hh Hall]|(h & Hh & Hr & Hn)].
      * rewrite Hcur in Hh. injection Hh as Hh. rewrite <- Hh. split; [done|].
        rewrite (landed_insert _ _ _ _ _ _ Hi) by done. rewrite landed_none.
        -- unfold on. cbn. by rewrite !bool_decide_eq_true_2.
        -- rewrite Hh. exact Hall.
      * rewrite Hcur in Hh. injection Hh as <-. split; [lia|]. rewrite (race_counts _ _ _ _ _ _ _ Hi); [done..|].
        cbn. unfold on. cbn. rewrite (bool_decide_eq_false_2 (la_parent a = p)) by (intros Hp; rewrite Hp in Hr; lia).
        by rewrite andb_false_r.
    + assert (∀ pc, on b p (a, pc) = false) as Hoff by (intros ?; unfold on; cbn; by rewrite bool_decide_eq_false_2).
      assert (head g' b = head g b) as Hh' by (apply H3; congruence). rewrite Hh'.
      destruct Hcase as [[Hh Hall]|(h & Hh & Hr & Hn)]; [left|right].
      * split; [done|]. apply Forall_insert; [done|]. cbn. by rewrite Hoff.
      * exists h. split_and!; [done..|]. rewrite (race_counts _ _ _ _ _ _ _ Hi); [done..|]. by rewrite Hoff.
Qed.

(** C12: Writers racing on one branch leave one commit on it.  Whatever the interleaving of the steps of any number of
    landings on any branches, from a branch [b] at [p]: at most one writer that judged its candidate against [p]
    lands on [b], and as soon as one of them has been told that it landed or that the branch moved, exactly one
    has landed and the branch is past [p] for good; until then it is at [p]. *)
Theorem one_racer_lands (b p : string) (g : G) (ls : list Landing) (s : Race) :
  Forall (λ a, la_parent a ∈ la_parents a) ls → head g b = Some p →
  rtc race_step (race_start g ls) s →
  (length (landed b p s.2) ≤ 1)%nat ∧
  (landed b p s.2 = [] → head s.1 b = Some p) ∧
  ((∃ w, w ∈ s.2 ∧ on b p w = true ∧ answered w.2 = true) → length (landed b p s.2) = 1 ∧ head s.1 b ≠ Some p).
Proof.
  intros Hls Hh Hrun. assert (race_inv b p s) as [_ Hcase].
  { apply (rtc_preserves race_step (race_inv b p) _ _ (race_inv_step b p)) in Hrun; [done|].
    split; cbn; [|left; split; [done|]]; rewrite Forall_fmap; (eapply Forall_impl; [exact Hls|]); by cbn. }
  destruct Hcase as [[Hp Hall]|(h & Hp & Hr & Hn)].
  - rewrite landed_none by exact Hall.
    split_and!; [simpl; lia|done|]. intros (w & Hin & Hon & Ha). rewrite Forall_forall in Hall.
    specialize (Hall _ Hin Hon). congruence.
  - split_and!; [lia|by destruct (landed b p s.2)|]. intros _. split; [done|]. rewrite Hp. intros [= ->]. lia.
Qed.
End repo.

(** ** A git in memory *)

(** Refs and commit documents as maps; a commit's id spells its generation number in ones. *)
Module GitDemo.
Record MemGit := { mg_refs : gmap string string; mg_objects : gmap string string }.

Fixpoint ones (n width : nat) : string :=
  match width with
  | O => EmptyString
  | S w => match n with O => String "0"%char (ones 0 w) | S n' => String "1"%char (ones n' w) end
  end.
Fixpoint rank (s : string) : nat :=
  match s with EmptyString => 0 | String c s' => (if bool_decide (c = "1"%char) then 1 else 0) + rank s' end.

Definition mem_ref (g : MemGit) (ref : string) : option string :=
  match mg_refs g !! ref with
  | Some c => if bool_decide (c = NO_COMMIT) then None else Some c
  | None => None
  end.
Definition mem_show (g : MemGit) (c : string) : option string :=
  if bool_decide (c = NO_COMMIT) then None else mg_objects g !! c.
Definition mem_update_ref (ref new old : string) (g : MemGit) : bool * MemGit :=
  if bool_decide (mem_ref g ref = old_value old) && bool_decide (is_Some (mem_show g new))
  then (true, {| mg_refs := <[ref := new]> (mg_refs g); mg_objects := mg_objects g |}) else (false, g).
Definition mem_write (doc : string) (ps : list string) (m : string) (g : MemGit) : option string * MemGit :=
  let n := S (Nat.max (list_max (rank <$> ps)) (size (mg_objects g))) in
  let id := ones n 40 in
  if (n <=? 40)%nat && bool_decide (mg_objects g !! id = None)
  then (Some id, {| mg_refs := mg_refs g; mg_objects := <[id := doc]> (mg_objects g) |}) else (None, g).

#[global] Instance mem_git : Git MemGit := {|
  git_ref := mem_ref; git_show := mem_show; git_update_ref := mem_update_ref; git_write := mem_write; git_rank := rank
|}.

Lemma rank_ones n w : (n ≤ w)%nat → rank (ones n w) = n.
Proof.
  revert n. induction w as [|w IH]; intros [|n] H; simpl; [done|lia|..]; rewrite IH by lia; done.
Qed.

Lemma ones_real n : (n < 40)%nat → ones (S n) 40 ≠ NO_COMMIT.
Proof. intros H E. apply (f_equal rank) in E. rewrite rank_ones in E by lia. vm_compute in E. lia. Qed.

#[global] Instance mem_git_laws : GitLaws MemGit.
Proof.
  split; cbn.
  - intros ref new old g g'. unfold mem_update_ref. destruct (bool_decide (mem_ref g ref = _)) eqn:E1; [|done].
    apply bool_decide_eq_true in E1. cbn. case_bool_decide as E2; [|done]. intros [= <-]. split; [done|].
    split; [|split; [|done]]; unfold mem_ref; cbn.
    + rewrite lookup_insert_eq. destruct E2 as [d E2]. unfold mem_show in E2. by case_bool_decide.
    + intros ref' Hne. by rewrite lookup_insert_ne.
  - intros ref new old g g'. unfold mem_update_ref. destruct (_ && _); [done|]. by intros [= <-].
  - intros doc ps m g ref. unfold mem_write. by destruct (_ && _).
  - intros doc ps m g c d. unfold mem_write. set (n := Nat.max _ _). destruct (_ && _) eqn:E; [|done].
    apply andb_true_iff in E as [_ E%bool_decide_eq_true]. unfold mem_show. cbn [snd mg_objects]. case_bool_decide; [done|].
    intros Hd. rewrite lookup_insert_ne; [done|]. congruence.
  - intros doc ps m g g' c. unfold mem_write. set (n := Nat.max _ _). destruct (_ && _) eqn:E; [|done].
    apply andb_true_iff in E as [Hn%Nat.leb_le E%bool_decide_eq_true].
    assert (rank (ones (S n) 40) = S n) as Hrank by (apply rank_ones; lia).
    assert (ones (S n) 40 ≠ NO_COMMIT) as Hreal by (apply ones_real; lia).
    set (made := ones (S n) 40) in *. clearbody made. intros [= <- <-]. split.
    + unfold mem_show. cbn [mg_objects]. rewrite bool_decide_eq_false_2 by done.
      by rewrite lookup_insert_eq.
    + intros p Hp. rewrite Hrank. subst n.
      assert (rank p ≤ list_max (rank <$> ps))%nat; [|lia].
      apply (proj1 (Forall_forall _ _) (proj1 (list_max_le _ _) (Nat.le_refl _))).
      apply list_elem_of_fmap. by exists p.
  - intros g ref. unfold mem_ref. destruct (mg_refs g !! ref); [|done]. by case_bool_decide; [|congruence].
Qed.

(** Two writers judged candidates against the head of one branch; both find it there and both write. *)
Definition root : string := Eval vm_compute in ones 1 40.
Definition g0 : MemGit := {| mg_refs := {[ ref_of "b01" := root ]}; mg_objects := {[ root := "base" ]} |}.
Definition candidate (rc : string) : Landing (Recipe := string) :=
  {| la_branch := "b01"; la_parent := root; la_recipe := rc; la_parents := [root]; la_message := rc |}.
Definition race0 : Race := race_start g0 [candidate "first"; candidate "second"].
Definition turn (i : nat) (s : Race (G := MemGit) (Recipe := string)) : Race :=
  match s.2 !! i with
  | Some (a, pc) => let '(pc', g') := land_step id a pc s.1 in (g', <[i := (a, pc')]> s.2)
  | None => s
  end.
Definition raced : Race := Eval vm_compute in foldl (λ s i, turn i s) race0 [0; 1; 1; 0; 1; 0; 0].

Lemma racer_turn_steps ts s : rtc (race_step id) s (foldl (λ s i, turn i s) s ts).
Proof.
  revert s. induction ts as [|i ts IH]; intros s; simpl; [done|]. etrans; [|apply IH].
  unfold turn. destruct s as [g ws]. cbn. destruct (ws !! i) as [[a pc]|] eqn:E; [|done].
  destruct (land_step id a pc g) as [pc' g'] eqn:E'. apply rtc_once. by eapply race_one.
Qed.
End GitDemo.

Lemma one_racer_lands_witness :
  length (landed "b01" GitDemo.root GitDemo.raced.2) = 1 ∧ head GitDemo.raced.1 "b01" ≠ Some GitDemo.root.
Proof.
  apply (one_racer_lands id Ok "b01" GitDemo.root GitDemo.g0 [GitDemo.candidate "first"; GitDemo.candidate "second"]
           GitDemo.raced).
  - repeat constructor.
  - vm_compute. reflexivity.
  - exact (GitDemo.racer_turn_steps [0; 1; 1; 0; 1; 0; 0]%nat GitDemo.race0).
  - eexists. split; [left|]. vm_compute. split; reflexivity.
Defined.
