(* ===== verification/RuleGate.v ===== *)
(** * The rule gate

    [multibranch/rulegate/gate.py]: the one writer of specialist branches.  It lands what a judgement decides
    in the experiment repository and on the blackboard, takes fork and repair requests to the scheduler, and
    lands or records the forks and repairs the scheduler reserved a branch for.

    What the gate calls is given by interfaces: [ExperimentRepo] with the laws its protocol documents
    ([RepoContract], which the git repository of [GitRepo] keeps), [ForkAdmissionService] ([contracts/fork.py]), for which the fork desk is an
    instance, and a blackboard whose writes may be refused.  A method is an [Io] computation: an exception
    keeps what was done before it. *)

From stdpp Require Import base list strings pretty sets gmap.
From Stdlib Require Import ZArith Lia.
From S2P Require Import Prelude PyFloat PyVal Dicts TestRequests WorkQueue Roster ForkContracts ForkDesk RepoContract GitRepo.

(** ** The scheduler *)

Class ForkAdmissionService (S F D : Type) `{!FloatOps F} := {
  svc_admit : S → ForkRequest → F → res (ForkAdmission * S);
  svc_admit_repair : S → RepairRequest F D → F → res (ForkAdmission * S)
}.

Section gate.
Context {F D R Recipe S : Type} `{!FloatOps F} `{!EqDecision F} `{!EqDecision D}.
Context `{!ExperimentRepo R Recipe} `{!ForkAdmissionService S F D}.
(** [recipe.apply] and [Recipe.digest]; the result verifier; the time; [format(x, "+.2f")]. *)
Context (apply_delta : Recipe → D → res Recipe) (digest : Recipe → string).
Context (reverify : string → res unit) (now : F) (fmt_gain : F → string).

(** *** The blackboard *)

Record JudgementWrite := {
  jw_request_id : string;
  jw_judgement : Judgement F;
  jw_conclusion : Conclusion;
  jw_commit_id : option string;
  jw_recipe_digest : option string
}.
Record RegressionCase := { rc_case_ref : string; rc_fix_commit : string; rc_repro_request_id : string }.
Record LineageEvent := {
  le_branch : string; le_commit_id : string; le_from_commit : string; le_from_branch : string; le_reason : string
}.
(** A recorded test, as far as [register_case] reads it: its request and the verdict of its repro. *)
Record TestRecord := { te_request : TestRequest D; te_verdict : option string }.

Inductive Write := WJudgement (w : JudgementWrite) | WCase (c : RegressionCase) | WLineage (e : LineageEvent).
(** The blackboard's rows of the gate, oldest first; [refuse] says which writes raise, and whether the row of one
    that raises is there all the same. *)
Context (refuse : list Write → Write → option (exn * bool)) (records : string → res TestRecord).

Record FixProof := { fp_candidate_request_id : string }.
(** [_Reserved]; [fix] is [None] for a repair. *)
Record Reserved := {
  rs_request : TestRequest D; rs_judgement : Judgement F; rs_reason : string; rs_fix : option FixProof
}.

Record Gate := {
  g_repo : R;
  g_rows : list Write;
  g_sched : S;
  g_reserved : list (string * Reserved)
}.
Implicit Types (g : Gate) (q : TestRequest D) (j : Judgement F).

Definition set_repo (r : R) g : Gate :=
  {| g_repo := r; g_rows := g_rows g; g_sched := g_sched g; g_reserved := g_reserved g |}.
Definition set_reserved (m : list (string * Reserved)) g : Gate :=
  {| g_repo := g_repo g; g_rows := g_rows g; g_sched := g_sched g; g_reserved := m |}.
Definition set_sched (s : S) g : Gate :=
  {| g_repo := g_repo g; g_rows := g_rows g; g_sched := s; g_reserved := g_reserved g |}.

Definition on_repo {A} (m : Io R A) : Io Gate A := λ g, let '(x, r) := m (g_repo g) in (x, set_repo r g).

Definition add_rows (new : list Write) g : Gate :=
  {| g_repo := g_repo g; g_rows := g_rows g ++ new; g_sched := g_sched g; g_reserved := g_reserved g |}.
Definition write (w : Write) : Io Gate unit := λ g,
  match refuse (g_rows g) w with
  | Some (e, kept) => (Raise e, if kept then add_rows [w] g else g)
  | None => (Ok (), add_rows [w] g)
  end.
Definition request_id_of q : string := default EmptyString (tr_request_id q).
Definition write_judgement q j (c : Conclusion) (commit dg : option string) : Io Gate unit :=
  write (WJudgement {| jw_request_id := request_id_of q; jw_judgement := j; jw_conclusion := c;
                       jw_commit_id := commit; jw_recipe_digest := dg |}).

(** [_record] *)
Definition record_only q j : Io Gate unit := write_judgement q j (recorded_as j) None None.

(** [_reverify] *)
Definition reverify_all q j : Io Gate unit := λ g,
  match for_each reverify (ju_request_ids j) with
  | Ok _ => (Ok (), g)
  | Raise (ResultUnverified m) =>
      (write_judgement q j CC_UNVERIFIED None None ≫= λ _, io_raise (ResultUnverified m)) g
  | Raise e => (Raise e, g)
  end.

(** [register_case] *)
Definition NOT_REPRODUCED : string := "not_reproduced".
Definition register_case (fix_commit repro_id : string) : Io Gate unit :=
  io_lift (records repro_id) ≫= λ t,
  if negb (bool_decide (tr_kind (te_request t) = K_REPRO) && bool_decide (te_verdict t = Some NOT_REPRODUCED))
  then io_raise (ValueError (repro_id +:+ " is not a repro test whose case ran clean"))
  else write (WCase {| rc_case_ref := join ", " (at_id <$> tr_attachments (te_request t)); rc_fix_commit := fix_commit;
                       rc_repro_request_id := repro_id |}).

(** [try: body; except Exception: rewind; raise] *)
Definition or_rewind (branch commit parent : string) (body : Io Gate unit) : Io Gate unit := λ g,
  match body g with
  | (Ok a, g') => (Ok a, g')
  | (Raise e, g') =>
      match on_repo (repo_rewind branch commit parent) g' with
      | (Ok _, g2) => (Raise e, g2)
      | (Raise e', g2) => (Raise e', g2)
      end
  end.

Definition message_of q (text : string) : string := request_id_of q +:+ ": " +:+ text.

(** [_commit] *)
Definition commit_candidate q j (fix_ : option FixProof) : Io Gate bool := λ g,
  match read_recipe (g_repo g) (tr_parent_commit q) ≫= λ rc, apply_delta rc (tr_delta q) with
  | Raise e => (Raise e, g)
  | Ok recipe =>
      match on_repo (repo_commit (tr_branch_id q) (tr_parent_commit q) recipe
              (message_of q (verdict_value (ju_verdict j) +:+ " " +:+ fmt_gain (ju_gain_pct j) +:+ "%"))) g with
      | (Raise (BranchMoved _), g1) => (record_only q j ≫= λ _, mret false) g1
      | (Raise e, g1) => (Raise e, g1)
      | (Ok commit, g1) =>
          let c := if ju_fixes_correctness j then CC_COMMITTED_WITH_REPRO else CC_COMMITTED in
          (or_rewind (tr_branch_id q) commit (tr_parent_commit q)
             ((match fix_ with Some f => register_case commit (fp_candidate_request_id f) | None => mret () end)
              ≫= λ _, write_judgement q j c (Some commit) (Some (digest recipe)))
           ≫= λ _, mret true) g1
      end
  end.

Definition require_proof q j (fix_ : option FixProof) : res unit :=
  raise_if (ju_fixes_correctness j && negb (bool_decide (is_Some (fp_candidate_request_id <$> fix_))))
    (ValueError (request_id_of q +:+ " lands a correctness fix without the proof of its case")).
Definition require_action j (a : Action) : res unit :=
  raise_if (negb (bool_decide (decide_action j = a)))
    (ValueError ("a " +:+ verdict_value (ju_verdict j) +:+ " judgement calls for another action")).

(** [settle] *)
Definition settle q j (fix_ : option FixProof) : Io Gate Action :=
  match decide_action j with
  | COMMIT =>
      io_lift (require_proof q j fix_) ≫= λ _, reverify_all q j ≫= λ _,
      commit_candidate q j fix_ ≫= λ landed, mret (if landed : bool then COMMIT else RECORD_ONLY)
  | RECORD_ONLY => record_only q j ≫= λ _, mret RECORD_ONLY
  | DIAGNOSE => write_judgement q j CC_DIAGNOSIS_PENDING None None ≫= λ _, mret DIAGNOSE
  | a => mret a
  end.

(** [decline] *)
Definition decline q j : Io Gate unit := io_lift (require_action j DIAGNOSE) ≫= λ _, record_only q j.

(** [_reserve] *)
Definition reserve (a : ForkAdmission) (r : Reserved) : Io Gate unit := λ g,
  (Ok (), if nonempty (fa_branch a) then set_reserved (dset (fa_branch a) r (g_reserved g)) g else g).

Definition ask (f : S → res (ForkAdmission * S)) : Io Gate ForkAdmission := λ g,
  match f (g_sched g) with
  | Ok (a, s) => (Ok a, set_sched s g)
  | Raise e => (Raise e, g)
  end.

(** [fork] and [repair] *)
Definition fork q j (reason : string) (fix_ : option FixProof) : Io Gate ForkAdmission :=
  io_lift (require_action j REQUEST_FORK) ≫= λ _, io_lift (require_proof q j fix_) ≫= λ _, reverify_all q j ≫= λ _,
  ask (λ s, svc_admit s {| fr_from_branch := tr_branch_id q; fr_parent_commit := tr_parent_commit q;
                           fr_reason := reason |} now) ≫= λ a,
  let c := match fa_status a with
           | REJECTED => recorded_as j | PENDING => CC_SPLIT_PENDING | ACCEPTED => CC_SPLIT_REQUESTED
           end in
  reserve a {| rs_request := q; rs_judgement := j; rs_reason := reason; rs_fix := fix_ |} ≫= λ _,
  write_judgement q j c None None ≫= λ _, mret a.

Definition repair q j (i : Intent F) (diagnosis : string) : Io Gate ForkAdmission :=
  reverify_all q j ≫= λ _,
  ask (λ s, mk_repair i (tr_delta q) j diagnosis ≫= λ r, svc_admit_repair s r now) ≫= λ a,
  let c := if bool_decide (fa_status a = REJECTED) then recorded_as j else CC_REPAIR_REQUESTED in
  reserve a {| rs_request := q; rs_judgement := j; rs_reason := EmptyString; rs_fix := None |} ≫= λ _,
  write_judgement q j c None None ≫= λ _, mret a.

Definition unreserve (branch : string) : Io Gate unit := λ g, (Ok (), set_reserved (ddel branch (g_reserved g)) g).

(** [_land] *)
Definition land_split (branch : string) : Io Gate bool := λ g,
  match dget branch (g_reserved g) with
  | Some {| rs_request := q; rs_judgement := j; rs_reason := reason; rs_fix := Some f |} =>
      let parent := tr_parent_commit q in
      match read_recipe (g_repo g) parent ≫= λ rc, apply_delta rc (tr_delta q) with
      | Raise e => (Raise e, g)
      | Ok recipe =>
          (on_repo (create_branch branch parent) ≫= λ _,
           on_repo (repo_commit branch parent recipe
                      (message_of q ("split from " +:+ tr_branch_id q +:+ ": " +:+ reason))) ≫= λ commit,
           or_rewind branch commit parent
             (register_case commit (fp_candidate_request_id f) ≫= λ _,
              write_judgement q j CC_SPLIT_COMMITTED (Some commit) (Some (digest recipe)) ≫= λ _,
              write (WLineage {| le_branch := branch; le_commit_id := commit; le_from_commit := parent;
                                 le_from_branch := tr_branch_id q; le_reason := reason |})) ≫= λ _,
           unreserve branch ≫= λ _, mret true) g
      end
  | _ => (Ok false, g)
  end.

(** [_void] *)
Definition settle_voided (branch : string) : Io Gate unit := λ g,
  match dget branch (g_reserved g) with
  | None => (Ok (), g)
  | Some v => record_only (rs_request v) (rs_judgement v) (set_reserved (ddel branch (g_reserved g)) g)
  end.

(** ** What a call may change *)

Definition names_commit (c : string) (w : Write) : bool :=
  match w with WJudgement w => bool_decide (jw_commit_id w = Some c) && committing (jw_conclusion w) | _ => false end.
Definition no_commit (w : Write) : bool :=
  match w with WJudgement w => bool_decide (jw_commit_id w = None) | _ => true end.

Lemma add_rows_nil g : add_rows [] g = g.
Proof. destruct g. unfold add_rows. simpl. by rewrite app_nil_r. Qed.

Notation quiet := (Forall (λ w, no_commit w = true)).

Lemma write_spec w g :
  (write w g = (Ok (), add_rows [w] g)) ∨
  (∃ e new, write w g = (Raise e, add_rows new g) ∧ (new = [] ∨ new = [w] ∧ refuse (g_rows g) w = Some (e, true))).
Proof.
  unfold write. destruct (refuse _ _) as [[e kept]|]; [right|by left]. destruct kept; [exists e, [w]; auto|].
  exists e, []. rewrite add_rows_nil. auto.
Qed.
(** A row that names no commit, written or not. *)
Lemma write_quiet w g : no_commit w = true → ∃ r new, write w g = (r, add_rows new g) ∧ quiet new.
Proof.
  intros Hw. assert (quiet [w]) as H1 by by constructor.
  destruct (write_spec w g) as [->|(e & new & -> & [-> |[-> _]])]; eexists _, _; (split; [done|]); [done|constructor|done].
Qed.

Lemma record_only_spec q j g : ∃ r new, record_only q j g = (r, add_rows new g) ∧ quiet new.
Proof. by apply write_quiet. Qed.

Lemma reverify_spec q j g :
  (for_each reverify (ju_request_ids j) = Ok () ∧ reverify_all q j g = (Ok (), g)) ∨
  (∃ e new, is_ok (for_each reverify (ju_request_ids j)) = false ∧ reverify_all q j g = (Raise e, add_rows new g) ∧ quiet new).
Proof.
  unfold reverify_all. destruct (for_each reverify (ju_request_ids j)) as [[]|e] eqn:E; [by left|]. right.
  assert (is_ok (Raise (A := unit) e) = false) as Hk by done.
  destruct e; try (eexists _, []; rewrite add_rows_nil; split_and!; [done|reflexivity|constructor]).
  unfold mbind, io_bind, write_judgement. set (w := WJudgement _).
  destruct (write_quiet w g eq_refl) as ([[]|e] & new & -> & Hq); by eexists _, new.
Qed.

Lemma register_spec c id g : ∃ r new, register_case c id g = (r, add_rows new g) ∧ quiet new.
Proof.
  unfold register_case, mbind, io_bind, io_lift. destruct (records id) as [t|e].
  - destruct (negb _); [|by apply write_quiet]. eexists _, []. rewrite add_rows_nil. split; [reflexivity|constructor].
  - eexists _, []. rewrite add_rows_nil. split; [reflexivity|constructor].
Qed.

Lemma add_rows_app n1 n2 g : add_rows n2 (add_rows n1 g) = add_rows (n1 ++ n2) g.
Proof. unfold add_rows. simpl. by rewrite app_assoc. Qed.

(** The two writes of a commit: the case of its fix, then the judgement that names it. *)
Definition commit_writes q j c commit dg (fix_ : option FixProof) : Io Gate unit :=
  (match fix_ with Some f => register_case commit (fp_candidate_request_id f) | None => mret () end)
  ≫= λ _, write_judgement q j c (Some commit) (Some dg).

(** Rows a call that raised leaves behind: none names a commit, except the last one if the store kept the row of a
    write that raised. *)
Definition leftover (rows new : list Write) : Prop :=
  ∃ front rest, new = front ++ rest ∧ quiet front ∧
    (rest = [] ∨ ∃ w e, rest = [w] ∧ refuse (rows ++ front) w = Some (e, true)).
Lemma leftover_quiet rows new : quiet new → leftover rows new.
Proof. intros H. exists new, []. rewrite app_nil_r. auto. Qed.

Lemma commit_writes_spec q j c commit dg fix_ g :
  committing c = true →
  (∃ new w, commit_writes q j c commit dg fix_ g = (Ok (), add_rows (new ++ [w]) g) ∧
            names_commit commit w = true ∧ quiet new) ∨
  (∃ e new, commit_writes q j c commit dg fix_ g = (Raise e, add_rows new g) ∧ leftover (g_rows g) new).
Proof.
  intros Hc. unfold commit_writes.
  assert (∃ r new, (match fix_ with Some f => register_case commit (fp_candidate_request_id f) | None => mret () end) g
    = (r, add_rows new g) ∧ quiet new) as (r & new & E & Hnew).
  { destruct fix_ as [f|]; [apply register_spec|]. exists (Ok ()), []. rewrite add_rows_nil. split; [done|constructor]. }
  unfold mbind, io_bind. rewrite E. destruct r as [[]|e]; [|right; exists e, new; split; [done|by apply leftover_quiet]].
  unfold write_judgement. set (w := WJudgement _). destruct (write_spec w (add_rows new g)) as [->|(e & new2 & -> & H)].
  - left. exists new, w. rewrite add_rows_app. split; [done|]. split; [|done]. simpl. by rewrite bool_decide_eq_true_2.
  - right. exists e, (new ++ new2). rewrite add_rows_app. split; [done|]. exists new, new2. split_and!; [done..|].
    destruct H as [->|[-> H]]; [by left|]. right. by exists w, e.
Qed.

(** *** One commit, or nothing *)

Context `{!ExperimentRepoLaws R Recipe}.

(** Nothing landed: no branch moved, and no row added names a commit. *)
Definition nothing_landed g g' : Prop :=
  same_heads (g_repo g) (g_repo g') ∧ ∃ new, g_rows g' = g_rows g ++ new ∧ quiet new.
(** One commit landed on [b] at [parent], and the last row, of a committing conclusion, names it. *)
Definition one_landed (b parent : string) g g' : Prop :=
  ∃ c front w, moves b (Some parent) (Some c) (g_repo g) (g_repo g') ∧
    g_rows g' = g_rows g ++ front ++ [w] ∧ names_commit c w = true ∧ quiet front.
(** The scheduler and the reserved branches are as they were. *)
Definition aside g g' : Prop := g_sched g' = g_sched g ∧ g_reserved g' = g_reserved g.

Lemma quiet_landed g new : quiet new → nothing_landed g (add_rows new g) ∧ aside g (add_rows new g).
Proof. intros H. split; [split; [done|by exists new]|done]. Qed.

(** After an exception the branch is where it was, or still at the commit that taking back failed. *)
Definition taken_back (b parent : string) (r0 r' : R) : Prop :=
  same_heads r0 r' ∨
  ∃ c r1 e, repo_rewind b c parent r1 = (Raise e, r') ∧ moves b (Some parent) (Some c) r0 r'.

Lemma or_rewind_spec b c parent body g0 g :
  moves b (Some parent) (Some c) (g_repo g0) (g_repo g) → g_rows g = g_rows g0 → aside g0 g →
  (∃ r new, body g = (r, add_rows new g)) →
  (∃ g', or_rewind b c parent body g = (Ok (), g') ∧ body g = (Ok (), g')) ∨
  (∃ e e' g' new, or_rewind b c parent body g = (Raise e, g') ∧ body g = (Raise e', add_rows new g) ∧
    taken_back b parent (g_repo g0) (g_repo g') ∧ g_rows g' = g_rows g0 ++ new ∧ aside g0 g').
Proof.
  intros Hm Hr [Hs Hv] (r & new & E). unfold or_rewind. rewrite E. destruct r as [[]|e]; [left; by eexists|right].
  unfold on_repo. cbn [g_repo add_rows]. destruct (repo_rewind b c parent (g_repo g)) as [x r2] eqn:Er.
  destruct (rewind_law _ _ _ _ _ _ (proj1 (proj2 Hm)) Er) as [_ Hm2].
  assert (taken_back b parent (g_repo g0) r2) as Ht.
  { destruct x as [u|e2]; [left; by eapply moves_back|right]. exists c, (g_repo g), e2. split; [done|].
    destruct Hm as (H1 & H2 & H3). split_and!; [done|by rewrite Hm2|]. intros b' Hb. rewrite Hm2. by apply H3. }
  destruct x as [u|e2]; eexists _, e, _, new; (split_and!; [done|done|exact Ht|cbn; by rewrite Hr|split; cbn; congruence]).
Qed.

Lemma unmoved g : nothing_landed g g ∧ aside g g.
Proof. pose proof (quiet_landed g [] (Forall_nil_2 _)) as H. by rewrite add_rows_nil in H. Qed.

(** A refused commit leaves the repository's branches; recording it adds rows that name no commit. *)
Lemma moved_off g r1 new : same_heads (g_repo g) r1 → quiet new →
  nothing_landed g (add_rows new (set_repo r1 g)) ∧ aside g (add_rows new (set_repo r1 g)).
Proof. intros Hs Hq. split; [split; [done|by exists new]|done]. Qed.

(** A call that raised: the branch was taken back, unless that failed, and no new row names a commit, unless the
    write of it raised and left it. *)
Definition failed (b parent : string) g g' : Prop :=
  taken_back b parent (g_repo g) (g_repo g') ∧ ∃ new, g_rows g' = g_rows g ++ new ∧ leftover (g_rows g) new.
Lemma nothing_failed b parent g g' : nothing_landed g g' → failed b parent g g'.
Proof. intros [H (new & E & Hq)]. split; [by left|]. exists new. split; [done|by apply leftover_quiet]. Qed.

(** What a call that answers [landed], or raises, leaves. *)
Definition settled (r : res bool) (b parent : string) g g' : Prop :=
  aside g g' ∧ match r with
               | Ok true => one_landed b parent g g'
               | Ok false => nothing_landed g g'
               | Raise _ => failed b parent g g'
               end.

Lemma commit_candidate_spec q j fix_ g r g' :
  commit_candidate q j fix_ g = (r, g') → settled r (tr_branch_id q) (tr_parent_commit q) g g'.
Proof.
  destruct (unmoved g) as [Hun Has]. pose proof (nothing_failed (tr_branch_id q) (tr_parent_commit q) _ _ Hun) as Hfu.
  unfold commit_candidate.
  destruct (read_recipe (g_repo g) (tr_parent_commit q)) as [rc|e]; cbn [mbind res_bind]; [|by intros [= <- <-]].
  destruct (apply_delta rc (tr_delta q)) as [recipe|e]; [|by intros [= <- <-]].
  unfold on_repo at 1. destruct (repo_commit _ _ _ _ (g_repo g)) as [[c|e] r1] eqn:Ec; apply commit_law in Ec as [_ Hx].
  - set (cc := if ju_fixes_correctness j then _ else _). assert (committing cc = true) as Hcc by (subst cc; by destruct (ju_fixes_correctness j)).
    pose proof (commit_writes_spec q j cc c (digest recipe) fix_ (set_repo r1 g) Hcc) as Hw.
    destruct (or_rewind_spec (tr_branch_id q) c (tr_parent_commit q) (commit_writes q j cc c (digest recipe) fix_) g (set_repo r1 g))
      as [(g2 & Eo & Eb)|(e & e' & g2 & new & Eo & Eb & Hs & Hrows & Has2)]; try done.
    { destruct Hw as [(new & w & -> & _)|(e & new & -> & _)]; by eexists _, _. }
    + unfold mbind at 1, io_bind at 1. unfold commit_writes in Eo. rewrite Eo. intros [= <- <-].
      destruct Hw as [(new & w & Ew & Hn & Hq)|(e & new & Ew & _)]; rewrite Eb in Ew; [|done].
      injection Ew as ->. split; [done|]. exists c, new, w. by split_and!.
    + unfold mbind at 1, io_bind at 1. unfold commit_writes in Eo. rewrite Eo. intros [= <- <-].
      split; [done|]. split; [done|]. exists new. split; [done|].
      destruct Hw as [(new' & w & Ew & _)|(e2 & new' & Ew & Hq)]; rewrite Eb in Ew; [done|].
      injection Ew as -> Ew. by apply app_inv_head in Ew as ->.
  - pose proof (moved_off g r1 [] Hx (Forall_nil_2 _)) as [H1 H2]. rewrite add_rows_nil in H1, H2.
    pose proof (nothing_failed (tr_branch_id q) (tr_parent_commit q) _ _ H1) as H1f.
    destruct e; try by intros [= <- <-].
    unfold mbind, io_bind. destruct (record_only_spec q j (set_repo r1 g)) as (x & new & -> & Hq).
    destruct (moved_off g r1 new Hx Hq) as [H3 H4].
    destruct x; intros [= <- <-]; (split; [done|]); [done|]. by apply nothing_failed.
Qed.


(** A result that does not re-verify lands and asks nothing: a commit, a fork or a repair behind which one result
    no longer verifies raises before it touches the repository, the scheduler or the reserved branches, and the
    only row it may add is a judgement without a commit. *)
Theorem unverified_asks_nothing q j i (fix_ : option FixProof) (reason diagnosis : string) g :
  is_ok (for_each reverify (ju_request_ids j)) = false →
  (decide_action j = COMMIT →
   ∃ e new, settle q j fix_ g = (Raise e, add_rows new g) ∧ quiet new) ∧
  (∃ e new, fork q j reason fix_ g = (Raise e, add_rows new g) ∧ quiet new) ∧
  (∃ e new, repair q j i diagnosis g = (Raise e, add_rows new g) ∧ quiet new).
Proof.
  intros Hv. destruct (reverify_spec q j g) as [[H _]|(e & new & _ & E & Hq)]; [by rewrite H in Hv|].
  assert (∀ {A} (x : res unit) (k : unit → Io Gate A), ∃ e' new', (io_lift x ≫= λ _, reverify_all q j ≫= k) g =
    (Raise e', add_rows new' g) ∧ quiet new') as Hl.
  { intros A x k. unfold mbind, io_bind, io_lift. destruct x as [[]|e']; [rewrite E; by exists e, new|].
    exists e', []. rewrite add_rows_nil. by split. }
  split_and!.
  - intros Hc. unfold settle. rewrite Hc. apply Hl.
  - unfold fork. destruct (require_action j REQUEST_FORK) as [[]|e']; [apply (Hl _ (require_proof q j fix_))|].
    exists e', []. rewrite add_rows_nil. by split.
  - unfold repair. apply (Hl _ (Ok ())).
Qed.

(** *** Landing a fork *)

(** The three rows a landed fork leaves, in their order. *)
Definition split_rows (b c : string) (v : Reserved) (f : FixProof) (rows : list Write) : Prop :=
  ∃ k w, rows = [WCase k; w; WLineage {| le_branch := b; le_commit_id := c;
                   le_from_commit := tr_parent_commit (rs_request v); le_from_branch := tr_branch_id (rs_request v);
                   le_reason := rs_reason v |}] ∧
    rc_fix_commit k = c ∧ rc_repro_request_id k = fp_candidate_request_id f ∧ names_commit c w = true.

Lemma register_ok c id g g' : register_case c id g = (Ok (), g') →
  ∃ k, g' = add_rows [WCase k] g ∧ rc_fix_commit k = c ∧ rc_repro_request_id k = id.
Proof.
  unfold register_case, mbind, io_bind, io_lift. destruct (records id) as [t|e]; [|done]. destruct (negb _); [done|].
  set (k := {| rc_case_ref := _ |}). destruct (write_spec (WCase k) g) as [->|(e & new & -> & _)]; [|done].
  intros [= <-]. by exists k.
Qed.

Definition split_writes (b c dg : string) (v : Reserved) (f : FixProof) : Io Gate unit :=
  register_case c (fp_candidate_request_id f) ≫= λ _,
  write_judgement (rs_request v) (rs_judgement v) CC_SPLIT_COMMITTED (Some c) (Some dg) ≫= λ _,
  write (WLineage {| le_branch := b; le_commit_id := c; le_from_commit := tr_parent_commit (rs_request v);
                     le_from_branch := tr_branch_id (rs_request v); le_reason := rs_reason v |}).

Lemma split_writes_spec b c dg v f g r g' : split_writes b c dg v f g = (r, g') →
  ∃ new, g' = add_rows new g ∧ (r = Ok () → split_rows b c v f new).
Proof.
  unfold split_writes, mbind, io_bind. destruct (register_case c _ g) as [[[]|e] g1] eqn:Er.
  2:{ destruct (register_spec c (fp_candidate_request_id f) g) as (x & new & E & _). rewrite Er in E. injection E as <- ->.
      intros [= <- <-]. by exists new. }
  apply register_ok in Er as (k & -> & Hk1 & Hk2). unfold write_judgement. set (w := WJudgement _).
  destruct (write_spec w (add_rows [WCase k] g)) as [->|(e & new & -> & _)];
    [|intros [= <- <-]; rewrite add_rows_app; by eexists].
  rewrite add_rows_app. set (l := WLineage _). destruct (write_spec l (add_rows ([WCase k] ++ [w]) g)) as [->|(e & new & -> & _)].
  - intros [= <- <-]. rewrite add_rows_app. eexists. split; [done|]. intros _. exists k, w. split_and!; [done..|].
    cbn. by rewrite bool_decide_eq_true_2.
  - intros [= <- <-]. rewrite add_rows_app. by eexists.
Qed.

(** The fork's branch is absent, at the parent it was to be cut at, or at a commit that could not be taken back;
    and the fork is still reserved. *)
Definition uncut (b parent : string) g g' : Prop :=
  aside g g' ∧
  (same_heads (g_repo g) (g_repo g') ∨ moves b None (Some parent) (g_repo g) (g_repo g') ∨
   ∃ c r1 e, repo_rewind b c parent r1 = (Raise e, g_repo g') ∧ moves b None (Some c) (g_repo g) (g_repo g')).

Lemma split_commit_spec (b parent c : string) r1 r2 (body : Io Gate unit) g :
  moves b None (Some parent) (g_repo g) r1 → moves b (Some parent) (Some c) r1 r2 →
  (∃ x new, body (set_repo r2 (set_repo r1 g)) = (x, add_rows new (set_repo r2 (set_repo r1 g)))) →
  (∃ g2, or_rewind b c parent body (set_repo r2 (set_repo r1 g)) = (Ok (), g2) ∧
         body (set_repo r2 (set_repo r1 g)) = (Ok (), g2)) ∨
  (∃ e g2, or_rewind b c parent body (set_repo r2 (set_repo r1 g)) = (Raise e, g2) ∧ uncut b parent g g2).
Proof.
  intros Hm1 Hm2 Hb.
  destruct (or_rewind_spec b c parent body (set_repo r1 g) (set_repo r2 (set_repo r1 g)))
    as [?|(e & e' & g2 & new & Eo & _ & Hs & _ & Has)]; try done; [by left|].
  right. exists e, g2. split; [done|]. split; [done|]. right. destruct Hs as [Hs|(c' & r0 & e0 & Er & Hm)].
  - left. destruct Hm1 as (H1 & H2 & H3). split_and!; [done|by rewrite (Hs b)|]. intros b' Hb'. rewrite (Hs b'). by apply H3.
  - right. exists c', r0, e0. split; [done|]. by eapply moves_then.
Qed.

(** A fork lands whole or is taken back.  [land_split] answers true exactly for a reserved fork whose branch it cut,
    new, with one commit on the candidate's parent, after writing the case of its fix, the judgement that names
    the commit and the split; the reservation is then gone.  It answers false for a branch no fork waits on,
    changing nothing.  When it raises, the fork is still reserved, and its branch is absent or at the parent, or at
    a commit when taking that back raised.  No other branch moves and the scheduler is untouched. *)
Theorem split_lands_whole (b : string) g r g' :
  land_split b g = (r, g') →
  match r with
  | Ok true => ∃ v f c rows, dget b (g_reserved g) = Some v ∧ rs_fix v = Some f ∧
      moves b None (Some c) (g_repo g) (g_repo g') ∧ g_rows g' = g_rows g ++ rows ∧ split_rows b c v f rows ∧
      g_reserved g' = ddel b (g_reserved g) ∧ g_sched g' = g_sched g
  | Ok false => g' = g ∧ dget b (g_reserved g) ≫= rs_fix = None
  | Raise _ => ∃ v, dget b (g_reserved g) = Some v ∧ uncut b (tr_parent_commit (rs_request v)) g g'
  end.
Proof.
  unfold land_split. destruct (dget b (g_reserved g)) as [[q j reason [f|]]|] eqn:Ed; [|by intros [= <- <-]..].
  set (v := {| rs_request := q |}) in *.
  assert (∀ g2, aside g g2 → same_heads (g_repo g) (g_repo g2) → ∃ v', Some v = Some v' ∧
    uncut b (tr_parent_commit (rs_request v')) g g2) as Hback by (intros; exists v; split; [done|by split; [|left]]).
  destruct (read_recipe (g_repo g) (tr_parent_commit q)) as [rc|e] eqn:Erd; cbn [mbind res_bind];
    [|intros [= <- <-]; by apply Hback].
  destruct (apply_delta rc (tr_delta q)) as [recipe|e]; [|intros [= <- <-]; by apply Hback].
  unfold mbind, io_bind, mret, io_ret. unfold on_repo at 1.
  destruct (create_branch b (tr_parent_commit q) (g_repo g)) as [[[]|e] r1] eqn:Ec; apply create_law in Ec as [Hk1 Hm1];
    [|intros [= <- <-]; by apply Hback].
  unfold on_repo at 1. cbn [g_repo set_repo].
  destruct (repo_commit b (tr_parent_commit q) recipe _ r1) as [[c|e] r2] eqn:Ecm; apply commit_law in Ecm as [Hk2 Hm2].
  2:{ intros [= <- <-]. exists v. split; [done|]. split; [done|]. right. left. destruct Hm1 as (H1 & H2 & H3).
      split_and!; [done|etrans; [apply Hm2|exact H2]|]. intros b' Hb. rewrite <- (H3 b' Hb). apply Hm2. }
  destruct (split_commit_spec b (tr_parent_commit q) c r1 r2 (split_writes b c (digest recipe) v f) g)
    as [(g2 & Eo & Eb)|(e & g2 & Eo & Ht)]; try done.
  { destruct (split_writes b c (digest recipe) v f _) as [x g2] eqn:E.
    destruct (split_writes_spec _ _ _ _ _ _ _ _ E) as (new & -> & _). by eexists _, _. }
  - unfold split_writes, mbind, io_bind in Eo. cbn [rs_request rs_judgement rs_reason v] in Eo. rewrite Eo.
    intros [= <- <-]. apply split_writes_spec in Eb as (rows & -> & Hrows).
    exists v, f, c, rows. split_and!; try done; [by eapply moves_then|by apply Hrows].
  - unfold split_writes, mbind, io_bind in Eo. cbn [rs_request rs_judgement rs_reason v] in Eo. rewrite Eo.
    intros [= <- <-]. by exists v.
Qed.
End gate.

(** ** The fork desk as the scheduler, and a gate in memory *)

Definition desk_service {F D} `{!FloatOps F} `{!EqDecision F} `{!EqDecision D} (sha256 : string → string)
    (fp : D → string) : ForkAdmissionService (Desk (F := F) (D := D)) F D := {|
  svc_admit := λ d q t, admit_fork d q t;
  svc_admit_repair := λ d q t, admit_repair sha256 fp d q t
|}.

Module GateDemo.
Abbreviation Q := QArith_base.Q.
#[global] Instance repo : ExperimentRepo GitDemo.MemGit string := git_repo id Ok.
#[global] Instance repo_laws : ExperimentRepoLaws GitDemo.MemGit string := git_repo_laws id Ok.
#[global] Instance sched : ForkAdmissionService (Desk (F := Q) (D := string)) Q string := desk_service id id.
Definition apply_delta (rc d : string) : res string := Ok (rc +:+ "+" +:+ d).
Definition digest (rc : string) : string := rc.
Definition verified (_ : string) : res unit := Ok ().
Definition tampered (id : string) : res unit := Raise (ResultUnverified id).
Definition fmt (_ : Q) : string := "+5.00".
Definition takes (_ : list (Write (F := Q))) (_ : Write (F := Q)) : option (exn * bool) := None.
Definition request (kind : TestKind) (id : string) : TestRequest string :=
  {| tr_kind := kind; tr_purpose := P_EXPLORE; tr_branch_id := "b01"; tr_parent_commit := GitDemo.root;
     tr_delta := "fuse"; tr_intent_fingerprint := None; tr_priority := None; tr_retest_of := None;
     tr_avoid_nodes := []; tr_accuracy := true; tr_concurrency := []; tr_attachments := []; tr_request_id := Some id;
     tr_diff_ref := EmptyString; tr_consistency_check := None; tr_long_context_check := None |}.
Definition judged (v : Verdict) (fixes : bool) : Judgement Q :=
  {| ju_verdict := v; ju_gain_pct := f_of_Z 5; ju_threshold_pct := f_of_Z 1; ju_request_ids := ["r1"];
     ju_recorded_value := []; ju_accuracy := A_PASSED; ju_refused_by := []; ju_fixes_correctness := fixes;
     ju_foundation_fix := false |}.
Definition records (id : string) : res (TestRecord (D := string)) :=
  Ok {| te_request := request K_REPRO id; te_verdict := Some NOT_REPRODUCED |}.
Definition proof : FixProof := {| fp_candidate_request_id := "r2" |}.
Definition gate : Gate (F := Q) (D := string) := {| g_repo := GitDemo.g0; g_rows := []; g_sched := DeskDemo.d2; g_reserved := [] |}.

(** An improved candidate is settled; a regressing correctness fix asks for a fork, which is then landed. *)
Definition committed := settle apply_delta digest verified fmt takes records
  (request K_TEST "r1") (judged V_IMPROVED false) None gate.
Definition forked := fork verified fzero takes (request K_TEST "r1") (judged V_REGRESSED true) "fix" (Some proof) gate.
Definition split := land_split apply_delta digest takes records "b02" forked.2.
End GateDemo.


Lemma unverified_asks_nothing_witness :
  ∃ e new, fork GateDemo.tampered fzero GateDemo.takes (GateDemo.request K_TEST "r1") (GateDemo.judged V_REGRESSED true)
             "fix" (Some GateDemo.proof) GateDemo.gate = (Raise e, add_rows new GateDemo.gate) ∧
           Forall (λ w, no_commit w = true) new.
Proof.
  apply (unverified_asks_nothing GateDemo.apply_delta GateDemo.digest GateDemo.tampered fzero GateDemo.fmt GateDemo.takes
    GateDemo.records (GateDemo.request K_TEST "r1") (GateDemo.judged V_REGRESSED true) DeskDemo.intent (Some GateDemo.proof)
    "fix" "why" GateDemo.gate). reflexivity.
Defined.

Lemma split_lands_whole_witness :
  ∃ g', GateDemo.split = (Ok true, g') ∧
  ∃ v f c rows, dget "b02" (g_reserved GateDemo.forked.2) = Some v ∧ rs_fix v = Some f ∧
    moves "b02" None (Some c) (g_repo GateDemo.forked.2) (g_repo g') ∧ g_rows g' = g_rows GateDemo.forked.2 ++ rows ∧
    split_rows "b02" c v f rows ∧ g_reserved g' = ddel "b02" (g_reserved GateDemo.forked.2) ∧
    g_sched g' = g_sched GateDemo.forked.2.
Proof.
  eexists. split; [vm_compute; reflexivity|].
  apply (split_lands_whole GateDemo.apply_delta GateDemo.digest GateDemo.takes GateDemo.records "b02" GateDemo.forked.2
    (Ok true)). vm_compute. reflexivity.
Defined.
