(* ===== verification/Claims.v ===== *)
(** * Claims

    [blackboard/local/claims.py] and the claim calls of [blackboard/local/blackboard.py]: which branch holds which
    (parent commit, intent) key.  Every change of a claim creates the next generation file exclusively, so that two
    writers racing on one claim, on any hosts of a shared folder, cannot both win.

    The claims folder is a map from a file's token and generation to the claim in it; a generation file is linked into
    place complete and is never written again ([publish_once]).  A call is a client that reads the generation in force
    and then publishes; between the two any other client may run. *)

From stdpp Require Import base list strings pretty relations sets gmap.
From Stdlib Require Import ZArith Lia.
From S2P Require Import Prelude PyFloat PyVal Dicts ForkContracts.

Inductive ClaimStatus := CL_HELD | CL_COMPLETED | CL_RELEASED | CL_EXPIRED.
#[global] Instance ClaimStatus_eq_dec : EqDecision ClaimStatus.
Proof. solve_decision. Defined.
Definition claim_status_value (s : ClaimStatus) : string :=
  match s with CL_HELD => "held" | CL_COMPLETED => "completed" | CL_RELEASED => "released" | CL_EXPIRED => "expired" end.

Inductive Role := R_TOOLBOX | R_GATE | R_INTEGRATOR | R_SCHEDULER | R_SPECIALIST_RUNTIME | R_OBSERVER.
#[global] Instance Role_eq_dec : EqDecision Role.
Proof. solve_decision. Defined.
Record Writer := { wr_role : Role; wr_name : string; wr_branch : string }.

Record ClaimKey := { ck_parent_commit : string; ck_intent_fingerprint : string }.
#[global] Instance ClaimKey_eq_dec : EqDecision ClaimKey.
Proof. solve_decision. Defined.

Section claims.
Context {F : Type} `{!FloatOps F}.
(** [sha256(parent + "\0" + fingerprint)[:24]]: the file-name-safe name of a key. *)
Context (token : ClaimKey → string).

Record Claim := {
  cl_key : ClaimKey;
  cl_holder : string;
  cl_intent : Intent F;
  cl_action_fingerprint : string;
  cl_ttl_seconds : F;
  cl_acquired_at : F;
  cl_heartbeat_at : F;
  cl_expires_at : F;
  cl_status : ClaimStatus;
  cl_request_id : option string;
  cl_generation : Z
}.
Implicit Types (c p : Claim) (now : F) (k : ClaimKey).

Definition with_generation (g : Z) c : Claim :=
  {| cl_key := cl_key c; cl_holder := cl_holder c; cl_intent := cl_intent c;
     cl_action_fingerprint := cl_action_fingerprint c; cl_ttl_seconds := cl_ttl_seconds c;
     cl_acquired_at := cl_acquired_at c; cl_heartbeat_at := cl_heartbeat_at c; cl_expires_at := cl_expires_at c;
     cl_status := cl_status c; cl_request_id := cl_request_id c; cl_generation := g |}.
Definition with_status (s : ClaimStatus) (request : option string) (heartbeat : F) c : Claim :=
  {| cl_key := cl_key c; cl_holder := cl_holder c; cl_intent := cl_intent c;
     cl_action_fingerprint := cl_action_fingerprint c; cl_ttl_seconds := cl_ttl_seconds c;
     cl_acquired_at := cl_acquired_at c; cl_heartbeat_at := heartbeat; cl_expires_at := cl_expires_at c;
     cl_status := s; cl_request_id := request; cl_generation := cl_generation c |}.
Definition with_lease (request : option string) (heartbeat expires : F) c : Claim :=
  {| cl_key := cl_key c; cl_holder := cl_holder c; cl_intent := cl_intent c;
     cl_action_fingerprint := cl_action_fingerprint c; cl_ttl_seconds := cl_ttl_seconds c;
     cl_acquired_at := cl_acquired_at c; cl_heartbeat_at := heartbeat; cl_expires_at := expires;
     cl_status := cl_status c; cl_request_id := request; cl_generation := cl_generation c |}.

Definition is_live c now : bool := bool_decide (cl_status c = CL_HELD) && fltb now (cl_expires_at c).
Definition effective c now : Claim :=
  if bool_decide (cl_status c = CL_HELD) && fleb (cl_expires_at c) now
  then with_status CL_EXPIRED (cl_request_id c) (cl_heartbeat_at c) c else c.

(** ** The claims folder *)

Local Notation Files := (gmap (string * Z) Claim).
Implicit Types (fs : Files) (tok : string).

(** [_NAME]: a generation is read back only from a name with exactly [_GENERATION_DIGITS] digits. *)
Definition GENERATIONS : Z := 1000000.
Definition readable (g : Z) : bool := (0 <=? g)%Z && (g <? GENERATIONS)%Z.
Definition generations fs tok : list Z :=
  filter (λ g, readable g = true) ((filter (λ f, f.1 = tok) (map_to_list fs).*1).*2).
Definition newest (gs : list Z) : option Z :=
  foldr (λ g acc, Some match acc with Some m => Z.max g m | None => g end) None gs.
Definition current fs tok : option Claim :=
  match newest (generations fs tok) with Some g => fs !! (tok, g) | None => None end.

(** [all_current]: the generation in force on every claimed key, sorted by token. *)
Definition tokens fs : list string :=
  sorted_set (filter (λ f, readable f.2 = true) (map_to_list fs).*1).*1.
Definition all_current fs : list Claim := omap (current fs) (tokens fs).

(** ** A call as a client of the folder *)

Inductive Op :=
| OpAcquire (c : Claim) (now : F)
| OpChange (k : ClaimKey) (update : Claim → res Claim).
Inductive Outcome := Won (c : Claim) | Taken (c : Claim) | Lost (e : exn).
(** Before the next read, with the reads left; before publishing; at the end. *)
Inductive Pc := P_READ (left : nat) | P_WRITE (left : nat) (c : Claim) | P_DONE (o : Outcome).

Definition CHANGE_ATTEMPTS : nat := 8.
Definition op_token (o : Op) : string := match o with OpAcquire c _ => token (cl_key c) | OpChange k _ => token k end.

Definition client_step (o : Op) (pc : Pc) fs : Pc * Files :=
  match pc, o with
  | P_READ n, OpAcquire c now =>
      (match current fs (token (cl_key c)) with
       | Some p => if is_live p now then P_DONE (Taken p) else P_WRITE n (with_generation (cl_generation p + 1) c)
       | None => P_WRITE n (with_generation (0 + 1) c)
       end, fs)
  | P_READ n, OpChange k update =>
      (match n with
       | O => P_DONE (Lost (ClaimLost ("the claim on " +:+ ck_parent_commit k +:+ " kept changing under "
                                       +:+ pretty CHANGE_ATTEMPTS +:+ " attempts")))
       | S n' =>
           match current fs (token k) with
           | None => P_DONE (Lost (ClaimLost ("nobody claimed " +:+ ck_intent_fingerprint k +:+ " on " +:+ ck_parent_commit k)))
           | Some p => match update p with
                       | Ok c => P_WRITE n' (with_generation (cl_generation p + 1) c)
                       | Raise e => P_DONE (Lost e)
                       end
           end
       end, fs)
  | P_WRITE n c, o =>
      match fs !! (op_token o, cl_generation c) with
      | None => (P_DONE (Won c), <[(op_token o, cl_generation c) := c]> fs)
      | Some there => (match o with OpAcquire _ _ => P_DONE (Taken there) | OpChange _ _ => P_READ n end, fs)
      end
  | P_DONE out, _ => (pc, fs)
  end.

(** A call that no other client interrupts. *)
Definition start : Pc := P_READ CHANGE_ATTEMPTS.
Definition call (o : Op) fs : Pc * Files := Nat.iter (2 * CHANGE_ATTEMPTS + 1) (λ s, client_step o s.1 s.2) (start, fs).

(** ** The claim calls of the blackboard *)

Definition not_held c : bool := negb (bool_decide (cl_status c = CL_HELD)).

(** [_check_holds] *)
Definition check_holds (w : Writer) c : res unit :=
  let ours := bool_decide (wr_role w = R_SCHEDULER)
    || (bool_decide (wr_role w = R_SPECIALIST_RUNTIME) && bool_decide (cl_holder c = wr_branch w))
    || (bool_decide (wr_role w = R_TOOLBOX) && bool_decide (is_Some (cl_request_id c))) in
  raise_if (not_held c || negb ours)
    (ClaimLost ("the claim on " +:+ ck_parent_commit (cl_key c) +:+ " is not " +:+ wr_name w +:+ "'s to change")).
(** [_released] *)
Definition released now c : res Claim :=
  if not_held c
  then Raise (ClaimLost ("the claim on " +:+ ck_parent_commit (cl_key c) +:+ " is " +:+ claim_status_value (cl_status c)))
  else Ok (with_status CL_RELEASED (cl_request_id c) now c).
(** The closures of [renew], [release], [attach_request] and [_settle_claim]. *)
Definition renewed (w : Writer) now (ttl : F) c : res Claim :=
  _ ← check_holds w c; Ok (with_lease (cl_request_id c) now (fadd now ttl) c).
Definition release_update (w : Writer) now c : res Claim := _ ← check_holds w c; released now c.
Definition measures (branch request : string) c : bool :=
  bool_decide (cl_holder c = branch) &&
  (bool_decide (cl_request_id c = None) || bool_decide (cl_request_id c = Some request)).
Definition attached k (branch request : string) now (ttl : F) c : res Claim :=
  if not_held c || negb (measures branch request c)
  then Raise (ClaimLost ("the claim on " +:+ ck_parent_commit k +:+ " is not the one " +:+ request +:+ " measures"))
  else Ok (with_lease (Some request) now (fadd now ttl) c).
Definition settle_update (branch request : string) (s : ClaimStatus) now c : res Claim :=
  if not_held c || negb (measures branch request c)
  then Raise (ClaimLost ("the claim on " +:+ ck_parent_commit (cl_key c) +:+ " is not the claim of " +:+ request))
  else Ok (with_status s (Some request) now c).
(** [release_branch]: the keys it lists, each then released by a call of its own. *)
Definition release_branch_keys fs (branch : string) : list ClaimKey :=
  cl_key <$> filter (λ c, cl_holder c = branch ∧ cl_status c = CL_HELD) (all_current fs).
Definition release_branch_op now (k : ClaimKey) : Op := OpChange k (released now).

(** ** Racing clients *)

Definition Session : Type := Files * list (Op * Pc).
Inductive session_step : Session → Session → Prop :=
| one_client fs cs i o pc pc' fs' :
    cs !! i = Some (o, pc) → client_step o pc fs = (pc', fs') → session_step (fs, cs) (fs', <[i := (o, pc')]> cs).
Definition session_start (ops : list Op) : Session := (∅, (λ o, (o, start)) <$> ops).

(** How a generation comes from the one before it: an acquire takes a key nobody holds at its time, a change is its
    update of that very generation. *)
Definition follows (o : Op) (before : option Claim) c : Prop :=
  match o with
  | OpAcquire wanted now =>
      c = with_generation (default 0%Z (cl_generation <$> before) + 1) wanted ∧
      ∀ p, before = Some p → is_live p now = false
  | OpChange _ update =>
      ∃ p c', before = Some p ∧ update p = Ok c' ∧ c = with_generation (cl_generation p + 1) c'
  end.
Definition link fs (o : Op) c : Prop :=
  follows o (fs !! (op_token o, cl_generation c - 1)%Z) c ∧ (1 ≤ cl_generation c ≤ GENERATIONS)%Z ∧
  (cl_generation c = 1%Z ∨ is_Some (fs !! (op_token o, cl_generation c - 1)%Z)).

(** The generations of a key are numbered from 1 without a gap, and a file is named after its claim. *)
Definition folder_ok fs : Prop :=
  (∀ tok g, is_Some (fs !! (tok, g)) → (1 ≤ g)%Z ∧ (g = 1%Z ∨ is_Some (fs !! (tok, g - 1)%Z))) ∧
  (∀ tok g c, fs !! (tok, g) = Some c → cl_generation c = g).

Definition client_ok fs (x : Op * Pc) : Prop :=
  match x.2 with
  | P_READ _ => True
  | P_WRITE _ c => link fs x.1 c
  | P_DONE (Won c) => link fs x.1 c ∧ fs !! (op_token x.1, cl_generation c) = Some c
  | P_DONE (Taken c) => fs !! (op_token x.1, cl_generation c) = Some c
  | P_DONE (Lost _) => True
  end.
Definition wins (x : Op * Pc) tok c : Prop := x.2 = P_DONE (Won c) ∧ op_token x.1 = tok.

Record session_ok (s : Session) : Prop := {
  so_folder : folder_ok s.1;
  so_clients : Forall (client_ok s.1) s.2;
  so_author : ∀ tok g c, s.1 !! (tok, g) = Some c → ∃ i x, s.2 !! i = Some x ∧ wins x tok c;
  so_unique : ∀ i j x y tok c c', s.2 !! i = Some x → s.2 !! j = Some y → wins x tok c → wins y tok c' →
              cl_generation c = cl_generation c' → i = j
}.

Lemma elem_of_generations fs tok g : g ∈ generations fs tok ↔ readable g = true ∧ is_Some (fs !! (tok, g)).
Proof.
  unfold generations. rewrite list_elem_of_filter, list_elem_of_fmap. split.
  - intros [Hr ([tok' g'] & -> & [Ht H]%list_elem_of_filter)]. simpl in Ht. subst tok'. split; [done|].
    apply list_elem_of_fmap in H as ([f c] & Hf & H%elem_of_map_to_list). simpl in Hf, H. subst f. by exists c.
  - intros [Hr [c H]]. split; [done|]. exists (tok, g). split; [done|]. apply list_elem_of_filter. split; [done|].
    apply list_elem_of_fmap. exists (tok, g, c). split; [done|]. by apply elem_of_map_to_list.
Qed.

Lemma newest_spec gs : match newest gs with Some m => m ∈ gs ∧ ∀ g, g ∈ gs → (g ≤ m)%Z | None => gs = [] end.
Proof.
  induction gs as [|g gs IH]; [done|].
  change (newest (g :: gs)) with (Some match newest gs with Some m => Z.max g m | None => g end).
  destruct (newest gs) as [m|].
  - destruct IH as [Hin Hle]. split.
    + destruct (Z.max_spec g m) as [[_ ->]|[_ ->]]; [by right|by left].
    + intros g' [->|H]%elem_of_cons; [lia|]. specialize (Hle _ H). lia.
  - subst gs. split; [by left|]. intros g' [->|[]%not_elem_of_nil]%elem_of_cons. lia.
Qed.

Lemma current_some fs tok p : folder_ok fs → current fs tok = Some p →
  fs !! (tok, cl_generation p) = Some p ∧ readable (cl_generation p) = true.
Proof.
  intros [_ Hg]. unfold current. pose proof (newest_spec (generations fs tok)) as Hn.
  destruct (newest _) as [m|]; [|done]. destruct Hn as [[Hr _]%elem_of_generations _]. intros H.
  by rewrite (Hg _ _ _ H).
Qed.

Lemma current_none fs tok g : current fs tok = None → readable g = true → fs !! (tok, g) = None.
Proof.
  unfold current. pose proof (newest_spec (generations fs tok)) as Hn. intros H Hr.
  destruct (fs !! (tok, g)) as [d|] eqn:E; [|done]. assert (g ∈ generations fs tok) as Hin by (apply elem_of_generations; eauto).
  destruct (newest _) as [m|]; [|rewrite Hn in Hin; by apply not_elem_of_nil in Hin].
  destruct Hn as [[_ [c Hc]]%elem_of_generations _]. congruence.
Qed.

(** A new file keeps what was linked: generations are never rewritten, and none is numbered 0. *)
Lemma link_insert fs o c tok g d : folder_ok fs → fs !! (tok, g) = None → g ≠ 0%Z →
  link fs o c → link (<[(tok, g) := d]> fs) o c.
Proof.
  intros [Hd _] Hn Hg (Hf & Hr & Hs).
  assert (<[(tok, g) := d]> fs !! (op_token o, cl_generation c - 1)%Z = fs !! (op_token o, cl_generation c - 1)%Z) as E.
  { apply lookup_insert_ne. intros [= -> ->]. destruct Hs as [?|[? ?]]; [lia|congruence]. }
  unfold link. by rewrite E.
Qed.

Lemma client_ok_insert fs x tok g d : folder_ok fs → fs !! (tok, g) = None → g ≠ 0%Z →
  client_ok fs x → client_ok (<[(tok, g) := d]> fs) x.
Proof.
  intros Hf Hn Hg. unfold client_ok. destruct x as [o [|n c|[c|c|e]]]; cbn [fst snd]; try done.
  - by apply link_insert.
  - intros [? H]. split; [by apply link_insert|]. rewrite lookup_insert_ne; congruence.
  - intros H. rewrite lookup_insert_ne; congruence.
Qed.

(** A read prepares the generation after the one in force. *)
Lemma client_read_ok fs o n pc' fs' : folder_ok fs → client_step o (P_READ n) fs = (pc', fs') →
  fs' = fs ∧ client_ok fs (o, pc') ∧ ∀ c, pc' ≠ P_DONE (Won c).
Proof.
  intros Hf. pose proof Hf as [Hd Hgen]. destruct o as [w now|k update]; cbn [client_step].
  - destruct (current fs (token (cl_key w))) as [p|] eqn:E; intros [= <- <-].
    + destruct (current_some _ _ _ Hf E) as [Hp Hr]. destruct (is_live p now) eqn:El; (split; [done|split; [|done]]); [done|].
      unfold client_ok, link. cbn [snd fst op_token cl_generation with_generation].
      replace (cl_generation p + 1 - 1)%Z with (cl_generation p) by lia. rewrite Hp.
      unfold readable in Hr. apply andb_true_iff in Hr as [H1%Z.leb_le H2%Z.ltb_lt].
      split_and!; [split; [done|by intros ? [= <-]]|lia..|right; eauto].
    + split; [done|split; [|done]]. unfold client_ok, link. cbn [snd fst op_token cl_generation with_generation].
      rewrite (current_none _ _ (0 + 1 - 1) E) by done. split_and!; [by split|done..|by left].
  - destruct n as [|n]; [intros [= <- <-]; by split_and!|].
    destruct (current fs (token k)) as [p|] eqn:E; [|intros [= <- <-]; by split_and!].
    destruct (update p) as [c|e] eqn:Eu; intros [= <- <-]; (split; [done|split; [|done]]); [|done].
    destruct (current_some _ _ _ Hf E) as [Hp Hr]. unfold client_ok, link. cbn [snd fst op_token cl_generation with_generation].
    replace (cl_generation p + 1 - 1)%Z with (cl_generation p) by lia. rewrite Hp.
    unfold readable in Hr. apply andb_true_iff in Hr as [H1%Z.leb_le H2%Z.ltb_lt].
    split_and!; [by exists p, c|lia..|right; eauto].
Qed.

Lemma folder_insert fs o c : folder_ok fs → link fs o c → fs !! (op_token o, cl_generation c) = None →
  folder_ok (<[(op_token o, cl_generation c) := c]> fs).
Proof.
  intros [Hd Hg] (_ & Hr & Hs) Hn. split.
  - intros tok g [d H]. apply lookup_insert_Some in H as [[[= <- <-] <-]|[Hne H]].
    + split; [lia|]. destruct Hs as [?|Hs]; [by left|right]. rewrite lookup_insert_ne; [done|]. intros [= ?]. lia.
    + destruct (Hd tok g) as [? Hs']; [by exists d|]. split; [done|]. destruct Hs' as [?|[d' Hs']]; [by left|right].
      exists d'. rewrite lookup_insert_ne; [done|]. congruence.
  - intros tok g d [[[= <- <-] <-]|[Hne H]]%lookup_insert_Some; [done|eauto].
Qed.

Lemma session_ok_start ops : session_ok (session_start ops).
Proof.
  split; cbn [fst snd session_start].
  - split; intros tok g; rewrite lookup_empty; [by intros [? ?]|done].
  - apply Forall_fmap, Forall_forall. done.
  - intros tok g c. by rewrite lookup_empty.
  - intros i j x y tok c c' Hi _ [Hx _]. rewrite list_lookup_fmap in Hi. destruct (ops !! i); [|done].
    injection Hi as <-. done.
Qed.

(** Publishing a generation that is not there yet. *)
Lemma session_ok_publish fs cs i o n c :
  session_ok (fs, cs) → cs !! i = Some (o, P_WRITE n c) → fs !! (op_token o, cl_generation c) = None →
  session_ok (<[(op_token o, cl_generation c) := c]> fs, <[i := (o, P_DONE (Won c))]> cs).
Proof.
  intros [Hf Hc Ha Hu] Hi Hn. cbn [fst snd] in *. assert (i < length cs)%nat as Hlt by by eapply lookup_lt_Some.
  pose proof (Forall_lookup_1 _ _ _ _ Hc Hi) as Hlink. cbn in Hlink. assert (cl_generation c ≠ 0%Z) as Hnz by (destruct Hlink; lia).
  assert (∀ j x tok d, <[i := (o, P_DONE (Won c))]> cs !! j = Some x → wins x tok d →
    (j = i ∧ d = c ∧ tok = op_token o) ∨ (j ≠ i ∧ cs !! j = Some x ∧ fs !! (tok, cl_generation d) = Some d)) as Hwin.
  { intros j x tok d Hj Hx. destruct (decide (j = i)) as [->|Hne].
    - rewrite list_lookup_insert_eq in Hj by done. injection Hj as <-. destruct Hx as [[= ->] <-]. by left.
    - rewrite list_lookup_insert_ne in Hj by done. right. split_and!; [done..|].
      pose proof (Forall_lookup_1 _ _ _ _ Hc Hj) as Hx'. destruct x as [o' pc], Hx as [Hpc <-]. cbn in Hpc. subst pc.
      by destruct Hx'. }
  split; cbn [fst snd].
  - by apply folder_insert.
  - apply Forall_insert.
    + eapply Forall_impl; [exact Hc|]. intros x. by apply client_ok_insert.
    + split; [by apply link_insert|]. apply lookup_insert_eq.
  - intros tok g d [[[= <- <-] <-]|[Hne H]]%lookup_insert_Some.
    + exists i, (o, P_DONE (Won c)). split; [by apply list_lookup_insert_eq|done].
    + destruct (Ha _ _ _ H) as (j & x & Hj & Hx). exists j, x. split; [|done]. rewrite list_lookup_insert_ne; [done|].
      intros ->. rewrite Hi in Hj. injection Hj as <-. by destruct Hx.
  - intros j1 j2 x y tok d d' H1 H2 Hx Hy Hgen.
    destruct (Hwin _ _ _ _ H1 Hx) as [(-> & -> & ->)|(Hn1 & Hj1 & Hf1)], (Hwin _ _ _ _ H2 Hy) as [(-> & -> & Ht)|(Hn2 & Hj2 & Hf2)].
    + done.
    + rewrite <- Hgen in Hf2. congruence.
    + subst tok. rewrite Hgen in Hf1. congruence.
    + eapply Hu; eauto.
Qed.

Lemma session_ok_step s s' : session_ok s → session_step s s' → session_ok s'.
Proof.
  intros [Hf Hc Ha Hu] Hstep. destruct Hstep as [fs cs i o pc pc' fs' Hi E]. cbn [fst snd] in *.
  pose proof (Forall_lookup_1 _ _ _ _ Hc Hi) as Hok.
  assert (i < length cs)%nat as Hlt by by eapply lookup_lt_Some.
  assert ((∀ c, pc' ≠ P_DONE (Won c)) ∧ (∀ c, pc ≠ P_DONE (Won c)) → client_ok fs (o, pc') → fs' = fs →
    session_ok (fs', <[i := (o, pc')]> cs)) as Hquiet.
  { intros [Hw' Hw] Hok' ->. split; cbn [fst snd]; [done|by apply Forall_insert|..].
    - intros tok g c H. destruct (Ha _ _ _ H) as (j & x & Hj & Hx). exists j, x. split; [|done].
      rewrite list_lookup_insert_ne; [done|]. intros ->. rewrite Hi in Hj. injection Hj as <-. by destruct (Hw c), Hx.
    - intros j1 j2 x y tok c c' H1 H2 Hx Hy.
      assert (∀ j z d, <[i := (o, pc')]> cs !! j = Some z → wins z tok d → cs !! j = Some z) as Hold.
      { intros j z d Hj Hz. destruct (decide (j = i)) as [->|]; [|by rewrite list_lookup_insert_ne in Hj].
        rewrite list_lookup_insert_eq in Hj by done. injection Hj as <-. by destruct (Hw' d), Hz. }
      eapply (Hu j1 j2 x y); eauto. }
  destruct pc as [n|n c|out]; [|cbn [client_step] in E; destruct (fs !! (op_token o, cl_generation c)) as [there|] eqn:El|].
  - destruct (client_read_ok _ _ _ _ _ Hf E) as (-> & ? & ?). by apply Hquiet.
  - pose proof Hf as [_ Hg]. pose proof (Hg _ _ _ El) as Hthere. rewrite <- Hthere in El.
    destruct o; injection E as <- <-; apply Hquiet; done.
  - injection E as <- <-. by eapply session_ok_publish.
  - cbn [client_step] in E. injection E as <- <-. rewrite list_insert_id by done. done.
Qed.

(** C1: Racing calls on claims behave as if each took effect at once.  Whatever the interleaving of the reads and writes of
    any number of acquires and changes, on any keys, from an empty folder: the generations of every key are numbered
    from 1 without a gap; every generation was made by exactly one call, whose answer it is; it follows the generation
    just before it, as an acquire of a key that was not held at the acquire's time or as its change's update of that
    very generation; and a call told that the key is taken was given a generation that is there. *)
Theorem claims_linear (ops : list Op) (s : Session) :
  rtc session_step (session_start ops) s →
  (∀ tok g, is_Some (s.1 !! (tok, g)) → (1 ≤ g ≤ GENERATIONS)%Z ∧ (g = 1%Z ∨ is_Some (s.1 !! (tok, g - 1)%Z))) ∧
  (∀ tok g c, s.1 !! (tok, g) = Some c →
     cl_generation c = g ∧
     ∃ i o, s.2 !! i = Some (o, P_DONE (Won c)) ∧ op_token o = tok ∧ follows o (s.1 !! (tok, g - 1)%Z) c ∧
       ∀ j o' c', s.2 !! j = Some (o', P_DONE (Won c')) → op_token o' = tok → cl_generation c' = g → j = i) ∧
  (∀ i o c, s.2 !! i = Some (o, P_DONE (Won c)) ∨ s.2 !! i = Some (o, P_DONE (Taken c)) →
     s.1 !! (op_token o, cl_generation c) = Some c).
Proof.
  intros Hrun. assert (session_ok s) as [[Hd Hg] Hc Ha Hu].
  { apply (rtc_preserves session_step session_ok _ _ session_ok_step) in Hrun; [done|]. apply session_ok_start. }
  rewrite Forall_lookup in Hc. split_and!.
  - intros tok g [c H]. destruct (Hd tok g) as [Hge Hs]; [by exists c|]. split; [|done]. split; [done|].
    destruct (Ha _ _ _ H) as (i & [o pc] & Hi & Hpc & Ht). cbn in Hpc, Ht. subst pc tok.
    destruct (Hc _ _ Hi) as [(_ & [_ ?] & _) _]. cbn in *. by rewrite <- (Hg _ _ _ H).
  - intros tok g c H. pose proof (Hg _ _ _ H) as Hgen. split; [done|].
    destruct (Ha _ _ _ H) as (i & [o pc] & Hi & Hpc & Ht). cbn in Hpc, Ht. subst pc tok.
    destruct (Hc _ _ Hi) as [(Hfol & _ & _) _]. cbn in Hfol. rewrite Hgen in Hfol. exists i, o. split_and!; [done..|].
    intros j o' c' Hj Ht Hg'. eapply (Hu j i (o', _) (o, _) (op_token o) c' c); try done. by rewrite Hgen.
  - intros i o c [Hi|Hi]; [by destruct (Hc _ _ Hi)|exact (Hc _ _ Hi)].
Qed.

(** ** Holders *)

(** The calls the blackboard makes; an acquire asks for a held claim. *)
Inductive blackboard_op : Op → Prop :=
| bo_acquire c now : cl_status c = CL_HELD → blackboard_op (OpAcquire c now)
| bo_renew k w now ttl : blackboard_op (OpChange k (renewed w now ttl))
| bo_release k w now : blackboard_op (OpChange k (release_update w now))
| bo_attach k branch request now ttl : blackboard_op (OpChange k (attached k branch request now ttl))
| bo_settle k branch request st now : blackboard_op (OpChange k (settle_update branch request st now))
| bo_release_branch k now : blackboard_op (release_branch_op now k).

Lemma held c : not_held c = false → cl_status c = CL_HELD.
Proof. unfold not_held. by case_bool_decide. Qed.

Lemma check_holds_ok w c : check_holds w c = Ok () →
  cl_status c = CL_HELD ∧ (wr_role w = R_SPECIALIST_RUNTIME → cl_holder c = wr_branch w).
Proof.
  unfold check_holds, raise_if. destruct (not_held c) eqn:En; [done|]. cbn. destruct (negb _) eqn:E; [done|].
  intros _. split; [by apply held|]. intros Hw. rewrite Hw in E. repeat case_bool_decide; done.
Qed.

Lemma update_keeps_holder o k update p c : blackboard_op o → o = OpChange k update → update p = Ok c →
  cl_holder c = cl_holder p ∧ cl_key c = cl_key p ∧ cl_status p = CL_HELD.
Proof.
  assert (∀ c now c', released now c = Ok c' → cl_holder c' = cl_holder c ∧ cl_key c' = cl_key c ∧ cl_status c = CL_HELD) as Hr.
  { intros x now x'. unfold released. destruct (not_held x) eqn:E; [done|]. intros [= <-]. split_and!; [done..|by apply held]. }
  intros Hb Ho. destruct Hb as [| | | | |]; unfold release_branch_op in Ho; simplify_eq.
  - unfold renewed. destruct (check_holds w p) as [[]|] eqn:E; [|done]. apply check_holds_ok in E as [? _]. by intros [= <-].
  - unfold release_update. destruct (check_holds w p) as [[]|] eqn:E; [|done]. cbn. apply Hr.
  - unfold attached. destruct (not_held p) eqn:E; [done|]. cbn. destruct (negb _); [done|]. intros [= <-].
    split_and!; [done..|by apply held].
  - unfold settle_update. destruct (not_held p) eqn:E; [done|]. cbn. destruct (negb _); [done|]. intros [= <-].
    split_and!; [done..|by apply held].
  - apply Hr.
Qed.

Lemma ops_kept s s' : rtc session_step s s' → s'.2.*1 = s.2.*1.
Proof.
  induction 1 as [|s1 s2 s3 Hstep _ IH]; [done|]. rewrite IH. destruct Hstep as [fs cs i o pc pc' fs' Hi _]. cbn.
  rewrite list_fmap_insert. apply list_insert_id. by rewrite list_lookup_fmap, Hi.
Qed.

(** A live claim stays with its holder.  In any interleaving of the blackboard's claim calls, of two consecutive
    generations of a key the second either continues a held claim, of the same key and holder, or is an acquire made
    at a time at which the first was not live: released, completed or expired. *)
Theorem claim_stays_with_holder (ops : list Op) (s : Session) tok g p c :
  Forall blackboard_op ops → rtc session_step (session_start ops) s →
  s.1 !! (tok, g) = Some p → s.1 !! (tok, g + 1)%Z = Some c →
  (cl_holder c = cl_holder p ∧ cl_key c = cl_key p ∧ cl_status p = CL_HELD) ∨
  (∃ i wanted now, s.2 !! i = Some (OpAcquire wanted now, P_DONE (Won c)) ∧ cl_holder c = cl_holder wanted ∧
                   is_live p now = false).
Proof.
  intros Hops Hrun Hp Hc. assert (session_ok s) as [[_ Hg] Hcl Ha _].
  { apply (rtc_preserves session_step session_ok _ _ session_ok_step) in Hrun; [done|]. apply session_ok_start. }
  destruct (Ha _ _ _ Hc) as (i & [o pc] & Hi & Hpc & Ht). cbn in Hpc, Ht. subst pc tok.
  pose proof (Forall_lookup_1 _ _ _ _ Hcl Hi) as [(Hfol & _) _]. cbn in Hfol.
  rewrite (Hg _ _ _ Hc) in Hfol. replace (g + 1 - 1)%Z with g in Hfol by lia. rewrite Hp in Hfol.
  assert (blackboard_op o) as Hbo.
  { apply ops_kept in Hrun. rewrite Forall_forall in Hops. apply Hops.
    assert (s.2.*1 = ops) as <-; [rewrite Hrun; cbn; rewrite <- list_fmap_compose; by apply list_fmap_id|].
    eapply list_elem_of_lookup_2. by rewrite list_lookup_fmap, Hi. }
  destruct o as [wanted now|k update]; cbn in Hfol.
  - right. exists i, wanted, now. destruct Hfol as [-> Hl]. split_and!; [done|done|auto].
  - left. destruct Hfol as (p' & c' & [= <-] & Hup & ->). cbn. by eapply update_keeps_holder.
Qed.

(** *** Every call ends *)

Definition steps_left (x : Op * Pc) : nat :=
  match x with
  | (OpAcquire _ _, P_READ _) => 2 | (OpAcquire _ _, P_WRITE _ _) => 1
  | (OpChange _ _, P_READ n) => 2 * n + 1 | (OpChange _ _, P_WRITE n _) => 2 * n + 2
  | (_, P_DONE _) => 0
  end.
Inductive active_step : Session → Session → Prop :=
| one_active fs cs i o pc pc' fs' :
    cs !! i = Some (o, pc) → steps_left (o, pc) ≠ 0 → client_step o pc fs = (pc', fs') →
    active_step (fs, cs) (fs', <[i := (o, pc')]> cs).

Lemma step_counts o pc fs pc' fs' :
  client_step o pc fs = (pc', fs') → steps_left (o, pc) ≠ 0 → (steps_left (o, pc') < steps_left (o, pc))%nat.
Proof.
  destruct pc as [n|n c|out]; cbn [client_step]; [| |by destruct o].
  - destruct o as [w now|k update]; intros [= <- <-] _.
    + destruct (current fs _) as [p|]; [destruct (is_live p now)|]; cbn; lia.
    + destruct n as [|n]; [cbn; lia|]. destruct (current fs _) as [p|]; [destruct (update p)|]; cbn; lia.
  - destruct (fs !! _); destruct o; intros [= <- <-] _; cbn; lia.
Qed.

Definition work (cs : list (Op * Pc)) : nat := sum_list (steps_left <$> cs).

Lemma work_insert cs i x y : cs !! i = Some x → (work (<[i := y]> cs) + steps_left x = work cs + steps_left y)%nat.
Proof.
  unfold work. revert i. induction cs as [|z cs IH]; intros [|i] H; simplify_eq/=; [lia|]. specialize (IH _ H). lia.
Qed.

(** Every call ends.  However the calls interleave, a call takes at most 17 steps: the steps any run of [n] calls can
    take are bounded by [17 n], and a run stops only where every call has its answer. *)
Theorem calls_end (ops : list Op) (n : nat) (s : Session) :
  nsteps active_step n (session_start ops) s →
  (n ≤ 17 * length ops)%nat ∧
  ((∀ s', ¬ active_step s s') → Forall (λ x, ∃ out, x.2 = P_DONE out) s.2).
Proof.
  intros Hrun. split.
  - assert (∀ m s1 s2, nsteps active_step m s1 s2 → (m ≤ work s1.2)%nat) as Hle.
    { intros m s1 s2. induction 1 as [|m s1 s2 s3 Hstep _ IH]; [lia|].
      destruct Hstep as [fs cs i o pc pc' fs' Hi Hact E]. cbn [snd] in *. pose proof (work_insert cs i _ (o, pc') Hi).
      pose proof (step_counts _ _ _ _ _ E Hact). lia. }
    specialize (Hle _ _ _ Hrun). cbn [snd session_start] in Hle. assert (work ((λ o, (o, start)) <$> ops) ≤ 17 * length ops)%nat; [|lia].
    clear. unfold work. induction ops as [|o ops IH]; [done|]. 
    change (steps_left (o, start) + sum_list (steps_left <$> ((λ o, (o, start)) <$> ops)) ≤ 17 * S (length ops))%nat.
    assert (steps_left (o, start) ≤ 17)%nat by (destruct o; cbn; lia). lia.
  - intros Hstuck. apply Forall_lookup. intros i [o pc] Hi. cbn.
    destruct (decide (steps_left (o, pc) = 0)) as [Hz|Hz]; [destruct o, pc; cbn in Hz; try lia; eauto|]. exfalso.
    destruct s as [fs cs], (client_step o pc fs) as [pc' fs'] eqn:E. by eapply Hstuck, (one_active fs cs i).
Qed.
End claims.

(** ** A session of two branches *)

Module ClaimsDemo.
Abbreviation Q := QArith_base.Q.
Definition tok (k : ClaimKey) : string := ck_parent_commit k +:+ "." +:+ ck_intent_fingerprint k.
Definition key : ClaimKey := {| ck_parent_commit := "c1"; ck_intent_fingerprint := "fuse" |}.
Definition intent (b : string) : Intent Q :=
  {| in_branch := b; in_parent_commit := "c1"; in_target := "attention"; in_mechanism := "fuse";
     in_layer := L_KERNEL; in_target_share_pct := None |}.
Definition claim (b : string) (at_ ttl : Z) : Claim :=
  {| cl_key := key; cl_holder := b; cl_intent := intent b; cl_action_fingerprint := "a"; cl_ttl_seconds := f_of_Z ttl;
     cl_acquired_at := f_of_Z at_; cl_heartbeat_at := f_of_Z at_; cl_expires_at := f_of_Z (at_ + ttl);
     cl_status := CL_HELD; cl_request_id := None; cl_generation := 0 |}.
Definition b02 : Writer := {| wr_role := R_SPECIALIST_RUNTIME; wr_name := "s2"; wr_branch := "b02" |}.

(** Two branches race for one key; the winner renews its claim and lets it go, and the other takes it. *)
Definition ops : list (Op (F := Q)) :=
  [OpAcquire (claim "b01" 0 60) (f_of_Z 0); OpAcquire (claim "b02" 1 60) (f_of_Z 1);
   OpChange key (renewed b02 (f_of_Z 5) (f_of_Z 60)); OpChange key (release_update b02 (f_of_Z 9));
   OpAcquire (claim "b01" 10 60) (f_of_Z 10)].
Definition turn (i : nat) (s : Session (F := Q)) : Session :=
  match s.2 !! i with
  | Some (o, pc) => let '(pc', fs') := client_step tok o pc s.1 in (fs', <[i := (o, pc')]> s.2)
  | None => s
  end.
Definition turns : list nat := [0; 1; 1; 0; 2; 2; 3; 3; 4; 4].
Definition raced : Session := foldl (λ s i, turn i s) (session_start ops) turns.

Lemma client_turn_steps ts s : rtc (session_step tok) s (foldl (λ s i, turn i s) s ts).
Proof.
  revert s. induction ts as [|i ts IH]; intros s; simpl; [done|]. etrans; [|apply IH].
  unfold turn. destruct s as [fs cs]. cbn. destruct (cs !! i) as [[o pc]|] eqn:E; [|done].
  destruct (client_step tok o pc fs) as [pc' fs'] eqn:E'. apply rtc_once. by eapply one_client.
Qed.

Definition holder_of (s : Session (F := Q)) (g : Z) : option (string * ClaimStatus) :=
  (λ c, (cl_holder c, cl_status c)) <$> s.1 !! (tok key, g).
Definition outcome_of (s : Session (F := Q)) (i : nat) : option (option Z) :=
  match s.2 !! i with
  | Some (_, P_DONE (Won c)) => Some (Some (cl_generation c))
  | Some (_, P_DONE _) => Some None
  | _ => None
  end.

(** [release_branch] of one branch ends the claim of another.  [b01]'s claim has expired unrenewed and is listed; before
    it is released [b02] acquires the key; what is then released is [b02]'s live claim. *)
Definition expired : gmap (string * Z) (Claim (F := Q)) := {[ (tok key, 1%Z) := with_generation 1 (claim "b01" 0 5) ]}.
Definition retaken := Eval vm_compute in (call tok (OpAcquire (claim "b02" 9 60) (f_of_Z 9)) expired).2.
End ClaimsDemo.

Lemma release_branch_ends_anothers_claim :
  release_branch_keys ClaimsDemo.expired "b01" = [ClaimsDemo.key] ∧
  ((λ c, (cl_holder c, is_live c (f_of_Z 10))) <$> current ClaimsDemo.retaken (ClaimsDemo.tok ClaimsDemo.key))
    = Some ("b02", true) ∧
  match (call ClaimsDemo.tok (release_branch_op (f_of_Z 10) ClaimsDemo.key) ClaimsDemo.retaken).1 with
  | P_DONE (Won c) => Some (cl_holder c, cl_status c)
  | _ => None
  end = Some ("b02", CL_RELEASED).
Proof. split_and!; vm_compute; reflexivity. Qed.

Lemma claims_linear_witness :
  ClaimsDemo.holder_of ClaimsDemo.raced <$> [1; 2; 3; 4]%Z =
    [Some ("b02", CL_HELD); Some ("b02", CL_HELD); Some ("b02", CL_RELEASED); Some ("b01", CL_HELD)] ∧
  ∀ tok g, is_Some (ClaimsDemo.raced.1 !! (tok, g)) →
    (1 ≤ g ≤ GENERATIONS)%Z ∧ (g = 1%Z ∨ is_Some (ClaimsDemo.raced.1 !! (tok, g - 1)%Z)).
Proof.
  split; [vm_compute; reflexivity|].
  apply (claims_linear ClaimsDemo.tok ClaimsDemo.ops ClaimsDemo.raced).
  exact (ClaimsDemo.client_turn_steps ClaimsDemo.turns (session_start ClaimsDemo.ops)).
Defined.

Lemma claim_stays_with_holder_witness :
  ∃ p c, ClaimsDemo.raced.1 !! (ClaimsDemo.tok ClaimsDemo.key, 3%Z) = Some p ∧
    ClaimsDemo.raced.1 !! (ClaimsDemo.tok ClaimsDemo.key, 4%Z) = Some c ∧
    ((cl_holder c = cl_holder p ∧ cl_key c = cl_key p ∧ cl_status p = CL_HELD) ∨
     (∃ i wanted now, ClaimsDemo.raced.2 !! i = Some (OpAcquire wanted now, P_DONE (Won c)) ∧
        cl_holder c = cl_holder wanted ∧ is_live p now = false)).
Proof.
  eexists _, _. split; [vm_compute; reflexivity|]. split; [vm_compute; reflexivity|].
  apply (claim_stays_with_holder ClaimsDemo.tok ClaimsDemo.ops ClaimsDemo.raced (ClaimsDemo.tok ClaimsDemo.key) 3).
  - repeat constructor.
  - exact (ClaimsDemo.client_turn_steps ClaimsDemo.turns (session_start ClaimsDemo.ops)).
  - vm_compute. reflexivity.
  - vm_compute. reflexivity.
Defined.

Lemma calls_end_witness : (2 ≤ 17 * length ClaimsDemo.ops)%nat.
Proof.
  apply (calls_end ClaimsDemo.tok ClaimsDemo.ops 2 (ClaimsDemo.turn 1 (ClaimsDemo.turn 0 (session_start ClaimsDemo.ops)))).
  eapply nsteps_l; [eapply (one_active _ _ _ 0); [reflexivity|done|reflexivity]|].
  eapply nsteps_l; [eapply (one_active _ _ _ 1); [reflexivity|done|reflexivity]|]. vm_compute. apply nsteps_O.
Defined.
