(* ===== verification/Segments.v ===== *)
(** * Segments

    [blackboard/local/segments.py], with [read_jsonl] of [hyperloom_common/jsonio.py] and [key_sorted] of
    [blackboard/codec.py]: the append-only files of the blackboard, one writer each.  A segment is its bytes.  An append
    may fail between any two writes of the kernel, and cutting it back may fail too; the next append then first cuts
    what the failed one left.

    [json.dumps] and [json.loads] are parameters; what is relied on is that an object's text reads back, holds no line
    break and no surrounding space, and that no proper prefix of it is a JSON text. *)

From stdpp Require Import base list strings pretty relations sets gmap sorting.
From Stdlib Require Import Ascii ZArith Lia.
From S2P Require Import Prelude PyFloat PyVal Dicts Claims.

(** ** Entries *)

Inductive EntryKind :=
| E_REQUEST | E_RESULT | E_WITHDRAWAL | E_JUDGEMENT | E_MERGE_ATTEMPT | E_LINEAGE | E_BASELINE | E_REGRESSION
| E_QUARANTINE | E_BRANCH_LOG | E_LEARNING | E_TOOL_RESULT | E_CLAIM | E_SESSION_PROFILE | E_MANIFEST | E_LLM_USAGE
| E_AGENT_MANIFEST | E_BUILD | E_LEASE_START | E_LEASE_END | E_AGENT_MAP.
#[global] Instance EntryKind_eq_dec : EqDecision EntryKind.
Proof. solve_decision. Defined.
Definition EntryKind_all : list EntryKind :=
  [E_REQUEST; E_RESULT; E_WITHDRAWAL; E_JUDGEMENT; E_MERGE_ATTEMPT; E_LINEAGE; E_BASELINE; E_REGRESSION; E_QUARANTINE;
   E_BRANCH_LOG; E_LEARNING; E_TOOL_RESULT; E_CLAIM; E_SESSION_PROFILE; E_MANIFEST; E_LLM_USAGE; E_AGENT_MANIFEST;
   E_BUILD; E_LEASE_START; E_LEASE_END; E_AGENT_MAP].
Definition EntryKind_value (k : EntryKind) : string :=
  match k with
  | E_REQUEST => "request" | E_RESULT => "result" | E_WITHDRAWAL => "withdrawal" | E_JUDGEMENT => "judgement"
  | E_MERGE_ATTEMPT => "merge_attempt" | E_LINEAGE => "lineage" | E_BASELINE => "baseline" | E_REGRESSION => "regression"
  | E_QUARANTINE => "quarantine" | E_BRANCH_LOG => "branch_log" | E_LEARNING => "learning"
  | E_TOOL_RESULT => "tool_result" | E_CLAIM => "claim" | E_SESSION_PROFILE => "session_profile"
  | E_MANIFEST => "manifest" | E_LLM_USAGE => "llm_usage" | E_AGENT_MANIFEST => "agent_manifest" | E_BUILD => "build"
  | E_LEASE_START => "lease_start" | E_LEASE_END => "lease_end" | E_AGENT_MAP => "agent_map"
  end.
Definition Role_all : list Role := [R_TOOLBOX; R_GATE; R_INTEGRATOR; R_SCHEDULER; R_SPECIALIST_RUNTIME; R_OBSERVER].
Definition Role_value (r : Role) : string :=
  match r with
  | R_TOOLBOX => "toolbox" | R_GATE => "gate" | R_INTEGRATOR => "integrator" | R_SCHEDULER => "scheduler"
  | R_SPECIALIST_RUNTIME => "specialist_runtime" | R_OBSERVER => "observer"
  end.

(** [_TOKEN.fullmatch]: 1 to 200 of the letters, the digits and [_.:@/-]. *)
Definition token_char (c : ascii) : bool :=
  let n := nat_of_ascii c in
  ((48 <=? n) && (n <=? 57) || (65 <=? n) && (n <=? 90) || (97 <=? n) && (n <=? 122))%nat
  || bool_decide (c ∈ chars "_.:@/-").
Definition is_token (s : string) : bool :=
  (1 <=? String.length s)%nat && (String.length s <=? 200)%nat && forallb token_char (chars s).
Definition require_token (s name : string) : res string :=
  if is_token s then Ok s else Raise (ValueError (name +:+ " must match [A-Za-z0-9_.:@/-]{1,200}, got " +:+ repr_str s)).

Definition SUMMARY_LIMIT : nat := 160.
Definition clip_summary (text : string) : string :=
  let summary := join " " (py_words text) in
  if (String.length summary <=? SUMMARY_LIMIT)%nat then summary else String.substring 0 (SUMMARY_LIMIT - 3) summary +:+ "...".

Section segments.
Context {F : Type} `{!FloatOps F}.

Record Entry := {
  en_entry_id : string; en_seq : Z; en_at : F; en_writer : string; en_role : Role; en_actor : string;
  en_kind : EntryKind; en_branch : string; en_parent : string; en_summary : string; en_detail : pydict F
}.
Implicit Types (e : Entry).

Definition to_dict e : pydict F :=
  [("v", PInt 1); ("id", PStr (en_entry_id e)); ("seq", PInt (en_seq e)); ("at", PFloat (en_at e));
   ("writer", PStr (en_writer e)); ("role", PStr (Role_value (en_role e))); ("actor", PStr (en_actor e));
   ("kind", PStr (EntryKind_value (en_kind e))); ("branch", PStr (en_branch e)); ("parent", PStr (en_parent e));
   ("summary", PStr (en_summary e)); ("detail", PDict (en_detail e))].

(** [row[k]] *)
Definition item (k : string) (row : pydict F) : res (pyval F) :=
  match dget k row with Some v => Ok v | None => Raise (KeyError k) end.
Definition is_version (v : option (pyval F)) : bool :=
  match v with
  | Some (PInt z) => (z =? 1)%Z
  | Some (PBool b) => b
  | Some (PFloat f) => feqb f (f_of_Z 1)
  | _ => false
  end.
Definition enum_val {E} `{!EqDecision E} (all : list E) (value : E → string) (v : pyval F) : res E :=
  match v with PStr s => enum_of all value s | _ => Raise (ValueError (py_repr v +:+ " is not a valid member")) end.

Definition from_dict (row : pydict F) : res Entry :=
  if negb (is_version (dget "v" row)) then Raise (ValueError "unsupported entry version")
  else
    dt ← item "detail" row;
    match dt with
    | PDict detail =>
        i ← item "id" row;
        sq ← item "seq" row; seq ← py_int sq;
        t ← item "at" row; at_ ← py_float t;
        w ← item "writer" row;
        rv ← item "role" row; role ← enum_val Role_all Role_value rv;
        a ← item "actor" row;
        kv ← item "kind" row; kind ← enum_val EntryKind_all EntryKind_value kv;
        sm ← item "summary" row;
        Ok {| en_entry_id := py_str i; en_seq := seq; en_at := at_; en_writer := py_str w; en_role := role;
              en_actor := py_str a; en_kind := kind; en_branch := get_str "branch" row; en_parent := get_str "parent" row;
              en_summary := py_str sm; en_detail := detail |}
    | _ => Raise (TypeError "entry detail must be an object")
    end.

(** [key_sorted] *)
Definition key_le (a b : string * pyval F) : bool := String.leb a.1 b.1.
Fixpoint key_sorted (v : pyval F) : pyval F :=
  match v with
  | PDict d => PDict (sort_by key_le ((fix go d := match d with [] => [] | (k, x) :: d' => (k, key_sorted x) :: go d' end) d))
  | PList l => PList (map key_sorted l)
  | _ => v
  end.

(** The document of an entry, and the entry as it reads back: the same with the keys of its detail in order. *)
Definition document e : pyval F := key_sorted (PDict (to_dict e)).
Definition stored e : Entry :=
  {| en_entry_id := en_entry_id e; en_seq := en_seq e; en_at := en_at e; en_writer := en_writer e; en_role := en_role e;
     en_actor := en_actor e; en_kind := en_kind e; en_branch := en_branch e; en_parent := en_parent e;
     en_summary := en_summary e;
     en_detail := match key_sorted (PDict (en_detail e)) with PDict d => d | _ => [] end |}.

(** ** Reading *)

Context (json_dumps : pyval F → list ascii) (json_loads : list ascii → option (pyval F)).

(** [str.splitlines] of ASCII text. *)
Definition NL : ascii := ascii_of_nat 10.
Definition is_break (c : ascii) : bool :=
  let n := nat_of_ascii c in ((10 <=? n) && (n <=? 13) || (28 <=? n) && (n <=? 30))%nat.
Fixpoint split_lines (after_cr : bool) (line l : list ascii) : list (list ascii) :=
  match l with
  | [] => match line with [] => [] | _ => [reverse line] end
  | c :: l' =>
      if after_cr && bool_decide (c = NL) then split_lines false line l'
      else if is_break c then reverse line :: split_lines (bool_decide (nat_of_ascii c = 13)) [] l'
      else split_lines false (c :: line) l'
  end.
Definition strip_chars (l : list ascii) : list ascii := reverse (drop_space (reverse (drop_space l))).

(** [read_jsonl] of a readable file *)
Definition read_row (line : list ascii) : option (pydict F) :=
  match strip_chars line with
  | [] => None
  | text => match json_loads text with Some (PDict d) => Some d | _ => None end
  end.
Definition read_jsonl (file : list ascii) : list (pydict F) := omap read_row (split_lines false [] file).

(** [_read_entries]: a row that is no entry is skipped, for the errors the loop catches. *)
Definition skipped (e : exn) : bool := match e with KeyError _ | TypeError _ | ValueError _ => true | _ => false end.
Fixpoint entries_of (rows : list (pydict F)) : res (list Entry) :=
  match rows with
  | [] => Ok []
  | row :: rows' =>
      match from_dict row with
      | Ok e => es ← entries_of rows'; Ok (e :: es)
      | Raise x => if skipped x then entries_of rows' else Raise x
      end
  end.
Definition read_entries (file : list ascii) : res (list Entry) := entries_of (read_jsonl file).

(** ** Cutting a torn line *)

(** [bytes.rfind] of one byte *)
Fixpoint rfind (c : ascii) (l : list ascii) : option nat :=
  match l with
  | [] => None
  | x :: l' => match rfind c l' with
               | Some i => Some (S i)
               | None => if bool_decide (x = c) then Some O else None
               end
  end.
Definition TAIL_READ : nat := N.to_nat 65536.
(** The loop: from [cut] back over chunks of [chunk] bytes to the byte after the last newline. *)
Fixpoint tail_scan (fuel chunk : nat) (file : list ascii) (cut : nat) : nat :=
  match fuel with
  | O => cut
  | S fuel' =>
      if (cut =? 0)%nat then cut
      else
        let start := (cut - chunk)%nat in
        match rfind NL (take (cut - start) (drop start file)) with
        | Some i => (start + i + 1)%nat
        | None => tail_scan fuel' chunk file start
        end
  end.
Definition cut_torn_tail (file : list ascii) : list ascii :=
  match last file with
  | None => file
  | Some c => if bool_decide (c = NL) then file else take (tail_scan (length file) TAIL_READ file (length file)) file
  end.

(** ** Appending *)

(** What the system does to one append: whether cutting the tail fails, what each [os.write] does (the bytes it takes,
    or an [OSError]; past the list all of them), and whether cutting back succeeds. *)
Record Env := { ev_cut : option exn; ev_writes : list (option nat); ev_truncate : bool }.

Fixpoint write_all (writes : list (option nat)) (line file : list ascii) : res unit * list ascii :=
  match line, writes with
  | [], _ => (Ok (), file)
  | _, [] => (Ok (), file ++ line)
  | _, None :: _ => (Raise (OSError "write"), file)
  | _, Some k :: writes' => write_all writes' (drop k line) (file ++ take k line)
  end.
(** [_append_line] *)
Definition append_line (v : Env) (line file : list ascii) : res unit * list ascii :=
  match write_all (ev_writes v) line file with
  | (Ok _, file') => (Ok (), file')
  | (Raise e, file') => (Raise e, if ev_truncate v then take (length file) file' else file')
  end.

Record SegmentWriter := { sw_writer : string; sw_file : list ascii; sw_last_seq : Z; sw_ends_whole : bool }.

Definition max_seq (es : list Entry) : Z :=
  match es with [] => 0%Z | e :: es' => foldr (λ e m, Z.max (en_seq e) m) (en_seq e) es' end.
(** [SegmentWriter.__init__] on the file found at its path *)
Definition open_segment (writer : string) (file : list ascii) : res SegmentWriter :=
  w ← require_token writer "writer";
  es ← read_entries file;
  Ok {| sw_writer := w; sw_file := file; sw_last_seq := max_seq es; sw_ends_whole := false |}.

Definition line_of e : list ascii := json_dumps (document e) ++ [NL].
Definition append (v : Env) (build : Z → Entry) : Io SegmentWriter Entry := λ w,
  let e := build (sw_last_seq w + 1)%Z in
  if negb (bool_decide (en_writer e = sw_writer w)) || negb (en_seq e =? sw_last_seq w + 1)%Z
  then (Raise (ValueError ("segment " +:+ sw_writer w +:+ " expects seq " +:+ pretty (sw_last_seq w + 1)%Z +:+ ", got "
                           +:+ en_entry_id e)), w)
  else
    match (if sw_ends_whole w then None else ev_cut v) with
    | Some x => (Raise x, w)
    | None =>
        let file := if sw_ends_whole w then sw_file w else cut_torn_tail (sw_file w) in
        match append_line v (line_of e) file with
        | (Ok _, file') => (Ok e, {| sw_writer := sw_writer w; sw_file := file'; sw_last_seq := en_seq e; sw_ends_whole := true |})
        | (Raise x, file') => (Raise x, {| sw_writer := sw_writer w; sw_file := file'; sw_last_seq := sw_last_seq w; sw_ends_whole := false |})
        end
    end.

(** ** Merging *)

(** [SegmentReader.entries]: the segments in path order, merged by time, writer and sequence. *)
Definition entry_le (a b : Entry) : bool :=
  if fltb (en_at a) (en_at b) then true
  else if fltb (en_at b) (en_at a) then false
  else if bool_decide (en_writer a = en_writer b) then (en_seq a <=? en_seq b)%Z
  else String.leb (en_writer a) (en_writer b).
Fixpoint read_all (files : list (list ascii)) : res (list Entry) :=
  match files with
  | [] => Ok []
  | f :: fs => es ← read_entries f; rest ← read_all fs; Ok (es ++ rest)
  end.
Definition merged (files : list (list ascii)) : res (list Entry) := es ← read_all files; Ok (sort_by entry_le es).

(** ** An entry reads back *)

Lemma Role_of_value r : enum_of Role_all Role_value (Role_value r) = Ok r.
Proof. by destruct r. Qed.
Lemma EntryKind_of_value k : enum_of EntryKind_all EntryKind_value (EntryKind_value k) = Ok k.
Proof. by destruct k. Qed.

Definition document_dict e : pydict F := match document e with PDict d => d | _ => [] end.
Lemma document_eq e : document e = PDict (document_dict e).
Proof. reflexivity. Qed.

Lemma document_item e k v : dget k (to_dict e) = Some v → dget k (document_dict e) = Some (key_sorted v).
Proof.
  cbn [to_dict dget]. unfold document_dict, document. cbn [key_sorted to_dict].
  repeat (case_bool_decide; [subst k; intros [= <-]; reflexivity|]). done.
Qed.

Lemma from_document e : from_dict (document_dict e) = Ok (stored e).
Proof.
  assert (∀ k v, dget k (to_dict e) = Some v → dget k (document_dict e) = Some (key_sorted v)) as H by apply document_item.
  unfold from_dict, item, get_str.
  rewrite (H "v" _ eq_refl), (H "id" _ eq_refl), (H "seq" _ eq_refl), (H "at" _ eq_refl), (H "writer" _ eq_refl),
    (H "role" _ eq_refl), (H "actor" _ eq_refl), (H "kind" _ eq_refl), (H "branch" _ eq_refl), (H "parent" _ eq_refl),
    (H "summary" _ eq_refl), (H "detail" _ eq_refl).
  clear H. unfold stored. destruct e as [i sq t w r a k b pa sm d]. cbn [en_entry_id en_seq en_at en_writer en_role en_actor
    en_kind en_branch en_parent en_summary en_detail].
  set (kd := key_sorted (PDict d)). assert (∃ d', kd = PDict d') as [d' ->] by by eexists.
  assert (∀ s, key_sorted (PStr s) = PStr s) as Hs by done. rewrite !Hs.
  cbn [is_version Z.eqb Pos.eqb negb mbind res_bind py_int py_float enum_val py_str truthy].
  rewrite Role_of_value, EntryKind_of_value. cbn [mbind res_bind].
  destruct b, pa; reflexivity.
Qed.

(** ** Cutting a torn line keeps exactly the whole lines *)

Lemma elem_of_drop_in {A} (x : A) n l : x ∈ drop n l → x ∈ l.
Proof. intros H. rewrite <- (take_drop n l). apply elem_of_app. by right. Qed.

Lemma rfind_none c l : c ∉ l → rfind c l = None.
Proof.
  induction l as [|x l IH]; [done|]. rewrite not_elem_of_cons. intros [Hx Hl]. simpl. rewrite IH by done.
  by rewrite bool_decide_eq_false_2.
Qed.
Lemma rfind_last c a b : c ∉ b → rfind c (a ++ c :: b) = Some (length a).
Proof.
  intros Hb. induction a as [|x a IH]; simpl; [|by rewrite IH]. rewrite rfind_none by done. by rewrite bool_decide_eq_true_2.
Qed.

(** Whole lines: none, or bytes that end in a newline. *)
Definition whole (l : list ascii) : Prop := l = [] ∨ ∃ l', l = l' ++ [NL].

Lemma tail_scan_spec fuel chunk w torn cut :
  (0 < chunk)%nat → whole w → NL ∉ torn → (length w ≤ cut ≤ length (w ++ torn))%nat → (cut ≤ fuel)%nat →
  tail_scan fuel chunk (w ++ torn) cut = length w.
Proof.
  intros Hc Hw Ht. revert cut. induction fuel as [|fuel IH]; intros cut Hcut Hf; simpl; [lia|].
  destruct (cut =? 0)%nat eqn:E0; [apply Nat.eqb_eq in E0; lia|]. apply Nat.eqb_neq in E0.
  destruct (decide (length w ≤ cut - chunk)%nat) as [Hle|Hgt].
  - rewrite drop_app_ge by lia. rewrite rfind_none; [apply IH; lia|].
    intros H%elem_of_take_in%elem_of_drop_in. done.
  - destruct Hw as [->|[w' ->]]; [simpl in Hgt; lia|]. rewrite length_app in *. simpl in *.
    rewrite drop_app_le by (rewrite length_app; simpl; lia). rewrite drop_app_le by lia.
    rewrite <- app_assoc, take_app_ge by (rewrite length_drop; lia).
    rewrite length_drop. destruct (cut - (cut - chunk) - (length w' - (cut - chunk)))%nat as [|n] eqn:En; [lia|].
    simpl. rewrite rfind_last; [rewrite length_drop; lia|]. intros H%elem_of_take_in. done.
Qed.

Lemma cut_torn_tail_spec w torn : whole w → NL ∉ torn → cut_torn_tail (w ++ torn) = w.
Proof.
  intros Hw Ht. unfold cut_torn_tail. destruct torn as [|c torn _] using rev_ind.
  - rewrite app_nil_r. destruct Hw as [->|[w' ->]]; [done|]. rewrite last_snoc. by rewrite bool_decide_eq_true_2.
  - rewrite app_assoc, last_snoc. rewrite bool_decide_eq_false_2 by (intros ->; set_solver).
    rewrite <- app_assoc, tail_scan_spec; [by rewrite take_app_length|unfold TAIL_READ; lia|done..| |lia].
    rewrite length_app. lia.
Qed.

(** ** Reading whole lines and a torn one *)

(** What is relied on of [json] for the text of an object [v]: it reads back, is one line in braces, and none of its
    proper prefixes is a JSON text. *)
Record json_object (v : pyval F) : Prop := {
  jo_loads : json_loads (json_dumps v) = Some v;
  jo_line : Forall (λ c, is_break c = false) (json_dumps v);
  jo_braces : ∃ mid, json_dumps v = "{"%char :: mid ++ ["}"%char];
  jo_prefix : ∀ k, (k < length (json_dumps v))%nat → json_loads (take k (json_dumps v)) = None
}.
Notation plain := (Forall (λ c, is_break c = false)).

Lemma split_line line l rest : plain l →
  split_lines false line (l ++ NL :: rest) = (reverse line ++ l) :: split_lines false [] rest.
Proof.
  intros H. revert line. induction H as [|c l Hc _ IH]; intros line; [by rewrite app_nil_r|].
  cbn [app split_lines andb]. rewrite Hc, IH, reverse_cons, <- app_assoc. done.
Qed.
Lemma split_tail line l : plain l →
  split_lines false line l = match reverse line ++ l with [] => [] | x => [x] end.
Proof.
  intros H. revert line. induction H as [|c l Hc _ IH]; intros line; cbn [split_lines andb].
  - rewrite app_nil_r. destruct line as [|x line]; [done|]. rewrite reverse_cons. by destruct (reverse line).
  - rewrite Hc, IH, reverse_cons, <- app_assoc. done.
Qed.

Lemma strip_braces mid : strip_chars ("{"%char :: mid ++ ["}"%char]) = "{"%char :: mid ++ ["}"%char].
Proof.
  unfold strip_chars. change (drop_space ("{"%char :: mid ++ ["}"%char])) with ("{"%char :: mid ++ ["}"%char]).
  rewrite reverse_cons, reverse_app. change (reverse ["}"%char]) with ["}"%char]. cbn [app].
  change (drop_space ("}"%char :: reverse mid ++ ["{"%char])) with ("}"%char :: reverse mid ++ ["{"%char]).
  by rewrite reverse_cons, reverse_app, reverse_involutive.
Qed.

Lemma read_object e : json_object (document e) → read_row (json_dumps (document e)) = Some (document_dict e).
Proof.
  intros Hj. pose proof (jo_loads _ Hj) as Hl. destruct (jo_braces _ Hj) as [mid Hm]. unfold read_row.
  rewrite Hm in *. rewrite strip_braces, Hl. by rewrite document_eq.
Qed.

(** Trailing spaces removed from a prefix leave a prefix. *)
Lemma read_torn_row v k : json_object v → (k < length (json_dumps v))%nat → read_row (take k (json_dumps v)) = None.
Proof.
  intros Hj Hk. destruct k as [|k]; [done|]. pose proof (jo_prefix _ Hj) as Hp. destruct (jo_braces _ Hj) as [mid Hm].
  unfold read_row. rewrite Hm in *. cbn [take]. unfold strip_chars.
  set (l := "{"%char :: take k (mid ++ ["}"%char])). change (drop_space l) with l.
  destruct (drop_space_suffix (reverse l)) as [s Hs]. apply (f_equal reverse) in Hs. rewrite reverse_involutive, reverse_app in Hs.
  set (r := reverse (drop_space (reverse l))) in *.
  assert (length r ≤ S k)%nat as Hle.
  { apply (f_equal length) in Hs. rewrite length_app in Hs. subst l. cbn [length] in Hs. rewrite length_take in Hs. lia. }
  assert (r = take (length r) ("{"%char :: mid ++ ["}"%char])) as Hr.
  { apply (f_equal (take (length r))) in Hs. rewrite take_app_length in Hs. rewrite <- Hs at 1. subst l.
    change ("{"%char :: take k (mid ++ ["}"%char])) with (take (S k) ("{"%char :: mid ++ ["}"%char])).
    rewrite take_take. f_equal. lia. }
  specialize (Hp (length r) ltac:(lia)). rewrite <- Hr in Hp. by destruct r; [|rewrite Hp].
Qed.

Lemma omap_read_row line ls :
  omap read_row (line :: ls) = match read_row line with Some d => d :: omap read_row ls | None => omap read_row ls end.
Proof. done. Qed.

Lemma read_jsonl_lines es torn : Forall (λ e, json_object (document e)) es → plain torn →
  read_jsonl (concat (line_of <$> es) ++ torn) =
  (document_dict <$> es) ++ match torn with [] => [] | _ => omap read_row [torn] end.
Proof.
  intros He Ht. unfold read_jsonl. induction He as [|e es Hj _ IH].
  - cbn [fmap list_fmap concat app]. rewrite split_tail by done. by destruct torn.
  - rewrite fmap_cons. cbn [concat]. unfold line_of at 1. rewrite <- !app_assoc. cbn [app].
    rewrite split_line by apply Hj. rewrite omap_read_row.
    change (reverse [] ++ json_dumps (document e)) with (json_dumps (document e)). by rewrite read_object, IH.
Qed.

Lemma entries_of_documents es rest : entries_of ((document_dict <$> es) ++ rest) = es' ← entries_of rest; Ok ((stored <$> es) ++ es').
Proof.
  induction es as [|e es IH]; cbn [fmap list_fmap app entries_of].
  - by destruct (entries_of rest).
  - rewrite from_document, IH. by destruct (entries_of rest).
Qed.

(** ** What a failed write leaves *)

Lemma write_all_spec writes line file r file' :
  write_all writes line file = (r, file') →
  match r with
  | Ok _ => file' = file ++ line
  | Raise _ => ∃ k, (k < length line)%nat ∧ file' = file ++ take k line
  end.
Proof.
  revert line file. induction writes as [|o writes IH]; intros [|c line] file; cbn [write_all]; try (intros [= <- <-]; by rewrite ?app_nil_r).
  destruct o as [k|].
  - intros H%IH. destruct r as [[]|x].
    + by rewrite <- app_assoc, take_drop in H.
    + destruct H as (n & Hn & ->). rewrite length_drop in Hn. exists (k + n)%nat. split; [lia|].
      rewrite <- app_assoc. f_equal. by rewrite take_take_drop.
  - intros [= <- <-]. exists O. split; [simpl; lia|]. by rewrite app_nil_r.
Qed.

Lemma append_line_spec v line file r file' :
  append_line v line file = (r, file') →
  match r with
  | Ok _ => file' = file ++ line
  | Raise _ => ∃ k, (k < length line)%nat ∧ file' = file ++ take k line
  end.
Proof.
  unfold append_line. destruct (write_all _ line file) as [[[]|x] f] eqn:E; apply write_all_spec in E; intros [= <- <-]; [done|].
  destruct E as (k & Hk & ->). destruct (ev_truncate v); [|by exists k].
  exists O. split; [lia|]. by rewrite take_app_length, take_0, app_nil_r.
Qed.

(** ** Runs of a segment's writers *)

(** A writer with the entries its appends returned; a writer opened on the file another one left. *)
Inductive segment_step : SegmentWriter * list Entry → SegmentWriter * list Entry → Prop :=
| ss_append v build w done r w' :
    json_object (document (build (sw_last_seq w + 1)%Z)) → append v build w = (r, w') →
    segment_step (w, done) (w', match r with Ok e => done ++ [e] | Raise _ => done end)
| ss_open w done w' :
    open_segment (sw_writer w) (sw_file w) = Ok w' → segment_step (w, done) (w', done).

(** The bytes of the returned entries, and after them at most the start of one line. *)
Definition torn_ok (torn : list ascii) : Prop :=
  ∃ e k, json_object (document e) ∧ torn = take k (json_dumps (document e)).
Record segment_ok (s : SegmentWriter * list Entry) : Prop := {
  sg_file : ∃ torn, sw_file s.1 = concat (line_of <$> s.2) ++ torn ∧ (torn = [] ∨ torn_ok torn) ∧
            (sw_ends_whole s.1 = true → torn = []);
  sg_json : Forall (λ e, json_object (document e)) s.2;
  sg_seq : StronglySorted Z.lt (en_seq <$> s.2);
  sg_last : Forall (λ e, (en_seq e ≤ sw_last_seq s.1)%Z) s.2
}.

Lemma torn_plain torn : torn = [] ∨ torn_ok torn → plain torn.
Proof. intros [->|(e & k & Hj & ->)]; [constructor|]. apply Forall_take, Hj. Qed.
Lemma plain_no_newline l : plain l → NL ∉ l.
Proof. intros H Hin. rewrite Forall_forall in H. by specialize (H _ Hin). Qed.

Lemma lines_whole es : whole (concat (line_of <$> es)).
Proof.
  destruct es as [|e es _] using rev_ind; [by left|right]. rewrite fmap_app, concat_app. cbn [fmap list_fmap concat].
  unfold line_of at 2. exists (concat (line_of <$> es) ++ json_dumps (document e)). by rewrite app_nil_r, app_assoc.
Qed.

(** A torn line reads as nothing, or as its entry when only the newline is missing. *)
Lemma read_torn torn : torn = [] ∨ torn_ok torn →
  ∃ ghost, entries_of (match torn with [] => [] | _ => omap read_row [torn] end) = Ok ghost ∧ (length ghost ≤ 1)%nat ∧
           (torn = [] → ghost = []).
Proof.
  intros [->|(e & k & Hj & ->)]; [by exists []; split_and!; [|simpl; lia|]|].
  destruct (decide (k < length (json_dumps (document e)))%nat) as [Hk|Hk].
  - exists []. split_and!; [|simpl; lia|done]. destruct (take k _) eqn:E; [done|]. rewrite <- E, omap_read_row, read_torn_row by done. done.
  - rewrite take_ge by lia. destruct (jo_braces _ Hj) as [mid Hm]. exists [stored e]. split_and!; [|simpl; lia|by rewrite Hm].
    pose proof (read_object e Hj) as Hr. rewrite Hm in Hr |- *. rewrite omap_read_row, Hr. cbn [omap list_omap entries_of].
    by rewrite from_document.
Qed.

Lemma read_segment s : segment_ok s →
  ∃ ghost, read_entries (sw_file s.1) = Ok ((stored <$> s.2) ++ ghost) ∧ (length ghost ≤ 1)%nat ∧
           (sw_ends_whole s.1 = true → ghost = []).
Proof.
  intros [(torn & Hf & Ht & He) Hj _ _]. destruct (read_torn torn Ht) as (ghost & Hg & Hl & Hn).
  exists ghost. split_and!; [|done|auto]. unfold read_entries. rewrite Hf, read_jsonl_lines by (done || by apply torn_plain).
  by rewrite entries_of_documents, Hg.
Qed.

Lemma max_seq_le es e : e ∈ es → (en_seq e ≤ max_seq es)%Z.
Proof.
  assert (∀ m l x, x ∈ l → (en_seq x ≤ foldr (λ e m, Z.max (en_seq e) m) m l)%Z) as H1.
  { intros m l x. induction l as [|y l IH]; [by intros ?%not_elem_of_nil|]. cbn. intros [->|?%IH]%elem_of_cons; lia. }
  assert (∀ m l, (m ≤ foldr (λ e m, Z.max (en_seq e) m) m l)%Z) as H2.
  { intros m l. induction l as [|y l IH]; cbn; lia. }
  destruct es as [|y es]; [by intros ?%not_elem_of_nil|]. cbn [max_seq]. intros [->|Hx]%elem_of_cons; auto.
Qed.

Lemma segment_ok_step s s' : segment_ok s → segment_step s s' → segment_ok s'.
Proof.
  intros Hok Hstep. pose proof Hok as [(torn & Hf & Ht & He) Hj Hs Hl].
  destruct Hstep as [v build w done r w' Hd E|w done w' E]; cbn [fst snd] in *.
  - unfold append in E. set (e := build (sw_last_seq w + 1)%Z) in *. clearbody e.
    destruct (negb _ || negb _) eqn:Eg; [injection E as <- <-; exact Hok|].
    apply orb_false_iff in Eg as [_ Eseq%negb_false_iff%Z.eqb_eq].
    destruct (if sw_ends_whole w then None else ev_cut v) as [x|]; [injection E as <- <-; exact Hok|].
    assert ((if sw_ends_whole w then sw_file w else cut_torn_tail (sw_file w)) = concat (line_of <$> done)) as Hfile.
    { destruct (sw_ends_whole w); [by rewrite Hf, (He eq_refl), app_nil_r|].
      rewrite Hf. apply cut_torn_tail_spec; [apply lines_whole|apply plain_no_newline, torn_plain, Ht]. }
    rewrite Hfile in E. destruct (append_line v (line_of e) _) as [[[]|x] f] eqn:Ea; apply append_line_spec in Ea; injection E as <- <-.
    + split; cbn [fst snd sw_file sw_last_seq sw_ends_whole].
      * exists []. split_and!; [|by left|done]. rewrite Ea, fmap_app, concat_app. cbn. by rewrite !app_nil_r.
      * apply Forall_app_2; [done|by constructor].
      * rewrite fmap_app. apply StronglySorted_app_2; [|done|repeat constructor].
        intros x y (x0 & -> & Hx)%list_elem_of_fmap Hy. cbn in Hy. apply list_elem_of_singleton in Hy as ->.
        rewrite Forall_forall in Hl. specialize (Hl _ Hx). rewrite Eseq. by apply Zle_lt_succ.
      * apply Forall_app_2; [|by constructor]. eapply Forall_impl; [exact Hl|]. intros x Hx. rewrite Eseq. by apply Z.le_le_succ_r.
    + destruct Ea as (k & Hk & ->). split; cbn [fst snd sw_file sw_last_seq sw_ends_whole]; try done.
      exists (take k (line_of e)). split_and!; [done| |done]. right. exists e, k. split; [done|]. unfold line_of in *.
      rewrite length_app in Hk. cbn [length] in Hk. apply take_app_le. lia.
  - unfold open_segment in E. apply res_bind_ok in E as (name & _ & E).
    destruct (read_segment _ Hok) as (ghost & Hr & _ & _). cbn [fst snd] in Hr. rewrite Hr in E. cbn in E. injection E as <-.
    split; cbn [fst snd sw_file sw_last_seq sw_ends_whole]; [by exists torn|done|done|].
    apply Forall_forall. intros e Hin. change (en_seq e) with (en_seq (stored e)). apply max_seq_le, elem_of_app. left.
    apply list_elem_of_fmap. by exists e.
Qed.

(** C24: A segment holds exactly the rows whose appends returned.  From an empty file, through any sequence of appends, with
    the kernel's writes split anywhere, failing anywhere and cut back or not, and of writers opened on what another
    left: reading gives every entry an append returned, in order and as stored, followed by nothing after a successful
    append and otherwise by at most one entry; what the next append keeps of the file is exactly those entries; and
    their numbers are strictly increasing. *)
Theorem segment_keeps_rows (writer : string) w0 w done :
  open_segment writer [] = Ok w0 → rtc segment_step (w0, []) (w, done) →
  (∃ ghost, read_entries (sw_file w) = Ok ((stored <$> done) ++ ghost) ∧ (length ghost ≤ 1)%nat ∧
            (sw_ends_whole w = true → ghost = [])) ∧
  read_entries (cut_torn_tail (sw_file w)) = Ok (stored <$> done) ∧
  StronglySorted Z.lt (en_seq <$> done).
Proof.
  intros Ho Hrun. assert (segment_ok (w, done)) as Hok.
  { apply (rtc_preserves segment_step segment_ok _ _ segment_ok_step) in Hrun; [done|].
    unfold open_segment in Ho. apply res_bind_ok in Ho as (name & _ & Ho). cbn in Ho. injection Ho as <-.
    split; cbn; [exists []; by split_and!; [|left|]|constructor..]. }
  split; [by apply (read_segment (w, done))|]. destruct Hok as [(torn & Hf & Ht & _) Hj Hs _]. cbn [fst snd] in *. split; [|done].
  rewrite Hf, cut_torn_tail_spec; [|apply lines_whole|by apply plain_no_newline, torn_plain].
  unfold read_entries. pose proof (read_jsonl_lines done [] Hj (Forall_nil_2 _)) as Hr. rewrite app_nil_r in Hr. rewrite Hr.
  rewrite entries_of_documents. cbn. by rewrite app_nil_r.
Qed.
End segments.

(** The summary of a row is one line of at most [SUMMARY_LIMIT] characters. *)
Lemma clip_summary_bound text : (String.length (clip_summary text) ≤ SUMMARY_LIMIT)%nat.
Proof.
  unfold clip_summary. destruct (_ <=? _)%nat eqn:E; [by apply Nat.leb_le in E|]. apply Nat.leb_gt in E.
  assert (∀ n s, (String.length (String.substring 0 n s) ≤ n)%nat) as Hsub.
  { induction n as [|n IH]; intros [|c s]; cbn; try lia. specialize (IH s). lia. }
  assert (∀ s t, String.length (s +:+ t) = (String.length s + String.length t)%nat) as Happ.
  { induction s as [|c s IH]; intros t'; [done|]. change (S (String.length (s +:+ t')) = S (String.length s + String.length t')). by rewrite IH. }
  rewrite Happ. specialize (Hsub (SUMMARY_LIMIT - 3)%nat (join " " (py_words text))).
  change (String.length "...") with 3%nat. unfold SUMMARY_LIMIT in *. lia.
Qed.

(** ** A segment of two rows *)

Module SegmentDemo.
Abbreviation Q := QArith_base.Q.
Definition entry (n : Z) : Entry (F := Q) :=
  {| en_entry_id := "w:" +:+ pretty n; en_seq := n; en_at := f_of_Z n; en_writer := "w"; en_role := R_GATE; en_actor := "gate";
     en_kind := E_JUDGEMENT; en_branch := "b01"; en_parent := "c1"; en_summary := "committed"; en_detail := [] |}.
(** A codec for these rows: the number of the row in braces. *)
Definition dumps (v : pyval Q) : list ascii :=
  match v with
  | PDict d => match dget "seq" d with Some (PInt n) => chars ("{" +:+ pretty n +:+ "}") | _ => [] end
  | _ => []
  end.
Definition loads (text : list ascii) : option (pyval Q) :=
  if bool_decide (text = chars "{1}") then Some (document (entry 1))
  else if bool_decide (text = chars "{2}") then Some (document (entry 2)) else None.

Lemma entry_json n : n = 1%Z ∨ n = 2%Z → json_object dumps loads (document (entry n)).
Proof.
  intros [->| ->]; split.
  1,5: vm_compute; reflexivity.
  1,4: repeat constructor.
  1,3: by eexists [_].
  all: intros k Hk; vm_compute in Hk; destruct k as [|[|[|k]]]; [vm_compute; reflexivity..|lia].
Qed.

Definition good : Env := {| ev_cut := None; ev_writes := [Some 2%nat]; ev_truncate := true |}.
(** The disk fills up before the newline, and cutting back fails too. *)
Definition full : Env := {| ev_cut := None; ev_writes := [Some 3%nat; None]; ev_truncate := false |}.
Definition w0 : SegmentWriter := {| sw_writer := "w"; sw_file := []; sw_last_seq := 0; sw_ends_whole := false |}.
Definition w1 : SegmentWriter := Eval vm_compute in (append dumps good entry w0).2.
Definition w2 : SegmentWriter := Eval vm_compute in (append dumps full entry w1).2.
Definition w3 : SegmentWriter := Eval vm_compute in (append dumps good entry w2).2.
End SegmentDemo.

Lemma segment_keeps_rows_witness :
  read_entries SegmentDemo.loads (cut_torn_tail (sw_file SegmentDemo.w3)) =
    Ok (stored <$> [SegmentDemo.entry 1; SegmentDemo.entry 2]).
Proof.
  apply (segment_keeps_rows SegmentDemo.dumps SegmentDemo.loads "w" SegmentDemo.w0); [vm_compute; reflexivity|].
  eapply rtc_l; [eapply (ss_append _ _ SegmentDemo.good SegmentDemo.entry); [apply SegmentDemo.entry_json; by left|reflexivity]|].
  eapply rtc_l; [eapply (ss_append _ _ SegmentDemo.full SegmentDemo.entry); [apply SegmentDemo.entry_json; by right|vm_compute; reflexivity]|].
  eapply rtc_l; [eapply (ss_append _ _ SegmentDemo.good SegmentDemo.entry); [apply SegmentDemo.entry_json; by right|vm_compute; reflexivity]|].
  vm_compute. apply rtc_refl.
Defined.

(** A row that was never appended is read, and is gone after the next append: with only the newline missing, what a failed
    append left is a JSON text. *)
Lemma unfinished_row_is_read :
  (append SegmentDemo.dumps SegmentDemo.full SegmentDemo.entry SegmentDemo.w1).1 = Raise (OSError "write") ∧
  read_entries SegmentDemo.loads (sw_file SegmentDemo.w2) = Ok [SegmentDemo.entry 1; SegmentDemo.entry 2] ∧
  read_entries SegmentDemo.loads (cut_torn_tail (sw_file SegmentDemo.w2)) = Ok [SegmentDemo.entry 1].
Proof. split_and!; vm_compute; reflexivity. Qed.

(** A row whose sequence number is an infinite float is no entry, and is not skipped either: the error it raises is not
    among those the reader catches, so one such row makes the whole segment unreadable. *)
Lemma infinite_seq_stops_the_reader {F} `{!FloatOps F} (e : Entry (F := F)) (f : F) rows :
  f_isfinite f = false → feqb f f = true →
  entries_of (dset "seq" (PFloat f) (document_dict e) :: rows) =
    Raise (OverflowError "cannot convert float infinity to integer").
Proof.
  intros Hi Hf. assert (∀ k v, k ≠ "seq" → dget k (to_dict e) = Some v →
    dget k (dset "seq" (PFloat f) (document_dict e)) = Some (key_sorted v)) as H.
  { intros k v Hk Hd. rewrite dget_dset_ne by done. by apply document_item. }
  cbn [entries_of]. unfold from_dict, item. rewrite (H "v" _ ltac:(done) eq_refl), (H "detail" _ ltac:(done) eq_refl),
    (H "id" _ ltac:(done) eq_refl), dget_dset_eq.
  set (kd := key_sorted (PDict (en_detail e))). assert (∃ d', kd = PDict d') as [d' ->] by by eexists.
  cbn [is_version key_sorted Z.eqb Pos.eqb negb mbind res_bind py_int]. by rewrite Hi, Hf.
Qed.
