(* ===== verification/CardLeases.v ===== *)
(** * Card leases

    [hyperloom/sandbox/gpu_pool.py] and [multibranch/toolbox/branch_leases.py]: the pool of cards the measurement
    sandboxes and the leases share, and the leases that take cards out of it for a branch's agent or a tool job.

    The session's state holds the pool, the fields of [BranchLeases], the cards of the running tests and of the calls of
    [lease] that are under way: a call promises its cards, polls the pool for them, is granted a lease and has the
    grant recorded, and other calls run in between.  Working directories, environments and the ledger's rows are left
    out; a grant or a record that fails is a step of its own. *)

From stdpp Require Import base list strings pretty relations sets gmap.
From Stdlib Require Import ZArith Lia.
From S2P Require Import Prelude PyFloat PyVal Dicts.
Local Open Scope Z_scope.

(** ** The pool *)

Record Pool := { gp_all : list Z; gp_free : list Z }.

Definition pool_new (gpus : list Z) : res Pool :=
  if bool_decide (NoDup gpus)
  then let all := sort_by Z.leb gpus in Ok {| gp_all := all; gp_free := all |}
  else Raise (ValueError "duplicate GPU ids in pool").

(** [acquire] with a wait of 0: the calls under test poll it. *)
Definition acquire (count : Z) (p : Pool) : res (list Z) * Pool :=
  if count <=? 0 then (Ok [], p)
  else if Z.of_nat (length (gp_all p)) <? count
  then (Raise (SandboxUnavailable ("template needs " +:+ pretty count +:+ " GPUs but the pool owns "
                                   +:+ pretty (Z.of_nat (length (gp_all p))))), p)
  else if Z.of_nat (length (gp_free p)) <? count
  then (Raise (SandboxUnavailable ("no " +:+ pretty count +:+ " free GPUs")), p)
  else (Ok (take (Z.to_nat count) (gp_free p)),
        {| gp_all := gp_all p; gp_free := drop (Z.to_nat count) (gp_free p) |}).

(** The loop of [release]; a card that is not out stops it, with the ones before it appended and unsorted. *)
Fixpoint put_back (all free cards : list Z) : res unit * list Z :=
  match cards with
  | [] => (Ok (), sort_by Z.leb free)
  | c :: cards' =>
      if bool_decide (c ∉ all) || bool_decide (c ∈ free)
      then (Raise (ValueError ("GPU " +:+ pretty c +:+ " is not leased from this pool")), free)
      else put_back all (free ++ [c]) cards'
  end.
Definition pool_release (cards : list Z) (p : Pool) : res unit * Pool :=
  let '(r, free) := put_back (gp_all p) (gp_free p) cards in (r, {| gp_all := gp_all p; gp_free := free |}).

(** ** The session *)

Record Lease := { le_holder : string; le_gpus : list Z }.
(** Where a call of [lease] is: waiting for its cards, with its cards, or with its grant being recorded. *)
Inductive Call := Waiting (cards : Z) | Taken (gpus : list Z) | Recording (id : string) (gpus : list Z).

Record Session := {
  ls_pool : Pool;
  ls_promised : list (string * Z);
  ls_granted : list (string * Lease);
  ls_held_out : list Z;
  ls_closed : bool;
  ls_lost : list Z;
  ls_tests : list (string * list Z);
  ls_calls : list (string * Call)
}.
Implicit Types (s : Session).

Definition with_pool (p : Pool) s : Session :=
  {| ls_pool := p; ls_promised := ls_promised s; ls_granted := ls_granted s; ls_held_out := ls_held_out s;
     ls_closed := ls_closed s; ls_lost := ls_lost s; ls_tests := ls_tests s; ls_calls := ls_calls s |}.
Definition with_promised (d : list (string * Z)) s : Session :=
  {| ls_pool := ls_pool s; ls_promised := d; ls_granted := ls_granted s; ls_held_out := ls_held_out s;
     ls_closed := ls_closed s; ls_lost := ls_lost s; ls_tests := ls_tests s; ls_calls := ls_calls s |}.
Definition with_granted (d : list (string * Lease)) s : Session :=
  {| ls_pool := ls_pool s; ls_promised := ls_promised s; ls_granted := d; ls_held_out := ls_held_out s;
     ls_closed := ls_closed s; ls_lost := ls_lost s; ls_tests := ls_tests s; ls_calls := ls_calls s |}.
Definition with_held_out (l : list Z) s : Session :=
  {| ls_pool := ls_pool s; ls_promised := ls_promised s; ls_granted := ls_granted s; ls_held_out := l;
     ls_closed := ls_closed s; ls_lost := ls_lost s; ls_tests := ls_tests s; ls_calls := ls_calls s |}.
Definition with_tests (d : list (string * list Z)) s : Session :=
  {| ls_pool := ls_pool s; ls_promised := ls_promised s; ls_granted := ls_granted s; ls_held_out := ls_held_out s;
     ls_closed := ls_closed s; ls_lost := ls_lost s; ls_tests := d; ls_calls := ls_calls s |}.
Definition with_calls (d : list (string * Call)) s : Session :=
  {| ls_pool := ls_pool s; ls_promised := ls_promised s; ls_granted := ls_granted s; ls_held_out := ls_held_out s;
     ls_closed := ls_closed s; ls_lost := ls_lost s; ls_tests := ls_tests s; ls_calls := d |}.

Definition session_new (p : Pool) (lost : list Z) : Session :=
  {| ls_pool := p; ls_promised := []; ls_granted := []; ls_held_out := []; ls_closed := false; ls_lost := lost;
     ls_tests := []; ls_calls := [] |}.

Section leases.
(** The cards one test needs. *)
Context (cards_per_test : Z).

(** *** Capacity *)

Definition total_cards s : Z := Z.of_nat (length (gp_all (ls_pool s))).
Definition usable_cards s : Z := total_cards s - Z.of_nat (length (ls_lost s)).
Definition leased s : Z := zsum (dvals (ls_promised s)) + Z.of_nat (length (ls_held_out s)).
(** [MeasurementCapacity.measurement_cards] of [_capacity] *)
Definition measurement_cards s : Z := usable_cards s - Z.min (leased s) (usable_cards s).
Definition tests_at_once s : Z := Z.max 1 (measurement_cards s / cards_per_test).
Definition can_lease s (cards : Z) : bool := cards_per_test <=? measurement_cards s - cards.

(** [refuse_unfit_cards] *)
Definition refuse_unfit_cards (cards measuring : Z) : res unit :=
  if cards <? 1 then Raise (RequestRejected ("a lease needs at least one card, not " +:+ pretty cards) "invalid_request")
  else raise_if (measuring - cards <? cards_per_test)
    (RequestRejected ("leasing " +:+ pretty cards +:+ " of the " +:+ pretty measuring
       +:+ " cards tests run on would leave fewer than the " +:+ pretty cards_per_test +:+ " one test needs")
       "lease_leaves_no_measurement").

(** *** A call of [lease] *)

(** [_promise] *)
Definition promise (holder : string) (cards : Z) s : res unit * Session :=
  if din holder (ls_promised s)
  then (Raise (RequestRejected (repr_str holder +:+ " already holds a lease") "lease_exists"), s)
  else match refuse_unfit_cards cards (measurement_cards s) with
       | Raise e => (Raise e, s)
       | Ok _ => (Ok (), with_promised (dset holder cards (ls_promised s)) s)
       end.
(** [_forget] *)
Definition forget (holder : string) (gpus : list Z) s : res unit * Session :=
  if din holder (ls_promised s) then
    let s1 := with_promised (ddel holder (ls_promised s)) s in
    match gpus with
    | [] => (Ok (), s1)
    | _ => let '(r, p) := pool_release gpus (ls_pool s1) in (r, with_pool p s1)
    end
  else (Raise (KeyError holder), s).

(** The call ends with [forget]; an error there takes the place of the one that ended it. *)
Definition give_up_lease (e : exn) (holder : string) (gpus : list Z) : Io Session unit := λ s,
  match forget holder gpus (with_calls (ddel holder (ls_calls s)) s) with
  | (Ok _, s') => (Raise e, s')
  | (Raise e', s') => (Raise e', s')
  end.
Definition CLOSING : exn := SandboxUnavailable "the toolbox is closing".

(** From the call to its first wait: the cards are promised; when the leases are closed the pool is not asked. *)
Definition lease_call (holder : string) (cards : Z) : Io Session unit := λ s,
  match promise holder cards s with
  | (Raise e, s') => (Raise e, s')
  | (Ok _, s') =>
      if ls_closed s' then
        match forget holder [] s' with (Ok _, s2) => (Raise CLOSING, s2) | (Raise e, s2) => (Raise e, s2) end
      else (Ok (), with_calls (dset holder (Waiting cards) (ls_calls s')) s')
  end.
(** One turn of [_take]: the cards are taken, or the call waits on. *)
Definition poll (holder : string) (cards : Z) : Io Session unit := λ s,
  if ls_closed s then give_up_lease CLOSING holder [] s
  else match acquire cards (ls_pool s) with
       | (Ok gpus, p) => (Ok (), with_calls (dset holder (Taken gpus) (ls_calls s)) (with_pool p s))
       | (Raise _, _) => (Ok (), s)
       end.
(** [_grant] *)
Definition grant (id holder : string) (gpus : list Z) : Io Session unit := λ s,
  if ls_closed s then give_up_lease CLOSING holder gpus s
  else (Ok (), with_calls (dset holder (Recording id gpus) (ls_calls s))
                 (with_granted (dset id {| le_holder := holder; le_gpus := gpus |} (ls_granted s)) s)).
(** [_recorded] and the return of the lease *)
Definition recorded (id holder : string) (gpus : list Z) (failed : option exn) : Io Session unit := λ s,
  match failed with
  | None => (Ok (), with_calls (ddel holder (ls_calls s)) s)
  | Some e => give_up_lease e holder gpus (with_granted (ddel id (ls_granted s)) s)
  end.

(** *** Release and close *)

(** The first part of [release]: the lease is gone and its cards are held out. *)
Definition release (id : string) s : Session :=
  match dget id (ls_granted s) with
  | None => s
  | Some l =>
      with_held_out (ls_held_out s ++ le_gpus l)
        (with_promised (ddel (le_holder l) (ls_promised s)) (with_granted (ddel id (ls_granted s)) s))
  end.
(** [_give_back] of cards the kernel lists nothing on, at once or by the drain. *)
Definition give_back (cards : list Z) s : res unit * Session :=
  let s1 := with_held_out (filter (λ c, c ∉ cards) (ls_held_out s)) s in
  let '(r, p) := pool_release cards (ls_pool s1) in (r, with_pool p s1).
Definition mark_closed s : Session :=
  {| ls_pool := ls_pool s; ls_promised := ls_promised s; ls_granted := ls_granted s; ls_held_out := ls_held_out s;
     ls_closed := true; ls_lost := ls_lost s; ls_tests := ls_tests s; ls_calls := ls_calls s |}.

(** *** Tests *)

Definition start_test (name : string) (cards : Z) s : res unit * Session :=
  match acquire cards (ls_pool s) with
  | (Ok gpus, p) => (Ok (), with_tests (dset name gpus (ls_tests s)) (with_pool p s))
  | (Raise e, _) => (Raise e, s)
  end.
Definition end_test (name : string) (gpus : list Z) s : res unit * Session :=
  let '(r, p) := pool_release gpus (ls_pool s) in (r, with_tests (ddel name (ls_tests s)) (with_pool p s)).
(** A test whose processes are not provably gone: its cards are never given back. *)
Definition lose_test (name : string) (gpus : list Z) s : Session :=
  {| ls_pool := ls_pool s; ls_promised := ls_promised s; ls_granted := ls_granted s; ls_held_out := ls_held_out s;
     ls_closed := ls_closed s; ls_lost := ls_lost s ++ gpus; ls_tests := ddel name (ls_tests s);
     ls_calls := ls_calls s |}.

(** ** Steps *)

Definition recording (id : string) s : bool :=
  existsb (λ x, match x.2 with Recording id' _ => bool_decide (id' = id) | _ => false end) (ls_calls s).

Lemma not_recording id s h gpus : recording id s = false → dget h (ls_calls s) ≠ Some (Recording id gpus).
Proof.
  unfold recording. intros Hr H%dget_elem. induction (ls_calls s) as [|[h' x] d IH]; [by apply not_elem_of_nil in H|].
  cbn [existsb snd] in Hr. apply orb_false_iff in Hr as [Hx Hr]. apply elem_of_cons in H as [[= <- <-]|H]; [|auto].
  by rewrite bool_decide_eq_true_2 in Hx.
Qed.

Inductive lease_step : Session → Session → Prop :=
| st_call s holder cards : lease_step s (lease_call holder cards s).2
| st_poll s holder cards :
    dget holder (ls_calls s) = Some (Waiting cards) → lease_step s (poll holder cards s).2
| st_timeout s e holder cards :
    dget holder (ls_calls s) = Some (Waiting cards) → lease_step s (give_up_lease e holder [] s).2
| st_grant s id holder gpus :
    dget holder (ls_calls s) = Some (Taken gpus) → dget id (ls_granted s) = None → recording id s = false →
    lease_step s (grant id holder gpus s).2
| st_no_grant s e holder gpus :
    dget holder (ls_calls s) = Some (Taken gpus) → lease_step s (give_up_lease e holder gpus s).2
| st_recorded s id holder gpus failed :
    dget holder (ls_calls s) = Some (Recording id gpus) → lease_step s (recorded id holder gpus failed s).2
| st_release s id : ls_closed s = true ∨ recording id s = false → lease_step s (release id s)
| st_give_back s cards :
    NoDup cards → Forall (λ c, c ∈ ls_held_out s) cards → lease_step s (give_back cards s).2
| st_close s : lease_step s (mark_closed s)
| st_start_test s name cards : dget name (ls_tests s) = None → lease_step s (start_test name cards s).2
| st_end_test s name gpus : dget name (ls_tests s) = Some gpus → lease_step s (end_test name gpus s).2.

(** With tests whose cards are lost. *)
Inductive any_step : Session → Session → Prop :=
| any_lease s s' : lease_step s s' → any_step s s'
| any_lost s name gpus : dget name (ls_tests s) = Some gpus → any_step s (lose_test name gpus s).

(** ** The cards are conserved *)

Definition occ (c : Z) (l : list Z) : Z := count (λ x, bool_decide (x = c)) l.
Definition call_occ (c : Z) (x : Call) : Z := match x with Taken gpus => occ c gpus | _ => 0 end.
Definition call_size (x : Call) : Z :=
  match x with Waiting n => n | Taken gpus => Z.of_nat (length gpus) | Recording _ _ => 0 end.
Definition lease_size (l : Lease) : Z := Z.of_nat (length (le_gpus l)).

(** How often a card is free, with a test, with a call, leased, held out or lost. *)
Definition places (c : Z) s : Z :=
  occ c (gp_free (ls_pool s)) + wsum (occ c) (ls_tests s) + wsum (call_occ c) (ls_calls s)
  + wsum (λ l, occ c (le_gpus l)) (ls_granted s) + occ c (ls_held_out s) + occ c (ls_lost s).

Record cards_ok s : Prop := {
  co_all : NoDup (gp_all (ls_pool s));
  co_places : ∀ c, places c s = occ c (gp_all (ls_pool s));
  co_nodup : NoDup (ls_promised s).*1;
  co_pos : Forall (λ n, 1 ≤ n) (dvals (ls_promised s));
  co_granted : ∀ id l, dget id (ls_granted s) = Some l → dget (le_holder l) (ls_promised s) = Some (lease_size l);
  co_calls : ∀ h x, dget h (ls_calls s) = Some x →
    match x with
    | Recording id gpus =>
        match dget id (ls_granted s) with
        | Some l => l = {| le_holder := h; le_gpus := gpus |}
        | None => dget h (ls_promised s) = None
        end
    | _ => dget h (ls_promised s) = Some (call_size x) ∧ ∀ id l, dget id (ls_granted s) = Some l → le_holder l ≠ h
    end;
  co_recording : ls_closed s = false → ∀ h id gpus, dget h (ls_calls s) = Some (Recording id gpus) →
    dget id (ls_granted s) = Some {| le_holder := h; le_gpus := gpus |};
  co_one : ∀ id id' l l', dget id (ls_granted s) = Some l → dget id' (ls_granted s) = Some l' →
    le_holder l = le_holder l' → id = id';
  co_sum : zsum (dvals (ls_promised s)) = wsum call_size (ls_calls s) + wsum lease_size (ls_granted s);
  co_unique : NoDup (ls_calls s).*1 ∧ NoDup (ls_granted s).*1 ∧ NoDup (ls_tests s).*1
}.

Lemma occ_app c l l' : occ c (l ++ l') = occ c l + occ c l'.
Proof. apply count_app. Qed.
Lemma occ_nonneg c l : 0 ≤ occ c l.
Proof. apply count_nonneg. Qed.
Lemma occ_pos c l : 0 < occ c l ↔ c ∈ l.
Proof.
  unfold occ. split.
  - induction l as [|x l IH]; [done|]. rewrite count_cons. case_bool_decide as E; [subst; left|]. intros H%IH. by right.
  - intros H. eapply count_pos; [exact H|]. by apply bool_decide_eq_true_2.
Qed.
Lemma occ_NoDup l : NoDup l ↔ ∀ c, occ c l ≤ 1.
Proof.
  unfold occ. induction l as [|x l IH]; [split; [done|constructor]|]. rewrite NoDup_cons, IH. split.
  - intros [Hn H] c. rewrite count_cons. case_bool_decide as E; [subst x|specialize (H c); simpl; lia].
    assert (occ c l = 0) as Hz; [|unfold occ in Hz; simpl; lia]. pose proof (occ_nonneg c l).
    destruct (decide (0 < occ c l)) as [?%occ_pos|]; [done|lia].
  - intros H. split.
    + intros Hin%occ_pos. specialize (H x). rewrite count_cons, bool_decide_eq_true_2 in H by done. unfold occ in Hin. simpl in H. lia.
    + intros c. specialize (H c). rewrite count_cons in H. destruct (bool_decide _); simpl in H; lia.
Qed.
Lemma occ_perm c l l' : l ≡ₚ l' → occ c l = occ c l'.
Proof. intros H. unfold occ, count. by rewrite H. Qed.

(** A release of cards that are all out succeeds and frees them. *)
Lemma put_back_ok all free cards :
  NoDup (free ++ cards) → Forall (λ c, c ∈ all) cards →
  ∃ free', put_back all free cards = (Ok (), free') ∧ free' ≡ₚ free ++ cards.
Proof.
  revert free. induction cards as [|c cards IH]; intros free Hnd Hin; cbn [put_back].
  - rewrite app_nil_r. eexists. split; [done|]. apply sort_by_perm.
  - apply Forall_cons in Hin as [Hc Hin]. rewrite (bool_decide_eq_false_2 (c ∉ all)) by auto.
    rewrite bool_decide_eq_false_2. 2:{ apply NoDup_app in Hnd as (_ & Hd & _). intros H. apply (Hd c H). left. }
    destruct (IH (free ++ [c])) as (free' & -> & Hp); [by rewrite <- app_assoc|done|]. exists free'. split; [done|]. by rewrite Hp, <- app_assoc.
Qed.

Lemma release_ok p cards :
  NoDup (gp_all p) → (∀ c, occ c (gp_free p) + occ c cards ≤ occ c (gp_all p)) →
  ∃ p', pool_release cards p = (Ok (), p') ∧ gp_all p' = gp_all p ∧
        ∀ c, occ c (gp_free p') = occ c (gp_free p) + occ c cards.
Proof.
  intros Hnd Hle. pose proof (proj1 (occ_NoDup _) Hnd) as H1.
  destruct (put_back_ok (gp_all p) (gp_free p) cards) as (free' & E & Hp).
  - apply occ_NoDup. intros c. rewrite occ_app. specialize (Hle c). specialize (H1 c). lia.
  - apply Forall_forall. intros c Hc%occ_pos. apply occ_pos. specialize (Hle c). pose proof (occ_nonneg c (gp_free p)). lia.
  - unfold pool_release. rewrite E. eexists. split; [done|]. split; [done|]. intros c. cbn. by rewrite (occ_perm c _ _ Hp), occ_app.
Qed.

Lemma acquire_ok count p r p' :
  acquire count p = (r, p') →
  match r with
  | Ok gpus => gp_all p' = gp_all p ∧ (∀ c, occ c (gp_free p) = occ c (gp_free p') + occ c gpus) ∧
               Z.of_nat (length gpus) = Z.max 0 count
  | Raise _ => p' = p
  end.
Proof.
  unfold acquire. destruct (count <=? 0) eqn:E0; [|destruct (_ <? count); [by intros [= <- <-]|]; destruct (_ <? count) eqn:E2].
  - intros [= <- <-]. split_and!; [done| |simpl; lia]. intros c. unfold occ. rewrite count_nil. lia.
  - by intros [= <- <-].
  - intros [= <- <-]. split_and!; [done| |].
    + intros c. cbn. rewrite <- (take_drop (Z.to_nat count) (gp_free p)) at 1. rewrite occ_app. lia.
    + rewrite length_take. lia.
Qed.

(** *** The steps keep it *)

Lemma call_occ_nonneg c x : 0 ≤ call_occ c x.
Proof. destruct x; cbn; [lia|apply occ_nonneg|lia]. Qed.

(** The parts of a card count are not negative, so none exceeds the whole. *)
Lemma parts_nonneg c s :
  0 ≤ occ c (gp_free (ls_pool s)) ∧ 0 ≤ wsum (occ c) (ls_tests s) ∧ 0 ≤ wsum (call_occ c) (ls_calls s) ∧
  0 ≤ wsum (λ l, occ c (le_gpus l)) (ls_granted s) ∧ 0 ≤ occ c (ls_held_out s) ∧ 0 ≤ occ c (ls_lost s).
Proof.
  split_and!; try apply occ_nonneg; apply wsum_nonneg; intros v; apply occ_nonneg || apply call_occ_nonneg.
Qed.
Lemma test_cards_out c s name gpus : cards_ok s → dget name (ls_tests s) = Some gpus →
  occ c (gp_free (ls_pool s)) + occ c gpus ≤ occ c (gp_all (ls_pool s)).
Proof.
  intros [_ Hpl _ _ _ _ _ _ _ _] Hn. rewrite <- Hpl. unfold places. pose proof (parts_nonneg c s).
  pose proof (wsum_ge (occ c) _ _ _ (occ_nonneg c) Hn). lia.
Qed.
Lemma call_cards_out c s h gpus : cards_ok s → dget h (ls_calls s) = Some (Taken gpus) →
  occ c (gp_free (ls_pool s)) + occ c gpus ≤ occ c (gp_all (ls_pool s)).
Proof.
  intros [_ Hpl _ _ _ _ _ _ _ _] Hn. rewrite <- Hpl. unfold places. pose proof (parts_nonneg c s).
  pose proof (wsum_ge (call_occ c) _ _ _ (call_occ_nonneg c) Hn) as Hge. cbn in Hge. lia.
Qed.
Lemma lease_cards_out c s id l : cards_ok s → dget id (ls_granted s) = Some l →
  occ c (gp_free (ls_pool s)) + occ c (le_gpus l) ≤ occ c (gp_all (ls_pool s)).
Proof.
  intros [_ Hpl _ _ _ _ _ _ _ _] Hn. rewrite <- Hpl. unfold places. pose proof (parts_nonneg c s).
  pose proof (wsum_ge (λ l, occ c (le_gpus l)) _ _ _ (λ l, occ_nonneg c (le_gpus l)) Hn) as Hge. cbn in Hge. lia.
Qed.

(** Unfolds the card count of a session one part of which changed. *)
Ltac count_places c :=
  match goal with H : ∀ c, places c _ = _ |- _ =>
    intros c; specialize (H c); unfold places in *; cbn [ls_pool ls_tests ls_calls ls_granted ls_held_out ls_lost with_pool
      with_promised with_granted with_held_out with_tests with_calls lose_test mark_closed] in *
  end.

Lemma start_test_ok name cards s : cards_ok s → dget name (ls_tests s) = None → cards_ok (start_test name cards s).2.
Proof.
  intros [Hall Hpl Hnd Hpos Hgr Hca Hrec Hone Hsum Hu] Hn. unfold start_test.
  destruct (acquire cards (ls_pool s)) as [[gpus|e] p] eqn:E; [|by split]. apply acquire_ok in E as (Ha & Ho & _).
  split; cbn; try done; [by rewrite Ha|..].
  - count_places c. rewrite Ha, (wsum_dset_new _ _ _ _ Hn). specialize (Ho c). lia.
  - destruct Hu as (? & ? & ?). split_and!; [done..|]. by apply NoDup_dset.
Qed.

Lemma end_test_ok name gpus s : cards_ok s → dget name (ls_tests s) = Some gpus → cards_ok (end_test name gpus s).2.
Proof.
  intros Hok Hn. pose proof Hok as [Hall Hpl Hnd Hpos Hgr Hca Hrec Hone Hsum Hu]. unfold end_test.
  destruct (release_ok (ls_pool s) gpus Hall) as (p & -> & Ha & Ho); [intros c; by eapply test_cards_out|].
  split; cbn; try done; [by rewrite Ha|..].
  - count_places c. rewrite Ha, (wsum_ddel _ _ _ _ Hn), Ho. lia.
  - destruct Hu as (? & ? & ?). split_and!; [done..|]. by apply NoDup_ddel.
Qed.

Lemma lose_test_ok name gpus s : cards_ok s → dget name (ls_tests s) = Some gpus → cards_ok (lose_test name gpus s).
Proof.
  intros [Hall Hpl Hnd Hpos Hgr Hca Hrec Hone Hsum Hu] Hn. split; cbn; try done.
  - count_places c. rewrite (wsum_ddel _ _ _ _ Hn), occ_app. lia.
  - destruct Hu as (? & ? & ?). split_and!; [done..|]. by apply NoDup_ddel.
Qed.

(** Nothing but [closed] changes. *)
Lemma mark_closed_ok s : cards_ok s → cards_ok (mark_closed s).
Proof. intros [Hall Hpl Hnd Hpos Hgr Hca Hrec Hone Hsum Hu]. by split. Qed.

Lemma give_back_ok cards s : cards_ok s → NoDup cards → Forall (λ c, c ∈ ls_held_out s) cards → cards_ok (give_back cards s).2.
Proof.
  intros [Hall Hpl Hnd Hpos Hgr Hca Hrec Hone Hsum Hu] Hc Hin.
  assert (∀ c, occ c (ls_held_out s) = occ c (filter (λ x, x ∉ cards) (ls_held_out s)) + occ c cards) as Hsplit.
  { intros c. pose proof (proj1 (occ_NoDup _) Hall c) as H1. pose proof (proj1 (occ_NoDup _) Hc c) as H2.
    pose proof (parts_nonneg c s). rewrite <- (Hpl c) in H1. unfold places in H1.
    rewrite Forall_forall in Hin. pose proof (occ_nonneg c cards). pose proof (occ_nonneg c (filter (λ x, x ∉ cards) (ls_held_out s))).
    destruct (decide (c ∈ cards)) as [Hcin|Hcn].
    - assert (¬ 0 < occ c (filter (λ x, x ∉ cards) (ls_held_out s))) by (intros [? _]%occ_pos%list_elem_of_filter; done).
      pose proof (proj2 (occ_pos c (ls_held_out s)) (Hin _ Hcin)). pose proof (proj2 (occ_pos c cards) Hcin). lia.
    - assert (¬ 0 < occ c cards) by (intros ?%occ_pos; done).
      assert (occ c (filter (λ x, x ∉ cards) (ls_held_out s)) = occ c (ls_held_out s)); [|lia].
      unfold occ, count. f_equal. f_equal. rewrite list_filter_filter. apply list_filter_iff. intros x.
      rewrite bool_decide_eq_true. naive_solver. }
  unfold give_back. destruct (release_ok (ls_pool (with_held_out (filter (λ c, c ∉ cards) (ls_held_out s)) s)) cards Hall)
    as (p & -> & Ha & Ho).
  { intros c. cbn. rewrite <- (Hpl c). unfold places. pose proof (parts_nonneg c s). specialize (Hsplit c).
    pose proof (occ_nonneg c (filter (λ x, x ∉ cards) (ls_held_out s))). lia. }
  split; cbn; try done; [by rewrite Ha|]. count_places c. rewrite Ha, Ho. cbn. specialize (Hsplit c). lia.
Qed.

Lemma release_step_ok id s : cards_ok s → ls_closed s = true ∨ recording id s = false → cards_ok (release id s).
Proof.
  intros [Hall Hpl Hnd Hpos Hgr Hca Hrec Hone Hsum (Hu1 & Hu2 & Hu3)] Hr. unfold release.
  destruct (dget id (ls_granted s)) as [l|] eqn:El; [|by split].
  assert (∀ id' l', dget id' (ddel id (ls_granted s)) = Some l' → dget id' (ls_granted s) = Some l' ∧ le_holder l' ≠ le_holder l) as Hsub.
  { intros id' l'. rewrite dget_ddel by done. case_bool_decide as E; [done|]. intros H. split; [done|]. intros Hh.
    by apply E, (Hone id' id l' l). }
  split; cbn [ls_pool ls_promised ls_granted ls_held_out ls_closed ls_lost ls_tests ls_calls with_held_out with_promised with_granted];
    try done.
  - count_places c. rewrite (wsum_ddel _ _ _ _ El), occ_app. lia.
  - by apply NoDup_ddel.
  - by apply Forall_ddel.
  - intros id' l' [H Hne]%Hsub. rewrite dget_ddel_ne by done. eauto.
  - intros h x Hx. specialize (Hca _ _ Hx). destruct x as [n|gpus|id' gpus].
    1,2: destruct Hca as [H1 H2]; split; [rewrite dget_ddel_ne; [done|]; intros ->; by apply (H2 _ _ El)|intros id' l' [? _]%Hsub; eauto].
    rewrite dget_ddel by done. case_bool_decide as E.
    + subst id'. rewrite El in Hca. subst l. by apply dget_ddel_eq.
    + destruct (dget id' (ls_granted s)) eqn:E'; [done|]. rewrite dget_ddel by done. by case_bool_decide.
  - intros Hc h id' gpus Hx. rewrite dget_ddel by done. case_bool_decide as E; [|by apply (Hrec Hc)].
    subst id'. exfalso. destruct Hr as [?|Hr]; [congruence|]. by apply (not_recording id s h gpus Hr).
  - intros id1 id2 l1 l2 [? _]%Hsub [? _]%Hsub. by apply Hone.
  - rewrite (zsum_ddel _ _ _ (Hgr _ _ El)), (wsum_ddel _ _ _ _ El). lia.
  - split_and!; [done| |done]. by apply NoDup_ddel.
Qed.

Ltac fields := cbn [ls_pool ls_promised ls_granted ls_held_out ls_closed ls_lost ls_tests ls_calls with_held_out with_promised
  with_granted with_calls with_pool with_tests lose_test mark_closed] in *.

(** Forgetting a call whose cards, if any, are still its own. *)
Lemma give_up_ok e h x gpus s : cards_ok s → dget h (ls_calls s) = Some x →
  (∃ n, x = Waiting n ∧ gpus = []) ∨ x = Taken gpus → cards_ok (give_up_lease e h gpus s).2.
Proof.
  intros Hok Hx Hg. pose proof Hok as [Hall Hpl Hnd Hpos Hgr Hca Hrec Hone Hsum (Hu1 & Hu2 & Hu3)].
  assert (dget h (ls_promised s) = Some (call_size x) ∧ ∀ id l, dget id (ls_granted s) = Some l → le_holder l ≠ h) as [Hp Hno].
  { specialize (Hca _ _ Hx). destruct Hg as [(n & -> & _)| ->]; exact Hca. }
  assert (∀ c, call_occ c x = occ c gpus) as Hocc by (intros c; destruct Hg as [(n & -> & ->)| ->]; done).
  set (s1 := with_promised (ddel h (ls_promised s)) (with_calls (ddel h (ls_calls s)) s)).
  assert (∀ p, gp_all p = gp_all (ls_pool s) → (∀ c, occ c (gp_free p) = occ c (gp_free (ls_pool s)) + occ c gpus) →
    cards_ok (with_pool p s1)) as Hdone.
  { intros p Ha Ho. split; unfold s1; fields; try done; [by rewrite Ha|..].
    - count_places c. rewrite Ha, Ho, (wsum_ddel _ _ _ _ Hx), Hocc. lia.
    - by apply NoDup_ddel.
    - by apply Forall_ddel.
    - intros id l Hl. rewrite dget_ddel_ne by eauto. eauto.
    - intros h' x'. rewrite dget_ddel by done. case_bool_decide as E; [done|]. intros Hx'. specialize (Hca _ _ Hx').
      rewrite dget_ddel by done. by rewrite bool_decide_eq_false_2.
    - intros Hc h' id' gpus'. rewrite dget_ddel by done. case_bool_decide as E; [done|]. eauto.
    - rewrite (zsum_ddel _ _ _ Hp), (wsum_ddel _ _ _ _ Hx). lia.
    - split_and!; [by apply NoDup_ddel|done..]. }
  unfold give_up_lease, forget. fields. unfold din. rewrite Hp. destruct gpus as [|g gpus'] eqn:Eg.
  - change (cards_ok (with_pool (ls_pool s) s1)). apply Hdone; [done|]. intros c. change (occ c []) with 0. lia.
  - fields. destruct (release_ok (ls_pool s) (g :: gpus') Hall) as (p & -> & Ha & Ho).
    { intros c. destruct Hg as [(n & _ & ?)| ->]; [done|]. by eapply call_cards_out. }
    cbn [snd]. by apply Hdone.
Qed.

Lemma poll_ok h n s : cards_ok s → dget h (ls_calls s) = Some (Waiting n) → cards_ok (poll h n s).2.
Proof.
  intros Hok Hx. unfold poll. destruct (ls_closed s) eqn:Ec; [apply (give_up_ok _ _ (Waiting n)); eauto|].
  destruct (acquire n (ls_pool s)) as [[gpus|e] p] eqn:E; [|done]. apply acquire_ok in E as (Ha & Ho & Hl).
  destruct Hok as [Hall Hpl Hnd Hpos Hgr Hca Hrec Hone Hsum (Hu1 & Hu2 & Hu3)]. destruct (Hca _ _ Hx) as [Hp Hno]. cbn in Hp.
  assert (1 ≤ n) as Hn by (rewrite Forall_forall in Hpos; apply Hpos; by eapply dget_val).
  split; cbn [snd]; fields; try done; [by rewrite Ha|..].
  - count_places c. rewrite Ha, (wsum_dset_upd _ _ _ _ _ Hx). cbn [call_occ]. specialize (Ho c). lia.
  - intros h' x'. rewrite dget_dset. case_bool_decide as E; [|apply Hca]. subst h'. intros [= <-]. cbn. by rewrite Hl, Z.max_r by lia.
  - intros Hc h' id' gpus'. rewrite dget_dset. case_bool_decide; [done|]. by apply Hrec.
  - rewrite (wsum_dset_upd _ _ _ _ _ Hx). cbn. lia.
  - split_and!; [by apply NoDup_dset|done..].
Qed.

Lemma grant_ok id h gpus s : cards_ok s → dget h (ls_calls s) = Some (Taken gpus) → dget id (ls_granted s) = None →
  recording id s = false → cards_ok (grant id h gpus s).2.
Proof.
  intros Hok Hx Hid Hr. unfold grant. destruct (ls_closed s) eqn:Ec; [apply (give_up_ok _ _ (Taken gpus)); eauto|].
  destruct Hok as [Hall Hpl Hnd Hpos Hgr Hca Hrec Hone Hsum (Hu1 & Hu2 & Hu3)]. destruct (Hca _ _ Hx) as [Hp Hno]. cbn in Hp.
  split; cbn [snd]; fields; try done.
  - count_places c. rewrite (wsum_dset_upd _ _ _ _ _ Hx), (wsum_dset_new _ _ _ _ Hid). cbn. lia.
  - intros id' l'. rewrite dget_dset. case_bool_decide; [intros [= <-]; done|]. eauto.
  - intros h' x'. rewrite dget_dset. case_bool_decide as E.
    + subst h'. intros [= <-]. by rewrite dget_dset_eq.
    + intros Hx'. specialize (Hca _ _ Hx'). destruct x' as [n|g|id' g].
      1,2: destruct Hca as [? H2]; split; [done|]; intros id' l'; rewrite dget_dset; case_bool_decide; [intros [= <-]; done|eauto].
      rewrite dget_dset_ne; [done|]. intros ->. by apply (not_recording id s h' g Hr).
  - intros Hc h' id' gpus'. rewrite dget_dset. case_bool_decide as E; [subst h'; intros [= <- <-]; by rewrite dget_dset_eq|].
    intros Hx'. rewrite dget_dset_ne; [by apply Hrec|]. intros ->. by apply (not_recording id s h' gpus' Hr).
  - intros id1 id2 l1 l2. rewrite !dget_dset. do 2 case_bool_decide; subst; try done.
    + intros [= <-] H2 Hh. by destruct (Hno _ _ H2).
    + intros H1 [= <-] Hh. by destruct (Hno _ _ H1).
    + by apply Hone.
  - rewrite (wsum_dset_upd _ _ _ _ _ Hx), (wsum_dset_new _ _ _ _ Hid).
    change (lease_size {| le_holder := h; le_gpus := gpus |}) with (Z.of_nat (length gpus)). cbn [call_size]. lia.
  - split_and!; [by apply NoDup_dset..|done].
Qed.

Lemma ddel_dset_new {V} k (v : V) d : dget k d = None → ddel k (dset k v d) = d.
Proof.
  induction d as [|[k' v'] d IH]; cbn [dget dset ddel]; [by rewrite bool_decide_eq_true_2|].
  case_bool_decide as E; [done|]. intros H. cbn [ddel]. rewrite bool_decide_eq_false_2 by done. by rewrite IH.
Qed.

(** What a promise checked. *)
Lemma promise_spec h n s r s' : promise h n s = (r, s') →
  match r with
  | Ok _ => dget h (ls_promised s) = None ∧ 1 ≤ n ∧ cards_per_test ≤ measurement_cards s - n ∧
            s' = with_promised (dset h n (ls_promised s)) s
  | Raise _ => s' = s
  end.
Proof.
  unfold promise, din, refuse_unfit_cards, raise_if. destruct (dget h (ls_promised s)) eqn:Ed; [by intros [= <- <-]|].
  destruct (n <? 1) eqn:E1; [by intros [= <- <-]|]. destruct (_ <? cards_per_test) eqn:E2; intros [= <- <-]; [done|].
  split_and!; [done|lia|lia|done].
Qed.

Lemma lease_call_ok h n s : cards_ok s → cards_ok (lease_call h n s).2.
Proof.
  intros Hok. unfold lease_call. destruct (promise h n s) as [[[]|e] s'] eqn:E; apply promise_spec in E; [|by subst s'].
  destruct E as (Hh & Hn & _ & ->). fields. destruct (ls_closed s) eqn:Ec.
  - unfold forget. fields. unfold din. rewrite dget_dset_eq. cbn [snd]. fields. rewrite ddel_dset_new by done. by destruct s.
  - destruct Hok as [Hall Hpl Hnd Hpos Hgr Hca Hrec Hone Hsum (Hu1 & Hu2 & Hu3)].
    assert (dget h (ls_calls s) = None) as Hnc.
    { destruct (dget h (ls_calls s)) as [x|] eqn:Ex; [|done]. pose proof (Hca _ _ Ex) as Hx. destruct x as [m|g|id g].
      1,2: destruct Hx; congruence. pose proof (Hgr _ _ (Hrec Ec _ _ _ Ex)) as H. cbn in H. congruence. }
    split; cbn [snd]; fields; try done.
    + count_places c. rewrite (wsum_dset_new _ _ _ _ Hnc). cbn [call_occ]. lia.
    + by apply NoDup_dset.
    + by apply Forall_dset.
    + intros id l Hl. specialize (Hgr _ _ Hl). rewrite dget_dset_ne; [done|]. intros E. rewrite E in Hgr. congruence.
    + intros h' x'. rewrite dget_dset. case_bool_decide as E.
      * subst h'. intros [= <-]. rewrite dget_dset_eq. split; [done|].
        intros id l Hl Hh'. specialize (Hgr _ _ Hl). congruence.
      * intros Hx'. specialize (Hca _ _ Hx'). rewrite dget_dset_ne by done. done.
    + intros _ h' id' g. rewrite dget_dset. case_bool_decide; [done|]. by apply Hrec.
    + rewrite zsum_dset_new by (by apply dget_None). rewrite (wsum_dset_new _ _ _ _ Hnc). cbn [call_size]. lia.
    + split_and!; [by apply NoDup_dset|done..].
Qed.

(** A lease withdrawn because its grant was not recorded: its cards are the call's again. *)
Lemma withdraw_ok id h gpus s : cards_ok s → dget h (ls_calls s) = Some (Recording id gpus) →
  dget id (ls_granted s) = Some {| le_holder := h; le_gpus := gpus |} →
  cards_ok (with_calls (dset h (Taken gpus) (ls_calls s)) (with_granted (ddel id (ls_granted s)) s)).
Proof.
  intros [Hall Hpl Hnd Hpos Hgr Hca Hrec Hone Hsum (Hu1 & Hu2 & Hu3)] Hx El.
  assert (∀ id' l', dget id' (ddel id (ls_granted s)) = Some l' → dget id' (ls_granted s) = Some l' ∧ le_holder l' ≠ h) as Hsub.
  { intros id' l'. rewrite dget_ddel by done. case_bool_decide as E; [done|]. intros H. split; [done|]. intros Hh.
    by apply E, (Hone id' id l' _ H El). }
  assert (∀ h' g, dget h' (ls_calls s) = Some (Recording id g) → h' = h) as Hone'.
  { intros h' g Hx'. specialize (Hca _ _ Hx'). cbn in Hca. rewrite El in Hca. congruence. }
  split; fields; try done.
  - count_places c. rewrite (wsum_dset_upd _ _ _ _ _ Hx), (wsum_ddel _ _ _ _ El). cbn [call_occ le_gpus]. lia.
  - intros id' l' [H _]%Hsub. eauto.
  - intros h' x'. rewrite dget_dset. case_bool_decide as E.
    + subst h'. intros [= <-]. split; [exact (Hgr _ _ El)|]. by intros id' l' [_ ?]%Hsub.
    + intros Hx'. pose proof (Hca _ _ Hx') as Hc. destruct x' as [n|g|id' g].
      1,2: destruct Hc as [? H2]; split; [done|]; intros id' l' [? _]%Hsub; eauto.
      rewrite dget_ddel by done. case_bool_decide; [subst id'; by destruct E; eapply Hone'|done].
  - intros Hc h' id' g. rewrite dget_dset. case_bool_decide as E; [done|]. intros Hx'. rewrite dget_ddel by done.
    case_bool_decide; [subst id'; by destruct E; eapply Hone'|by apply Hrec].
  - intros id1 id2 l1 l2 [? _]%Hsub [? _]%Hsub. by apply Hone.
  - rewrite (wsum_dset_upd _ _ _ _ _ Hx), (wsum_ddel _ _ _ _ El). 
    change (lease_size {| le_holder := h; le_gpus := gpus |}) with (Z.of_nat (length gpus)). cbn [call_size]. lia.
  - split_and!; [by apply NoDup_dset|by apply NoDup_ddel|done].
Qed.

Lemma ddel_dset {V} k (v : V) d : ddel k (dset k v d) = ddel k d.
Proof.
  induction d as [|[k' v'] d IH]; cbn [dset ddel]; [by rewrite bool_decide_eq_true_2|].
  case_bool_decide as E; cbn [ddel]; [by rewrite bool_decide_eq_true_2|]. rewrite bool_decide_eq_false_2 by done. by rewrite IH.
Qed.

Lemma lease_recorded_ok id h gpus failed s : cards_ok s → dget h (ls_calls s) = Some (Recording id gpus) →
  cards_ok (recorded id h gpus failed s).2.
Proof.
  intros Hok Hx. pose proof Hok as [Hall Hpl Hnd Hpos Hgr Hca Hrec Hone Hsum (Hu1 & Hu2 & Hu3)].
  pose proof (Hca _ _ Hx) as Hst. cbn in Hst.
  assert (cards_ok (with_calls (ddel h (ls_calls s)) s)) as Hplain.
  { split; fields; try done.
    - count_places c. rewrite (wsum_ddel _ _ _ _ Hx). cbn [call_occ]. lia.
    - intros h' x'. rewrite dget_ddel by done. case_bool_decide; [done|]. apply Hca.
    - intros Hc h' id' g. rewrite dget_ddel by done. case_bool_decide; [done|]. by apply Hrec.
    - rewrite (wsum_ddel _ _ _ _ Hx). cbn [call_size]. lia.
    - split_and!; [by apply NoDup_ddel|done..]. }
  destruct failed as [e|]; [|exact Hplain]. cbn [recorded].
  destruct (dget id (ls_granted s)) as [l|] eqn:El.
  - subst l. pose proof (withdraw_ok _ _ _ _ Hok Hx El) as Hw.
    apply (give_up_ok e h (Taken gpus) gpus) in Hw; [|fields; apply dget_dset_eq|by right].
    unfold give_up_lease in *. fields. by rewrite ddel_dset in Hw.
  - unfold give_up_lease, forget. fields. unfold din. rewrite Hst. cbn [snd].
    rewrite (ddel_notin id) by (by apply dget_None). exact Hplain.
Qed.

Lemma cards_ok_step s s' : cards_ok s → any_step s s' → cards_ok s'.
Proof.
  intros Hok Hany. destruct Hany as [s s' Hstep|s name gpus Hn]; [|by apply lose_test_ok]. destruct Hstep.
  - by apply lease_call_ok.
  - by apply poll_ok.
  - eapply give_up_ok; eauto.
  - by apply grant_ok.
  - eapply give_up_ok; eauto.
  - by apply lease_recorded_ok.
  - by apply release_step_ok.
  - by apply give_back_ok.
  - by apply mark_closed_ok.
  - by apply start_test_ok.
  - by apply end_test_ok.
Qed.

(** ** A test's cards are always left *)

(** The leases keep off the cards of one test, as long as no card is lost. *)
Definition leaves_a_test s : Prop := leased s = 0 ∨ leased s + cards_per_test ≤ usable_cards s.

Lemma leased_nonneg s : cards_ok s → 0 ≤ leased s.
Proof.
  intros [_ _ _ Hpos _ _ _ _ _ _]. unfold leased. pose proof (zsum_nonneg (dvals (ls_promised s))) as H.
  assert (0 ≤ zsum (dvals (ls_promised s))); [|lia]. apply H. eapply Forall_impl; [exact Hpos|]. cbn. lia.
Qed.

Lemma leaves_less s s' : cards_ok s' → leaves_a_test s → usable_cards s' = usable_cards s → leased s' ≤ leased s → leaves_a_test s'.
Proof. intros Hok%leased_nonneg. unfold leaves_a_test. intros [H|H] Hu Hl; rewrite Hu; lia. Qed.

Lemma pool_release_all cards p : gp_all (pool_release cards p).2 = gp_all p.
Proof. unfold pool_release. by destruct (put_back _ _ _). Qed.
Lemma acquire_all n p : gp_all (acquire n p).2 = gp_all p.
Proof. unfold acquire. destruct (n <=? 0); [done|]. destruct (_ <? n); [done|]. by destruct (_ <? n). Qed.

Lemma give_up_leases e h gpus s :
  usable_cards (give_up_lease e h gpus s).2 = usable_cards s ∧
  (leased (give_up_lease e h gpus s).2 = leased s ∨
   ∃ n, dget h (ls_promised s) = Some n ∧ leased (give_up_lease e h gpus s).2 = leased s - n).
Proof.
  unfold give_up_lease, forget. fields. unfold din. destruct (dget h (ls_promised s)) as [n|] eqn:E; [|by split; [|left]].
  destruct gpus as [|g gpus]; cbn [snd]; fields.
  - split; [done|]. right. exists n. split; [done|]. unfold leased. fields. rewrite (zsum_ddel _ _ _ E). lia.
  - pose proof (pool_release_all (g :: gpus) (ls_pool s)) as Ha. destruct (pool_release _ _) as [[[]|x] p]; cbn [snd] in *;
    (split; [unfold usable_cards, total_cards; fields; by rewrite Ha|]); right; exists n; (split; [done|]);
    unfold leased; fields; rewrite (zsum_ddel _ _ _ E); lia.
Qed.

Lemma leaves_give_up e h gpus s : cards_ok s → cards_ok (give_up_lease e h gpus s).2 → leaves_a_test s →
  leaves_a_test (give_up_lease e h gpus s).2.
Proof.
  intros Hok Hok' Hl. destruct (give_up_leases e h gpus s) as [Hu [H|(n & Hn & H)]]; eapply leaves_less; try done; [lia|].
  destruct Hok as [_ _ _ Hpos _ _ _ _ _ _]. rewrite Forall_forall in Hpos. specialize (Hpos _ (dget_val _ _ _ Hn)). lia.
Qed.

Lemma leaves_step s s' : 0 ≤ cards_per_test → cards_ok s → leaves_a_test s → lease_step s s' → leaves_a_test s'.
Proof.
  intros Hcpt Hok Hl Hstep. pose proof (cards_ok_step _ _ Hok (any_lease _ _ Hstep)) as Hok'. destruct Hstep.
  - unfold lease_call in *. destruct (promise holder cards s) as [[[]|e] s'] eqn:E; apply promise_spec in E; [|by subst s'].
    destruct E as (Hh & Hn & Hm & ->). fields. destruct (ls_closed s).
    + unfold forget in *. fields. unfold din in *. rewrite dget_dset_eq in *. cbn [snd] in *. fields.
      rewrite ddel_dset_new in * by done. by destruct s.
    + right. unfold measurement_cards in Hm. cbn [snd]. unfold leased, usable_cards, total_cards in *. fields.
      rewrite zsum_dset_new by (by apply dget_None). lia.
  - unfold poll in *. destruct (ls_closed s); [by apply leaves_give_up|].
    pose proof (acquire_all cards (ls_pool s)) as Ha. destruct (acquire cards (ls_pool s)) as [[gpus|e] p]; [|done].
    cbn [snd] in *. eapply leaves_less; [done|exact Hl| |]; unfold leased, usable_cards, total_cards; fields; rewrite ?Ha; lia.
  - by apply leaves_give_up.
  - unfold grant in *. destruct (ls_closed s); [by apply leaves_give_up|]. exact Hl.
  - by apply leaves_give_up.
  - unfold recorded in *. destruct failed as [e|]; [|exact Hl].
    destruct (give_up_leases e holder gpus (with_granted (ddel id (ls_granted s)) s)) as [Hu [Hle|(n & Hn & Hle)]];
      eapply leaves_less; try done; [rewrite Hle; unfold leased; fields; lia|].
    rewrite Hle. fields. destruct Hok as [_ _ _ Hpos _ _ _ _ _ _]. rewrite Forall_forall in Hpos.
    specialize (Hpos _ (dget_val _ _ _ Hn)). unfold leased. fields. lia.
  - unfold release in *. destruct (dget id (ls_granted s)) as [l|] eqn:El; [|done].
    eapply leaves_less; [done|exact Hl|done|]. unfold leased. fields. rewrite length_app.
    destruct Hok as [_ _ _ _ Hgr _ _ _ _ _]. rewrite (zsum_ddel _ _ _ (Hgr _ _ El)). unfold lease_size. lia.
  - unfold give_back in *. pose proof (pool_release_all cards (ls_pool s)) as Ha. fields.
    destruct (pool_release cards (ls_pool s)) as [r p]. cbn [snd] in *. eapply leaves_less; [done|exact Hl| |].
    + unfold usable_cards, total_cards. fields. by rewrite Ha.
    + unfold leased. fields. pose proof (length_filter (λ c, c ∉ cards) (ls_held_out s)). lia.
  - exact Hl.
  - unfold start_test in *. pose proof (acquire_all cards (ls_pool s)) as Ha.
    destruct (acquire cards (ls_pool s)) as [[gpus|e] p]; [|done]. cbn [snd] in *.
    eapply leaves_less; [done|exact Hl| |]; unfold leased, usable_cards, total_cards; fields; rewrite ?Ha; lia.
  - unfold end_test in *. pose proof (pool_release_all gpus (ls_pool s)) as Ha.
    destruct (pool_release gpus (ls_pool s)) as [r p]. cbn [snd] in *.
    eapply leaves_less; [done|exact Hl| |]; unfold leased, usable_cards, total_cards; fields; rewrite ?Ha; lia.
Qed.

Lemma forget_all h gpus s : gp_all (ls_pool (forget h gpus s).2) = gp_all (ls_pool s).
Proof.
  unfold forget. destruct (din _ _); [|done]. destruct gpus as [|g gpus]; [done|]. fields.
  pose proof (pool_release_all (g :: gpus) (ls_pool s)) as Ha. destruct (pool_release _ _) as [r p]. exact Ha.
Qed.
Lemma give_up_all e h gpus s : gp_all (ls_pool (give_up_lease e h gpus s).2) = gp_all (ls_pool s).
Proof.
  unfold give_up_lease. pose proof (forget_all h gpus (with_calls (ddel h (ls_calls s)) s)) as Ha.
  destruct (forget _ _ _) as [[[]|x] s']; exact Ha.
Qed.

(** The pool's cards never change. *)
Lemma any_step_all s s' : any_step s s' → gp_all (ls_pool s') = gp_all (ls_pool s).
Proof.
  intros Hany. destruct Hany as [s s' Hstep|]; [|done]. destruct Hstep; try done.
  - unfold lease_call. destruct (promise holder cards s) as [[[]|e] s'] eqn:E; apply promise_spec in E; [|by subst s'].
    destruct E as (_ & _ & _ & ->). fields. destruct (ls_closed s); [|done].
    pose proof (forget_all holder [] (with_promised (dset holder cards (ls_promised s)) s)) as Ha.
    destruct (forget _ _ _) as [[[]|x] s']; exact Ha.
  - unfold poll. destruct (ls_closed s); [apply give_up_all|]. pose proof (acquire_all cards (ls_pool s)) as Ha.
    destruct (acquire cards (ls_pool s)) as [[gpus|e] p]; [exact Ha|done].
  - apply give_up_all.
  - unfold grant. destruct (ls_closed s); [apply give_up_all|done].
  - apply give_up_all.
  - unfold recorded. destruct failed; [|done]. apply (give_up_all _ _ _ (with_granted _ _)).
  - unfold release. by destruct (dget id (ls_granted s)).
  - unfold give_back. fields. pose proof (pool_release_all cards (ls_pool s)) as Ha. destruct (pool_release _ _) as [r p]. exact Ha.
  - unfold start_test. pose proof (acquire_all cards (ls_pool s)) as Ha. destruct (acquire cards (ls_pool s)) as [[gpus|e] p]; [exact Ha|done].
  - unfold end_test. pose proof (pool_release_all gpus (ls_pool s)) as Ha. destruct (pool_release _ _) as [r p]. exact Ha.
Qed.

Lemma session_new_ok gpus p : pool_new gpus = Ok p → cards_ok (session_new p []) ∧ gp_all p ≡ₚ gpus ∧ NoDup gpus.
Proof.
  unfold pool_new. case_bool_decide as Hnd; [|done]. intros [= <-]. split; [|split; [apply sort_by_perm|done]].
  split; cbn; try done; [by rewrite sort_by_perm| |constructor..|split_and!; constructor].
  intros c. unfold places. fields. change (wsum (occ c) (ls_tests _)) with 0. change (wsum (call_occ c) _) with 0.
  change (wsum _ _) with 0. change (occ c (ls_held_out _)) with 0. change (occ c (ls_lost _)) with 0. cbn [session_new ls_pool gp_free gp_all]. lia.
Qed.

Lemma session_reaches gpus p s : pool_new gpus = Ok p → rtc any_step (session_new p []) s →
  cards_ok s ∧ gp_all (ls_pool s) ≡ₚ gpus ∧ NoDup gpus.
Proof.
  intros Hp Hrun. destruct (session_new_ok gpus p Hp) as (H0 & H1 & H2).
  apply (rtc_preserves any_step (λ s, cards_ok s ∧ gp_all (ls_pool s) = gp_all p)) in Hrun.
  - destruct Hrun as [Hok ->]. by split_and!.
  - intros a b [Ha Hall] Hstep. split; [by eapply cards_ok_step|]. by rewrite (any_step_all _ _ Hstep).
  - by split.
Qed.

(** C16: No card is ever in two places.  Whatever the order of lease calls, polls, grants, recorded or failed, of timeouts,
    releases, drained cards, the close and of tests starting, ending and losing their cards: every card of the pool is in
    exactly one place (free, with a test, with a call, in a lease, held out or lost), and no other card is anywhere. *)
Theorem card_in_one_place (gpus : list Z) (p : Pool) (s : Session) (c : Z) :
  pool_new gpus = Ok p → rtc any_step (session_new p []) s → places c s = Z.b2z (bool_decide (c ∈ gpus)).
Proof.
  intros Hp Hrun. destruct (session_reaches gpus p s Hp Hrun) as ([_ Hpl _ _ _ _ _ _ _ _] & Hall & Hnd).
  rewrite Hpl, (occ_perm c _ _ Hall). pose proof (proj1 (occ_NoDup gpus) Hnd c) as Hle. pose proof (occ_nonneg c gpus).
  case_bool_decide as E; cbn; [apply occ_pos in E; lia|]. destruct (decide (0 < occ c gpus)) as [?%occ_pos|]; [done|lia].
Qed.

(** Counting cards one by one is counting them all. *)
Lemma occ_eq_perm l l' : (∀ c, occ c l = occ c l') → l ≡ₚ l'.
Proof.
  revert l'. induction l as [|x l IH]; intros l' H.
  - destruct l' as [|y l']; [done|]. specialize (H y). assert (0 < occ y (y :: l')) by (apply occ_pos; left).
    change (occ y []) with 0 in H. lia.
  - assert (x ∈ l') as Hx by (apply occ_pos; rewrite <- H; apply occ_pos; left).
    apply elem_of_Permutation in Hx as [l2 Hl2]. rewrite Hl2. constructor. apply IH. intros c. specialize (H c).
    rewrite (occ_perm c _ _ Hl2) in H. unfold occ in *. rewrite !count_cons in H. lia.
Qed.
Lemma wsum_occ {V} (f : V → list Z) c d : wsum (λ v, occ c (f v)) d = occ c (concat (f <$> dvals d)).
Proof. induction d as [|[k v] d IH]; [done|]. rewrite wsum_cons, IH. cbn. by rewrite occ_app. Qed.
Lemma wsum_length {V} (f : V → list Z) d : wsum (λ v, Z.of_nat (length (f v))) d = Z.of_nat (length (concat (f <$> dvals d))).
Proof. induction d as [|[k v] d IH]; [done|]. rewrite wsum_cons, IH.
  change (concat (f <$> dvals ((k, v) :: d))) with (f v ++ concat (f <$> dvals d)). rewrite length_app. lia.
Qed.
Lemma wsum_le_get {V} (f g : V → Z) d : NoDup d.*1 → (∀ k v, dget k d = Some v → f v ≤ g v) → wsum f d ≤ wsum g d.
Proof.
  intros Hnd H. assert (∀ k v, (k, v) ∈ d → f v ≤ g v) as H' by (intros k v Hin; by eapply H, elem_dget). clear Hnd H.
  induction d as [|[k v] d IH]; [done|]. rewrite !wsum_cons. pose proof (H' k v (list_elem_of_here _ _)).
  assert (wsum f d ≤ wsum g d); [|lia]. apply IH. intros k' v' Hin. apply (H' k'). by right.
Qed.
Definition call_cards (x : Call) : list Z := match x with Taken g => g | _ => [] end.

Lemma all_places s : cards_ok s →
  gp_free (ls_pool s) ++ concat (id <$> dvals (ls_tests s)) ++ concat (call_cards <$> dvals (ls_calls s))
    ++ concat (le_gpus <$> dvals (ls_granted s)) ++ ls_held_out s ++ ls_lost s ≡ₚ gp_all (ls_pool s).
Proof.
  intros [_ Hpl _ _ _ _ _ _ _ _]. apply occ_eq_perm. intros c. rewrite <- Hpl, !occ_app. unfold places.
  rewrite <- !wsum_occ. assert (wsum (λ v, occ c (call_cards v)) (ls_calls s) = wsum (call_occ c) (ls_calls s)) as ->.
  { induction (ls_calls s) as [|[h x] d IH]; [done|]. rewrite !wsum_cons, IH. by destruct x. }
  change (wsum (λ v, occ c (id v)) (ls_tests s)) with (wsum (occ c) (ls_tests s)). lia.
Qed.

Lemma lease_step_lost s s' : lease_step s s' → ls_lost s' = ls_lost s.
Proof.
  assert (∀ h gpus s, ls_lost (forget h gpus s).2 = ls_lost s) as Hf.
  { intros h gpus s0. unfold forget. destruct (din _ _); [|done]. destruct gpus; [done|]. fields. by destruct (pool_release _ _). }
  assert (∀ e h gpus s, ls_lost (give_up_lease e h gpus s).2 = ls_lost s) as Hg.
  { intros e h gpus s0. unfold give_up_lease. pose proof (Hf h gpus (with_calls (ddel h (ls_calls s0)) s0)) as H.
    destruct (forget _ _ _) as [[[]|x] s1]; exact H. }
  intros Hstep. destruct Hstep; try done.
  - unfold lease_call. destruct (promise holder cards s) as [[[]|e] s'] eqn:E; apply promise_spec in E; [|by subst s'].
    destruct E as (_ & _ & _ & ->). fields. destruct (ls_closed s); [|done].
    pose proof (Hf holder [] (with_promised (dset holder cards (ls_promised s)) s)) as H.
    destruct (forget _ _ _) as [[[]|x] s']; exact H.
  - unfold poll. destruct (ls_closed s); [apply Hg|]. by destruct (acquire _ _) as [[]].
  - unfold grant. destruct (ls_closed s); [apply Hg|done].
  - unfold recorded. destruct failed; [|done]. apply (Hg _ _ _ (with_granted _ _)).
  - unfold release. by destruct (dget id (ls_granted s)).
  - unfold give_back. fields. by destruct (pool_release _ _).
  - unfold start_test. by destruct (acquire _ _) as [[]].
  - unfold end_test. by destruct (pool_release _ _).
Qed.

(** However many cards are leased, one test's are left.  While no card is lost, the cards promised to leases and those of
    released leases still held out never take the pool below [cards_per_test]: either nothing is leased, or the cards
    that are free or with tests are at least as many as a test needs. *)
Theorem lease_leaves_a_test (gpus : list Z) (p : Pool) (s : Session) :
  0 ≤ cards_per_test → pool_new gpus = Ok p → rtc lease_step (session_new p []) s →
  leased s = 0 ∨
  cards_per_test ≤ Z.of_nat (length (gp_free (ls_pool s))) + wsum (λ l, Z.of_nat (length l)) (ls_tests s).
Proof.
  intros Hcpt Hp Hrun. destruct (session_new_ok gpus p Hp) as (H0 & _ & _).
  assert (cards_ok s ∧ leaves_a_test s ∧ ls_lost s = []) as (Hok & Hl & Hlost).
  { apply (rtc_preserves lease_step (λ s, cards_ok s ∧ leaves_a_test s ∧ ls_lost s = [])) in Hrun; [done| |].
    - intros s1 s2 (H1 & H2 & H3) Hstep. split_and!; [by eapply cards_ok_step, any_lease|by eapply leaves_step|].
      by rewrite (lease_step_lost _ _ Hstep).
    - split_and!; [done|by left|done]. }
  destruct Hl as [Hl|Hl]; [by left|right]. pose proof (Permutation_length (all_places s Hok)) as Hlen.
  rewrite !length_app, Hlost in Hlen. cbn [length] in Hlen.
  unfold usable_cards, total_cards, leased in Hl. rewrite Hlost in Hl. cbn [length] in Hl.
  change (λ l : list Z, Z.of_nat (length l)) with (λ l : list Z, Z.of_nat (length (id l))). rewrite wsum_length.
  assert (Z.of_nat (length (concat (call_cards <$> dvals (ls_calls s)))) ≤ wsum call_size (ls_calls s)) as Hcalls.
  { rewrite <- wsum_length. destruct Hok as [_ _ _ Hpos _ Hca _ _ _ (Hu & _ & _)].
    apply wsum_le_get; [done|]. intros h x Hx. destruct x as [n|g|id g]; cbn; [|lia..]. destruct (Hca _ _ Hx) as [Hn _].
    rewrite Forall_forall in Hpos. specialize (Hpos _ (dget_val _ _ _ Hn)). cbn in Hpos. lia. }
  destruct Hok as [_ _ _ _ _ _ _ _ Hsum _]. rewrite Hsum in Hl.
  assert (wsum lease_size (ls_granted s) = Z.of_nat (length (concat (le_gpus <$> dvals (ls_granted s))))) as Hls by apply (wsum_length le_gpus).
  lia.
Qed.
End leases.

(** ** A pool of four cards *)

Module CardDemo.
Definition pool : Pool := {| gp_all := [0; 1; 2; 3]; gp_free := [0; 1; 2; 3] |}.
Definition s0 : Session := session_new pool [].
(** A branch leases two cards, a test takes the other two, and a second lease is refused. *)
Definition s1 : Session := Eval vm_compute in (lease_call 2 "b01" 2 s0).2.
Definition s2 : Session := Eval vm_compute in (poll "b01" 2 s1).2.
Definition s3 : Session := Eval vm_compute in (grant "l1" "b01" [0; 1] s2).2.
Definition s4 : Session := Eval vm_compute in (start_test "t1" 2 s3).2.
Definition s5 : Session := Eval vm_compute in (lease_call 2 "b02" 1 s4).2.
(** The toolbox closes while the grant is being recorded: the lease is released before the record fails. *)
Definition s6 : Session := Eval vm_compute in release "l1" (mark_closed s5).

Lemma s5_reached : rtc (lease_step 2) s0 s5.
Proof.
  eapply rtc_l; [apply (st_call 2 _ "b01" 2)|]. eapply rtc_l; [apply (st_poll 2 _ "b01" 2); vm_compute; reflexivity|].
  eapply rtc_l; [apply (st_grant 2 _ "l1" "b01" [0; 1]); vm_compute; reflexivity|].
  eapply rtc_l; [apply (st_start_test 2 _ "t1" 2); vm_compute; reflexivity|].
  eapply rtc_l; [apply (st_call 2 _ "b02" 1)|]. vm_compute. apply rtc_refl.
Qed.
End CardDemo.

Lemma card_in_one_place_witness : places 1 CardDemo.s5 = 1.
Proof.
  apply (card_in_one_place 2 [0; 1; 2; 3] CardDemo.pool CardDemo.s5 1); [vm_compute; reflexivity|].
  eapply rtc_subrel; [|exact CardDemo.s5_reached]. intros a b. apply any_lease.
Defined.

Lemma lease_leaves_a_test_witness :
  leased CardDemo.s5 = 2 ∧
  (leased CardDemo.s5 = 0 ∨
   2 ≤ Z.of_nat (length (gp_free (ls_pool CardDemo.s5))) + wsum (λ l, Z.of_nat (length l)) (ls_tests CardDemo.s5)).
Proof.
  split; [vm_compute; reflexivity|].
  apply (lease_leaves_a_test 2 [0; 1; 2; 3] CardDemo.pool CardDemo.s5);
    [lia|vm_compute; reflexivity|exact CardDemo.s5_reached].
Defined.

(** A record that fails after the close is told as a [KeyError] of the holder, in place of its own error: the promise the
    call takes back went with the lease the close released. *)
Lemma close_hides_the_record_error :
  dget "b01" (ls_calls CardDemo.s6) = Some (Recording "l1" [0; 1]) ∧
  (recorded "l1" "b01" [0; 1] (Some (SandboxUnavailable "lease l1 could not be recorded")) CardDemo.s6).1
    = Raise (KeyError "b01").
Proof. split; vm_compute; reflexivity. Qed.
