(* ===== verification/LeaseLedger.v ===== *)
(** * The lease ledger

    [multibranch/toolbox/lease_ledger.py] over the lease records of the blackboard ([record_lease_start] and
    [record_lease_end] of [blackboard/local/blackboard.py], [card_holds] of [blackboard/local/views.py]): a start when a
    lease's cards are granted, an end as cards go back.  The card time of the session's GPU budget is read from these
    records, so an error of the ledger may charge a card too long but never too short.

    A write of the blackboard may fail; the ends of the drain threads are written after they are given.  The texts of the
    refusals leave out the list of cards and the text of the exception they quote; the sandbox of a hosted lease, which
    only the summary of its row shows, is left out. *)

From stdpp Require Import base list strings pretty relations sets gmap.
From Stdlib Require Import ZArith QArith Lia.
From S2P Require Import Prelude PyFloat PyVal Dicts.

Inductive LeaseKind := LK_AUTONOMOUS | LK_DEV | LK_TOOL_JOB.
#[global] Instance LeaseKind_eq_dec : EqDecision LeaseKind.
Proof. solve_decision. Defined.
Inductive LeaseEndReason := LE_RELEASED | LE_SESSION_CLOSE | LE_TOOLBOX_LOST.

Section ledger.
Context {F : Type} `{!FloatOps F}.

Record LeaseStart := {
  st_lease_id : string; st_holder : string; st_branch_id : string; st_kind : LeaseKind; st_cards : Z;
  st_started_at : F; st_tool : string; st_gpu_ids : list Z
}.
Definition card_ids (s : LeaseStart) : list Z :=
  match st_gpu_ids s with [] => Z.of_nat <$> seq 0 (Z.to_nat (st_cards s)) | gpus => gpus end.
Record LeaseEnd := { nd_lease_id : string; nd_ended_at : F; nd_reason : LeaseEndReason; nd_gpu_ids : list Z }.

(** ** The records of the blackboard *)

Record Board := { bd_branches : list string; bd_starts : list (string * LeaseStart); bd_ends : list LeaseEnd }.
Implicit Types (b : Board) (s : LeaseStart) (e : LeaseEnd).

Definition record_lease_start s b : res Board :=
  let id := st_lease_id s in
  _ ← raise_if (negb (bool_decide (st_branch_id s ∈ bd_branches b)))
        (ValueError ("lease " +:+ id +:+ ": the lineage has not opened branch " +:+ repr_str (st_branch_id s)));
  _ ← raise_if (din id (bd_starts b)) (ValueError ("lease " +:+ id +:+ " already started"));
  _ ← raise_if ((st_cards s <? 1)%Z
        || (negb (bool_decide (st_gpu_ids s = []))
            && negb (Z.of_nat (length (remove_dups (st_gpu_ids s))) =? st_cards s)%Z))
        (ValueError ("lease " +:+ id +:+ " holds " +:+ pretty (st_cards s) +:+ " cards but names other GPUs"));
  _ ← raise_if (negb (bool_decide (bool_decide (st_kind s = LK_TOOL_JOB) = negb (String.eqb (st_tool s) EmptyString))))
        (ValueError ("lease " +:+ id +:+ ": a tool's job names its tool, and only a tool's job does"));
  Ok {| bd_branches := bd_branches b; bd_starts := dset id s (bd_starts b); bd_ends := bd_ends b |}.

Definition record_lease_end e b : res Board :=
  match dget (nd_lease_id e) (bd_starts b) with
  | None => Raise (ValueError ("lease " +:+ nd_lease_id e +:+ " never started"))
  | Some s =>
      if forallb (λ c, bool_decide (c ∈ card_ids s)) (nd_gpu_ids e)
      then Ok {| bd_branches := bd_branches b; bd_starts := bd_starts b; bd_ends := bd_ends b ++ [e] |}
      else Raise (ValueError ("lease " +:+ nd_lease_id e +:+ " holds no such card"))
  end.

(** [card_holds]: when each card of a lease went back; a card's first return stands. *)
Definition end_cards s e : list Z := match nd_gpu_ids e with [] => card_ids s | gpus => gpus end.
Definition first_return s (t : F) (back : gmap Z F) (c : Z) : gmap Z F :=
  if bool_decide (c ∈ card_ids s) then match back !! c with Some _ => back | None => <[c := t]> back end else back.
Definition fold_end (id : string) s (back : gmap Z F) e : gmap Z F :=
  if bool_decide (nd_lease_id e = id) then foldl (first_return s (nd_ended_at e)) back (end_cards s e) else back.
Definition returned_of (id : string) s (ends : list LeaseEnd) : gmap Z F := foldl (fold_end id s) ∅ ends.
Definition hold_closed (id : string) s b : bool :=
  forallb (λ c, bool_decide (is_Some (returned_of id s (bd_ends b) !! c))) (card_ids s).

(** ** The ledger

    [lg_pending] holds the ends given to the blackboard and not yet written: those of [_writes], which the toolbox's loop
    writes, and those [recover] and [close] write themselves, one after the other. *)

Record Ledger := {
  lg_board : Board; lg_out : list (string * list Z); lg_unrecorded : list string; lg_pending : list LeaseEnd;
  lg_closed : bool
}.
Implicit Types (l : Ledger).

Definition started s (fails : option exn) : Io Ledger unit := λ l,
  let id := st_lease_id s in
  match (match fails with Some x => Raise x | None => record_lease_start s (lg_board l) end) with
  | Raise (ValueError m) =>
      (Raise (RequestRejected ("the blackboard refused lease " +:+ id +:+ ": " +:+ m) "invalid_request"), l)
  | Raise x => (Raise (SandboxUnavailable ("lease " +:+ id +:+ " could not be recorded")), l)
  | Ok b => (Ok (), {| lg_board := b; lg_out := dset id (card_ids s) (lg_out l); lg_unrecorded := lg_unrecorded l;
                       lg_pending := lg_pending l; lg_closed := lg_closed l |})
  end.

Definition add_unrecorded (id : string) (unrecorded : list string) : list string :=
  if bool_decide (id ∈ unrecorded) then unrecorded else unrecorded ++ [id].

(** A pending end that is not written leaves its lease to the close. *)
Definition given_up e (rest : list LeaseEnd) l : Ledger :=
  {| lg_board := lg_board l; lg_out := lg_out l; lg_unrecorded := add_unrecorded (nd_lease_id e) (lg_unrecorded l);
     lg_pending := rest; lg_closed := lg_closed l |}.

(** [_write] of a pending end; a failure keeps the lease for the close to end. *)
Definition write_end (fails : bool) e (rest : list LeaseEnd) l : Ledger :=
  match record_lease_end e (lg_board l) with
  | Ok b => if fails then given_up e rest l
            else {| lg_board := b; lg_out := lg_out l; lg_unrecorded := lg_unrecorded l; lg_pending := rest;
                    lg_closed := lg_closed l |}
  | Raise _ => given_up e rest l
  end.

(** [_submit]: without the toolbox's loop nothing is written. *)
Definition submit (bound : bool) e l : Ledger :=
  {| lg_board := lg_board l; lg_out := lg_out l;
     lg_unrecorded := if bound then lg_unrecorded l else add_unrecorded (nd_lease_id e) (lg_unrecorded l);
     lg_pending := if bound then lg_pending l ++ [e] else lg_pending l; lg_closed := lg_closed l |}.

(** [out.difference_update(gpu_ids or tuple(out))], and the lease goes when nothing of it is out. *)
Definition left_out (gpus out : list Z) : list Z := filter (λ c, c ∉ match gpus with [] => out | _ => gpus end) out.
Definition with_out (id : string) (left : list Z) (d : list (string * list Z)) : list (string * list Z) :=
  match left with [] => ddel id d | _ => dset id left d end.

Definition returned (id : string) (gpus : list Z) (now : F) (bound : bool) l : Ledger :=
  match dget id (lg_out l) with
  | None => l
  | Some out =>
      if lg_closed l then l
      else
        submit bound {| nd_lease_id := id; nd_ended_at := now; nd_reason := LE_RELEASED; nd_gpu_ids := gpus |}
          {| lg_board := lg_board l; lg_out := with_out id (left_out gpus out) (lg_out l); lg_unrecorded := lg_unrecorded l;
             lg_pending := lg_pending l; lg_closed := false |}
  end.

(** The leases the close ends, each once, in the order of their first mention. *)
Definition still_out l : list string :=
  reverse (remove_dups (reverse ((lg_out l).*1 ++ sorted_set (lg_unrecorded l)))).
Definition close_end (now : F) (id : string) : LeaseEnd :=
  {| nd_lease_id := id; nd_ended_at := now; nd_reason := LE_SESSION_CLOSE; nd_gpu_ids := [] |}.
Definition close (now : F) l : Ledger :=
  {| lg_board := lg_board l; lg_out := []; lg_unrecorded := [];
     lg_pending := lg_pending l ++ (close_end now <$> still_out l); lg_closed := true |}.

(** [recover]: the leases an earlier toolbox left open, ended at the last time the blackboard saw it. *)
Definition open_starts b : list (string * LeaseStart) := filter (λ x, hold_closed x.1 x.2 b = false) (bd_starts b).
Definition lost_end (seen : option F) (x : string * LeaseStart) : LeaseEnd :=
  {| nd_lease_id := x.1;
     nd_ended_at := match seen with
                    | None => st_started_at x.2
                    | Some t => if fltb t (st_started_at x.2) then st_started_at x.2 else t
                    end;
     nd_reason := LE_TOOLBOX_LOST; nd_gpu_ids := [] |}.
Definition recover (seen : option F) b : Ledger :=
  {| lg_board := b; lg_out := []; lg_unrecorded := []; lg_pending := lost_end seen <$> open_starts b;
     lg_closed := false |}.

(** ** The steps

    The pending ends are written in any order, each write may fail, and cards come back between any two steps.  No lease
    starts once the toolbox is closing ([BranchLeases.lease] refuses it), and the ledger is closed once. *)

Inductive ledger_step : relation Ledger :=
| ls_start s fails l r l' : lg_closed l = false → started s fails l = (r, l') → ledger_step l l'
| ls_return id gpus now bound l : ledger_step l (returned id gpus now bound l)
| ls_write fails e es1 es2 l : lg_pending l = es1 ++ e :: es2 → ledger_step l (write_end fails e (es1 ++ es2) l)
| ls_close now l : lg_closed l = false → ledger_step l (close now l).

(** ** What the records say *)

Definition covered (id : string) s (es : list LeaseEnd) (c : Z) : Prop :=
  ∃ e, e ∈ es ∧ nd_lease_id e = id ∧ c ∈ end_cards s e.

Lemma first_return_is_Some s t back c c' :
  is_Some (first_return s t back c !! c') ↔ is_Some (back !! c') ∨ (c' = c ∧ c ∈ card_ids s).
Proof.
  unfold first_return. case_bool_decide as Hc; [|naive_solver].
  destruct (back !! c) as [t0|] eqn:Hb; [naive_solver|].
  destruct (decide (c' = c)) as [->|Hne]; [rewrite lookup_insert_eq; naive_solver|].
  rewrite lookup_insert_ne by done. naive_solver.
Qed.
Lemma returns_is_Some s t back cs c' :
  is_Some (foldl (first_return s t) back cs !! c') ↔ is_Some (back !! c') ∨ (c' ∈ cs ∧ c' ∈ card_ids s).
Proof.
  revert back. induction cs as [|c cs IH]; intros back; cbn [foldl]; [set_solver|].
  rewrite IH, first_return_is_Some. set_solver.
Qed.
Lemma fold_ends_is_Some id s back es c :
  c ∈ card_ids s → is_Some (foldl (fold_end id s) back es !! c) ↔ is_Some (back !! c) ∨ covered id s es c.
Proof.
  intros Hc. revert back. induction es as [|e es IH]; intros back; cbn [foldl].
  { unfold covered. set_solver. }
  rewrite IH. unfold fold_end. case_bool_decide as He; [rewrite returns_is_Some|]; unfold covered; set_solver.
Qed.

(** The board shows a card of a lease as returned exactly when an end covers it. *)
Lemma returned_of_is_Some id s es c :
  c ∈ card_ids s → is_Some (returned_of id s es !! c) ↔ covered id s es c.
Proof. intros Hc. unfold returned_of. rewrite fold_ends_is_Some by done. rewrite lookup_empty. unfold is_Some. naive_solver. Qed.

Lemma hold_closed_true id s b : hold_closed id s b = true ↔ ∀ c, c ∈ card_ids s → covered id s (bd_ends b) c.
Proof.
  unfold hold_closed. rewrite forallb_forall. split; intros H c Hc.
  - apply returned_of_is_Some; [done|]. apply list_elem_of_In in Hc. specialize (H c Hc). by apply bool_decide_eq_true in H.
  - apply bool_decide_eq_true. apply list_elem_of_In in Hc. apply returned_of_is_Some; auto.
Qed.

Lemma covered_mono id s es es' c : es ⊆ es' → covered id s es c → covered id s es' c.
Proof. unfold covered. set_solver. Qed.
Lemma covered_all id s es e c :
  e ∈ es → nd_lease_id e = id → nd_gpu_ids e = [] → c ∈ card_ids s → covered id s es c.
Proof. intros He Hid Hg Hc. exists e. unfold end_cards. by rewrite Hg. Qed.
Lemma elem_of_add_unrecorded id x un : x ∈ add_unrecorded id un ↔ x = id ∨ x ∈ un.
Proof. unfold add_unrecorded. case_bool_decide; set_solver. Qed.

(** ** The invariant *)

(** The ends of the blackboard are ends of its leases. *)
Definition board_coherent b : Prop := ∀ e, e ∈ bd_ends b → is_Some (dget (nd_lease_id e) (bd_starts b)).

Record ledger_inv l : Prop := {
  li_ends : ∀ e, e ∈ bd_ends (lg_board l) ++ lg_pending l → is_Some (dget (nd_lease_id e) (bd_starts (lg_board l)));
  li_unrecorded : ∀ id, id ∈ lg_unrecorded l → is_Some (dget id (bd_starts (lg_board l)));
  li_closed : lg_closed l = true → lg_out l = [];
  li_keys : NoDup (lg_out l).*1;
  li_out : ∀ id out, dget id (lg_out l) = Some out → ∃ s, dget id (bd_starts (lg_board l)) = Some s ∧
    out ⊆ card_ids s ∧ ∀ c, c ∈ out → ¬ covered id s (bd_ends (lg_board l) ++ lg_pending l) c;
  li_open : ∀ id s, dget id (bd_starts (lg_board l)) = Some s → id ∈ lg_unrecorded l ∨ ∀ c, c ∈ card_ids s →
    (∃ out, dget id (lg_out l) = Some out ∧ c ∈ out) ∨ covered id s (bd_ends (lg_board l) ++ lg_pending l) c
}.

Lemma record_start_ok s b b' : record_lease_start s b = Ok b' →
  dget (st_lease_id s) (bd_starts b) = None ∧ bd_starts b' = dset (st_lease_id s) s (bd_starts b) ∧ bd_ends b' = bd_ends b.
Proof.
  unfold record_lease_start. rewrite !raise_if_bind. intros (_ & Hd & _ & _ & [= <-]). cbn.
  unfold din in Hd. by destruct (dget _ _).
Qed.
Lemma record_end_ok e b b' : record_lease_end e b = Ok b' → bd_starts b' = bd_starts b ∧ bd_ends b' = bd_ends b ++ [e].
Proof. unfold record_lease_end. destruct (dget _ _); [|done]. case_match; [|done]. by intros [= <-]. Qed.

Lemma recover_inv seen b : board_coherent b → NoDup (bd_starts b).*1 → ledger_inv (recover seen b).
Proof.
  intros Hb Hnd. split; cbn [lg_board lg_out lg_pending lg_unrecorded recover]; [|set_solver|done|constructor|done|].
  - intros e [He|He]%elem_of_app; [by apply Hb|]. apply list_elem_of_fmap in He as ([id s] & -> & Hs). cbn.
    apply list_elem_of_filter in Hs as [_ Hs]. rewrite (elem_dget id s); done.
  - intros id s Hs. right. intros c Hc. right. destruct (hold_closed id s b) eqn:Hh.
    + apply (covered_mono _ _ (bd_ends b)); [set_solver|]. by apply hold_closed_true.
    + apply (covered_all _ _ _ (lost_end seen (id, s))); try done. apply elem_of_app. right.
      apply list_elem_of_fmap. exists (id, s). split; [done|]. apply list_elem_of_filter. split; [done|]. by apply dget_elem.
Qed.

Lemma started_inv s fails l r l' : ledger_inv l → lg_closed l = false → started s fails l = (r, l') → ledger_inv l'.
Proof.
  intros [He Hu Hcl Hk Ho Hop] Hnc Hs. unfold started in Hs.
  destruct (match fails with Some x => Raise x | None => record_lease_start s (lg_board l) end) as [b|x] eqn:Hr.
  2: { by destruct x; simplify_eq. }
  injection Hs as <- <-. destruct fails; [done|]. apply record_start_ok in Hr as (Hn & Hst & Hen).
  assert (Hfresh : ∀ e, e ∈ bd_ends (lg_board l) ++ lg_pending l → nd_lease_id e ≠ st_lease_id s).
  { intros e Hin E. apply He in Hin. rewrite E, Hn in Hin. by destruct Hin. }
  split; cbn [lg_board lg_out lg_pending lg_unrecorded]; rewrite ?Hst, ?Hen.
  - intros e Hin. rewrite dget_dset. case_bool_decide; [done|]. by apply He.
  - intros id Hin. rewrite dget_dset. case_bool_decide; [done|]. by apply Hu.
  - by rewrite Hnc.
  - by apply NoDup_dset.
  - intros id out. rewrite !dget_dset. case_bool_decide as E; [|apply Ho]. intros [= <-]. exists s. split_and!; [done|done|].
    intros c _ (e & Hin & E' & _). subst. by apply (Hfresh e).
  - intros id s0. setoid_rewrite dget_dset. case_bool_decide as E; [|apply Hop]. intros [= <-]. right. intros c Hc. left. eauto.
Qed.

Lemma given_up_inv e es1 es2 l : ledger_inv l → lg_pending l = es1 ++ e :: es2 → ledger_inv (given_up e (es1 ++ es2) l).
Proof.
  intros [He Hu Hcl Hk Ho Hop] Hp. rewrite Hp in *.
  split; cbn [given_up lg_board lg_out lg_pending lg_unrecorded]; [intros e' He'; apply He; set_solver| |done|done| |].
  - intros id [->|Hin]%elem_of_add_unrecorded; [apply He; set_solver|by apply Hu].
  - intros id out Hout. destruct (Ho _ _ Hout) as (s & Hs & Hsub & Hc). exists s. split_and!; [done|done|].
    intros c Hin Hcov. apply (Hc c Hin). revert Hcov. apply covered_mono. set_solver.
  - intros id s Hs. rewrite elem_of_add_unrecorded. destruct (decide (id = nd_lease_id e)) as [->|Hne]; [by left; left|].
    destruct (Hop _ _ Hs) as [|Hc]; [by left; right|]. right. intros c Hin.
    destruct (Hc c Hin) as [|(e' & He' & Hid & Hce)]; [by left|]. right. exists e'. split_and!; [|done|done]. set_solver.
Qed.

Lemma write_end_inv fails e es1 es2 l : ledger_inv l → lg_pending l = es1 ++ e :: es2 →
  ledger_inv (write_end fails e (es1 ++ es2) l).
Proof.
  intros Hl Hp. pose proof (given_up_inv _ _ _ _ Hl Hp) as Hkept. destruct Hl as [He Hu Hcl Hk Ho Hop]. rewrite Hp in *.
  unfold write_end. destruct (record_lease_end e (lg_board l)) as [b|] eqn:Hr; [|done]. destruct fails; [done|].
  apply record_end_ok in Hr as [Hst Hen].
  assert (Hsame : ∀ e', e' ∈ (bd_ends (lg_board l) ++ [e]) ++ es1 ++ es2 ↔ e' ∈ bd_ends (lg_board l) ++ es1 ++ e :: es2) by set_solver.
  split; cbn [lg_board lg_out lg_pending lg_unrecorded]; rewrite ?Hst, ?Hen; [intros e'; rewrite Hsame; apply He|done|done|done| |];
    unfold covered in *; setoid_rewrite Hsame; done.
Qed.

Lemma close_inv now l : ledger_inv l → ledger_inv (close now l).
Proof.
  intros [He Hu Hcl Hk Ho Hop].
  assert (Hstill : ∀ id, id ∈ still_out l ↔ id ∈ (lg_out l).*1 ∨ id ∈ lg_unrecorded l).
  { intros id. unfold still_out. by rewrite elem_of_reverse, elem_of_remove_dups, elem_of_reverse, elem_of_app, elem_of_sorted_set. }
  assert (Hknown : ∀ id, id ∈ still_out l → is_Some (dget id (bd_starts (lg_board l)))).
  { intros id [Hin|]%Hstill; [|by apply Hu]. apply dget_is_Some in Hin as [out Hout]. apply Ho in Hout as (s & -> & _). done. }
  split; cbn [close lg_board lg_out lg_pending lg_unrecorded]; rewrite ?app_assoc; [|set_solver|done|constructor|done|].
  - intros e [Hin|Hin]%elem_of_app; [by apply He|]. apply list_elem_of_fmap in Hin as (id & -> & Hid). by apply Hknown.
  - intros id s Hs. right. intros c Hc. right. destruct (decide (id ∈ still_out l)) as [Hin|Hout].
    + apply (covered_all _ _ _ (close_end now id)); try done. apply elem_of_app. right. by apply list_elem_of_fmap_2.
    + rewrite Hstill in Hout. destruct (Hop _ _ Hs) as [|H]; [tauto|].
      destruct (H c Hc) as [(out & Hg & _)|Hcov]; [|revert Hcov; apply covered_mono; set_solver].
      destruct Hout. left. apply dget_is_Some. eauto.
Qed.

(** What a return leaves out is what its end does not cover. *)
Lemma left_out_spec s gpus out e c : out ⊆ card_ids s → nd_gpu_ids e = gpus → c ∈ out → c ∈ left_out gpus out ↔ c ∉ end_cards s e.
Proof.
  intros Hsub Hg Hc. unfold left_out, end_cards. rewrite list_elem_of_filter, Hg.
  destruct gpus; [|tauto]. split; [tauto|]. intros []. by apply Hsub.
Qed.
Lemma dget_with_out id id' left d : NoDup d.*1 → id' ≠ id → dget id' (with_out id left d) = dget id' d.
Proof. intros Hd Hne. destruct left; cbn [with_out]; [rewrite dget_ddel by done|rewrite dget_dset]; by rewrite bool_decide_false. Qed.
Lemma dget_with_out_eq id left d out : NoDup d.*1 → dget id (with_out id left d) = Some out → out = left.
Proof. intros Hd. destruct left; cbn [with_out]; [by rewrite dget_ddel_eq|by rewrite dget_dset_eq; intros [= <-]]. Qed.
Lemma with_out_elem id left d c : c ∈ left → dget id (with_out id left d) = Some left.
Proof. destruct left; cbn [with_out]; [set_solver|by rewrite dget_dset_eq]. Qed.

Lemma submitted_inv id gpus out now l (e := {| nd_lease_id := id; nd_ended_at := now; nd_reason := LE_RELEASED; nd_gpu_ids := gpus |}) :
  ledger_inv l → dget id (lg_out l) = Some out →
  ledger_inv {| lg_board := lg_board l; lg_out := with_out id (left_out gpus out) (lg_out l); lg_unrecorded := lg_unrecorded l;
                lg_pending := lg_pending l ++ [e]; lg_closed := false |}.
Proof.
  intros [He Hu Hcl Hk Ho Hop] Hg. destruct (Ho _ _ Hg) as (s & Hs & Hsub & Hunc).
  pose proof (λ c, left_out_spec s gpus out e c Hsub eq_refl) as Hleft.
  assert (Hin : left_out gpus out ⊆ out) by (intros c; unfold left_out; rewrite list_elem_of_filter; tauto).
  split; cbn [lg_board lg_out lg_pending lg_unrecorded]; rewrite ?app_assoc; [|done|done| | |].
  - intros e' [| ->%list_elem_of_singleton]%elem_of_app; [by apply He|cbn; eauto].
  - unfold with_out. destruct (left_out gpus out); [by apply NoDup_ddel|by apply NoDup_dset].
  - intros id' out0 H0. destruct (decide (id' = id)) as [->|Hne].
    + apply dget_with_out_eq in H0 as ->; [|done]. exists s. split_and!; [done|by etrans|].
      intros c Hc (e' & [Hold| ->%list_elem_of_singleton]%elem_of_app & E' & Hce).
      * apply (Hunc c); [by apply Hin|]. by exists e'.
      * apply Hleft in Hc; [done|by apply Hin].
    + rewrite dget_with_out in H0 by done. destruct (Ho _ _ H0) as (s0 & Hs0 & Hsub0 & Hunc0). exists s0. split_and!; [done|done|].
      intros c Hc (e' & [Hold| ->%list_elem_of_singleton]%elem_of_app & E' & Hce); [|by subst id']. apply (Hunc0 c Hc). by exists e'.
  - intros id' s0 Hs0. destruct (Hop _ _ Hs0) as [Hun|H]; [by left|]. right. intros c Hc.
    destruct (H c Hc) as [(o & Ho' & Hco)|Hcov]; [|right; revert Hcov; apply covered_mono; set_solver].
    destruct (decide (id' = id)) as [->|Hne]; [|left; exists o; by rewrite dget_with_out].
    rewrite Hg in Ho'. injection Ho' as <-. rewrite Hs in Hs0. injection Hs0 as <-.
    destruct (decide (c ∈ left_out gpus out)) as [Hl|Hn]; [left; eauto using with_out_elem|].
    right. exists e. split_and!; [set_solver|done|]. rewrite Hleft in Hn by done. destruct (decide (c ∈ end_cards s e)); tauto.
Qed.

Lemma returned_inv id gpus now bound l : ledger_inv l → ledger_inv (returned id gpus now bound l).
Proof.
  intros Hl. unfold returned. destruct (dget id (lg_out l)) as [out|] eqn:Hg; [|done]. destruct (lg_closed l); [done|].
  pose proof (submitted_inv id gpus out now l Hl Hg) as H. destruct bound; [done|].
  pose proof (given_up_inv _ (lg_pending l) [] _ H eq_refl) as H'. by rewrite app_nil_r in H'.
Qed.

Lemma ledger_step_inv l l' : ledger_inv l → ledger_step l l' → ledger_inv l'.
Proof. intros Hl Hs. destruct Hs; [by eapply started_inv|by apply returned_inv|by apply write_end_inv|by apply close_inv]. Qed.

(** ** The theorems *)

(** C21: A lease is never charged too little: from the start of a toolbox on a blackboard of any earlier leases, whatever is
    started, returned, written, not written or closed, a card the ledger has out is not shown as returned by the
    blackboard; and once the ledger is closed, every end is written and none was refused, every lease the blackboard
    knows, those of an earlier toolbox too, has every card returned. *)
Theorem ledger_never_early (seen : option F) b l :
  board_coherent b → NoDup (bd_starts b).*1 → rtc ledger_step (recover seen b) l →
  (∀ id out s c, dget id (lg_out l) = Some out → dget id (bd_starts (lg_board l)) = Some s → c ∈ out →
     returned_of id s (bd_ends (lg_board l)) !! c = None)
  ∧ (lg_closed l = true → lg_pending l = [] → lg_unrecorded l = [] →
     ∀ id s, dget id (bd_starts (lg_board l)) = Some s → hold_closed id s (lg_board l) = true).
Proof.
  intros Hb Hnd Hr.
  assert (Hl : ledger_inv l) by (apply (rtc_preserves ledger_step ledger_inv _ _ ledger_step_inv (recover_inv seen b Hb Hnd) Hr)).
  split.
  - intros id out s c Hg Hs Hc. destruct (li_out _ Hl _ _ Hg) as (s0 & Hs0 & Hsub & Hunc). rewrite Hs in Hs0. injection Hs0 as <-.
    apply eq_None_not_Some. rewrite returned_of_is_Some by (by apply Hsub). intros Hcov. apply (Hunc c Hc).
    revert Hcov. apply covered_mono. set_solver.
  - intros Hcl Hp Hu id s Hs. apply hold_closed_true. intros c Hc.
    destruct (li_open _ Hl _ _ Hs) as [Hin|H]; [rewrite Hu in Hin; set_solver|].
    destruct (H c Hc) as [(out & Hg & _)|Hcov]; [|by rewrite Hp, app_nil_r in Hcov].
    by rewrite (li_closed _ Hl Hcl) in Hg.
Qed.
End ledger.

(** ** A toolbox that starts after another one died *)

Module LedgerDemo.

Definition start (id : string) (gpus : list Z) (t : Q) : LeaseStart :=
  {| st_lease_id := id; st_holder := "forge"; st_branch_id := "b1"; st_kind := LK_DEV; st_cards := Z.of_nat (length gpus);
     st_started_at := t; st_tool := ""; st_gpu_ids := gpus |}.
Definition board0 : Board := {| bd_branches := ["b1"]; bd_starts := [("old", start "old" [0%Z] 5)]; bd_ends := [] |}.
Definition l0 := recover (Some 9%Q) board0.
(** The old lease's end is not written; a new one takes two cards and gives one back. *)
Definition l1 := write_end true (lost_end (Some 9%Q) ("old", start "old" [0%Z] 5)) [] l0.
Definition l2 := (started (start "new" [1%Z; 2%Z] 11) None l1).2.
Definition l3 := returned "new" [1%Z] 12 true l2.
Definition l4 := write_end false (hd (close_end 0 "") (lg_pending l3)) [] l3.
(** The close ends both. *)
Definition l5 := close 20 l4.
Definition l6 := write_end false (close_end 20 "new") [close_end 20 "old"] l5.
Definition l7 := write_end false (close_end 20 "old") [] l6.

Lemma run : rtc ledger_step l0 l4 ∧ rtc ledger_step l4 l7.
Proof.
  split.
  - eapply rtc_l; [exact (ls_write true (lost_end (Some 9%Q) ("old", start "old" [0%Z] 5)) [] [] l0 eq_refl)|].
    eapply rtc_l; [exact (ls_start (start "new" [1%Z; 2%Z] 11) None l1 _ l2 eq_refl eq_refl)|].
    eapply rtc_l; [exact (ls_return "new" [1%Z] 12 true l2)|].
    eapply rtc_l; [exact (ls_write false (hd (close_end 0 "") (lg_pending l3)) [] [] l3 eq_refl)|]. done.
  - eapply rtc_l; [exact (ls_close 20 l4 eq_refl)|].
    eapply rtc_l; [exact (ls_write false (close_end 20 "new") [] [close_end 20 "old"] l5 eq_refl)|].
    eapply rtc_l; [exact (ls_write false (close_end 20 "old") [] [] l6 eq_refl)|]. done.
Qed.

Lemma board0_coherent : board_coherent board0 ∧ NoDup (bd_starts board0).*1.
Proof. split; [intros e He; by apply elem_of_nil in He|]. apply NoDup_singleton. Qed.
End LedgerDemo.

Import LedgerDemo.
Lemma ledger_never_early_witness :
  returned_of "new" (start "new" [1%Z; 2%Z] 11) (bd_ends (lg_board l4)) !! 2%Z = None
  ∧ hold_closed "old" (start "old" [0%Z] 5) (lg_board l7) = true.
Proof.
  destruct board0_coherent as [Hb Hd]. destruct run as [H1 H2]. split.
  - apply (proj1 (ledger_never_early (Some 9%Q) board0 l4 Hb Hd H1) "new" [2%Z]); [reflexivity|reflexivity|by left].
  - apply (proj2 (ledger_never_early (Some 9%Q) board0 l7 Hb Hd (transitivity H1 H2))); reflexivity.
Defined.
