(* ===== verification/Recipes.v ===== *)
(** * Recipes: components, kernel artifacts and the changes made to them

    [contracts/recipe.py]: the patch stacks of a recipe's components, its kernel artifacts, the change a delta makes to
    both ([_apply_components], [_apply_kernels]) and the delta between two recipes ([delta_between]).  The launch part of
    a recipe (server arguments, environment) is in [Launches]; [apply] changes the three parts independently of each
    other.  The documents are not modelled. *)

From stdpp Require Import base list strings pretty sets gmap sorting.
From Stdlib Require Import ZArith Lia Ascii.
From S2P Require Import Prelude PyFloat PyVal OperatorName Dicts TestRequests.

Definition PATCH_ROOT : string := "patch".
Definition KERNEL_ROOT : string := "kernel".

(** ** Validation *)

(** [_COMPONENT.fullmatch] *)
Definition component_char (c : ascii) : bool := is_alnum c || Ascii.eqb c "." || Ascii.eqb c "_" || Ascii.eqb c "-".
Definition is_component (s : string) : bool :=
  match chars s with
  | [] => false
  | c :: l => is_alnum c && forallb component_char l && bool_decide (length l ≤ 63)
  end.
(** [_COMMIT.fullmatch] *)
Definition is_commit (s : string) : bool :=
  bool_decide (String.length s = 40 ∨ String.length s = 64) && forallb is_hex (chars s).

Definition check_matching (b : bool) (value what pattern : string) : res unit :=
  raise_if (negb b) (RecipeError (what +:+ " must match " +:+ pattern +:+ ", got " +:+ repr_str value)).
Definition check_trimmed (value what : string) : res unit :=
  raise_if (String.eqb (py_strip value) "" || negb (String.eqb value (py_strip value)))
    (RecipeError (what +:+ " must be a non-empty string without surrounding whitespace, got " +:+ repr_str value)).

(** [str.split("/")], and [PurePosixPath(path).parts] of a path that is its own normal form. *)
Fixpoint split_slash (cur l : list ascii) : list string :=
  match l with
  | [] => [of_chars (reverse cur)]
  | c :: l' => if Ascii.eqb c "/" then of_chars (reverse cur) :: split_slash [] l' else split_slash (c :: cur) l'
  end.
Definition path_ok (root path : string) : bool :=
  let parts := split_slash [] (chars path) in
  negb (existsb (Ascii.eqb "\") (chars path))
  && forallb (λ p, negb (String.eqb p "") && negb (String.eqb p ".") && negb (String.eqb p "..")) parts
  && bool_decide (2 ≤ length parts) && bool_decide (head parts = Some root).
Definition check_path (path root : string) : res unit :=
  _ ← check_trimmed path ("a path under " +:+ root +:+ "/");
  raise_if (negb (path_ok root path)) (RecipeError (repr_str path +:+ " is not a relative path under " +:+ root +:+ "/")).

Definition duplicates {A} `{!EqDecision A} (show : A → string) (l : list A) : list string :=
  sorted_set (show <$> filter (λ x, 1 < length (filter (x =.) l)) l).
Definition check_unique {A} `{!EqDecision A} (show : A → string) (l : list A) (what : string) : res unit :=
  match duplicates show l with
  | [] => Ok ()
  | ds => Raise (RecipeError ("duplicate " +:+ what +:+ ": " +:+ join ", " ds))
  end.

Definition all_ok {A} (check : A → res unit) : list A → res unit :=
  fix go l := match l with [] => Ok () | x :: l' => _ ← check x; go l' end.

(** ** The recipe's parts *)

Record PatchRef := { pt_path : string; pt_sha256 : string }.
#[global] Instance PatchRef_eq_dec : EqDecision PatchRef.
Proof. solve_decision. Defined.
Definition patch_init (p : PatchRef) : res PatchRef :=
  _ ← check_path (pt_path p) PATCH_ROOT;
  _ ← check_matching (is_sha256 (pt_sha256 p)) (pt_sha256 p) ("the sha256 of " +:+ pt_path p) "[0-9a-f]{64}";
  Ok p.

Record ComponentPatches := {
  cp_component : string; cp_upstream_repo : string; cp_upstream_ref : string; cp_patches : list PatchRef
}.
#[global] Instance ComponentPatches_eq_dec : EqDecision ComponentPatches.
Proof. solve_decision. Defined.
Implicit Types (c : ComponentPatches) (p : PatchRef).
Definition with_patches (ps : list PatchRef) c : ComponentPatches :=
  {| cp_component := cp_component c; cp_upstream_repo := cp_upstream_repo c; cp_upstream_ref := cp_upstream_ref c;
     cp_patches := ps |}.
Definition component_init c : res ComponentPatches :=
  let name := cp_component c in
  _ ← check_matching (is_component name) name "a component name" "[A-Za-z0-9][A-Za-z0-9._-]{0,63}";
  _ ← check_trimmed (cp_upstream_repo c) ("the upstream repository of " +:+ name);
  _ ← check_matching (is_commit (cp_upstream_ref c)) (cp_upstream_ref c) ("the upstream commit of " +:+ name)
        "[0-9a-f]{40}(?:[0-9a-f]{24})?";
  _ ← check_unique id (pt_path <$> cp_patches c) ("patches of " +:+ name);
  Ok c.

Inductive KernelKind := GEMM | FUSION | REWRITE.
#[global] Instance KernelKind_eq_dec : EqDecision KernelKind.
Proof. solve_decision. Defined.
Definition slot_text (s : KernelKind * string) : string :=
  let kind := match s.1 with
              | GEMM => "<KernelKind.GEMM: 'gemm'>" | FUSION => "<KernelKind.FUSION: 'fusion'>"
              | REWRITE => "<KernelKind.REWRITE: 'rewrite'>"
              end in
  "(" +:+ kind +:+ ", " +:+ repr_str s.2 +:+ ")".

Section recipes.
(** [metadata], a JSON object. *)
Context {M : Type} `{!EqDecision M}.

Record KernelArtifact := {
  ka_kind : KernelKind; ka_target : string; ka_ref : string; ka_sha256 : string; ka_metadata : M
}.
#[global] Instance KernelArtifact_eq_dec : EqDecision KernelArtifact.
Proof using EqDecision0. solve_decision. Defined.
Definition slot (a : KernelArtifact) : KernelKind * string := (ka_kind a, ka_target a).

(** [Recipe.__post_init__] on the two parts. *)
Definition recipe_checks (comps : list ComponentPatches) (kernels : list KernelArtifact) : res unit :=
  _ ← check_unique id (cp_component <$> comps) "component names";
  _ ← check_unique slot_text (slot <$> kernels) "kernel targets";
  check_unique id (ka_ref <$> kernels) "kernel artifacts".

(** [Recipe.component] *)
Definition component (comps : list ComponentPatches) (name : string) : option ComponentPatches :=
  list_find (λ c, cp_component c = name) comps ≫= λ x, Some x.2.

(** ** Changes *)

Record ComponentChange := {
  cc_component : string; cc_upstream_ref : option string; cc_upstream_repo : option string;
  cc_add_patches : list PatchRef; cc_remove_patches : list string
}.
Implicit Types (ch : ComponentChange).
Definition opt_check (check : string → res unit) (x : option string) : res unit :=
  match x with Some s => check s | None => Ok () end.
Definition change_init ch : res ComponentChange :=
  let name := cc_component ch in
  _ ← check_matching (is_component name) name "a component name" "[A-Za-z0-9][A-Za-z0-9._-]{0,63}";
  _ ← opt_check (λ s, check_matching (is_commit s) s ("the upstream commit of " +:+ name) "[0-9a-f]{40}(?:[0-9a-f]{24})?")
        (cc_upstream_ref ch);
  _ ← opt_check (λ s, check_trimmed s ("the upstream repository of " +:+ name)) (cc_upstream_repo ch);
  _ ← all_ok (λ path, check_path path PATCH_ROOT) (cc_remove_patches ch);
  _ ← check_unique id (pt_path <$> cc_add_patches ch) ("patches added to " +:+ name);
  Ok ch.

Definition apply_component (current : option ComponentPatches) ch : res ComponentPatches :=
  let name := cc_component ch in
  current ← match current with
    | None =>
        match cc_upstream_repo ch, cc_upstream_ref ch with
        | Some repo, Some ref =>
            component_init {| cp_component := name; cp_upstream_repo := repo; cp_upstream_ref := ref; cp_patches := [] |}
        | _, _ => Raise (RecipeError (name +:+ " is a new component; give its upstream repository and commit"))
        end
    | Some c =>
        _ ← raise_if (match cc_upstream_repo ch with Some repo => negb (String.eqb repo (cp_upstream_repo c)) | None => false end)
              (RecipeError (name +:+ " already comes from " +:+ cp_upstream_repo c));
        Ok c
    end;
  let have := pt_path <$> cp_patches current in
  let missing := sorted_set (filter (λ path, path ∉ have) (cc_remove_patches ch)) in
  _ ← raise_if (bool_decide (missing ≠ [])) (RecipeError (name +:+ " has no patches " +:+ join ", " missing +:+ " to remove"));
  let kept := filter (λ p, pt_path p ∉ cc_remove_patches ch) (cp_patches current) in
  let clashing := sorted_set (filter (λ path, path ∈ (pt_path <$> kept)) (pt_path <$> cc_add_patches ch)) in
  _ ← raise_if (bool_decide (clashing ≠ [])) (RecipeError (name +:+ " already has patches " +:+ join ", " clashing));
  component_init
    {| cp_component := cp_component current; cp_upstream_repo := cp_upstream_repo current;
       cp_upstream_ref := match cc_upstream_ref ch with
                          | Some ref => if String.eqb ref "" then cp_upstream_ref current else ref
                          | None => cp_upstream_ref current
                          end;
       cp_patches := kept ++ cc_add_patches ch |}.

Definition by_name_of (comps : list ComponentPatches) : list (string * ComponentPatches) :=
  foldl (λ d c, dset (cp_component c) c d) [] comps.
Fixpoint apply_changes (by_name : list (string * ComponentPatches)) (changes : list ComponentChange) :
    res (list (string * ComponentPatches)) :=
  match changes with
  | [] => Ok by_name
  | ch :: rest =>
      c ← apply_component (dget (cc_component ch) by_name) ch;
      apply_changes (dset (cc_component ch) c by_name) rest
  end.
Definition apply_components (comps : list ComponentPatches) (changes : list ComponentChange) : res (list ComponentPatches) :=
  by_name ← apply_changes (by_name_of comps) changes; Ok (dvals by_name).

Fixpoint put_slot (a : KernelArtifact) (slots : list KernelArtifact) : list KernelArtifact :=
  match slots with
  | [] => [a]
  | b :: slots' => if bool_decide (slot b = slot a) then a :: slots' else b :: put_slot a slots'
  end.
Definition apply_kernels (kernels add : list KernelArtifact) (remove : list string) : res (list KernelArtifact) :=
  let missing := sorted_set (filter (λ ref, ref ∉ (ka_ref <$> kernels)) remove) in
  _ ← raise_if (bool_decide (missing ≠ []))
        (RecipeError ("the recipe loads no kernel artifacts " +:+ join ", " missing +:+ " to remove"));
  let slots := foldl (λ s a, put_slot a s) [] (filter (λ a, ka_ref a ∉ remove) kernels) in
  Ok (foldl (λ s a, put_slot a s) slots add).

(** ** The delta between two recipes *)

Fixpoint shared_prefix (l k : list PatchRef) : nat :=
  match l, k with
  | x :: l', y :: k' => if bool_decide (x = y) then S (shared_prefix l' k') else 0
  | _, _ => 0
  end.
Definition component_delta (current : option ComponentPatches) (wanted : ComponentPatches) : res (option ComponentChange) :=
  let name := cp_component wanted in
  match current with
  | None =>
      ch ← change_init {| cc_component := name; cc_upstream_ref := Some (cp_upstream_ref wanted);
                          cc_upstream_repo := Some (cp_upstream_repo wanted); cc_add_patches := cp_patches wanted;
                          cc_remove_patches := [] |};
      Ok (Some ch)
  | Some c =>
      _ ← raise_if (negb (String.eqb (cp_upstream_repo c) (cp_upstream_repo wanted)))
            (RecipeError (name +:+ " comes from " +:+ cp_upstream_repo c +:+ " in one recipe and " +:+ cp_upstream_repo wanted
                          +:+ " in the other"));
      let shared := shared_prefix (cp_patches c) (cp_patches wanted) in
      if String.eqb (cp_upstream_ref c) (cp_upstream_ref wanted)
         && (shared =? length (cp_patches c))%nat && (length (cp_patches c) =? length (cp_patches wanted))%nat
      then Ok None
      else
        ch ← change_init
          {| cc_component := name;
             cc_upstream_ref := if String.eqb (cp_upstream_ref wanted) (cp_upstream_ref c) then None else Some (cp_upstream_ref wanted);
             cc_upstream_repo := None; cc_add_patches := drop shared (cp_patches wanted);
             cc_remove_patches := pt_path <$> drop shared (cp_patches c) |};
        Ok (Some ch)
  end.

Fixpoint component_deltas (first second : list ComponentPatches) : res (list ComponentChange) :=
  match second with
  | [] => Ok []
  | wanted :: rest =>
      d ← component_delta (component first (cp_component wanted)) wanted;
      ds ← component_deltas first rest;
      Ok (option_list d ++ ds)
  end.
Fixpoint stripped_components (first second : list ComponentPatches) : res (list ComponentChange) :=
  match first with
  | [] => Ok []
  | c :: rest =>
      if bool_decide (component second (cp_component c) = None ∧ cp_patches c ≠ []) then
        ch ← change_init {| cc_component := cp_component c; cc_upstream_ref := None; cc_upstream_repo := None;
                            cc_add_patches := []; cc_remove_patches := pt_path <$> cp_patches c |};
        chs ← stripped_components rest second; Ok (ch :: chs)
      else stripped_components rest second
  end.
(** [RecipeDelta.__post_init__] *)
Definition delta_init (changes : list ComponentChange) (add : list KernelArtifact) (remove : list string) : res unit :=
  _ ← check_unique id (cc_component <$> changes) "component changes";
  _ ← check_unique slot_text (slot <$> add) "added kernel targets";
  all_ok (λ ref, check_path ref KERNEL_ROOT) remove.
Definition delta_between (first second : list ComponentPatches) (fk sk : list KernelArtifact) :
    res (list ComponentChange * list KernelArtifact * list string) :=
  changes ← component_deltas first second;
  stripped ← stripped_components first second;
  let add := filter (λ a, a ∉ fk) sk in
  let remove := merge_sort str_le (ka_ref <$> filter (λ a, a ∉ sk) fk) in
  _ ← delta_init (changes ++ stripped) add remove;
  Ok (changes ++ stripped, add, remove).

(** ** Lemmas *)

Lemma sorted_set_nil l : sorted_set l = [] ↔ l = [].
Proof.
  split; [|by intros ->]. intros H. destruct l as [|x l]; [done|].
  assert (Hx : x ∈ sorted_set (x :: l)) by (apply elem_of_sorted_set; left). rewrite H in Hx. by apply elem_of_nil in Hx.
Qed.

Lemma NoDup_no_duplicates {A} `{!EqDecision A} (show : A → string) (l : list A) : duplicates show l = [] ↔ NoDup l.
Proof.
  unfold duplicates. rewrite sorted_set_nil. split.
  - intros H. apply NoDup_alt. intros i j x Hi Hj. destruct (decide (i = j)) as [|Hne]; [done|]. exfalso.
    assert (Hx : x ∈ filter (λ x, 1 < length (filter (x =.) l)) l).
    { apply list_elem_of_filter. split; [|by eapply list_elem_of_lookup_2].
      assert (Hwlog : ∀ i j : nat, i < j → l !! i = Some x → l !! j = Some x → 1 < length (filter (x =.) l)).
      { clear. intros i j Hij Hi Hj. rewrite <- (take_drop_middle _ _ _ Hi), filter_app, filter_cons_True, length_app by done.
        cbn [length]. assert (Hx : x ∈ filter (x =.) (drop (S i) l)).
        { apply list_elem_of_filter. split; [done|]. apply (list_elem_of_lookup_2 _ (j - S i)). rewrite lookup_drop.
          by replace (S i + (j - S i))%nat with j by lia. }
        destruct (filter (x =.) (drop (S i) l)); [by apply elem_of_nil in Hx|cbn; lia]. }
      destruct (decide (i < j)); [by apply (Hwlog i j)|apply (Hwlog j i); [lia|done|done]]. }
    apply (f_equal length) in H. rewrite length_fmap in H. destruct (filter _ l); [by apply elem_of_nil in Hx|done].
  - intros Hnd. destruct (filter _ l) as [|x k] eqn:E; [done|]. exfalso.
    assert (Hx : x ∈ filter (λ x, 1 < length (filter (x =.) l)) l) by (rewrite E; left).
    apply list_elem_of_filter in Hx as [Hlen Hx].
    assert (Hn : NoDup (filter (x =.) l)) by (by apply NoDup_filter).
    destruct (filter (x =.) l) as [|a [|b k']] eqn:E'; cbn in Hlen; [lia|lia|].
    assert (a = x ∧ b = x) as [-> ->].
    { assert (Ha : a ∈ filter (x =.) l) by (rewrite E'; left). assert (Hb : b ∈ filter (x =.) l) by (rewrite E'; right; left).
      apply list_elem_of_filter in Ha as [-> _]. apply list_elem_of_filter in Hb as [-> _]. done. }
    apply NoDup_cons in Hn as [Hn _]. apply Hn. left.
Qed.
Lemma check_unique_ok {A} `{!EqDecision A} (show : A → string) (l : list A) what : check_unique show l what = Ok () ↔ NoDup l.
Proof. unfold check_unique. rewrite <- (NoDup_no_duplicates show). by destruct (duplicates show l). Qed.

Lemma all_ok_Forall {A} (check : A → res unit) l : all_ok check l = Ok () ↔ Forall (λ x, check x = Ok ()) l.
Proof.
  induction l as [|x l IH]; cbn; [split; [constructor|done]|]. rewrite Forall_cons, <- IH. destruct (check x) as [[]|]; cbn; naive_solver.
Qed.

Lemma bind_unit_ok {A} (m : res unit) (f : unit → res A) a : (m ≫= f) = Ok a ↔ m = Ok () ∧ f () = Ok a.
Proof. destruct m as [[]|]; cbn; naive_solver. Qed.

Lemma component_init_ok c c' : component_init c = Ok c' → c' = c.
Proof. unfold component_init. rewrite !bind_unit_ok. by intros (_ & _ & _ & _ & [= <-]). Qed.
Lemma component_init_unique c : component_init c = Ok c → NoDup (pt_path <$> cp_patches c).
Proof. unfold component_init. rewrite !bind_unit_ok. intros (_ & _ & _ & H & _). by apply check_unique_ok in H. Qed.
(** Another patch stack, or another valid commit, of a valid component. *)
Lemma component_init_with c ps ref :
  component_init c = Ok c → NoDup (pt_path <$> ps) → is_commit ref = true →
  component_init {| cp_component := cp_component c; cp_upstream_repo := cp_upstream_repo c; cp_upstream_ref := ref; cp_patches := ps |}
  = Ok {| cp_component := cp_component c; cp_upstream_repo := cp_upstream_repo c; cp_upstream_ref := ref; cp_patches := ps |}.
Proof.
  unfold component_init. rewrite !bind_unit_ok. cbn [cp_component cp_upstream_repo cp_upstream_ref cp_patches].
  intros (H1 & H2 & _ & _ & _) Hn Hr. split_and!; [done|done| |by apply check_unique_ok|done]. unfold check_matching. by rewrite Hr.
Qed.
Lemma component_init_commit c : component_init c = Ok c → is_commit (cp_upstream_ref c) = true.
Proof.
  unfold component_init. rewrite !bind_unit_ok. intros (_ & _ & H & _). unfold check_matching in H.
  apply raise_if_ok in H. by destruct (is_commit _).
Qed.

Lemma component_Some comps name c : component comps name = Some c → c ∈ comps ∧ cp_component c = name.
Proof.
  unfold component. destruct (list_find _ comps) as [[i c']|] eqn:E; [|done]. intros [= ->].
  apply list_find_Some in E as (Hi & Hc & _). split; [by eapply list_elem_of_lookup_2|done].
Qed.
Lemma component_elem comps c : NoDup (cp_component <$> comps) → c ∈ comps → component comps (cp_component c) = Some c.
Proof.
  induction comps as [|c' comps IH]; [by intros _ ?%elem_of_nil|]. cbn [fmap list_fmap]. intros [Hn Hd]%NoDup_cons Hin.
  unfold component. cbn [list_find]. apply elem_of_cons in Hin as [->|Hin]; [by rewrite decide_True|].
  rewrite decide_False.
  - specialize (IH Hd Hin). unfold component in IH. destruct (list_find _ comps) as [[i x]|]; [|done]. done.
  - intros E. apply Hn. rewrite E. by apply list_elem_of_fmap_2.
Qed.
Lemma component_None comps name : component comps name = None ↔ name ∉ cp_component <$> comps.
Proof.
  unfold component. destruct (list_find _ comps) as [[i c]|] eqn:E; cbn.
  - split; [done|]. intros []. apply list_find_Some in E as (Hi & <- & _). apply list_elem_of_fmap_2. by eapply list_elem_of_lookup_2.
  - split; [|done]. intros _ (c & -> & Hin)%list_elem_of_fmap. apply list_find_None in E. rewrite Forall_forall in E. by apply (E c).
Qed.

(** A dict of components by their names. *)
Definition named (d : list (string * ComponentPatches)) : Prop := NoDup d.*1 ∧ ∀ k c, (k, c) ∈ d → cp_component c = k.
Lemma named_dset k c d : named d → cp_component c = k → named (dset k c d).
Proof. intros [Hd Hn] Hk. split; [by apply NoDup_dset|]. intros k' c' [[-> ->]|]%dset_elem; eauto. Qed.
Lemma named_keys d : named d → cp_component <$> dvals d = d.*1.
Proof.
  intros [_ Hn]. unfold dvals. induction d as [|[k c] d IH]; [done|]. cbn. f_equal; [apply (Hn k); left|]. apply IH. intros k' c' Hin. apply Hn. by right.
Qed.
Lemma component_dvals d name : named d → component (dvals d) name = dget name d.
Proof.
  intros Hd. destruct (dget name d) as [c|] eqn:E.
  - assert (cp_component c = name) as <- by (apply Hd; by apply dget_elem). apply component_elem.
    + rewrite named_keys by done. apply Hd.
    + by eapply dget_val.
  - apply component_None. rewrite named_keys by done. intros H%dget_is_Some. rewrite E in H. by destruct H.
Qed.
Lemma by_name_of_spec comps : NoDup (cp_component <$> comps) →
  named (by_name_of comps) ∧ ∀ name, dget name (by_name_of comps) = component comps name.
Proof.
  intros Hnd. unfold by_name_of.
  assert (H : ∀ d, named d → (∀ c, c ∈ comps → cp_component c ∉ d.*1) →
    foldl (λ d c, dset (cp_component c) c d) d comps = d ++ ((λ c, (cp_component c, c)) <$> comps)).
  { clear -Hnd. induction comps as [|c comps IH]; intros d Hd Hf; cbn [foldl fmap list_fmap]; [by rewrite app_nil_r|].
    cbn [fmap list_fmap] in Hnd. apply NoDup_cons in Hnd as [Hn Hnd]. rewrite IH.
    - rewrite dset_notin by (apply Hf; left). by rewrite <- app_assoc.
    - done.
    - by apply named_dset.
    - intros c' Hc' [E|Hin]%elem_of_dset_keys; [apply Hn; rewrite <- E; by apply list_elem_of_fmap_2|].
      revert Hin. apply Hf. by right. }
  rewrite H; [|split; [constructor|by intros ?? ?%elem_of_nil]|by intros c _ ?%elem_of_nil]. cbn [app].
  assert (Hnm : named ((λ c, (cp_component c, c)) <$> comps)).
  { split; [by rewrite <- list_fmap_compose|]. intros k c (c' & [= -> ->] & _)%list_elem_of_fmap. done. }
  split; [done|]. intros name. rewrite <- component_dvals by done. unfold dvals. rewrite <- list_fmap_compose. f_equal.
  apply list_fmap_id.
Qed.

(** Changes of distinct components each act on the recipe's own component. *)
Lemma apply_changes_ok (target : string → option ComponentPatches) changes d :
  named d → NoDup (cc_component <$> changes) →
  (∀ ch, ch ∈ changes → ∃ c, apply_component (dget (cc_component ch) d) ch = Ok c ∧ cp_component c = cc_component ch
                             ∧ target (cc_component ch) = Some c) →
  ∃ d', apply_changes d changes = Ok d' ∧ named d' ∧
    ∀ name, dget name d' = if bool_decide (name ∈ cc_component <$> changes) then target name else dget name d.
Proof.
  revert d. induction changes as [|ch changes IH]; intros d Hd Hnd Hch; cbn [apply_changes fmap list_fmap].
  { exists d. split_and!; [done|done|]. intros name. by rewrite bool_decide_false by (by intros ?%elem_of_nil). }
  cbn [fmap list_fmap] in Hnd. apply NoDup_cons in Hnd as [Hn Hnd].
  destruct (Hch ch) as (c & Hc & Hnm & Ht); [left|]. rewrite Hc. cbn.
  destruct (IH (dset (cc_component ch) c d)) as (d' & Hd' & Hnd' & Hget); [by apply named_dset|done| |].
  - intros ch' Hin. rewrite dget_dset_ne; [apply Hch; by right|]. intros E. apply Hn. rewrite <- E. by apply list_elem_of_fmap_2.
  - exists d'. split_and!; [done|done|]. intros name. rewrite Hget. case_bool_decide as H1.
    + by rewrite bool_decide_true by (by right).
    + destruct (decide (name = cc_component ch)) as [->|Hne].
      * rewrite bool_decide_true by left. by rewrite dget_dset_eq.
      * rewrite dget_dset_ne by done. rewrite bool_decide_false; [done|]. rewrite elem_of_cons. tauto.
Qed.

(** What a change makes of a component the recipe has: nothing is missing, nothing clashes, the stack is valid. *)
Lemma apply_component_some c ch :
  component_init c = Ok c → cc_upstream_repo ch = None →
  (∀ path, path ∈ cc_remove_patches ch → path ∈ pt_path <$> cp_patches c) →
  let ref := default (cp_upstream_ref c) (cc_upstream_ref ch) in
  let ps := filter (λ p, pt_path p ∉ cc_remove_patches ch) (cp_patches c) ++ cc_add_patches ch in
  is_commit ref = true → NoDup (pt_path <$> ps) →
  apply_component (Some c) ch
  = Ok {| cp_component := cp_component c; cp_upstream_repo := cp_upstream_repo c; cp_upstream_ref := ref; cp_patches := ps |}.
Proof.
  intros Hc Hr Hm ref ps Href Hnd. unfold apply_component. rewrite Hr. cbn [raise_if mbind res_bind].
  rewrite raise_if_false.
  2: { apply bool_decide_eq_false. intros H. apply H. apply sorted_set_nil.
       apply list_filter_none. intros x Hx H'. by apply H', Hm. }
  rewrite raise_if_false.
  2: { apply bool_decide_eq_false. intros H. apply H. apply sorted_set_nil.
       apply list_filter_none. intros x Hx2 Hx1. unfold ps in Hnd. rewrite fmap_app in Hnd. apply NoDup_app in Hnd as (_ & Hnd & _).
       by apply (Hnd x). }
  fold ps.
  assert (Href' : (match cc_upstream_ref ch with
                   | Some ref => if String.eqb ref "" then cp_upstream_ref c else ref
                   | None => cp_upstream_ref c end) = ref).
  { unfold ref in *. destruct (cc_upstream_ref ch) as [r|]; [|done]. cbn in *. destruct (String.eqb r "") eqn:E; [|done].
    apply String.eqb_eq in E as ->. done. }
  rewrite Href'. by apply component_init_with.
Qed.

Lemma shared_prefix_take l k : take (shared_prefix l k) l = take (shared_prefix l k) k ∧ shared_prefix l k ≤ length l.
Proof.
  revert k. induction l as [|x l IH]; intros [|y k]; cbn; try (split; [done|lia]).
  case_bool_decide as E; [|split; [done|lia]]. subst. cbn. destruct (IH k) as [-> ?]. split; [done|lia].
Qed.

Lemma filter_paths_drop n l : NoDup (pt_path <$> l) → filter (λ p, pt_path p ∉ pt_path <$> drop n l) l = take n l.
Proof.
  intros Hnd. assert (H : ∀ k, k = drop n l → filter (λ p, pt_path p ∉ pt_path <$> k) (take n l ++ k) = take n l).
  { intros k ->. rewrite filter_app, list_filter_all, list_filter_none; [by rewrite app_nil_r| |].
    - intros p Hp H. by apply H, list_elem_of_fmap_2.
    - intros p Hp. rewrite <- (take_drop n l), fmap_app in Hnd. apply NoDup_app in Hnd as (_ & Hd & _).
      apply Hd. by apply list_elem_of_fmap_2. }
  specialize (H _ eq_refl). by rewrite take_drop in H.
Qed.

(** ** The delta between two recipes makes the second of the first *)

Definition valid_component c : Prop := component_init c = Ok c ∧ Forall (λ p, patch_init p = Ok p) (cp_patches c).
Definition valid_components (comps : list ComponentPatches) : Prop :=
  Forall valid_component comps ∧ NoDup (cp_component <$> comps).
Definition valid_kernels (ks : list KernelArtifact) : Prop :=
  Forall (λ a, check_path (ka_ref a) KERNEL_ROOT = Ok ()) ks ∧ NoDup (slot <$> ks) ∧ NoDup (ka_ref <$> ks).

Lemma change_init_ok ch c :
  component_init c = Ok c → cc_component ch = cp_component c →
  (∀ ref, cc_upstream_ref ch = Some ref → is_commit ref = true) →
  (∀ repo, cc_upstream_repo ch = Some repo → repo = cp_upstream_repo c) →
  Forall (λ path, check_path path PATCH_ROOT = Ok ()) (cc_remove_patches ch) →
  NoDup (pt_path <$> cc_add_patches ch) → change_init ch = Ok ch.
Proof.
  intros Hc Hn Href Hrepo Hrem Hadd. unfold component_init in Hc. rewrite !bind_unit_ok in Hc. destruct Hc as (H1 & H2 & _).
  unfold change_init. rewrite !bind_unit_ok, Hn. split_and!; [done| | |by apply all_ok_Forall|by apply check_unique_ok|done].
  - destruct (cc_upstream_ref ch) as [r|]; [|done]. cbn. unfold check_matching. by rewrite (Href r).
  - destruct (cc_upstream_repo ch) as [r|]; [|done]. cbn. by rewrite (Hrepo r).
Qed.

Lemma valid_paths c n : valid_component c → Forall (λ path, check_path path PATCH_ROOT = Ok ()) (pt_path <$> drop n (cp_patches c)).
Proof.
  intros [_ Hp]. apply Forall_fmap, Forall_drop. eapply Forall_impl; [exact Hp|]. intros p. unfold patch_init. cbn.
  rewrite bind_unit_ok. tauto.
Qed.

Lemma component_delta_new wanted : valid_component wanted → ∃ ch,
  component_delta None wanted = Ok (Some ch) ∧ cc_component ch = cp_component wanted ∧ apply_component None ch = Ok wanted.
Proof.
  intros [Hw Hp]. unfold component_delta. erewrite change_init_ok; [| exact Hw | done | | | done |]; cbn [mbind res_bind cc_upstream_ref cc_upstream_repo cc_add_patches cc_remove_patches cc_component].
  - eexists. split_and!; [done|done|]. unfold apply_component. cbn [cc_component cc_upstream_ref cc_upstream_repo cc_add_patches cc_remove_patches].
    rewrite component_init_with; [|done|constructor|by apply component_init_commit]. cbn [mbind res_bind cp_patches].
    rewrite raise_if_false by (apply bool_decide_eq_false; intros H; by apply H). cbn [filter list_filter fmap list_fmap app cp_component cp_upstream_repo cp_upstream_ref].
    rewrite raise_if_false.
    + destruct (String.eqb (cp_upstream_ref wanted) "") eqn:E.
      * apply String.eqb_eq in E. pose proof (component_init_commit _ Hw) as H. by rewrite E in H.
      * destruct wanted; exact Hw.
    + apply bool_decide_eq_false. intros H. apply H. apply sorted_set_nil, list_filter_none. by intros x _ ?%elem_of_nil.
  - intros ref [= <-]. by apply component_init_commit.
  - by intros repo [= <-].
  - by apply component_init_unique.
Qed.

Lemma component_delta_some c wanted : valid_component c → valid_component wanted →
  cp_component c = cp_component wanted → cp_upstream_repo c = cp_upstream_repo wanted →
  (component_delta (Some c) wanted = Ok None ∧ c = wanted) ∨
  ∃ ch, component_delta (Some c) wanted = Ok (Some ch) ∧ cc_component ch = cp_component wanted ∧ apply_component (Some c) ch = Ok wanted.
Proof.
  intros Hvc [Hw Hwp] Hn Hr. unfold component_delta. rewrite raise_if_false by (by rewrite Hr, String.eqb_refl).
  set (n := shared_prefix (cp_patches c) (cp_patches wanted)).
  destruct (shared_prefix_take (cp_patches c) (cp_patches wanted)) as [Htake Hle]. fold n in Htake, Hle.
  case_match eqn:Hsame.
  - left. split; [done|]. rewrite !andb_true_iff, String.eqb_eq, !Nat.eqb_eq in Hsame. destruct Hsame as [[Href Hn1] Hn2].
    rewrite !take_ge in Htake by lia. destruct c, wanted; cbn in *. congruence.
  - right. destruct Hvc as [Hc Hcp]. pose proof (component_init_unique _ Hw) as Hu. pose proof (component_init_unique _ Hc) as Huc.
    erewrite change_init_ok; [| exact Hw | done | | done | |]; cbn [mbind res_bind cc_upstream_ref cc_upstream_repo cc_add_patches cc_remove_patches cc_component].
    + eexists. split_and!; [done|done|]. rewrite apply_component_some; cbn [mbind res_bind cc_upstream_ref cc_upstream_repo cc_add_patches cc_remove_patches cc_component]; [|done|done| | |].
      * f_equal. rewrite filter_paths_drop, Htake, take_drop by done. destruct (String.eqb_spec (cp_upstream_ref wanted) (cp_upstream_ref c)) as [E|E];
          destruct c, wanted; cbn in *; congruence.
      * intros path. intros (p & -> & Hp)%list_elem_of_fmap. apply list_elem_of_fmap_2. revert Hp. apply elem_of_list_drop || idtac.
        intros Hp. rewrite <- (take_drop n (cp_patches c)). apply elem_of_app. by right.
      * case_match; cbn; by apply component_init_commit.
      * by rewrite filter_paths_drop, Htake, take_drop.
    + intros ref. case_match; [done|]. intros [= <-]. by apply component_init_commit.
    + by apply valid_paths.
    + rewrite <- (take_drop n (cp_patches wanted)), fmap_app in Hu. by apply NoDup_app in Hu as (_ & _ & ?).
Qed.

(** The recipe the delta is to make: the second's components, and the first's other ones without patches. *)
Definition rebuilt (first second : list ComponentPatches) (name : string) : option ComponentPatches :=
  match component second name with Some c => Some c | None => with_patches [] <$> component first name end.

Definition same_repos (first second : list ComponentPatches) : Prop :=
  ∀ c c', c ∈ first → c' ∈ second → cp_component c = cp_component c' → cp_upstream_repo c = cp_upstream_repo c'.

(** A list of changes makes [rebuilt] of the components it names, and what it does not name needs no change. *)
Definition changes_fit (first second : list ComponentPatches) (names : list string) (chs : list ComponentChange) : Prop :=
  NoDup (cc_component <$> chs) ∧
  (∀ ch, ch ∈ chs → cc_component ch ∈ names ∧ ∃ c, apply_component (component first (cc_component ch)) ch = Ok c
     ∧ cp_component c = cc_component ch ∧ rebuilt first second (cc_component ch) = Some c) ∧
  (∀ name, name ∈ names → name ∉ cc_component <$> chs → rebuilt first second name = component first name).

Lemma component_deltas_fit first second : valid_components first → valid_components second → same_repos first second →
  ∃ chs, component_deltas first second = Ok chs ∧ changes_fit first second (cp_component <$> second) chs.
Proof.
  intros [Hf Hfn] [Hs Hsn] Hr.
  assert (H : ∀ rest, rest ⊆ second → NoDup (cp_component <$> rest) →
    ∃ chs, component_deltas first rest = Ok chs ∧ changes_fit first second (cp_component <$> rest) chs).
  2: { by apply H. }
  induction rest as [|w rest IH]; intros Hsub Hnd; cbn [component_deltas fmap list_fmap].
  { exists []. split; [done|]. split_and!; [constructor|by intros ? ?%elem_of_nil|by intros ? ?%elem_of_nil]. }
  cbn [fmap list_fmap] in Hnd. apply NoDup_cons in Hnd as [Hn Hnd].
  destruct IH as (chs & Hchs & Hc1 & Hc2 & Hc3); [set_solver|done|].
  assert (Hw : w ∈ second) by set_solver. assert (Hvw : valid_component w) by (rewrite Forall_forall in Hs; auto).
  assert (Hreb : rebuilt first second (cp_component w) = Some w) by (unfold rebuilt; by rewrite component_elem).
  assert (Hcons : ∀ ch, cc_component ch = cp_component w → apply_component (component first (cp_component w)) ch = Ok w →
            changes_fit first second (cp_component w :: (cp_component <$> rest)) (ch :: chs)).
  { intros ch Hch Hap. split_and!.
    - cbn [fmap list_fmap]. apply NoDup_cons. split; [|done]. rewrite Hch. intros (ch' & E & Hin)%list_elem_of_fmap.
      apply Hn. rewrite E. by apply Hc2.
    - intros ch' [->|Hin]%elem_of_cons; [rewrite Hch; split; [left|]; exists w; done|].
      destruct (Hc2 _ Hin) as [Hnm Hex]. split; [by right|done].
    - intros name Hnm Hnot. cbn [fmap list_fmap] in Hnot. apply not_elem_of_cons in Hnot as [Hne Hnot].
      apply elem_of_cons in Hnm as [->|Hnm]; [by rewrite Hch in Hne|]. by apply Hc3. }
  destruct (component first (cp_component w)) as [c|] eqn:Hc.
  - apply component_Some in Hc as [Hin Hname]. assert (Hvc : valid_component c) by (rewrite Forall_forall in Hf; auto).
    destruct (component_delta_some c w) as [[Hd ->]|(ch & Hd & Hch & Hap)]; [done|done|done|by apply Hr| |]; rewrite Hd, Hchs; cbn [mbind res_bind option_list app].
    + exists chs. split; [done|]. split_and!; [done| |].
      * intros ch Hin'. destruct (Hc2 _ Hin') as [Hnm Hex]. split; [by right|done].
      * intros name [->|Hnm]%elem_of_cons Hnot; [|by apply Hc3]. rewrite Hreb. symmetry. by apply component_elem.
    + exists (ch :: chs). split; [done|]. by apply Hcons.
  - destruct (component_delta_new w Hvw) as (ch & Hd & Hch & Hap). rewrite Hd, Hchs. cbn [mbind res_bind option_list app].
    exists (ch :: chs). split; [done|]. by apply Hcons.
Qed.

Lemma stripped_fit first second : valid_components first →
  ∃ chs, stripped_components first second = Ok chs ∧
    changes_fit first second (filter (λ n, n ∉ cp_component <$> second) (cp_component <$> first)) chs.
Proof.
  intros [Hf Hfn].
  assert (H : ∀ rest, rest ⊆ first → NoDup (cp_component <$> rest) → ∃ chs, stripped_components rest second = Ok chs ∧
    changes_fit first second (filter (λ n, n ∉ cp_component <$> second) (cp_component <$> rest)) chs).
  2: { by apply H. }
  induction rest as [|c rest IH]; intros Hsub Hnd; cbn [stripped_components fmap list_fmap].
  { exists []. split; [done|]. split_and!; [constructor|by intros ? ?%elem_of_nil|by intros ? ?%elem_of_nil]. }
  cbn [fmap list_fmap] in Hnd. apply NoDup_cons in Hnd as [Hn Hnd].
  destruct IH as (chs & Hchs & Hc1 & Hc2 & Hc3); [set_solver|done|].
  assert (Hin : c ∈ first) by set_solver. assert (Hvc : valid_component c) by (rewrite Forall_forall in Hf; auto).
  assert (Hgrow : ∀ ch, ch ∈ chs → cc_component ch ∈ filter (λ n, n ∉ cp_component <$> second) (cp_component c :: (cp_component <$> rest)) ∧
            ∃ c', apply_component (component first (cc_component ch)) ch = Ok c' ∧ cp_component c' = cc_component ch
                  ∧ rebuilt first second (cc_component ch) = Some c').
  { intros ch Hch. destruct (Hc2 _ Hch) as [Hnm Hex]. split; [|done]. rewrite list_elem_of_filter in *. split; [tauto|]. right. tauto. }
  case_bool_decide as Hcase.
  - destruct Hcase as [Hnone Hps]. erewrite change_init_ok; [|exact (proj1 Hvc)|done|done|done| |constructor].
    2: { exact (valid_paths c 0 Hvc). }
    rewrite Hchs. cbn [mbind res_bind]. eexists. split; [done|].
    split_and!.
    + cbn [fmap list_fmap]. apply NoDup_cons. split; [|done]. intros (ch' & E & Hch')%list_elem_of_fmap.
      apply Hc2 in Hch' as [Hnm _]. apply list_elem_of_filter in Hnm as [_ Hnm]. apply Hn. cbn [cc_component] in E. by rewrite E.
    + intros ch [->|Hch]%elem_of_cons; [|by apply Hgrow]. cbn [cc_component]. split.
      { apply list_elem_of_filter. split; [by apply component_None|left]. }
      rewrite component_elem by done. rewrite apply_component_some; cbn [cc_upstream_ref cc_upstream_repo cc_add_patches cc_remove_patches cc_component default];
        [|exact (proj1 Hvc)|done|done|by apply component_init_commit, Hvc|].
      * eexists. split_and!; [done|done|]. unfold rebuilt. rewrite Hnone, component_elem by done. cbn. unfold with_patches. do 2 f_equal.
        rewrite app_nil_r. symmetry. apply list_filter_none. intros p Hp H. by apply H, list_elem_of_fmap_2.
      * rewrite app_nil_r. apply NoDup_key_filter, component_init_unique, Hvc.
    + intros name Hnm Hnot. cbn [fmap list_fmap cc_component] in Hnot. apply not_elem_of_cons in Hnot as [Hne Hnot].
      apply Hc3; [|done]. rewrite list_elem_of_filter, elem_of_cons in *. tauto.
  - exists chs. split; [done|]. split_and!; [done|done|]. intros name Hnm Hnot. apply list_elem_of_filter in Hnm as [Hsec [->|Hnm]%elem_of_cons].
    + apply component_None in Hsec. unfold rebuilt. rewrite Hsec, component_elem by done. cbn. f_equal. unfold with_patches.
      destruct c as [? ? ? ps]; cbn in *. f_equal. destruct ps; [done|]. by destruct Hcase.
    + apply Hc3; [|done]. apply list_elem_of_filter. done.
Qed.

Lemma fit_app first second n1 n2 l1 l2 : changes_fit first second n1 l1 → changes_fit first second n2 l2 →
  (∀ x, x ∈ n1 → x ∉ n2) → changes_fit first second (n1 ++ n2) (l1 ++ l2).
Proof.
  intros (A1 & A2 & A3) (B1 & B2 & B3) Hd. split_and!.
  - rewrite fmap_app. apply NoDup_app. split_and!; [done| |done].
    intros x (c1 & -> & H1)%list_elem_of_fmap (c2 & E & H2)%list_elem_of_fmap. apply A2 in H1 as [H1 _]. apply B2 in H2 as [H2 _].
    rewrite <- E in H2. by apply (Hd _ H1).
  - intros ch [H|H]%elem_of_app; [destruct (A2 _ H)|destruct (B2 _ H)]; (split; [apply elem_of_app; tauto|done]).
  - intros name Hn Hnot. rewrite fmap_app, not_elem_of_app in Hnot. apply elem_of_app in Hn as [H|H]; [apply A3|apply B3]; tauto.
Qed.

(** *** The kernel artifacts *)

Lemma put_slot_new a ks : slot a ∉ slot <$> ks → put_slot a ks = ks ++ [a].
Proof.
  induction ks as [|b ks IH]; cbn; [done|]. intros [Hne Hn]%not_elem_of_cons. rewrite bool_decide_false by done. by rewrite IH.
Qed.
Lemma put_slots_new ks l : NoDup (slot <$> ks ++ l) → foldl (λ s a, put_slot a s) ks l = ks ++ l.
Proof.
  revert ks. induction l as [|a l IH]; intros ks Hnd; cbn [foldl]; [by rewrite app_nil_r|].
  rewrite put_slot_new.
  - rewrite IH; by rewrite <- app_assoc.
  - rewrite fmap_app in Hnd. apply NoDup_app in Hnd as (_ & Hd & _). intros H. apply (Hd _ H). left.
Qed.

Lemma kernels_rebuilt fk sk : valid_kernels fk → valid_kernels sk →
  apply_kernels fk (filter (λ a, a ∉ fk) sk) (merge_sort str_le (ka_ref <$> filter (λ a, a ∉ sk) fk))
  = Ok (filter (λ a, a ∈ sk) fk ++ filter (λ a, a ∉ fk) sk)
  ∧ filter (λ a, a ∈ sk) fk ++ filter (λ a, a ∉ fk) sk ≡ₚ sk.
Proof.
  intros (_ & Hfs & Hfr) (_ & Hss & Hsr).
  assert (Hperm : filter (λ a, a ∈ sk) fk ++ filter (λ a, a ∉ fk) sk ≡ₚ sk).
  { apply NoDup_Permutation; [|by apply NoDup_fmap_1 in Hss|].
    - apply NoDup_app. split_and!; [apply NoDup_filter; by apply NoDup_fmap_1 in Hfs| |apply NoDup_filter; by apply NoDup_fmap_1 in Hss].
      intros a [_ H1]%list_elem_of_filter [H2 _]%list_elem_of_filter. done.
    - intros a. rewrite elem_of_app, !list_elem_of_filter. destruct (decide (a ∈ fk)); tauto. }
  split; [|done]. unfold apply_kernels.
  assert (Hrem : ∀ r, r ∈ merge_sort str_le (ka_ref <$> filter (λ a, a ∉ sk) fk) ↔ ∃ a, r = ka_ref a ∧ a ∈ fk ∧ a ∉ sk).
  { intros r. rewrite merge_sort_Permutation, list_elem_of_fmap. setoid_rewrite list_elem_of_filter. naive_solver. }
  rewrite raise_if_false.
  - f_equal. rewrite (list_filter_ext_in _ (λ a, a ∈ sk)).
    + rewrite (put_slots_new []); cbn [app].
      * rewrite put_slots_new; [done|]. by rewrite Hperm.
      * by apply NoDup_key_filter.
    + intros a Ha. rewrite Hrem. split.
      * intros H. destruct (decide (a ∈ sk)); [done|]. destruct H. eauto.
      * intros Hs (a' & E & Ha' & Hs'). assert (a' = a) as ->; [|done].
        by apply (NoDup_key_inj ka_ref fk).
  - apply bool_decide_eq_false. intros H. apply H, sorted_set_nil, list_filter_none. intros r (a & -> & Ha & _)%Hrem H'.
    by apply H', list_elem_of_fmap_2.
Qed.

(** ** The theorem *)

(** C25: The delta between two valid recipes that take no component from two repositories exists, applies to the first, and
    makes a valid recipe: each of the second's components with its commit and patch stack, in that order, the first's
    other components at their own commit without patches, and exactly the second's kernel artifacts. *)
Theorem delta_between_rebuilds first second fk sk :
  valid_components first → valid_components second → valid_kernels fk → valid_kernels sk → same_repos first second →
  ∃ changes add remove comps kernels,
    delta_between first second fk sk = Ok (changes, add, remove) ∧
    apply_components first changes = Ok comps ∧ apply_kernels fk add remove = Ok kernels ∧
    recipe_checks comps kernels = Ok () ∧
    (∀ name, component comps name = rebuilt first second name) ∧ kernels ≡ₚ sk.
Proof.
  intros Hf Hs Hfk Hsk Hr.
  destruct (component_deltas_fit first second Hf Hs Hr) as (chs & Hchs & Hfit).
  destruct (stripped_fit first second Hf) as (str & Hstr & Hfit').
  destruct (kernels_rebuilt fk sk Hfk Hsk) as [Hk Hperm].
  assert (Hall : changes_fit first second ((cp_component <$> second) ++ filter (λ n, n ∉ cp_component <$> second) (cp_component <$> first)) (chs ++ str)).
  { apply fit_app; [done|done|]. intros x Hx Hx'. apply list_elem_of_filter in Hx' as [? _]. done. }
  destruct Hall as (Hnd & Hap & Hrest). destruct Hf as [Hfv Hfn].
  destruct (by_name_of_spec first Hfn) as [Hnm Hget].
  destruct (apply_changes_ok (rebuilt first second) (chs ++ str) (by_name_of first)) as (d & Hd & Hdn & Hdg); [done|done| |].
  { intros ch Hch. rewrite Hget. by apply Hap. }
  unfold delta_between. rewrite Hchs, Hstr. cbn [mbind res_bind]. do 5 eexists. split_and!; [| |exact Hk| | |exact Hperm].
  - cbv zeta. unfold delta_init. rewrite !bind_unit_ok. split; [|done]. split_and!.
    + by apply check_unique_ok.
    + apply check_unique_ok, NoDup_key_filter, Hsk.
    + apply all_ok_Forall. rewrite merge_sort_Permutation. apply Forall_fmap, Forall_forall.
      intros a [_ Ha]%list_elem_of_filter. destruct Hfk as [H _]. rewrite Forall_forall in H. by apply H.
  - unfold apply_components. rewrite Hd. done.
  - unfold recipe_checks. rewrite !bind_unit_ok, !check_unique_ok. rewrite named_keys by done.
    split_and!; [apply Hdn|by rewrite Hperm; apply Hsk|by rewrite Hperm; apply Hsk].
  - intros name. rewrite component_dvals, Hdg by done. case_bool_decide as Hin; [done|]. rewrite Hget. symmetry.
    destruct (decide (name ∈ (cp_component <$> second) ++ filter (λ n, n ∉ cp_component <$> second) (cp_component <$> first))) as [Hn|Hn]; [by apply Hrest|].
    rewrite not_elem_of_app, list_elem_of_filter in Hn. destruct Hn as [Hn1 Hn2]. unfold rebuilt.
    rewrite (proj2 (component_None second name) Hn1), (proj2 (component_None first name)); [done|]. tauto.
Qed.
End recipes.

(** ** Two recipes of one session *)

Module RecipeDemo.
Definition hex (c : string) (n : nat) : string := String.concat "" (replicate n c).
Definition patch (comp c : string) : PatchRef :=
  {| pt_path := "patch/" +:+ comp +:+ "/" +:+ hex c 64 +:+ ".patch"; pt_sha256 := hex c 64 |}.
Definition comp (name ref : string) (ps : list PatchRef) : ComponentPatches :=
  {| cp_component := name; cp_upstream_repo := "https://github.com/x/" +:+ name; cp_upstream_ref := hex ref 40; cp_patches := ps |}.
Definition kernel (target c : string) : KernelArtifact (M := unit) :=
  {| ka_kind := GEMM; ka_target := target; ka_ref := "kernel/gemm/" +:+ hex c 4 +:+ ".csv"; ka_sha256 := hex c 64; ka_metadata := () |}.
Definition first := [comp "aiter" "a" [patch "aiter" "1"; patch "aiter" "2"]; comp "vllm" "b" [patch "vllm" "3"]].
Definition second := [comp "aiter" "c" [patch "aiter" "1"; patch "aiter" "4"; patch "aiter" "2"]; comp "triton" "d" []].
Definition fk := [kernel "a8w8" "5"; kernel "bf16" "6"].
Definition sk := [kernel "bf16" "7"; kernel "a8w8" "5"].
Definition made : option ComponentPatches * option ComponentPatches * option ComponentPatches * list KernelArtifact :=
  match delta_between first second fk sk with
  | Ok (chs, add, remove) =>
      match apply_components first chs, apply_kernels fk add remove with
      | Ok comps, Ok ks => (component comps "aiter", component comps "vllm", component comps "triton", ks)
      | _, _ => (None, None, None, [])
      end
  | Raise _ => (None, None, None, [])
  end.
(** A dropped repository change is refused. *)
Definition moved_repo := [{| cp_component := "vllm"; cp_upstream_repo := "https://github.com/y/vllm"; cp_upstream_ref := hex "b" 40; cp_patches := [] |}].

Example made_is : made = (Some (comp "aiter" "c" [patch "aiter" "1"; patch "aiter" "4"; patch "aiter" "2"]), Some (comp "vllm" "b" []),
  Some (comp "triton" "d" []), [kernel "a8w8" "5"; kernel "bf16" "7"]).
Proof. vm_compute. reflexivity. Qed.
Example moved_repo_is : is_ok (delta_between first moved_repo fk sk) = false.
Proof. vm_compute. reflexivity. Qed.
Lemma first_valid : valid_components first.
Proof. split; [|by apply (bool_decide_unpack _); vm_compute]. repeat constructor; by vm_compute. Qed.
Lemma second_valid : valid_components second.
Proof. split; [|by apply (bool_decide_unpack _); vm_compute]. repeat constructor; by vm_compute. Qed.
Lemma kernels_valid : valid_kernels fk ∧ valid_kernels sk.
Proof. split; (split_and!; [repeat constructor; by vm_compute|by apply (bool_decide_unpack _); vm_compute..]). Qed.
Lemma repos_same : same_repos first second.
Proof. intros c c' Hc Hc'. unfold first, second in *. set_solver. Qed.
End RecipeDemo.

Import RecipeDemo.
Lemma delta_between_rebuilds_witness : ∃ changes add remove comps,
  delta_between first second fk sk = Ok (changes, add, remove) ∧ apply_components first changes = Ok comps
  ∧ component comps "aiter" = Some (comp "aiter" "c" [patch "aiter" "1"; patch "aiter" "4"; patch "aiter" "2"]).
Proof.
  destruct (delta_between_rebuilds first second fk sk first_valid second_valid (proj1 kernels_valid) (proj2 kernels_valid) repos_same)
    as (chs & add & rem & comps & ks & Hd & Ha & _ & _ & Hc & _).
  exists chs, add, rem, comps. split_and!; [done|done|]. rewrite Hc. vm_compute. reflexivity.
Defined.
