(* ===== verification/RepoMerge.v ===== *)
(** * Carrying a candidate's patches onto another recipe

    [multibranch/repo/merge.py] (the components part of [carry]) with [multibranch/repo/rebase.py]: the patches a
    candidate added or dropped since its merge base are put on the head's stacks; a patch that does not apply there is
    rebased by a three-way merge of its files, put in for the head patches it rewrites, held when the stack already
    makes its change, split by file, or left out as a conflict.

    Git and the installed sources are parameters: applying a stack, merging a file, finding renames, the text of a
    difference and its hunks.  The launch settings and the kernel tables of [carry] are not modelled: they change other
    parts of the recipe.  A path looked up in the files of a stack is one the stack was asked for. *)

From stdpp Require Import base list strings pretty sets gmap.
From Stdlib Require Import ZArith Lia Ascii.
From S2P Require Import Prelude PyFloat PyVal Dicts TestRequests Recipes.

(** A file's content by its path, [None] where there is no file. *)
Notation Files := (gmap string (option string)).
Definition file (fs : Files) (path : string) : option string := default None (fs !! path).

(** ** Rebasing *)

Class GitFiles := {
  (** [git merge-file ours base theirs]: the merge, [None] with a conflict. *)
  git_merge : string → string → string → option string;
  (** [git diff] of two trees; [git diff -M] of two trees, each new path with its old. *)
  git_diff : Files → Files → string;
  git_renames : Files → Files → gmap string string;
  (** The hunks of [git diff --no-index -U1]: the old side's start and line count, and the body's lines. *)
  git_hunks : string → string → list (Z * option Z * list string)
}.

Section rebase.
Context `{!GitFiles}.
Implicit Types (base ours theirs : option string).

(** [_merge_file]; [None] is [_Overlap]. *)
Definition merge_file base ours theirs : option (option string) :=
  if bool_decide (theirs = base ∨ theirs = ours) then Some ours
  else if bool_decide (base = ours) then Some theirs
  else match base, ours, theirs with
       | Some b, Some o, Some t => match git_merge o b t with Some m => Some (Some m) | None => None end
       | _, _, _ => None
       end.
Fixpoint merge_paths (base ours : Files) (changes : list (string * option string)) (merged : Files) : option Files :=
  match changes with
  | [] => Some merged
  | (path, change) :: rest =>
      match merge_file (file base path) (file ours path) change with
      | Some content => merge_paths base ours rest (<[path := content]> merged)
      | None => None
      end
  end.
Definition merge_files (base ours theirs : Files) : option Files := merge_paths base ours (map_to_list theirs) ours.

(** [_changed_runs]: the runs of lines of the old side a hunk changes. *)
Fixpoint changed_runs (line : Z) (run : option (Z * Z)) (body : list string) : list (Z * Z) :=
  match body with
  | [] => option_list run
  | row :: body' =>
      match chars row with
      | " "%char :: _ => option_list run ++ changed_runs (line + 1) None body'
      | "-"%char :: _ => changed_runs (line + 1) (Some (match run with None => line | Some r => r.1 end, line + 1)%Z) body'
      | "+"%char :: _ => changed_runs line (match run with None => Some (line, line) | Some _ => run end) body'
      | _ => changed_runs line run body'
      end
  end.
Definition hunks (before after : string) : list (Z * Z) :=
  git_hunks before after ≫= λ '(start, count, body),
    changed_runs (start - (if bool_decide (count = Some 0%Z) then 0 else 1))%Z None body.

Definition in_runs (runs : list (Z * Z)) (line : Z) : bool :=
  existsb (λ '(s, e), (s <=? line) && (line <? e))%Z runs.
Definition rewrites base ours theirs : bool :=
  if bool_decide (ours = base) then true
  else match base, ours, theirs with
       | Some b, Some o, Some t =>
           let rewritten := hunks b t in
           forallb (λ '(s, e),
             if (s <? e)%Z then forallb (in_runs rewritten) ((λ i, (s + Z.of_nat i)%Z) <$> seq 0 (Z.to_nat (e - s)))
             else in_runs rewritten (s - 1)%Z && in_runs rewritten s) (hunks b o)
       | Some _, None, None => true
       | _, _, _ => false
       end.

Definition patch_between (before after : Files) : string :=
  if forallb (λ '(path, content), bool_decide (file before path = content)) (map_to_list after) then "" else git_diff before after.

(** ** The three sides of a patch *)

Record Sides := { sd_original : Files; sd_changed : Files; sd_current : Files; sd_renamed : gmap string string }.
Implicit Types (sd : Sides).

Definition moved sd : gmap string string :=
  filter (λ x, file (sd_current sd) x.1 = None ∧ file (sd_current sd) x.2 ≠ None) (sd_renamed sd).
Definition clashing sd (new : string) : bool :=
  match sd_renamed sd !! new with
  | Some old => bool_decide ((file (sd_current sd) new = None) ↔ (file (sd_current sd) old = None))
  | None => false
  end.
(** The old paths of the moves, each with the file the stack has there. *)
Definition old_files sd : Files :=
  list_to_map ((λ '(_, old), (old, file (sd_current sd) old)) <$> map_to_list (moved sd)).
Definition side_base sd : Files :=
  old_files sd ∪ ((λ old, file (sd_original sd) old) <$> moved sd) ∪ sd_original sd.
Definition side_ours sd : Files := ((λ old, file (sd_current sd) old) <$> moved sd) ∪ sd_current sd.

(** [_Sides.merged] *)
Definition side_merged sd (paths : list string) : option Files :=
  if existsb (clashing sd) paths then None
  else merge_files (side_base sd) (side_ours sd) (list_to_map ((λ p, (p, file (sd_changed sd) p)) <$> paths)).

(** [_Sides.units] *)
Definition units sd : list (list string) :=
  let touched := (filter (λ x, x.2 ≠ file (sd_original sd) x.1) (map_to_list (sd_changed sd))).*1 in
  let olds := (map_to_list (sd_renamed sd)).*2 in
  (λ path, match sd_renamed sd !! path with Some old => [path; old] | None => [path] end)
    <$> filter (λ path, path ∉ olds) touched.

End rebase.

(** ** What a merge consults *)

(** [StackFiles]: the files a component's patch stack touches and the paths asked for as the stack leaves them, or why a
    patch does not apply; the digest a stored patch is named by; the paths a merge never takes out. *)
Class Sources := {
  stack_files : ComponentPatches → list string → string + Files;
  sha256_hex : string → string;
  protected : list string
}.

Record PatchConflict := { pc_component : string; pc_path : string; pc_error : string }.
Record RebasedPatch := { rb_component : string; rb_path : string; rb_patch : PatchRef }.
Record ReplacedPatch := { rp_component : string; rp_removed : list string; rp_patch : PatchRef }.

(** [_Settled] *)
Record Settled := {
  se_conflicts : list PatchConflict; se_rebased : list RebasedPatch; se_held : list string;
  se_replaced : list ReplacedPatch; se_parts : list string
}.
Definition settled_none : Settled :=
  {| se_conflicts := []; se_rebased := []; se_held := []; se_replaced := []; se_parts := [] |}.

Section merge.
Context `{!GitFiles, !Sources}.
Implicit Types (c : ComponentPatches) (p : PatchRef) (s : Settled).

(** [GitExperimentRepo._put_patch] *)
Definition put_patch (name text : string) : PatchRef :=
  {| pt_path := "patch/" +:+ name +:+ "/" +:+ sha256_hex text +:+ ".patch"; pt_sha256 := sha256_hex text |}.

(** [dataclasses.replace(c, patches=ps)], and [_apply_error] of it. *)
Definition replace_patches c (ps : list PatchRef) : res ComponentPatches := component_init (with_patches ps c).
Definition apply_error c : option string := match stack_files c [] with inl e => Some e | inr _ => None end.
Definition apply_error_of c (ps : list PatchRef) : res (option string) :=
  stack ← replace_patches c ps; Ok (apply_error stack).

Definition keys (fs : Files) : list string := (map_to_list fs).*1.
Definition index_of p (ps : list PatchRef) : res nat :=
  match list_find (p =.) ps with
  | Some (i, _) => Ok i
  | None => Raise (ValueError "tuple.index(x): x not in tuple")
  end.

Definition sides (stack theirs : ComponentPatches) p : res (option Sides) :=
  i ← index_of p (cp_patches theirs);
  with_it ← replace_patches theirs (take (S i) (cp_patches theirs));
  before_it ← replace_patches theirs (take i (cp_patches theirs));
  Ok (match stack_files with_it [] with
      | inl _ => None
      | inr changed =>
          match stack_files before_it (keys changed), stack_files stack (keys changed) with
          | inr original, inr current =>
              Some {| sd_original := original; sd_changed := changed; sd_current := current;
                      sd_renamed := git_renames (filter (λ x, is_Some (changed !! x.1)) original) changed |}
          | _, _ => None
          end
      end).

(** [_rebased_text]: empty when the stack already makes the change, [None] when a line is changed by both. *)
Definition rebased_text (sd : Sides) : option string :=
  patch_between (sd_current sd) <$> side_merged sd (keys (sd_changed sd)).

Definition split_unit (sd : Sides) (acc : Files * list string) (unit : list string) : Files * list string :=
  let '(merged, overlapping) := acc in
  match side_merged sd unit with
  | None => (merged, overlapping ++ unit)
  | Some files => (foldl (λ m path, <[path := file files path]> m) merged unit, overlapping)
  end.
Definition split_units (sd : Sides) (us : list (list string)) : Files * list string :=
  foldl (split_unit sd) (sd_current sd, []) us.
(** [_split] *)
Definition split (name : string) (sd : Sides) : option (option PatchRef * PatchRef) :=
  let us := units sd in
  let '(merged, overlapping) := split_units sd us in
  if (length overlapping =? length (mjoin us))%nat then None
  else
    let text := patch_between (sd_current sd) merged in
    let rest := patch_between (list_to_map ((λ path, (path, file (sd_original sd) path)) <$> overlapping))
                              (list_to_map ((λ path, (path, file (sd_changed sd) path)) <$> overlapping)) in
    Some (if String.eqb text "" then None else Some (put_patch name text), put_patch name rest).

(** [_without_dependents] *)
Fixpoint keep_applying c (kept later : list PatchRef) : res (list PatchRef) :=
  match later with
  | [] => Ok kept
  | p :: rest =>
      error ← apply_error_of c (kept ++ [p]);
      keep_applying c (match error with None => kept ++ [p] | Some _ => kept end) rest
  end.
Definition without_dependents (stack : ComponentPatches) (head : PatchRef) : res (list PatchRef) :=
  i ← index_of head (cp_patches stack);
  keep_applying stack (take i (cp_patches stack)) (drop (S i) (cp_patches stack)).

(** [_replacement], over the heads still to try. *)
Fixpoint replacement (stack : ComponentPatches) (sd : Sides) p (heads tries : list PatchRef) : res (option (list PatchRef)) :=
  match tries with
  | [] => Ok None
  | head :: rest =>
      kept ← without_dependents stack head;
      if existsb (λ gone, bool_decide (gone ∉ heads)) (filter (λ g, g ∉ kept) (cp_patches stack))
      then replacement stack sd p heads rest
      else
        c0 ← replace_patches stack kept;
        c1 ← replace_patches stack (kept ++ [p]);
        match stack_files c0 (keys (sd_current sd)), stack_files c1 (keys (sd_current sd)) with
        | inr before, inr after =>
            let moves path := match list_find (λ x, x.2 = path) (map_to_list (sd_renamed sd)) with Some (_, x) => x.1 | None => path end in
            if forallb (λ '(path, content), rewrites (file before path) content (file after (moves path))) (map_to_list (sd_current sd))
            then Ok (Some kept)
            else replacement stack sd p heads rest
        | _, _ => replacement stack sd p heads rest
        end
  end.

(** ** Settling one component's stack *)

Record Settling := { sg_applied : list PatchRef; sg_settled : Settled }.
Implicit Types (g : Settling).

Definition add_conflict (name path error : string) s : Settled :=
  {| se_conflicts := se_conflicts s ++ [{| pc_component := name; pc_path := path; pc_error := error |}];
     se_rebased := se_rebased s; se_held := se_held s; se_replaced := se_replaced s; se_parts := se_parts s |}.
Definition add_rebased (name path : string) (r : PatchRef) s : Settled :=
  {| se_conflicts := se_conflicts s; se_rebased := se_rebased s ++ [{| rb_component := name; rb_path := path; rb_patch := r |}];
     se_held := se_held s; se_replaced := se_replaced s; se_parts := se_parts s |}.
Definition add_held (path : string) s : Settled :=
  {| se_conflicts := se_conflicts s; se_rebased := se_rebased s; se_held := se_held s ++ [path];
     se_replaced := se_replaced s; se_parts := se_parts s |}.
Definition add_replaced (name : string) (removed : list string) p s : Settled :=
  {| se_conflicts := se_conflicts s; se_rebased := se_rebased s; se_held := se_held s;
     se_replaced := se_replaced s ++ [{| rp_component := name; rp_removed := removed; rp_patch := p |}]; se_parts := se_parts s |}.
Definition add_part (path : string) s : Settled :=
  {| se_conflicts := se_conflicts s; se_rebased := se_rebased s; se_held := se_held s; se_replaced := se_replaced s;
     se_parts := se_parts s ++ [path] |}.

Section settle.
Context (c : ComponentPatches) (theirs : option ComponentPatches) (brought : list string).
Local Notation name := (cp_component c).

Definition heads_of : list PatchRef :=
  filter (λ p, pt_path p ∉ brought ∧ pt_path p ∉ protected ∧ p ∉ default [] (cp_patches <$> theirs))
    (cp_patches c).

(** [_Settling._overlapping] *)
Definition overlapping (stack : ComponentPatches) (sd : Sides) p (error : string) g : res Settling :=
  let s := sg_settled g in
  kept ← replacement stack sd p heads_of (filter (λ h, h ∈ heads_of) (reverse (cp_patches stack)));
  match kept with
  | Some kept =>
      let removed := pt_path <$> filter (λ h, h ∉ kept) (sg_applied g) in
      Ok {| sg_applied := kept ++ [p]; sg_settled := add_replaced name removed p s |}
  | None =>
      match split name sd with
      | None => Ok {| sg_applied := sg_applied g; sg_settled := add_conflict name (pt_path p) error s |}
      | Some (carried, rest) =>
          let '(applied, s) := match carried with
                               | None => (sg_applied g, add_held (pt_path p) s)
                               | Some r => (sg_applied g ++ [r], add_rebased name (pt_path p) r s)
                               end in
          error' ← apply_error_of c (applied ++ [rest]);
          Ok {| sg_applied := applied;
                sg_settled := add_part (pt_path rest) (add_conflict name (pt_path rest) (default error error') s) |}
      end
  end.

(** [_Settling.add] *)
Definition add p g : res Settling :=
  let s := sg_settled g in
  stack ← replace_patches c (sg_applied g);
  error ← apply_error_of c (sg_applied g ++ [p]);
  match error with
  | None => Ok {| sg_applied := sg_applied g ++ [p]; sg_settled := s |}
  | Some error =>
      sd ← match theirs with
           | Some t => if bool_decide (pt_path p ∈ brought) then sides stack t p else Ok None
           | None => Ok None
           end;
      match sd with
      | None => Ok {| sg_applied := sg_applied g; sg_settled := add_conflict name (pt_path p) error s |}
      | Some sd =>
          match rebased_text sd with
          | None => overlapping stack sd p error g
          | Some text =>
              if String.eqb text "" then Ok {| sg_applied := sg_applied g; sg_settled := add_held (pt_path p) s |}
              else let r := put_patch name text in
                   Ok {| sg_applied := sg_applied g ++ [r]; sg_settled := add_rebased name (pt_path p) r s |}
          end
      end
  end.
Fixpoint add_all (ps : list PatchRef) g : res Settling :=
  match ps with [] => Ok g | p :: rest => g' ← add p g; add_all rest g' end.

(** [_settle] *)
Definition settle : res Settled :=
  if bool_decide (cp_patches c = []) then Ok settled_none
  else match apply_error c with
       | None => Ok settled_none
       | Some _ => g ← add_all (cp_patches c) {| sg_applied := []; sg_settled := settled_none |}; Ok (sg_settled g)
       end.
End settle.

(** ** Carrying the change *)

(** [_component_change] *)
Definition component_change (base candidate ours : list ComponentPatches) (name : string) : res (option ComponentChange) :=
  let patches_of r := match component r name with Some c => cp_patches c | None => [] end in
  let old := patches_of base in let new := patches_of candidate in let have := patches_of ours in
  let added := filter (λ p, p ∉ old ∧ p ∉ have) new in
  let removed := pt_path <$> filter (λ p, p ∉ new ∧ p ∈ have) old in
  if bool_decide (added = [] ∧ removed = []) then Ok None
  else
    ch ← change_init
      match component ours name, component candidate name with
      | None, Some after =>
          {| cc_component := name; cc_upstream_ref := Some (cp_upstream_ref after);
             cc_upstream_repo := Some (cp_upstream_repo after); cc_add_patches := added; cc_remove_patches := [] |}
      | _, _ => {| cc_component := name; cc_upstream_ref := None; cc_upstream_repo := None; cc_add_patches := added;
                   cc_remove_patches := removed |}
      end;
    Ok (Some ch).

Fixpoint collect {A B} (f : A → res (option B)) (l : list A) : res (list B) :=
  match l with [] => Ok [] | x :: l' => y ← f x; ys ← collect f l'; Ok (option_list y ++ ys) end.
(** [_components] *)
Definition component_changes (base candidate ours : list ComponentPatches) : res (list ComponentChange) :=
  collect (component_change base candidate ours) (sorted_set ((cp_component <$> base) ++ (cp_component <$> candidate))).

(** [_joined] *)
Definition joined (l : list Settled) : Settled :=
  {| se_conflicts := l ≫= se_conflicts; se_rebased := l ≫= se_rebased; se_held := l ≫= se_held;
     se_replaced := l ≫= se_replaced; se_parts := l ≫= se_parts |}.

(** [_without] on one change: [failed] and [moved] are those of the change's component, [held] and [parts] of all. *)
Definition failed_of (name : string) s : list string :=
  (pc_path <$> filter (λ x, pc_component x = name) (se_conflicts s))
  ++ (filter (λ x, rp_component x = name) (se_replaced s) ≫= rp_removed).
Definition moved_of (name : string) s : list (string * PatchRef) :=
  foldl (λ d x, dset (rb_path x) (rb_patch x) d) [] (filter (λ x, rb_component x = name) (se_rebased s)).
Definition without_change s (ch : ComponentChange) : res ComponentChange :=
  let failed := failed_of (cc_component ch) s in
  let moved := moved_of (cc_component ch) s in
  let brought := pt_path <$> cc_add_patches ch in
  let kept := filter (λ p, pt_path p ∉ failed ∧ pt_path p ∉ se_held s) (cc_add_patches ch) in
  change_init
    {| cc_component := cc_component ch; cc_upstream_ref := cc_upstream_ref ch; cc_upstream_repo := cc_upstream_repo ch;
       cc_add_patches := (λ p, default p (dget (pt_path p) moved)) <$> kept;
       cc_remove_patches := cc_remove_patches ch
         ++ sorted_set (filter (λ path, path ∉ brought ∧ path ∉ se_parts s) failed) |}.
Fixpoint each {A B} (f : A → res B) (l : list A) : res (list B) :=
  match l with [] => Ok [] | x :: l' => y ← f x; ys ← each f l'; Ok (y :: ys) end.
Definition without (changes : list ComponentChange) s : res (list ComponentChange) :=
  if bool_decide (length (se_conflicts s) = 0 ∧ length (se_rebased s) = 0 ∧ se_held s = [] ∧ length (se_replaced s) = 0)
  then Ok changes else each (without_change s) changes.

(** [carry] on the components. *)
Definition carry (base candidate ours : list ComponentPatches) : res (list ComponentChange * Settled) :=
  changes ← component_changes base candidate ours;
  merged ← apply_components ours changes;
  let brought := changes ≫= λ ch, pt_path <$> cc_add_patches ch in
  parts ← each (λ ch, match component merged (cc_component ch) with
                      | Some c => settle c (component candidate (cc_component ch)) brought
                      | None => Ok settled_none
                      end) changes;
  let s := joined parts in
  changes' ← without changes s;
  Ok (changes', s).
End merge.

(** What the merge relies on: whether a stack applies does not depend on the files asked for, an empty stack applies, and
    the patch between the files a stack leaves and other files applies on that stack ("a git patch that turns [before]
    into [after]"). *)
Class SourceLaws `{!GitFiles, !Sources} := {
  stack_ok : ∀ c ps fs, stack_files c ps = inr fs → apply_error c = None;
  empty_ok : ∀ c, cp_patches c = [] → apply_error c = None;
  diff_ok : ∀ c ps before after, stack_files c ps = inr before → dom before ⊆ dom after → patch_between before after ≠ "" →
    apply_error (with_patches (cp_patches c ++ [put_patch (cp_component c) (patch_between before after)]) c) = None
}.

Section proofs.
Context {GF : GitFiles} {SR : Sources} {SL : SourceLaws}.
Implicit Types (c : ComponentPatches) (p : PatchRef) (s : Settled) (g : Settling).

(** ** The merged files hold every file of the stack *)

Lemma merge_paths_dom base ours changes m m' : merge_paths base ours changes m = Some m' → dom m ⊆ dom m'.
Proof.
  revert m. induction changes as [|[path change] rest IH]; intros m; cbn [merge_paths]; [by intros [= ->]|].
  destruct (merge_file _ _ _) as [content|]; [|done]. intros H%IH. rewrite dom_insert_L in H. set_solver.
Qed.
Lemma side_merged_dom sd paths m : side_merged sd paths = Some m → dom (sd_current sd) ⊆ dom m.
Proof.
  unfold side_merged, merge_files. case_match; [done|]. intros Hm%merge_paths_dom. unfold side_ours in Hm. rewrite dom_union_L in Hm. set_solver.
Qed.
Lemma split_units_dom sd us : dom (sd_current sd) ⊆ dom (split_units sd us).1.
Proof.
  unfold split_units.
  assert (H : ∀ acc : Files * list string, dom (sd_current sd) ⊆ dom acc.1 → dom (sd_current sd) ⊆ dom (foldl (split_unit sd) acc us).1);
    [|by apply H].
  induction us as [|u us IH]; intros [m o] Hm; cbn [foldl]; [done|]. apply IH. unfold split_unit.
  destruct (side_merged sd u) as [fs|]; [|done]. cbn [fst] in *.
  clear -Hm. revert m Hm. induction u as [|x u IH]; intros m Hm; cbn [foldl]; [done|]. apply IH. rewrite dom_insert_L. set_solver.
Qed.

(** ** Every stack the settling reaches applies *)

Definition applies c (ps : list PatchRef) : Prop := apply_error (with_patches ps c) = None.

Lemma replace_ok c ps c' : replace_patches c ps = Ok c' → c' = with_patches ps c ∧ NoDup (pt_path <$> ps).
Proof. unfold replace_patches. intros H. pose proof (component_init_ok _ _ H) as ->. split; [done|]. by apply component_init_unique in H. Qed.
Lemma apply_error_of_ok c ps e : apply_error_of c ps = Ok e → apply_error (with_patches ps c) = e ∧ NoDup (pt_path <$> ps).
Proof. unfold apply_error_of. intros (c' & Hc & [= <-])%res_bind_ok. apply replace_ok in Hc as [-> ?]. done. Qed.

Lemma sides_current stack theirs p sd : sides stack theirs p = Ok (Some sd) → ∃ ps, stack_files stack ps = inr (sd_current sd).
Proof.
  unfold sides. intros (i & _ & H)%res_bind_ok. apply res_bind_ok in H as (c1 & _ & H). apply res_bind_ok in H as (c0 & _ & H).
  injection H as H. destruct (stack_files c1 []) as [|changed]; [done|]. destruct (stack_files c0 _) as [|original]; [done|].
  destruct (stack_files stack _) as [|current] eqn:Hc; [done|]. injection H as <-. eauto.
Qed.

Lemma rebased_applies c ps sd ks text : stack_files (with_patches ps c) ks = inr (sd_current sd) →
  rebased_text sd = Some text → text ≠ "" → applies c (ps ++ [put_patch (cp_component c) text]).
Proof.
  intros Hs Ht Hne. unfold rebased_text in Ht. apply fmap_Some in Ht as (m & Hm & ->).
  exact (diff_ok (with_patches ps c) ks (sd_current sd) m Hs (side_merged_dom _ _ _ Hm) Hne).
Qed.
Lemma split_applies c ps sd ks r rest : stack_files (with_patches ps c) ks = inr (sd_current sd) →
  split (cp_component c) sd = Some (Some r, rest) → applies c (ps ++ [r]).
Proof.
  intros Hs. unfold split. pose proof (split_units_dom sd (units sd)) as Hd. destruct (split_units sd (units sd)) as [m o]. cbn [fst] in Hd.
  case_match; [done|]. destruct (String.eqb_spec (patch_between (sd_current sd) m) ""); [done|]. intros [= <- _].
  by apply (diff_ok (with_patches ps c) ks (sd_current sd) m).
Qed.

Lemma replacement_ok stack sd p heads tries kept : replacement stack sd p heads tries = Ok (Some kept) →
  (∃ h, without_dependents stack h = Ok kept) ∧ applies stack (kept ++ [p]) ∧
  (∀ x, x ∈ cp_patches stack → x ∉ kept → x ∈ heads).
Proof.
  induction tries as [|h tries IH]; cbn [replacement]; [done|]. intros (k & Hk & H)%res_bind_ok. case_match eqn:Hex; [by apply IH|].
  apply res_bind_ok in H as (c0 & H0 & H). apply res_bind_ok in H as (c1 & H1 & H). apply replace_ok in H1 as [-> _].
  destruct (stack_files c0 _) as [|before]; [by apply IH|]. destruct (stack_files (with_patches _ _) _) as [|after] eqn:Ha; [by apply IH|].
  cbv zeta in H. case_match; [|by apply IH]. injection H as <-. split_and!; [eauto|by eapply stack_ok|].
  intros x Hx Hn. destruct (decide (x ∈ heads)) as [|Hh]; [done|]. exfalso.
  apply not_true_iff_false in Hex. apply Hex. apply existsb_exists. exists x. split; [|by apply bool_decide_eq_true].
  apply list_elem_of_In, list_elem_of_filter. done.
Qed.

Lemma keep_applying_sublist c kept later out : keep_applying c kept later = Ok out → ∃ l, out = kept ++ l ∧ sublist l later.
Proof.
  revert kept. induction later as [|p later IH]; intros kept; cbn [keep_applying].
  - intros [= <-]. exists []. by rewrite app_nil_r.
  - intros (e & _ & H)%res_bind_ok. apply IH in H as (l & -> & Hl). destruct e; [exists l; split; [done|by apply sublist_cons]|].
    exists (p :: l). rewrite <- app_assoc. split; [done|by apply sublist_skip].
Qed.
Lemma without_dependents_sublist stack h kept : without_dependents stack h = Ok kept → sublist kept (cp_patches stack).
Proof.
  unfold without_dependents. intros (i & _ & H)%res_bind_ok. apply keep_applying_sublist in H as (l & -> & Hl).
  rewrite <- (take_drop i (cp_patches stack)) at 2. apply sublist_app; [done|].
  etrans; [exact Hl|]. rewrite <- Nat.add_1_r, <- drop_drop. apply sublist_drop.
Qed.

Lemma add_applies c theirs brought p g g' : add c theirs brought p g = Ok g' → applies c (sg_applied g) → applies c (sg_applied g').
Proof.
  unfold add. intros (stack & Hst & H)%res_bind_ok Ha. apply replace_ok in Hst as [-> _].
  apply res_bind_ok in H as (e & He & H). apply apply_error_of_ok in He as [He _]. destruct e as [e|].
  2: { injection H as <-. exact He. }
  apply res_bind_ok in H as (sd & Hsd & H). destruct sd as [sd|]; [|by injection H as <-].
  assert (Hcur : ∃ ks, stack_files (with_patches (sg_applied g) c) ks = inr (sd_current sd)).
  { destruct theirs; [|done]. destruct (bool_decide _) in Hsd; [|done]. by eapply sides_current. }
  destruct Hcur as [ks Hks]. destruct (rebased_text sd) as [text|] eqn:Ht.
  - destruct (String.eqb text "") eqn:Hempty; injection H as <-; [done|]. cbn [sg_applied]. apply (rebased_applies c (sg_applied g) sd ks); [done|done|].
    intros ->. done.
  - unfold overlapping in H. apply res_bind_ok in H as (kept & Hk & H). destruct kept as [kept|].
    + injection H as <-. by apply replacement_ok in Hk as (_ & ? & _).
    + destruct (split (cp_component c) sd) as [[carried rest]|] eqn:Hs; [|by injection H as <-].
      destruct carried as [r|]; cbv beta zeta in H; apply res_bind_ok in H as (e' & _ & [= <-]); cbn [sg_applied]; [|done].
      by eapply split_applies.
Qed.

(** ** The fate of each patch

    What the settled lists say of a patch of the merged stack: [None] when the merged stack is left without it. *)

Definition fate (name : string) (brought : list string) s p : option PatchRef :=
  if bool_decide (pt_path p ∈ brought) then
    if bool_decide (pt_path p ∈ failed_of name s ∨ pt_path p ∈ se_held s) then None
    else Some (default p (dget (pt_path p) (moved_of name s)))
  else if bool_decide (pt_path p ∈ failed_of name s ∧ pt_path p ∉ se_parts s) then None else Some p.

Lemma fate_ext name brought s s' p :
  (pt_path p ∈ failed_of name s ↔ pt_path p ∈ failed_of name s') → (pt_path p ∈ se_held s ↔ pt_path p ∈ se_held s') →
  (pt_path p ∈ se_parts s ↔ pt_path p ∈ se_parts s') →
  dget (pt_path p) (moved_of name s) = dget (pt_path p) (moved_of name s') →
  fate name brought s p = fate name brought s' p.
Proof. intros H1 H2 H3 H4. unfold fate. rewrite H4. repeat case_bool_decide; try done; tauto. Qed.

Lemma failed_conflict name path e s : failed_of name (add_conflict name path e s) ≡ₚ path :: failed_of name s.
Proof.
  unfold failed_of. cbn [se_conflicts se_replaced add_conflict]. rewrite filter_app, filter_cons_True by done. cbn [filter list_filter].
  rewrite fmap_app, <- app_assoc. cbn. by rewrite <- Permutation_middle.
Qed.
Lemma failed_replaced name removed p s : failed_of name (add_replaced name removed p s) = failed_of name s ++ removed.
Proof.
  unfold failed_of. cbn [se_conflicts se_replaced add_replaced]. rewrite filter_app, filter_cons_True, bind_app by done.
  cbn. by rewrite app_nil_r, app_assoc.
Qed.
Lemma moved_rebased name path r s : moved_of name (add_rebased name path r s) = dset path r (moved_of name s).
Proof. unfold moved_of. cbn [se_rebased add_rebased]. rewrite filter_app, filter_cons_True by done. cbn [filter list_filter]. by rewrite foldl_app. Qed.
Lemma moved_dget_path name s path r : dget path (moved_of name s) = Some r → ∃ x, x ∈ se_rebased s ∧ rb_path x = path ∧ rb_patch x = r.
Proof.
  unfold moved_of.
  assert (H : ∀ l d, (∀ x, x ∈ l → x ∈ se_rebased s) →
    (∀ r, dget path d = Some r → ∃ x, x ∈ se_rebased s ∧ rb_path x = path ∧ rb_patch x = r) →
    dget path (foldl (λ d x, dset (rb_path x) (rb_patch x) d) d l) = Some r → ∃ x, x ∈ se_rebased s ∧ rb_path x = path ∧ rb_patch x = r).
  { intros l. induction l as [|x l IH]; intros d Hl Hd; cbn [foldl]; [apply Hd|]. apply IH; [intros y Hy; apply Hl; by right|].
    intros r'. rewrite dget_dset. case_bool_decide as E; [|apply Hd]. intros [= <-]. exists x. split_and!; [apply Hl; left|done|done]. }
  apply H; [|done]. intros x [_ Hx]%list_elem_of_filter. done.
Qed.

Lemma sublist_filter_self {A} `{!EqDecision A} (k l : list A) : sublist k l → NoDup l → filter (λ x, x ∈ k) l = k.
Proof.
  induction 1 as [|x k l Hs IH|x k l Hs IH]; [done| |]; intros [Hn Hnd]%NoDup_cons.
  - rewrite filter_cons_True by left. f_equal. etrans; [|apply (IH Hnd)]. apply list_filter_ext_in. intros y Hy. rewrite elem_of_cons.
    split; [|tauto]. intros [->|]; done.
  - rewrite filter_cons_False; [by apply IH|]. intros Hx. apply Hn. by apply (elem_of_sublist _ _ _ Hx).
Qed.
Lemma omap_filter {A B} (f f' : A → option B) (P : B → Prop) `{!∀ x, Decision (P x)} (l : list A) :
  (∀ x, x ∈ l → f' x = match f x with Some y => if decide (P y) then Some y else None | None => None end) →
  omap f' l = filter P (omap f l).
Proof.
  induction l as [|x l IH]; intros Hf; [done|]. cbn [omap list_omap]. rewrite Hf by left. rewrite IH by (intros y Hy; apply Hf; by right).
  destruct (f x) as [y|]; [|done]. rewrite filter_cons. by case_decide.
Qed.

Lemma omap_ext_in {A B} (f f' : A → option B) (l : list A) : (∀ x, x ∈ l → f x = f' x) → omap f l = omap f' l.
Proof.
  induction l as [|x l IH]; intros Hf; [done|]. cbn [omap list_omap]. rewrite Hf by left. by rewrite IH by (intros y Hy; apply Hf; by right).
Qed.

Section tracking.
Context (c : ComponentPatches) (theirs : option ComponentPatches) (brought : list string).
Local Notation name := (cp_component c).
Local Notation paths ps := (pt_path <$> ps).

(** The patches the merge stores are new: none has the path of a patch of the merged stack. *)
Definition fresh s : Prop := ∀ path,
  path ∈ se_parts s ∨ (∃ x, x ∈ se_rebased s ∧ path = pt_path (rb_patch x)) → path ∉ paths (cp_patches c).

Record recorded (done : list PatchRef) s : Prop := {
  re_failed : ∀ path, path ∈ failed_of name s → path ∈ paths done ∨ path ∈ se_parts s;
  re_held : ∀ path, path ∈ se_held s → path ∈ brought ∧ path ∈ paths done;
  re_moved : ∀ x, x ∈ se_rebased s → rb_component x = name ∧ rb_path x ∈ brought ∧ rb_path x ∈ paths done;
  re_conflicts : ∀ x, x ∈ se_conflicts s → pc_component x = name;
  re_replaced : ∀ x, x ∈ se_replaced s → rp_component x = name ∧
    ∀ path, path ∈ rp_removed x → ∃ h, h ∈ heads_of c theirs brought ∧ pt_path h = path
}.
Definition tracked (done : list PatchRef) g : Prop :=
  sg_applied g = omap (fate name brought (sg_settled g)) done ∧ recorded done (sg_settled g).

Lemma recorded_mono done p s : recorded done s → recorded (done ++ [p]) s.
Proof.
  intros [H1 H2 H3 H4 H5]. split; [| | |done|done].
  - intros path Hp. rewrite fmap_app, elem_of_app. destruct (H1 _ Hp); tauto.
  - intros path Hp. rewrite fmap_app, elem_of_app. destruct (H2 _ Hp); tauto.
  - intros x Hx. rewrite fmap_app, elem_of_app. destruct (H3 _ Hx) as (?&?&?); tauto.
Qed.
Lemma recorded_conflict done s path e : recorded done s → (path ∈ paths done ∨ path ∈ se_parts s) →
  recorded done (add_conflict name path e s).
Proof.
  intros [H1 H2 H3 H4 H5] Hp. split; [|done|done| |done].
  - intros path'. rewrite failed_conflict, elem_of_cons. cbn [se_parts add_conflict]. intros [->|]; auto.
  - intros x. cbn [se_conflicts add_conflict]. rewrite elem_of_app, list_elem_of_singleton. intros [| ->]; auto.
Qed.
Lemma recorded_part done s path : recorded done s → recorded done (add_part path s).
Proof.
  intros [H1 H2 H3 H4 H5]. split; [|done|done|done|done]. cbn [se_parts add_part]. intros path' []%H1; [tauto|]. right. apply elem_of_app. tauto.
Qed.
Lemma recorded_held done s path : recorded done s → path ∈ brought → path ∈ paths done → recorded done (add_held path s).
Proof.
  intros [H1 H2 H3 H4 H5] Hb Hd. split; [done| |done|done|done]. intros path'. cbn [se_held add_held]. rewrite elem_of_app, list_elem_of_singleton.
  intros [| ->]; auto.
Qed.
Lemma recorded_rebased done s path r : recorded done s → path ∈ brought → path ∈ paths done → recorded done (add_rebased name path r s).
Proof.
  intros [H1 H2 H3 H4 H5] Hb Hd. split; [done|done| |done|done]. intros x. cbn [se_rebased add_rebased]. rewrite elem_of_app, list_elem_of_singleton.
  intros [| ->]; auto.
Qed.

(** A patch not met before has no record. *)
Lemma fate_new done s p : recorded done s → pt_path p ∉ paths done → pt_path p ∉ se_parts s → fate name brought s p = Some p.
Proof.
  intros [H1 H2 H3 _ _] Hn Hp. unfold fate.
  assert (Hf : pt_path p ∉ failed_of name s) by (intros []%H1; tauto).
  assert (Hh : pt_path p ∉ se_held s) by (intros [_ ?]%H2; tauto).
  repeat case_bool_decide; try tauto. destruct (dget _ _) as [r|] eqn:E; [|done].
  apply moved_dget_path in E as (x & Hx & E & _). apply H3 in Hx as (_ & _ & Hx). rewrite E in Hx. done.
Qed.

(** What is recorded of one path leaves the fate of the others. *)
Lemma fate_conflict s path e p : pt_path p ≠ path → fate name brought (add_conflict name path e s) p = fate name brought s p.
Proof. intros Hne. apply fate_ext; [|done|done|done]. rewrite failed_conflict, elem_of_cons. tauto. Qed.
Lemma fate_part s path p : pt_path p ≠ path → fate name brought (add_part path s) p = fate name brought s p.
Proof. intros Hne. apply fate_ext; [done|done| |done]. cbn [se_parts add_part]. rewrite elem_of_app, list_elem_of_singleton. tauto. Qed.
Lemma fate_held s path p : pt_path p ≠ path → fate name brought (add_held path s) p = fate name brought s p.
Proof. intros Hne. apply fate_ext; [done| |done|done]. cbn [se_held add_held]. rewrite elem_of_app, list_elem_of_singleton. tauto. Qed.
Lemma fate_rebased s path r p : pt_path p ≠ path → fate name brought (add_rebased name path r s) p = fate name brought s p.
Proof. intros Hne. apply fate_ext; [done|done|done|]. rewrite moved_rebased. by apply dget_dset_ne. Qed.
Lemma fate_replaced s removed q p : pt_path p ∉ removed → fate name brought (add_replaced name removed q s) p = fate name brought s p.
Proof. intros Hne. apply fate_ext; [|done|done|done]. rewrite failed_replaced, elem_of_app. tauto. Qed.

Lemma tracked_snoc done g g' p :
  tracked done g → (∀ x, x ∈ done → fate name brought (sg_settled g') x = fate name brought (sg_settled g) x) →
  sg_applied g' = sg_applied g ++ option_list (fate name brought (sg_settled g') p) →
  recorded (done ++ [p]) (sg_settled g') → tracked (done ++ [p]) g'.
Proof.
  intros [Ha _] Hf Ha' Hr. split; [|done]. rewrite Ha', Ha, omap_app. cbn [omap list_omap]. f_equal.
  symmetry. by apply omap_ext_in.
Qed.

Lemma sides_brought stack p sd :
  match theirs with Some t => if bool_decide (pt_path p ∈ brought) then sides stack t p else Ok None | None => Ok None end = Ok (Some sd) →
  pt_path p ∈ brought.
Proof. destruct theirs; [|done]. by case_bool_decide. Qed.

(** What one patch can come to. *)
Inductive outcome p g : Settling → Prop :=
| out_applied : outcome p g {| sg_applied := sg_applied g ++ [p]; sg_settled := sg_settled g |}
| out_conflict e : outcome p g {| sg_applied := sg_applied g; sg_settled := add_conflict name (pt_path p) e (sg_settled g) |}
| out_held : pt_path p ∈ brought → outcome p g {| sg_applied := sg_applied g; sg_settled := add_held (pt_path p) (sg_settled g) |}
| out_rebased r : pt_path p ∈ brought →
    outcome p g {| sg_applied := sg_applied g ++ [r]; sg_settled := add_rebased name (pt_path p) r (sg_settled g) |}
| out_replaced kept : pt_path p ∈ brought → sublist kept (sg_applied g) →
    (∀ x, x ∈ sg_applied g → x ∉ kept → x ∈ heads_of c theirs brought) →
    outcome p g {| sg_applied := kept ++ [p];
                   sg_settled := add_replaced name (paths (filter (λ h, h ∉ kept) (sg_applied g))) p (sg_settled g) |}
| out_split g1 rest e : pt_path p ∈ brought → outcome p g g1 → (g1 = {| sg_applied := sg_applied g; sg_settled := add_held (pt_path p) (sg_settled g) |}
      ∨ ∃ r, g1 = {| sg_applied := sg_applied g ++ [r]; sg_settled := add_rebased name (pt_path p) r (sg_settled g) |}) →
    outcome p g {| sg_applied := sg_applied g1; sg_settled := add_part rest (add_conflict name rest e (sg_settled g1)) |}.

Lemma add_outcome p g g' : add c theirs brought p g = Ok g' → NoDup (paths (sg_applied g)) ∧ outcome p g g'.
Proof.
  unfold add. intros (stack & Hst & Hrun)%res_bind_ok. apply replace_ok in Hst as [-> Hnd]. split; [done|].
  apply res_bind_ok in Hrun as (e & _ & Hrun). destruct e as [e|]; [|injection Hrun as <-; constructor].
  apply res_bind_ok in Hrun as (sd & Hsd & Hrun). destruct sd as [sd|]; [|injection Hrun as <-; constructor].
  apply sides_brought in Hsd as Hb. destruct (rebased_text sd) as [text|].
  - destruct (String.eqb text ""); injection Hrun as <-; by constructor.
  - unfold overlapping in Hrun. apply res_bind_ok in Hrun as (kept & Hk & Hrun). destruct kept as [kept|].
    + injection Hrun as <-. apply replacement_ok in Hk as ([h Hh] & _ & Hx). apply without_dependents_sublist in Hh. by constructor.
    + destruct (split name sd) as [[carried rest]|]; [|injection Hrun as <-; constructor].
      destruct carried as [r|]; cbv beta zeta in Hrun; apply res_bind_ok in Hrun as (e' & _ & [= <-]).
      * apply (out_split p g {| sg_applied := sg_applied g ++ [r]; sg_settled := add_rebased name (pt_path p) r (sg_settled g) |});
          [done|by constructor|eauto].
      * apply (out_split p g {| sg_applied := sg_applied g; sg_settled := add_held (pt_path p) (sg_settled g) |}); [done|by constructor|eauto].
Qed.

(** The settled lists only grow. *)
Definition grows s s' : Prop := se_parts s ⊆ se_parts s' ∧ se_rebased s ⊆ se_rebased s'.
Lemma outcome_grows p g g' : outcome p g g' → grows (sg_settled g) (sg_settled g').
Proof. unfold grows. induction 1; cbn; set_solver. Qed.
Lemma add_all_grows ps g g' : add_all c theirs brought ps g = Ok g' → grows (sg_settled g) (sg_settled g').
Proof.
  revert g. induction ps as [|p ps IH]; intros g; cbn [add_all]; [intros [= <-]; split; done|].
  intros (g1 & [_ H1]%add_outcome & H2)%res_bind_ok. apply outcome_grows in H1 as []. apply IH in H2 as []. split; etrans; eauto.
Qed.
Lemma fresh_grows s s' : grows s s' → fresh s' → fresh s.
Proof. intros [Hp Hr] Hf path Hpath. apply Hf. destruct Hpath as [|(x & Hx & ->)]; [left; auto|right; eauto]. Qed.

(** ** Each outcome keeps the fates *)

Section step.
Context (done : list PatchRef) (p : PatchRef) (g : Settling).
Context (Htr : tracked done g) (Hsub : done ⊆ cp_patches c) (Hpin : p ∈ cp_patches c) (Hpn : pt_path p ∉ paths done).
Local Notation s := (sg_settled g).

Lemma done_other x : x ∈ done → pt_path x ≠ pt_path p.
Proof. intros Hx E. apply Hpn. rewrite <- E. by apply list_elem_of_fmap_2. Qed.
Lemma p_done : pt_path p ∈ paths (done ++ [p]).
Proof. rewrite fmap_app, elem_of_app. right. left. Qed.
Lemma not_part s' x : fresh s' → x ∈ cp_patches c → pt_path x ∉ se_parts s'.
Proof. intros Hf Hx Hp. apply (Hf (pt_path x)); [by left|]. by apply list_elem_of_fmap_2. Qed.

Lemma tracked_applied : fresh s → tracked (done ++ [p]) {| sg_applied := sg_applied g ++ [p]; sg_settled := s |}.
Proof.
  intros Hf. apply (tracked_snoc _ g); cbn [sg_applied sg_settled]; [done|done| |apply recorded_mono, Htr].
  rewrite (fate_new done); [done|apply Htr|done|by apply not_part].
Qed.
Lemma tracked_conflict e : fresh s →
  tracked (done ++ [p]) {| sg_applied := sg_applied g; sg_settled := add_conflict name (pt_path p) e s |}.
Proof.
  intros Hf. apply (tracked_snoc _ g); cbn [sg_applied sg_settled]; [done| | |].
  - intros x Hx. by apply fate_conflict, done_other.
  - pose proof (not_part s p Hf Hpin) as Hnp. unfold fate. rewrite !(bool_decide_true (_ ∨ _)), !(bool_decide_true (_ ∧ _)).
    + case_bool_decide; by rewrite app_nil_r.
    + split; [|done]. rewrite failed_conflict. left.
    + left. rewrite failed_conflict. left.
  - apply recorded_conflict; [apply recorded_mono, Htr|]. left. apply p_done.
Qed.
Lemma tracked_held : fresh s → pt_path p ∈ brought →
  tracked (done ++ [p]) {| sg_applied := sg_applied g; sg_settled := add_held (pt_path p) s |}.
Proof.
  intros Hf Hb. apply (tracked_snoc _ g); cbn [sg_applied sg_settled]; [done| | |].
  - intros x Hx. by apply fate_held, done_other.
  - unfold fate. rewrite bool_decide_true by done. rewrite bool_decide_true; [by rewrite app_nil_r|]. right. cbn [se_held add_held]. set_solver.
  - apply recorded_held; [apply recorded_mono, Htr|done|apply p_done].
Qed.
Lemma tracked_rebased r : fresh s → pt_path p ∈ brought →
  tracked (done ++ [p]) {| sg_applied := sg_applied g ++ [r]; sg_settled := add_rebased name (pt_path p) r s |}.
Proof.
  intros Hf Hb. apply (tracked_snoc _ g); cbn [sg_applied sg_settled]; [done| | |].
  - intros x Hx. by apply fate_rebased, done_other.
  - destruct Htr as [_ [H1 H2 _ _ _]]. unfold fate. rewrite bool_decide_true by done. rewrite bool_decide_false.
    + rewrite moved_rebased, dget_dset_eq. done.
    + intros [Hx|Hx]; [apply H1 in Hx as [?|Hx]; [done|by apply (not_part s p Hf Hpin)]|by apply H2 in Hx as []].
  - apply recorded_rebased; [apply recorded_mono, Htr|done|apply p_done].
Qed.

(** A patch that stays is itself or the merge's rebase of it, which is no patch of the stack. *)
Lemma fate_cases s' x y : fate name brought s' x = Some y → y = x ∨ ∃ z, z ∈ se_rebased s' ∧ rb_path z = pt_path x ∧ rb_patch z = y.
Proof.
  unfold fate. case_bool_decide; case_bool_decide; try done; intros [= E]; [|by left].
  destruct (dget (pt_path x) (moved_of name s')) as [r|] eqn:Er; cbn in E; subst y; [|by left]. right. by apply moved_dget_path in Er.
Qed.
Lemma fate_own s' x y : fresh s' → fate name brought s' x = Some y → y ∈ cp_patches c → y = x.
Proof.
  intros Hf [|(z & Hz & _ & <-)]%fate_cases Hy; [done|]. exfalso. apply (Hf (pt_path (rb_patch z))); [right; eauto|]. by apply list_elem_of_fmap_2.
Qed.
Lemma heads_in h : h ∈ heads_of c theirs brought → h ∈ cp_patches c ∧ pt_path h ∉ brought ∧ pt_path h ∉ protected.
Proof. unfold heads_of. rewrite list_elem_of_filter. tauto. Qed.

(** A replacement takes out heads only: what the candidate brought, rebased or not, stays. *)
Lemma tracked_replaced kept : fresh s → NoDup (paths (sg_applied g)) → pt_path p ∈ brought → sublist kept (sg_applied g) →
  (∀ x, x ∈ sg_applied g → x ∉ kept → x ∈ heads_of c theirs brought) →
  tracked (done ++ [p]) {| sg_applied := kept ++ [p];
    sg_settled := add_replaced name (paths (filter (λ h, h ∉ kept) (sg_applied g))) p s |}.
Proof.
  intros Hf Hnd Hb Hkept Hheads. pose proof Htr as [Ha Hrec]. pose proof Hrec as [H1 H2 H3 H4 H5].
  set (removed := paths (filter (λ h, h ∉ kept) (sg_applied g))).
  assert (Hrem : ∀ path, path ∈ removed → ∃ h, h ∈ sg_applied g ∧ h ∉ kept ∧ h ∈ heads_of c theirs brought ∧ pt_path h = path).
  { intros path (h & -> & Hh)%list_elem_of_fmap. apply list_elem_of_filter in Hh as [Hk Hin]. eauto 6. }
  assert (Hnb : ∀ path, path ∈ removed → path ∉ brought).
  { intros path (h & _ & _ & Hh & <-)%Hrem. by apply heads_in in Hh as (_ & ? & _). }
  assert (Hpf : fate name brought s p = Some p) by (apply (fate_new done); [done|done|by apply not_part]).
  split; cbn [sg_applied sg_settled].
  - rewrite omap_app. cbn [omap list_omap]. rewrite fate_replaced, Hpf by (intros Hx; by apply (Hnb (pt_path p))). f_equal.
    rewrite <- (sublist_filter_self kept (sg_applied g)) at 1; [|done|by apply NoDup_fmap_1 in Hnd]. rewrite Ha at 1. symmetry.
    apply omap_filter. intros x Hx. fold removed. destruct (decide (pt_path x ∈ removed)) as [Hr|Hr].
    + assert (Hxb : pt_path x ∉ brought) by auto. pose proof (not_part s x Hf (Hsub _ Hx)) as Hxp.
      unfold fate at 1. rewrite bool_decide_false by done. rewrite bool_decide_true by (split; [rewrite failed_replaced, elem_of_app; tauto|done]).
      destruct (fate name brought s x) as [y|] eqn:E; [|done]. unfold fate in E. rewrite bool_decide_false in E by done.
      case_bool_decide; [done|]. injection E as <-. rewrite decide_False; [done|]. intros Hxk.
      apply Hrem in Hr as (h & Hh & Hhk & _ & E). assert (h = x) as ->; [|done].
      assert (Hxa : x ∈ sg_applied g) by (by apply (elem_of_sublist _ _ _ Hxk)).
      by apply (NoDup_key_inj pt_path (sg_applied g)).
    + rewrite fate_replaced by done. destruct (fate name brought s x) as [y|] eqn:E; [|done]. rewrite decide_True; [done|].
      destruct (decide (y ∈ kept)) as [|Hyk]; [done|]. exfalso.
      assert (Hya : y ∈ sg_applied g) by (rewrite Ha; apply list_elem_of_omap; eauto).
      assert (Hyr : pt_path y ∈ removed) by (apply list_elem_of_fmap_2, list_elem_of_filter; done).
      specialize (Hheads _ Hya Hyk). apply heads_in in Hheads as (Hyc & _ & _). apply fate_own in E as ->; done.
  - destruct (recorded_mono done p s Hrec) as [G1 G2 G3 G4 G5]. split; [|done|done|done|].
    + intros path. rewrite failed_replaced, elem_of_app. intros [|Hx]; [by apply G1|]. left. apply Hrem in Hx as (h & Hh & _ & Hhd & <-).
      rewrite Ha in Hh. apply list_elem_of_omap in Hh as (x & Hx & E). rewrite fmap_app, elem_of_app. left.
      apply heads_in in Hhd as (Hhc & _ & _). apply fate_own in E as ->; [by apply list_elem_of_fmap_2|done|done].
    + intros x. cbn [se_replaced add_replaced]. rewrite elem_of_app, list_elem_of_singleton. intros [| ->]; [by apply G5|]. split; [done|].
      cbn [rp_removed]. intros path (h & _ & _ & Hh & <-)%Hrem. eauto.
Qed.
End step.

Lemma tracked_part d g1 rest e : tracked d g1 → (∀ x, x ∈ d → pt_path x ≠ rest) →
  tracked d {| sg_applied := sg_applied g1; sg_settled := add_part rest (add_conflict name rest e (sg_settled g1)) |}.
Proof.
  intros [Ha [H1 H2 H3 H4 H5]] Hd. split; cbn [sg_applied sg_settled].
  - rewrite Ha. apply omap_ext_in. intros x Hx%Hd. by rewrite (fate_part _ rest), (fate_conflict _ rest).
  - split; [|done|done| |done].
    + intros path Hp. change (path ∈ failed_of name (add_conflict name rest e (sg_settled g1))) in Hp. rewrite failed_conflict, elem_of_cons in Hp.
      cbn [se_parts add_part add_conflict]. rewrite elem_of_app, list_elem_of_singleton. destruct Hp as [->|Hp]; [tauto|]. apply H1 in Hp. tauto.
    + intros x. cbn [se_conflicts add_part add_conflict]. rewrite elem_of_app, list_elem_of_singleton. intros [| ->]; [by apply H4|done].
Qed.

Lemma add_tracked done p g g' : add c theirs brought p g = Ok g' → fresh (sg_settled g') → tracked done g →
  done ⊆ cp_patches c → p ∈ cp_patches c → pt_path p ∉ paths done → tracked (done ++ [p]) g'.
Proof.
  intros [Hnd Ho]%add_outcome Hf Htr Hsub Hp Hpn. pose proof (fresh_grows _ _ (outcome_grows _ _ _ Ho) Hf) as Hf0.
  destruct Ho as [| |Hb|r Hb|kept Hb Hk Hh|g1 rest e Hb _ Hg1].
  - by apply tracked_applied.
  - by apply tracked_conflict.
  - by apply tracked_held.
  - by apply tracked_rebased.
  - by apply tracked_replaced.
  - apply tracked_part.
    + destruct Hg1 as [->|[r ->]]; [by apply tracked_held|by apply tracked_rebased].
    + intros x Hx E. apply (Hf rest); [left; cbn; set_solver|]. rewrite <- E. apply list_elem_of_fmap_2.
      apply elem_of_app in Hx as [Hx| ->%list_elem_of_singleton]; [by apply Hsub|done].
Qed.

Lemma add_all_tracked ps done g g' : add_all c theirs brought ps g = Ok g' → fresh (sg_settled g') → tracked done g →
  applies c (sg_applied g) → done ++ ps ⊆ cp_patches c → NoDup (paths (done ++ ps)) →
  tracked (done ++ ps) g' ∧ applies c (sg_applied g').
Proof.
  revert done g. induction ps as [|p ps IH]; intros done g; cbn [add_all].
  { intros [= <-]. by rewrite app_nil_r. }
  intros (g1 & Hadd & Hall)%res_bind_ok Hf Htr Hap Hsub Hnd. replace (done ++ p :: ps) with ((done ++ [p]) ++ ps) in * by (by rewrite <- app_assoc).
  apply (IH _ g1); [done|done| |by eapply add_applies|done|done].
  apply (add_tracked done p g); [done|by eapply fresh_grows, Hf; eapply add_all_grows|done|set_solver|set_solver|].
  rewrite !fmap_app in Hnd. apply NoDup_app in Hnd as (Hnd & _ & _). apply NoDup_app in Hnd as (_ & Hd & _). intros Hx. apply (Hd _ Hx). left.
Qed.

Lemma fate_none p : fate name brought settled_none p = Some p.
Proof. unfold fate. cbn. repeat case_bool_decide; try done; set_solver. Qed.
Lemma omap_fate_none (ps : list PatchRef) : omap (fate name brought settled_none) ps = ps.
Proof. induction ps as [|p ps IH]; [done|]. cbn [omap list_omap]. by rewrite fate_none, IH. Qed.
Lemma recorded_none ps : recorded ps settled_none.
Proof. split; cbn; set_solver. Qed.

(** The stack a settling leaves is the merged stack with each patch as the settled lists say, and it applies. *)
Lemma settle_ok s : settle c theirs brought = Ok s → NoDup (paths (cp_patches c)) → fresh s →
  applies c (omap (fate name brought s) (cp_patches c)) ∧ recorded (cp_patches c) s.
Proof.
  unfold settle. assert (Hsame : with_patches (cp_patches c) c = c) by (by destruct c).
  case_bool_decide as He; [intros [= <-] _ _|]; [rewrite He; split; [by apply empty_ok|apply recorded_none]|].
  destruct (apply_error c) as [e|] eqn:Hae.
  - intros (g & Hg & [= <-])%res_bind_ok Hnd Hf.
    destruct (add_all_tracked (cp_patches c) [] {| sg_applied := []; sg_settled := settled_none |} g) as [[Ha Hr] Hap]; [done|done| |by apply empty_ok|done|done|].
    + split; [done|apply recorded_none].
    + cbn [app] in Ha, Hr. rewrite Ha in Hap. done.
  - intros [= <-] _ _. rewrite omap_fate_none. unfold applies. rewrite Hsame. split; [done|apply recorded_none].
Qed.
End tracking.

(** ** The changes and their application *)

Lemma change_init_id ch ch' : change_init ch = Ok ch' → ch' = ch.
Proof. unfold change_init. rewrite !bind_unit_ok. by intros (_ & _ & _ & _ & _ & [= <-]). Qed.
Lemma component_change_name base candidate ours name ch :
  component_change base candidate ours name = Ok (Some ch) → cc_component ch = name.
Proof.
  unfold component_change. case_bool_decide; [done|]. intros (ch' & Hch & [= <-])%res_bind_ok. apply change_init_id in Hch as ->.
  by destruct (component ours name), (component candidate name).
Qed.
Lemma collect_names base candidate ours names chs : NoDup names → collect (component_change base candidate ours) names = Ok chs →
  NoDup (cc_component <$> chs) ∧ (cc_component <$> chs) ⊆ names.
Proof.
  intros Hnd. revert chs. induction names as [|n names IH]; intros chs; cbn [collect]; [intros [= <-]; split; [constructor|done]|].
  apply NoDup_cons in Hnd as [Hn Hnd]. intros (o & Ho & Hrest)%res_bind_ok. apply res_bind_ok in Hrest as (chs' & Hchs & [= <-]).
  destruct (IH Hnd _ Hchs) as [IH1 IH2]. destruct o as [ch|]; [change (option_list (Some ch) ++ chs') with (ch :: chs')|change (option_list None ++ chs') with chs'; set_solver].
  apply component_change_name in Ho. rewrite !fmap_cons, Ho. split; [apply NoDup_cons; set_solver|set_solver].
Qed.

Lemma apply_component_inv cur ch c : apply_component cur ch = Ok c → (∀ c0, cur = Some c0 → cp_component c0 = cc_component ch) →
  cp_component c = cc_component ch ∧ NoDup (pt_path <$> cp_patches c) ∧
  cp_patches c = filter (λ p, pt_path p ∉ cc_remove_patches ch) (default [] (cp_patches <$> cur)) ++ cc_add_patches ch.
Proof.
  unfold apply_component. intros (c0 & Hc0 & Hrun)%res_bind_ok Hnm. rewrite !raise_if_bind in Hrun. destruct Hrun as (_ & _ & Hrun).
  pose proof (component_init_ok _ _ Hrun) as ->. split_and!; cbn [cp_component cp_patches].
  - destruct cur as [c1|]; [apply res_bind_ok in Hc0 as ([] & _ & [= <-]); auto|].
    destruct (cc_upstream_repo ch), (cc_upstream_ref ch); try done. by apply component_init_ok in Hc0 as ->.
  - by apply component_init_unique in Hrun.
  - destruct cur as [c1|]; [by apply res_bind_ok in Hc0 as ([] & _ & [= <-])|].
    destruct (cc_upstream_repo ch), (cc_upstream_ref ch); try done. by apply component_init_ok in Hc0 as ->.
Qed.
(** Two changes that agree on the upstream differ in the patches only. *)
Lemma apply_component_same cur ch ch' c c' :
  apply_component cur ch = Ok c → apply_component cur ch' = Ok c' → cc_component ch = cc_component ch' →
  cc_upstream_ref ch = cc_upstream_ref ch' → cc_upstream_repo ch = cc_upstream_repo ch' → c' = with_patches (cp_patches c') c.
Proof.
  intros H1 H2 E1 E2 E3. unfold apply_component in H1, H2. rewrite E1, E2, E3 in H1.
  apply res_bind_ok in H1 as (a & Ha & H1). apply res_bind_ok in H2 as (a' & Ha' & H2). rewrite Ha in Ha'. injection Ha' as <-.
  rewrite !raise_if_bind in H1, H2. destruct H1 as (_ & _ & H1), H2 as (_ & _ & H2).
  apply component_init_ok in H1 as ->. apply component_init_ok in H2 as ->. done.
Qed.

Lemma apply_changes_inv chs d d' : apply_changes d chs = Ok d' → named d → NoDup (cc_component <$> chs) →
  named d' ∧ (∀ name, name ∉ cc_component <$> chs → dget name d' = dget name d) ∧
  ∀ ch, ch ∈ chs → ∃ c, apply_component (dget (cc_component ch) d) ch = Ok c ∧ dget (cc_component ch) d' = Some c.
Proof.
  revert d. induction chs as [|ch chs IH]; intros d; cbn [apply_changes fmap list_fmap]; [intros [= <-]; set_solver|].
  intros (c & Hc & Hrun)%res_bind_ok Hd [Hn Hnd]%NoDup_cons.
  assert (Hd1 : named (dset (cc_component ch) c d)).
  { apply named_dset; [done|]. apply apply_component_inv in Hc as [? _]; [done|]. intros c0 H0. apply Hd. by apply dget_elem. }
  destruct (IH _ Hrun Hd1 Hnd) as (Hd' & Hout & Hin). split_and!; [done| |].
  - intros name [Hne Hni]%not_elem_of_cons. rewrite Hout by done. by apply dget_dset_ne.
  - intros ch' [->|Hch']%elem_of_cons.
    + exists c. split; [done|]. rewrite Hout by done. apply dget_dset_eq.
    + destruct (Hin _ Hch') as (c' & Hc' & Hg). exists c'. split; [|done]. rewrite dget_dset_ne in Hc'; [done|].
      intros E. apply Hn. rewrite <- E. by apply list_elem_of_fmap_2.
Qed.
Lemma apply_components_inv comps chs out : apply_components comps chs = Ok out → NoDup (cp_component <$> comps) → NoDup (cc_component <$> chs) →
  ∀ ch, ch ∈ chs → ∃ c, apply_component (component comps (cc_component ch)) ch = Ok c ∧ component out (cc_component ch) = Some c
    ∧ cp_component c = cc_component ch ∧ NoDup (pt_path <$> cp_patches c)
    ∧ cp_patches c = filter (λ p, pt_path p ∉ cc_remove_patches ch) (default [] (cp_patches <$> component comps (cc_component ch))) ++ cc_add_patches ch.
Proof.
  unfold apply_components. intros (d & Hd & [= <-])%res_bind_ok Hc Hn ch Hch. destruct (by_name_of_spec comps Hc) as [Hnm Hget].
  destruct (apply_changes_inv _ _ _ Hd Hnm Hn) as (Hd' & _ & Hin). destruct (Hin _ Hch) as (c & Hac & Hg). rewrite Hget in Hac. exists c.
  rewrite component_dvals by done. split_and!; [done|done|..]; apply apply_component_inv in Hac as (? & ? & ?); try done; by intros c0 [_ ?]%component_Some.
Qed.

Lemma each_Forall2 {A B} (f : A → res B) l ys : each f l = Ok ys → Forall2 (λ x y, f x = Ok y) l ys.
Proof.
  revert ys. induction l as [|x l IH]; intros ys; cbn [each]; [intros [= <-]; constructor|].
  intros (y & Hy & Hrest)%res_bind_ok. apply res_bind_ok in Hrest as (ys' & Hys & [= <-]). constructor; auto.
Qed.

(** ** Joining the components' settled lists *)

Definition not_of (name : string) s : Prop :=
  (∀ x, x ∈ se_conflicts s → pc_component x ≠ name) ∧ (∀ x, x ∈ se_rebased s → rb_component x ≠ name) ∧
  (∀ x, x ∈ se_replaced s → rp_component x ≠ name).
Lemma filter_bind_own {A} (f : Settled → list A) (P : A → Prop) `{!∀ x, Decision (P x)} k1 k2 s :
  (∀ s' x, s' ∈ k1 ++ k2 → x ∈ f s' → ¬ P x) → filter P ((k1 ++ s :: k2) ≫= f) = filter P (f s).
Proof.
  intros Hno. assert (Hnone : ∀ k, (∀ s', s' ∈ k → s' ∈ k1 ++ k2) → filter P (k ≫= f) = []).
  { intros k Hk. apply list_filter_none. intros x (s' & Hx & Hs')%list_elem_of_bind. by apply (Hno s'); [apply Hk|]. }
  rewrite bind_app, bind_cons, !filter_app, !Hnone by (intros s' Hs'; set_solver). by rewrite app_nil_r.
Qed.
Lemma joined_own name k1 s k2 : Forall (not_of name) (k1 ++ k2) →
  failed_of name (joined (k1 ++ s :: k2)) = failed_of name s ∧ moved_of name (joined (k1 ++ s :: k2)) = moved_of name s.
Proof.
  rewrite Forall_forall. intros Hno. unfold failed_of, moved_of, joined. cbn [se_conflicts se_rebased se_replaced].
  rewrite !filter_bind_own; [done|..]; intros s' x Hs' Hx; by apply (Hno s' Hs').
Qed.

(** ** The fates of a carried change *)

Definition merged_of (base candidate ours : list ComponentPatches) : res (list ComponentPatches) :=
  changes ← component_changes base candidate ours; apply_components ours changes.
Definition brought_of (chs : list ComponentChange) : list string := chs ≫= λ ch, pt_path <$> cc_add_patches ch.
(** No two components have a patch of one path. *)
Definition paths_apart (comps : list ComponentPatches) : Prop :=
  ∀ c c' p p', c ∈ comps → c' ∈ comps → p ∈ cp_patches c → p' ∈ cp_patches c' → pt_path p = pt_path p' → cp_component c = cp_component c'.

Lemma carry_inv base candidate ours chs' s : carry base candidate ours = Ok (chs', s) → ∃ chs merged parts,
  component_changes base candidate ours = Ok chs ∧ apply_components ours chs = Ok merged ∧ merged_of base candidate ours = Ok merged ∧
  Forall2 (λ ch x, match component merged (cc_component ch) with
                   | Some c => settle c (component candidate (cc_component ch)) (brought_of chs)
                   | None => Ok settled_none end = Ok x) chs parts ∧
  s = joined parts ∧ without chs s = Ok chs'.
Proof.
  unfold carry, merged_of. intros (chs & Hc & Hrun)%res_bind_ok. apply res_bind_ok in Hrun as (merged & Hm & Hrun).
  cbv zeta in Hrun. apply res_bind_ok in Hrun as (parts & Hp & Hrun). apply res_bind_ok in Hrun as (chs1 & Hw & [= <- <-]).
  exists chs, merged, parts. rewrite Hc. split_and!; [done|done|done|by apply each_Forall2 in Hp|done|done].
Qed.

(** A recorded component's lists speak of that component only, and hold only its own paths. *)
Lemma recorded_not_of c theirs brought ps s name : recorded c theirs brought ps s → cp_component c ≠ name → not_of name s.
Proof.
  intros [_ _ H3 H4 H5] Hne. split_and!; intros x Hx E.
  - by rewrite H4 in E.
  - apply H3 in Hx as (E' & _). congruence.
  - apply H5 in Hx as (E' & _). congruence.
Qed.

Lemma Forall2_split {A B} (R : A → B → Prop) l k x : Forall2 R l k → x ∈ l → ∃ l1 l2 k1 y k2,
  l = l1 ++ x :: l2 ∧ k = k1 ++ y :: k2 ∧ R x y ∧ Forall2 R l1 k1 ∧ Forall2 R l2 k2.
Proof.
  intros HR Hx. apply list_elem_of_split in Hx as (l1 & l2 & ->). apply Forall2_app_inv_l in HR as (k1 & k' & H1 & H2 & ->).
  apply Forall2_cons_inv_l in H2 as (y & k2 & Hy & H2 & ->). eauto 12.
Qed.
Lemma Forall2_impl_in {A B} (R R' : A → B → Prop) l k :
  Forall2 R l k → (∀ x y, x ∈ l → y ∈ k → R x y → R' x y) → Forall2 R' l k.
Proof. induction 1 as [|x y l k Hxy HR IH]; intros Himp; constructor; [apply Himp; [left|left|done]|apply IH; intros; apply Himp; [by right|by right|done]]. Qed.

(** What [_without] makes of a change. *)
Record fits s (ch ch' : ComponentChange) : Prop := {
  fi_component : cc_component ch' = cc_component ch;
  fi_ref : cc_upstream_ref ch' = cc_upstream_ref ch;
  fi_repo : cc_upstream_repo ch' = cc_upstream_repo ch;
  fi_add : cc_add_patches ch' = (λ p, default p (dget (pt_path p) (moved_of (cc_component ch) s)))
    <$> filter (λ p, pt_path p ∉ failed_of (cc_component ch) s ∧ pt_path p ∉ se_held s) (cc_add_patches ch);
  fi_remove : ∀ path, path ∈ cc_remove_patches ch' ↔ path ∈ cc_remove_patches ch ∨
    (path ∈ failed_of (cc_component ch) s ∧ path ∉ pt_path <$> cc_add_patches ch ∧ path ∉ se_parts s)
}.
Lemma without_fits chs chs' s : without chs s = Ok chs' → Forall2 (fits s) chs chs'.
Proof.
  unfold without. case_bool_decide as He.
  - intros [= <-]. destruct He as (H1 & H2 & H3 & H4). apply nil_length_inv in H1, H2, H4. apply Forall_Forall2_diag, Forall_forall. intros ch _.
    assert (Hf : failed_of (cc_component ch) s = []) by (unfold failed_of; by rewrite H1, H4).
    assert (Hm : moved_of (cc_component ch) s = []) by (unfold moved_of; by rewrite H2).
    split; [done|done|done| |]; rewrite Hf.
    + rewrite list_filter_all by (intros p _; rewrite H3; set_solver). rewrite Hm. symmetry. apply list_fmap_id.
    + set_solver.
  - intros Hr%each_Forall2. eapply Forall2_impl; [exact Hr|]. intros ch ch' Hch. unfold without_change in Hch. apply change_init_id in Hch as ->.
    split; [done|done|done|done|]. intros path. cbn [cc_remove_patches]. rewrite elem_of_app, elem_of_sorted_set, list_elem_of_filter. tauto.
Qed.

(** The patches a fitting change leaves are the merged stack's, each as its fate says. *)
Lemma fits_patches s ch ch' brought (have : list PatchRef) :
  fits s ch ch' → (∀ p, p ∈ cc_add_patches ch → pt_path p ∈ brought) →
  (∀ p, p ∈ have → pt_path p ∉ cc_remove_patches ch → pt_path p ∉ brought ∧ pt_path p ∉ pt_path <$> cc_add_patches ch ∧ pt_path p ∉ se_parts s) →
  filter (λ p, pt_path p ∉ cc_remove_patches ch') have ++ cc_add_patches ch'
  = omap (fate (cc_component ch) brought s) (filter (λ p, pt_path p ∉ cc_remove_patches ch) have ++ cc_add_patches ch).
Proof.
  intros [_ _ _ Hadd Hrem] Hb Hh. rewrite omap_app, Hadd. f_equal.
  - clear Hadd Hb. induction have as [|p have IH]; [done|]. specialize (IH (λ q Hq, Hh q (list_elem_of_further _ _ _ Hq))).
    rewrite !filter_cons. specialize (Hh p (list_elem_of_here _ _)). specialize (Hrem (pt_path p)).
    destruct (decide (pt_path p ∉ cc_remove_patches ch)) as [Hp|Hp]; [|rewrite decide_False by (rewrite Hrem; tauto); done].
    destruct (Hh Hp) as (Hnb & Hna & Hnp). cbn [omap list_omap]. unfold fate at 1. rewrite bool_decide_false by done.
    case_bool_decide as Hf; [rewrite decide_False by (rewrite Hrem; tauto); done|]. rewrite decide_True by (rewrite Hrem; tauto). by rewrite IH.
  - clear Hadd Hrem Hh. induction (cc_add_patches ch) as [|p ps IH]; [done|]. rewrite filter_cons. cbn [omap list_omap]. unfold fate at 1.
    rewrite bool_decide_true by (apply Hb; left). rewrite <- IH by (intros q Hq; apply Hb; by right).
    case_bool_decide as Hf; [rewrite decide_False by tauto; done|]. rewrite decide_True by tauto. done.
Qed.

Lemma joined_grows parts s : s ∈ parts → grows s (joined parts).
Proof. intros Hs. split; intros x Hx; apply list_elem_of_bind; eauto. Qed.

(** One component of a carried change: the merged stack, its settled lists among the joined ones, and the stack left. *)
Record carried (candidate merged : list ComponentPatches) (brought : list string) (ch : ComponentChange) s m : Prop := {
  ca_merged : component merged (cc_component ch) = Some m;
  ca_recorded : recorded m (component candidate (cc_component ch)) brought (cp_patches m) s;
  ca_applies : applies m (omap (fate (cc_component ch) brought s) (cp_patches m))
}.
Lemma settled_parts candidate ours chs merged parts :
  NoDup (cp_component <$> ours) → NoDup (cc_component <$> chs) → apply_components ours chs = Ok merged →
  (∀ c, c ∈ merged → fresh c (joined parts)) →
  Forall2 (λ ch x, match component merged (cc_component ch) with
                   | Some c => settle c (component candidate (cc_component ch)) (brought_of chs)
                   | None => Ok settled_none end = Ok x) chs parts →
  Forall2 (λ ch x, ∃ m, carried candidate merged (brought_of chs) ch x m) chs parts.
Proof.
  intros Ho Hn Hap Hf HR. apply (Forall2_impl_in _ _ _ _ HR). intros ch x Hch Hx Hs.
  destruct (apply_components_inv _ _ _ Hap Ho Hn ch Hch) as (m & _ & Hm & Hname & Hnd & _). rewrite Hm in Hs. exists m.
  apply component_Some in Hm as Hmin. destruct Hmin as [Hmin _].
  apply settle_ok in Hs as [Hap' Hrec]; [|done|by eapply fresh_grows, Hf; [apply joined_grows|]]. rewrite Hname in Hap'. done.
Qed.

Lemma carried_joined candidate merged brought chs parts ch :
  NoDup (cc_component <$> chs) → paths_apart merged → (∀ c, c ∈ merged → fresh c (joined parts)) →
  Forall2 (λ ch x, ∃ m, carried candidate merged brought ch x m) chs parts → ch ∈ chs →
  ∃ m x, carried candidate merged brought ch x m ∧ x ∈ parts ∧
    (∀ p, p ∈ cp_patches m → fate (cc_component ch) brought x p = fate (cc_component ch) brought (joined parts) p) ∧
    (∀ y, y ∈ se_replaced (joined parts) → rp_component y = cc_component ch → y ∈ se_replaced x).
Proof.
  intros Hn Hpa Hf HR Hch. destruct (Forall2_split _ _ _ _ HR Hch) as (l1 & l2 & k1 & x & k2 & -> & -> & [m Hm] & HR1 & HR2).
  rewrite fmap_app, fmap_cons in Hn. apply NoDup_app in Hn as (_ & Hd & [Hn2 _]%NoDup_cons).
  assert (Hother : ∀ x', x' ∈ k1 ++ k2 → ∃ ch' m', carried candidate merged brought ch' x' m' ∧ cc_component ch' ≠ cc_component ch).
  { intros x' [Hx'|Hx']%elem_of_app.
    - apply list_elem_of_lookup in Hx' as [i Hi]. destruct (Forall2_lookup_r _ _ _ _ _ HR1 Hi) as (ch' & Hch' & m' & Hm'). exists ch', m'. split; [done|].
      intros E. apply (Hd (cc_component ch')); [apply list_elem_of_fmap_2; by eapply list_elem_of_lookup_2|]. rewrite E. left.
    - apply list_elem_of_lookup in Hx' as [i Hi]. destruct (Forall2_lookup_r _ _ _ _ _ HR2 Hi) as (ch' & Hch' & m' & Hm'). exists ch', m'. split; [done|].
      intros E. apply Hn2. rewrite <- E. apply list_elem_of_fmap_2. by eapply list_elem_of_lookup_2. }
  assert (Hname : ∀ ch' x' m', carried candidate merged brought ch' x' m' → m' ∈ merged ∧ cp_component m' = cc_component ch').
  { intros ch' x' m' [Hm' _ _]. by apply component_Some in Hm'. }
  assert (Hno : Forall (not_of (cc_component ch)) (k1 ++ k2)).
  { apply Forall_forall. intros x' (ch' & m' & Hm' & Hne)%Hother. eapply recorded_not_of; [apply Hm'|].
    destruct (Hname _ _ _ Hm') as [_ ->]. done. }
  destruct (joined_own (cc_component ch) k1 x k2 Hno) as [Hfa Hmo]. exists m, x. split_and!; [done|set_solver| |].
  - intros p Hp. destruct (Hname _ _ _ Hm) as [Hmin Hmn]. apply fate_ext; [by rewrite Hfa| | |by rewrite Hmo].
    + split; [intros Hh; apply list_elem_of_bind; exists x; set_solver|]. intros (x' & Hh & Hx')%list_elem_of_bind.
      assert (x' = x ∨ x' ∈ k1 ++ k2) as [-> |Hin] by set_solver; [done|]. exfalso.
      destruct (Hother _ Hin) as (ch' & m' & Hm' & Hne). destruct (Hname _ _ _ Hm') as [Hmin' Hmn']. destruct Hm' as [_ Hrec' _].
      apply (re_held _ _ _ _ _ Hrec') in Hh as (_ & (p' & E & Hp')%list_elem_of_fmap). apply Hne. rewrite <- Hmn, <- Hmn'.
      by apply (Hpa m' m p' p).
    + assert (Hnp : pt_path p ∉ se_parts (joined (k1 ++ x :: k2))) by (apply (not_part m); [by apply Hf|done]).
      split; [|done]. intros Hx. destruct Hnp. apply list_elem_of_bind. exists x. set_solver.
  - intros y (x' & Hy & Hx')%list_elem_of_bind E. assert (x' = x ∨ x' ∈ k1 ++ k2) as [-> |Hin] by set_solver; [done|].
    exfalso. rewrite Forall_forall in Hno. by apply (Hno _ Hin) in Hy.
Qed.

Lemma carry_fates base candidate ours chs' s merged comps :
  NoDup (cp_component <$> ours) → carry base candidate ours = Ok (chs', s) → merged_of base candidate ours = Ok merged →
  paths_apart merged → (∀ c, c ∈ merged → fresh c s) → apply_components ours chs' = Ok comps →
  ∀ ch', ch' ∈ chs' → ∃ m c brought,
    component merged (cc_component ch') = Some m ∧ component comps (cc_component ch') = Some c ∧
    c = with_patches (omap (fate (cc_component ch') brought s) (cp_patches m)) m ∧ apply_error c = None ∧
    (∀ y, y ∈ se_replaced s → rp_component y = cc_component ch' → ∀ path, path ∈ rp_removed y →
       ∃ h, h ∈ heads_of m (component candidate (cc_component ch')) brought ∧ pt_path h = path).
Proof.
  intros Ho Hc Hmo Hpa Hf Hap' ch' Hch'. apply carry_inv in Hc as (chs & merged' & parts & Hcs & Hap & Hmo' & HR & -> & Hw).
  rewrite Hmo in Hmo'. injection Hmo' as <-. apply without_fits in Hw.
  destruct (collect_names base candidate ours _ chs (NoDup_sorted_set _) Hcs) as [Hn _].
  assert (Hn' : NoDup (cc_component <$> chs')).
  { replace (cc_component <$> chs') with (cc_component <$> chs); [done|]. clear -Hw. induction Hw as [|a b l k Hab _ IH]; [done|].
    cbn. rewrite IH. f_equal. symmetry. apply Hab. }
  apply list_elem_of_lookup in Hch' as Hi. destruct Hi as [i Hi]. destruct (Forall2_lookup_r _ _ _ _ _ Hw Hi) as (ch & Hch & Hfit).
  apply list_elem_of_lookup_2 in Hch. rewrite (fi_component _ _ _ Hfit).
  apply (settled_parts candidate ours) in HR; [|done|done|done|done].
  destruct (carried_joined candidate merged (brought_of chs) chs parts ch Hn Hpa Hf HR Hch) as (m & x & Hm & Hx & Hfate & Hrep).
  destruct (apply_components_inv _ _ _ Hap Ho Hn ch Hch) as (m' & Ham & Hm' & Hmn & Hmnd & Hmp). destruct Hm as [Hm Hrec Happ].
  rewrite Hm in Hm'. injection Hm' as <-. apply component_Some in Hm as Hmin. destruct Hmin as [Hmin _].
  destruct (apply_components_inv _ _ _ Hap' Ho Hn' ch' Hch') as (c & Hac & Hcc & _ & _ & Hcp). rewrite (fi_component _ _ _ Hfit) in Hac, Hcc, Hcp.
  assert (Hps : cp_patches c = omap (fate (cc_component ch) (brought_of chs) (joined parts)) (cp_patches m)).
  { rewrite Hcp, Hmp. apply (fits_patches _ _ _ _ _ Hfit).
    - intros p Hp. apply list_elem_of_bind. exists ch. split; [by apply list_elem_of_fmap_2|done].
    - intros p Hp Hnr. assert (Hpm : p ∈ cp_patches m) by (rewrite Hmp; apply elem_of_app; left; by apply list_elem_of_filter).
      assert (Hna : pt_path p ∉ pt_path <$> cc_add_patches ch).
      { rewrite Hmp, fmap_app in Hmnd. apply NoDup_app in Hmnd as (_ & Hd & _). apply Hd. by apply list_elem_of_fmap_2, list_elem_of_filter. }
      split_and!; [|done|apply (not_part m); [by apply Hf|done]].
      intros (ch2 & (b & E & Hb)%list_elem_of_fmap & Hch2)%list_elem_of_bind.
      destruct (apply_components_inv _ _ _ Hap Ho Hn ch2 Hch2) as (m2 & _ & Hm2 & Hmn2 & _ & Hmp2). apply component_Some in Hm2 as [Hm2 _].
      assert (Hb2 : b ∈ cp_patches m2) by (rewrite Hmp2; apply elem_of_app; by right).
      assert (ch2 = ch) as ->; [|apply Hna; rewrite E; by apply list_elem_of_fmap_2].
      apply (NoDup_key_inj cc_component chs); [done|done|done|]. rewrite <- Hmn, <- Hmn2. by apply (Hpa m2 m b p). }
  exists m, c, (brought_of chs). split_and!; [done|done| | |].
  - rewrite <- Hps. by apply (apply_component_same _ _ _ _ _ Ham Hac); symmetry; apply Hfit.
  - assert (Hcm : c = with_patches (cp_patches c) m) by (by apply (apply_component_same _ _ _ _ _ Ham Hac); symmetry; apply Hfit).
    rewrite Hcm, Hps. unfold applies in Happ. rewrite <- Happ. do 2 f_equal. symmetry. apply omap_ext_in. done.
  - intros y Hy E path Hpath. apply (re_replaced _ _ _ _ _ Hrec y); [by apply Hrep|done].
Qed.

(** ** The theorems *)

(** C5: What a merge announces applies: when the change [carry] returns is applied to the head's recipe, the patch stack of
    every component it touches applies to the installed sources, whatever was rebased, replaced, held, split or left
    out.  The patches the merge stores are taken to be new to the stacks, and no two components to share a path. *)
Theorem carry_applies base candidate ours chs' s merged comps :
  NoDup (cp_component <$> ours) → carry base candidate ours = Ok (chs', s) → merged_of base candidate ours = Ok merged →
  paths_apart merged → (∀ c, c ∈ merged → fresh c s) → apply_components ours chs' = Ok comps →
  ∀ ch, ch ∈ chs' → ∃ c, component comps (cc_component ch) = Some c ∧ apply_error c = None.
Proof.
  intros Ho Hc Hm Hpa Hf Hap ch Hch.
  destruct (carry_fates _ _ _ _ _ _ _ Ho Hc Hm Hpa Hf Hap ch Hch) as (m & c & brought & _ & Hcc & _ & Hok & _). eauto.
Qed.

End proofs.

(** ** A merge of two branches that changed one file *)

Module MergeDemo.
Import RecipeDemo.
(** A toy git: a patch made by a merge ("m...") applies anywhere, any other only on an empty stack; the one file holds
    the digests of its patches. *)
Definition is_made (p : PatchRef) : bool := match chars (pt_sha256 p) with c :: _ => Ascii.eqb c "m" | [] => false end.
Definition applied_to (before : list PatchRef) (p : PatchRef) : bool := is_made p || bool_decide (before = []).
Fixpoint refused (before ps : list PatchRef) : option string :=
  match ps with
  | [] => None
  | p :: ps' => if applied_to before p then refused (before ++ [p]) ps' else Some (pt_path p)
  end.
#[global] Instance toy_git : GitFiles := {|
  git_merge o b t := Some (o +:+ t);
  git_diff _ after := "m" +:+ default "" (file after "f");
  git_renames _ _ := ∅;
  git_hunks _ _ := []
|}.
#[global] Instance toy_sources : Sources := {|
  stack_files c _ := match refused [] (cp_patches c) with
                     | Some e => inl e
                     | None => inr {[ "f" := Some (String.concat "" (pt_sha256 <$> cp_patches c)) ]}
                     end;
  sha256_hex text := text;
  protected := []
|}.
Lemma refused_snoc before ps p : refused before ps = None → is_made p = true → refused before (ps ++ [p]) = None.
Proof.
  revert before. induction ps as [|q ps IH]; intros before; cbn; [intros _; unfold applied_to; by intros ->|].
  destruct (applied_to before q); [apply IH|done].
Qed.
#[global] Instance toy_laws : SourceLaws.
Proof.
  split.
  - intros c ps fs. unfold apply_error. cbn. by destruct (refused [] (cp_patches c)).
  - intros c Hc. unfold apply_error. cbn. by rewrite Hc.
  - intros c ps before after Hs _ Hne. unfold apply_error. cbn in *.
    destruct (refused [] (cp_patches c)) eqn:E; [done|]. rewrite refused_snoc; [done|done|].
    unfold patch_between in *. case_match; [done|]. done.
Qed.

Definition ref (c : string) : PatchRef := {| pt_path := "patch/aiter/" +:+ c +:+ ".patch"; pt_sha256 := c |}.
Definition base := [comp "aiter" "a" []].
Definition candidate := [comp "aiter" "a" [ref "2"]].
Definition ours := [comp "aiter" "a" [ref "1"]].
Definition rebased2 : PatchRef := put_patch "aiter" "m12".
Definition change : ComponentChange :=
  {| cc_component := "aiter"; cc_upstream_ref := None; cc_upstream_repo := None; cc_add_patches := [rebased2]; cc_remove_patches := [] |}.
Definition settled : Settled :=
  {| se_conflicts := []; se_rebased := [{| rb_component := "aiter"; rb_path := pt_path (ref "2"); rb_patch := rebased2 |}];
     se_held := []; se_replaced := []; se_parts := [] |}.
Definition merged := [comp "aiter" "a" [ref "1"; ref "2"]].
Definition comps := [comp "aiter" "a" [ref "1"; rebased2]].

Lemma merge_facts : NoDup (cp_component <$> ours) ∧ carry base candidate ours = Ok ([change], settled) ∧
  merged_of base candidate ours = Ok merged ∧ paths_apart merged ∧ (∀ c, c ∈ merged → fresh c settled) ∧
  apply_components ours [change] = Ok comps.
Proof.
  split_and!.
  - apply NoDup_singleton.
  - vm_compute. reflexivity.
  - vm_compute. reflexivity.
  - intros c c' p p' ->%list_elem_of_singleton ->%list_elem_of_singleton. done.
  - intros c ->%list_elem_of_singleton path [Hp|(x & ->%list_elem_of_singleton & ->)]; [by apply elem_of_nil in Hp|].
    apply (bool_decide_unpack _). vm_compute. reflexivity.
  - vm_compute. reflexivity.
Qed.
End MergeDemo.

Lemma carry_applies_witness : ∃ c, component MergeDemo.comps "aiter" = Some c ∧ apply_error c = None.
Proof.
  destruct MergeDemo.merge_facts as (H1 & H2 & H3 & H4 & H5 & H6).
  exact (carry_applies _ _ _ _ _ _ _ H1 H2 H3 H4 H5 H6 MergeDemo.change (list_elem_of_here _ _)).
Defined.
