(* ===== verification/SessionBudget.v ===== *)
(** * The session's wall-clock budget

    [multibranch/scheduling/budget.py]: when EXPLORE ends, and the hard stop nothing but FINAL runs past.  The
    arithmetic lemmas are stated at the exact rationals. *)

From stdpp Require Import base list strings relations.
From Stdlib Require Import ZArith QArith Lqa Lia.
From S2P Require Import Prelude PyFloat Dicts.

Section budget.
Context {F : Type} `{!FloatOps F}.
Local Open Scope float_scope.

Definition MB_UNLIMITED_HOURS : F := f_of_Z (14 * 24).
Definition MB_EXPLORE_SHARE : F := f_of_Z 85.
Definition MB_FINAL_SHARE : F := f_of_Z 5.
Definition MB_CLOSE_GRACE_CAP_SECONDS : F := f_of_Z 120.
Definition MB_CLOSE_GRACE_FRACTION : F := f_lit 2 100.
Definition MB_SECONDS_PER_HOUR : F := f_of_Z 3600.

Definition budget_seconds (max_hours : F) : F :=
  (if feqb max_hours fzero then MB_UNLIMITED_HOURS else max_hours) * MB_SECONDS_PER_HOUR.
(** [None] is [math.inf]. *)
Definition explore_gpu_seconds (max_gpu_hours : F) : option F :=
  if feqb max_gpu_hours fzero then None
  else Some (max_gpu_hours * MB_SECONDS_PER_HOUR * MB_EXPLORE_SHARE / (MB_EXPLORE_SHARE + MB_FINAL_SHARE)).

Record SessionBudget := { sb_started_at : F; sb_total_seconds : F }.
Implicit Types (b : SessionBudget).
Definition from_hours (max_hours started_at : F) : SessionBudget :=
  {| sb_started_at := started_at; sb_total_seconds := budget_seconds max_hours |}.
Definition deadline b : F := sb_started_at b + sb_total_seconds b.
Definition close_grace_seconds b : F := fmin MB_CLOSE_GRACE_CAP_SECONDS (sb_total_seconds b * MB_CLOSE_GRACE_FRACTION).
Definition hard_stop_at b : F := deadline b + close_grace_seconds b.
Definition remaining b (now : F) : F := fmax fzero (deadline b - now).
Definition explore_end b (now final_test_seconds : F) : F :=
  deadline b - fmin (final_test_seconds + close_grace_seconds b) (remaining b now).

(** ** The hard stop *)

Record HardStop := { hs_grace : F; hs_at : F; hs_brought_forward : bool }.
Implicit Types (h : HardStop).
Definition hard_stop b : HardStop :=
  {| hs_grace := close_grace_seconds b; hs_at := hard_stop_at b; hs_brought_forward := false |}.
Definition bring_forward (now : F) h : HardStop :=
  if hs_brought_forward h then h
  else {| hs_grace := hs_grace h; hs_at := fmin (hs_at h) (now + hs_grace h); hs_brought_forward := true |}.
Definition follow_final (now : F) h : HardStop :=
  if hs_brought_forward h then h
  else {| hs_grace := hs_grace h; hs_at := fmax (hs_at h) (now + hs_grace h); hs_brought_forward := false |}.
Definition extend (seconds : F) h : HardStop :=
  if hs_brought_forward h then h
  else {| hs_grace := hs_grace h; hs_at := hs_at h + fmax seconds fzero; hs_brought_forward := false |}.

Inductive stop_step : relation HardStop :=
| ss_forward now h : stop_step h (bring_forward now h)
| ss_final now h : stop_step h (follow_final now h)
| ss_extend seconds h : stop_step h (extend seconds h).

(** The first stop decides: whatever follows, the hard stop stays where it was brought. *)
Lemma stop_brought_once now h h' : rtc stop_step (bring_forward now h) h' → h' = bring_forward now h.
Proof.
  intros Hr. assert (Hb : hs_brought_forward (bring_forward now h) = true) by (unfold bring_forward; by destruct (hs_brought_forward h) eqn:E).
  induction Hr as [|h1 h2 h3 Hs Hr IH]; [done|].
  assert (h2 = h1) as ->; [|by apply IH]. destruct Hs; unfold bring_forward, follow_final, extend in *; by rewrite Hb.
Qed.
End budget.

(** ** Exact arithmetic *)

Section exact.
Open Scope Q_scope.
Implicit Types (b : SessionBudget (F := Q)).

Lemma fmin_Q_cases (x y : Q) : (fmin x y == x ∧ x <= y) ∨ (fmin x y == y ∧ y <= x).
Proof.
  unfold fmin. destruct (fltb y x) eqn:E; [right|left]; (split; [reflexivity|]);
    [apply Q_ltb_lt in E; by apply Qlt_le_weak|by apply Q_ltb_ge in E].
Qed.
Lemma fmax_Q_cases (x y : Q) : (fmax x y == y ∧ x <= y) ∨ (fmax x y == x ∧ y <= x).
Proof.
  unfold fmax. destruct (fltb x y) eqn:E; [left|right]; (split; [reflexivity|]);
    [apply Q_ltb_lt in E; by apply Qlt_le_weak|by apply Q_ltb_ge in E].
Qed.
Lemma grace_bound b : 0 <= sb_total_seconds b → 0 <= close_grace_seconds b ∧ close_grace_seconds b <= 120.
Proof.
  intros Ht. unfold close_grace_seconds. set (y := fmul (sb_total_seconds b) MB_CLOSE_GRACE_FRACTION).
  assert (Hy : 0 <= y) by (unfold y; cbn; rewrite !Qred_correct; lra).
  destruct (fmin_Q_cases MB_CLOSE_GRACE_CAP_SECONDS y) as [[-> _]|[-> H]]; [|split; [done|exact H]]. split; by compute.
Qed.

(** Before the deadline EXPLORE ends no sooner than now, no later than the deadline, and with time for the final test and
    the grace when there was any. *)
Lemma explore_end_before_deadline b now test : 0 <= sb_total_seconds b → 0 <= test → now <= deadline b →
  now <= explore_end b now test ∧ explore_end b now test <= deadline b ∧
  (test + close_grace_seconds b <= deadline b - now → explore_end b now test == deadline b - (test + close_grace_seconds b)).
Proof.
  intros Ht Htest Hnow. destruct (grace_bound b Ht) as [Hg _]. unfold explore_end, remaining. set (d := deadline b) in *. set (gr := close_grace_seconds b) in *. clearbody d gr.
  assert (Hr : fmax fzero (fsub d now) == d - now).
  { destruct (fmax_Q_cases fzero (fsub d now)) as [[-> _]|[-> H]]; cbn in *; rewrite ?Qred_correct in *; unfold fzero, inject_Z in *; cbn in *; lra. }
  set (r := fmax fzero (fsub d now)) in *. cbn [fsub Q_float]. rewrite Qred_correct.
  destruct (fmin_Q_cases (fadd test gr) r) as [[-> H]|[-> H]]; cbn in H |- *; rewrite ?Qred_correct in *; lra.
Qed.

(** After the deadline it ends at the deadline: sooner than now. *)
Lemma explore_end_after_deadline b now test : 0 <= sb_total_seconds b → 0 <= test → deadline b < now →
  explore_end b now test == deadline b ∧ explore_end b now test < now.
Proof.
  intros Ht Htest Hnow. destruct (grace_bound b Ht) as [Hg _]. unfold explore_end, remaining. set (d := deadline b) in *. set (gr := close_grace_seconds b) in *. clearbody d gr.
  assert (Hr : fmax fzero (fsub d now) == 0).
  { destruct (fmax_Q_cases fzero (fsub d now)) as [[-> H]|[-> _]]; cbn in *; rewrite ?Qred_correct in *; unfold fzero, inject_Z in *; cbn in *; lra. }
  set (r := fmax fzero (fsub d now)) in *. cbn [fsub Q_float]. rewrite Qred_correct.
  destruct (fmin_Q_cases (fadd test gr) r) as [[-> H]|[-> H]]; cbn in H |- *; rewrite ?Qred_correct in *; lra.
Qed.
End exact.
