(* ===== verification/GradedMetrics.v ===== *)
(** * Graded metrics

    The numbers candidates are accepted by: the axes of [common/perf_metric.py] and the comparisons on them, the
    percentage gains and accuracy bars of [common/gain_math.py], the long-context bar of [contracts/long_context.py]
    ([refuses]), and what they use of Python's [statistics] ([fmean], [median], and [stdev] as CPython computes it since
    3.11: the exact sample variance, then a correctly rounded root).

    A snapshot maps metric names to floats; a measurement's construction refuses anything else, so the type checks of
    these functions are the types here.  The noise band, which the source reads from [HYPERLOOM_PERF_NOISE_PCT], is an
    argument. *)

From stdpp Require Import base list strings pretty sets.
From Stdlib Require Import ZArith QArith Lqa Lia SpecFloat.
From S2P Require Import Prelude PyFloat PyVal Dicts.

(** ** Statistics *)

(** A float's exact value, and the float nearest to a rational: what [math.fsum] and [Fraction] go through. *)
Class FloatExact (F : Type) := { f_exact : F → Q; f_nearest : Q → F }.
(** The root of a rational, rounded once. *)
Class FloatSqrt (F : Type) := f_sqrt : Q → F.

#[global] Instance Q_exact : FloatExact Q := { f_exact := λ x, x; f_nearest := Qred }.

#[global] Instance b64_exact_float : FloatExact binary64 :=
  { f_exact := b64_exact; f_nearest := λ q, b64_of_ratio (Qnum q) (Qden q) }.

(** [_integer_sqrt_of_frac_rto]: the integer root, its last bit set when it is not exact. *)
Definition isqrt_rto (n m : Z) : Z :=
  let a := Z.sqrt (n / m) in Z.lor a (if (a * a * m =? n)%Z then 0 else 1).
Definition bit_length (n : Z) : Z := if (n <=? 0)%Z then 0%Z else (Z.log2 n + 1)%Z.
(** [_float_sqrt_of_frac] *)
Definition b64_sqrt (q : Q) : binary64 :=
  let r := Qred q in
  let n := Qnum r in
  let m := Zpos (Qden r) in
  let k := ((bit_length n - bit_length m - 109) / 2)%Z in
  if (0 <=? k)%Z then b64_of_Z (Z.shiftl (isqrt_rto n (Z.shiftl m (2 * k))) k)
  else b64_of_ratio (isqrt_rto (Z.shiftl n (-2 * k)) m) (Z.to_pos (Z.shiftl 1 (- k))).
#[global] Instance b64_float_sqrt : FloatSqrt binary64 := b64_sqrt.

Section statistics.
Context {F : Type} `{!FloatOps F, !FloatExact F}.

Definition qsum (l : list Q) : Q := foldr Qplus 0 l.

(** [math.fsum]: the sum rounded once; a sum too large for a float raises. *)
Definition math_fsum (l : list F) : res F :=
  let t := f_nearest (qsum (f_exact <$> l)) in
  if forallb f_isfinite l && negb (f_isfinite t) then Raise (OverflowError "intermediate overflow in fsum") else Ok t.
Definition fmean (l : list F) : res F :=
  match l with
  | [] => Raise (ValueError "fmean requires at least one data point")
  | _ => t ← math_fsum l; Ok (fdiv t (f_of_Z (Z.of_nat (length l))))
  end.

Definition sorted_floats (l : list F) : list F := sort_by fleb l.
Definition median (l : list F) : res F :=
  let n := length l in
  let s := sorted_floats l in
  match s !! (n / 2)%nat, s !! (n / 2 - 1)%nat with
  | Some hi, Some lo => Ok (if Nat.odd n then hi else fdiv (fadd lo hi) (f_of_Z 2))
  | _, _ => Raise (ValueError "no median for empty data")
  end.

Definition stdev `{!FloatSqrt F} (l : list F) : res F :=
  let n := Z.of_nat (length l) in
  if (n <? 2)%Z then Raise (ValueError "stdev requires at least two data points")
  else
    let xs := f_exact <$> l in
    let ss := (inject_Z n * qsum ((λ x, x * x) <$> xs) - qsum xs * qsum xs) / inject_Z n in
    Ok (f_sqrt (ss / inject_Z (n - 1))).

Definition fabs (x : F) : F := if fltb x fzero then fsub fzero x else x.
End statistics.

(** Four readings as CPython has them. *)
Example statistics_examples :
  let fl := λ n d, f_lit (F := binary64) n d in
  (frepr <$> [match fmean [fl 1%Z 10%positive; fl 2%Z 10%positive; fl 3%Z 10%positive] with Ok x => x | Raise _ => fzero end;
              match stdev [fl 100%Z 1%positive; fl 101%Z 1%positive; fl 103%Z 1%positive] with Ok x => x | Raise _ => fzero end;
              match median [fl 5%Z 1%positive; fl 1%Z 1%positive; fl 4%Z 1%positive; fl 2%Z 1%positive] with Ok x => x | Raise _ => fzero end;
              b64_sqrt (2 # 1)])
  = ["0.19999999999999998"; "1.5275252316519468"; "3.0"; "1.4142135623730951"].
Proof. vm_compute. reflexivity. Qed.

(** ** Axes ([common/perf_metric.py]) *)

Definition GRADED_INTVTY : string := "e2e_norm_intvty_p90".
Definition GRADED_INTVTY_P50 : string := "e2e_norm_intvty_p50".
Definition GRADED_OUTPUT : string := "output_throughput".
Definition GRADED_DURATION : string := "duration_seconds".
Definition GRADED_ERROR_RATE : string := "request_error_rate".
Definition GRADED_UNSERVED_REQUESTS : string := "graded_unserved_requests".
Definition GRADED_REQUESTS_TOTAL : string := "graded_requests_total".

Section metrics.
Context {F : Type} `{!FloatOps F}.
Local Notation metrics := (list (string * F)).
Local Open Scope float_scope.
Implicit Types (candidate anchor snapshot : metrics) (x v : F).

Definition _PERCENT : F := f_of_Z 100.
Definition DURATION_DRIFT_PCT : F := f_of_Z 5.
Definition ERROR_RATE_SLACK_PCT : F := f_lit 5 10.
Definition AGENTX_KEEP_P50_THRESHOLD_PCT : F := f_of_Z 3.
Definition _DEFAULT_INTVTY_NOISE_PCT : F := f_of_Z 5.

(** [float(snapshot.get(key) or 0.0)] *)
Definition axis_of snapshot (key : string) : F :=
  match dget key snapshot with Some v => if feqb v fzero then fzero else v | None => fzero end.

Definition _non_negative (x : option F) : option F :=
  match x with Some v => if fzero <=? v then Some v else None | None => None end.
(** [optional_positive_float] of a float or nothing *)
Definition positive_float (x : option F) : option F :=
  match x with Some v => if f_isfinite v && negb (v <=? fzero) then Some v else None | None => None end.

Definition _within_band (candidate anchor band_pct : F) : bool :=
  if anchor <=? fzero then true else anchor * (f_of_Z 1 - band_pct / _PERCENT) <=? candidate.

Definition _unserved_rate_pct (side : metrics) : option F :=
  match _non_negative (dget GRADED_UNSERVED_REQUESTS side), positive_float (dget GRADED_REQUESTS_TOTAL side) with
  | Some unserved, Some total => Some (_PERCENT * unserved / total)
  | _, _ => None
  end.

Definition both (a b : option F) : option (F * F) :=
  match a, b with Some x, Some y => Some (x, y) | _, _ => None end.
Definition _failure_rates_pct candidate anchor : option (F * F) :=
  match both (_unserved_rate_pct candidate) (_unserved_rate_pct anchor) with
  | Some rates => Some rates
  | None => both (_non_negative (dget GRADED_ERROR_RATE candidate)) (_non_negative (dget GRADED_ERROR_RATE anchor))
  end.

Definition incomparability_reason candidate anchor : string :=
  let ref_duration := axis_of anchor GRADED_DURATION in
  match _failure_rates_pct candidate anchor with
  | None => "comparability_inputs_missing"
  | Some (cand_rate, ref_rate) =>
      if negb (din GRADED_DURATION candidate) || (ref_duration <=? fzero) then "comparability_inputs_missing"
      else if DURATION_DRIFT_PCT <? fabs (axis_of candidate GRADED_DURATION / ref_duration - f_of_Z 1) * _PERCENT
      then "duration_drift"
      else if ref_rate + ERROR_RATE_SLACK_PCT <? cand_rate then "extra_failed_requests"
      else ""
  end.

Definition holds_within_band (noise : F) candidate anchor (key : string) : bool :=
  _within_band (axis_of candidate key) (axis_of anchor key) noise.

(** ** Gains and accuracy bars ([common/gain_math.py]) *)

Definition gain_pct (new : option F) (base : F) : option F :=
  match new with
  | Some v => if negb (f_isfinite v) || (v <=? fzero) || (base <=? fzero) then None
              else Some ((v - base) / base * _PERCENT)
  | None => None
  end.

Definition ACCURACY_THRESHOLD : F := f_lit 5 100.
Definition AGENTX_ERROR_RATE_THRESHOLD_PCT : F := f_of_Z 10.
Definition DEFAULT_ENABLEMENT_ACCURACY_FLOOR : F := f_lit 5 10.
Definition ACCURACY_METRICS : list string :=
  ["exact_match,strict-match"; "exact_match,flexible-extract"; "exact_match,none"; "acc,none"].

Definition finite_score (score : option F) : option F :=
  match score with Some v => if f_isfinite v then Some v else None | None => None end.
Definition accuracy_meets_floor (score : option F) (floor : F) : bool :=
  match finite_score score with
  | None => false
  | Some v => if v <=? fzero then false else floor <=? v
  end.
Definition accuracy_passed (baseline new : F) : bool :=
  if baseline <=? fzero then true else baseline - new <=? ACCURACY_THRESHOLD.

(** ** The long-context bar ([contracts/long_context.py]) *)

Record LongContextRoot := { lr_prompt_set_sha256 : string; lr_ci_low : F }.
Record LongContextResult := {
  lc_complete : bool;
  lc_prompt_set_sha256 : string;
  lc_n : Z;
  lc_passed : Z;
  lc_root : option LongContextRoot
}.
Definition NOISE_SHARE : F := f_of_Z 3 / f_of_Z 64.
Definition _EPSILON : F := f_lit 1 1000000000.
Definition refuses (candidate : option LongContextResult) (root : option LongContextRoot) : bool :=
  match candidate, root with
  | Some c, Some r =>
      if negb (lc_complete c) then false
      else if negb (String.eqb (lc_prompt_set_sha256 c) (lr_prompt_set_sha256 r)) then false
      else NOISE_SHARE * f_of_Z (lc_n c) + _EPSILON <? lr_ci_low r * f_of_Z (lc_n c) - f_of_Z (lc_passed c)
  | _, _ => false
  end.
End metrics.
#[global] Arguments LongContextRoot : clear implicits.
#[global] Arguments LongContextResult : clear implicits.

(** ** At the exact rationals *)

Lemma Q_leb_le (x y : Q) : fleb x y = true ↔ x <= y.
Proof. apply Qle_bool_iff. Qed.
Lemma Q_leb_gt (x y : Q) : fleb x y = false ↔ y < x.
Proof. rewrite <- not_true_iff_false, Q_leb_le. split; [apply Qnot_le_lt|apply Qlt_not_le]. Qed.

(** A gain over a positive record is past the bar when the value is that far above the record. *)
Lemma gain_pct_Q (v base : Q) :
  0 < v → 0 < base → ∃ g, gain_pct (Some v) base = Some g ∧ g == (v - base) / base * 100.
Proof.
  intros Hv Hb. unfold gain_pct. change (f_isfinite v) with true. unfold fzero. cbn [f_of_Z Q_float negb orb].
  rewrite (proj2 (Q_leb_gt v (inject_Z 0))), (proj2 (Q_leb_gt base (inject_Z 0))) by done.
  eexists. split; [reflexivity|]. cbn. by rewrite !Qred_correct.
Qed.
Lemma gain_pct_None_Q (v base : Q) : v <= 0 ∨ base <= 0 → gain_pct (Some v) base = None.
Proof.
  intros H. unfold gain_pct. change (f_isfinite v) with true. cbn [negb orb].
  destruct H as [H|H]; apply Q_leb_le in H; change (fleb v fzero = true) in H || change (fleb base fzero = true) in H;
    rewrite H; by rewrite ?orb_true_r.
Qed.
Lemma gain_above (v base bar : Q) : 0 < base → bar < (v - base) / base * 100 ↔ base * (1 + bar / 100) < v.
Proof.
  intros Hb. assert (bar / 100 == bar * (1 # 100)) as -> by field.
  assert ((v - base) / base * 100 == (v - base) * 100 / base) as -> by (field; lra). split.
  - intros H. apply (Qmult_lt_r _ _ base Hb) in H. assert ((v - base) * 100 / base * base == (v - base) * 100) as E by (field; lra).
    rewrite E in H. lra.
  - intros H. apply Qlt_shift_div_l; [done|]. lra.
Qed.
Lemma gain_below (v base bar : Q) : 0 < base → (v - base) / base * 100 < bar ↔ v < base * (1 + bar / 100).
Proof.
  intros Hb. assert (bar / 100 == bar * (1 # 100)) as -> by field.
  assert ((v - base) / base * 100 == (v - base) * 100 / base) as -> by (field; lra). split.
  - intros H. apply (Qmult_lt_r _ _ base Hb) in H. assert ((v - base) * 100 / base * base == (v - base) * 100) as E by (field; lra).
    rewrite E in H. lra.
  - intros H. apply Qlt_shift_div_r; [done|]. lra.
Qed.
