(* ===== verification/InferenceXRule.v ===== *)
(** * The InferenceX rule

    [rulegate/inferencex.py] and the InferenceX part of [rulegate/accuracy.py]: a bar from the spread of the root's
    tests, the comparison of one measurement with its parent's record, and the retest on another sandbox that settles a
    gain.  The theorems say what a verdict of improved takes, and what a lineage of committed candidates keeps. *)

From stdpp Require Import base list strings pretty sets.
From Stdlib Require Import ZArith QArith Qminmax Lqa Lia.
From S2P Require Import Prelude PyFloat Rounding PyVal Dicts TestRequests ForkContracts GradedMetrics.

Definition GAIN_BELOW_THRESHOLD : string := "gain_below_threshold".
Definition GAIN_NOT_CONFIRMED : string := "gain_not_confirmed".
Definition DROPPED_REQUESTS : string := "dropped_requests".
Definition LONG_CONTEXT_DROPPED : string := "long_context_dropped".
Definition _ACCURACY : string := "accuracy".
Definition ACCURACY_SCORE : string := "accuracy_score".
Definition MIN_BASELINES : nat := 2.

Section rule.
Context {F : Type} `{!FloatOps F}.
Local Notation metrics := (list (string * F)).
Local Open Scope float_scope.

(** [AccuracyVerdict.measured] *)
Definition measured (passed : bool) : AccuracyVerdict := if passed then A_PASSED else A_FAILED.

(** ** Accuracy *)

Definition inferencex_accuracy_ok (baseline : F) (candidate : option F) : bool :=
  if negb (accuracy_meets_floor candidate DEFAULT_ENABLEMENT_ACCURACY_FLOOR) then false
  else match candidate with Some c => accuracy_passed baseline c | None => false end.

(** [baseline_accuracy]; the message's floats are shown by their [repr]. *)
Definition baseline_accuracy `{!FloatExact F} (scores : list (option F)) : res F :=
  let usable := finite_score <$> scores in
  if bool_decide (usable = []) || existsb (λ s, negb (bool_decide (is_Some s))) usable
  then Raise (BaselineAccuracyError "every baseline must report an accuracy score")
  else
    mean ← fmean (omap (λ s, s) usable);
    if negb (accuracy_meets_floor (Some mean) DEFAULT_ENABLEMENT_ACCURACY_FLOOR)
    then Raise (BaselineAccuracyError ("baseline accuracy " +:+ frepr mean +:+ " is below the floor "
                                       +:+ frepr (DEFAULT_ENABLEMENT_ACCURACY_FLOOR : F)))
    else Ok mean.

(** ** The bar *)

Definition NOISE_MULTIPLE : F := f_of_Z 2.
Definition FLOOR_PCT : F := f_lit 6 10.
Definition OUTLIER_MIN_PCT : F := f_of_Z 5.
Definition OUTLIER_MULTIPLE : F := f_of_Z 4.

Definition _checked (value : F) : res unit :=
  raise_if (negb (f_isfinite value && (fzero <? value)))
    (ValueError ("a throughput must be positive and finite, got " +:+ frepr value)).

Section dispersion.
Context `{!FloatExact F, !FloatSqrt F}.
Implicit Types baselines : list F.

Definition _spread_pct (values : list F) : res F :=
  s ← stdev values; m ← fmean values; Ok (s / m * f_of_Z 100).

(** [DispersionThreshold.__post_init__] *)
Definition dispersion_init baselines : res unit :=
  if (length baselines <? MIN_BASELINES)%nat
  then Raise (ValueError ("the spread needs at least " +:+ pretty MIN_BASELINES +:+ " baselines, got "
                          +:+ pretty (length baselines)))
  else for_each _checked baselines.

(** [max(range(n), key=...)]: the first index of the largest key. *)
Fixpoint arg_max (best : nat) (best_key : F) (i : nat) (keys : list F) : nat :=
  match keys with
  | [] => best
  | k :: keys' => if best_key <? k then arg_max i k (S i) keys' else arg_max best best_key (S i) keys'
  end.
Definition farthest (mid : F) baselines : nat :=
  match (λ x, fabs (x - mid)) <$> baselines with [] => 0%nat | k :: keys => arg_max 0 k 1 keys end.

Definition kept baselines : res (list F) :=
  if (length baselines <=? MIN_BASELINES)%nat then Ok baselines
  else
    mid ← median baselines;
    let far := farthest mid baselines in
    let rest := take far baselines ++ drop (S far) baselines in
    let off_pct := fabs (default fzero (baselines !! far) - mid) / mid * f_of_Z 100 in
    spread ← _spread_pct rest;
    Ok (if fmax OUTLIER_MIN_PCT (OUTLIER_MULTIPLE * spread) <=? off_pct then rest else baselines).
Definition spread_pct baselines : res F := k ← kept baselines; _spread_pct k.
Definition threshold_pct baselines : res F := s ← spread_pct baselines; Ok (fmax FLOOR_PCT (NOISE_MULTIPLE * s)).
End dispersion.

(** ** Readings and baselines *)

Record InferenceXReading := {
  ix_throughput : F;
  ix_accuracy : option F;
  ix_dropped : Z;
  ix_long_context_dropped : bool
}.
(** [InferenceXReading.__post_init__] *)
Definition reading_init (r : InferenceXReading) : res InferenceXReading :=
  _ ← _checked (ix_throughput r);
  _ ← raise_if (bool_decide (is_Some (ix_accuracy r)) && negb (bool_decide (is_Some (finite_score (ix_accuracy r)))))
        (ValueError ("an eval score must be a finite number, got " +:+ match ix_accuracy r with Some a => frepr a | None => "None" end));
  _ ← raise_if (ix_dropped r <? 0)%Z
        (ValueError ("a count of dropped requests is at least 0, got " +:+ pretty (ix_dropped r)));
  Ok r.
Definition defects (r : InferenceXReading) : list string :=
  (if (ix_dropped r =? 0)%Z then [] else [DROPPED_REQUESTS])
  ++ (if ix_long_context_dropped r then [LONG_CONTEXT_DROPPED] else []).

Record InferenceXBaseline := { ib_bar_pct : F; ib_accuracy : F }.
(** [InferenceXBaseline.__post_init__] *)
Definition baseline_init (b : InferenceXBaseline) : res InferenceXBaseline :=
  _ ← raise_if (negb (f_isfinite (ib_bar_pct b) && (fzero <? ib_bar_pct b)) || negb (f_isfinite (ib_accuracy b)))
        (ValueError ("a baseline needs a positive bar and a finite eval score, got InferenceXBaseline(bar_pct="
                     +:+ frepr (ib_bar_pct b) +:+ ", accuracy=" +:+ frepr (ib_accuracy b) +:+ ")"));
  Ok b.

(** [d[key]] *)
Definition entry (d : metrics) (key : string) : res F :=
  match dget key d with Some v => Ok v | None => Raise (KeyError key) end.

Definition _gain (throughput : F) (parent : metrics) : res F :=
  base ← entry parent GRADED_OUTPUT;
  match gain_pct (Some throughput) base with
  | Some g => Ok g
  | None => Raise (ValueError ("cannot compare " +:+ frepr throughput +:+ " against a parent record of " +:+ frepr base))
  end.

Definition _recorded (throughput : F) (accuracy : option F) : metrics :=
  match accuracy with
  | None => [(GRADED_OUTPUT, throughput)]
  | Some a => [(GRADED_OUTPUT, throughput); (ACCURACY_SCORE, a)]
  end.

Definition judgement (v : Verdict) (gain bar : F) (ids : list string) (recorded : metrics) (a : AccuracyVerdict)
    (refused : list string) : Judgement F :=
  {| ju_verdict := v; ju_gain_pct := gain; ju_threshold_pct := bar; ju_request_ids := ids; ju_recorded_value := recorded;
     ju_accuracy := a; ju_refused_by := refused; ju_fixes_correctness := false; ju_foundation_fix := false |}.

Implicit Types (r : InferenceXReading) (b : InferenceXBaseline) (parent : metrics) (first : Judgement F).

(** ** The two comparisons *)

Definition compare r b parent (request_id : string) : res (Judgement F) :=
  gain ← _gain (ix_throughput r) parent;
  let bar := ib_bar_pct b in
  let accuracy := match ix_accuracy r with
                  | None => A_NOT_MEASURED
                  | Some a => measured (inferencex_accuracy_ok (ib_accuracy b) (Some a))
                  end in
  let recorded := _recorded (ix_throughput r) (ix_accuracy r) in
  if bar <? gain then Ok (judgement V_NEEDS_CONFIRM gain bar [request_id] recorded accuracy (defects r))
  else
    let verdict := if (gain <? fzero - bar) || negb (bool_decide (defects r = [])) then V_REGRESSED else V_FLAT in
    Ok (judgement verdict gain bar [request_id] recorded accuracy (defects r ++ [GAIN_BELOW_THRESHOLD])).

Definition or_accuracy (ok : bool) (names : list string) : list string := if ok then names else names ++ [_ACCURACY].
Definition nonempty (l : list string) : bool := negb (bool_decide (l = [])).

Definition confirm first r b parent (request_id : string) : res (Judgement F) :=
  if negb (bool_decide (ju_verdict first = V_NEEDS_CONFIRM))
  then Raise (ValueError ("only a provisional judgement is retested, not a " +:+ verdict_value (ju_verdict first) +:+ " one"))
  else
  match ix_accuracy r with
  | None => Raise (ValueError ("the retest " +:+ request_id +:+ " ran no eval, which settling a gain needs"))
  | Some score =>
      let bar := ib_bar_pct b in
      let unmeasured := bool_decide (ju_accuracy first = A_NOT_MEASURED) in
      scores ← (if unmeasured then Ok [score]
                else s ← entry (ju_recorded_value first) ACCURACY_SCORE; Ok [s; score]);
      before_tput ← entry (ju_recorded_value first) GRADED_OUTPUT;
      let mean := (before_tput + ix_throughput r) / f_of_Z 2 in
      let recorded := _recorded mean (Some (fsum scores / f_of_Z (Z.of_nat (length scores)))) in
      gain ← _gain mean parent;
      let request_ids := ju_request_ids first ++ [request_id] in
      let accuracy_ok := inferencex_accuracy_ok (ib_accuracy b) (Some score) in
      let first_ok := if unmeasured then accuracy_ok else bool_decide (ju_accuracy first = A_PASSED) in
      let accuracy := measured (accuracy_ok && first_ok) in
      let seen := dict_fromkeys [] (ju_refused_by first ++ defects r) in
      again ← (if bar <? gain then g ← _gain (ix_throughput r) parent; Ok (fzero <? g) else Ok false);
      if again : bool then
        let before := or_accuracy first_ok (ju_refused_by first) in
        let after := or_accuracy accuracy_ok (defects r) in
        if existsb (λ d, bool_decide (d ∈ after)) before
        then Ok (judgement V_BLOCKED gain bar request_ids recorded accuracy (filter (λ d, d ∈ after) seen))
        else
          let verdict := if nonempty before || nonempty after then V_INCONCLUSIVE else V_IMPROVED in
          Ok (judgement verdict gain bar request_ids recorded accuracy seen)
      else
        let verdict := if (gain <? fzero - bar) || nonempty seen then V_REGRESSED else V_FLAT in
        Ok (judgement verdict gain bar request_ids recorded accuracy (seen ++ [GAIN_NOT_CONFIRMED]))
  end.
End rule.
#[global] Arguments InferenceXReading : clear implicits.
#[global] Arguments InferenceXBaseline : clear implicits.

(** ** What the comparisons come to

    The defects of a reading as flags, and the sets [confirm] builds of two readings' defects in terms of them. *)

Definition flag_names (dropped long : bool) : list string :=
  (if dropped then [DROPPED_REQUESTS] else []) ++ (if long then [LONG_CONTEXT_DROPPED] else []).

Section flags.
Context {F : Type} `{!FloatOps F}.
Implicit Types r : InferenceXReading F.
Definition dropped r : bool := negb (ix_dropped r =? 0)%Z.
Lemma defects_flags r : defects r = flag_names (dropped r) (ix_long_context_dropped r).
Proof. unfold defects, flag_names, dropped. by destruct (ix_dropped r =? 0)%Z. Qed.
End flags.

Lemma flags_shared d1 l1 ok1 d2 l2 ok2 :
  existsb (λ d, bool_decide (d ∈ or_accuracy ok2 (flag_names d2 l2))) (or_accuracy ok1 (flag_names d1 l1))
  = (d1 && d2) || (l1 && l2) || (negb ok1 && negb ok2).
Proof. destruct d1, l1, ok1, d2, l2, ok2; reflexivity. Qed.
Lemma flags_any ok d l : nonempty (or_accuracy ok (flag_names d l)) = d || l || negb ok.
Proof. destruct ok, d, l; reflexivity. Qed.
Lemma flags_seen d1 l1 d2 l2 :
  nonempty (dict_fromkeys [] (flag_names d1 l1 ++ flag_names d2 l2)) = d1 || l1 || d2 || l2.
Proof. destruct d1, l1, d2, l2; reflexivity. Qed.

(** ** The verdict on a retested gain, from the two readings

    The reference: a gain holds when the mean of both throughputs is past the bar and the retest is above the record;
    what then keeps it from improved is a defect of either reading, and one both show blocks it.  Percentages and means
    are what the float operations give: the reference is the program's decision at its doubles, not at exact numbers. *)
Section settled.
Context {F : Type} `{!FloatOps F}.
Local Open Scope float_scope.
Implicit Types (r : InferenceXReading F) (b : InferenceXBaseline F) (base s t g : F) (parent : list (string * F)).

(** A finite positive score of at least one half, and at most 0.05 below a positive baseline. *)
Definition score_ok (baseline s : F) : bool :=
  f_isfinite s && negb (s <=? fzero) && (f_lit 5 10 <=? s) && ((baseline <=? fzero) || (baseline - s <=? f_lit 5 100)).
Definition mean_of r1 r2 : F := (ix_throughput r1 + ix_throughput r2) / f_of_Z 2.
Definition gain_holds b base r1 r2 : bool :=
  (ib_bar_pct b <? percent (mean_of r1 r2) base) && (fzero <? percent (ix_throughput r2) base).
Definition retest_bad b r2 : bool := match ix_accuracy r2 with Some s => negb (score_ok (ib_accuracy b) s) | None => true end.
(** A first reading without a score takes the retest's. *)
Definition first_bad b r1 r2 : bool :=
  match ix_accuracy r1 with Some s => negb (score_ok (ib_accuracy b) s) | None => retest_bad b r2 end.

Definition settled b base r1 r2 : Verdict :=
  if gain_holds b base r1 r2 then
    if (dropped r1 && dropped r2) || (ix_long_context_dropped r1 && ix_long_context_dropped r2)
       || (first_bad b r1 r2 && retest_bad b r2) then V_BLOCKED
    else if (dropped r1 || ix_long_context_dropped r1 || first_bad b r1 r2)
            || (dropped r2 || ix_long_context_dropped r2 || retest_bad b r2) then V_INCONCLUSIVE
    else V_IMPROVED
  else if (percent (mean_of r1 r2) base <? fzero - ib_bar_pct b)
          || (dropped r1 || ix_long_context_dropped r1 || dropped r2 || ix_long_context_dropped r2) then V_REGRESSED
  else V_FLAT.

Lemma accuracy_score_ok baseline s : inferencex_accuracy_ok baseline (Some s) = score_ok baseline s.
Proof.
  unfold inferencex_accuracy_ok, accuracy_meets_floor, accuracy_passed, score_ok, finite_score.
  destruct (f_isfinite s); [|done]. destruct (s <=? fzero); [done|]. cbn [negb andb].
  fold (DEFAULT_ENABLEMENT_ACCURACY_FLOOR (F := F)). fold (ACCURACY_THRESHOLD (F := F)).
  destruct (DEFAULT_ENABLEMENT_ACCURACY_FLOOR <=? s); [|done]. by destruct (baseline <=? fzero).
Qed.

(** What is compared: positive sides, the candidate's finite. *)
Definition comparable t base : Prop := f_isfinite t = true ∧ (t <=? fzero) = false ∧ (base <=? fzero) = false.
Lemma gain_percent t parent base g : entry parent GRADED_OUTPUT = Ok base → _gain t parent = Ok g →
  comparable t base ∧ g = percent t base.
Proof.
  unfold _gain, gain_pct. intros ->. cbn [mbind res_bind]. destruct (f_isfinite t) eqn:Ef, (t <=? fzero) eqn:Et, (base <=? fzero) eqn:Eb; try done.
  by intros [= <-].
Qed.

Definition first_accuracy b r : AccuracyVerdict :=
  match ix_accuracy r with None => A_NOT_MEASURED | Some s => measured (score_ok (ib_accuracy b) s) end.

Lemma compare_cases r b parent id j base : entry parent GRADED_OUTPUT = Ok base → compare r b parent id = Ok j →
  comparable (ix_throughput r) base ∧
  ju_recorded_value j = _recorded (ix_throughput r) (ix_accuracy r) ∧ ju_accuracy j = first_accuracy b r ∧
  ju_request_ids j = [id] ∧ ju_fixes_correctness j = false ∧
  (ju_verdict j = V_NEEDS_CONFIRM ∧ ju_refused_by j = defects r ∧ (ib_bar_pct b <? percent (ix_throughput r) base) = true ∨
   ju_verdict j = (if (percent (ix_throughput r) base <? fzero - ib_bar_pct b) || negb (bool_decide (defects r = []))
                   then V_REGRESSED else V_FLAT)).
Proof.
  intros Hbase. unfold compare. destruct (_gain _ _) as [g|] eqn:Eg; [|done]. cbn [mbind res_bind].
  destruct (gain_percent _ _ _ _ Hbase Eg) as (Hc & ->). unfold first_accuracy.
  destruct (ib_bar_pct b <? _); intros [= <-]; cbn.
  - split_and!; [done..| |done|done|by left]. destruct (ix_accuracy r); [|done]. by rewrite accuracy_score_ok.
  - split_and!; [done..| |done|done|by right]. destruct (ix_accuracy r); [|done]. by rewrite accuracy_score_ok.
Qed.

Lemma entry_recorded t a : entry (_recorded t a) GRADED_OUTPUT = Ok t.
Proof. by destruct a. Qed.
Lemma entry_score t s : entry (_recorded t (Some s)) ACCURACY_SCORE = Ok s.
Proof. done. Qed.

(** The score a retest records: the mean of both readings' scores, or the retest's alone. *)
Definition scores_of r1 s2 : list F := match ix_accuracy r1 with Some s1 => [s1; s2] | None => [s2] end.
Definition mean_score r1 s2 : F := let l := scores_of r1 s2 in fsum l / f_of_Z (Z.of_nat (length l)).

Lemma confirm_cases r1 r2 b parent base id1 id2 j1 j2 :
  entry parent GRADED_OUTPUT = Ok base →
  compare r1 b parent id1 = Ok j1 → confirm j1 r2 b parent id2 = Ok j2 →
  ju_verdict j2 = settled b base r1 r2 ∧ ju_fixes_correctness j2 = false ∧ ju_request_ids j2 = [id1; id2] ∧
  ju_accuracy j2 = measured (negb (retest_bad b r2) && negb (first_bad b r1 r2)) ∧ comparable (mean_of r1 r2) base ∧
  ∃ s2, ix_accuracy r2 = Some s2 ∧ ju_recorded_value j2 = _recorded (mean_of r1 r2) (Some (mean_score r1 s2)).
Proof.
  intros Hbase H1 H2. destruct (compare_cases _ _ _ _ _ _ Hbase H1) as (_ & Hrec & Hacc & Hids & _ & Hv).
  unfold confirm in H2. destruct (bool_decide (ju_verdict j1 = V_NEEDS_CONFIRM)) eqn:Hn; [|done].
  apply bool_decide_eq_true in Hn. cbn [negb] in H2.
  destruct Hv as [(_ & Href & _)|Hv]; [|rewrite Hv in Hn; by destruct (_ || _) in Hn].
  destruct (ix_accuracy r2) as [s2|] eqn:E2; [|done]. rewrite Hrec, Hacc, Href, entry_recorded in H2. clear Hn.
  apply res_bind_ok in H2 as (scores & Hsc & H2). cbn [mbind res_bind] in H2. fold (mean_of r1 r2) in H2.
  destruct (_gain (mean_of r1 r2) parent) as [g|] eqn:Eg; [|done]. cbn [mbind res_bind] in H2.
  destruct (gain_percent _ _ _ _ Hbase Eg) as (Hm & ->).
  rewrite accuracy_score_ok in H2. rewrite !defects_flags, flags_seen in H2.
  set (ok2 := score_ok (ib_accuracy b) s2) in *.
  assert (retest_bad b r2 = negb ok2) as Hbad2 by (unfold retest_bad; by rewrite E2).
  match goal with H : context [or_accuracy ?x (flag_names (dropped r1) _)] |- _ => set (ok1 := x) in H end.
  assert (first_bad b r1 r2 = negb ok1) as Hbad1.
  { unfold first_bad, ok1, first_accuracy. destruct (ix_accuracy r1) as [s1|]; [by destruct (score_ok (ib_accuracy b) s1)|]. rewrite Hbad2. done. }
  assert (scores = scores_of r1 s2) as ->.
  { unfold scores_of, first_accuracy in *. destruct (ix_accuracy r1) as [s1|]; [|by injection Hsc].
    destruct (score_ok (ib_accuracy b) s1); by injection Hsc. }
  fold (mean_score r1 s2) in H2.
  assert (∀ v refused, let j := judgement v (percent (mean_of r1 r2) base) (ib_bar_pct b) (ju_request_ids j1 ++ [id2])
            (_recorded (mean_of r1 r2) (Some (mean_score r1 s2))) (measured (ok2 && ok1)) refused in
          ju_fixes_correctness j = false ∧ ju_request_ids j = [id1; id2] ∧
          ju_accuracy j = measured (negb (negb ok2) && negb (negb ok1)) ∧ comparable (mean_of r1 r2) base ∧
          ∃ s, Some s2 = Some s ∧ ju_recorded_value j = _recorded (mean_of r1 r2) (Some (mean_score r1 s))) as Hj.
  { intros v refused. cbn. rewrite Hids, !negb_involutive. split_and!; [done..|]. by exists s2. }
  unfold settled, gain_holds. rewrite Hbad1, Hbad2. clearbody ok1 ok2. clear Hsc.
  destruct (ib_bar_pct b <? _); cbn [andb].
  - destruct (_gain (ix_throughput r2) parent) as [g'|] eqn:Eg'; [|done]. cbn [mbind res_bind] in H2.
    destruct (gain_percent _ _ _ _ Hbase Eg') as (_ & ->). destruct (fzero <? _).
    + rewrite flags_shared, !flags_any in H2. repeat case_match; injection H2 as <-; (split; [done|apply Hj]).
    + case_match; injection H2 as <-; (split; [done|apply Hj]).
  - cbn [mbind res_bind] in H2. case_match; injection H2 as <-; (split; [done|apply Hj]).
Qed.

(** C18: The verdict on a retested gain is the reference's, at every float format and so at the program's doubles, each
    mean and percentage taken as the program computes it: the gain holds when the gain of the mean of both throughputs is
    past the bar and the retest's own gain is positive; one that holds is improved without a defect, blocked by a defect
    both measurements show and inconclusive otherwise; one that does not hold is regressed when the mean's gain is below
    minus the bar or with a dropped request or long-context drop, and flat between. *)
Theorem settled_verdict r1 r2 b parent base id1 id2 j1 j2 :
  entry parent GRADED_OUTPUT = Ok base →
  compare r1 b parent id1 = Ok j1 → confirm j1 r2 b parent id2 = Ok j2 →
  ju_verdict j2 = settled b base r1 r2.
Proof. intros Hb H1 H2. by destruct (confirm_cases _ _ _ _ _ _ _ _ _ Hb H1 H2). Qed.
End settled.

(** ** A lineage of committed candidates

    A candidate is judged against its parent's record by one measurement, or by it and a retest; [check_fix] may mark
    the judgement as a correctness fix.  What the commit table commits becomes the record the next candidate is judged
    against.  The readings are doubles and their scores are at most 1. *)
Section lineage.
Context {F : Type} `{!FloatOps F, !FloatOrder F, !FloatRounds F}.
Implicit Types (r : InferenceXReading F) (b : InferenceXBaseline F) (base s t : F) (parent : list (string * F)).
Local Open Scope Q_scope.

Definition sane_reading r : Prop :=
  f_double (ix_throughput r) = true ∧ ∀ s, ix_accuracy r = Some s → f_double s = true ∧ fleb s (f_of_Z 1) = true.

Inductive judged b parent : Judgement F → Prop :=
| judged_first r id j : sane_reading r → compare r b parent id = Ok j → judged b parent j
| judged_retest r1 r2 id1 id2 j1 j2 :
    sane_reading r1 → sane_reading r2 →
    compare r1 b parent id1 = Ok j1 → confirm j1 r2 b parent id2 = Ok j2 → judged b parent j2.

Inductive lands b parent : list (string * F) → bool → Prop :=
| lands_gain j : judged b parent j → decide_action j = COMMIT → lands b parent (ju_recorded_value j) true
| lands_fix foundation j :
    judged b parent j → decide_action (as_fix foundation j) = COMMIT →
    lands b parent (ju_recorded_value j) (bool_decide (ju_verdict j = V_IMPROVED)).

Inductive lineage b (root : list (string * F)) : list bool → list (string * F) → Prop :=
| lineage_root : lineage b root [] root
| lineage_commit ks parent v k : lineage b root ks parent → lands b parent v k → lineage b root (k :: ks) v.

(** The root's record ([write_inferencex_baseline]) and the least throughput a lineage of gains and fixes has left. *)
Definition root_values b (t0 : F) : list (string * F) := [(GRADED_OUTPUT, t0); (ACCURACY_SCORE, ib_accuracy b)].
Definition factor b (gained : bool) : Q :=
  Qmax 0 (1 + (if gained then fv (ib_bar_pct b) else - fv (ib_bar_pct b)) / 100 - slack).
Fixpoint least b (t0 : F) (ks : list bool) : Q :=
  match ks with [] => fv t0 | k :: ks' => least b t0 ks' * factor b k end.

(** *** The mean of two scores that pass, passes *)
Lemma score_ok_spec baseline s : score_ok baseline s = true ↔
  f_isfinite s = true ∧ fleb s fzero = false ∧ fleb (f_lit 5 10) s = true ∧
  (fleb baseline fzero = true ∨ fleb (fsub baseline s) (f_lit 5 100) = true).
Proof. unfold score_ok. rewrite !andb_true_iff, orb_true_iff, negb_true_iff. tauto. Qed.
Lemma score_ok_up baseline s s' : f_isfinite baseline = true → finite_double s → finite_double s' → fleb s s' = true →
  score_ok baseline s = true → score_ok baseline s' = true.
Proof.
  rewrite !score_ok_spec. intros Hb Hs Hs' Hle (_ & H0 & Hf & Hc). split_and!; [apply Hs'| |by eapply fleb_trans|].
  - destruct (fleb s' fzero) eqn:E; [|done]. by rewrite (fleb_trans _ _ _ Hle E) in H0.
  - destruct Hc as [?|Hc]; [by left|right]. eapply fleb_trans; [|exact Hc].
    apply (rounds_mono (fv baseline - fv s') (fv baseline - fv s)); [apply sub_rounds; [done|apply Hs']|apply sub_rounds; [done|apply Hs]|].
    apply leb_values in Hle; [|done..]. lra.
Qed.

Lemma mean_score_ok b r1 r2 s2 : f_isfinite (ib_accuracy b) = true → sane_reading r1 → sane_reading r2 → ix_accuracy r2 = Some s2 →
  retest_bad b r2 = false → first_bad b r1 r2 = false → score_ok (ib_accuracy b) (mean_score r1 s2) = true.
Proof.
  intros Hb [_ H1] [_ H2] E2. unfold first_bad, retest_bad, mean_score, scores_of. rewrite E2. intros Hok2%negb_false_iff.
  assert (∀ s, f_double s = true ∧ fleb s (f_of_Z 1) = true → score_ok (ib_accuracy b) s = true →
            finite_double s ∧ 0 < fv s ∧ fv s <= 1) as Hs.
  { intros s [Hd Hle] Ho. apply score_ok_spec in Ho as (Hf & H0 & _).
    assert (finite_double s) as Hfd by done. apply leb_values_false in H0; [|done|apply fzero_double]. rewrite fzero_value in H0.
    apply leb_values in Hle; [|done|by apply of_Z_double]. rewrite of_Z_value in Hle by lia. done. }
  destruct (Hs s2 (H2 s2 E2) Hok2) as (D2 & P2 & L2). destruct (ix_accuracy r1) as [s1|] eqn:E1; unfold fsum; cbn [foldl length].
  - intros Hok1%negb_false_iff. destruct (Hs s1 (H1 s1 eq_refl) Hok1) as (D1 & P1 & L1). destruct (zero_add s1 D1) as [D1' E].
    destruct (Qlt_le_dec (fv s1) (fv s2)) as [Hle|Hle].
    + destruct (mean_ge (fadd fzero s1) s2 s1) as [Dm Hm]; try done; try (rewrite ?E; lra). by apply (score_ok_up _ s1).
    + destruct (mean_ge (fadd fzero s1) s2 s2) as [Dm Hm]; try done; try (rewrite ?E; lra). by apply (score_ok_up _ s2).
  - intros _. destruct (zero_add s2 D2) as [D2' E]. destruct (div_one _ D2') as [D2'' E']. apply (score_ok_up _ s2); try done.
    apply leb_values; [done..|]. rewrite E', E. apply Qle_refl.
Qed.

(** *** The record a commit leaves: above its parent's by the bar for a gain, at most the bar below it for a fix *)
Definition sane_baseline b : Prop :=
  finite_double (ib_bar_pct b) ∧ f_isfinite (ib_accuracy b) = true ∧ 0 < fv (ib_bar_pct b) <= 100.
Definition record_from b base (gained : bool) (v : list (string * F)) : Prop :=
  ∃ t s, v = _recorded t (Some s) ∧ finite_double t ∧ 0 < fv t ∧ fv base * factor b gained <= fv t ∧ score_ok (ib_accuracy b) s = true.

Lemma mean_double r1 r2 : f_double (ix_throughput r1) = true → f_double (ix_throughput r2) = true →
  f_isfinite (mean_of r1 r2) = true → finite_double (mean_of r1 r2).
Proof. intros H1 H2 Hf. split; [done|]. unfold mean_of. apply div_double; [|by apply of_Z_double]. by apply add_double. Qed.
Lemma comparable_pos t base : finite_double t → finite_double base → comparable t base → 0 < fv t ∧ 0 < fv base.
Proof.
  intros Ht Hb (_ & H0 & H1). apply leb_values_false in H0, H1; try apply fzero_double; try done. by rewrite fzero_value in H0, H1.
Qed.
(** A percentage not below the bar, or minus the bar, leaves the parent's throughput times the factor. *)
Lemma percent_factor b t base (gained : bool) (bar : F) : sane_baseline b → finite_double t → finite_double base → comparable t base →
  finite_double bar → fv bar == (if gained then fv (ib_bar_pct b) else - fv (ib_bar_pct b)) →
  fltb (percent t base) bar = false → fv base * factor b gained <= fv t.
Proof.
  intros (_ & _ & Hpos & Hle) Ht Hb Hc Hbar E Hg. destruct (comparable_pos _ _ Ht Hb Hc) as [H0 H1]. unfold factor. rewrite <- E.
  destruct (Q.max_spec 0 (1 + fv bar / 100 - slack)) as [[_ ->]|[_ ->]]; [|lra].
  apply percent_floor; try done. rewrite E. destruct gained; lra.
Qed.
Lemma gain_floor b t base : sane_baseline b → finite_double t → finite_double base → comparable t base →
  fltb (ib_bar_pct b) (percent t base) = true → fv base * factor b true <= fv t.
Proof.
  intros Hsb Ht Hb Hc Hg. apply (percent_factor b t base true (ib_bar_pct b)); try done; [apply Hsb|].
  destruct (fltb (percent t base) _) eqn:E; [|done]. pose proof (fltb_trans _ _ _ Hg E) as Hx. by rewrite fltb_irrefl in Hx.
Qed.
Lemma loss_floor b t base : sane_baseline b → finite_double t → finite_double base → comparable t base →
  fltb (percent t base) (fsub fzero (ib_bar_pct b)) = false → fv base * factor b false <= fv t.
Proof.
  intros Hsb Ht Hb Hc Hg. destruct (opp_exact (ib_bar_pct b) (proj1 Hsb)) as [Ho Eo].
  by apply (percent_factor b t base false (fsub fzero (ib_bar_pct b))).
Qed.

Lemma judged_record b parent base j : sane_baseline b → finite_double base → entry parent GRADED_OUTPUT = Ok base → judged b parent j →
  ju_fixes_correctness j = false ∧
  (ju_verdict j = V_IMPROVED → record_from b base true (ju_recorded_value j)) ∧
  (ju_verdict j = V_FLAT → ju_accuracy j = A_PASSED → record_from b base false (ju_recorded_value j)).
Proof.
  intros Hsb Hbd Hb [r id j0 Hr H1|r1 r2 id1 id2 j1 j2 Hr1 Hr2 H1 H2].
  - destruct (compare_cases _ _ _ _ _ _ Hb H1) as (Hc & Hrec & Hacc & _ & Hf & Hv). split; [done|].
    destruct Hv as [(-> & _)| ->]; [done|]. split; [by destruct (_ || _)|].
    destruct (fltb _ _) eqn:El; cbn [orb]; [done|]. intros _. rewrite Hacc, Hrec. unfold first_accuracy.
    destruct (ix_accuracy r) as [s|]; [|done]. intros Hs. assert (finite_double (ix_throughput r)) as Hd by exact (conj (proj1 Hc) (proj1 Hr)).
    exists (ix_throughput r), s. split; [done|]. split; [done|]. split; [by destruct (comparable_pos _ _ Hd Hbd Hc)|]. split; [by apply loss_floor|].
    by destruct (score_ok (ib_accuracy b) s).
  - destruct (confirm_cases _ _ _ _ _ _ _ _ _ Hb H1 H2) as (Hv & Hf & _ & Hacc & Hc & s2 & E2 & Hrec). split; [done|].
    pose proof (mean_double r1 r2 (proj1 Hr1) (proj1 Hr2) (proj1 Hc)) as Hd. destruct (comparable_pos _ _ Hd Hbd Hc) as [Hpos _].
    assert (ju_accuracy j2 = A_PASSED → score_ok (ib_accuracy b) (mean_score r1 s2) = true) as Hs.
    { rewrite Hacc. intros Hp. destruct Hsb as (_ & Hfin & _).
      destruct (retest_bad b r2) eqn:B2; [done|]. destruct (first_bad b r1 r2) eqn:B1; [done|]. by apply (mean_score_ok b r1 r2). }
    rewrite Hv, Hrec. unfold settled, gain_holds in Hv |- *. split.
    + intros Hi. eexists _, _. split; [done|]. split; [done|]. split; [done|]. split.
      * apply gain_floor; try done. destruct (fltb (ib_bar_pct b) _); [done|]. by repeat case_match.
      * apply Hs. rewrite Hacc. by destruct (_ && fltb _ _), (retest_bad b r2), (first_bad b r1 r2),
          (dropped r1), (dropped r2), (ix_long_context_dropped r1), (ix_long_context_dropped r2); repeat case_match.
    + intros Hi Hp. eexists _, _. split; [done|]. split; [done|]. split; [done|]. split; [|by apply Hs].
      apply loss_floor; try done. destruct (_ && _); [by repeat case_match|]. by destruct (fltb _ (fsub _ _)).
Qed.

Lemma lands_record b parent base v k : sane_baseline b → finite_double base → entry parent GRADED_OUTPUT = Ok base →
  lands b parent v k → record_from b base k v.
Proof.
  intros Hsb Hbd Hb [j Hj Ha|foundation j Hj Ha]; destruct (judged_record _ _ _ _ Hsb Hbd Hb Hj) as (Hf & Hi & Hfl);
    apply committed_flags in Ha; cbn in Ha.
  - destruct Ha as [Ha|(_ & Hx & _)]; [auto|by rewrite Hf in Hx].
  - destruct Ha as [Ha|(Hv & _ & Hp)]; [rewrite bool_decide_eq_true_2 by done; auto|].
    rewrite bool_decide_eq_false_2 by (by rewrite Hv). auto.
Qed.

(** The root's own score passes the gate when it is finite and meets the floor. *)
Lemma root_score_ok baseline : accuracy_meets_floor (Some baseline) (f_lit 5 10) = true → score_ok baseline baseline = true.
Proof.
  unfold accuracy_meets_floor, finite_score. destruct (f_isfinite baseline) eqn:Ef; [|done]. destruct (fleb baseline fzero) eqn:E0; [done|]. intros Hfl.
  apply score_ok_spec. split_and!; [done..|]. right. apply (rounds_mono (fv baseline - fv baseline) (5 # 100)); [by apply sub_rounds|apply lit_rounds|].
  assert (fv baseline - fv baseline == 0) as -> by ring. by compute.
Qed.

End lineage.

(** ** The bar

    The bar is never below the floor, and is read from all the baselines or all but one. *)
Section bar.
Context {F : Type} `{!FloatOps F, !FloatOrder F, !FloatExact F, !FloatSqrt F}.

Lemma threshold_floor (baselines : list F) bar : threshold_pct baselines = Ok bar → fltb bar FLOOR_PCT = false.
Proof.
  unfold threshold_pct. destruct (spread_pct baselines) as [s|]; [|done]. intros [= <-]. unfold fmax.
  destruct (fltb FLOOR_PCT _) eqn:E; [|apply fltb_irrefl].
  destruct (fltb (fmul _ _) FLOOR_PCT) eqn:E'; [|done]. pose proof (fltb_trans _ _ _ E E') as H. by rewrite fltb_irrefl in H.
Qed.

Lemma kept_all_but_one (baselines ks : list F) : kept baselines = Ok ks →
  ks = baselines ∨ ∃ x, baselines ≡ₚ x :: ks ∧ (MIN_BASELINES ≤ length ks)%nat.
Proof.
  unfold kept. destruct (Nat.leb_spec (length baselines) MIN_BASELINES) as [Hl|Hl]; [intros [= <-]; by left|].
  intros H. apply res_bind_ok in H as (mid & _ & H). apply res_bind_ok in H as (sp & _ & H). injection H as <-.
  case_match; [|by left]. destruct (baselines !! farthest mid baselines) as [x|] eqn:Ex.
  - right. exists x. split.
    + rewrite <- (take_drop_middle _ _ _ Ex) at 1. by rewrite Permutation_middle.
    + rewrite length_app, length_take, length_drop. apply lookup_lt_Some in Ex. unfold MIN_BASELINES in *. lia.
  - left. apply lookup_ge_None in Ex. rewrite take_ge, drop_ge by lia. apply app_nil_r.
Qed.
End bar.

(** ** A gain, its retest and a fix on it, at doubles

    The fix is at the bar: its exact loss is 1.2 percent and a little more, the double is -1.2 and the fix lands. *)
Module RuleDemo.
Definition fl (n : Z) (d : positive) : binary64 := f_lit n d.
Definition b : InferenceXBaseline binary64 := {| ib_bar_pct := fl 12 10; ib_accuracy := fl 9 10 |}.
Definition root := root_values b (fl 900 1).
Definition reading (t s : binary64) (n : Z) : InferenceXReading binary64 :=
  {| ix_throughput := t; ix_accuracy := Some s; ix_dropped := n; ix_long_context_dropped := false |}.
Definition r1 := reading (fl 945 1) (fl 9 10) 0.
Definition r2 := reading (fl 930 1) (fl 88 100) 0.
Definition dropping := reading (fl 930 1) (fl 88 100) 2.
Definition get (x : res (Judgement binary64)) : Judgement binary64 :=
  match x with Ok j => j | Raise _ => judgement V_FLAT fzero fzero [] [] A_FAILED [] end.
Definition j1 := Eval vm_compute in get (compare r1 b root "t1").
Definition j2 := Eval vm_compute in get (confirm j1 r2 b root "t2").
(** A fix on the new head of 937.5, at the bar. *)
Definition r3 := reading (fl 92625 100) (fl 87 100) 0.
Definition j3 := Eval vm_compute in get (compare r3 b (ju_recorded_value j2) "t3").
End RuleDemo.

Lemma settled_verdict_witness :
  compare RuleDemo.r1 RuleDemo.b RuleDemo.root "t1" = Ok RuleDemo.j1 ∧
  settled RuleDemo.b (RuleDemo.fl 900 1) RuleDemo.r1 RuleDemo.dropping = V_INCONCLUSIVE ∧
  settled RuleDemo.b (RuleDemo.fl 900 1) RuleDemo.dropping RuleDemo.dropping = V_BLOCKED ∧
  ju_verdict RuleDemo.j2 = settled RuleDemo.b (RuleDemo.fl 900 1) RuleDemo.r1 RuleDemo.r2.
Proof.
  split_and!; [vm_compute; reflexivity..|].
  apply (settled_verdict RuleDemo.r1 RuleDemo.r2 RuleDemo.b RuleDemo.root (RuleDemo.fl 900 1) "t1" "t2" RuleDemo.j1);
    vm_compute; reflexivity.
Defined.


(** The spread of three root tests as CPython computes it, and the slow one the bar leaves out. *)
Example bar_examples :
  let fl := λ n, f_of_Z (F := binary64) n in
  let shown x := match x with Ok v => frepr v | Raise _ => "" end in
  (shown (threshold_pct [fl 1000%Z; fl 1010%Z; fl 990%Z]), shown (threshold_pct [fl 100%Z; fl 100%Z; fl 82%Z]),
   match kept [fl 100%Z; fl 100%Z; fl 82%Z] with Ok l => frepr <$> l | Raise _ => [] end)
  = ("2.0", "0.6", ["100.0"; "100.0"]).
Proof. vm_compute. reflexivity. Qed.
