(* ===== verification/AgentXRule.v ===== *)
(** * The AgentX rule

    [rulegate/agentx.py] and the AgentX part of [rulegate/accuracy.py]: the bar on median interactivity, its guards and
    the checks that both runs measured the same work.  One measurement settles a candidate, unless a defect holds back
    a gain; then a retest tells whether the defect is real, and lands nothing. *)

From stdpp Require Import base list strings pretty sets.
From Stdlib Require Import ZArith QArith Lqa Lia.
From S2P Require Import Prelude PyFloat Rounding PyVal Dicts TestRequests ForkContracts GradedMetrics.

Definition P50_BELOW_THRESHOLD : string := "p50_gain_below_threshold".
Definition _EXTRA_FAILED_REQUESTS : string := "extra_failed_requests".
Definition GRADED_SHORT_REQUESTS : string := "graded_short_requests".
Definition _GUARDS : list (string * string) := [("p90_regressed", GRADED_INTVTY); ("output_regressed", GRADED_OUTPUT)].
Definition _RECORDED_AXES : list string :=
  [GRADED_INTVTY_P50; GRADED_INTVTY; GRADED_OUTPUT; GRADED_DURATION; GRADED_ERROR_RATE; GRADED_UNSERVED_REQUESTS;
   GRADED_SHORT_REQUESTS; GRADED_REQUESTS_TOTAL].

Section rule.
Context {F : Type} `{!FloatOps F} (noise : F).
Local Notation metrics := (list (string * F)).
Local Open Scope float_scope.
Implicit Types (candidate parent retest : metrics) (first : Judgement F).

Definition measured (passed : bool) : AccuracyVerdict := if passed then A_PASSED else A_FAILED.

Definition agentx_accuracy_ok (error_rate_pct : option F) : bool :=
  match finite_score error_rate_pct with Some rate => rate <=? AGENTX_ERROR_RATE_THRESHOLD_PCT | None => false end.

Record _Reading := { rd_gain : F; rd_defects : list string; rd_incomparable : string; rd_accuracy_ok : bool }.
Definition cleared (r : _Reading) : bool := AGENTX_KEEP_P50_THRESHOLD_PCT <=? rd_gain r.
Definition blocked (r : _Reading) : bool :=
  cleared r && String.eqb (rd_incomparable r) "" && (negb (bool_decide (rd_defects r = [])) || negb (rd_accuracy_ok r)).
Definition refused_by (r : _Reading) : list string :=
  let reasons := rd_defects r ++ (if String.eqb (rd_incomparable r) "" then [] else [rd_incomparable r]) in
  if cleared r then reasons else reasons ++ [P50_BELOW_THRESHOLD].

Definition _guard_holds candidate parent (key : string) : bool :=
  din key candidate && din key parent && holds_within_band noise candidate parent key.
Definition _more_unserved candidate parent : bool :=
  match dget GRADED_UNSERVED_REQUESTS candidate, dget GRADED_UNSERVED_REQUESTS parent with
  | Some c, Some p => p <? c
  | _, _ => true
  end.

Definition _read candidate parent : res _Reading :=
  let p50 := axis_of candidate GRADED_INTVTY_P50 in
  let parent_p50 := axis_of parent GRADED_INTVTY_P50 in
  match gain_pct (Some p50) parent_p50 with
  | None => Raise (ValueError ("cannot compare a P50 of " +:+ frepr p50 +:+ " against a parent P50 of " +:+ frepr parent_p50))
  | Some gain =>
      let broken := fst <$> filter (λ g, _guard_holds candidate parent g.2 = false) _GUARDS in
      let reason := incomparability_reason candidate parent in
      let extra := String.eqb reason _EXTRA_FAILED_REQUESTS in
      Ok {| rd_gain := gain;
            rd_defects := broken ++ (if extra && _more_unserved candidate parent then [_EXTRA_FAILED_REQUESTS] else []);
            rd_incomparable := if extra then "" else reason;
            rd_accuracy_ok := agentx_accuracy_ok (dget GRADED_ERROR_RATE candidate) |}
  end.

Definition _recorded candidate : metrics :=
  omap (λ key, match dget key candidate with Some v => Some (key, v) | None => None end) _RECORDED_AXES.

Definition judgement (v : Verdict) (gain : F) (ids : list string) (recorded : metrics) (a : AccuracyVerdict)
    (refused : list string) : Judgement F :=
  {| ju_verdict := v; ju_gain_pct := gain; ju_threshold_pct := AGENTX_KEEP_P50_THRESHOLD_PCT; ju_request_ids := ids;
     ju_recorded_value := recorded; ju_accuracy := a; ju_refused_by := refused; ju_fixes_correctness := false;
     ju_foundation_fix := false |}.

Definition verdict_of (r : _Reading) : Verdict :=
  if blocked r then V_NEEDS_CONFIRM
  else if negb (String.eqb (rd_incomparable r) "") || negb (bool_decide (rd_defects r = []))
          || (rd_gain r <=? fzero - AGENTX_KEEP_P50_THRESHOLD_PCT) then V_REGRESSED
  else if cleared r then V_IMPROVED
  else V_FLAT.
Definition compare candidate parent (request_id : string) : res (Judgement F) :=
  r ← _read candidate parent;
  Ok (judgement (verdict_of r) (rd_gain r) [request_id] (_recorded candidate) (measured (rd_accuracy_ok r)) (refused_by r)).

Definition confirm first retest parent (request_id : string) : res (Judgement F) :=
  if negb (bool_decide (ju_verdict first = V_NEEDS_CONFIRM))
  then Raise (ValueError ("only a provisional judgement is retested, not a " +:+ verdict_value (ju_verdict first) +:+ " one"))
  else
    r ← _read retest parent;
    let recorded := omap (λ '(key, value), match dget key (ju_recorded_value first) with
                                           | Some v => Some (key, (value + v) / f_of_Z 2)
                                           | None => None
                                           end) (_recorded retest) in
    Ok (judgement (if blocked r then V_BLOCKED else V_INCONCLUSIVE) ((ju_gain_pct first + rd_gain r) / f_of_Z 2)
          (ju_request_ids first ++ [request_id]) recorded
          (measured (negb (bool_decide (ju_accuracy first = A_FAILED)) && rd_accuracy_ok r))
          (dict_fromkeys [] (ju_refused_by first ++ refused_by r))).

Lemma compare_read candidate parent id j : compare candidate parent id = Ok j →
  ∃ r, _read candidate parent = Ok r ∧ ju_verdict j = verdict_of r ∧ ju_accuracy j = measured (rd_accuracy_ok r) ∧
       ju_fixes_correctness j = false.
Proof. unfold compare. destruct (_read candidate parent) as [r|]; [|done]. intros [= <-]. by exists r. Qed.
End rule.
#[global] Arguments _Reading : clear implicits.

(** ** What an AgentX candidate is committed on

    The reference, in the numbers of the two runs.  Percentages, products and sums are what the float operations give, so
    the conditions are the program's at its doubles; [axis_of] reads an entry of zero as 0. *)
Section reference.
Context {F : Type} `{!FloatOps F, !FloatOrder F, !FloatRounds F} (noise : F).
Implicit Types candidate parent : list (string * F).
Local Open Scope float_scope.

(** The candidate's [key] is reported on both sides and at most the noise band below the parent's. *)
Definition guard_kept candidate parent (key : string) : Prop :=
  is_Some (dget key candidate) ∧ is_Some (dget key parent) ∧
  (axis_of parent key <=? fzero = true ∨ axis_of parent key * (f_of_Z 1 - noise / f_of_Z 100) <=? axis_of candidate key = true).
(** The candidate's window drifts at most five percent from the parent's. *)
Definition same_window candidate parent : Prop :=
  is_Some (dget GRADED_DURATION candidate) ∧ axis_of parent GRADED_DURATION <=? fzero = false ∧
  f_of_Z 5 <? fabs (axis_of candidate GRADED_DURATION / axis_of parent GRADED_DURATION - f_of_Z 1) * f_of_Z 100 = false.
(** Failures are reported on both sides, and are within the slack or leave no more requests unserved. *)
Definition failures_kept candidate parent : Prop :=
  ∃ c p, _failure_rates_pct candidate parent = Some (c, p) ∧
         (p + f_lit 5 10 <? c = false ∨ _more_unserved candidate parent = false).
Definition served candidate : Prop :=
  ∃ e, dget GRADED_ERROR_RATE candidate = Some e ∧ f_isfinite e = true ∧ e <=? f_of_Z 10 = true.

Lemma din_is_Some (d : list (string * F)) key : din key d = true ↔ is_Some (dget key d).
Proof. unfold din. destruct (dget key d); [by split|]. split; [done|by intros [? [=]]]. Qed.
Lemma guard_holds_iff candidate parent key : _guard_holds noise candidate parent key = true ↔ guard_kept candidate parent key.
Proof.
  unfold _guard_holds, guard_kept, holds_within_band, _within_band. rewrite !andb_true_iff, !din_is_Some.
  fold (_PERCENT (F := F)). destruct (axis_of parent key <=? fzero); [tauto|]. intuition congruence.
Qed.

(** Why a pair is not comparable, in the reference's terms. *)
Lemma window_cases candidate parent :
  (same_window candidate parent ∧ ∃ c p, _failure_rates_pct candidate parent = Some (c, p) ∧
     (incomparability_reason candidate parent = "" ∧ p + f_lit 5 10 <? c = false ∨
      incomparability_reason candidate parent = _EXTRA_FAILED_REQUESTS ∧ p + f_lit 5 10 <? c = true)) ∨
  ((incomparability_reason candidate parent = "comparability_inputs_missing" ∨
    incomparability_reason candidate parent = "duration_drift") ∧
   ¬ (same_window candidate parent ∧ is_Some (_failure_rates_pct candidate parent))).
Proof.
  unfold incomparability_reason, same_window. rewrite <- din_is_Some.
  destruct (_failure_rates_pct candidate parent) as [[cr pr]|]; [|by right; split; [left|intros [_ [? [=]]]]].
  destruct (din GRADED_DURATION candidate); cbn [negb orb]; [|right; split; [by left|by intros [[? _] _]]].
  destruct (axis_of parent GRADED_DURATION <=? fzero); [right; split; [by left|by intros [(_ & ? & _) _]]|].
  fold (DURATION_DRIFT_PCT (F := F)) (_PERCENT (F := F)) (ERROR_RATE_SLACK_PCT (F := F)).
  destruct (DURATION_DRIFT_PCT <? _); [right; split; [by right|by intros [(_ & _ & ?) _]]|].
  left. split; [done|]. exists cr, pr. split; [done|]. destruct (_ <? cr); auto.
Qed.

(** A reading without a defect and comparable is one whose guards, window and failures are kept. *)
Definition clean candidate parent : Prop :=
  guard_kept candidate parent GRADED_INTVTY ∧ guard_kept candidate parent GRADED_OUTPUT ∧
  same_window candidate parent ∧ failures_kept candidate parent.

Lemma broken_guards (P : string → bool) :
  fst <$> filter (λ g : string * string, P g.2 = false) _GUARDS
  = (if P GRADED_INTVTY then [] else ["p90_regressed"]) ++ (if P GRADED_OUTPUT then [] else ["output_regressed"]).
Proof. unfold _GUARDS. rewrite !filter_cons. cbn [snd]. by destruct (P GRADED_INTVTY), (P GRADED_OUTPUT). Qed.

Lemma read_clean candidate parent r : _read noise candidate parent = Ok r →
  rd_incomparable r = "" ∧ rd_defects r = [] ↔ clean candidate parent.
Proof.
  unfold _read. destruct (gain_pct _ _) as [g|]; [|done]. intros [= <-]. cbn [rd_incomparable rd_defects].
  unfold clean. rewrite <- !guard_holds_iff, (broken_guards (_guard_holds noise candidate parent)). unfold failures_kept.
  destruct (_guard_holds _ _ _ GRADED_INTVTY), (_guard_holds _ _ _ GRADED_OUTPUT); cbn;
    try (split; [by intros [_ [=]]|by intros (?&?&_)]).
  destruct (window_cases candidate parent) as [(Hw & c & p & Hr & [[-> Hle]|[-> Hlt]])|([-> | ->] & Hno)]; rewrite ?Hr; cbn.
  - split; [|done]. intros _. split_and!; [done|done|apply Hw..|]. exists c, p. auto.
  - destruct (_more_unserved candidate parent) eqn:E.
    + split; [by intros [_ [=]]|]. intros (_ & _ & _ & c' & p' & [= <- <-] & [H|H]); congruence.
    + split; [|done]. intros _. split_and!; [done|done|apply Hw..|]. exists c, p. auto.
  - split; [by intros [[=] _]|]. intros (_ & _ & ? & c' & p' & E & _). exfalso. apply Hno. split; [done|by eexists].
  - split; [by intros [[=] _]|]. intros (_ & _ & ? & c' & p' & E & _). exfalso. apply Hno. split; [done|by eexists].
Qed.

Lemma served_iff candidate : agentx_accuracy_ok (dget GRADED_ERROR_RATE candidate) = true ↔ served candidate.
Proof.
  unfold agentx_accuracy_ok, served, finite_score. destruct (dget GRADED_ERROR_RATE candidate) as [e|]; [|by split; [|intros (? & [=] & _)]].
  destruct (f_isfinite e) eqn:E; [split; [intros H; by exists e|by intros (? & [= <-] & _ & ?)]|].
  split; [done|]. intros (? & [= <-] & ? & _). congruence.
Qed.

(** The gain of the candidate's median over the parent's. *)
Definition median_gain candidate parent : F := percent (axis_of candidate GRADED_INTVTY_P50) (axis_of parent GRADED_INTVTY_P50).
Lemma read_gain candidate parent r : _read noise candidate parent = Ok r →
  rd_gain r = median_gain candidate parent ∧ rd_accuracy_ok r = agentx_accuracy_ok (dget GRADED_ERROR_RATE candidate).
Proof. unfold _read, gain_pct. destruct (_ || _); [done|]. by intros [= <-]. Qed.

Lemma gain_not_loss (g : F) : f_of_Z 3 <=? g = true → g <=? fzero - f_of_Z 3 = false.
Proof.
  intros H. destruct (g <=? fzero - f_of_Z 3) eqn:E; [|done]. pose proof (fleb_trans _ _ _ H E) as Hx.
  destruct (opp_exact (f_of_Z 3 : F) (of_Z_double 3 ltac:(lia))) as [Hd Ev].
  apply leb_values in Hx; [|by apply of_Z_double|done]. rewrite Ev, of_Z_value in Hx by lia. by compute in Hx.
Qed.

End reference.

(** ** A gain, a fix, and runs that are refused *)
Module AgentDemo.
Definition fl (n : Z) : binary64 := f_of_Z n.
Definition run (p50 p90 output seconds : Z) (errors : binary64) : list (string * binary64) :=
  [(GRADED_INTVTY_P50, fl p50); (GRADED_INTVTY, fl p90); (GRADED_OUTPUT, fl output); (GRADED_DURATION, fl seconds);
   (GRADED_ERROR_RATE, errors)].
Definition parent := run 100 50 1000 600 (fl 1).
Definition gain := run 104 49 990 605 (f_lit 12 10).
Definition fix_ := run 98 49 990 605 (fl 1).
Definition cut_short := run 130 60 1200 300 (fl 1).
(** Five percent longer, and a drift that rounds above five. *)
Definition longer := run 104 49 990 630 (fl 1).
Definition get (x : res (Judgement binary64)) : Judgement binary64 :=
  match x with Ok j => j | Raise _ => judgement V_INCONCLUSIVE fzero [] [] A_FAILED [] end.
Definition judged c := get (compare (fl 5) c parent "t1").
End AgentDemo.

