(* ===== verification/Judging.v ===== *)
(** * Judging a branch's candidates

    [rulegate/readings.py] (what a rule compares, read from a measured test), [rulegate/rules.py] (the rules of the two
    workloads over test records), [rulegate/baseline.py] (the root's record), and the judgement part of
    [specialist/judging.py] and [specialist/fix_check.py]: the step the branch's judge takes for a measured candidate.

    A test result has the fields judging reads; what its construction checks is taken as checked.  The branch log is the
    notice a step gives.  The repro tests and the critic of a fix are arguments. *)

From stdpp Require Import base list strings pretty sets.
From Stdlib Require Import ZArith QArith Lia.
From S2P Require Import Prelude PyFloat PyVal Dicts TestRequests ForkContracts GradedMetrics InferenceXRule AgentXRule.

Inductive Validity := SUCCEEDED | CANDIDATE_FAILED | MEASUREMENT_FAILED.
#[global] Instance Validity_eq_dec : EqDecision Validity.
Proof. solve_decision. Defined.
Definition Validity_value (v : Validity) : string :=
  match v with SUCCEEDED => "succeeded" | CANDIDATE_FAILED => "candidate_failed" | MEASUREMENT_FAILED => "measurement_failed" end.
Inductive RoundPhase := WARMUP | MEASURE.
#[global] Instance RoundPhase_eq_dec : EqDecision RoundPhase.
Proof. solve_decision. Defined.

Section judging.
Context {F : Type} `{!FloatOps F, !FloatExact F} {D : Type} `{!EqDecision D}.
Local Notation metrics := (list (string * F)).

Record RoundValue := {
  rv_phase : RoundPhase;
  rv_concurrency : option Z;
  rv_metrics : metrics;
  rv_failed_requests : option Z
}.
Record AccuracyValue := { av_task : string; av_metric : string; av_score : F }.
Record RequestClasses := {
  rc_requests_total : option Z;
  rc_failed_transport : option Z;
  rc_failed_empty : option Z;
  rc_failed_short : option Z
}.
Record TestResult := {
  re_request_id : string;
  re_validity : Validity;
  re_failure_reason : option string;
  re_rounds : list RoundValue;
  re_accuracy : list AccuracyValue;
  re_node_name : option string;
  re_request_classes : list RequestClasses;
  re_long_context : option (LongContextResult F)
}.
Record TestRecord := {
  rd_request : TestRequest D;
  rd_result : option TestResult;
  rd_requested_at : F;
  rd_withdrawn : bool;
  rd_withdrawal_reason : string
}.
Implicit Types (result : TestResult) (record retest : TestRecord) (c : Z) (round : RoundValue) (parent : metrics).

Definition record_id record : string := default "" (tr_request_id (rd_request record)).
Definition in_flight record : bool := negb (bool_decide (is_Some (rd_result record))) && negb (rd_withdrawn record).

(** ** Readings ([rulegate/readings.py]) *)

Definition _require_measurement result : res unit :=
  raise_if (negb (bool_decide (re_validity result = SUCCEEDED)))
    (UnreadableResult (re_request_id result +:+ " is " +:+ Validity_value (re_validity result) +:+ ", not a measurement")).
Definition _measured result : res (list RoundValue) :=
  _ ← _require_measurement result; Ok (filter (λ r, rv_phase r = MEASURE) (re_rounds result)).
Definition _graded result c : res (list RoundValue) :=
  rounds ← _measured result;
  match filter (λ r, rv_concurrency r = Some c) rounds with
  | [] => Raise (UnreadableResult (re_request_id result +:+ " has no measure-phase round at concurrency " +:+ pretty c))
  | graded => Ok graded
  end.

Definition dropped_requests result c : res Z :=
  rounds ← _graded result c;
  let counts := omap rv_failed_requests rounds in
  if (length counts <? length rounds)%nat
  then Raise (UnreadableResult (re_request_id result +:+ " does not count the requests it dropped in "
                                +:+ pretty (length rounds - length counts)%nat +:+ " of its rounds"))
  else Ok (zsum counts).

Definition by_task (values : list AccuracyValue) : list (string * metrics) :=
  foldl (λ d v, dset (av_task v) (dset (av_metric v) (av_score v) (default [] (dget (av_task v) d))) d) [] values.
Fixpoint first_metric (names : list string) (scores : metrics) : option F :=
  match names with
  | [] => None
  | m :: names' => match dget m scores with Some s => Some s | None => first_metric names' scores end
  end.
Fixpoint first_task (tasks : list (string * metrics)) : option F :=
  match tasks with
  | [] => None
  | (_, scores) :: tasks' =>
      match first_metric ACCURACY_METRICS scores with Some s => Some s | None => first_task tasks' end
  end.
Definition eval_score result : res F :=
  _ ← _require_measurement result;
  match first_task (by_task (re_accuracy result)) with
  | Some s => Ok s
  | None => Raise (UnreadableResult (re_request_id result +:+ " has no eval score of " +:+ String.concat ", " ACCURACY_METRICS))
  end.

Definition _graded_throughput result c : res F :=
  rounds ← _graded result c;
  let missing := filter (λ r, dget GRADED_OUTPUT (rv_metrics r) = None) rounds in
  match missing with
  | [] => fmean (omap (λ r, dget GRADED_OUTPUT (rv_metrics r)) rounds)
  | _ => Raise (UnreadableResult (re_request_id result +:+ " reports no " +:+ GRADED_OUTPUT +:+ " in "
                                  +:+ pretty (length missing) +:+ " of its rounds"))
  end.

(** [InferenceXReading(throughput, score)], its [ValueError] raised as unreadable *)
Definition _inferencex result (throughput : F) (score : option F) : res (InferenceXReading F) :=
  match reading_init {| ix_throughput := throughput; ix_accuracy := score; ix_dropped := 0; ix_long_context_dropped := false |} with
  | Raise (ValueError msg) => Raise (UnreadableResult (re_request_id result +:+ ": " +:+ msg))
  | r => r
  end.
Definition inferencex_reading result c : res (InferenceXReading F) :=
  t ← _graded_throughput result c; s ← eval_score result; _inferencex result t (Some s).
Definition unscored_reading result c : res (InferenceXReading F) :=
  t ← _graded_throughput result c; _inferencex result t None.

Definition all_some (l : list (option Z)) : option (list Z) :=
  if forallb (λ x, bool_decide (is_Some x)) l then Some (omap (λ x, x) l) else None.
Definition _request_classes (classes : list RequestClasses) (measured : nat) : res metrics :=
  if negb (length classes =? measured)%nat then Ok []
  else
    let total := match all_some (rc_requests_total <$> classes) with
                 | Some l => [(GRADED_REQUESTS_TOTAL, f_of_Z (zsum l))]
                 | None => []
                 end in
    match all_some (rc_failed_empty <$> classes), all_some (rc_failed_transport <$> classes) with
    | Some empty, Some transport =>
        match all_some (rc_failed_short <$> classes) with
        | Some short => Ok (total ++ [(GRADED_UNSERVED_REQUESTS, f_of_Z (zsum transport + zsum empty));
                                      (GRADED_SHORT_REQUESTS, f_of_Z (zsum short))])
        | None => Raise (TypeError "unsupported operand type(s) for +: 'int' and 'NoneType'")
        end
    | _, _ => Ok total
    end.

Definition shared_metrics (rounds : list RoundValue) : list string :=
  match rounds with
  | [] => []
  | r :: rest => filter (λ k, forallb (λ r', din k (rv_metrics r')) rest = true) (rv_metrics r).*1
  end.
Definition agentx_reading result : res metrics :=
  rounds ← _measured result;
  if bool_decide (rounds = []) then Raise (UnreadableResult (re_request_id result +:+ " has no measure-phase round"))
  else
    let shared := sorted_set (shared_metrics rounds) in
    if negb (bool_decide (GRADED_INTVTY_P50 ∈ shared))
    then Raise (UnreadableResult (re_request_id result +:+ " does not report " +:+ GRADED_INTVTY_P50
                                  +:+ " in every measure-phase round"))
    else
      reading ← map_res (λ key, m ← fmean (omap (λ r, dget key (rv_metrics r)) rounds); Ok (key, m)) shared;
      classes ← _request_classes (re_request_classes result) (length rounds);
      Ok (dmerge reading classes).

(** ** The rules ([rulegate/rules.py]) *)

(** [Rule]: what the judge asks of a workload's rule. *)
Record Rule := {
  accuracy_round : bool;
  min_baselines : nat;
  confirms_ahead : bool;
  rule_first : TestRecord → metrics → res (Judgement F);
  rule_retest : Judgement F → TestRecord → metrics → res (Judgement F);
  rule_accuracy_passes : TestRecord → res bool
}.
Implicit Types rule : Rule.

Definition _result record : res TestResult :=
  match rd_result record with Some r => Ok r | None => Raise (UnreadableResult (record_id record +:+ " has no result")) end.
(** [ran_accuracy]: the rule's eval round and the request's agree. *)
Definition ran_accuracy (q : TestRequest D) (round : bool) : bool := Bool.eqb (tr_accuracy q) round.

Record BaselineRecord := {
  br_root_commit : string;
  br_values : metrics;
  br_dispersion_pct : metrics;
  br_threshold_pct : metrics;
  br_request_ids : list string
}.
Definition read_inferencex_baseline (current : BaselineRecord) : res (InferenceXBaseline F) :=
  bar ← entry (br_threshold_pct current) GRADED_OUTPUT;
  accuracy ← entry (br_values current) ACCURACY_SCORE;
  baseline_init {| ib_bar_pct := bar; ib_accuracy := accuracy |}.

(** [InferenceXRule._candidate] *)
Definition inferencex_candidate c record : res (InferenceXReading F) :=
  result ← _result record;
  dropped ← dropped_requests result c;
  let long := match re_long_context result with Some l => refuses (Some l) (lc_root l) | None => false end in
  let skipped := bool_decide (tr_purpose (rd_request record) = P_EXPLORE) && negb (ran_accuracy (rd_request record) true) in
  r ← (if skipped then unscored_reading result c else inferencex_reading result c);
  reading_init {| ix_throughput := ix_throughput r; ix_accuracy := ix_accuracy r; ix_dropped := dropped;
                  ix_long_context_dropped := long |}.

(** [InferenceXRule], over the blackboard's baseline *)
Definition inferencex_rule (baseline : res BaselineRecord) c : Rule := {|
  accuracy_round := true;
  min_baselines := MIN_BASELINES;
  confirms_ahead := true;
  rule_first := λ record parent,
    current ← baseline; b ← read_inferencex_baseline current; r ← inferencex_candidate c record;
    InferenceXRule.compare r b parent (record_id record);
  rule_retest := λ first record parent,
    current ← baseline; b ← read_inferencex_baseline current; r ← inferencex_candidate c record;
    InferenceXRule.confirm first r b parent (record_id record);
  rule_accuracy_passes := λ record,
    current ← baseline; b ← read_inferencex_baseline current; result ← _result record; s ← eval_score result;
    Ok (inferencex_accuracy_ok (ib_accuracy b) (Some s))
|}.

(** [AgentXRule] *)
Definition agentx_rule (noise : F) : Rule := {|
  accuracy_round := false;
  min_baselines := 1;
  confirms_ahead := false;
  rule_first := λ record parent,
    result ← _result record; m ← agentx_reading result; AgentXRule.compare noise m parent (record_id record);
  rule_retest := λ first record parent,
    result ← _result record; m ← agentx_reading result; AgentXRule.confirm noise first m parent (record_id record);
  rule_accuracy_passes := λ record,
    result ← _result record; m ← agentx_reading result; Ok (agentx_accuracy_ok (dget GRADED_ERROR_RATE m))
|}.

(** [repeats]: the same change and files on the same parent, with the rule's eval round *)
Definition repeats retest first rule : bool :=
  bool_decide (tr_parent_commit (rd_request retest) = tr_parent_commit (rd_request first))
  && bool_decide (tr_delta (rd_request retest) = tr_delta (rd_request first))
  && bool_decide (tr_attachments (rd_request retest) = tr_attachments (rd_request first))
  && ran_accuracy (rd_request retest) (accuracy_round rule).

Definition retest_request first rule : TestRequest D :=
  let q := rd_request first in
  let node := match rd_result first with Some r => re_node_name r | None => None end in
  {| tr_kind := K_TEST; tr_purpose := P_CONFIRM; tr_branch_id := tr_branch_id q; tr_parent_commit := tr_parent_commit q;
     tr_delta := tr_delta q; tr_intent_fingerprint := None; tr_priority := None; tr_retest_of := tr_request_id q;
     tr_avoid_nodes := match node with Some n => if String.eqb n "" then [] else [n] | None => [] end;
     tr_accuracy := accuracy_round rule; tr_concurrency := tr_concurrency q; tr_attachments := tr_attachments q;
     tr_request_id := None; tr_diff_ref := ""; tr_consistency_check := tr_consistency_check q;
     tr_long_context_check := None |}.

(** ** The root's record ([rulegate/baseline.py]) *)

Definition _root_result record (root_commit : string) : res TestResult :=
  _ ← raise_if (negb (bool_decide (tr_purpose (rd_request record) = P_BASELINE))
                || negb (String.eqb (tr_parent_commit (rd_request record)) root_commit))
        (ValueError (record_id record +:+ " is not a baseline test of the root " +:+ root_commit));
  match rd_result record with
  | Some r => Ok r
  | None => Raise (UnreadableResult (record_id record +:+ " has no result yet"))
  end.

(** [write_inferencex_baseline]: the record it writes *)
Definition inferencex_baseline_record `{!FloatSqrt F} (root_commit : string) (baselines : list TestRecord) c :
    res BaselineRecord :=
  results ← map_res (λ r, _root_result r root_commit) baselines;
  readings ← map_res (λ r, inferencex_reading r c) results;
  let throughputs := ix_throughput <$> readings in
  _ ← dispersion_init throughputs;
  ks ← kept throughputs;
  accuracy ← baseline_accuracy (ix_accuracy <$> readings);
  value ← fmean ks;
  spread ← spread_pct throughputs;
  bar ← threshold_pct throughputs;
  Ok {| br_root_commit := root_commit; br_values := [(GRADED_OUTPUT, value); (ACCURACY_SCORE, accuracy)];
        br_dispersion_pct := [(GRADED_OUTPUT, spread)]; br_threshold_pct := [(GRADED_OUTPUT, bar)];
        br_request_ids := record_id <$> baselines |}.

Definition _AGENTX_REQUIRED : list string :=
  [GRADED_INTVTY_P50; GRADED_INTVTY; GRADED_OUTPUT; GRADED_DURATION; GRADED_ERROR_RATE].
(** [write_agentx_baseline] and [_agentx_record] *)
Definition agentx_baseline_record (root_commit : string) (baseline : TestRecord) : res BaselineRecord :=
  result ← _root_result baseline root_commit;
  reading ← agentx_reading result;
  let missing := filter (λ k, din k reading = false) _AGENTX_REQUIRED in
  _ ← raise_if (negb (bool_decide (missing = [])))
        (UnreadableResult ("the AgentX baseline does not report " +:+ String.concat ", " missing));
  Ok {| br_root_commit := root_commit; br_values := sort_by (λ a b, String.leb a.1 b.1) reading; br_dispersion_pct := [];
        br_threshold_pct := [(GRADED_INTVTY_P50, AGENTX_KEEP_P50_THRESHOLD_PCT)];
        br_request_ids := [record_id baseline] |}.

(** ** The judge's step for a measured candidate ([specialist/judging.py]) *)

Definition _succeeded record : bool :=
  match rd_result record with Some r => bool_decide (re_validity r = SUCCEEDED) | None => false end.
Definition _failed_as_candidate record : bool :=
  match rd_result record with Some r => bool_decide (re_validity r = CANDIDATE_FAILED) | None => false end.
Definition _ended record : string :=
  match rd_result record with
  | None => "was withdrawn (" +:+ rd_withdrawal_reason record +:+ ")"
  | Some r => "ended " +:+ Validity_value (re_validity r) +:+ " ("
              +:+ match re_failure_reason r with Some x => if String.eqb x "" then "no reason given" else x
                                               | None => "no reason given" end +:+ ")"
  end.
Definition _failed_retest (first : Judgement F) retest : Judgement F :=
  {| ju_verdict := V_REGRESSED; ju_gain_pct := ju_gain_pct first; ju_threshold_pct := ju_threshold_pct first;
     ju_request_ids := ju_request_ids first ++ [record_id retest]; ju_recorded_value := ju_recorded_value first;
     ju_accuracy := ju_accuracy first; ju_refused_by := ju_refused_by first ++ [Validity_value CANDIDATE_FAILED];
     ju_fixes_correctness := false; ju_foundation_fix := false |}.

(** [max(records, key=requested_at)]: the first of the latest. *)
Fixpoint latest (best : TestRecord) (l : list TestRecord) : TestRecord :=
  match l with
  | [] => best
  | r :: l' => latest (if fltb (rd_requested_at best) (rd_requested_at r) then r else best) l'
  end.

(** What the judge does next: wait for a retest, close the candidate with a notice, settle a failed retest as
    regressed, or settle a judgement. *)
Inductive Step :=
| WAIT
| UNJUDGED (notice : string)
| SETTLE_FAILED (notice : string) (j : Judgement F)
| SETTLE (j : Judgement F).

(** The body of [_judge]'s [try] *)
Definition judge_body rule (first : TestRecord) (retests : list TestRecord) (recorded : res metrics) : res Step :=
  parent ← recorded;
  j ← rule_first rule first parent;
  match bool_decide (ju_verdict j = V_NEEDS_CONFIRM), retests with
  | true, r0 :: rest =>
      match filter (λ r, _succeeded r = true) retests with
      | m :: ms => j' ← rule_retest rule j (latest m ms) parent; Ok (SETTLE j')
      | [] =>
          if existsb in_flight retests then Ok WAIT
          else
            let last := latest r0 rest in
            if negb (_failed_as_candidate last)
            then Ok (UNJUDGED ("the retest of " +:+ record_id first +:+ " " +:+ _ended last +:+ "; nothing was judged"))
            else Ok (SETTLE_FAILED ("the retest of " +:+ record_id first +:+ " " +:+ _ended last +:+ "; recorded as regressed")
                       (_failed_retest j last))
      end
  | _, _ => Ok (SETTLE j)
  end.
(** [_judge] up to the gate *)
Definition judge rule (first : TestRecord) (retests : list TestRecord) (recorded : res metrics) : res Step :=
  match judge_body rule first (filter (λ r, repeats r first rule = true) retests) recorded with
  | Raise (UnreadableResult msg) | Raise (NotRecorded msg) =>
      Ok (UNJUDGED (record_id first +:+ " cannot be judged: " +:+ msg))
  | r => r
  end.

(** ** Correctness fixes ([specialist/fix_check.py]) *)

Definition FIX_CASE_ID : string := "repro-case".
Definition declares_fix (q : TestRequest D) (j : Judgement F) : bool :=
  existsb (λ a, String.eqb (at_id a) FIX_CASE_ID) (tr_attachments q)
  && bool_decide (ju_verdict j ∈ [V_FLAT; V_REGRESSED; V_IMPROVED]) && bool_decide (ju_accuracy j = A_PASSED).
(** What checking a declared fix found: whether its case is usable, the proof (and whether the root fails it too),
    whether the critic could be asked, and its answer. *)
Record FixFound := { ff_case : bool; ff_proof : option bool; ff_reviewable : bool; ff_reachable : bool }.
(** [check_fix]: the judgement it settles with, and whether there is a proof to register the case from. *)
Definition check_fix (found : FixFound) (j : Judgement F) : Judgement F * bool :=
  if negb (ff_case found) then (j, false)
  else match ff_proof found with
       | None => (j, false)
       | Some foundation =>
           if bool_decide (ju_verdict j = V_IMPROVED) then (j, true)
           else if negb (ff_reviewable found) then (j, false)
           else if negb (ff_reachable found) then (j, false)
           else (as_fix foundation j, true)
       end.
(** The judgement [_settle] hands the gate; [None] is a session that checks no fixes. *)
Definition settled_judgement (fixes : option FixFound) (q : TestRequest D) (j : Judgement F) : Judgement F * bool :=
  if declares_fix q j then match fixes with Some found => check_fix found j | None => (j, false) end else (j, false).

(** ** A retest is asked for once *)

(** What the judge relies on of a rule: a retest settles. *)
Record RuleLaws rule : Prop := {
  retest_settles j record parent j' : rule_retest rule j record parent = Ok j' → ju_verdict j' ≠ V_NEEDS_CONFIRM
}.

Lemma inferencex_laws baseline c : RuleLaws (inferencex_rule baseline c).
Proof.
  split. cbn. intros j record parent j' H. apply res_bind_ok in H as (current & _ & H).
  apply res_bind_ok in H as (b & _ & H). apply res_bind_ok in H as (r & _ & H).
  unfold InferenceXRule.confirm in H. inv_res H; subst; cbn; by repeat case_match.
Qed.
Lemma agentx_laws noise : RuleLaws (agentx_rule noise).
Proof.
  split. cbn. intros j record parent j' H. apply res_bind_ok in H as (result & _ & H).
  apply res_bind_ok in H as (m & _ & H). unfold AgentXRule.confirm in H. destruct (negb _); [done|].
  apply res_bind_ok in H as (r & _ & H). injection H as <-. cbn. by destruct (blocked r).
Qed.

Lemma judge_ok rule first retests recorded s : judge rule first retests recorded = Ok s →
  judge_body rule first (filter (λ r, repeats r first rule = true) retests) recorded = Ok s ∨ ∃ notice, s = UNJUDGED notice.
Proof. unfold judge. destruct (judge_body _ _ _ _) as [s'|[]]; try done; [by left|..]; intros [= <-]; right; by eexists. Qed.

Lemma retest_repeats id first rule record :
  rd_request record = accepted id (retest_request first rule) → repeats record first rule = true.
Proof.
  intros E. unfold repeats, ran_accuracy. rewrite E. cbn. rewrite !bool_decide_eq_true_2 by done. by destruct (accuracy_round rule).
Qed.

Lemma settled_verdict_kept fixes q j : ju_verdict (settled_judgement fixes q j).1 = ju_verdict j.
Proof.
  unfold settled_judgement, check_fix. destruct (declares_fix q j); [|done]. destruct fixes as [found|]; [|done].
  by repeat case_match.
Qed.
Lemma retest_action (j : Judgement F) : decide_action j = RETEST → ju_verdict j = V_NEEDS_CONFIRM.
Proof. unfold decide_action, commit_table. destruct (ju_verdict j); try done; by case_match. Qed.

Lemma settle_provisional rule first retests recorded j : RuleLaws rule →
  judge rule first retests recorded = Ok (SETTLE j) → ju_verdict j = V_NEEDS_CONFIRM →
  filter (λ r, repeats r first rule = true) retests = [].
Proof.
  intros Hr H Hv. apply judge_ok in H as [H|[? [=]]]. unfold judge_body in H.
  apply res_bind_ok in H as (parent & _ & H). apply res_bind_ok in H as (j0 & _ & H).
  destruct (bool_decide_reflect (ju_verdict j0 = V_NEEDS_CONFIRM)) as [Hn|Hn]; [|congruence].
  destruct (filter _ retests) as [|r0 rest]; [done|]. exfalso.
  destruct (filter _ (r0 :: rest)) as [|m ms].
  - by repeat case_match.
  - apply res_bind_ok in H as (j' & H' & [= ->]). by apply (retest_settles _ Hr) in H'.
Qed.

(** The judge asks for one retest of a candidate at most: it asks only while no test repeats the candidate, and the
    retest it asks for, once accepted, repeats it, so with that retest on the blackboard no later step asks again. *)
Theorem retest_asked_once rule first retests recorded j fixes id asked :
  RuleLaws rule → rd_request asked = accepted id (retest_request first rule) →
  judge rule first retests recorded = Ok (SETTLE j) →
  decide_action (settled_judgement fixes (rd_request first) j).1 = RETEST →
  (∀ r, r ∈ retests → repeats r first rule = false) ∧ asked ∉ retests.
Proof.
  intros Hr Ha H Hd. apply retest_action in Hd. rewrite settled_verdict_kept in Hd.
  pose proof (settle_provisional _ _ _ _ _ Hr H Hd) as Hnil.
  assert (∀ r, r ∈ retests → repeats r first rule = false) as Hall.
  { intros r Hin. apply not_true_is_false. intros Hrep.
    assert (r ∈ filter (λ r, repeats r first rule = true) retests) as Hf by (apply list_elem_of_filter; done).
    rewrite Hnil in Hf. by apply elem_of_nil in Hf. }
  split; [done|]. intros Hin. apply Hall in Hin. by rewrite (retest_repeats _ _ _ _ Ha) in Hin.
Qed.
End judging.
#[global] Arguments TestRecord : clear implicits.
#[global] Arguments TestResult : clear implicits.

(** ** What an InferenceX candidate is committed on *)
Section earned.
Context {F : Type} `{!FloatOps F, !FloatOrder F, !FloatExact F} {D : Type} `{!EqDecision D}.
Implicit Types (first retest : TestRecord F D) (parent : list (string * F)).

Lemma latest_elem (m : TestRecord F D) ms : latest m ms ∈ m :: ms.
Proof.
  revert m. induction ms as [|r ms IH]; intros m; cbn [latest]; [left|].
  destruct (fltb _ _); [right; apply IH|].
  specialize (IH m). apply elem_of_cons in IH as [-> |H]; [left|right; by right].
Qed.

(** Two measurements of one change, the second a retest on the blackboard that repeats the first, as readings. *)
Definition confirmed_by (c : Z) (b : InferenceXBaseline F) (base : F) first (retests : list (TestRecord F D)) rule : Prop :=
  ∃ retest r1 r2, retest ∈ retests ∧ repeats retest first rule = true ∧ _succeeded retest = true ∧
    inferencex_candidate c first = Ok r1 ∧ inferencex_candidate c retest = Ok r2 ∧ settled b base r1 r2 = V_IMPROVED.
(** A fix proven by its case and found reachable, on a measurement whose eval passed. *)
Definition proven_fix (fixes : option FixFound) first (j : Judgement F) : Prop :=
  ∃ found foundation, fixes = Some found ∧ ff_proof found = Some foundation ∧ ff_reachable found = true ∧
    declares_fix (rd_request first) j = true ∧ ju_accuracy j = A_PASSED ∧ ju_verdict j = V_FLAT.

Lemma settled_fix fixes first (j : Judgement F) :
  ju_fixes_correctness j = false → ju_verdict j = V_FLAT → ju_fixes_correctness (settled_judgement fixes (rd_request first) j).1 = true →
  ju_accuracy (settled_judgement fixes (rd_request first) j).1 = A_PASSED → proven_fix fixes first j.
Proof.
  intros Hf Hv. unfold settled_judgement, check_fix. destruct (declares_fix _ j) eqn:Ed; [|cbn; congruence].
  destruct fixes as [found|]; [|cbn; congruence]. destruct (ff_case found); cbn [negb]; [|cbn; congruence].
  destruct (ff_proof found) as [foundation|] eqn:Ep; [|cbn; congruence].
  rewrite Hv, bool_decide_eq_false_2 by done. destruct (ff_reviewable found); cbn; [|congruence]. destruct (ff_reachable found) eqn:Er; cbn; [|congruence].
  intros _ Ha. by exists found, foundation.
Qed.

Lemma flags_of_judged (b : InferenceXBaseline F) parent base r id j :
  entry parent GRADED_OUTPUT = Ok base → InferenceXRule.compare r b parent id = Ok j →
  ju_fixes_correctness j = false ∧ ju_verdict j ≠ V_IMPROVED.
Proof.
  intros Hb H. destruct (compare_cases _ _ _ _ _ _ Hb H) as (_ & _ & _ & _ & Hf & Hv). split; [done|].
  destruct Hv as [(-> & _)| ->]; [done|]. by destruct (_ || _).
Qed.

(** C7: An InferenceX candidate is committed only on two measurements of the same change that both clear the bar's
    conditions, or as a proven fix: when the judge's step settles a judgement the gate commits, either it is improved
    and some succeeded retest on the blackboard repeats the candidate (same parent, change and files, with the eval) such
    that the two readings settle as improved against the parent's record, or it is flat, its eval passed, its case proved
    the fix and the critic found it reachable. *)
Theorem improved_is_earned baseline c first retests parent fixes j :
  judge (inferencex_rule baseline c) first retests (Ok parent) = Ok (SETTLE j) →
  decide_action (settled_judgement fixes (rd_request first) j).1 = COMMIT →
  ∃ current b base, baseline = Ok current ∧ read_inferencex_baseline current = Ok b ∧ entry parent GRADED_OUTPUT = Ok base ∧
    (confirmed_by c b base first retests (inferencex_rule baseline c) ∨ proven_fix fixes first j).
Proof.
  intros H Hd. apply judge_ok in H as [H|[? [=]]]. unfold judge_body in H. cbn [mbind res_bind] in H.
  apply res_bind_ok in H as (j0 & H0 & H). cbn [rule_first inferencex_rule] in H0.
  apply res_bind_ok in H0 as (current & Hcur & H0). apply res_bind_ok in H0 as (b & Hbl & H0).
  apply res_bind_ok in H0 as (r1 & Hr1 & H0). exists current, b.
  destruct (entry parent GRADED_OUTPUT) as [base|e] eqn:Hbase.
  2: { unfold InferenceXRule.compare, _gain in H0. by rewrite Hbase in H0. }
  exists base. split_and!; [done..|].
  destruct (flags_of_judged _ _ _ _ _ _ Hbase H0) as [Hf0 Hi0].
  apply committed_flags in Hd. rewrite settled_verdict_kept in Hd.
  assert (∀ j', ju_fixes_correctness j' = false → ju_verdict j' ≠ V_IMPROVED → j' = j → proven_fix fixes first j) as Hfix.
  { intros j' Hf Hi ->. destruct Hd as [Hd|(Hv & Hx & Ha)]; [done|]. by apply settled_fix. }
  destruct (bool_decide (ju_verdict j0 = V_NEEDS_CONFIRM)) eqn:Hn; [|injection H as ->; right; by apply (Hfix j)].
  destruct (filter _ retests) as [|r0 rest] eqn:Ef; [injection H as ->; right; by apply (Hfix j)|].
  destruct (filter (λ r, _succeeded r = true) (r0 :: rest)) as [|m ms] eqn:Em; [by repeat case_match|].
  apply res_bind_ok in H as (j' & H' & [= ->]). cbn [rule_retest inferencex_rule] in H'.
  apply res_bind_ok in H' as (current' & Hcur' & H'). rewrite Hcur in Hcur'. injection Hcur' as <-.
  apply res_bind_ok in H' as (b' & Hbl' & H'). rewrite Hbl in Hbl'. injection Hbl' as <-.
  apply res_bind_ok in H' as (r2 & Hr2 & H').
  destruct (confirm_cases _ _ _ _ _ _ _ _ _ Hbase H0 H') as (Hv & Hf & _).
  destruct (bool_decide_reflect (ju_verdict j = V_IMPROVED)) as [Hi|Hi]; [left|right; by apply (Hfix j)].
  pose proof (latest_elem m ms) as Hl. rewrite <- Em in Hl. apply list_elem_of_filter in Hl as [Hs Hl].
  rewrite <- Ef in Hl. apply list_elem_of_filter in Hl as [Hrep Hl].
  exists (latest m ms), r1, r2. split_and!; [done..|congruence].
Qed.
End earned.

(** ** A session *)
Module JudgeDemo.
Local Open Scope Q_scope.
Definition request (id : string) (purpose : Purpose) (accuracy : bool) (again : option string) : TestRequest unit :=
  {| tr_kind := K_TEST; tr_purpose := purpose; tr_branch_id := "b01"; tr_parent_commit := "c0"; tr_delta := ();
     tr_intent_fingerprint := None; tr_priority := None; tr_retest_of := again; tr_avoid_nodes := []; tr_accuracy := accuracy;
     tr_concurrency := [64%Z]; tr_attachments := []; tr_request_id := Some id; tr_diff_ref := "";
     tr_consistency_check := None; tr_long_context_check := None |}.
Definition round (metrics : list (string * Q)) : RoundValue (F := Q) :=
  {| rv_phase := MEASURE; rv_concurrency := Some 64%Z; rv_metrics := metrics; rv_failed_requests := Some 0%Z |}.
Definition result (id : string) (metrics : list (list (string * Q))) (score : Q) : TestResult Q :=
  {| re_request_id := id; re_validity := SUCCEEDED; re_failure_reason := None; re_rounds := round <$> metrics;
     re_accuracy := [{| av_task := "gsm8k"; av_metric := "exact_match,strict-match"; av_score := score |}];
     re_node_name := Some "node1"; re_request_classes := []; re_long_context := None |}.
Definition record (q : TestRequest unit) (r : option (TestResult Q)) (at_ : Q) : TestRecord Q unit :=
  {| rd_request := q; rd_result := r; rd_requested_at := at_; rd_withdrawn := false; rd_withdrawal_reason := "" |}.

Definition baseline : BaselineRecord (F := Q) :=
  {| br_root_commit := "c0"; br_values := [(GRADED_OUTPUT, 100); (ACCURACY_SCORE, 9 # 10)];
     br_dispersion_pct := [(GRADED_OUTPUT, 1)]; br_threshold_pct := [(GRADED_OUTPUT, 2)]; br_request_ids := ["r0"] |}.
Definition rule : Rule (D := unit) := inferencex_rule (Ok baseline) 64.
Definition parent : list (string * Q) := br_values baseline.
(** Two rounds of 104 and 106, and the retest the judge asked for, as it is accepted and measured. *)
Definition first : TestRecord Q unit :=
  record (request "t1" P_EXPLORE true None) (Some (result "t1" [[(GRADED_OUTPUT, 104)]; [(GRADED_OUTPUT, 106)]] (9 # 10))) 1.
Definition asked : TestRecord Q unit :=
  record (accepted "t2" (retest_request first rule)) (Some (result "t2" [[(GRADED_OUTPUT, 103)]] (89 # 100))) 2.
Definition asked_step := Eval vm_compute in judge rule first [] (Ok parent).
Definition settled_step := Eval vm_compute in judge rule first [asked] (Ok parent).
Definition judgement_of (s : res (Step (F := Q))) : Judgement Q :=
  match s with Ok (SETTLE j) => j | _ => InferenceXRule.judgement V_FLAT 0 0 [] [] A_FAILED [] end.

(** An AgentX run whose median is zero. *)
Definition stalled : TestRecord Q unit :=
  record (request "t3" P_EXPLORE false None) (Some (result "t3" [[(GRADED_INTVTY_P50, 0)]] 0)) 1.
End JudgeDemo.

Lemma retest_asked_once_witness :
  decide_action (JudgeDemo.judgement_of JudgeDemo.asked_step) = RETEST ∧
  (∀ r, r ∈ [] → repeats r JudgeDemo.first JudgeDemo.rule = false) ∧ JudgeDemo.asked ∉ [].
Proof.
  split; [vm_compute; reflexivity|].
  refine (retest_asked_once JudgeDemo.rule JudgeDemo.first [] (Ok JudgeDemo.parent)
            (JudgeDemo.judgement_of JudgeDemo.asked_step) None "t2" JudgeDemo.asked (inferencex_laws _ _) eq_refl _ _);
    vm_compute; reflexivity.
Defined.

Lemma improved_is_earned_witness :
  decide_action (JudgeDemo.judgement_of JudgeDemo.settled_step) = COMMIT ∧
  ∃ current b base, Ok JudgeDemo.baseline = Ok current ∧ read_inferencex_baseline current = Ok b ∧
    entry JudgeDemo.parent GRADED_OUTPUT = Ok base ∧
    (confirmed_by 64 b base JudgeDemo.first [JudgeDemo.asked] JudgeDemo.rule ∨
     proven_fix None JudgeDemo.first (JudgeDemo.judgement_of JudgeDemo.settled_step)).
Proof.
  split; [vm_compute; reflexivity|].
  refine (improved_is_earned (Ok JudgeDemo.baseline) 64 JudgeDemo.first [JudgeDemo.asked] JudgeDemo.parent None _ _ _);
    vm_compute; reflexivity.
Defined.

(** A median of zero is a readable AgentX result, but the comparison raises a [ValueError] that the judge's step does not
    catch, where an InferenceX throughput of zero is unreadable and closes its candidate. *)
Lemma zero_p50_stops_the_judge :
  judge (agentx_rule 5) JudgeDemo.stalled [] (Ok [(GRADED_INTVTY_P50, 100%Q)])
  = Raise (ValueError "cannot compare a P50 of 0/1 against a parent P50 of 100/1").
Proof. vm_compute. reflexivity. Qed.
