(* ===== verification/KeepDecision.v ===== *)
(** * The KEEP decision

    What a measured candidate of the single-lineage flow is kept or reverted on: the graded snapshots, anchors and vetoes
    of [common/perf_metric.py], the session's recorded grading ([inference_optimizer/grading.py]), the comparison
    ([resolve_graded_comparison] and the anchors of [state/shared_state.py]) and the refusal and the graded part of the
    promotion of [loop/_current_best_lift.py].

    Measurements and records are JSON dicts.  A snapshot keeps its axes and its AgentX evidence apart; the source has them
    in one dict under distinct keys.  A workload identity is a string.  What the environment would derive for a session
    without a recorded grading, and the noise band it holds, are arguments. *)

From stdpp Require Import base list strings pretty sets.
From Stdlib Require Import ZArith QArith Qpower Lia Lqa.
From S2P Require Import Prelude PyFloat Rounding PyVal Dicts PhaseMachine GradedMetrics.

Definition GRADED_TOTAL : string := "total_throughput".
Definition GRADED_OUTPUT_PER_GPU : string := "output_tput_per_gpu".
Definition GRADED_INTVTY_P50_CHECKPOINT : string := "e2e_norm_intvty_p50_1800s".
Definition INTVTY_OBJECTIVES : list string := [GRADED_INTVTY; GRADED_INTVTY_P50].
Definition _AGENTX_EVIDENCE : list string := ["benchmark_backend"; "benchmark_valid"; "diagnostic_only"; "workload_identity"].
Definition KEEP_REASON_CORRECTNESS_FIX : string := "correctness_fix".

Section keep.
Context {F : Type} `{!FloatOps F}.
Local Notation metrics := (list (string * F)).
Local Open Scope float_scope.
Implicit Types (v : pyval F) (d source measurement bv cand_source : pydict F) (cand ref perf : metrics).

Definition non_negative v : res (option F) :=
  match v with
  | PInt z => x ← float_of_int z; Ok (if fzero <=? x then Some x else None)
  | PFloat x => Ok (if fzero <=? x then Some x else None)
  | _ => Ok None
  end.
Definition given (key : string) (x : option F) : metrics := match x with Some x => [(key, x)] | None => [] end.

(** ** Snapshots *)

(** The axes of [perf_snapshot_from_mapping]; the evidence it also copies is read from the record itself. *)
Definition perf_snapshot_from_mapping source : res (option metrics) :=
  intvty ← get_pos_float GRADED_INTVTY source;
  intvty_p50 ← get_pos_float GRADED_INTVTY_P50 source;
  d1 ← get_pos_float GRADED_DURATION source;
  duration ← (match d1 with Some x => Ok (Some x) | None => get_pos_float "duration" source end);
  error_rate ← non_negative (dget_or_none GRADED_ERROR_RATE source);
  inp ← get_pos_float "input_throughput" source;
  o1 ← get_pos_float GRADED_OUTPUT source;
  out ← (match o1 with Some x => Ok (Some x) | None => get_pos_float "tput" source end);
  t1 ← get_pos_float GRADED_TOTAL source;
  t2 ← (match t1 with Some x => Ok (Some x) | None => get_pos_float "total_token_throughput" source end);
  let total := match t2, inp, out with None, Some i, Some o => Some (i + o) | _, _, _ => t2 end in
  match intvty, intvty_p50, total with
  | Some i, Some p, Some t =>
      tpot90 ← get_pos_float "tpot_p90_ms" source;
      ttft50 ← get_pos_float "ttft_p50_ms" source;
      ttft90 ← get_pos_float "ttft_p90_ms" source;
      tpot50 ← get_pos_float "tpot_p50_ms" source;
      per_gpu ← get_pos_float GRADED_OUTPUT_PER_GPU source;
      checkpoint ← get_pos_float GRADED_INTVTY_P50_CHECKPOINT source;
      unserved ← non_negative (dget_or_none GRADED_UNSERVED_REQUESTS source);
      requests ← get_pos_float GRADED_REQUESTS_TOTAL source;
      Ok (Some ([(GRADED_INTVTY, i); (GRADED_INTVTY_P50, p); (GRADED_TOTAL, t)]
                ++ given "input_throughput" inp ++ given GRADED_OUTPUT out ++ given "tpot_p90_ms" tpot90
                ++ given "ttft_p50_ms" ttft50 ++ given "ttft_p90_ms" ttft90 ++ given "tpot_p50_ms" tpot50
                ++ given GRADED_OUTPUT_PER_GPU per_gpu ++ given GRADED_INTVTY_P50_CHECKPOINT checkpoint
                ++ given GRADED_DURATION duration ++ given GRADED_ERROR_RATE error_rate
                ++ given GRADED_UNSERVED_REQUESTS unserved ++ given GRADED_REQUESTS_TOTAL requests))
  | _, _, _ => Ok None
  end.

(** The axes of [graded_axes_of] *)
Definition graded_axes_of source : res metrics :=
  intvty ← get_pos_float GRADED_INTVTY source;
  t1 ← get_pos_float GRADED_TOTAL source;
  total ← (match t1 with Some x => Ok (Some x) | None => get_pos_float "total_token_throughput" source end);
  others ← map_res (λ key, x ← get_pos_float key source; Ok (given key x))
    ["input_throughput"; "ttft_p50_ms"; "ttft_p90_ms"; "tpot_p50_ms"; "tpot_p90_ms"; GRADED_INTVTY_P50;
     GRADED_INTVTY_P50_CHECKPOINT; GRADED_OUTPUT_PER_GPU; GRADED_REQUESTS_TOTAL];
  d1 ← get_pos_float GRADED_DURATION source;
  duration ← (match d1 with Some x => Ok (Some x) | None => get_pos_float "duration" source end);
  rates ← map_res (λ key, x ← non_negative (dget_or_none key source); Ok (given key x))
    [GRADED_ERROR_RATE; GRADED_UNSERVED_REQUESTS];
  Ok (given GRADED_INTVTY intvty ++ given GRADED_TOTAL total ++ concat others ++ given GRADED_DURATION duration ++ concat rates).

Definition output_tput_of source : res F :=
  a ← get_pos_float GRADED_OUTPUT source;
  match a with
  | Some x => Ok x
  | None => b ← get_pos_float "tput" source; Ok (default fzero b)
  end.

(** ** The session *)

Record Session := {
  s_current_best : pydict F;
  s_baseline_perf : pydict F;
  s_baseline_tput : F;
  s_grading : pyval F;
  s_agentx_backend : string;
  s_latency_budget_ms : F;
  s_power_budget_w : F;
  s_power_budget_per_gpu_w : metrics
}.
Implicit Types s : Session.

(** [recorded_grading] *)
Definition recorded_grading v : res (option (bool * option F)) :=
  let recorded := match v with PDict d => d | _ => [] end in
  let objective := py_strip (get_str "objective" recorded) in
  if String.eqb objective "" then Ok None
  else
    noise ← (match dget_or_none "noise_pct" recorded with
             | PInt z => x ← float_of_int z; Ok (Some x)
             | PBool b => Ok (Some (f_of_Z (if b then 1 else 0)))
             | PFloat x => Ok (Some x)
             | _ => Ok None
             end);
    Ok (Some (String.eqb objective GRADED_INTVTY, noise)).
Definition resolved_grading (derived : bool) s : res (bool * option F) :=
  r ← recorded_grading (s_grading s); Ok (default (derived, None) r).

Definition resolve_grading_anchor_perf s : res (option metrics * string) :=
  match s_current_best s with
  | [] =>
      snap ← perf_snapshot_from_mapping (s_baseline_perf s);
      Ok (match snap with Some p => (Some p, "") | None => (None, "baseline_perf_missing") end)
  | best =>
      snap ← perf_snapshot_from_mapping best;
      Ok (match snap with Some p => (Some p, "") | None => (None, "current_best_axes_missing") end)
  end.

(** [isinstance(val, (int, float)) and val > 0], as a float *)
Definition positive_number v : res (option F) :=
  match v with
  | PInt z => if (0 <? z)%Z then x ← float_of_int z; Ok (Some x) else Ok None
  | PBool true => Ok (Some (f_of_Z 1))
  | PFloat x => Ok (if fzero <? x then Some x else None)
  | _ => Ok None
  end.
Definition first_positive_tput d : res F :=
  a ← positive_number (dget_or_none "tput" d);
  match a with
  | Some x => Ok x
  | None => b ← positive_number (dget_or_none GRADED_OUTPUT d); Ok (default fzero b)
  end.
Definition resolve_grading_anchor_tput s : res F :=
  best ← first_positive_tput (s_current_best s);
  Ok (if fzero <? best then best else if fzero <? s_baseline_tput s then s_baseline_tput s else fzero).

(** ** Vetoes *)

Definition number v : res (option F) :=
  match v with PInt z => x ← float_of_int z; Ok (Some x) | PFloat x => Ok (Some x) | _ => Ok None end.
Definition _ceiling_veto v (ceiling : F) (exceeded unmeasured : string) : res string :=
  if feqb ceiling fzero || (ceiling <=? fzero) then Ok ""
  else
    x ← number v;
    Ok (match x : option F with
        | None => unmeasured
        | Some value => if negb (f_isfinite value) || (value <=? fzero) then unmeasured
                        else if ceiling <? value then exceeded else ""
        end).
Definition latency_veto_reason v (budget : F) : res string :=
  _ceiling_veto v budget "latency_budget_exceeded" "latency_unmeasured".

(** The per-card readings, or nothing when one is not a positive finite number. *)
Fixpoint power_readings (cards : pydict F) : res (option metrics) :=
  match cards with
  | [] => Ok (Some [])
  | (gpu, watts) :: cards' =>
      x ← number watts;
      match x : option F with
      | Some w => if negb (f_isfinite w) || (w <=? fzero) then Ok None
                  else rest ← power_readings cards'; Ok ((λ l, (gpu, w) :: l) <$> rest)
      | None => Ok None
      end
  end.
Definition power_veto_reason v (total : F) (per_gpu : metrics) : res string :=
  let limits := filter (λ kw, fltb fzero kw.2 = true) per_gpu in
  if (total <=? fzero) && bool_decide (limits = []) then Ok ""
  else
    match v with
    | PDict ((_ :: _) as cards) =>
        r ← power_readings cards;
        Ok (match r with
            | None => "power_unmeasured"
            | Some readings =>
                if existsb (λ '(gpu, limit), match dget gpu readings with Some w => limit <? w | None => false end) limits
                then "gpu_power_budget_exceeded"
                else if (fzero <? total) && (total <? fsum (dvals readings)) then "power_budget_exceeded"
                else ""
            end)
    | _ => Ok "power_unmeasured"
    end.

Definition is_str (x : string) v : bool := match v with PStr y => String.eqb x y | _ => false end.
Definition native_agentx_veto source s : string :=
  if negb (String.eqb (s_agentx_backend s) "magpie") && negb (is_str "magpie_agentx" (dget_or_none "benchmark_backend" source))
  then ""
  else match dget_or_none "benchmark_valid" source, dget_or_none "diagnostic_only" source with
       | PBool true, PBool false =>
           let anchor := match s_current_best s with [] => s_baseline_perf s | best => best end in
           match dget_or_none "workload_identity" source with
           | PStr identity =>
               if String.eqb identity "" || negb (is_str identity (dget_or_none "workload_identity" anchor))
               then "agentx_workload_mismatch" else ""
           | _ => "agentx_workload_mismatch"
           end
       | _, _ => "agentx_evidence_invalid"
       end.

Definition or_text (a : string) (b : res string) : res string := if String.eqb a "" then b else Ok a.
Definition constraint_veto_reason source s : res string :=
  or_text (native_agentx_veto source s)
    (l ← latency_veto_reason (dget_or_none "e2el_mean_ms" source) (s_latency_budget_ms s);
     or_text l (power_veto_reason (dget_or_none "gpu_power_by_gpu_w" source) (s_power_budget_w s) (s_power_budget_per_gpu_w s))).

(** ** The comparison *)

Record GradedComparison := {
  gc_objective : string;
  gc_candidate : F;
  gc_reference : F;
  gc_keep : bool;
  gc_tput_candidate : F;
  gc_tput_reference : F;
  gc_degrade_reason : string;
  gc_veto_reason : string;
  gc_refused_by : list string
}.
Implicit Types g : GradedComparison.
Definition comparable g : bool := String.eqb (gc_degrade_reason g) "".
Definition graded_on_intvty g : bool := bool_decide (gc_objective g ∈ INTVTY_OBJECTIVES).
Definition vetoed_by g : string :=
  if String.eqb (gc_veto_reason g) "" then ""
  else if bool_decide (gc_veto_reason g ∈ ["power_unmeasured"; "power_budget_exceeded"; "gpu_power_budget_exceeded"])
  then "power_budget" else "latency_budget".

Definition gain_pct_or_zero (new base : F) : F := if base <=? fzero then fzero else (new - base) / base * f_of_Z 100.

(** What the calling process holds and the caller passes: the grading the environment derives, its noise band, and the
    anchor a caller grades against in place of the session's. *)
Record Grading := {
  gr_derived : bool;
  gr_noise : F;
  gr_against_baseline : bool;
  gr_keep_threshold_pct : F;
  gr_anchor_perf : option metrics;
  gr_anchor_tput : option F
}.
Implicit Types e : Grading.

Definition ref_perf e s : res (option metrics * string) :=
  match gr_anchor_perf e with
  | Some p => Ok (Some p, "")
  | None =>
      if gr_against_baseline e then
        p ← perf_snapshot_from_mapping (s_baseline_perf s);
        Ok (p, match p with Some _ => "" | None => "baseline_axes_missing" end)
      else resolve_grading_anchor_perf s
  end.

(** The gates of the interactivity objective, those a pair failed. *)
Definition refused_gates (noise : F) cand ref : list string :=
  let gain := gain_pct_or_zero (axis_of cand GRADED_INTVTY_P50) (axis_of ref GRADED_INTVTY_P50) in
  (if AGENTX_KEEP_P50_THRESHOLD_PCT <=? gain then [] else ["p50_gain_below_threshold"])
  ++ (if holds_within_band noise cand ref GRADED_INTVTY then [] else ["p90_regressed"])
  ++ (if holds_within_band noise cand ref GRADED_OUTPUT then [] else ["output_regressed"])
  ++ (if String.eqb (incomparability_reason cand ref) "" then [] else [incomparability_reason cand ref]).

Definition graded_on_axes (noise : F) s measurement (cand ref : metrics) : res GradedComparison :=
  let refused := refused_gates noise cand ref in
  sla_veto ← (if bool_decide (refused = []) then constraint_veto_reason measurement s else Ok "");
  Ok {| gc_objective := GRADED_INTVTY_P50; gc_candidate := axis_of cand GRADED_INTVTY_P50;
        gc_reference := axis_of ref GRADED_INTVTY_P50;
        gc_keep := bool_decide (refused = []) && String.eqb sla_veto "";
        gc_tput_candidate := axis_of cand GRADED_TOTAL; gc_tput_reference := axis_of ref GRADED_TOTAL;
        gc_degrade_reason := ""; gc_veto_reason := sla_veto; gc_refused_by := refused |}.

Definition graded_on_output e s measurement (degrade_reason : string) : res GradedComparison :=
  reference ← (match gr_anchor_tput e with
               | Some t => Ok t
               | None => if gr_against_baseline e then Ok (s_baseline_tput s) else resolve_grading_anchor_tput s
               end);
  candidate ← output_tput_of measurement;
  let cleared := String.eqb degrade_reason ""
                 && match gain_pct (Some candidate) reference with Some g => gr_keep_threshold_pct e <=? g | None => false end in
  sla_veto ← (if cleared then constraint_veto_reason measurement s else Ok "");
  Ok {| gc_objective := GRADED_OUTPUT; gc_candidate := candidate; gc_reference := reference;
        gc_keep := cleared && String.eqb sla_veto ""; gc_tput_candidate := fzero; gc_tput_reference := fzero;
        gc_degrade_reason := degrade_reason; gc_veto_reason := sla_veto; gc_refused_by := [] |}.

Definition resolve_graded_comparison e s measurement : res GradedComparison :=
  grading ← resolved_grading (gr_derived e) s;
  let noise := default (gr_noise e) grading.2 in
  if grading.1 : bool then
    ref ← ref_perf e s;
    cand ← perf_snapshot_from_mapping measurement;
    match ref.1, cand with
    | Some ((_ :: _) as r), Some c => graded_on_axes noise s measurement c r
    | _, _ => graded_on_output e s measurement (if String.eqb ref.2 "" then "candidate_axes_missing" else ref.2)
    end
  else graded_on_output e s measurement "".

(** ** Promotion *)

(** [_graded_source] *)
Definition _graded_source measurement (tput : F) : pydict F := dset GRADED_OUTPUT (PFloat tput) measurement.

(** [_refuses_graded_winner] *)
Definition refuses_graded_winner bv g : bool :=
  let correctness_fix := is_str KEEP_REASON_CORRECTNESS_FIX (dget_or_none "keep_reason" bv) in
  negb (comparable g) || negb (String.eqb (gc_veto_reason g) "")
  || (graded_on_intvty g && negb (gc_keep g) && negb correctness_fix)
  || ((fzero <? gc_reference g) && (gc_candidate g <=? gc_reference g) && negb correctness_fix).

Definition CONSTRAINT_FIELDS : list string :=
  ["e2el_mean_ms"; "gpu_power_avg_w"; "gpu_power_by_gpu_w"; "benchmark_backend"; "benchmark_valid"; "diagnostic_only";
   "workload_identity"].
Definition constraint_fields source : pydict F := (λ k, (k, dget_or_none k source)) <$> CONSTRAINT_FIELDS.
Definition evidence source : pydict F :=
  omap (λ k, match dget k source with Some v => Some (k, v) | None => None end) _AGENTX_EVIDENCE.

(** The other keys [_write_current_best] gives the record: the launch it describes and two reported means. *)
Definition LAUNCH_KEYS : list string :=
  ["action"; "variant_name"; "extra_server_args"; "extra_envs"; "final_overlay"; "optimization_stack"; "ttft_mean_ms";
   "tpot_mean_ms"; "workspace"; "remove_args"; "unset_envs"; "args_mode"; "effective_extra_server_args"; "measurement"].

(** The graded part of [_write_current_best]: the throughput, the constraint fields and the axes; [launch] holds the
    rest of the record, under [LAUNCH_KEYS]. *)
Definition graded_record bv (tput : F) cand_source (launch : pydict F) : res (pydict F) :=
  axes ← graded_axes_of cand_source;
  Ok (dmerge (dmerge (dset "tput" (PFloat tput) launch) (constraint_fields bv))
        (((λ kx, (kx.1, PFloat kx.2)) <$> axes) ++ evidence cand_source)).

Definition with_current_best (best : pydict F) s : Session :=
  {| s_current_best := best; s_baseline_perf := s_baseline_perf s; s_baseline_tput := s_baseline_tput s;
     s_grading := s_grading s; s_agentx_backend := s_agentx_backend s; s_latency_budget_ms := s_latency_budget_ms s;
     s_power_budget_w := s_power_budget_w s; s_power_budget_per_gpu_w := s_power_budget_per_gpu_w s |}.

(** [lift_to_current_best] as far as it grades: whether the winner is accepted, and the session it leaves. *)
Definition before_baseline (task_kind : string) bv s : bool :=
  String.eqb task_kind "integrate_patch" && (s_baseline_tput s <=? fzero)
  && match dget_or_none "baseline_enablement" bv, dget_or_none "attribution_eligible" bv with
     | PBool true, PBool false => true
     | _, _ => false
     end.
Definition session_anchor (derived : bool) (noise : F) : Grading :=
  {| gr_derived := derived; gr_noise := noise; gr_against_baseline := false; gr_keep_threshold_pct := fzero;
     gr_anchor_perf := None; gr_anchor_tput := None |}.
Definition lift_to_current_best (derived : bool) (noise : F) (task_kind : string) bv (tput : F) (launch : pydict F) s
    : res (bool * Session) :=
  let cand_source := _graded_source bv tput in
  refused ← (if before_baseline task_kind bv s then Ok false
             else g ← resolve_graded_comparison (session_anchor derived noise) s cand_source; Ok (refuses_graded_winner bv g));
  if refused : bool then Ok (false, s)
  else best ← graded_record bv tput cand_source launch; Ok (true, with_current_best best s).

(** ** What a kept record is read back as *)

Lemma optional_positive_float_fix v x : optional_positive_float v = Ok x → optional_positive_float (opt_float x) = Ok x.
Proof.
  unfold optional_positive_float. intros H. apply res_bind_ok in H as (p & Hp & [= <-]). destruct p as [y|]; [|done].
  assert (f_isfinite y = true) as Hf.
  { unfold to_float in Hp. destruct v; try discriminate Hp; destruct (py_float _) as [w|[]]; try discriminate Hp;
      destruct (f_isfinite w) eqn:E; simplify_eq/=; done. }
  destruct (fleb y fzero) eqn:E; [done|]. simpl. rewrite Hf. simpl. by rewrite E.
Qed.
Lemma non_negative_fix v x : non_negative v = Ok x → non_negative (opt_float x) = Ok x.
Proof.
  assert (∀ y : F, non_negative (opt_float (if fzero <=? y then Some y else None)) = Ok (if fzero <=? y then Some y else None)) as H.
  { intros y. destruct (fzero <=? y) eqn:E; [|done]. simpl. by rewrite E. }
  destruct v; simpl; intros E; try (injection E as <-); try done.
  apply res_bind_ok in E as (y & _ & [= <-]). apply H.
Qed.
Lemma get_pos_float_of k d x : dget_or_none k d = opt_float x → optional_positive_float (opt_float x) = Ok x → get_pos_float k d = Ok x.
Proof. unfold get_pos_float. by intros ->. Qed.

Lemma dget_app {V} k (a b : list (string * V)) : dget k (a ++ b) = match dget k a with Some v => Some v | None => dget k b end.
Proof. induction a as [|[k' v] a IH]; simpl; [done|]. by case_bool_decide. Qed.
Lemma dget_floats k (l : metrics) : dget k ((λ kx, (kx.1, PFloat kx.2)) <$> l) = PFloat <$> dget k l.
Proof. induction l as [|[k' x] l IH]; simpl; [done|]. by case_bool_decide. Qed.

Lemma dget_given_eq k x (l : metrics) : dget k (given k x ++ l) = match x with Some y => Some y | None => dget k l end.
Proof. destruct x; simpl; [by rewrite bool_decide_eq_true_2|done]. Qed.
Lemma dget_given_ne k k' x (l : metrics) : k ≠ k' → dget k (given k' x ++ l) = dget k l.
Proof. intros H. destruct x; simpl; [by rewrite bool_decide_eq_false_2|done]. Qed.
Lemma sublist_given k x l l' : sublist l l' → sublist ((given k x).*1 ++ l) (k :: l').
Proof. destruct x; simpl; by constructor. Qed.

(** The axes a winner is stamped with, in the order they are stamped. *)
Definition AXES : list string :=
  [GRADED_INTVTY; GRADED_TOTAL; "input_throughput"; "ttft_p50_ms"; "ttft_p90_ms"; "tpot_p50_ms"; "tpot_p90_ms";
   GRADED_INTVTY_P50; GRADED_INTVTY_P50_CHECKPOINT; GRADED_OUTPUT_PER_GPU; GRADED_REQUESTS_TOTAL; GRADED_DURATION;
   GRADED_ERROR_RATE; GRADED_UNSERVED_REQUESTS].
Definition COPIED_AXES : list string :=
  [GRADED_INTVTY; "input_throughput"; "ttft_p50_ms"; "ttft_p90_ms"; "tpot_p50_ms"; "tpot_p90_ms"; GRADED_INTVTY_P50;
   GRADED_INTVTY_P50_CHECKPOINT; GRADED_OUTPUT_PER_GPU; GRADED_REQUESTS_TOTAL].

Ltac unbind_all :=
  repeat match goal with
         | H : mbind _ _ = Ok _ |- _ => apply res_bind_ok in H as (? & ? & ?); cbv beta in *
         | H : Ok _ = Ok _ |- _ => injection H as H; subst
         end.
Ltac known_axis := cbv beta;
  match goal with
  | H : ?r = Ok ?x |- ?r = Ok _ => rewrite H; f_equal;
      repeat first [rewrite dget_given_eq | rewrite dget_given_ne by done]; by destruct x
  end.

Lemma graded_axes_lookup source axes : graded_axes_of source = Ok axes →
  sublist axes.*1 AXES
  ∧ Forall (λ k, get_pos_float k source = Ok (dget k axes)) COPIED_AXES
  ∧ Forall (λ k, non_negative (dget_or_none k source) = Ok (dget k axes)) [GRADED_ERROR_RATE; GRADED_UNSERVED_REQUESTS]
  ∧ (∃ t, get_pos_float GRADED_TOTAL source = Ok t ∧
       match t with Some x => Ok (Some x) | None => get_pos_float "total_token_throughput" source end = Ok (dget GRADED_TOTAL axes))
  ∧ (∃ t, get_pos_float GRADED_DURATION source = Ok t ∧
       match t with Some x => Ok (Some x) | None => get_pos_float "duration" source end = Ok (dget GRADED_DURATION axes)).
Proof.
  unfold graded_axes_of. cbn [map_res]. intros H. unbind_all. cbn [concat]. rewrite ?app_nil_r.
  rewrite <- !app_assoc, <- (app_nil_r (given GRADED_UNSERVED_REQUESTS _)). split_and!.
  - rewrite !fmap_app. by repeat apply sublist_given.
  - repeat (apply Forall_cons_2; [known_axis|]). apply Forall_nil_2.
  - repeat (apply Forall_cons_2; [known_axis|]). apply Forall_nil_2.
  - eexists. split; [eassumption|]. known_axis.
  - eexists. split; [eassumption|]. known_axis.
Qed.

Lemma evidence_keys source : sublist (evidence source).*1 _AGENTX_EVIDENCE.
Proof.
  unfold evidence. induction _AGENTX_EVIDENCE as [|k l IH]; simpl; [done|]. destruct (dget k source); simpl; by constructor.
Qed.
Lemma constraint_keys source : (constraint_fields source).*1 = CONSTRAINT_FIELDS.
Proof. done. Qed.

(** A record is read back on its axes as they were stamped, and on no other axis. *)
Lemma record_lookup bv tput cand_source launch best axes k :
  graded_record bv tput cand_source launch = Ok best → graded_axes_of cand_source = Ok axes → launch.*1 ⊆ LAUNCH_KEYS →
  k ∉ CONSTRAINT_FIELDS ++ LAUNCH_KEYS →
  dget_or_none k best = if bool_decide (k = "tput") then PFloat tput else opt_float (dget k axes).
Proof.
  unfold graded_record. intros H Ha Hl Hk. rewrite Ha in H. apply (f_equal (λ r, match r with Ok a => a | _ => best end)) in H.
  cbv beta iota delta [mbind res_bind] in H. subst best.
  destruct (graded_axes_lookup _ _ Ha) as [Hs _].
  assert (k ∉ (evidence cand_source).*1) as He.
  { intros Hin. apply Hk, elem_of_app. left. apply (sublist_subseteq _ _ (evidence_keys cand_source)) in Hin.
    revert Hin. unfold _AGENTX_EVIDENCE, CONSTRAINT_FIELDS. set_solver. }
  assert (NoDup (((λ kx : string * F, (kx.1, PFloat kx.2)) <$> axes) ++ evidence cand_source).*1) as Hnd.
  { rewrite fmap_app, <- list_fmap_compose. apply (sublist_NoDup _ (AXES ++ _AGENTX_EVIDENCE)).
    - by apply (bool_decide_eq_true_1 _).
    - apply sublist_app; [done|apply evidence_keys]. }
  unfold dget_or_none. rewrite dget_dmerge, dget_app, dget_floats by done.
  rewrite (proj2 (dget_None k (evidence cand_source))) by done.
  rewrite dget_dmerge_notin by (rewrite constraint_keys; set_solver). rewrite dget_dset.
  case_bool_decide; subst.
  - rewrite (proj2 (dget_None "tput" axes)); [done|]. intros Hin%(sublist_subseteq _ _ Hs).
    revert Hin. by apply (bool_decide_eq_false_1 _).
  - rewrite (proj2 (dget_None k launch)) by set_solver. by destruct (dget k axes).
Qed.

Lemma coalesced k k' source t x :
  get_pos_float k source = Ok t → match t with Some y => Ok (Some y) | None => get_pos_float k' source end = Ok x →
  ∃ v, optional_positive_float v = Ok x.
Proof. intros Ht Hx. destruct t as [y|]; [injection Hx as <-|]; eexists; eassumption. Qed.

Lemma or_none (x : option F) : match x with Some y => Ok (Some y) | None => Ok None end = Ok x.
Proof. by destruct x. Qed.

Section record.
Context (bv : pydict F) (tput : F) (source launch best : pydict F) (axes : metrics).
Hypotheses (Hr : graded_record bv tput source launch = Ok best) (Ha : graded_axes_of source = Ok axes)
  (Hl : launch.*1 ⊆ LAUNCH_KEYS).

Lemma record_axis k :
  k ∉ "tput" :: CONSTRAINT_FIELDS ++ LAUNCH_KEYS → dget_or_none k best = opt_float (dget k axes).
Proof.
  intros [Ht Hk]%not_elem_of_cons. rewrite (record_lookup _ _ _ _ _ _ _ Hr Ha Hl Hk). by rewrite bool_decide_eq_false_2.
Qed.
Lemma record_reads k v :
  k ∉ "tput" :: CONSTRAINT_FIELDS ++ LAUNCH_KEYS → optional_positive_float v = Ok (dget k axes) →
  get_pos_float k best = Ok (dget k axes).
Proof.
  intros Hk Hv. unfold get_pos_float. rewrite record_axis by done. by apply optional_positive_float_fix in Hv.
Qed.
Lemma record_copied : Forall (λ k, get_pos_float k best = get_pos_float k source) COPIED_AXES.
Proof.
  destruct (graded_axes_lookup _ _ Ha) as (_ & Hc & _). apply Forall_forall. intros k Hk.
  pose proof (proj1 (Forall_forall _ _) Hc k Hk) as Hv. cbv beta in Hv. rewrite Hv. apply (record_reads _ _) with (2 := Hv).
  clear Hv. revert k Hk. apply Forall_forall. by apply (bool_decide_eq_true_1 _).
Qed.
Lemma record_rates :
  Forall (λ k, non_negative (dget_or_none k best) = non_negative (dget_or_none k source))
    [GRADED_ERROR_RATE; GRADED_UNSERVED_REQUESTS].
Proof.
  destruct (graded_axes_lookup _ _ Ha) as (_ & _ & Hn & _). apply Forall_forall. intros k Hk.
  pose proof (proj1 (Forall_forall _ _) Hn k Hk) as Hv. cbv beta in Hv. rewrite Hv, record_axis; [by apply non_negative_fix in Hv|].
  clear Hv. revert k Hk. apply Forall_forall. by apply (bool_decide_eq_true_1 _).
Qed.
Lemma record_absent :
  Forall (λ k, get_pos_float k best = Ok None) [GRADED_OUTPUT; "duration"; "total_token_throughput"].
Proof.
  destruct (graded_axes_lookup _ _ Ha) as (Hs & _).
  assert (Forall (λ k, k ∉ AXES ++ "tput" :: CONSTRAINT_FIELDS ++ LAUNCH_KEYS) [GRADED_OUTPUT; "duration"; "total_token_throughput"])
    as H by (by apply (bool_decide_eq_true_1 _)).
  eapply Forall_impl; [exact H|]. cbv beta. intros k [Hk Ho]%not_elem_of_app. unfold get_pos_float.
  rewrite record_axis, (proj2 (dget_None k axes)) by (try done; by intros ?%(sublist_subseteq _ _ Hs)). done.
Qed.
End record.

(** The comparison a candidate was kept on is the anchor of the next one. *)
Lemma record_snapshot bv tput launch best p :
  graded_record bv tput (_graded_source bv tput) launch = Ok best → launch.*1 ⊆ LAUNCH_KEYS →
  optional_positive_float (PFloat tput) = Ok (Some tput) →
  perf_snapshot_from_mapping (_graded_source bv tput) = Ok (Some p) → perf_snapshot_from_mapping best = Ok (Some p).
Proof.
  intros Hr Hl Ht Hp. set (src := _graded_source bv tput) in *.
  destruct (graded_axes_of src) as [axes|] eqn:Ha; [|unfold graded_record in Hr; by rewrite Ha in Hr].
  destruct (graded_axes_lookup _ _ Ha) as (_ & _ & _ & (t & Ht1 & Ht2) & (d & Hd1 & Hd2)).
  pose proof (record_copied _ _ _ _ _ _ Hr Ha Hl) as Hc. pose proof (record_rates _ _ _ _ _ _ Hr Ha Hl) as Hn.
  pose proof (record_absent _ _ _ _ _ _ Hr Ha Hl) as Hz.
  assert (get_pos_float "tput" best = Ok (Some tput)) as Htput.
  { unfold get_pos_float. rewrite (record_lookup _ _ _ _ _ _ _ Hr Ha Hl); [done|]. by apply (bool_decide_eq_true_1 _). }
  assert (get_pos_float GRADED_OUTPUT src = Ok (Some tput)) as Hout.
  { unfold get_pos_float, dget_or_none, src, _graded_source. by rewrite dget_dset_eq. }
  assert (get_pos_float GRADED_TOTAL best = Ok (dget GRADED_TOTAL axes)) as Htot.
  { destruct (coalesced _ _ _ _ _ Ht1 Ht2) as [v Hv]. apply (record_reads _ _ _ _ _ _ Hr Ha Hl _ v); [|done].
    by apply (bool_decide_eq_true_1 _). }
  assert (get_pos_float GRADED_DURATION best = Ok (dget GRADED_DURATION axes)) as Hdur.
  { destruct (coalesced _ _ _ _ _ Hd1 Hd2) as [v Hv]. apply (record_reads _ _ _ _ _ _ Hr Ha Hl _ v); [|done].
    by apply (bool_decide_eq_true_1 _). }
  repeat (apply Forall_cons in Hc as [? Hc]). repeat (apply Forall_cons in Hn as [? Hn]). repeat (apply Forall_cons in Hz as [? Hz]).
  unfold perf_snapshot_from_mapping in *. cbv beta in *.
  repeat match goal with H : ?a = ?b |- context [?a] => rewrite H end.
  rewrite Hout, Ht1, Hd1 in Hp. cbn [mbind res_bind] in Hp |- *. rewrite Ht2, Hd2 in Hp. rewrite !or_none. exact Hp.
Qed.

(** ** Lifting winners *)

Record Winner := { w_kind : string; w_variant : pydict F; w_tput : F; w_launch : pydict F }.
Definition lift derived noise (w : Winner) s : res (bool * Session) :=
  lift_to_current_best derived noise (w_kind w) (w_variant w) (w_tput w) (w_launch w) s.
(** A winner as the lanes hand it over: a positive finite throughput and the launch's own keys. *)
Definition well_formed (w : Winner) : bool :=
  f_isfinite (w_tput w) && negb (w_tput w <=? fzero) && bool_decide (Forall (.∈ LAUNCH_KEYS) (w_launch w).*1).
Definition correctness_fix (w : Winner) : bool := is_str KEEP_REASON_CORRECTNESS_FIX (dget_or_none "keep_reason" (w_variant w)).
Definition graded_winner (w : Winner) : pydict F := _graded_source (w_variant w) (w_tput w).

Lemma well_formed_spec (w : Winner) : well_formed w = true →
  optional_positive_float (PFloat (w_tput w)) = Ok (Some (w_tput w)) ∧ (w_launch w).*1 ⊆ LAUNCH_KEYS.
Proof.
  unfold well_formed. rewrite !andb_true_iff, negb_true_iff, bool_decide_eq_true, Forall_forall. intros [[Hf Hp] Hl].
  split; [|exact Hl]. unfold optional_positive_float. simpl. rewrite Hf. simpl. by rewrite Hp.
Qed.

Lemma lift_accepted derived noise w s s' : lift derived noise w s = Ok (true, s') →
  ∃ best, graded_record (w_variant w) (w_tput w) (graded_winner w) (w_launch w) = Ok best ∧ s' = with_current_best best s
  ∧ (before_baseline (w_kind w) (w_variant w) s = true
     ∨ ∃ g, resolve_graded_comparison (session_anchor derived noise) s (graded_winner w) = Ok g
            ∧ refuses_graded_winner (w_variant w) g = false).
Proof.
  unfold lift, lift_to_current_best. intros H. apply res_bind_ok in H as ([] & E & H); [done|].
  apply res_bind_ok in H as (best & Hb & [= <-]). exists best. split_and!; [done..|].
  destruct (before_baseline _ _ _); [by left|]. right. apply res_bind_ok in E as (g & Hg & [= E]). eauto.
Qed.

Lemma anchor_of_best best p s :
  perf_snapshot_from_mapping best = Ok (Some p) → resolve_grading_anchor_perf (with_current_best best s) = Ok (Some p, "").
Proof. unfold resolve_grading_anchor_perf. simpl. intros H. destruct best; [done|]. by rewrite H. Qed.

(** The measurement a winner was kept on is the anchor of the next comparison: when a winner with every graded axis is
    lifted, the session's anchor reads back exactly the axes of that measurement (the objective, its guards, the window
    and the failure counts), so no axis is lost through [current_best]. *)
Theorem kept_is_the_anchor derived noise (w : Winner) s s' p :
  lift derived noise w s = Ok (true, s') → well_formed w = true →
  perf_snapshot_from_mapping (graded_winner w) = Ok (Some p) → resolve_grading_anchor_perf s' = Ok (Some p, "").
Proof.
  intros (best & Hb & -> & _)%lift_accepted [Ht Hl]%well_formed_spec Hp. apply anchor_of_best. by eapply record_snapshot.
Qed.

Lemma graded_on_output_reason e s m reason g : graded_on_output e s m reason = Ok g → gc_degrade_reason g = reason.
Proof. unfold graded_on_output. intros H. unbind_all. done. Qed.
Lemma graded_on_axes_kept band s m p r g : graded_on_axes band s m p r = Ok g → gc_keep g = true →
  refused_gates band p r = [] ∧ constraint_veto_reason m s = Ok "".
Proof.
  unfold graded_on_axes. intros H. apply res_bind_ok in H as (veto & Hv & [= <-]). cbn.
  rewrite andb_true_iff, String.eqb_eq. intros [Hr ->]. rewrite Hr in Hv. split; [by apply bool_decide_eq_true in Hr|done].
Qed.
Lemma graded_on_axes_intvty band s m p r g : graded_on_axes band s m p r = Ok g → graded_on_intvty g = true.
Proof. unfold graded_on_axes. intros H. apply res_bind_ok in H as (veto & Hv & [= <-]). done. Qed.
Lemma anchor_reason s r reason : resolve_grading_anchor_perf s = Ok (Some r, reason) → reason = "".
Proof. unfold resolve_grading_anchor_perf. intros H. destruct (s_current_best s); unbind_all; by case_match; simplify_eq. Qed.

(** What is kept on the interactivity objective. *)
Lemma kept_on_axes derived noise w s s' band :
  lift derived noise w s = Ok (true, s') → before_baseline (w_kind w) (w_variant w) s = false → correctness_fix w = false →
  recorded_grading (s_grading s) = Ok (Some (true, Some band)) →
  ∃ p r, perf_snapshot_from_mapping (graded_winner w) = Ok (Some p) ∧ resolve_grading_anchor_perf s = Ok (Some r, "")
    ∧ refused_gates band p r = [] ∧ constraint_veto_reason (graded_winner w) s = Ok "".
Proof.
  intros (best & Hb & -> & H)%lift_accepted Hbase Hfix Hg. destruct H as [H|(g & H & Href)]; [congruence|].
  unfold refuses_graded_winner in Href. change (is_str _ _) with (correctness_fix w) in Href. rewrite Hfix in Href.
  apply orb_false_iff in Href as [[[Hc%negb_false_iff _]%orb_false_iff Hk]%orb_false_iff _].
  unfold resolve_graded_comparison, resolved_grading in H. rewrite Hg in H. cbn [mbind res_bind default fst snd] in H.
  apply res_bind_ok in H as ([r d] & Hr & H). apply res_bind_ok in H as (p & Hp & H). cbn [fst snd] in H.
  change (ref_perf _ s) with (resolve_grading_anchor_perf s) in Hr.
  assert (∀ d' : string, graded_on_output (session_anchor derived noise) s (graded_winner w)
    (if String.eqb d' "" then "candidate_axes_missing" else d') = Ok g → False) as Hno.
  { intros d' Hd%graded_on_output_reason. unfold comparable in Hc. rewrite Hd in Hc. by destruct (String.eqb_spec d' ""), d'. }
  destruct r as [[|x r]|]; [by apply Hno in H| |by apply Hno in H]. destruct p as [p|]; [|by apply Hno in H].
  exists p, (x :: r). pose proof (anchor_reason _ _ _ Hr) as ->. split_and!; [done|done|..];
    eapply graded_on_axes_kept; try exact H; rewrite (graded_on_axes_intvty _ _ _ _ _ _ H) in Hk; cbn in Hk;
    by destruct (gc_keep g).
Qed.
End keep.
#[global] Arguments Session : clear implicits.
#[global] Arguments Grading : clear implicits.
#[global] Arguments GradedComparison : clear implicits.
#[global] Arguments Winner : clear implicits.

(** ** Budgets hold *)

Lemma resolve_on_output {F} `{!FloatOps F} e (s : Session F) m band :
  recorded_grading (s_grading s) = Ok (Some (false, band)) → resolve_graded_comparison e s m = graded_on_output e s m "".
Proof. intros H. unfold resolve_graded_comparison, resolved_grading. by rewrite H. Qed.
Lemma output_comparison {F} `{!FloatOps F} derived noise (s : Session F) m g reference :
  graded_on_output (session_anchor derived noise) s m "" = Ok g → resolve_grading_anchor_tput s = Ok reference →
  gc_reference g = reference
  ∧ (match gain_pct (Some (gc_candidate g)) reference with Some x => fleb fzero x | None => false end = true →
     constraint_veto_reason m s = Ok (gc_veto_reason g)).
Proof.
  intros H Hr. unfold graded_on_output in H. cbn [gr_anchor_tput session_anchor gr_against_baseline gr_keep_threshold_pct] in H.
  rewrite Hr in H. cbn [mbind res_bind] in H. apply res_bind_ok in H as (c & _ & H). apply res_bind_ok in H as (veto & Hv & [= <-]).
  cbn [gc_reference gc_candidate gc_veto_reason]. split; [done|]. intros Hx. by rewrite Hx in Hv.
Qed.
Lemma within_constraints {F} `{!FloatOps F} m (s : Session F) : constraint_veto_reason m s = Ok "" →
  latency_veto_reason (dget_or_none "e2el_mean_ms" m) (s_latency_budget_ms s) = Ok ""
  ∧ power_veto_reason (dget_or_none "gpu_power_by_gpu_w" m) (s_power_budget_w s) (s_power_budget_per_gpu_w s) = Ok "".
Proof.
  unfold constraint_veto_reason, or_text. intros H. destruct (String.eqb_spec (native_agentx_veto m s) ""); [|congruence].
  apply res_bind_ok in H as (l & Hl & H). destruct (String.eqb_spec l ""); [|congruence]. subst. done.
Qed.

(** What is kept on the output objective of a session that has measured one. *)
Lemma kept_on_output derived (noise : Q) w s s' band reference :
  lift derived noise w s = Ok (true, s') → before_baseline (w_kind w) (w_variant w) s = false → correctness_fix w = false →
  recorded_grading (s_grading s) = Ok (Some (false, band)) → resolve_grading_anchor_tput s = Ok reference → (0 < reference)%Q →
  constraint_veto_reason (graded_winner w) s = Ok "".
Proof.
  intros (best & Hb & -> & H)%lift_accepted Hbase Hfix Hg Hr Hpos. destruct H as [H|(g & H & Href)]; [congruence|].
  unfold refuses_graded_winner in Href. change (is_str _ _) with (correctness_fix w) in Href. rewrite Hfix in Href.
  apply orb_false_iff in Href as [[[_ Hv%negb_false_iff%String.eqb_eq]%orb_false_iff _]%orb_false_iff Hlost].
  rewrite (resolve_on_output _ _ _ _ Hg) in H. destruct (output_comparison _ _ _ _ _ _ H Hr) as (Eref & Hveto).
  rewrite Hv in Hveto. rewrite Eref in Hlost. apply Hveto. rewrite andb_true_r in Hlost.
  apply andb_false_iff in Hlost as [Hlost|Hlost%Q_leb_gt].
  { by rewrite (proj2 (Q_ltb_lt fzero reference)) in Hlost. }
  destruct (gain_pct_Q (gc_candidate g) reference) as (x & -> & Hx); [lra|done|].
  apply Q_leb_le. change (0 <= x)%Q. rewrite Hx. apply Qmult_le_0_compat; [|done].
  apply Qle_shift_div_l; [done|]. lra.
Qed.

(** The constraint fields of a kept record are the measurement's own. *)
Lemma record_constraints {F} `{!FloatOps F} bv (tput : F) launch best k :
  graded_record bv tput (_graded_source bv tput) launch = Ok best → k ∈ ["e2el_mean_ms"; "gpu_power_by_gpu_w"] →
  dget_or_none k best = dget_or_none k (_graded_source bv tput).
Proof.
  intros H Hk. unfold graded_record in H. destruct (graded_axes_of (_graded_source bv tput)) as [axes|] eqn:Ha; [|done].
  apply (f_equal (λ r, match r with Ok a => a | _ => best end)) in H. cbv beta iota delta [mbind res_bind] in H. subst best.
  destruct (graded_axes_lookup _ _ Ha) as [Hs _].
  assert (k ∉ AXES ++ _AGENTX_EVIDENCE ∧ k ≠ GRADED_OUTPUT ∧ k ∈ CONSTRAINT_FIELDS) as (Hna & Hno & Hin).
  { revert k Hk. apply Forall_forall. by apply (bool_decide_eq_true_1 _). }
  apply not_elem_of_app in Hna as [Hx He].
  unfold dget_or_none. rewrite dget_dmerge_notin, dget_dmerge; [|by apply (bool_decide_eq_true_1 _)|].
  - unfold _graded_source. rewrite (dget_dset_ne k GRADED_OUTPUT) by done.
    assert (dget k (constraint_fields bv) = Some (dget_or_none k bv)) as ->; [|done]. clear -Hin. unfold constraint_fields.
    induction CONSTRAINT_FIELDS as [|k' l IH]; [by apply not_elem_of_nil in Hin|]. simpl. case_bool_decide; [by subst|].
    apply IH. by apply elem_of_cons in Hin as [|].
  - rewrite fmap_app, <- list_fmap_compose, not_elem_of_app. split.
    + by intros ?%(sublist_subseteq _ _ Hs).
    + by intros ?%(sublist_subseteq _ _ (evidence_keys _)).
Qed.

(** C19: The current best stays within the session's budgets: once a winner is kept as a gain (not as a correctness fix
    and not before the baseline), the record it becomes breaks neither the latency budget nor the power budgets of the
    session it leaves, on either objective. *)
Theorem best_within_budgets derived (noise : Q) w s s' on_intvty band reference :
  lift derived noise w s = Ok (true, s') → correctness_fix w = false → before_baseline (w_kind w) (w_variant w) s = false →
  recorded_grading (s_grading s) = Ok (Some (on_intvty, Some band)) →
  resolve_grading_anchor_tput s = Ok reference → (0 < reference)%Q →
  latency_veto_reason (dget_or_none "e2el_mean_ms" (s_current_best s')) (s_latency_budget_ms s') = Ok ""
  ∧ power_veto_reason (dget_or_none "gpu_power_by_gpu_w" (s_current_best s')) (s_power_budget_w s') (s_power_budget_per_gpu_w s')
    = Ok "".
Proof.
  intros Hw Hfix Hb Hg Hr Hpos.
  assert (constraint_veto_reason (graded_winner w) s = Ok "") as Hveto.
  { destruct on_intvty; [by destruct (kept_on_axes _ _ _ _ _ band Hw Hb Hfix Hg) as (? & ? & ? & ? & ? & ?)|].
    by eapply kept_on_output. }
  destruct (lift_accepted _ _ _ _ _ Hw) as (best & Hbest & -> & _). cbn [s_current_best with_current_best].
  rewrite !(record_constraints _ _ _ _ _ Hbest) by set_solver. apply (within_constraints _ _ Hveto).
Qed.

(** ** Gains compound *)

Section compound.
Context {F : Type} `{!FloatOps F, !FloatOrder F, !FloatRounds F}.
Local Open Scope Q_scope.

(** The median of a winner is a float of the format. *)
Definition median_in_format (w : Winner F) : Prop :=
  ∀ p, perf_snapshot_from_mapping (graded_winner w) = Ok (Some p) → f_double (axis_of p GRADED_INTVTY_P50) = true.

(** [n] winners lifted one after the other, none of them by the baseline's or a correctness fix's exemption; refused
    winners leave the session as it was. *)
Inductive lifted (derived : bool) (noise : F) : nat → Session F → Session F → Prop :=
| lifted_none s : lifted derived noise 0 s s
| lifted_refused n s s1 s2 w : lifted derived noise n s s1 → lift derived noise w s1 = Ok (false, s2) → lifted derived noise n s s2
| lifted_one n s s1 s2 w :
    lifted derived noise n s s1 → well_formed w = true → median_in_format w → correctness_fix w = false →
    before_baseline (w_kind w) (w_variant w) s1 = false → lift derived noise w s1 = Ok (true, s2) →
    lifted derived noise (S n) s s2.

Lemma lift_refused derived (noise : F) w s s' : lift derived noise w s = Ok (false, s') → s' = s.
Proof.
  unfold lift, lift_to_current_best. intros H. apply res_bind_ok in H as ([] & _ & H); [by simplify_eq|].
  apply res_bind_ok in H as (? & _ & [=]).
Qed.
Lemma lift_grading derived (noise : F) w s b s' :
  lift derived noise w s = Ok (b, s') → s_grading s' = s_grading s.
Proof. intros H. destruct b; [by apply lift_accepted in H as (? & _ & -> & _)|by apply lift_refused in H as ->]. Qed.

Lemma positive_float_read v (x : F) : optional_positive_float v = Ok (Some x) → f_isfinite x = true ∧ fleb x fzero = false.
Proof.
  unfold optional_positive_float. intros H. apply res_bind_ok in H as ([y|] & Hy & [= H]).
  destruct (fleb y fzero) eqn:E; [done|]. simplify_eq. split; [|done]. unfold to_float in Hy.
  by destruct v; try done; cbn in Hy; repeat case_match; simplify_eq.
Qed.
(** A snapshot's median is finite and positive. *)
Lemma snapshot_median source (p : list (string * F)) : perf_snapshot_from_mapping source = Ok (Some p) →
  f_isfinite (axis_of p GRADED_INTVTY_P50) = true ∧ fleb (axis_of p GRADED_INTVTY_P50) fzero = false.
Proof.
  unfold perf_snapshot_from_mapping. intros H. apply res_bind_ok in H as (i & _ & H). apply res_bind_ok in H as (m & Hm & H).
  do 8 (apply res_bind_ok in H as (? & _ & H)). destruct i as [i|], m as [m|]; try done.
  cbv beta iota zeta in H. match type of H with match ?t with Some _ => _ | None => _ end = _ => destruct t as [tot|]; [|done] end. do 8 (apply res_bind_ok in H as (? & _ & H)). injection H as <-. apply positive_float_read in Hm as [Hf H0].
  unfold axis_of. match goal with |- context [dget ?k ?l] => change (dget k l) with (Some m) end. cbv beta iota. destruct (feqb m fzero) eqn:E; [|done]. apply feqb_fleb in E as [E _]. congruence.
Qed.

(** A lift that clears the median's bar multiplies the anchor's median. *)
Definition growth : Q := (103 # 100) - slack.
Lemma cleared_median band (p r : list (string * F)) :
  finite_double (axis_of p GRADED_INTVTY_P50) → finite_double (axis_of r GRADED_INTVTY_P50) → 0 < fv (axis_of p GRADED_INTVTY_P50) →
  refused_gates band p r = [] → fv (axis_of r GRADED_INTVTY_P50) * growth <= fv (axis_of p GRADED_INTVTY_P50).
Proof.
  unfold refused_gates. intros Hv Hb H0 H. apply app_nil in H as [H _].
  destruct (fleb AGENTX_KEEP_P50_THRESHOLD_PCT _) eqn:E in H; [|done]. clear H. revert E Hv Hb H0.
  generalize (axis_of p GRADED_INTVTY_P50) (axis_of r GRADED_INTVTY_P50). intros v base. unfold gain_pct_or_zero.
  pose proof (of_Z_double (F := F) 3 ltac:(lia)) as H3. assert (fv (f_of_Z 3 : F) == 3) as E3 by (by rewrite of_Z_value).
  destruct (fleb base fzero) eqn:Eb.
  { intros E. apply leb_values in E; [|done|apply fzero_double]. unfold AGENTX_KEEP_P50_THRESHOLD_PCT in E. rewrite E3, fzero_value in E. by compute in E. }
  intros E Hv Hb H0. apply leb_values_false in Eb; [|done|apply fzero_double]. rewrite fzero_value in Eb.
  assert (growth == 1 + fv (f_of_Z 3 : F) / 100 - slack) as -> by (rewrite E3; unfold growth; field).
  apply percent_floor; try done; [rewrite E3; by compute|]. fold (percent v base) in E.
  destruct (fltb (percent v base) _) eqn:El; [|done]. apply fltb_asym_leb in El. unfold AGENTX_KEEP_P50_THRESHOLD_PCT in E. congruence.
Qed.

End compound.

(** ** An AgentX session with a latency budget *)

Module KeepDemo.
Definition measured (p50 p90 output e2el : Q) : pydict Q :=
  [(GRADED_INTVTY, PFloat p90); (GRADED_INTVTY_P50, PFloat p50); (GRADED_TOTAL, PFloat 900%Q);
   (GRADED_OUTPUT, PFloat output); (GRADED_DURATION, PFloat 3600%Q); (GRADED_ERROR_RATE, PFloat 0%Q);
   ("e2el_mean_ms", PFloat e2el)].
Definition session : Session Q :=
  {| s_current_best := []; s_baseline_perf := measured 50 20 100 800; s_baseline_tput := 100%Q;
     s_grading := PDict [("objective", PStr GRADED_INTVTY); ("noise_pct", PFloat 5%Q)]; s_agentx_backend := "";
     s_latency_budget_ms := 1000%Q; s_power_budget_w := 0%Q; s_power_budget_per_gpu_w := [] |}.
Definition winner (p50 output e2el : Q) : Winner Q :=
  {| w_kind := "explore"; w_variant := measured p50 20 output e2el; w_tput := output;
     w_launch := [("action", PStr "explore"); ("extra_server_args", PStr "--enable-x")] |}.

Definition after (w : Winner Q) (s : Session Q) : Session Q := match lift true 5%Q w s with Ok (_, s') => s' | Raise _ => s end.
Definition once : Session Q := after (winner 52 101 820) session.
Definition twice : Session Q := after (winner 54 101 900) once.

Definition start : list (string * Q) :=
  match resolve_grading_anchor_perf session with Ok (Some r, _) => r | _ => [] end.
Definition accepts (w : Winner Q) (s : Session Q) : option bool :=
  match lift true 5%Q w s with Ok (b, _) => Some b | Raise _ => None end.

(** A slower winner is refused by the latency budget though its median won, and another one by the median's bar. *)
Example kept_and_refused :
  (λ w, accepts w session) <$> [winner 52 101 820; winner 60 101 1200; winner 51 101 820] = [Some true; Some false; Some false].
Proof. vm_compute. reflexivity. Qed.
Example lifted_twice : lifted true 5%Q 2 session twice.
Proof.
  apply (lifted_one _ _ _ _ once _ (winner 54 101 900)); [|vm_compute; reflexivity|done|vm_compute; reflexivity..].
  apply (lifted_one _ _ _ _ session _ (winner 52 101 820)); [constructor|vm_compute; reflexivity|done|vm_compute; reflexivity..].
Qed.
End KeepDemo.

Lemma kept_is_the_anchor_witness :
  ∃ p, resolve_grading_anchor_perf KeepDemo.once = Ok (Some p, "") ∧ dget GRADED_OUTPUT p = Some 101%Q.
Proof.
  eexists. split.
  - refine (kept_is_the_anchor true 5%Q (KeepDemo.winner 52 101 820) KeepDemo.session _ _ _ _ _); vm_compute; reflexivity.
  - vm_compute. reflexivity.
Defined.
(** At doubles: a median of 115.463 over 112.1 computes a gain of 3.0 and is kept, though the exact ratio is below 1.03. *)
Module AtTheBar.
Definition fl (n : Z) (d : positive) : binary64 := f_lit n d.
Definition measured (p50 : binary64) : pydict binary64 :=
  [(GRADED_INTVTY, PFloat (fl 20 1)); (GRADED_INTVTY_P50, PFloat p50); (GRADED_TOTAL, PFloat (fl 900 1));
   (GRADED_OUTPUT, PFloat (fl 100 1)); (GRADED_DURATION, PFloat (fl 3600 1)); (GRADED_ERROR_RATE, PFloat fzero);
   ("e2el_mean_ms", PFloat (fl 800 1))].
Definition session : Session binary64 :=
  {| s_current_best := []; s_baseline_perf := measured (fl 1121 10); s_baseline_tput := fl 100 1;
     s_grading := PDict [("objective", PStr GRADED_INTVTY); ("noise_pct", PFloat (fl 5 1))]; s_agentx_backend := "";
     s_latency_budget_ms := fzero; s_power_budget_w := fzero; s_power_budget_per_gpu_w := [] |}.
Definition winner : Winner binary64 :=
  {| w_kind := "explore"; w_variant := measured (fl 115463 1000); w_tput := fl 101 1; w_launch := [("action", PStr "explore")] |}.
Definition once : Session binary64 := match lift true (fl 5 1) winner session with Ok (_, s') => s' | Raise _ => session end.
Definition start : list (string * binary64) :=
  match resolve_grading_anchor_perf session with Ok (Some r, _) => r | _ => [] end.

Example below_exactly : Qle_bool (b64_exact (fl 1121 10) * (103 # 100)) (b64_exact (fl 115463 1000)) = false.
Proof. vm_compute. reflexivity. Qed.
Lemma once_lifted : lifted true (fl 5 1) 1 session once.
Proof.
  apply (lifted_one _ _ _ _ session _ winner); [constructor|vm_compute; reflexivity| |vm_compute; reflexivity..].
  intros p Hp. vm_compute in Hp. injection Hp as <-. vm_compute. reflexivity.
Qed.
End AtTheBar.

Lemma best_within_budgets_witness :
  latency_veto_reason (dget_or_none "e2el_mean_ms" (s_current_best KeepDemo.once)) 1000%Q = Ok "" ∧
  power_veto_reason (dget_or_none "gpu_power_by_gpu_w" (s_current_best KeepDemo.once)) 0%Q [] = Ok "".
Proof.
  refine (best_within_budgets true 5%Q (KeepDemo.winner 52 101 820) KeepDemo.session KeepDemo.once true 5%Q 100%Q _ _ _ _ _ _);
    vm_compute; reflexivity.
Defined.
