(* ===== verification/ServerArgs.v ===== *)
(** * Server arguments

    [inference_optimizer/grid_server_args.py]: which flags a launch's argument string asserts once removals, a new
    assignment and the launch before it are composed.  An argument string is the list of its tokens: the string is
    those tokens joined by single spaces, and no token carries quotes, JSON brackets or whitespace, so the shell-quote
    and JSON handling of the tokenizers leaves it as it is.  A removal spec is a string of the same form. *)

From stdpp Require Import base list strings pretty sets gmap sorting.
From Stdlib Require Import ZArith Lia Ascii.
From S2P Require Import Prelude PyFloat PyVal OperatorName Dicts TestRequests.

(** ** Tokens *)

Definition is_long (tok : string) : bool := py_startswith "--" tok.
(** [tok.partition("=")] *)
Fixpoint partition_eq (tok : string) : string * option string :=
  match tok with
  | EmptyString => ("", None)
  | String c tok' => if Ascii.eqb c "=" then ("", Some tok')
                     else let '(flag, value) := partition_eq tok' in (String c flag, value)
  end.
Definition _MULTI_VALUE_FLAGS : list string := ["--cuda-graph-bs"; "--cuda-graph-max-bs"].

(** ** What is accepted *)

(** [_NUMERIC_VALUE_RE.match]: digits in groups parted by a point or a comma *)
Fixpoint numeric_chars (after_digit : bool) (l : list ascii) : bool :=
  match l with
  | [] => after_digit
  | c :: l' => if is_digit c then numeric_chars true l'
               else after_digit && (Ascii.eqb c "." || Ascii.eqb c ",") && numeric_chars false l'
  end.
Definition is_numeric (tok : string) : bool := numeric_chars false (chars tok).
(** [_UNSAFE_SERVER_ARG_CHARS_RE] *)
Definition unsafe_char (c : ascii) : bool :=
  bool_decide (c ∈ [";"; "&"; "|"; "`"; "$"; "<"; ">"; "013"; "010"]%char).

Inductive expecting := EPositional | EMany | EAny | ENumeric.
(** One token of the loop of [validate_server_args_shell_safe]; nothing when the token is refused. *)
Definition next_expecting (state : expecting) (tok : string) : option expecting :=
  if py_startswith "-" tok then
    Some (match partition_eq tok with
          | (_, Some _) => EPositional
          | (_, None) => if bool_decide (tok ∈ _MULTI_VALUE_FLAGS) then EMany else EAny
          end)
  else match state with
       | EMany => if is_numeric tok then Some EMany else None
       | EAny => Some ENumeric
       | ENumeric => if is_numeric tok then Some ENumeric else None
       | EPositional => None
       end.
Fixpoint validate_loop (state : expecting) (tokens : list string) : res unit :=
  match tokens with
  | [] => Ok ()
  | tok :: tokens' =>
      match next_expecting state tok with
      | Some state' => validate_loop state' tokens'
      | None => Raise (ValueError "extra_server_args must be argv-like flags, not bare positional arguments")
      end
  end.
Definition validate_server_args_shell_safe (args : list string) : res unit :=
  if bool_decide (args = []) then Ok ()
  else if existsb (λ tok, existsb unsafe_char (chars tok)) args
  then Raise (ValueError "extra_server_args contains shell control characters")
  else validate_loop EPositional args.

(** ** Removals *)

(** The options one spec names; [(flag, None)] drops every copy of [flag]. *)
Fixpoint parse_spec (tokens : list string) : list (string * option string) :=
  match tokens with
  | [] => []
  | tok :: rest =>
      if negb (is_long tok) then parse_spec rest
      else match partition_eq tok with
           | (flag, Some value) => (flag, Some value) :: parse_spec rest
           | (_, None) =>
               match rest with
               | next :: rest' => if is_long next then (tok, None) :: parse_spec rest else (tok, Some next) :: parse_spec rest'
               | [] => [(tok, None)]
               end
           end
  end.
Definition _parse_removal_specs (specs : list (list string)) : list (string * option string) := concat (parse_spec <$> specs).
Definition removal_option_names (specs : list (list string)) : list string :=
  foldl (λ names spec, if bool_decide (spec.1 ∈ names) then names else names ++ [spec.1]) [] (_parse_removal_specs specs).

Definition _removed_token_count (removals : list (string * option string)) (tok : string) (rest : list string) : nat :=
  if negb (is_long tok) then 0
  else
    let '(flag, value) := partition_eq tok in
    let drops_flag := bool_decide ((flag, None) ∈ removals) in
    let drops_value := match value with Some _ => drops_flag || bool_decide ((flag, value) ∈ removals) | None => false end in
    if drops_value then 1
    else
      let drops_next := match rest with
                        | next :: _ => negb (is_long next) && (drops_flag || bool_decide ((flag, Some next) ∈ removals))
                        | [] => false
                        end in
      if drops_next then 2 else if drops_flag then 1 else 0.
Fixpoint remove_loop (removals : list (string * option string)) (tokens : list string) : list string :=
  match tokens with
  | [] => []
  | tok :: rest =>
      match _removed_token_count removals tok rest with
      | 0 => tok :: remove_loop removals rest
      | 1 => remove_loop removals rest
      | _ => match rest with [] => [] | _ :: rest' => remove_loop removals rest' end
      end
  end.
Definition remove_server_args (args : list string) (specs : list (list string)) : list string :=
  if bool_decide (args = []) || bool_decide (specs = []) then args
  else remove_loop (_parse_removal_specs specs) args.

Definition spec_tokens (spec : string * option string) : list string :=
  match spec.2 with Some value => [spec.1; value] | None => [spec.1] end.
Definition removals_absent_from_args (args : list string) (specs : list (list string)) : list (list string) :=
  foldl (λ kept spec,
      if bool_decide (spec_tokens spec ∉ kept) && bool_decide (remove_server_args args [spec_tokens spec] = args)
      then kept ++ [spec_tokens spec] else kept)
    [] (_parse_removal_specs specs).

Definition _BENCHMARK_HARNESS_FLAG_DENYLIST : list (list string) := [["--no-enable-prefix-caching"]].
Definition strip_benchmark_harness_flags (args : list string) : list string :=
  remove_server_args args _BENCHMARK_HARNESS_FLAG_DENYLIST.

(** ** Composition *)

Definition merge_server_args (parts : list (list string)) : list string := concat parts.
(** [compose_server_args]; [replace] is [args_mode == "replace"].  The warning it may log is not modelled. *)
Definition compose_server_args (inherited base variant : list string) (specs : list (list string)) (replace : bool) : list string :=
  if replace then merge_server_args [remove_server_args base specs; remove_server_args variant specs]
  else merge_server_args [remove_server_args (merge_server_args [inherited; base]) specs; variant].

(** [_flag_pair_at]: the flag with its values, and the tokens past them *)
Fixpoint span_values (tokens : list string) : list string * list string :=
  match tokens with
  | tok :: rest => if is_long tok then ([], tokens) else let '(vs, rest') := span_values rest in (tok :: vs, rest')
  | [] => ([], [])
  end.
Definition _flag_pair_at (tok : string) (rest : list string) : list string * list string :=
  match partition_eq tok with
  | (flag, Some value) => (if String.eqb value "" then [flag] else [flag; value], rest)
  | (_, None) =>
      if bool_decide (tok ∈ _MULTI_VALUE_FLAGS) then let '(vs, rest') := span_values rest in (tok :: vs, rest')
      else match rest with
           | next :: rest' => if is_long next then ([tok], rest) else ([tok; next], rest')
           | [] => ([tok], [])
           end
  end.

(** The loop of [dedupe_extra_server_args]: [pair_by_flag] in insertion order, which is its [order].  Each round takes at
    least one token, so as much fuel as there are tokens is enough. *)
Definition positional_key (n : nat) : string := ("__positional_" +:+ pretty n +:+ "__")%string.
Fixpoint dedupe_loop (fuel : nat) (tokens : list string) (pair_by_flag : list (string * list string)) : list (string * list string) :=
  match fuel, tokens with
  | S fuel, tok :: rest =>
      if is_long tok then
        let '(flag_pair, rest') := _flag_pair_at tok rest in
        dedupe_loop fuel rest' (dset (default "" (head flag_pair)) flag_pair pair_by_flag)
      else dedupe_loop fuel rest (dset (positional_key (length pair_by_flag)) [tok] pair_by_flag)
  | _, _ => pair_by_flag
  end.
Definition dedupe_extra_server_args (args : list string) : list string := concat (dvals (dedupe_loop (length args) args [])).

Definition merge_cumulative_extra_server_args (base candidate full : list string) : list string :=
  dedupe_extra_server_args
    (if bool_decide (full ≠ []) && bool_decide (full ≠ candidate) then full
     else if bool_decide (candidate ≠ []) && bool_decide (base ≠ []) then
       if bool_decide (candidate = base) || (bool_decide (base `prefix_of` candidate) && bool_decide (length base < length candidate))
          || match base with [tok] => bool_decide (tok ∈ candidate) | _ => false end
       then candidate else base ++ candidate
     else if bool_decide (candidate ≠ []) then candidate else if bool_decide (full ≠ []) then full else base).

(** ** Which value each flag has *)

(** [_flag_values] of [contracts/recipe.py], before the values of a flag are joined *)
Definition flag_values_step (st : list (string * list string) * string) (tok : string) : list (string * list string) * string :=
  let '(values, flag) := st in
  if is_long tok then
    let '(flag', inline) := partition_eq tok in
    (dset flag' (match inline with Some v => if String.eqb v "" then [] else [v] | None => [] end) values, flag')
  else (dset flag (default [] (dget flag values) ++ [tok]) values, flag).
Definition flag_value_parts (args : list string) : list (string * list string) := (foldl flag_values_step ([], "") args).1.
Definition _flag_values (args : list string) : list (string * string) := (λ kv, (kv.1, join " " kv.2)) <$> flag_value_parts args.

(** ** Options as they are spelt *)

(** One option of an argument string: its flag, its values, and whether it is spelt [--flag=value]. *)
Record Opt := { o_flag : string; o_inline : bool; o_values : list string }.
Definition spell_one (o : Opt) : list string :=
  match o_inline o, o_values o with
  | true, [v] => [(o_flag o +:+ "=" +:+ v)%string]
  | _, vs => o_flag o :: vs
  end.
Definition spell (os : list Opt) : list string := concat (spell_one <$> os).

Definition safe_token (tok : string) : bool := forallb (λ c, negb (unsafe_char c)) (chars tok).
(** An option the composition reads back as it was written: one value at most unless the flag takes several, and then
    numbers, no value that looks like a flag. *)
Definition tidy (o : Opt) : bool :=
  is_long (o_flag o) && negb (existsb (λ c, Ascii.eqb c "=") (chars (o_flag o))) && safe_token (o_flag o)
  && forallb (λ v, negb (is_long v) && negb (String.eqb v "") && safe_token v) (o_values o)
  && (if o_inline o then bool_decide (length (o_values o) = 1) && bool_decide (o_flag o ∉ _MULTI_VALUE_FLAGS)
      else if bool_decide (o_flag o ∈ _MULTI_VALUE_FLAGS) then forallb is_numeric (o_values o)
      else bool_decide (length (o_values o) ≤ 1)).

(** The last assignment of each flag. *)
Definition assign (d : list (string * list string)) (os : list Opt) : list (string * list string) :=
  foldl (λ d o, dset (o_flag o) (o_values o) d) d os.

#[local] Arguments Ascii.eqb : simpl never.

Lemma partition_eq_none f : existsb (λ c, Ascii.eqb c "=") (chars f) = false → partition_eq f = (f, None).
Proof.
  induction f as [|c f IH]; simpl; [done|]. intros [Hc H]%orb_false_iff. rewrite (IH H).
  by rewrite Hc.
Qed.
Lemma partition_eq_some f v : existsb (λ c, Ascii.eqb c "=") (chars f) = false → partition_eq (f +:+ "=" +:+ v) = (f, Some v).
Proof.
  induction f as [|c f IH]; simpl; [done|]. intros [Hc H]%orb_false_iff. cbn in IH. rewrite (IH H).
  by rewrite Hc.
Qed.
Lemma is_long_spec tok : is_long tok = true ↔ ∃ name, tok = ("--" +:+ name)%string.
Proof.
  unfold is_long, py_startswith. destruct tok as [|a [|b name]]; cbn [String.prefix].
  - by split; [|intros [? [=]]].
  - destruct (ascii_dec _ a); by split; [|intros [? [=]]].
  - destruct (ascii_dec _ a) as [<-|Ha]; [destruct (ascii_dec _ b) as [<-|Hb]|].
    + split; [|by destruct name]. intros _. by exists name.
    + split; [done|]. intros [? [= ->]]. done.
    + split; [done|]. intros [? [= -> ->]]. done.
Qed.
Lemma is_long_app f v : is_long f = true → is_long (f +:+ v) = true.
Proof. rewrite !is_long_spec. intros [name ->]. by exists (name +:+ v)%string. Qed.
Lemma is_long_dash tok : is_long tok = true → py_startswith "-" tok = true.
Proof. rewrite is_long_spec. intros [name ->]. done. Qed.

(** *** A tidy option, token by token *)

Section tidy.
Context (o : Opt) (Ht : tidy o = true).

Lemma tidy_flag : is_long (o_flag o) = true ∧ partition_eq (o_flag o) = (o_flag o, None).
Proof using Ht.
  unfold tidy in Ht. rewrite !andb_true_iff, negb_true_iff in Ht. destruct Ht as ((((Hl & He) & _) & _) & _).
  split; [done|]. by apply partition_eq_none.
Qed.
Lemma tidy_values : Forall (λ v, is_long v = false ∧ v ≠ "" ∧ safe_token v = true) (o_values o).
Proof using Ht.
  unfold tidy in Ht. rewrite !andb_true_iff in Ht. destruct Ht as ((_ & Hv) & _).
  apply Is_true_true, forallb_True in Hv. eapply Forall_impl; [exact Hv|]. cbv beta. intros v Hx%Is_true_true.
  rewrite !andb_true_iff, !negb_true_iff, String.eqb_neq in Hx. tauto.
Qed.
(** Its spelling: inline with one value, or the flag and its values. *)
Lemma tidy_spelling :
  (∃ v, o_inline o = true ∧ o_values o = [v] ∧ o_flag o ∉ _MULTI_VALUE_FLAGS ∧ spell_one o = [(o_flag o +:+ "=" +:+ v)%string]
        ∧ partition_eq (o_flag o +:+ "=" +:+ v) = (o_flag o, Some v))
  ∨ (o_inline o = false ∧ spell_one o = o_flag o :: o_values o
     ∧ ((o_flag o ∈ _MULTI_VALUE_FLAGS ∧ forallb is_numeric (o_values o) = true)
        ∨ (o_flag o ∉ _MULTI_VALUE_FLAGS ∧ length (o_values o) ≤ 1))).
Proof using Ht.
  unfold tidy in Ht. rewrite !andb_true_iff, negb_true_iff in Ht. destruct Ht as ((((_ & He) & _) & _) & Hs). unfold spell_one.
  destruct (o_inline o).
  - left. apply andb_true_iff in Hs as [Hl%bool_decide_eq_true Hm%bool_decide_eq_true].
    destruct (o_values o) as [|v [|??]]; try done. exists v. split_and!; try done. by apply partition_eq_some.
  - right. split; [done|]. split; [done|]. case_bool_decide; [auto|]. apply bool_decide_eq_true in Hs. auto.
Qed.
End tidy.

(** *** Reading back *)

Lemma dset_dset {V} k (v w : V) d : dset k w (dset k v d) = dset k w d.
Proof.
  induction d as [|[k' x] d IH]; simpl; [by rewrite bool_decide_eq_true_2|].
  case_bool_decide; simpl; [by rewrite bool_decide_eq_true_2|]. rewrite bool_decide_eq_false_2 by done. by rewrite IH.
Qed.

Lemma values_appended f vs acc d :
  Forall (λ v, is_long v = false) vs →
  foldl flag_values_step (dset f acc d, f) vs = (dset f (acc ++ vs) d, f).
Proof.
  intros Hv. revert acc. induction Hv as [|v vs Hl _ IH]; intros acc; simpl; [by rewrite app_nil_r|].
  rewrite Hl, dget_dset_eq, dset_dset. simpl. rewrite IH. by rewrite <- app_assoc.
Qed.
Lemma flag_values_one o st : tidy o = true →
  foldl flag_values_step st (spell_one o) = (dset (o_flag o) (o_values o) st.1, o_flag o).
Proof.
  intros Ht. destruct st as [d fl]. destruct (tidy_flag _ Ht) as [Hl Hp]. pose proof (tidy_values _ Ht) as Hv.
  destruct (tidy_spelling _ Ht) as [(v & _ & Ev & _ & -> & Hpv)|(_ & -> & _)]; cbn [foldl fst].
  - unfold flag_values_step. rewrite is_long_app, Hpv by done. rewrite Ev in *. apply Forall_cons in Hv as [(_ & Hne & _) _].
    apply String.eqb_neq in Hne. by rewrite Hne.
  - unfold flag_values_step at 2. rewrite Hl, Hp. apply (values_appended _ _ []).
    eapply Forall_impl; [exact Hv|]. naive_solver.
Qed.
Lemma flag_values_spell os d fl : Forall (λ o, tidy o = true) os →
  ∃ fl', foldl flag_values_step (d, fl) (spell os) = (assign d os, fl').
Proof.
  intros Ht. revert d fl. induction Ht as [|o os Ho _ IH]; intros d fl; [by exists fl|].
  unfold spell. simpl. rewrite foldl_app, flag_values_one by done. apply IH.
Qed.
Lemma flag_value_parts_spell os : Forall (λ o, tidy o = true) os → flag_value_parts (spell os) = assign [] os.
Proof. intros Ht. unfold flag_value_parts. by destruct (flag_values_spell os [] "" Ht) as [fl' ->]. Qed.

(** *** Removing *)

Definition starts_long (l : list string) : Prop := match l with tok :: _ => is_long tok = true | [] => True end.
Lemma starts_long_one o l : tidy o = true → starts_long (spell_one o ++ l).
Proof.
  intros Ht. destruct (tidy_flag _ Ht) as [Hl _].
  destruct (tidy_spelling _ Ht) as [(v & _ & _ & _ & -> & _)|(_ & -> & _)]; [by apply is_long_app|done].
Qed.
Lemma starts_long_spell os : Forall (λ o, tidy o = true) os → starts_long (spell os).
Proof. destruct 1 as [|o os Ho _]; [done|]. by apply starts_long_one. Qed.

Definition bare (R : list string) : list (string * option string) := (λ f, (f, None)) <$> R.
Lemma elem_of_bare f v R : (f, v) ∈ bare R ↔ f ∈ R ∧ v = None.
Proof. unfold bare. rewrite list_elem_of_fmap. naive_solver. Qed.

Lemma remove_values R vs l : Forall (λ v, is_long v = false) vs → remove_loop R (vs ++ l) = vs ++ remove_loop R l.
Proof.
  induction 1 as [|v vs Hv _ IH]; [done|]. cbn [app remove_loop]. unfold _removed_token_count. rewrite Hv. cbn [negb]. by rewrite IH.
Qed.
Lemma remove_one R o l : tidy o = true → starts_long l → (o_flag o ∈ R → length (o_values o) ≤ 1) →
  remove_loop (bare R) (spell_one o ++ l) = (if bool_decide (o_flag o ∈ R) then [] else spell_one o) ++ remove_loop (bare R) l.
Proof.
  intros Ht Hl Hd. destruct (tidy_flag _ Ht) as [Hf Hp]. pose proof (tidy_values _ Ht) as Hv.
  assert (Forall (λ v, is_long v = false) (o_values o)) as Hnl by (eapply Forall_impl; [exact Hv|naive_solver]).
  assert (bool_decide ((o_flag o, None) ∈ bare R) = bool_decide (o_flag o ∈ R)) as Eb.
  { apply bool_decide_ext. rewrite elem_of_bare. naive_solver. }
  assert (∀ x, bool_decide ((o_flag o, Some x) ∈ bare R) = false) as Es.
  { intros x. apply bool_decide_eq_false_2. rewrite elem_of_bare. naive_solver. }
  destruct (tidy_spelling _ Ht) as [(v & _ & Ev & _ & -> & Hpv)|(_ & -> & _)]; cbn [app remove_loop]; unfold _removed_token_count.
  - rewrite is_long_app, Hpv by done. cbn [negb]. rewrite Eb, Es, orb_false_r. destruct (bool_decide (o_flag o ∈ R)); [done|].
    destruct l as [|x l]; cbn [starts_long] in Hl; [done|]. by rewrite Hl.
  - rewrite Hf, Hp. cbn [negb]. rewrite Eb. destruct (bool_decide (o_flag o ∈ R)) eqn:HR.
    + apply bool_decide_eq_true in HR. specialize (Hd HR). destruct (o_values o) as [|v [|??]]; cbn [app]; [|by rewrite (Forall_inv Hnl)|simpl in Hd; lia].
      destruct l as [|x l]; cbn [starts_long] in Hl; [done|]. by rewrite Hl.
    + destruct (o_values o) as [|v vs] eqn:Ev; cbn [app].
      * destruct l as [|x l]; [done|]. cbn [starts_long] in Hl. by rewrite Hl.
      * rewrite Es, andb_false_r. by apply (f_equal (cons (o_flag o))), (remove_values _ (v :: vs)).
Qed.
Lemma remove_spell R os :
  Forall (λ o, tidy o = true) os → Forall (λ o, o_flag o ∈ R → length (o_values o) ≤ 1) os →
  remove_loop (bare R) (spell os) = spell (filter (λ o, o_flag o ∉ R) os).
Proof.
  intros Ht Hd. induction Ht as [|o os Ho Ht IH]; [done|]. apply Forall_cons in Hd as [Hd1 Hd].
  unfold spell in *. cbn [fmap list_fmap concat]. rewrite remove_one by (try done; by apply starts_long_spell).
  rewrite IH, filter_cons by done. case_bool_decide; case_decide; try done.
Qed.

(** *** Removing repeats *)

Lemma span_values_app vs l : Forall (λ v, is_long v = false) vs → starts_long l → span_values (vs ++ l) = (vs, l).
Proof.
  induction 1 as [|v vs Hv _ IH]; intros Hl; cbn [app span_values].
  - destruct l as [|x l]; [done|]. cbn [span_values starts_long] in *. by rewrite Hl.
  - rewrite Hv, IH by done. done.
Qed.
Lemma flag_pair_one o l : tidy o = true → starts_long l →
  ∃ tok rest, spell_one o ++ l = tok :: rest ∧ is_long tok = true ∧ _flag_pair_at tok rest = (o_flag o :: o_values o, l).
Proof.
  intros Ht Hl. destruct (tidy_flag _ Ht) as [Hf Hp]. pose proof (tidy_values _ Ht) as Hv.
  assert (Forall (λ v, is_long v = false) (o_values o)) as Hnl by (eapply Forall_impl; [exact Hv|naive_solver]).
  destruct (tidy_spelling _ Ht) as [(v & _ & Ev & _ & -> & Hpv)|(_ & -> & Hm)]; eexists _, _; (split; [reflexivity|]);
    unfold _flag_pair_at.
  - split; [by apply is_long_app|]. rewrite Hpv, Ev. rewrite Ev in Hv. apply Forall_cons in Hv as [(_ & Hne & _) _].
    apply String.eqb_neq in Hne. by rewrite Hne.
  - split; [done|]. rewrite Hp. destruct Hm as [[Hm _]|[Hm Hlen]].
    + rewrite bool_decide_eq_true_2 by done. by rewrite span_values_app.
    + rewrite bool_decide_eq_false_2 by done. destruct (o_values o) as [|v [|??]]; cbn [app]; [|by rewrite (Forall_inv Hnl)|simpl in Hlen; lia].
      destruct l as [|x l]; [done|]. cbn [starts_long] in Hl. by rewrite Hl.
Qed.

Definition assign_pairs (d : list (string * list string)) (os : list Opt) : list (string * list string) :=
  foldl (λ d o, dset (o_flag o) (o_flag o :: o_values o) d) d os.
Lemma dedupe_loop_spell os fuel d : Forall (λ o, tidy o = true) os → length (spell os) ≤ fuel →
  dedupe_loop fuel (spell os) d = assign_pairs d os.
Proof.
  intros Ht. revert fuel d. induction Ht as [|o os Ho Ht IH]; intros fuel d Hf; [by destruct fuel|].
  unfold spell in *. cbn [fmap list_fmap concat] in *.
  destruct (flag_pair_one o (spell os) Ho (starts_long_spell _ Ht)) as (tok & rest & E & Hlong & Hpair). unfold spell in *.
  rewrite E in *. destruct fuel as [|fuel]; [simpl in Hf; lia|]. cbn [dedupe_loop]. rewrite Hlong, Hpair. apply IH.
  assert (length (spell_one o) ≥ 1) by (unfold spell_one; repeat case_match; simpl; lia).
  rewrite <- E, length_app in Hf. lia.
Qed.

(** The options of a dict of values, spelt flag first. *)
Definition to_opts (d : list (string * list string)) : list Opt := (λ kv, {| o_flag := kv.1; o_inline := false; o_values := kv.2 |}) <$> d.
Lemma dset_pairs k v (d : list (string * list string)) :
  dset k (k :: v) ((λ kv, (kv.1, kv.1 :: kv.2)) <$> d) = (λ kv, (kv.1, kv.1 :: kv.2)) <$> dset k v d.
Proof. induction d as [|[k' v'] d IHd]; [done|]. cbn. case_bool_decide; [by subst|]. cbn. by rewrite IHd. Qed.
Lemma assign_pairs_assign os d :
  assign_pairs ((λ kv, (kv.1, kv.1 :: kv.2)) <$> d) os = (λ kv, (kv.1, kv.1 :: kv.2)) <$> assign d os.
Proof.
  revert d. induction os as [|o os IH]; intros d; [done|]. cbn [assign assign_pairs foldl]. by rewrite dset_pairs, IH.
Qed.
Lemma dedupe_spell os : Forall (λ o, tidy o = true) os → dedupe_extra_server_args (spell os) = spell (to_opts (assign [] os)).
Proof.
  intros Ht. unfold dedupe_extra_server_args. rewrite dedupe_loop_spell by done.
  change (assign_pairs [] os) with (assign_pairs ((λ kv, (kv.1, kv.1 :: kv.2)) <$> []) os). rewrite assign_pairs_assign.
  unfold spell, to_opts, dvals. rewrite <- !list_fmap_compose. f_equal.
Qed.

Lemma assign_elem os d k v : (k, v) ∈ assign d os → (k, v) ∈ d ∨ ∃ o, o ∈ os ∧ o_flag o = k ∧ o_values o = v.
Proof.
  revert d. induction os as [|o os IH]; intros d; [by left|]. intros [H|(o' & Ho & ? & ?)]%IH.
  - apply dset_elem in H as [[-> ->]|H]; [|by left]. right. exists o. split; [by left|done].
  - right. exists o'. split; [by right|done].
Qed.
Lemma assign_NoDup os d : NoDup d.*1 → NoDup (assign d os).*1.
Proof. revert d. induction os as [|o os IH]; intros d Hd; [done|]. by apply IH, NoDup_dset. Qed.
Lemma tidy_not_inline o : tidy o = true → tidy {| o_flag := o_flag o; o_inline := false; o_values := o_values o |} = true.
Proof.
  unfold tidy. rewrite !andb_true_iff. intros (H & Hs). split; [done|]. cbn. destruct (o_inline o); [|done].
  apply andb_true_iff in Hs as [Hl%bool_decide_eq_true Hm%bool_decide_eq_true]. rewrite bool_decide_eq_false_2 by done.
  apply bool_decide_eq_true_2. lia.
Qed.
Lemma tidy_to_opts os : Forall (λ o, tidy o = true) os → Forall (λ o, tidy o = true) (to_opts (assign [] os)).
Proof.
  intros Ht. apply Forall_fmap, Forall_forall. intros [k v] [H%elem_of_nil|(o & Ho & <- & <-)]%assign_elem; [done|].
  apply tidy_not_inline. by eapply Forall_forall in Ht.
Qed.
Lemma assign_to_opts d0 d : NoDup (d0 ++ d).*1 → assign d0 (to_opts d) = d0 ++ d.
Proof.
  revert d0. induction d as [|[k v] d IH]; intros d0 Hnd; simpl; [by rewrite app_nil_r|].
  rewrite dset_notin, IH; [by rewrite <- app_assoc| |].
  - by rewrite <- app_assoc.
  - rewrite fmap_app, NoDup_app in Hnd. destruct Hnd as (_ & Hd & _). intros Hin. apply (Hd k Hin). simpl. by left.
Qed.

(** Removing repeats keeps the value every flag has. *)
Lemma dedupe_values os : Forall (λ o, tidy o = true) os →
  flag_value_parts (dedupe_extra_server_args (spell os)) = flag_value_parts (spell os).
Proof.
  intros Ht. rewrite dedupe_spell by done. rewrite !flag_value_parts_spell by (try done; by apply tidy_to_opts).
  apply (assign_to_opts []), assign_NoDup. constructor.
Qed.

(** *** Tidy options are accepted *)

Lemma safe_app a b : safe_token (a +:+ b) = safe_token a && safe_token b.
Proof.
  unfold safe_token. induction a as [|c a IH]; [done|].
  change (negb (unsafe_char c) && forallb (λ c, negb (unsafe_char c)) (chars (a +:+ b))
    = negb (unsafe_char c) && forallb (λ c, negb (unsafe_char c)) (chars a) && forallb (λ c, negb (unsafe_char c)) (chars b)).
  by rewrite IH, andb_assoc.
Qed.
Lemma safe_not_unsafe tok : safe_token tok = true → existsb unsafe_char (chars tok) = false.
Proof. unfold safe_token. induction (chars tok) as [|c l IH]; [done|]. cbn. rewrite andb_true_iff, negb_true_iff. intros [-> ?]. auto. Qed.
Lemma spell_safe os : Forall (λ o, tidy o = true) os → Forall (λ tok, safe_token tok = true) (spell os).
Proof.
  induction 1 as [|o os Ho _ IH]; [constructor|]. unfold spell. cbn [fmap list_fmap concat]. apply Forall_app. split; [|done].
  assert (safe_token (o_flag o) = true) as Hf by (unfold tidy in Ho; rewrite !andb_true_iff in Ho; tauto).
  pose proof (tidy_values _ Ho) as Hv. assert (Forall (λ v, safe_token v = true) (o_values o)) as Hs by (eapply Forall_impl; [exact Hv|naive_solver]).
  destruct (tidy_spelling _ Ho) as [(v & _ & Ev & _ & -> & _)|(_ & -> & _)]; [|by constructor].
  rewrite Ev in Hs. constructor; [|constructor]. rewrite !safe_app, Hf. by rewrite (Forall_inv Hs).
Qed.
Lemma numeric_no_dash tok : is_numeric tok = true → py_startswith "-" tok = false.
Proof.
  unfold is_numeric, py_startswith. destruct tok as [|c tok]; [done|]. cbn [String.prefix]. destruct (ascii_dec _ c) as [<-|]; done.
Qed.
Lemma validate_many vs l : forallb is_numeric vs = true → validate_loop EMany (vs ++ l) = validate_loop EMany l.
Proof.
  induction vs as [|v vs IH]; [done|]. cbn [forallb app validate_loop]. rewrite andb_true_iff. intros [Hv H].
  unfold next_expecting. rewrite numeric_no_dash, Hv by done. auto.
Qed.
Lemma validate_one o l st : tidy o = true → ∃ st', validate_loop st (spell_one o ++ l) = validate_loop st' l.
Proof.
  intros Ht. destruct (tidy_flag _ Ht) as [Hf Hp].
  destruct (tidy_spelling _ Ht) as [(v & _ & _ & _ & -> & Hpv)|(_ & -> & Hm)]; cbn [app validate_loop]; unfold next_expecting at 1.
  - rewrite is_long_dash, Hpv by (by apply is_long_app). by eexists.
  - rewrite is_long_dash, Hp by done. destruct Hm as [[Hm Hn]|[Hm Hlen]].
    + rewrite bool_decide_eq_true_2 by done. exists EMany. by apply validate_many.
    + rewrite bool_decide_eq_false_2 by done. destruct (o_values o) as [|v [|??]]; [by eexists| |simpl in Hlen; lia].
      cbn [app validate_loop]. unfold next_expecting. destruct (py_startswith "-" v); by eexists.
Qed.
Lemma tidy_accepted os : Forall (λ o, tidy o = true) os → validate_server_args_shell_safe (spell os) = Ok ().
Proof.
  intros Ht. unfold validate_server_args_shell_safe. case_bool_decide; [done|].
  assert (existsb (λ tok, existsb unsafe_char (chars tok)) (spell os) = false) as ->.
  { pose proof (spell_safe _ Ht) as Hs. clear -Hs. induction Hs as [|tok l Hx _ IH]; [done|]. cbn [existsb].
    by rewrite safe_not_unsafe, IH. }
  generalize EPositional. clear H. induction Ht as [|o os Ho _ IH]; intros st; [done|].
  unfold spell. cbn [fmap list_fmap concat]. destruct (validate_one o (spell os) st Ho) as [st' E]. unfold spell in E. rewrite E. apply IH.
Qed.

(** ** What a KEEP launches with *)

Lemma assign_app d os os' : assign d (os ++ os') = assign (assign d os) os'.
Proof. apply foldl_app. Qed.
Lemma spell_app os os' : spell (os ++ os') = spell os ++ spell os'.
Proof. unfold spell. by rewrite fmap_app, concat_app. Qed.

(** The value of a flag once [os] is assigned over [d]: the last of [os], or what it had. *)
Lemma dget_assign os d f :
  dget f (assign d os) = match last (filter (λ o, o_flag o = f) os) with Some o => Some (o_values o) | None => dget f d end.
Proof.
  revert d. induction os as [|o os IH] using rev_ind; intros d; [done|]. rewrite assign_app, filter_app. cbn [assign foldl].
  rewrite dget_dset, filter_cons, filter_nil. case_bool_decide; case_decide; try congruence; [by rewrite last_snoc|].
  rewrite app_nil_r. apply IH.
Qed.
Lemma dget_assign_in os d f : f ∈ o_flag <$> os → dget f (assign d os) = dget f (assign [] os).
Proof.
  intros (o & -> & Ho)%list_elem_of_fmap. rewrite !dget_assign. destruct (last _) eqn:E; [done|].
  apply last_None in E. assert (o ∈ filter (λ o', o_flag o' = o_flag o) os) as Hin by (by apply list_elem_of_filter).
  rewrite E in Hin. by apply not_elem_of_nil in Hin.
Qed.
Lemma dget_assign_out os d f : f ∉ o_flag <$> os → dget f (assign d os) = dget f d.
Proof.
  intros Hf. rewrite dget_assign. destruct (last _) as [o|] eqn:E; [|done]. apply last_Some_elem_of, list_elem_of_filter in E as [<- Ho].
  exfalso. apply Hf, list_elem_of_fmap. eauto.
Qed.

(** A flag once read stays read. *)
Lemma flag_step_keeps st tok f : is_Some (dget f st.1) → is_Some (dget f (flag_values_step st tok).1).
Proof.
  destruct st as [d fl]. unfold flag_values_step. intros H. destruct (is_long tok); [destruct (partition_eq tok)|]; cbn;
    rewrite dget_dset; by case_bool_decide.
Qed.
Lemma flag_values_keep l st f : is_Some (dget f st.1) → is_Some (dget f (foldl flag_values_step st l).1).
Proof. revert st. induction l as [|tok l IH]; intros st H; [done|]. by apply IH, flag_step_keeps. Qed.
Lemma flag_values_token l st tok :
  tok ∈ l → is_long tok = true → is_Some (dget (partition_eq tok).1 (foldl flag_values_step st l).1).
Proof.
  intros Hin Hl. revert st. induction Hin as [tok l|tok x l _ IH]; intros st; cbn [foldl]; [|by apply IH].
  apply flag_values_keep. destruct st as [d fl]. unfold flag_values_step. rewrite Hl. destruct (partition_eq tok). cbn.
  by rewrite dget_dset_eq.
Qed.
Lemma flag_values_prefix l l' f : l `prefix_of` l' → is_Some (dget f (flag_value_parts l)) → is_Some (dget f (flag_value_parts l')).
Proof. intros [k ->]. unfold flag_value_parts. rewrite foldl_app. apply flag_values_keep. Qed.

Lemma dget_composed base candidate f : Forall (λ o, tidy o = true) base → Forall (λ o, tidy o = true) candidate →
  dget f (assign [] (base ++ candidate))
  = if bool_decide (f ∈ o_flag <$> candidate) then dget f (flag_value_parts (spell candidate)) else dget f (flag_value_parts (spell base)).
Proof.
  intros Hb Hc. rewrite !flag_value_parts_spell, assign_app by done.
  case_bool_decide; [by apply dget_assign_in|by apply dget_assign_out].
Qed.
(** A candidate that already spells the base's flags stands for both. *)
Lemma candidate_covers base candidate f : Forall (λ o, tidy o = true) base → Forall (λ o, tidy o = true) candidate →
  (is_Some (dget f (flag_value_parts (spell base))) → is_Some (dget f (flag_value_parts (spell candidate)))) →
  dget f (assign [] candidate) = dget f (assign [] (base ++ candidate)).
Proof.
  intros Hb Hc Hcov. rewrite dget_composed by done. rewrite !flag_value_parts_spell in * by done.
  case_bool_decide as Hf; [done|]. apply (dget_assign_out _ []) in Hf. rewrite Hf in *.
  destruct (dget f (assign [] base)) eqn:E; [|done]. by destruct Hcov.
Qed.
Lemma spell_nil os : spell os = [] → os = [].
Proof. destruct os as [|o os]; [done|]. unfold spell. cbn. unfold spell_one. by destruct (o_inline o), (o_values o) as [|? []]. Qed.
Lemma long_token os tok : Forall (λ o, tidy o = true) os → spell os = [tok] → ∃ o, os = [o] ∧ is_long tok = true ∧ (partition_eq tok).1 = o_flag o.
Proof.
  intros Ht. destruct Ht as [|o os Ho Ht]; [done|]. unfold spell. cbn [fmap list_fmap concat]. intros E.
  destruct (flag_pair_one o (spell os) Ho (starts_long_spell _ Ht)) as (t & rest & E' & Hl & _). unfold spell in E'.
  rewrite E in E'. simplify_eq. destruct (tidy_flag _ Ho) as [Hf Hp].
  assert (∀ l, l ++ concat (spell_one <$> os) = [t] → l ≠ [] → os = []) as Hos.
  { intros l Hl' Hne. apply spell_nil. destruct l as [|x l]; [done|]. injection Hl' as _ Hl'. by apply app_nil in Hl' as [_ Hl']. }
  exists o. destruct (tidy_spelling _ Ho) as [(v & _ & _ & _ & Es & Hpv)|(_ & Es & _)]; rewrite Es in E;
    (split; [by rewrite (Hos _ E)|]); (split; [done|]); cbn in E; injection E as <- _; [by rewrite Hpv|by rewrite Hp].
Qed.

(** The options a KEEP's arguments are made of. *)
Lemma merged_options base candidate : Forall (λ o, tidy o = true) base → Forall (λ o, tidy o = true) candidate →
  ∃ os, merge_cumulative_extra_server_args (spell base) (spell candidate) (spell candidate) = dedupe_extra_server_args (spell os)
    ∧ Forall (λ o, tidy o = true) os ∧ ∀ f, dget f (assign [] os) = dget f (assign [] (base ++ candidate)).
Proof.
  intros Hb Hc. unfold merge_cumulative_extra_server_args.
  rewrite (bool_decide_eq_false_2 (spell candidate ≠ spell candidate)), andb_false_r by auto.
  destruct (bool_decide (spell candidate ≠ [])) eqn:Ec; cbn [andb].
  - destruct (bool_decide (spell base ≠ [])) eqn:Eb.
    + destruct (bool_decide (spell candidate = spell base) || _ || _) eqn:Es.
      * exists candidate. split_and!; [done|done|]. intros f. apply candidate_covers; [done..|].
        apply orb_true_iff in Es as [[Es%bool_decide_eq_true|[Es%bool_decide_eq_true _]%andb_true_iff]%orb_true_iff|Es].
        -- by rewrite Es.
        -- by apply flag_values_prefix.
        -- destruct (spell base) as [|tok [|??]] eqn:E; try done. apply bool_decide_eq_true in Es.
           destruct (long_token _ _ Hb E) as (o & -> & Hl & Hp). rewrite <- E, flag_value_parts_spell by done.
           destruct (decide (f = o_flag o)) as [->|Hne].
           ++ intros _. rewrite <- Hp. by apply flag_values_token.
           ++ cbn. rewrite bool_decide_eq_false_2 by done. by intros [? [=]].
      * exists (base ++ candidate). rewrite spell_app. split_and!; [done|by apply Forall_app|done].
    + apply bool_decide_eq_false, dec_stable, spell_nil in Eb as ->. by exists candidate.
  - apply bool_decide_eq_false, dec_stable, spell_nil in Ec as ->. exists base. by rewrite app_nil_r.
Qed.

(** What a KEEP launches with: for a winner that is a change on top of the launch before it, the composed arguments
    give every flag the winner's value when the winner sets it and the value it had before otherwise, whichever of the
    shortcuts of [merge_cumulative_extra_server_args] applies, and each flag once. *)
Theorem keep_accumulates_flags (base candidate : list Opt) f :
  Forall (λ o, tidy o = true) base → Forall (λ o, tidy o = true) candidate →
  let kept := merge_cumulative_extra_server_args (spell base) (spell candidate) (spell candidate) in
  dget f (flag_value_parts kept)
  = (if bool_decide (f ∈ o_flag <$> candidate) then dget f (flag_value_parts (spell candidate)) else dget f (flag_value_parts (spell base)))
  ∧ ∃ os, kept = spell os ∧ NoDup (o_flag <$> os).
Proof.
  intros Hb Hc kept. destruct (merged_options base candidate Hb Hc) as (os & E & Ht & Hos). subst kept. rewrite E. split.
  - rewrite dedupe_values, flag_value_parts_spell by done. by rewrite Hos, dget_composed.
  - exists (to_opts (assign [] os)). split; [by apply dedupe_spell|]. unfold to_opts. rewrite <- list_fmap_compose.
    apply (assign_NoDup os []). constructor.
Qed.

(** ** Launches *)

Module ArgsDemo.
Definition opt (f : string) (vs : list string) : Opt := {| o_flag := f; o_inline := false; o_values := vs |}.
Definition inline (f v : string) : Opt := {| o_flag := f; o_inline := true; o_values := [v] |}.
Definition base : list Opt := [inline "--tp" "8"; opt "--cuda-graph-bs" ["1"; "2"; "4"]; opt "--enable-x" []].
Definition candidate : list Opt := [opt "--cuda-graph-bs" ["8"; "16"]; opt "--tp" ["4"]].

Example kept_args :
  merge_cumulative_extra_server_args (spell base) (spell candidate) (spell candidate)
  = ["--tp"; "4"; "--cuda-graph-bs"; "8"; "16"; "--enable-x"].
Proof. vm_compute. reflexivity. Qed.
End ArgsDemo.

(** A removal takes a flag and one value, also for a flag [_MULTI_VALUE_FLAGS] names: the other values stay behind and are
    read as the values of the option before it. *)
Example removal_leaves_values :
  remove_server_args ["--tp"; "8"; "--cuda-graph-bs"; "1"; "2"; "4"] [["--cuda-graph-bs"]] = ["--tp"; "8"; "2"; "4"]
  ∧ _flag_values ["--tp"; "8"; "2"; "4"] = [("--tp", "8 2 4")].
Proof. vm_compute. done. Qed.

(** Arguments [validate_server_args_shell_safe] accepts, a numeric list under a flag [_MULTI_VALUE_FLAGS] does not name,
    assigned twice: the deduplicated launch mixes both lists. *)
Example dedupe_mixes_lists :
  validate_server_args_shell_safe ["--sizes"; "8"; "16"; "--sizes"; "4"; "9"] = Ok ()
  ∧ dedupe_extra_server_args ["--sizes"; "8"; "16"; "--sizes"; "4"; "9"] = ["--sizes"; "4"; "16"; "9"].
Proof. vm_compute. done. Qed.

Lemma keep_accumulates_flags_witness :
  dget "--cuda-graph-bs" (flag_value_parts (merge_cumulative_extra_server_args (spell ArgsDemo.base) (spell ArgsDemo.candidate)
    (spell ArgsDemo.candidate))) = Some ["8"; "16"]
  ∧ ∃ os, merge_cumulative_extra_server_args (spell ArgsDemo.base) (spell ArgsDemo.candidate) (spell ArgsDemo.candidate) = spell os
          ∧ NoDup (o_flag <$> os).
Proof.
  refine (keep_accumulates_flags ArgsDemo.base ArgsDemo.candidate "--cuda-graph-bs" _ _); repeat constructor.
Defined.
