(* ===== verification/Launches.v ===== *)
(** * The launch part of a recipe

    [contracts/recipe.py]: a launch config (server arguments, environment, options removed from the launch the framework
    resolves), the change a delta makes to it ([_apply_config]) and the delta between two launches ([_config_delta]).
    Server arguments and removal specs are their tokens, as in [ServerArgs]. *)

From stdpp Require Import base list strings pretty sets gmap sorting.
From Stdlib Require Import ZArith Lia Ascii.
From S2P Require Import Prelude PyFloat PyVal OperatorName Dicts TestRequests Recipes ServerArgs.

Record LaunchConfig := { lc_server_args : list string; lc_envs : list (string * string); lc_remove_args : list string }.
Record ConfigDelta := {
  cd_server_args : list string;
  cd_replace : bool;
  cd_remove_args : list (list string);
  cd_envs : list (string * string);
  cd_unset_envs : list string;
  cd_launch_remove_args : option (list string)
}.
Implicit Types (l first second : LaunchConfig) (delta : ConfigDelta).

(** ** Validation *)

Definition word_char (c : ascii) : bool := is_alnum c || Ascii.eqb c "_".
(** [_OPTION.fullmatch] *)
Definition is_option (s : string) : bool :=
  match chars s with
  | a :: b :: c :: l => Ascii.eqb a "-" && Ascii.eqb b "-" && is_alnum c
                        && forallb (λ c, word_char c || Ascii.eqb c "." || Ascii.eqb c "-") l
  | _ => false
  end.
(** [_ENV_NAME.fullmatch] and [_FRAMEWORK_ARGS_ENV.fullmatch] *)
Definition is_env_name (s : string) : bool :=
  match chars s with c :: l => (is_upper c || is_lower c || Ascii.eqb c "_") && forallb word_char l | [] => false end.
Definition is_framework_args_env (s : string) : bool :=
  py_startswith "EXTRA_" s && py_startswith "SGRA_" (of_chars (reverse (chars s))) && bool_decide (11 ≤ String.length s)
  && forallb word_char (chars s).

Definition _server_args (args : list string) : res unit :=
  match validate_server_args_shell_safe args with
  | Ok () => Ok ()
  | Raise (ValueError msg) => Raise (RecipeError ("server arguments " +:+ repr_str (join " " args) +:+ ": " +:+ msg))
  | Raise e => Raise e
  end.
Definition env_name_ok (name : string) : res unit :=
  _ ← check_matching (is_env_name name) name "an environment variable name" "[A-Za-z_][A-Za-z0-9_]*";
  raise_if (is_framework_args_env name) (RecipeError (name +:+ " carries framework arguments; put them in the server arguments")).
Definition _env_names (names : list string) : res unit := all_ok env_name_ok names.
Definition repr_strings (names : list string) : string := "[" +:+ join ", " (repr_str <$> names) +:+ "]".
Definition _option_names (names : list string) (what : string) : res unit :=
  _ ← all_ok (λ name, raise_if (negb (is_option name))
        (RecipeError (what +:+ " must be bare option names (--name), got " +:+ repr_str name))) names;
  raise_if (negb (bool_decide (names = sorted_set names))) (RecipeError (what +:+ " must be sorted and unique, got " +:+ repr_strings names)).

Definition flags_of (args : list string) : list string := (_flag_values args).*1.

(** [LaunchConfig.__post_init__] and [ConfigDelta.__post_init__] *)
Definition launch_init l : res LaunchConfig :=
  _ ← _server_args (lc_server_args l);
  _ ← _env_names (lc_envs l).*1;
  _ ← _option_names (lc_remove_args l) "a launch's remove_args";
  let both := sorted_set (filter (.∈ flags_of (lc_server_args l)) (lc_remove_args l)) in
  _ ← raise_if (bool_decide (both ≠ [])) (RecipeError ("a launch both sets and removes " +:+ join ", " both));
  Ok l.
Definition config_delta_init delta : res ConfigDelta :=
  _ ← _server_args (cd_server_args delta);
  _ ← all_ok (λ spec, _ ← _server_args spec;
                raise_if (negb (py_startswith "--" (join " " spec)))
                  (RecipeError ("a removed argument must name a flag, got " +:+ repr_str (join " " spec)))) (cd_remove_args delta);
  _ ← _env_names ((cd_envs delta).*1 ++ cd_unset_envs delta);
  _ ← check_unique id ((cd_envs delta).*1 ++ cd_unset_envs delta) "environment variables set and unset at once";
  _ ← (match cd_launch_remove_args delta with Some names => _option_names names "launch_remove_args" | None => Ok () end);
  Ok delta.

(** ** Changes *)

Definition _apply_config l delta : res LaunchConfig :=
  let args := dedupe_extra_server_args
    (compose_server_args [] (lc_server_args l) (cd_server_args delta) (cd_remove_args delta) (cd_replace delta)) in
  let envs := dmerge (filter (λ kv, kv.1 ∉ cd_unset_envs delta) (lc_envs l)) (cd_envs delta) in
  let removed := match cd_launch_remove_args delta with
                 | Some names => names
                 | None => lc_remove_args l
                           ++ filter (.∉ flags_of (lc_server_args l)) (removal_option_names (cd_remove_args delta))
                 end in
  launch_init {| lc_server_args := args; lc_envs := envs; lc_remove_args := sorted_set (filter (.∉ flags_of args) removed) |}.

Definition removals_between first second : list string :=
  let dropped := filter (λ f, f ∉ flags_of (lc_server_args second) ∧ f ≠ "") (flags_of (lc_server_args first)) in
  sorted_set ((if bool_decide (lc_server_args first = lc_server_args second) then [] else dropped)
              ++ filter (.∉ lc_remove_args first) (lc_remove_args second)).
Definition delta_removing first second (launch_removes : option (list string)) : ConfigDelta :=
  {| cd_server_args := if bool_decide (lc_server_args first = lc_server_args second) then [] else lc_server_args second;
     cd_replace := false;
     cd_remove_args := (λ f, [f]) <$> removals_between first second;
     cd_envs := filter (λ kv, dget kv.1 (lc_envs first) ≠ Some kv.2) (lc_envs second);
     cd_unset_envs := sorted_set (filter (.∉ (lc_envs second).*1) (lc_envs first).*1);
     cd_launch_remove_args := launch_removes |}.
Definition _config_delta first second : res ConfigDelta :=
  delta ← config_delta_init (delta_removing first second None);
  made ← _apply_config first delta;
  if bool_decide (lc_remove_args made = lc_remove_args second) then Ok delta
  else config_delta_init (delta_removing first second (Some (lc_remove_args second))).

(** ** Sorted sets *)

#[global] Instance str_le_antisymm : AntiSymm (=) str_le.
Proof. intros a b. unfold str_le. apply String.leb_antisym. Qed.
Lemma sorted_set_ext (l k : list string) : (∀ x, x ∈ l ↔ x ∈ k) → sorted_set l = sorted_set k.
Proof.
  intros H. apply (StronglySorted_unique str_le); [apply StronglySorted_merge_sort; apply _..|].
  unfold sorted_set. rewrite !merge_sort_Permutation. apply NoDup_Permutation; [apply NoDup_remove_dups..|].
  intros x. by rewrite !elem_of_remove_dups.
Qed.
Lemma sorted_set_idem (l : list string) : sorted_set (sorted_set l) = sorted_set l.
Proof. apply sorted_set_ext. intros x. apply elem_of_sorted_set. Qed.

(** ** What validation gives *)

Lemma bind_ok {A} (m : res unit) (k : res A) a : (_ ← m; k) = Ok a ↔ m = Ok () ∧ k = Ok a.
Proof. apply seq_ok. Qed.
Lemma option_names_ok names what :
  _option_names names what = Ok () ↔ Forall (λ n, is_option n = true) names ∧ names = sorted_set names.
Proof.
  unfold _option_names. rewrite seq_ok, raise_if_ok, negb_false_iff, bool_decide_eq_true, all_ok_Forall.
  apply and_iff_compat_r. apply Forall_iff. intros n. rewrite raise_if_ok. apply negb_false_iff.
Qed.
Lemma env_names_ok names : _env_names names = Ok () ↔ Forall (λ n, env_name_ok n = Ok ()) names.
Proof. apply all_ok_Forall. Qed.
Lemma sorted_set_empty (l : list string) : sorted_set l = [] ↔ l = [].
Proof.
  split; [|by intros ->]. intros H. destruct l as [|x l]; [done|].
  assert (x ∈ sorted_set (x :: l)) as Hx by (apply elem_of_sorted_set; left). rewrite H in Hx. by apply not_elem_of_nil in Hx.
Qed.
Record valid_launch l : Prop := {
  vl_args : _server_args (lc_server_args l) = Ok ();
  vl_envs : Forall (λ n, env_name_ok n = Ok ()) (lc_envs l).*1;
  vl_options : Forall (λ n, is_option n = true) (lc_remove_args l);
  vl_sorted : lc_remove_args l = sorted_set (lc_remove_args l);
  vl_apart : ∀ f, f ∈ lc_remove_args l → f ∉ flags_of (lc_server_args l)
}.
Lemma launch_init_ok l l' : launch_init l = Ok l' ↔ l' = l ∧ valid_launch l.
Proof.
  unfold launch_init. rewrite !bind_ok, raise_if_ok, bool_decide_eq_false, env_names_ok, option_names_ok.
  split.
  - intros (Ha & He & (Ho & Hs) & Hb & [= <-]). split; [done|]. apply dec_stable in Hb. apply (proj1 (sorted_set_empty _)) in Hb.
    split; try done. intros f Hf Hin. assert (f ∈ filter (.∈ flags_of (lc_server_args l)) (lc_remove_args l)) as H by (by apply list_elem_of_filter).
    rewrite Hb in H. by apply not_elem_of_nil in H.
  - intros (-> & [Ha He Ho Hs Hd]). split_and!; try done. intros H. apply H, (proj2 (sorted_set_empty _)).
    apply list_filter_none. intros f Hf. by apply Hd.
Qed.

(** ** Flags by name *)

Definition named (f : string) : bool := is_long f && negb (existsb (λ c, Ascii.eqb c "=") (chars f)) && safe_token f.
Lemma tidy_named o : tidy o = true → named (o_flag o) = true.
Proof. unfold tidy, named. rewrite !andb_true_iff. tauto. Qed.
Lemma word_char_plain c : word_char c || Ascii.eqb c "." || Ascii.eqb c "-" = true → Ascii.eqb c "=" = false ∧ unsafe_char c = false.
Proof. by destruct c as [[] [] [] [] [] [] [] []]. Qed.
Lemma option_named f : is_option f = true → named f = true.
Proof.
  unfold is_option, named. intros H. destruct f as [|a [|b [|c f]]]; try done. change (chars (String a (String b (String c f)))) with (a :: b :: c :: chars f) in *.
  rewrite !andb_true_iff in H. destruct H as (((Ha%Ascii.eqb_eq & Hb%Ascii.eqb_eq) & Hc) & Hf). subst a b.
  assert (∀ l : list ascii, forallb (λ c, word_char c || Ascii.eqb c "." || Ascii.eqb c "-") l = true →
    existsb (λ c, Ascii.eqb c "=") l = false ∧ forallb (λ c, negb (unsafe_char c)) l = true) as Hl.
  { induction l as [|x l IH]; [done|]. cbn [forallb existsb]. rewrite andb_true_iff. intros [Hx Hl].
    destruct (word_char_plain x Hx) as [-> ->]. by destruct (IH Hl) as [-> ->]. }
  destruct (Hl (c :: chars f)) as [He Hs].
  { cbn [forallb]. rewrite Hf. unfold word_char. by rewrite Hc. }
  rewrite !andb_true_iff. split_and!.
  - by apply is_long_spec; exists (String c f).
  - change (negb (existsb (λ c, Ascii.eqb c "=") (c :: chars f)) = true). by rewrite He.
  - exact Hs.
Qed.
Lemma named_parts f : named f = true → is_long f = true ∧ partition_eq f = (f, None) ∧ safe_token f = true ∧ f ≠ "".
Proof.
  unfold named. rewrite !andb_true_iff, negb_true_iff. intros ((Hl & He) & Hs). split_and!; [done|by apply partition_eq_none|done|].
  by intros ->.
Qed.

Lemma parse_bare R : Forall (λ f, named f = true) R → _parse_removal_specs ((λ f, [f]) <$> R) = bare R.
Proof.
  unfold _parse_removal_specs. induction 1 as [|f R Hf _ IH]; [done|]. destruct (named_parts _ Hf) as (Hl & Hp & _ & _).
  cbn. rewrite Hl, Hp. cbn. by f_equal.
Qed.
Lemma removal_names R : Forall (λ f, named f = true) R → ∀ f, f ∈ removal_option_names ((λ f, [f]) <$> R) ↔ f ∈ R.
Proof.
  intros HR f. unfold removal_option_names. rewrite parse_bare by done. clear HR.
  enough (∀ acc, f ∈ foldl (λ names spec, if bool_decide (spec.1 ∈ names) then names else names ++ [spec.1]) acc (bare R) ↔ f ∈ acc ∨ f ∈ R)
    as H by (rewrite H; set_solver).
  induction R as [|g R IH]; intros acc; cbn; [set_solver|]. rewrite IH. case_bool_decide; set_solver.
Qed.
Lemma remove_named R os : Forall (λ o, tidy o = true) os → Forall (λ f, named f = true) R →
  Forall (λ o, o_flag o ∈ R → length (o_values o) ≤ 1) os →
  remove_server_args (spell os) ((λ f, [f]) <$> R) = spell (filter (λ o, o_flag o ∉ R) os).
Proof.
  intros Ht HR Hd. rewrite <- remove_spell by done. unfold remove_server_args. rewrite parse_bare by done.
  case_bool_decide as E; [by rewrite E|]. case_bool_decide as E'; [|done]. apply fmap_nil_inv in E' as ->.
  rewrite remove_spell by done. rewrite list_filter_all; [done|]. intros o _. apply not_elem_of_nil.
Qed.
Lemma named_accepted f : named f = true → _server_args [f] = Ok ().
Proof.
  intros Hf. destruct (named_parts _ Hf) as (Hl & Hp & Hs & _).
  assert (∃ st, next_expecting EPositional f = Some st) as [st Hst].
  { unfold next_expecting. rewrite is_long_dash by done. eauto. }
  assert (validate_server_args_shell_safe [f] = Ok ()) as E; [|unfold _server_args; by rewrite E].
  unfold validate_server_args_shell_safe. cbn [existsb validate_loop]. rewrite safe_not_unsafe, Hst by done. done.
Qed.

Lemma assign_keys f os : f ∈ (assign [] os).*1 ↔ f ∈ o_flag <$> os.
Proof.
  rewrite <- dget_is_Some. split.
  - intros [v Hv]. apply dec_stable. intros Hf. apply (dget_assign_out os []) in Hf. rewrite Hf in Hv. done.
  - intros Hf. rewrite (dget_assign os []). destruct (last _) as [o|] eqn:E; [eauto|]. apply last_None in E.
    apply list_elem_of_fmap in Hf as (o & -> & Ho).
    assert (o ∈ filter (λ o', o_flag o' = o_flag o) os) as Hin by (by apply list_elem_of_filter). rewrite E in Hin. by apply not_elem_of_nil in Hin.
Qed.
Lemma flags_of_parts args : flags_of args = (flag_value_parts args).*1.
Proof. unfold flags_of, _flag_values. by rewrite <- list_fmap_compose. Qed.
Lemma flags_of_spell os f : Forall (λ o, tidy o = true) os → f ∈ flags_of (spell os) ↔ f ∈ o_flag <$> os.
Proof. intros Ht. rewrite flags_of_parts, flag_value_parts_spell by done. apply assign_keys. Qed.
Lemma dget_flag_values f args : dget f (_flag_values args) = join " " <$> dget f (flag_value_parts args).
Proof. unfold _flag_values. induction (flag_value_parts args) as [|[k v] d IH]; [done|]. cbn. by case_bool_decide. Qed.

Lemma dget_filtered {V} k (P : string * V → Prop) `{!∀ x, Decision (P x)} (d : list (string * V)) : NoDup d.*1 →
  dget k (filter P d) = match dget k d with Some v => if decide (P (k, v)) then Some v else None | None => None end.
Proof.
  induction d as [|[k' v] d IH]; [done|]. cbn [fmap list_fmap fst]. rewrite NoDup_cons. intros [Hn Hnd]. rewrite filter_cons. cbn [dget].
  destruct (decide (k = k')) as [->|Hne].
  - rewrite (bool_decide_eq_true_2 (k' = k')) by done. destruct (decide (P (k', v))); cbn [dget]; [by rewrite bool_decide_eq_true_2|].
    rewrite IH by done. by rewrite (proj2 (dget_None k' d)).
  - rewrite (bool_decide_eq_false_2 (k = k')) by done. destruct (decide (P (k', v))); cbn [dget]; [rewrite bool_decide_eq_false_2 by done|]; auto.
Qed.
(** ** From one launch to another *)

Section between.
Context (first second : LaunchConfig) (os1 os2 : list Opt).
Context (Hv1 : valid_launch first) (Hv2 : valid_launch second).
Context (Ha1 : lc_server_args first = spell os1) (Ha2 : lc_server_args second = spell os2).
Context (Ht1 : Forall (λ o, tidy o = true) os1) (Ht2 : Forall (λ o, tidy o = true) os2).
Context (Hdrop : Forall (λ o, o_flag o ∈ o_flag <$> os2 ∨ length (o_values o) ≤ 1) os1).
Context (Hn1 : NoDup (lc_envs first).*1) (Hn2 : NoDup (lc_envs second).*1).
Local Notation R := (removals_between first second).

Lemma in_removals f : f ∈ R ↔
  (lc_server_args first ≠ lc_server_args second ∧ f ∈ o_flag <$> os1 ∧ f ∉ o_flag <$> os2)
  ∨ (f ∈ lc_remove_args second ∧ f ∉ lc_remove_args first).
Proof using Ha1 Ha2 Ht1 Ht2.
  unfold removals_between. rewrite elem_of_sorted_set, elem_of_app, list_elem_of_filter.
  assert (∀ g, g ∈ o_flag <$> os1 → g ≠ "") as Hne.
  { intros g (o & -> & Ho)%list_elem_of_fmap. eapply Forall_forall in Ht1; [|exact Ho]. by destruct (named_parts _ (tidy_named _ Ht1)) as (_ & _ & _ & ?). }
  case_bool_decide as E.
  - split; [intros [[]%not_elem_of_nil|[? ?]]; auto|]. intros [[? _]|[? ?]]; [done|auto].
  - rewrite list_elem_of_filter, Ha1, Ha2, !flags_of_spell in * by done. split.
    + intros [[[? _] ?]|[? ?]]; auto.
    + intros [(_ & ? & ?)|[? ?]]; auto.
Qed.
Lemma removals_apart f : f ∈ R → f ∉ o_flag <$> os2.
Proof using Ha1 Ha2 Ht1 Ht2 Hv2.
  rewrite in_removals. intros [(_ & _ & H)|[H _]]; [done|]. rewrite <- (flags_of_spell os2 f Ht2), <- Ha2. by apply (vl_apart _ Hv2).
Qed.
Lemma removals_named : Forall (λ f, named f = true) R.
Proof using Ha1 Ha2 Ht1 Ht2 Hv2.
  apply Forall_forall. intros f Hf. apply in_removals in Hf as [(_ & (o & -> & Ho)%list_elem_of_fmap & _)|[Hf _]].
  - eapply Forall_forall in Ht1; [|exact Ho]. by apply tidy_named.
  - apply option_named. pose proof (vl_options _ Hv2) as H. by eapply Forall_forall in H.
Qed.

(** The options the changed launch is made of. *)
Definition made_opts : list Opt :=
  filter (λ o, o_flag o ∉ R) os1 ++ (if bool_decide (lc_server_args first = lc_server_args second) then [] else os2).
Lemma made_tidy : Forall (λ o, tidy o = true) made_opts.
Proof using Ht1 Ht2.
  apply Forall_app. split; [|by case_bool_decide]. apply Forall_forall. intros o [_ Ho]%list_elem_of_filter. by eapply Forall_forall in Ht1.
Qed.
Lemma made_args lr :
  compose_server_args [] (lc_server_args first) (cd_server_args (delta_removing first second lr))
    (cd_remove_args (delta_removing first second lr)) false = spell made_opts.
Proof using All.
  unfold compose_server_args, merge_server_args. cbn [concat app cd_server_args cd_remove_args delta_removing].
  rewrite !app_nil_r, Ha1, remove_named; [|done|apply removals_named|].
  - unfold made_opts. rewrite spell_app, Ha1, Ha2. f_equal. by case_bool_decide.
  - apply Forall_forall. intros o Ho Hin. eapply Forall_forall in Hdrop as [H|H]; [|done|exact Ho]. by apply removals_apart in Hin.
Qed.
Lemma made_values f : dget f (assign [] made_opts) = dget f (assign [] os2).
Proof using Ha1 Ha2 Ht1 Ht2 Hv2.
  unfold made_opts. case_bool_decide as E.
  - assert (assign [] os1 = assign [] os2) as Eo by (rewrite <- !flag_value_parts_spell by done; by rewrite <- Ha1, <- Ha2, E).
    rewrite app_nil_r, list_filter_all; [by rewrite Eo|]. intros o Ho Hin. apply removals_apart in Hin. apply Hin.
    apply assign_keys. rewrite <- Eo. apply assign_keys, list_elem_of_fmap. eauto.
  - rewrite assign_app. destruct (decide (f ∈ o_flag <$> os2)) as [Hf|Hf]; [by apply dget_assign_in|].
    rewrite !(dget_assign_out os2), (dget_assign_out _ []); [done| |done..].
    intros (o & -> & [Ho Hin]%list_elem_of_filter)%list_elem_of_fmap. apply Ho, in_removals. left. split_and!; [done| |done].
    apply list_elem_of_fmap. eauto.
Qed.
Definition made : list string := dedupe_extra_server_args (spell made_opts).
Lemma made_parts f : dget f (flag_value_parts made) = dget f (flag_value_parts (lc_server_args second)).
Proof using Ha1 Ha2 Ht1 Ht2 Hv2.
  unfold made. rewrite dedupe_values by apply made_tidy. rewrite Ha2, !flag_value_parts_spell by (try done; apply made_tidy). apply made_values.
Qed.
Lemma made_flags f : f ∈ flags_of made ↔ f ∈ flags_of (lc_server_args second).
Proof using Ha1 Ha2 Ht1 Ht2 Hv2. rewrite !flags_of_parts, <- !dget_is_Some, made_parts. done. Qed.
Lemma made_accepted : _server_args made = Ok ().
Proof using Ht1 Ht2.
  assert (validate_server_args_shell_safe made = Ok ()) as E; [|unfold _server_args; by rewrite E].
  unfold made. rewrite dedupe_spell by apply made_tidy. by apply tidy_accepted, tidy_to_opts, made_tidy.
Qed.

Lemma made_env k lr :
  dget k (dmerge (filter (λ kv, kv.1 ∉ cd_unset_envs (delta_removing first second lr)) (lc_envs first))
            (cd_envs (delta_removing first second lr))) = dget k (lc_envs second).
Proof using Hn1 Hn2.
  cbn [cd_unset_envs cd_envs delta_removing]. rewrite dget_dmerge by (by apply NoDup_key_filter). rewrite !dget_filtered by done.
  assert (∀ v, dget k (lc_envs first) = Some v → dget k (lc_envs second) = None →
    k ∈ sorted_set (filter (.∉ (lc_envs second).*1) (lc_envs first).*1)) as Hunset.
  { intros v Hk Hz. apply elem_of_sorted_set, list_elem_of_filter. split; [by apply dget_None|]. apply dget_is_Some. eauto. }
  destruct (dget k (lc_envs second)) as [v|] eqn:E2.
  - case_decide as Hd; [done|]. cbn [fst snd] in Hd. rewrite Hd. case_decide as Hu; [done|].
    exfalso. cbn in Hu. apply elem_of_sorted_set, list_elem_of_filter in Hu as [Hno _]. apply Hno, dget_is_Some. eauto.
  - destruct (dget k (lc_envs first)) as [v|] eqn:E1; [|done]. case_decide as Hu; [|done]. exfalso. apply Hu. by eapply Hunset.
Qed.

Lemma delta_envs_ok lr : _env_names ((cd_envs (delta_removing first second lr)).*1 ++ cd_unset_envs (delta_removing first second lr)) = Ok ().
Proof using Hv1 Hv2.
  apply env_names_ok, Forall_app. cbn [cd_unset_envs cd_envs delta_removing]. split; apply Forall_forall; intros n Hn.
  - apply list_elem_of_fmap in Hn as ([k v] & -> & [_ Hn]%list_elem_of_filter). pose proof (vl_envs _ Hv2) as H.
    eapply Forall_forall in H; [exact H|]. apply list_elem_of_fmap. by exists (k, v).
  - apply elem_of_sorted_set, list_elem_of_filter in Hn as [_ Hn]. pose proof (vl_envs _ Hv1) as H. by eapply Forall_forall in H.
Qed.
Lemma delta_envs_unique lr : NoDup ((cd_envs (delta_removing first second lr)).*1 ++ cd_unset_envs (delta_removing first second lr)).
Proof using Hn2.
  cbn [cd_unset_envs cd_envs delta_removing]. apply NoDup_app. split_and!; [by apply NoDup_key_filter| |apply NoDup_sorted_set].
  intros n ([k v] & -> & [_ Hn]%list_elem_of_filter)%list_elem_of_fmap. rewrite elem_of_sorted_set, list_elem_of_filter.
  intros [Hno _]. apply Hno, list_elem_of_fmap. by exists (k, v).
Qed.

(** The delta is accepted, and so is the launch it makes. *)
Lemma delta_accepted lr : (∀ names, lr = Some names → names = lc_remove_args second) →
  config_delta_init (delta_removing first second lr) = Ok (delta_removing first second lr).
Proof using All.
  intros Hlr. unfold config_delta_init. rewrite !bind_ok. split_and!.
  - cbn. case_bool_decide; [done|]. apply (vl_args _ Hv2).
  - apply all_ok_Forall, Forall_fmap. cbn [cd_remove_args delta_removing].
    eapply Forall_impl; [apply removals_named|]. cbn. intros f Hf. rewrite bind_ok. split; [by apply named_accepted|].
    apply raise_if_ok, negb_false_iff. by destruct (named_parts _ Hf).
  - apply delta_envs_ok.
  - apply check_unique_ok, delta_envs_unique.
  - cbn. destruct lr as [names|]; [|done]. rewrite (Hlr names eq_refl). apply option_names_ok. split; [apply (vl_options _ Hv2)|apply (vl_sorted _ Hv2)].
  - done.
Qed.
Lemma removed_options lr f : (∀ names, lr = Some names → names = lc_remove_args second) →
  f ∈ match cd_launch_remove_args (delta_removing first second lr) with
      | Some names => names
      | None => lc_remove_args first ++ filter (.∉ flags_of (lc_server_args first))
                  (removal_option_names (cd_remove_args (delta_removing first second lr)))
      end → is_option f = true.
Proof using Ha1 Ha2 Ht1 Ht2 Hv1 Hv2.
  intros Hlr. pose proof (proj1 (Forall_forall _ _) (vl_options _ Hv1)) as Ho1. pose proof (proj1 (Forall_forall _ _) (vl_options _ Hv2)) as Ho2.
  cbn [cd_launch_remove_args cd_remove_args delta_removing]. destruct lr as [names|]; [rewrite (Hlr names eq_refl); apply Ho2|].
  intros [Hf|[Hf Hin]%list_elem_of_filter]%elem_of_app; [by apply Ho1|]. apply (removal_names R removals_named) in Hin.
  apply in_removals in Hin as [(_ & Hin & _)|[Hin _]]; [|by apply Ho2]. exfalso. apply Hf. by rewrite Ha1, flags_of_spell.
Qed.
Lemma applied lr : (∀ names, lr = Some names → names = lc_remove_args second) →
  ∃ l, _apply_config first (delta_removing first second lr) = Ok l ∧ lc_server_args l = made
    ∧ (∀ k, dget k (lc_envs l) = dget k (lc_envs second)) ∧ (lr = Some (lc_remove_args second) → lc_remove_args l = lc_remove_args second).
Proof using All.
  intros Hlr. eexists. split_and!.
  - unfold _apply_config. cbn [cd_replace delta_removing]. change (cd_replace _) with false. rewrite made_args. fold made. apply launch_init_ok. split; [reflexivity|].
    split; cbn [lc_server_args lc_envs lc_remove_args].
    + apply made_accepted.
    + apply Forall_forall. intros n Hn. apply elem_of_dmerge_keys in Hn as [Hn|Hn].
      * apply list_elem_of_fmap in Hn as (kv & -> & [_ Hn]%list_elem_of_filter). pose proof (vl_envs _ Hv1) as H.
        eapply Forall_forall in H; [exact H|]. apply list_elem_of_fmap. eauto.
      * pose proof (delta_envs_ok lr) as H. apply env_names_ok, Forall_app in H as [H _]. by eapply Forall_forall in H.
    + apply Forall_forall. intros f Hf. apply elem_of_sorted_set, list_elem_of_filter in Hf as [_ Hf].
      apply removed_options in Hf; [done|exact Hlr].
    + by rewrite sorted_set_idem.
    + intros f. rewrite elem_of_sorted_set, list_elem_of_filter. tauto.
  - done.
  - intros k. apply (made_env k lr).
  - intros ->. cbn [lc_remove_args cd_launch_remove_args delta_removing]. rewrite list_filter_all; [by rewrite <- (vl_sorted _ Hv2)|].
    intros f Hf. rewrite made_flags. by apply (vl_apart _ Hv2).
Qed.
End between.

(** C15: A launch change makes the launch it was computed for: applied to the first launch, the delta between two launches
    is accepted and gives every flag the value it has in the second one and no other flag a value, the second one's
    environment, and the second one's removals from the resolved launch.  The options are ones the composition reads
    back, and a flag the second launch drops has one value at most. *)
Theorem launch_round_trip first second os1 os2 :
  launch_init first = Ok first → launch_init second = Ok second →
  lc_server_args first = spell os1 → lc_server_args second = spell os2 →
  Forall (λ o, tidy o = true) os1 → Forall (λ o, tidy o = true) os2 →
  Forall (λ o, o_flag o ∈ o_flag <$> os2 ∨ length (o_values o) ≤ 1) os1 →
  NoDup (lc_envs first).*1 → NoDup (lc_envs second).*1 →
  ∃ delta l, _config_delta first second = Ok delta ∧ _apply_config first delta = Ok l
    ∧ (∀ f, dget f (_flag_values (lc_server_args l)) = dget f (_flag_values (lc_server_args second)))
    ∧ (∀ k, dget k (lc_envs l) = dget k (lc_envs second))
    ∧ lc_remove_args l = lc_remove_args second.
Proof.
  intros [_ Hv1]%launch_init_ok [_ Hv2]%launch_init_ok Ha1 Ha2 Ht1 Ht2 Hd Hn1 Hn2.
  destruct (applied _ _ _ _ Hv1 Hv2 Ha1 Ha2 Ht1 Ht2 Hd Hn1 Hn2 None) as (l & Hl & Ea & He & _); [done|].
  destruct (applied _ _ _ _ Hv1 Hv2 Ha1 Ha2 Ht1 Ht2 Hd Hn1 Hn2 (Some (lc_remove_args second))) as (l' & Hl' & Ea' & He' & Hr'); [by intros ? [= <-]|].
  unfold _config_delta. rewrite (delta_accepted _ _ _ _ Hv1 Hv2 Ha1 Ha2 Ht1 Ht2 Hd Hn1 Hn2 None) by done. cbn [mbind res_bind]. rewrite Hl.
  cbn [mbind res_bind]. case_bool_decide as Er.
  - exists (delta_removing first second None), l. split_and!; [done..| |done|done].
    intros f. by rewrite !dget_flag_values, Ea, (made_parts _ _ os1 os2).
  - rewrite (delta_accepted _ _ _ _ Hv1 Hv2 Ha1 Ha2 Ht1 Ht2 Hd Hn1 Hn2) by (by intros ? [= <-]). eexists _, l'. split_and!; [done..| |done|auto].
    intros f. by rewrite !dget_flag_values, Ea', (made_parts _ _ os1 os2).
Qed.

(** ** Two launches *)

Module LaunchDemo.
Definition opt (f : string) (vs : list string) : Opt := {| o_flag := f; o_inline := false; o_values := vs |}.
Definition os1 : list Opt :=
  [{| o_flag := "--tp"; o_inline := true; o_values := ["8"] |}; opt "--enable-x" []; opt "--cuda-graph-bs" ["1"; "2"; "4"]].
Definition os2 : list Opt := [opt "--cuda-graph-bs" ["8"; "16"]; opt "--kv-cache-dtype" ["fp8"]; opt "--tp" ["8"]].
Definition first : LaunchConfig :=
  {| lc_server_args := spell os1; lc_envs := [("A", "1"); ("B", "2")]; lc_remove_args := ["--old"] |}.
Definition second : LaunchConfig :=
  {| lc_server_args := spell os2; lc_envs := [("B", "3"); ("C", "4")]; lc_remove_args := ["--enable-x"; "--other"] |}.
Definition made : option (list string * list (string * string) * list string) :=
  match _config_delta first second with
  | Ok delta => match _apply_config first delta with
                | Ok l => Some (lc_server_args l, lc_envs l, lc_remove_args l)
                | Raise _ => None
                end
  | Raise _ => None
  end.
Example made_launch :
  made = Some (["--tp"; "8"; "--cuda-graph-bs"; "8"; "16"; "--kv-cache-dtype"; "fp8"], [("B", "3"); ("C", "4")], ["--enable-x"; "--other"]).
Proof. vm_compute. reflexivity. Qed.

Definition listed : LaunchConfig :=
  {| lc_server_args := ["--tp"; "8"; "--cuda-graph-bs"; "1"; "2"; "4"]; lc_envs := []; lc_remove_args := [] |}.
Definition unlisted : LaunchConfig := {| lc_server_args := ["--tp"; "8"]; lc_envs := []; lc_remove_args := [] |}.
End LaunchDemo.

(** A dropped flag with several values: the delta from a launch with [--cuda-graph-bs 1 2 4] to one without it is accepted
    and leaves its other values under [--tp]. *)
Example dropped_list_stays :
  launch_init LaunchDemo.listed = Ok LaunchDemo.listed ∧ launch_init LaunchDemo.unlisted = Ok LaunchDemo.unlisted
  ∧ (delta ← _config_delta LaunchDemo.listed LaunchDemo.unlisted; l ← _apply_config LaunchDemo.listed delta; Ok (lc_server_args l)) = Ok ["--tp"; "8"; "2"; "4"].
Proof. vm_compute. done. Qed.

Lemma launch_round_trip_witness :
  ∃ delta l, _config_delta LaunchDemo.first LaunchDemo.second = Ok delta ∧ _apply_config LaunchDemo.first delta = Ok l
    ∧ (∀ f, dget f (_flag_values (lc_server_args l)) = dget f (_flag_values (lc_server_args LaunchDemo.second)))
    ∧ (∀ k, dget k (lc_envs l) = dget k (lc_envs LaunchDemo.second))
    ∧ lc_remove_args l = lc_remove_args LaunchDemo.second.
Proof.
  refine (launch_round_trip LaunchDemo.first LaunchDemo.second LaunchDemo.os1 LaunchDemo.os2 _ _ _ _ _ _ _ _ _);
    try (vm_compute; reflexivity); try (repeat constructor; fail);
    apply (bool_decide_eq_true_1 _); vm_compute; reflexivity.
Defined.
