(* ===== verification/KeptLaunch.v ===== *)
(** * The launch a KEEP records

    [loop/_current_best_lift.py] ([_resolved_launch] and the launch part of [_write_current_best]) and
    [loop/launch_controls.py]: the arguments, environment and launch controls of the new [current_best].  Argument
    strings and removal specs are their tokens, as in [ServerArgs]. *)

From stdpp Require Import base list strings pretty sets gmap sorting.
From Stdlib Require Import ZArith Lia Ascii.
From S2P Require Import Prelude PyFloat PyVal OperatorName Dicts TestRequests ServerArgs.

(** The launch part of [current_best]; a control that is absent is empty. *)
Record KeptLaunch := {
  kl_server_args : list string;
  kl_envs : list (string * string);
  kl_remove_args : list (list string);
  kl_unset_envs : list string;
  kl_args_mode : string
}.
(** What a winner declares of its launch. *)
Record LaunchChange := {
  lw_candidate_args : list string;
  lw_server_args : list string;
  lw_envs : list (string * string);
  lw_remove_args : list (list string);
  lw_unset_envs : list string;
  lw_args_mode : string
}.
Implicit Types (previous kept : KeptLaunch) (w : LaunchChange) (backend : string).

Definition controls_effective w : bool :=
  bool_decide (lw_remove_args w ≠ []) || bool_decide (lw_unset_envs w ≠ [])
  || String.eqb (py_lower (py_strip (lw_args_mode w))) "replace".
(** The arguments of [_resolved_launch] *)
Definition _resolved_launch previous w : list string :=
  let candidate := strip_benchmark_harness_flags
    (if bool_decide (lw_candidate_args w = []) then lw_server_args w else lw_candidate_args w) in
  let full := strip_benchmark_harness_flags (lw_server_args w) in
  if controls_effective w then dedupe_extra_server_args full
  else merge_cumulative_extra_server_args (strip_benchmark_harness_flags (kl_server_args previous)) candidate full.

(** [to_str_list] of a list of strings *)
Definition to_str_list (names : list string) : list string := filter (λ n, n ≠ "") (py_strip <$> names).

(** The environment of [_write_current_best] *)
Definition kept_envs previous w : list (string * string) :=
  dmerge (filter (λ kv, kv.1 ∉ to_str_list (lw_unset_envs w)) (kl_envs previous)) (lw_envs w).

(** [kept_launch_controls] *)
Definition kept_launch_controls previous w (args : list string) (envs : list (string * string)) backend :
    list (list string) * list string * string :=
  let declares := bool_decide (lw_remove_args w ≠ []) || bool_decide (lw_unset_envs w ≠ [])
                  || negb (String.eqb (lw_args_mode w) "") in
  let removes := if declares then lw_remove_args w else kl_remove_args previous in
  let unsets := if declares then lw_unset_envs w else kl_unset_envs previous in
  let mode := if declares then lw_args_mode w else kl_args_mode previous in
  (if String.eqb backend "magpie" then removes else removals_absent_from_args args removes,
   filter (.∉ envs.*1) (to_str_list unsets), mode).

Definition write_launch previous w backend : KeptLaunch :=
  let args := _resolved_launch previous w in
  let envs := kept_envs previous w in
  let '(removes, unsets, mode) := kept_launch_controls previous w args envs backend in
  {| kl_server_args := args; kl_envs := envs; kl_remove_args := removes; kl_unset_envs := unsets;
     kl_args_mode :=
       if (bool_decide (lw_remove_args w ≠ []) || bool_decide (lw_unset_envs w ≠ [])) && String.eqb mode ""
          && negb (String.eqb backend "magpie")
       then "replace" else mode |}.

(** ** Removals that remove nothing *)

(** The tokens at which a removal takes something, read from the left as [remove_server_args] does. *)
Fixpoint untouched (removals : list (string * option string)) (tokens : list string) : bool :=
  match tokens with
  | [] => true
  | tok :: rest => Nat.eqb (_removed_token_count removals tok rest) 0 && untouched removals rest
  end.
Lemma remove_loop_shorter removals tokens : length (remove_loop removals tokens) ≤ length tokens.
Proof.
  revert tokens. fix IH 1. intros [|tok rest]; [done|]. cbn [remove_loop]. destruct (_removed_token_count removals tok rest) as [|[|n]].
  - cbn. specialize (IH rest). lia.
  - cbn. specialize (IH rest). lia.
  - destruct rest as [|x rest]; cbn; [lia|]. specialize (IH rest). lia.
Qed.
Lemma untouched_spec removals tokens : untouched removals tokens = true ↔ remove_loop removals tokens = tokens.
Proof.
  induction tokens as [|tok rest IH]; [done|]. cbn [untouched remove_loop]. rewrite andb_true_iff, Nat.eqb_eq, IH.
  pose proof (remove_loop_shorter removals rest) as Hl.
  destruct (_removed_token_count removals tok rest) as [|[|n]].
  - split; [by intros [_ ->]|]. by intros [= ->].
  - split; [by intros [? _]|]. intros E. rewrite E in Hl. simpl in Hl. lia.
  - split; [by intros [? _]|]. intros E. destruct rest as [|x rest]; [done|].
    pose proof (remove_loop_shorter removals rest) as Hl'. rewrite E in Hl'. simpl in Hl'. lia.
Qed.

(** The removals that would take the token. *)
Definition taken_by (tok : string) (rest : list string) : list (string * option string) :=
  if negb (is_long tok) then []
  else let '(flag, value) := partition_eq tok in
       (flag, None) :: match value with Some _ => [(flag, value)] | None => [] end
       ++ match rest with next :: _ => if is_long next then [] else [(flag, Some next)] | [] => [] end.
Lemma count_zero removals tok rest :
  _removed_token_count removals tok rest = 0 ↔ Forall (.∉ removals) (taken_by tok rest).
Proof.
  unfold _removed_token_count, taken_by. destruct (is_long tok); cbn [negb]; [|by split]. destruct (partition_eq tok) as [flag value].
  rewrite Forall_cons, Forall_app.
  assert (∀ x, bool_decide ((flag, Some x) ∈ removals) = false ↔ Forall (.∉ removals) [(flag, Some x)]) as Hone.
  { intros x. rewrite bool_decide_eq_false, Forall_cons. split; [done|by intros [? _]]. }
  destruct (bool_decide_reflect ((flag, None) ∈ removals)) as [Hn|Hn].
  { split; [|by intros [? _]]. intros H. exfalso. destruct value; [done|]. destruct rest as [|x ?]; [done|]. by destruct (is_long x). }
  cbn [orb]. destruct value as [v|].
  - rewrite <- Hone. destruct (bool_decide ((flag, Some v) ∈ removals)); [by split; [|intros (_ & ? & _)]|].
    destruct rest as [|x l]; [done|]. destruct (is_long x); cbn [negb andb]; [done|]. rewrite <- Hone.
    by destruct (bool_decide _); split; [|intros (_ & _ & ?)| |].
  - destruct rest as [|x l]; [done|]. destruct (is_long x); cbn [negb andb]; [done|]. rewrite <- Hone.
    by destruct (bool_decide _); split; [|intros (_ & _ & ?)| |].
Qed.
Lemma untouched_union (parts : list (list (string * option string))) tokens :
  Forall (λ r, untouched r tokens = true) parts → untouched (concat parts) tokens = true.
Proof.
  induction tokens as [|tok rest IH]; [done|]. intros H. cbn [untouched]. apply andb_true_iff. split.
  - apply Nat.eqb_eq, count_zero, Forall_forall. intros r Hr Hin.
    assert (∃ p, p ∈ parts ∧ r ∈ p) as (p & Hp & Hrp).
    { clear -Hin. induction parts as [|q parts IHp]; [by apply not_elem_of_nil in Hin|]. cbn in Hin.
      apply elem_of_app in Hin as [Hin|Hin]; [exists q; split; [left|done]|]. destruct (IHp Hin) as (p & ? & ?). exists p. split; [by right|done]. }
    eapply Forall_forall in H; [|exact Hp]. cbn in H. apply andb_true_iff in H as [H%Nat.eqb_eq _].
    apply count_zero in H. eapply Forall_forall in H; [|exact Hr]. by apply H.
  - apply IH. eapply Forall_impl; [exact H|]. cbn. intros p [_ Hp]%andb_true_iff. done.
Qed.
Lemma absent_untouched args specs : Forall (λ k, remove_server_args args [k] = args) (removals_absent_from_args args specs).
Proof.
  unfold removals_absent_from_args. generalize (_parse_removal_specs specs). intros l.
  enough (∀ acc, Forall (λ k, remove_server_args args [k] = args) acc → Forall (λ k, remove_server_args args [k] = args)
    (foldl (λ k spec, if bool_decide (spec_tokens spec ∉ k) && bool_decide (remove_server_args args [spec_tokens spec] = args)
                      then k ++ [spec_tokens spec] else k) acc l)) as H by (apply H; constructor).
  induction l as [|spec l IH]; intros acc Ha; [done|]. cbn [foldl]. apply IH. destruct (bool_decide (_ ∉ _)); [|done]. cbn [andb].
  case_bool_decide; [|done]. apply Forall_app. split; [done|]. by constructor.
Qed.
Lemma absent_removes_nothing args specs : remove_server_args args (removals_absent_from_args args specs) = args.
Proof.
  pose proof (absent_untouched args specs) as H. unfold remove_server_args at 1. destruct (bool_decide (args = [])) eqn:Ea; [done|].
  cbn [orb]. destruct (bool_decide (removals_absent_from_args args specs = [])); [done|]. apply untouched_spec. unfold _parse_removal_specs.
  apply untouched_union, Forall_fmap. eapply Forall_impl; [exact H|]. cbn. intros k Hk. unfold remove_server_args in Hk.
  rewrite Ea in Hk. cbn in Hk. rewrite app_nil_r in Hk. by apply untouched_spec.
Qed.

(** ** The recorded launch *)

Definition harness_flag : string := "--no-enable-prefix-caching".
Definition without_harness (os : list Opt) : list Opt := filter (λ o, o_flag o ∉ [harness_flag]) os.
Lemma strip_spell os : Forall (λ o, tidy o = true) os → strip_benchmark_harness_flags (spell os) = spell (without_harness os).
Proof.
  intros Ht. unfold strip_benchmark_harness_flags, remove_server_args. case_bool_decide as E; [|change (_ || _) with false; cbv iota].
  - by apply spell_nil in E as ->.
  - change (_parse_removal_specs _BENCHMARK_HARNESS_FLAG_DENYLIST) with (bare [harness_flag]). apply remove_spell; [done|].
    eapply Forall_impl; [exact Ht|]. cbn. intros o Ho E'%list_elem_of_singleton.
    destruct (tidy_spelling _ Ho) as [(v & _ & -> & _)|(_ & _ & [[Hm _]|[_ Hl]])]; [done| |done].
    rewrite E' in Hm. exfalso. revert Hm. by apply (bool_decide_eq_false_1 _).
Qed.
Lemma without_harness_tidy os : Forall (λ o, tidy o = true) os → Forall (λ o, tidy o = true) (without_harness os).
Proof. intros Ht. apply Forall_forall. intros o [_ Ho]%list_elem_of_filter. by eapply Forall_forall in Ht. Qed.
Lemma without_harness_flags os f : f ∈ o_flag <$> without_harness os ↔ f ∈ o_flag <$> os ∧ f ≠ harness_flag.
Proof.
  unfold without_harness. rewrite !list_elem_of_fmap. setoid_rewrite list_elem_of_filter. setoid_rewrite list_elem_of_singleton.
  split; [intros (o & -> & Hn & Ho); eauto|]. intros ((o & -> & Ho) & Hn). eauto.
Qed.
Lemma without_harness_value os f : f ≠ harness_flag → dget f (assign [] (without_harness os)) = dget f (assign [] os).
Proof.
  intros Hf. rewrite !dget_assign. f_equal. unfold without_harness. rewrite list_filter_filter_l; [done|].
  intros o <- E%list_elem_of_singleton. done.
Qed.


(** ** A KEEP on top of another *)

Module KeptDemo.
Definition opt (f : string) (vs : list string) : Opt := {| o_flag := f; o_inline := false; o_values := vs |}.
Definition os0 : list Opt := [opt "--tp" ["8"]; opt "--no-enable-prefix-caching" []; opt "--enable-x" []].
Definition os1 : list Opt := [opt "--kv-cache-dtype" ["fp8"]; opt "--tp" ["4"]].
Definition previous : KeptLaunch :=
  {| kl_server_args := spell os0; kl_envs := [("A", "1")]; kl_remove_args := [["--kv-cache-dtype"]; ["--old"]];
     kl_unset_envs := ["B"; "C"]; kl_args_mode := "replace" |}.
Definition winner : LaunchChange :=
  {| lw_candidate_args := []; lw_server_args := spell os1; lw_envs := [("B", "2")]; lw_remove_args := []; lw_unset_envs := [];
     lw_args_mode := "" |}.
Definition kept : KeptLaunch := write_launch previous winner "".

(** The removal and the unset the winner contradicts are pruned, the others stay. *)
Example kept_record :
  kept = {| kl_server_args := ["--tp"; "4"; "--enable-x"; "--kv-cache-dtype"; "fp8"]; kl_envs := [("A", "1"); ("B", "2")];
            kl_remove_args := [["--old"]]; kl_unset_envs := ["C"]; kl_args_mode := "replace" |}.
Proof. vm_compute. reflexivity. Qed.
End KeptDemo.

